(* ===== verification/_CoqProject ===== *)
-Q . S2P
Prelude.v
Bitmap.v
PgTable.v
IovaAlloc.v
PageWalk.v
DomainLife.v
Mmio.v
IommuHw.v
IommuHwFacts.v
IommuMap.v
PgTableProps.v
IommuProps.v
BufPool.v
BufPoolFacts.v
BufPoolIommu.v
Quota.v
BufPoolProps.v
JobQueue.v
JobQueueFacts.v
JobKick.v
JobPromoteFacts.v
JobSubmitFacts.v
JobKickFacts.v
JobWaitFacts.v
JobSys.v
JobSysSteps.v
JobScenarios.v
JobProps.v
JobHwProps.v
JobWaitProps.v
JobPeerProps.v
Dpb.v
Dpb264.v
Dpb265.v
DecodeEngine.v
DpbFacts.v
EngineFacts.v
Dpb265Facts.v
Dpb264Facts.v
DpbProps.v
DecodeSession.v
SessionFacts.v
EngineProps.v
Bits.v
Vp9Bool.v
Vp9Parser.v
Vp9Syntax.v
Vp9ParserFacts.v
Vp9ParserLocal.v
Vp9Engine.v
Vp9Props.v
ByteStream.v
ByteStreamProps.v
Rbsp.v
RbspFacts.v
H264Parser.v
H264Syntax.v
H264ParserFacts.v
H264Unit.v
H264Safe.v
H264Props.v
H265Parser.v
H265Syntax.v
H265ParserFacts.v
H265SliceFacts.v
H265Unit.v
H265Safe.v
H265Props.v
BitPack.v
Packed264.v
Packed265.v
PackedFacts.v
Packed265Facts.v
PackedProps.v
