(* ===== verification/Prelude.v ===== *)
(** * rkvdec: the verification library

    rkvdec is a video decoding stack for Rockchip SoCs on Windows.  From the top: a
    Media Foundation transform ([src/mft/dll]) feeds access units to a decode engine
    ([src/mft/engine]), which parses them, chooses reference pictures in a decoded
    picture buffer ([src/mft/dpb.cpp]), builds a register bank and submits it with
    IOCTLs to a codec driver ([src/driver/rkvdec]); the driver pins the buffers of the
    job ([src/driver/shared/rkmpp/bufpool.c]), starts one of two cores, hands jobs to
    the peer device that owns the other core, and reports completions; buffers reach
    the hardware through the IOMMU driver ([src/driver/rkiommu_vdec]) over page tables
    and an IOVA allocator ([src/driver/shared/iommu/pgtable.c]).

    ** Conventions

    A C operation is a function on explicit state.  [option] is undefined behaviour or
    a trap: an index out of its array, a failing assertion, a use of freed memory;
    error returns are values (NTSTATUS codes, DpbStatus).  Unsigned words are [Z] with
    [u32], [u64] and [u16] at the places where C wraps.  [x <| f := v |>] is the field
    assignment.  Each component has a file of definitions, a file of facts (its
    invariant and what each operation does to it) and a file of properties, whose
    theorems carry the claim numbers.

    ** The parts

    - IOMMU page tables and the IOVA allocator.  [Bitmap] (the ULONG_PTR bitmaps),
      [PgTable] (pgtable.c: domains, RkIommuAllocIova/FreeIova, RkIommuMapAt/UnmapAt),
      [IovaAlloc] (the allocator refines a finite map from first pages to lengths),
      [PageWalk] (what the two-level walk of the hardware sees), [DomainLife] (creation
      and destruction).  Properties: [PgTableProps].
    - The IOMMU driver.  [Mmio] (a trace of register accesses with supplied answers),
      [IommuHw] (device.c, ifc.c, fault.c of rkiommu_vdec: paging on and off, reset,
      TLB, interrupts, fault handlers, the master registry), [IommuHwFacts] (a monitor
      of the MMU instances that replays a trace), [IommuMap] (RkIommuMapMdl, UnmapMdl),
      [IommuMap] (the contract with the clients).  Properties: [IommuProps], with
      the isolation theorem: what the hardware translates is always a live mapping.
    - The buffer pool.  [BufPool] (bufpool.c over the interface [IommuProvider]),
      [BufPoolFacts], [BufPoolIommu] (the IOMMU driver is such a provider), [Quota]
      (the reservation under concurrency).  Properties: [BufPoolProps].
    - The job queue of the codec driver.  [JobQueue] (job.c under its lock: enqueue,
      selection, promotion, completion, waiting, draining), [JobKick] (job.c towards
      the hardware: the local kick, the interrupt routines, the kick worker,
      SUBMIT_DENSE, foreign jobs; peer_worker.c), the facts files
      [JobQueueFacts], [JobPromoteFacts], [JobSubmitFacts], [JobKickFacts],
      [JobWaitFacts]; [JobSys] (the threads as a step relation, one step per hold of
      the lock and per access outside it), [JobSys] and [JobSysSteps] (its
      invariant, step by step), [JobScenarios] (concrete executions).  Properties:
      [JobProps] (safety under interleavings, lost wake-ups, admission, fairness),
      [JobHwProps] (the register writes of a kick, completions, pinned buffers),
      [JobWaitProps] (WAIT_JOB, the owner drain), [JobPeerProps] (the round trip of a
      kick through the peer device).
    - The decoded picture buffers.  [Dpb] (dpb.h: holds, the insertion sort),
      [Dpb264] (DpbCtx: Dpb_Select with the reference lists, sliding window, MMCO,
      flush), [Dpb265] (H265DpbCtx: marking by the reference picture set), facts in
      [DpbFacts], [Dpb264Facts], [Dpb265Facts].  Properties: [DpbProps].
    - The decode engine.  [DecodeEngine] (decode_engine.cpp: submission, the bumping
      process, poll, release, drain, flush), generic in the codec ([Codec]); in
      [EngineFacts] the class [CodecLaws] states what a DPB promises to the engine,
      and both DPBs are instances.  [DecodeSession] is the transform driving the
      engine, [SessionFacts] its invariant and the display order.  Properties:
      [EngineProps].
    - The VP9 path.  [Bits] (bit strings against integers), [Vp9Bool]
      (vp9_bool_decoder.cpp) with [Vp9Bool] (it simulates the specification's
      bit-by-bit decoder), [Vp9Parser] (vp9_parser.cpp: uncompressed and compressed
      headers, the superframe index), [Vp9Syntax] (the headers as written by the
      syntax tables), [Vp9ParserFacts], [Vp9ParserLocal] (a parser looks only at the
      bits it consumes), [Vp9ParserLocal], [Vp9Engine] (decode_engine_vp9.cpp,
      vp9_dpb.cpp, the state-dependent registers), [Vp9Engine].  Properties:
      [Vp9Props].
    - NAL framing.  [ByteStream] (avcc_to_annexb.cpp, au_iter.cpp), [ByteStream].
      Properties: [ByteStreamProps].
    - The H.264 parser.  [Rbsp] (the bit reader, start codes and emulation prevention,
      which both parser files hold a copy of, and the monad the parsers run in),
      [RbspFacts] (reading back Exp-Golomb codes; the judgements [parses], what a parser
      does on written bits, and [keeps], what it does on any), [H264Parser]
      (parser_glue.cpp: parameter sets and slice header), [H264Unit] (picture order
      counts and the loop over the units of an access unit), [H264Syntax] (the
      syntax as written, and what it denotes), [H264ParserFacts], [H264Unit],
      [H264Safe] (C types and table sizes).  Properties: [H264Props].

    ** How the parts meet

    The client of an interface is proved against a class of laws, the provider
    discharges it: [IommuProvider] between the buffer pool and the IOMMU driver,
    [CodecLaws] between the engine and its DPBs.  The job queue calls the buffer pool's
    definitions directly (a submission resolves and pins handles; FREE_BUFFER asks the
    queue); [JobHwProps] has the theorems across the two.

    ** Fuel

    Loops without a structural measure take fuel and return [None] without it; each has
    a theorem that its fuel is enough.  The IOVA scans run over the bitmap's words and
    bits; the promotions of a round, the wait for a core and the owner drain have the
    lengths of their lists (the drain needs three passes); [bump_until] has the length
    of the reorder queue, since every round removes an entry; [slide] has the number of
    slots, since every round clears a reference.  The loops over tile columns have the
    32 values of a shift count; the walks over a byte stream and over the units of an
    access unit the length of the buffer, since every round passes a start code or a
    length field; the loops of a slice header over modifications and marking commands
    the number of bits of the unit, since every round reads one.

    ** What is not modelled

    Device answers (register reads, interrupt times, the physical pages the kernel
    hands out) are supplies, arbitrary in the theorems.  Memory other than the page
    tables, cache maintenance beyond the order of its calls, time and delays, log
    lines and debug read-backs are left out.  In the H.264 and HEVC engine the table
    packers, the register builders and the pixels are, and a submission carries what
    the parser answers; its DPBs take pictures to be frames and picture order counts to be
    unbounded integers (the parser computes them as [int]).  The HEVC parser, the AV1D
    driver and its IOMMU driver, the CCU driver, the AV1 engine and the PnP and COM glue
    are not modelled; the manifest lists each with its reason.  The plan: the HEVC
    parser, the AV1D job queue, the power sequences of the CCU, and AV1. *)

From stdpp Require Export base tactics list gmap.
From stdpp Require Import options.

#[global] Open Scope Z_scope.

(** ** Record update

    [x <| f := v |>] is the C assignment [x->f = v] on a model record, and
    [x <| f ::= g |>] the read-modify-write [x->f = g(x->f)].  A record type
    declares its eta expansion once ([Eta]); the setter of each field is then
    computed from it. *)
Class Eta (R : Type) := eta : R -> R.
Class FieldSetter {R E : Type} (proj : R -> E) := set_field : (E -> E) -> R -> R.
#[global] Arguments set_field {R E} proj {_} _ _.

Ltac solve_setter :=
  lazymatch goal with
  | |- @FieldSetter ?R ?E ?proj =>
      let i := constr:(_ : Eta R) in
      exact (fun (f : E -> E) (r : R) =>
        ltac:(let t := eval cbv beta delta [eta] in (@eta R i r) in
              let t := eval hnf in t in
              lazymatch eval pattern (proj r) in t with
              | ?g _ => let b := eval cbv beta in (g (f (proj r))) in exact b
              end))
  end.
#[export] Hint Extern 1 (FieldSetter _) => solve_setter : typeclass_instances.

Declare Scope rk_scope.
Delimit Scope rk_scope with rk.
Open Scope rk_scope.
Notation "x <| proj := v |>" := (set_field proj (fun _ => v) x)
  (at level 1, left associativity, proj at level 10,
   format "x  <|  proj  :=  v  |>") : rk_scope.
Notation "x <| proj ::= f |>" := (set_field proj f x)
  (at level 1, left associativity, proj at level 10,
   format "x  <|  proj  ::=  f  |>") : rk_scope.

(** ** Machine integers

    A C [ULONG]/[UINT32] is a [Z] in [0, 2^32); a [ULONG64]/[ULONG_PTR] is a
    [Z] in [0, 2^64).  [u32] and [u64] are the reductions C performs on
    unsigned arithmetic. *)
Definition u32 (x : Z) : Z := x mod 2 ^ 32.
Definition u64 (x : Z) : Z := x mod 2 ^ 64.

Definition is_u32 (x : Z) : Prop := 0 <= x < 2 ^ 32.
Definition is_u64 (x : Z) : Prop := 0 <= x < 2 ^ 64.

Lemma u32_small x : 0 <= x < 2 ^ 32 -> u32 x = x.
Proof. apply Z.mod_small. Qed.

Lemma u64_small x : 0 <= x < 2 ^ 64 -> u64 x = x.
Proof. apply Z.mod_small. Qed.

Lemma u32_range x : 0 <= u32 x < 2 ^ 32.
Proof. apply Z.mod_pos_bound. done. Qed.

Lemma u64_range x : 0 <= u64 x < 2 ^ 64.
Proof. apply Z.mod_pos_bound. done. Qed.

(** [flag w m] is the C test [(w & m) != 0]. *)
Definition flag (w m : Z) : bool := negb (Z.land w m =? 0).

Lemma land_pow2 w b :
  0 <= b -> Z.land w (2 ^ b) = if Z.testbit w b then 2 ^ b else 0.
Proof.
  intros Hb. apply Z.bits_inj'. intros k Hk.
  rewrite Z.land_spec, Z.pow2_bits_eqb by done.
  destruct (Z.eqb_spec b k) as [<-|Hne].
  - rewrite andb_true_r. destruct (Z.testbit w b).
    + by rewrite Z.pow2_bits_true.
    + by rewrite Z.testbit_0_l.
  - rewrite andb_false_r. destruct (Z.testbit w b).
    + by rewrite Z.pow2_bits_false.
    + by rewrite Z.testbit_0_l.
Qed.

Lemma flag_bit w b : 0 <= b -> flag w (Z.shiftl 1 b) = Z.testbit w b.
Proof.
  intros Hb. unfold flag. rewrite Z.shiftl_1_l, land_pow2 by done.
  destruct (Z.testbit w b); [|done].
  pose proof (Z.pow_pos_nonneg 2 b). destruct (Z.eqb_spec (2 ^ b) 0); [lia|done].
Qed.

(** Masks: [u32] is itself a mask, so a chain of truncations, masks and
    disjunctions normalises to one mask per source bit field. *)
Lemma u32_land x : u32 x = Z.land x 0xffffffff.
Proof. change 0xffffffff with (Z.ones 32). by rewrite Z.land_ones. Qed.

Ltac fold_const_land :=
  repeat match goal with
  | |- context [Z.land (Zpos ?a) (Zpos ?b)] =>
      let v := eval vm_compute in (Z.land (Zpos a) (Zpos b)) in
      replace (Z.land (Zpos a) (Zpos b)) with v by reflexivity
  end.
Ltac land_norm :=
  rewrite ?u32_land, ?Z.land_lor_distr_l, <- ?Z.land_assoc; fold_const_land;
  rewrite ?Z.land_0_r, ?Z.land_0_l, ?Z.lor_0_r, ?Z.lor_0_l.

Lemma land_high_mask x : 0 <= x < 2 ^ 32 -> x mod 4096 = 0 -> Z.land x 0xfffff000 = x.
Proof.
  intros Hx Hm. change 4096 with (2 ^ 12) in Hm. change 0xfffff000 with (Z.ldiff (Z.ones 32) (Z.ones 12)).
  apply Z.bits_inj'. intros k Hk. rewrite Z.land_spec, Z.ldiff_spec.
  rewrite !Z.testbit_ones_nonneg by done.
  assert (Hlo : k < 12 -> Z.testbit x k = false).
  { intros. rewrite <- Z.land_ones in Hm by done.
    assert (Z.testbit (Z.land x (Z.ones 12)) k = false) as Ht by (by rewrite Hm, Z.testbit_0_l).
    rewrite Z.land_spec, Z.testbit_ones_nonneg in Ht by done.
    destruct (Z.ltb_spec k 12); [|lia]. by rewrite andb_true_r in Ht. }
  assert (Hhi : 32 <= k -> Z.testbit x k = false).
  { intros. rewrite <- (Z.mod_small x (2 ^ 32)) by done. by apply Z.mod_pow2_bits_high. }
  destruct (Z.ltb_spec k 32), (Z.ltb_spec k 12); simpl;
    rewrite ?andb_true_r, ?andb_false_r; (done || symmetry; auto).
Qed.

(** ** NTSTATUS

    The status codes the drivers return, with the values of the Windows
    headers; [NT_SUCCESS] is the sign test on the 32-bit value. *)
Definition NTSTATUS : Type := Z.
Definition NT_SUCCESS (s : NTSTATUS) : bool := s <? 0x80000000.

Definition STATUS_SUCCESS : NTSTATUS := 0.
Definition STATUS_TIMEOUT : NTSTATUS := 0x102.
Definition STATUS_PENDING : NTSTATUS := 0x103.
Definition STATUS_DEVICE_BUSY : NTSTATUS := 0x80000011.
Definition STATUS_INVALID_HANDLE : NTSTATUS := 0xC0000008.
Definition STATUS_INVALID_PARAMETER : NTSTATUS := 0xC000000D.
Definition STATUS_QUOTA_EXCEEDED : NTSTATUS := 0xC0000044.
Definition STATUS_INSUFFICIENT_RESOURCES : NTSTATUS := 0xC000009A.
Definition STATUS_DEVICE_NOT_READY : NTSTATUS := 0xC00000A3.
Definition STATUS_NOT_SUPPORTED : NTSTATUS := 0xC00000BB.
Definition STATUS_NOT_FOUND : NTSTATUS := 0xC0000225.
Definition STATUS_DEVICE_HARDWARE_ERROR : NTSTATUS := 0xC0000483.
Definition STATUS_IO_TIMEOUT : NTSTATUS := 0xC0000507.

(** ** Executions that may corrupt memory

    A computation that indexes an array or follows a pointer lives in
    [option]: [None] is an access outside the object (undefined behaviour of
    the C code), [Some] a defined step.  stdpp's [x ← m; k] sequences them. *)

Lemma bind_Some_inv {A B} (m : option A) (k : A -> option B) r :
  m ≫= k = Some r -> exists x, m = Some x /\ k x = Some r.
Proof. apply bind_Some. Qed.

(** A loop whose body may be undefined. *)
Definition foldlM {A B} (f : B -> A -> option B) (b : B) (l : list A) : option B :=
  foldl (fun m a => b ← m; f b a) (Some b) l.

Lemma foldlM_cons {A B} (f : B -> A -> option B) b a l :
  foldlM f b (a :: l) = (b' ← f b a; foldlM f b' l).
Proof.
  unfold foldlM. simpl. destruct (f b a) as [b'|]; simpl; [done|].
  induction l as [|a' l IH]; simpl; [done|exact IH].
Qed.
Lemma foldlM_app {A B} (f : B -> A -> option B) l1 l2 : forall b,
  foldlM f b (l1 ++ l2) = (b' ← foldlM f b l1; foldlM f b' l2).
Proof.
  induction l1 as [|a l1 IH]; intros b; [done|]. simpl app. rewrite !foldlM_cons.
  destruct (f b a); simpl; [apply IH|done].
Qed.

(** Invert every sequenced defined step in the hypotheses. *)
Ltac inv_opt :=
  repeat match goal with
  | H : _ ≫= _ = Some _ |- _ =>
      let x := fresh "x" in let E := fresh "E" in
      apply bind_Some_inv in H as (x & E & H); cbv beta in H
  | H : Some _ = Some _ |- _ => injection H as H
  | H : None = Some _ |- _ => discriminate H
  end.

(** Take the sequenced steps whose value is known. *)
Ltac ostep := cbn [mbind option_bind].

(** Case on the boolean tests of the code and turn them into propositions. *)
Ltac case_bool :=
  match goal with
  | |- context [Z.eqb ?a ?b] => destruct (Z.eqb_spec a b)
  | |- context [Z.ltb ?a ?b] => destruct (Z.ltb_spec a b)
  | |- context [Z.leb ?a ?b] => destruct (Z.leb_spec a b)
  | H : context [Z.eqb ?a ?b] |- _ => destruct (Z.eqb_spec a b)
  | H : context [Z.ltb ?a ?b] |- _ => destruct (Z.ltb_spec a b)
  | H : context [Z.leb ?a ?b] |- _ => destruct (Z.leb_spec a b)
  end.

(** The linear facts every component needs about page/word arithmetic. *)
Ltac zdm := Z.div_mod_to_equations; lia.

Create HintDb rk discriminated.
#[export] Hint Resolve u32_range u64_range : rk.
Create Rewrite HintDb rk.
