(* ===== verification/Bitmap.v ===== *)
(** * Word bitmaps

    The [ULONG_PTR *] bitmaps of [src/driver/shared/iommu/pgtable.c]: an array
    of 64-bit words of a fixed length, with bit [p] at bit [p % 64] of word
    [p / 64].  Reads and writes outside the array are [None].  The lemmas turn
    the word operations into updates of a boolean function on bit numbers. *)

From S2P Require Import Prelude.

Definition bitsPerWord : Z := 64.

(** A heap array of [ULONG_PTR]: its length in words, and the words that are
    not zero ([RtlZeroMemory] gives the empty map). *)
Record words := Words { w_len : Z; w_data : gmap Z Z }.
#[export] Instance eta_words : Eta words := fun a => Words (w_len a) (w_data a).

Definition zero_words (len : Z) : words := Words len ∅.

Definition word (a : words) (w : Z) : Z := default 0 (w_data a !! w).

(** [a[w]] and [a[w] = v] with the array bound made explicit. *)
Definition wget (a : words) (w : Z) : option Z :=
  if (0 <=? w) && (w <? w_len a) then Some (word a w) else None.
Definition wset (a : words) (w v : Z) : option words :=
  if (0 <=? w) && (w <? w_len a) then Some (a <| w_data ::= insert w v |>) else None.

(** [a[p / 64] & ((ULONG_PTR)1 << (p % 64))] *)
Definition test_bit (a : words) (p : Z) : option bool :=
  w ← wget a (p / bitsPerWord);
  Some (flag w (Z.shiftl 1 (p mod bitsPerWord))).

(** [a[p / 64] |= (ULONG_PTR)1 << (p % 64)] *)
Definition set_bit (a : words) (p : Z) : option words :=
  w ← wget a (p / bitsPerWord);
  wset a (p / bitsPerWord) (Z.lor w (Z.shiftl 1 (p mod bitsPerWord))).

(** [a[p / 64] &= ~((ULONG_PTR)1 << (p % 64))] *)
Definition clear_bit (a : words) (p : Z) : option words :=
  w ← wget a (p / bitsPerWord);
  wset a (p / bitsPerWord) (Z.land w (Z.lnot (Z.shiftl 1 (p mod bitsPerWord)))).

(** The loops [for (k = p; k < p + n; k++)] over single-bit updates. *)
Fixpoint set_bits (a : words) (p : Z) (n : nat) : option words :=
  match n with
  | O => Some a
  | S n' => a' ← set_bit a p; set_bits a' (p + 1) n'
  end.

(** ** Bit view *)

Definition bit (a : words) (p : Z) : bool :=
  Z.testbit (word a (p / bitsPerWord)) (p mod bitsPerWord).

Definition in_words (a : words) (p : Z) : Prop := 0 <= p < w_len a * bitsPerWord.

Lemma bit_zero len p : bit (zero_words len) p = false.
Proof. unfold bit, word. simpl. rewrite lookup_empty. apply Z.testbit_0_l. Qed.

Lemma page_word_inj p q :
  p / bitsPerWord = q / bitsPerWord -> p mod bitsPerWord = q mod bitsPerWord -> p = q.
Proof. unfold bitsPerWord. intros. zdm. Qed.

Lemma page_bit_range p : 0 <= p mod bitsPerWord < 64.
Proof. apply Z.mod_pos_bound. done. Qed.

Lemma wget_spec a w v : wget a w = Some v <-> 0 <= w < w_len a /\ v = word a w.
Proof.
  unfold wget. repeat case_bool; simpl; split; intros; destruct_and?; naive_solver lia.
Qed.

Lemma wget_word a p : in_words a p -> wget a (p / bitsPerWord) = Some (word a (p / bitsPerWord)).
Proof. unfold in_words, bitsPerWord. intros. apply wget_spec. split; [zdm|done]. Qed.

Lemma wget_oob a p : ~ in_words a p -> wget a (p / bitsPerWord) = None.
Proof.
  intros H. destruct (wget a (p / bitsPerWord)) eqn:E; [|done].
  apply wget_spec in E as [E _]. destruct H. unfold in_words, bitsPerWord in *. zdm.
Qed.

Lemma wset_word a p v :
  in_words a p -> wset a (p / bitsPerWord) v = Some (a <| w_data ::= insert (p / bitsPerWord) v |>).
Proof.
  unfold in_words, bitsPerWord, wset. intros.
  repeat case_bool; simpl; (done || zdm).
Qed.

Lemma test_bit_spec a p : in_words a p -> test_bit a p = Some (bit a p).
Proof.
  intros H. unfold test_bit. rewrite wget_word by done. simpl.
  rewrite flag_bit; [done|]. pose proof (page_bit_range p). lia.
Qed.

Lemma test_bit_oob a p : ~ in_words a p -> test_bit a p = None.
Proof. intros H. unfold test_bit. by rewrite wget_oob. Qed.

(** A word update that changes exactly the bit of page [p] to [v]. *)
Lemma bit_word_update a p w' v q :
  (forall k, 0 <= k < 64 ->
     Z.testbit w' k = if decide (k = p mod bitsPerWord) then v
                      else Z.testbit (word a (p / bitsPerWord)) k) ->
  bit (a <| w_data ::= insert (p / bitsPerWord) w' |>) q
  = if decide (q = p) then v else bit a q.
Proof.
  intros Hw. unfold bit, word. simpl.
  destruct (decide (q / bitsPerWord = p / bitsPerWord)) as [Heq|Hne].
  - rewrite Heq, lookup_insert_eq. simpl.
    rewrite Hw by apply page_bit_range. unfold word.
    destruct (decide (q = p)) as [->|Hqp]; [by rewrite decide_True|].
    rewrite decide_False; [done|]. intros Hm. by apply Hqp, page_word_inj.
  - rewrite lookup_insert_ne by done. rewrite decide_False; [done|congruence].
Qed.

Lemma set_bit_spec a p :
  in_words a p ->
  exists a', set_bit a p = Some a' /\ w_len a' = w_len a /\
    forall q, bit a' q = (if decide (q = p) then true else bit a q).
Proof.
  intros H. unfold set_bit. rewrite wget_word by done. simpl.
  rewrite wset_word by done. eexists. split; [done|]. split; [done|].
  intros q. apply bit_word_update. intros k Hk.
  rewrite Z.lor_spec, Z.shiftl_1_l, Z.pow2_bits_eqb by apply page_bit_range.
  case_decide as Hd; subst.
  - by rewrite Z.eqb_refl, orb_true_r.
  - destruct (Z.eqb_spec (p mod bitsPerWord) k); [congruence|]. apply orb_false_r.
Qed.

Lemma clear_bit_spec a p :
  in_words a p ->
  exists a', clear_bit a p = Some a' /\ w_len a' = w_len a /\
    forall q, bit a' q = (if decide (q = p) then false else bit a q).
Proof.
  intros H. unfold clear_bit. rewrite wget_word by done. simpl.
  rewrite wset_word by done. eexists. split; [done|]. split; [done|].
  intros q. apply bit_word_update. intros k Hk.
  rewrite Z.land_spec, Z.lnot_spec, Z.shiftl_1_l, Z.pow2_bits_eqb
    by (apply page_bit_range || lia).
  case_decide as Hd; subst.
  - by rewrite Z.eqb_refl, andb_false_r.
  - destruct (Z.eqb_spec (p mod bitsPerWord) k); [congruence|]. apply andb_true_r.
Qed.

Lemma set_bits_spec n a p :
  0 <= p -> p + Z.of_nat n <= w_len a * bitsPerWord ->
  exists a', set_bits a p n = Some a' /\ w_len a' = w_len a /\
    forall q, bit a' q = (if decide (p <= q < p + Z.of_nat n) then true else bit a q).
Proof.
  revert a p. induction n as [|n IH]; intros a p Hp Hn.
  { exists a. split; [done|]. split; [done|]. intros q. rewrite decide_False; [done|lia]. }
  destruct (set_bit_spec a p) as (a1 & E1 & L1 & B1); [unfold in_words; lia|].
  destruct (IH a1 (p + 1)) as (a2 & E2 & L2 & B2); [lia|rewrite L1; lia|].
  exists a2. simpl. rewrite E1. simpl. split; [done|]. split; [congruence|].
  intros q. rewrite B2, B1. repeat case_decide; (done || lia).
Qed.
