(* ===== verification/PgTable.v ===== *)
(** * IOMMU page tables and the IOVA allocator

    Model of [src/driver/shared/iommu/pgtable.c] (both IOMMU variants): the
    domain record, domain creation and destruction with their error paths, the
    top-down bitmap allocator with its start and end markers, and the
    map/unmap walks over the two-level page table. *)

From S2P Require Import Prelude Bitmap.

(** ** Constants of pgtable.h *)
Definition RK_IOMMU_PD_ENTRIES : Z := 1024.
Definition RK_IOMMU_PT_ENTRIES : Z := 1024.
Definition RK_IOMMU_PAGE_SIZE : Z := 4096.
Definition RK_IOMMU_IOVA_PAGES : Z := Z.shiftl 1 20.

Definition RK_PTE_PAGE_VALID : Z := 1.
Definition RK_PTE_PAGE_READABLE : Z := 2.
Definition RK_PTE_PAGE_WRITABLE : Z := 4.
Definition RK_PTE_PAGE_ADDRESS_MASK : Z := 0xfffff000.
Definition RK_DTE_PT_VALID : Z := 1.
Definition RK_DTE_PT_ADDRESS_MASK : Z := 0xfffff000.
Definition AV1_PTE_VALID : Z := 1.
Definition AV1_PTE_WRITABLE : Z := 4.
Definition AV1_PTE_PAGE_ADDR_LOW_MASK : Z := 0xfffff000.
Definition AV1_PTE_PAGE_ADDR_HIGH_MASK : Z := 0xff.
Definition AV1_PTE_PAGE_ADDR_HIGH_SHIFT : Z := 28.
Definition AV1_DTE_VALID : Z := 1.
Definition AV1_DTE_PT_ADDR_MASK : Z := 0xffffffc0.
Definition AV1_PTA_DT_ADDR_MASK : Z := 0xfffffc00.
Definition AV1_PTA_MODE_4K : Z := 0.

(** ** The kernel memory the code allocates from

    Contiguous 4 KiB pages are named by their physical address, which also
    stands for the kernel VA of the uncached mapping; a page holds 1024 words
    (absent words are 0).  The answers of [MmAllocateContiguousNodeMemory] and
    [ExAllocatePool2], which are not code of the repository, are read off two
    supplies; [k_pool] is the multiset of live pool blocks by tag. *)
Inductive ptag := Tag_mDkR | Tag_bIkR | Tag_sIkR | Tag_eIkR.
#[export] Instance ptag_eq_dec : EqDecision ptag.
Proof. solve_decision. Defined.

Record kmem := KMem {
  k_pages : gmap Z (gmap Z Z);
  k_page_supply : list (option Z);
  k_pool : list ptag;
  k_pool_supply : list bool;
}.
#[export] Instance eta_kmem : Eta kmem :=
  fun k => KMem (k_pages k) (k_page_supply k) (k_pool k) (k_pool_supply k).

Definition ExAllocatePool2 (k : kmem) (t : ptag) : bool * kmem :=
  match k_pool_supply k with
  | true :: s => (true, k <| k_pool ::= cons t |> <| k_pool_supply := s |>)
  | false :: s => (false, k <| k_pool_supply := s |>)
  | [] => (false, k)
  end.

Fixpoint remove_one (t : ptag) (l : list ptag) : list ptag :=
  match l with
  | [] => []
  | x :: l' => if decide (x = t) then l' else x :: remove_one t l'
  end.

Definition ExFreePoolWithTag (k : kmem) (t : ptag) : kmem :=
  k <| k_pool ::= remove_one t |>.

(** Word [i] of page [p]; reading or writing a page that is not live, or past
    its 1024 words, is undefined. *)
Definition page_word (k : kmem) (p i : Z) : Z :=
  default 0 (default ∅ (k_pages k !! p) !! i).

Definition page_ok (k : kmem) (p i : Z) : bool :=
  bool_decide (is_Some (k_pages k !! p)) && (0 <=? i) && (i <? 1024).

Definition page_write (k : kmem) (p i v : Z) : option kmem :=
  if page_ok k p i
  then Some (k <| k_pages ::= alter (insert i v) p |>)
  else None.

(** ** AllocPageBelow4G / FreePageBelow4G *)
Definition AllocPageBelow4G (k : kmem) : option Z * Z * kmem :=
  match k_page_supply k with
  | Some va :: s =>
      (Some va, u32 va, k <| k_pages ::= insert va ∅ |> <| k_page_supply := s |>)
  | None :: s => (None, 0, k <| k_page_supply := s |>)
  | [] => (None, 0, k)
  end.

Definition FreePageBelow4G (k : kmem) (va : Z) : kmem := k <| k_pages ::= delete va |>.

(** ** RKIOMMU_DOMAIN *)
Record domain := Domain {
  IsAv1d : bool;
  Pta : option Z;
  PtaPhys : Z;
  Pd : option Z;
  PdPhys : Z;
  Pts : gmap Z Z;
  PtPhys : gmap Z Z;
  IovaBitmap : words;
  IovaStartBitmap : words;
  IovaEndBitmap : words;
}.
#[export] Instance eta_domain : Eta domain := fun d =>
  Domain (IsAv1d d) (Pta d) (PtaPhys d) (Pd d) (PdPhys d) (Pts d) (PtPhys d)
         (IovaBitmap d) (IovaStartBitmap d) (IovaEndBitmap d).

Definition bitmapWords : Z := RK_IOMMU_IOVA_PAGES / bitsPerWord.

(** The zeroed domain both creators start from, with the bitmaps they size. *)
Definition zero_domain (av1 : bool) : domain :=
  Domain av1 None 0 None 0 ∅ ∅ (zero_words 0) (zero_words 0) (zero_words 0).

(** The bitmaps after [RtlZeroMemory] and the reservation of page 0. *)
Definition init_bitmaps (d : domain) : option domain :=
  b ← set_bit (zero_words bitmapWords) 0;
  s ← set_bit (zero_words bitmapWords) 0;
  e ← set_bit (zero_words (bitmapWords + 1)) 1;
  Some (d <| IovaBitmap := b |> <| IovaStartBitmap := s |> <| IovaEndBitmap := e |>).

Definition kRcbPage : Z := 0xFFF00000 / RK_IOMMU_PAGE_SIZE.
Definition kRcbCount : Z := 0x00100000 / RK_IOMMU_PAGE_SIZE.

(** The RCB-SRAM reservation of the v2 domain: the loop runs while
    [p < kRcbPage + kRcbCount] and [p < RK_IOMMU_IOVA_PAGES]. *)
Definition reserve_rcb (d : domain) : option domain :=
  b ← set_bits (IovaBitmap d) kRcbPage
        (Z.to_nat (Z.min (kRcbPage + kRcbCount) RK_IOMMU_IOVA_PAGES - kRcbPage));
  if kRcbPage <? RK_IOMMU_IOVA_PAGES then
    s ← set_bit (IovaStartBitmap d) kRcbPage;
    e ← set_bit (IovaEndBitmap d) (kRcbPage + kRcbCount);
    Some (d <| IovaBitmap := b |> <| IovaStartBitmap := s |> <| IovaEndBitmap := e |>)
  else Some (d <| IovaBitmap := b |>).

(** ** RkIommuDomainCreateVdec

    The result carries the status and, on success, the new domain; every
    failing branch frees what the earlier steps allocated. *)
Definition RkIommuDomainCreateVdec (k : kmem) : option (NTSTATUS * option domain * kmem) :=
  let (ok, k) := ExAllocatePool2 k Tag_mDkR in
  if negb ok then Some (STATUS_INSUFFICIENT_RESOURCES, None, k) else
  let d := zero_domain false in
  let '(pd, pdphys, k) := AllocPageBelow4G k in
  match pd with
  | None => Some (STATUS_INSUFFICIENT_RESOURCES, None, ExFreePoolWithTag k Tag_mDkR)
  | Some pdva =>
  let d := d <| Pd := pd |> <| PdPhys := pdphys |> in
  let (ok, k) := ExAllocatePool2 k Tag_bIkR in
  if negb ok then
    Some (STATUS_INSUFFICIENT_RESOURCES, None,
          ExFreePoolWithTag (FreePageBelow4G k pdva) Tag_mDkR) else
  let (ok, k) := ExAllocatePool2 k Tag_sIkR in
  if negb ok then
    Some (STATUS_INSUFFICIENT_RESOURCES, None,
          ExFreePoolWithTag (FreePageBelow4G (ExFreePoolWithTag k Tag_bIkR) pdva) Tag_mDkR) else
  let (ok, k) := ExAllocatePool2 k Tag_eIkR in
  if negb ok then
    Some (STATUS_INSUFFICIENT_RESOURCES, None,
          ExFreePoolWithTag
            (FreePageBelow4G
               (ExFreePoolWithTag (ExFreePoolWithTag k Tag_sIkR) Tag_bIkR) pdva) Tag_mDkR) else
  d ← init_bitmaps d;
  d ← reserve_rcb d;
  Some (STATUS_SUCCESS, Some d, k)
  end.

(** ** RkIommuDomainCreateAv1d

    [d->Pta[0]] is a 64-bit store: words 0 and 1 of the page. *)
Definition RkIommuDomainCreateAv1d (k : kmem) : option (NTSTATUS * option domain * kmem) :=
  let (ok, k) := ExAllocatePool2 k Tag_mDkR in
  if negb ok then Some (STATUS_INSUFFICIENT_RESOURCES, None, k) else
  let d := zero_domain true in
  let '(pd, pdphys, k) := AllocPageBelow4G k in
  match pd with
  | None => Some (STATUS_INSUFFICIENT_RESOURCES, None, ExFreePoolWithTag k Tag_mDkR)
  | Some pdva =>
  let d := d <| Pd := pd |> <| PdPhys := pdphys |> in
  let '(pta, ptaPhys, k) := AllocPageBelow4G k in
  match pta with
  | None => Some (STATUS_INSUFFICIENT_RESOURCES, None,
                  ExFreePoolWithTag (FreePageBelow4G k pdva) Tag_mDkR)
  | Some ptava =>
  let d := d <| Pta := pta |> <| PtaPhys := ptaPhys |> in
  let pta0 := Z.lor (Z.land (PdPhys d) AV1_PTA_DT_ADDR_MASK) AV1_PTA_MODE_4K in
  k ← page_write k ptava 0 (u32 pta0);
  k ← page_write k ptava 1 (Z.shiftr pta0 32);
  let free_pages k := FreePageBelow4G (FreePageBelow4G k ptava) pdva in
  let (ok, k) := ExAllocatePool2 k Tag_bIkR in
  if negb ok then
    Some (STATUS_INSUFFICIENT_RESOURCES, None, ExFreePoolWithTag (free_pages k) Tag_mDkR) else
  let (ok, k) := ExAllocatePool2 k Tag_sIkR in
  if negb ok then
    Some (STATUS_INSUFFICIENT_RESOURCES, None,
          ExFreePoolWithTag (free_pages (ExFreePoolWithTag k Tag_bIkR)) Tag_mDkR) else
  let (ok, k) := ExAllocatePool2 k Tag_eIkR in
  if negb ok then
    Some (STATUS_INSUFFICIENT_RESOURCES, None,
          ExFreePoolWithTag
            (free_pages (ExFreePoolWithTag (ExFreePoolWithTag k Tag_sIkR) Tag_bIkR)) Tag_mDkR) else
  d ← init_bitmaps d;
  Some (STATUS_SUCCESS, Some d, k)
  end
  end.

(** ** RkIommuDomainDestroy *)
Definition RkIommuDomainDestroy (dom : option domain) (k : kmem) : kmem :=
  match dom with
  | None => k
  | Some d =>
      let free_opt k o := match o with Some va => FreePageBelow4G k va | None => k end in
      let k := foldl (fun k i => free_opt k (Pts d !! i)) k (seqZ 0 RK_IOMMU_PD_ENTRIES) in
      let k := free_opt k (Pd d) in
      let k := free_opt k (Pta d) in
      let k := ExFreePoolWithTag k Tag_bIkR in
      let k := ExFreePoolWithTag k Tag_sIkR in
      let k := ExFreePoolWithTag k Tag_eIkR in
      ExFreePoolWithTag k Tag_mDkR
  end.

(** ** RkIommuAllocIova

    The inner loop walks the bits of one word from 63 down, the outer loop the
    words from the last down; [run] is the length of the current run of clear
    bits.  The word is read once per outer iteration.  ([start], which the C
    code sets and never reads, is not kept.) *)
Fixpoint scan_bits (w wordv : Z) (b : nat) (run PageCount : Z) : Z + Z :=
  match b with
  | O => inr run
  | S b' =>
      let bitIdx := w * bitsPerWord + Z.of_nat b' in
      if negb (flag wordv (Z.shiftl 1 (Z.of_nat b'))) then
        let run := run + 1 in
        if run =? PageCount then inl bitIdx
        else scan_bits w wordv b' run PageCount
      else scan_bits w wordv b' 0 PageCount
  end.

Fixpoint scan_words (bm : words) (w : nat) (run PageCount : Z) : option (option Z) :=
  match w with
  | O => Some None
  | S w' =>
      wordv ← wget bm (Z.of_nat w');
      match scan_bits (Z.of_nat w') wordv 64 run PageCount with
      | inl base => Some (Some base)
      | inr run => scan_words bm w' run PageCount
      end
  end.

Definition RkIommuAllocIova (d : domain) (PageCount : Z) : option (NTSTATUS * Z * domain) :=
  let totalWords := RK_IOMMU_IOVA_PAGES / bitsPerWord in
  found ← scan_words (IovaBitmap d) (Z.to_nat totalWords) 0 PageCount;
  match found with
  | Some base =>
      b ← set_bits (IovaBitmap d) base (Z.to_nat PageCount);
      s ← set_bit (IovaStartBitmap d) base;
      e ← set_bit (IovaEndBitmap d) (base + PageCount);
      Some (STATUS_SUCCESS, base * RK_IOMMU_PAGE_SIZE,
            d <| IovaBitmap := b |> <| IovaStartBitmap := s |> <| IovaEndBitmap := e |>)
  | None => Some (STATUS_INSUFFICIENT_RESOURCES, 0, d)
  end.

(** ** RkIommuFreeIova

    [RK_IOMMU_IOVA_PAGES - PageCount] and [startPage + i] are 32-bit unsigned. *)
Fixpoint free_loop (bm : words) (startPage i : Z) (n : nat) : option words :=
  match n with
  | O => Some bm
  | S n' => bm' ← clear_bit bm (u32 (startPage + i)); free_loop bm' startPage (i + 1) n'
  end.

Definition RkIommuFreeIova (d : domain) (Iova PageCount : Z) : option domain :=
  if Z.shiftl RK_IOMMU_IOVA_PAGES 12 <=? Iova then Some d else
  if negb (Z.land Iova 0xFFF =? 0) then Some d else
  let startPage := u32 (Z.shiftr Iova 12) in
  if (PageCount =? 0) || (u32 (RK_IOMMU_IOVA_PAGES - PageCount) <? startPage) then Some d else
  st ← test_bit (IovaStartBitmap d) startPage;
  if negb (st : bool) then Some d else
  b ← free_loop (IovaBitmap d) startPage 0 (Z.to_nat PageCount);
  s ← clear_bit (IovaStartBitmap d) startPage;
  e ← clear_bit (IovaEndBitmap d) (u32 (startPage + PageCount));
  Some (d <| IovaBitmap := b |> <| IovaStartBitmap := s |> <| IovaEndBitmap := e |>).

(** ** RkIommuUnmapAt *)
Fixpoint unmap_loop (d : domain) (first_pdi first_pti i : Z) (n : nat) (k : kmem) : option kmem :=
  match n with
  | O => Some k
  | S n' =>
      let pdi := first_pdi + u32 (first_pti + i) / RK_IOMMU_PT_ENTRIES in
      let pti := u32 (first_pti + i) mod RK_IOMMU_PT_ENTRIES in
      if RK_IOMMU_PD_ENTRIES <=? pdi then Some k else
      match Pts d !! pdi with
      | None => unmap_loop d first_pdi first_pti (i + 1) n' k
      | Some pt =>
          k ← page_write k pt pti 0;
          unmap_loop d first_pdi first_pti (i + 1) n' k
      end
  end.

Definition iova_pdi (Iova : Z) : Z := Z.land (Z.shiftr Iova 22) 0x3ff.
Definition iova_pti (Iova : Z) : Z := Z.land (Z.shiftr Iova 12) 0x3ff.

Definition RkIommuUnmapAt (d : domain) (Iova PageCount : Z) (k : kmem) : option kmem :=
  unmap_loop d (iova_pdi Iova) (iova_pti Iova) 0 (Z.to_nat PageCount) k.

(** ** RkIommuMapAt *)
Definition make_dte (av1 : bool) (ptphys : Z) : Z :=
  if av1 then Z.lor (Z.land ptphys AV1_DTE_PT_ADDR_MASK) AV1_DTE_VALID
  else Z.lor ptphys RK_DTE_PT_VALID.

Definition make_pte (av1 : bool) (pagePhys Flags : Z) : Z :=
  if av1 then
    let lo := u32 (Z.land pagePhys AV1_PTE_PAGE_ADDR_LOW_MASK) in
    let hi8 := u32 (Z.land (Z.shiftr pagePhys 32) AV1_PTE_PAGE_ADDR_HIGH_MASK) in
    let pte := Z.lor (Z.lor lo (u32 (Z.shiftl hi8 AV1_PTE_PAGE_ADDR_HIGH_SHIFT))) AV1_PTE_VALID in
    if flag Flags RK_PTE_PAGE_WRITABLE then Z.lor pte AV1_PTE_WRITABLE else pte
  else
    Z.lor (Z.lor (u32 (Z.land pagePhys RK_PTE_PAGE_ADDRESS_MASK))
                 (Z.land Flags (Z.lor RK_PTE_PAGE_READABLE RK_PTE_PAGE_WRITABLE)))
          RK_PTE_PAGE_VALID.

(** The page table of directory entry [pdi], allocated on first use; [false]
    when the page cannot be allocated ([*OutPhys] is then 0). *)
Definition ensure_pt (d : domain) (pdi : Z) (k : kmem) : option (bool * domain * kmem) :=
  match Pts d !! pdi with
  | Some _ => Some (true, d, k)
  | None =>
      let '(pt, ptphys, k) := AllocPageBelow4G k in
      let d := d <| PtPhys ::= insert pdi ptphys |> in
      match pt with
      | None => Some (false, d, k)
      | Some ptva =>
          let d := d <| Pts ::= insert pdi ptva |> in
          pd ← Pd d;
          k ← page_write k pd pdi (make_dte (IsAv1d d) ptphys);
          Some (true, d, k)
      end
  end.

Fixpoint map_loop (d : domain) (Iova PhysAddr Flags i : Z) (n : nat) (k : kmem)
  : option (NTSTATUS * domain * kmem) :=
  match n with
  | O => Some (STATUS_SUCCESS, d, k)
  | S n' =>
      let pdi := iova_pdi Iova + u32 (iova_pti Iova + i) / RK_IOMMU_PT_ENTRIES in
      let pti := u32 (iova_pti Iova + i) mod RK_IOMMU_PT_ENTRIES in
      let rollback d k :=
        if 0 <? i then RkIommuUnmapAt d Iova i k else Some k in
      if RK_IOMMU_PD_ENTRIES <=? pdi then
        k ← rollback d k; Some (STATUS_INVALID_PARAMETER, d, k)
      else
        '(ok, d, k) ← ensure_pt d pdi k;
        if negb (ok : bool) then
          k ← rollback d k; Some (STATUS_INSUFFICIENT_RESOURCES, d, k)
        else
          let pagePhys := u64 (PhysAddr + i * RK_IOMMU_PAGE_SIZE) in
          pt ← Pts d !! pdi;
          k ← page_write k pt pti (make_pte (IsAv1d d) pagePhys Flags);
          map_loop d Iova PhysAddr Flags (i + 1) n' k
  end.

Definition RkIommuMapAt (d : domain) (Iova PhysAddr PageCount Flags : Z) (k : kmem)
  : option (NTSTATUS * domain * kmem) :=
  map_loop d Iova PhysAddr Flags 0 (Z.to_nat PageCount) k.
