(* ===== verification/IovaAlloc.v ===== *)
(** * The IOVA allocator refines an allocation map

    Abstract specification of the allocator half of
    [src/driver/shared/iommu/pgtable.c]: a finite map from the first page of
    every live range to its page count.  The three bitmaps represent such a
    map ([iova_rep]); allocation and release are refined by insertion and
    deletion, and the end markers recover the size of a range. *)

From S2P Require Import Prelude Bitmap PgTable.

#[local] Abbreviation pages := RK_IOMMU_IOVA_PAGES (only parsing).

(** ** The abstract allocator *)
Definition covered (A : gmap Z Z) (p : Z) : Prop :=
  exists b n, A !! b = Some n /\ b <= p < b + n.

Definition free_run (A : gmap Z Z) (base n : Z) : Prop :=
  0 <= base /\ base + n <= pages /\ forall p, base <= p < base + n -> ~ covered A p.

(** The allocator's choice: the free range with the highest base. *)
Definition highest_free_run (A : gmap Z Z) (base n : Z) : Prop :=
  free_run A base n /\ forall base', free_run A base' n -> base' <= base.

Record iova_rep (d : domain) (A : gmap Z Z) : Prop := IovaRep {
  rep_len : w_len (IovaBitmap d) = bitmapWords;
  rep_len_start : w_len (IovaStartBitmap d) = bitmapWords;
  rep_len_end : w_len (IovaEndBitmap d) = bitmapWords + 1;
  rep_range b n : A !! b = Some n -> 0 <= b /\ 0 < n /\ b + n <= pages;
  rep_disjoint b1 n1 b2 n2 :
    A !! b1 = Some n1 -> A !! b2 = Some n2 -> b1 < b2 -> b1 + n1 <= b2;
  rep_bit p : 0 <= p < pages -> bit (IovaBitmap d) p = true <-> covered A p;
  rep_start p : 0 <= p < pages -> bit (IovaStartBitmap d) p = true <-> is_Some (A !! p);
  rep_end p : 0 <= p <= pages ->
    bit (IovaEndBitmap d) p = true <-> exists b n, A !! b = Some n /\ b + n = p;
}.

Lemma pages_val : pages = 1048576.
Proof. reflexivity. Qed.
Lemma bitmapWords_val : bitmapWords = 16384.
Proof. reflexivity. Qed.

(** Normalise the geometry constants before [lia]. *)
Ltac geo :=
  rewrite ?pages_val, ?bitmapWords_val in *;
  unfold in_words, bitsPerWord, RK_IOMMU_PAGE_SIZE in *.

(** ** The scan as a walk over page numbers *)
Section scan.
Context (free : Z -> bool) (PageCount : Z).

Fixpoint scan_pages (p : nat) (run : Z) : option Z :=
  match p with
  | O => None
  | S p' =>
      if free (Z.of_nat p') then
        if run + 1 =? PageCount then Some (Z.of_nat p') else scan_pages p' (run + 1)
      else scan_pages p' 0
  end.

Definition all_free (b : Z) : Prop := forall q, b <= q < b + PageCount -> free q = true.

(** The state of the descending scan at page [p]: [run] free pages from [p]
    up, ended by the top or a used page, and no fit with a base [>= p]. *)
Definition scan_inv (top : Z) (p : nat) (run : Z) : Prop :=
  0 <= run < PageCount /\
  (forall q, Z.of_nat p <= q < Z.of_nat p + run -> free q = true) /\
  Z.of_nat p + run <= top /\
  (Z.of_nat p + run = top \/ free (Z.of_nat p + run) = false) /\
  (forall b, Z.of_nat p <= b -> b + PageCount <= top -> ~ all_free b).

Lemma scan_inv_used top p run :
  scan_inv top (S p) run -> free (Z.of_nat p) = false -> scan_inv top p 0.
Proof.
  intros (Hr & Hf & Ht & Hb & Hn) Hu.
  refine (conj _ (conj _ (conj _ (conj _ _)))); [lia|intros q Hq; lia|lia| |].
  - right. by rewrite Z.add_0_r.
  - intros b Hb1 Hb2 Hall. destruct (decide (b = Z.of_nat p)) as [->|].
    + rewrite Hall in Hu; [done|lia].
    + apply (Hn b); [lia..|done].
Qed.

Lemma scan_inv_free top p run :
  scan_inv top (S p) run -> free (Z.of_nat p) = true -> run + 1 <> PageCount ->
  scan_inv top p (run + 1).
Proof.
  intros (Hr & Hf & Ht & Hb & Hn) Hu Hne.
  refine (conj _ (conj _ (conj _ (conj _ _)))); [lia| |lia| |].
  - intros q Hq. destruct (decide (q = Z.of_nat p)) as [->|]; [done|apply Hf; lia].
  - replace (Z.of_nat p + (run + 1)) with (Z.of_nat (S p) + run) by lia. done.
  - intros b Hb1 Hb2 Hall. destruct (decide (b = Z.of_nat p)) as [->|].
    + destruct Hb as [Hb|Hb]; [lia|]. rewrite Hall in Hb; [done|lia].
    + apply (Hn b); [lia..|done].
Qed.

Lemma scan_pages_found top p run b :
  scan_inv top p run -> scan_pages p run = Some b ->
  0 <= b /\ b + PageCount <= top /\ all_free b /\
  forall b', b' + PageCount <= top -> all_free b' -> b' <= b.
Proof.
  revert run. induction p as [|p IH]; intros run Hinv; cbn [scan_pages]; [done|].
  destruct (free (Z.of_nat p)) eqn:Hf.
  - destruct (Z.eqb_spec (run + 1) PageCount) as [He|Hne].
    + intros [= <-]. destruct Hinv as (Hr & Hfr & Ht & Hb & Hn).
      refine (conj _ (conj _ (conj _ _))); [lia|lia| |].
      * intros q Hq. destruct (decide (q = Z.of_nat p)) as [->|]; [done|apply Hfr; lia].
      * intros b' Hb' Hall. destruct (decide (b' <= Z.of_nat p)); [done|].
        exfalso. apply (Hn b'); [lia..|done].
    + intros Hs. eapply IH; [|done]. by apply scan_inv_free.
  - intros Hs. eapply IH; [|done]. by eapply scan_inv_used.
Qed.

Lemma scan_pages_none top p run :
  scan_inv top p run -> scan_pages p run = None ->
  forall b, 0 <= b -> b + PageCount <= top -> ~ all_free b.
Proof.
  revert run. induction p as [|p IH]; intros run Hinv; cbn [scan_pages].
  - intros _ b. apply Hinv.
  - destruct (free (Z.of_nat p)) eqn:Hf.
    + destruct (Z.eqb_spec (run + 1) PageCount) as [He|Hne]; [done|].
      apply IH. by apply scan_inv_free.
    + apply IH. by eapply scan_inv_used.
Qed.

Lemma scan_inv_init top : 0 < PageCount -> scan_inv (Z.of_nat top) top 0.
Proof.
  intros H. refine (conj _ (conj _ (conj _ (conj _ _)))); intros; [lia..|by left; lia|lia].
Qed.
End scan.

Lemma scan_bits_pages bm w b run PC :
  0 <= w -> (b <= 64)%nat ->
  match scan_bits w (word bm w) b run PC with
  | inl base => scan_pages (fun p => negb (bit bm p)) PC (Z.to_nat (w * 64) + b) run = Some base
  | inr run' => scan_pages (fun p => negb (bit bm p)) PC (Z.to_nat (w * 64) + b) run
                = scan_pages (fun p => negb (bit bm p)) PC (Z.to_nat (w * 64)) run'
  end.
Proof.
  intros Hw. revert run. induction b as [|b IH]; intros run Hb; cbn [scan_bits].
  { by rewrite Nat.add_0_r. }
  rewrite Nat.add_succ_r. cbn [scan_pages].
  assert (Hp : Z.of_nat (Z.to_nat (w * 64) + b) = w * bitsPerWord + Z.of_nat b)
    by (unfold bitsPerWord; lia).
  rewrite Hp.
  assert (Hbit : bit bm (w * bitsPerWord + Z.of_nat b) = flag (word bm w) (Z.shiftl 1 (Z.of_nat b))).
  { rewrite flag_bit by lia. unfold bit. f_equal; [f_equal|]; unfold bitsPerWord; zdm. }
  rewrite Hbit. destruct (flag _ _); simpl negb; cbv iota.
  - apply IH. lia.
  - destruct (Z.eqb_spec (run + 1) PC); [done|]. apply IH. lia.
Qed.

Lemma scan_words_pages bm w run PC :
  Z.of_nat w <= w_len bm ->
  scan_words bm w run PC
  = Some (scan_pages (fun p => negb (bit bm p)) PC (w * 64) run).
Proof.
  revert run. induction w as [|w IH]; intros run Hw; [done|]. cbn [scan_words].
  assert (wget bm (Z.of_nat w) = Some (word bm (Z.of_nat w))) as ->
    by (apply wget_spec; split; [lia|done]). ostep.
  pose proof (scan_bits_pages bm (Z.of_nat w) 64 run PC ltac:(lia) ltac:(lia)) as Hs.
  replace (Z.to_nat (Z.of_nat w * 64)) with (w * 64)%nat in Hs by lia.
  replace (S w * 64)%nat with (w * 64 + 64)%nat by lia.
  destruct (scan_bits _ _ _ _ _) as [base|run'].
  - by rewrite Hs.
  - rewrite Hs. apply IH. lia.
Qed.

(** ** Representation lemmas *)
Lemma rep_uncovered d A p :
  iova_rep d A -> 0 <= p < pages -> negb (bit (IovaBitmap d) p) = true <-> ~ covered A p.
Proof.
  intros R Hp. rewrite <- (rep_bit _ _ R) by done. by destruct (bit _ _).
Qed.

Lemma all_free_run d A base n :
  iova_rep d A -> 0 <= base -> base + n <= pages ->
  all_free (fun p => negb (bit (IovaBitmap d) p)) n base <-> free_run A base n.
Proof.
  intros R H0 H1. unfold all_free, free_run. split.
  - intros Hf. split_and!; [done|done|]. intros p Hp. eapply rep_uncovered; [done|lia|].
    by apply Hf.
  - intros (_ & _ & Hf) q Hq. apply (rep_uncovered _ A); [done|lia|]. by apply Hf.
Qed.

Lemma rep_scan d A PC :
  iova_rep d A -> 0 < PC ->
  exists r, scan_words (IovaBitmap d) (Z.to_nat (pages / bitsPerWord)) 0 PC = Some r /\
    match r with
    | Some base => highest_free_run A base PC
    | None => forall base, ~ free_run A base PC
    end.
Proof.
  intros R HPC. rewrite scan_words_pages.
  2:{ rewrite (rep_len _ _ R). done. }
  eexists. split; [done|].
  set (free := fun p => negb (bit (IovaBitmap d) p)).
  assert (Htop : Z.of_nat (Z.to_nat (pages / bitsPerWord) * 64) = pages)
    by (rewrite Nat2Z.inj_mul, Z2Nat.id by done; done).
  pose proof (scan_inv_init free PC (Z.to_nat (pages / bitsPerWord) * 64) HPC) as Hi.
  rewrite Htop in Hi.
  destruct (scan_pages free PC _ 0) as [base|] eqn:Hs.
  - destruct (scan_pages_found _ _ _ _ _ _ Hi Hs) as (Hb0 & Hb1 & Hall & Hmax).
    split; [by apply (all_free_run d)|]. intros b' Hb'.
    destruct Hb' as (H0 & H1 & H2) eqn:E. apply Hmax; [done|].
    by apply (all_free_run d A).
  - intros base Hb. destruct Hb as (H0 & H1 & H2) eqn:E.
    eapply (scan_pages_none _ _ _ _ _ Hi Hs base); [done|done|].
    by apply (all_free_run d A).
Qed.

Lemma covered_insert A base n p :
  A !! base = None -> covered (<[base:=n]> A) p <-> base <= p < base + n \/ covered A p.
Proof.
  intros HN. unfold covered. split.
  - intros (b & m & Hb & Hp). destruct (decide (b = base)) as [->|Hne].
    + rewrite lookup_insert_eq in Hb. injection Hb as ->. by left.
    + rewrite lookup_insert_ne in Hb by done. right. eauto.
  - intros [Hp|(b & m & Hb & Hp)].
    + exists base, n. by rewrite lookup_insert_eq.
    + exists b, m. rewrite lookup_insert_ne by congruence. done.
Qed.

Lemma free_run_fresh A base n : 0 < n -> (forall b m, A !! b = Some m -> 0 < m) ->
  free_run A base n -> A !! base = None.
Proof.
  intros Hn Hpos (H0 & H1 & Hf). destruct (A !! base) as [m|] eqn:E; [|done].
  exfalso. apply (Hf base); [lia|]. exists base, m. pose proof (Hpos _ _ E). split; [done|lia].
Qed.

(** The disjointness clause survives the insertion of a free run. *)
Lemma free_run_disjoint A base n b m :
  free_run A base n -> A !! b = Some m -> 0 < n -> 0 < m -> b + m <= base \/ base + n <= b.
Proof.
  intros (_ & _ & Hf) Hb Hn Hm.
  destruct (decide (b + m <= base)); [by left|]. destruct (decide (base + n <= b)); [by right|].
  exfalso. apply (Hf (Z.max b base)); [lia|]. exists b, m. split; [done|lia].
Qed.

Lemma rep_alloc d A base n d' b s e :
  iova_rep d A -> 0 < n -> free_run A base n ->
  set_bits (IovaBitmap d) base (Z.to_nat n) = Some b ->
  set_bit (IovaStartBitmap d) base = Some s ->
  set_bit (IovaEndBitmap d) (base + n) = Some e ->
  d' = d <| IovaBitmap := b |> <| IovaStartBitmap := s |> <| IovaEndBitmap := e |> ->
  iova_rep d' (<[base:=n]> A).
Proof.
  intros R Hn Hf Eb Es Ee ->. pose proof Hf as (H0 & H1 & _).
  assert (HN : A !! base = None)
    by (eapply free_run_fresh; [done| |done]; intros b0 m0 ?%(rep_range _ _ R); lia).
  destruct (set_bits_spec (Z.to_nat n) (IovaBitmap d) base) as (b' & Eb' & Lb & Bb);
    [done|rewrite (rep_len _ _ R); geo; lia|].
  destruct (set_bit_spec (IovaStartBitmap d) base) as (s' & Es' & Ls & Bs);
    [unfold in_words; rewrite (rep_len_start _ _ R); geo; lia|].
  destruct (set_bit_spec (IovaEndBitmap d) (base + n)) as (e' & Ee' & Le & Be);
    [unfold in_words; rewrite (rep_len_end _ _ R); geo; lia|].
  simplify_eq. destruct R as [L1 L2 L3 Rr Rd Rb Rs Re]. constructor; simpl; try congruence.
  - intros b0 m0 [[<- <-]|[? ?]]%lookup_insert_Some; [lia|by apply Rr].
  - intros b1 n1 b2 n2 Hb1 Hb2 Hlt.
    apply lookup_insert_Some in Hb1 as [[<- <-]|[? Hb1]];
    apply lookup_insert_Some in Hb2 as [[<- <-]|[? Hb2]]; [lia| | |by eapply Rd].
    + pose proof (Rr _ _ Hb2). pose proof (free_run_disjoint _ _ _ _ _ Hf Hb2). lia.
    + pose proof (Rr _ _ Hb1). pose proof (free_run_disjoint _ _ _ _ _ Hf Hb1). lia.
  - intros p Hp. rewrite Bb, covered_insert by done. rewrite Z2Nat.id by lia.
    case_decide; [tauto|]. rewrite Rb by done. tauto.
  - intros p Hp. rewrite Bs. case_decide as Hd.
    + subst. rewrite lookup_insert_eq. by split; [eauto|].
    + rewrite lookup_insert_ne by done. by apply Rs.
  - intros p Hp. rewrite Be. case_decide as Hd.
    + subst. split; [|done]. intros _. exists base, n. by rewrite lookup_insert_eq.
    + rewrite Re by done. split; intros (b0 & m0 & Hb0 & Hp0).
      * exists b0, m0. rewrite lookup_insert_ne by congruence. done.
      * exists b0, m0. apply lookup_insert_Some in Hb0 as [[<- <-]|[? ?]]; [lia|done].
Qed.

(** The outcome of an allocation, in terms of the abstract map. *)
Lemma alloc_outcome d A PageCount :
  iova_rep d A -> 0 < PageCount ->
  (exists base d', highest_free_run A base PageCount /\
     RkIommuAllocIova d PageCount = Some (STATUS_SUCCESS, base * RK_IOMMU_PAGE_SIZE, d') /\
     iova_rep d' (<[base:=PageCount]> A)) \/
  ((forall base, ~ free_run A base PageCount) /\
   RkIommuAllocIova d PageCount = Some (STATUS_INSUFFICIENT_RESOURCES, 0, d)).
Proof.
  intros R HPC. destruct (rep_scan d A PageCount R HPC) as (r & Hr & Hspec).
  unfold RkIommuAllocIova. rewrite Hr. ostep. destruct r as [base|]; [left|right; done].
  pose proof Hspec as [(H0 & H1 & Hf) _].
  destruct (set_bits_spec (Z.to_nat PageCount) (IovaBitmap d) base) as (b & Eb & _);
    [done|rewrite (rep_len _ _ R); geo; lia|].
  destruct (set_bit_spec (IovaStartBitmap d) base) as (s & Es & _);
    [unfold in_words; rewrite (rep_len_start _ _ R); geo; lia|].
  destruct (set_bit_spec (IovaEndBitmap d) (base + PageCount)) as (e & Ee & _);
    [unfold in_words; rewrite (rep_len_end _ _ R); geo; lia|].
  exists base. eexists. split; [done|]. rewrite Eb. ostep. rewrite Es. ostep. rewrite Ee. ostep.
  split; [done|]. eapply rep_alloc; [done|done|apply Hspec|done..].
Qed.

(** ** Release *)
Lemma free_loop_spec bm startPage n : forall i,
  0 <= i -> 0 <= startPage -> startPage + i + Z.of_nat n <= w_len bm * bitsPerWord ->
  w_len bm <= bitmapWords ->
  exists bm', free_loop bm startPage i n = Some bm' /\ w_len bm' = w_len bm /\
    forall q, bit bm' q = (if decide (startPage + i <= q < startPage + i + Z.of_nat n)
                           then false else bit bm q).
Proof.
  revert bm. induction n as [|n IH]; intros bm i Hi Hs Hn Hl.
  { exists bm. split_and!; [done|done|]. intros q. rewrite decide_False; [done|lia]. }
  cbn [free_loop]. rewrite u32_small by (geo; lia).
  destruct (clear_bit_spec bm (startPage + i)) as (a1 & E1 & L1 & B1); [unfold in_words; lia|].
  rewrite E1. ostep.
  destruct (IH a1 (i + 1)) as (a2 & E2 & L2 & B2); [lia|lia|rewrite L1; lia|by rewrite L1|].
  exists a2. split_and!; [done|congruence|]. intros q. rewrite B2, B1.
  repeat case_decide; (done || lia).
Qed.

(** Running past the end of the bitmap is undefined. *)
Lemma free_loop_oob bm startPage n : forall i,
  0 <= i -> 0 <= startPage -> w_len bm <= bitmapWords ->
  w_len bm * bitsPerWord < startPage + i + Z.of_nat n -> startPage + i <= w_len bm * bitsPerWord ->
  free_loop bm startPage i n = None.
Proof.
  revert bm. induction n as [|n IH]; intros bm i Hi Hs Hl Hn Hle; [lia|].
  cbn [free_loop]. rewrite u32_small by (geo; lia).
  destruct (decide (startPage + i < w_len bm * bitsPerWord)) as [Hlt|Hge].
  - destruct (clear_bit_spec bm (startPage + i)) as (a1 & E1 & L1 & _); [unfold in_words; lia|].
    rewrite E1. ostep. apply IH; rewrite ?L1; lia.
  - unfold clear_bit. rewrite wget_oob; [done|]. unfold in_words. lia.
Qed.

Lemma covered_delete A b n p :
  (forall b1 n1 b2 n2, A !! b1 = Some n1 -> A !! b2 = Some n2 -> b1 < b2 -> b1 + n1 <= b2) ->
  A !! b = Some n -> covered (delete b A) p <-> covered A p /\ ~ (b <= p < b + n).
Proof.
  intros Hd Hb. unfold covered. split.
  - intros (b' & n' & [Hne Hb']%lookup_delete_Some & Hp). split; [eauto|]. intros Hc.
    destruct (decide (b < b')).
    + pose proof (Hd _ _ _ _ Hb Hb'). lia.
    + pose proof (Hd _ _ _ _ Hb' Hb). lia.
  - intros [(b' & n' & Hb' & Hp) Hc]. exists b', n'. split; [|done].
    apply lookup_delete_Some. split; [|done]. intros ->. simplify_eq. by apply Hc.
Qed.

(** Two live ranges never end at the same page. *)
Lemma rep_end_inj d A b1 n1 b2 n2 :
  iova_rep d A -> A !! b1 = Some n1 -> A !! b2 = Some n2 -> b1 + n1 = b2 + n2 -> b1 = b2.
Proof.
  intros R H1 H2 He. pose proof (rep_range _ _ R _ _ H1). pose proof (rep_range _ _ R _ _ H2).
  destruct (Z.lt_trichotomy b1 b2) as [Hlt|[|Hlt]]; [|done|].
  - pose proof (rep_disjoint _ _ R _ _ _ _ H1 H2 Hlt). lia.
  - pose proof (rep_disjoint _ _ R _ _ _ _ H2 H1 Hlt). lia.
Qed.

Lemma rep_free d A base n b s e :
  iova_rep d A -> A !! base = Some n ->
  free_loop (IovaBitmap d) base 0 (Z.to_nat n) = Some b ->
  clear_bit (IovaStartBitmap d) base = Some s ->
  clear_bit (IovaEndBitmap d) (base + n) = Some e ->
  iova_rep (d <| IovaBitmap := b |> <| IovaStartBitmap := s |> <| IovaEndBitmap := e |>)
           (delete base A).
Proof.
  intros R HA Eb Es Ee. pose proof (rep_range _ _ R _ _ HA) as (H0 & Hn & H1).
  destruct (free_loop_spec (IovaBitmap d) base (Z.to_nat n) 0) as (b' & Eb' & Lb & Bb);
    [done|done|rewrite (rep_len _ _ R); geo; lia|rewrite (rep_len _ _ R); done|].
  destruct (clear_bit_spec (IovaStartBitmap d) base) as (s' & Es' & Ls & Bs);
    [unfold in_words; rewrite (rep_len_start _ _ R); geo; lia|].
  destruct (clear_bit_spec (IovaEndBitmap d) (base + n)) as (e' & Ee' & Le & Be);
    [unfold in_words; rewrite (rep_len_end _ _ R); geo; lia|].
  simplify_eq. pose proof R as [L1 L2 L3 Rr Rd Rb Rs Re]. constructor; simpl; try congruence.
  - intros b0 m0 [_ ?]%lookup_delete_Some. by apply Rr.
  - intros b1 n1 b2 n2 [_ ?]%lookup_delete_Some [_ ?]%lookup_delete_Some. by eapply Rd.
  - intros p Hp. rewrite Bb, (covered_delete A base n) by done. rewrite <- Rb by done.
    rewrite Z.add_0_r, Z2Nat.id by lia. case_decide; [|tauto]. split; [done|tauto].
  - intros p Hp. rewrite Bs. case_decide as Hd.
    + subst. rewrite lookup_delete_eq. split; [done|by intros []].
    + rewrite lookup_delete_ne by done. by apply Rs.
  - intros p Hp. rewrite Be. case_decide as Hd.
    + split; [done|]. intros (b0 & m0 & [Hne Hb0]%lookup_delete_Some & Hp0).
      destruct Hne. eapply rep_end_inj; [done..|lia].
    + rewrite Re by done. split; intros (b0 & m0 & Hb0 & Hp0); exists b0, m0.
      * rewrite lookup_delete_ne; [done|]. intros <-. rewrite Hb0 in HA. congruence.
      * by apply lookup_delete_Some in Hb0 as [_ ?].
Qed.

Lemma page_iova_land p : 0 <= p -> Z.land (p * RK_IOMMU_PAGE_SIZE) 0xFFF = 0.
Proof.
  intros Hp. change 0xFFF with (Z.ones 12). rewrite Z.land_ones by done.
  apply Z.mod_mul. done.
Qed.

Lemma page_iova_shiftr p : Z.shiftr (p * RK_IOMMU_PAGE_SIZE) 12 = p.
Proof. rewrite Z.shiftr_div_pow2 by done. by apply Z.div_mul. Qed.

(** The three argument checks pass for a page-aligned range in the space. *)
Lemma free_guards d base n :
  0 <= base < pages -> 0 < n < 2 ^ 32 -> base <= u32 (pages - n) ->
  RkIommuFreeIova d (base * RK_IOMMU_PAGE_SIZE) n
  = (st ← test_bit (IovaStartBitmap d) base;
     if negb (st : bool) then Some d else
     b ← free_loop (IovaBitmap d) base 0 (Z.to_nat n);
     s ← clear_bit (IovaStartBitmap d) base;
     e ← clear_bit (IovaEndBitmap d) (u32 (base + n));
     Some (d <| IovaBitmap := b |> <| IovaStartBitmap := s |> <| IovaEndBitmap := e |>)).
Proof.
  intros Hb Hn Hu. unfold RkIommuFreeIova. rewrite page_iova_land, page_iova_shiftr by lia.
  rewrite (u32_small base) by (geo; lia).
  destruct (Z.leb_spec (Z.shiftl pages 12) (base * RK_IOMMU_PAGE_SIZE)) as [Hl|_].
  { change (Z.shiftl pages 12) with (pages * RK_IOMMU_PAGE_SIZE) in Hl. geo. lia. }
  destruct (Z.eqb_spec n 0); [lia|].
  destruct (Z.ltb_spec (u32 (pages - n)) base); [lia|done].
Qed.

Lemma free_outcome d A base n :
  iova_rep d A -> A !! base = Some n ->
  exists d', RkIommuFreeIova d (base * RK_IOMMU_PAGE_SIZE) n = Some d' /\
    iova_rep d' (delete base A).
Proof.
  intros R HA. pose proof (rep_range _ _ R _ _ HA) as (H0 & Hn & H1).
  rewrite free_guards by (rewrite ?u32_small; geo; lia).
  rewrite test_bit_spec by (unfold in_words; rewrite (rep_len_start _ _ R); geo; lia). ostep.
  assert (bit (IovaStartBitmap d) base = true) as -> by (apply (rep_start _ _ R); [lia|eauto]).
  destruct (free_loop_spec (IovaBitmap d) base (Z.to_nat n) 0) as (b & Eb & _ & _);
    [done|done|rewrite (rep_len _ _ R); geo; lia|rewrite (rep_len _ _ R); done|].
  destruct (clear_bit_spec (IovaStartBitmap d) base) as (s & Es & _);
    [unfold in_words; rewrite (rep_len_start _ _ R); geo; lia|].
  destruct (clear_bit_spec (IovaEndBitmap d) (base + n)) as (e & Ee & _);
    [unfold in_words; rewrite (rep_len_end _ _ R); geo; lia|].
  rewrite u32_small by (geo; lia). cbn [negb]. rewrite Eb. ostep. rewrite Es. ostep.
  rewrite Ee. ostep. eexists. split; [done|]. by eapply rep_free.
Qed.

(** ** The freshly created domain *)
Definition same_tables (d d' : domain) : Prop :=
  IsAv1d d' = IsAv1d d /\ Pta d' = Pta d /\ PtaPhys d' = PtaPhys d /\ Pd d' = Pd d /\
  PdPhys d' = PdPhys d /\ Pts d' = Pts d /\ PtPhys d' = PtPhys d.

Lemma same_tables_refl d : same_tables d d.
Proof. done. Qed.

Lemma same_tables_trans d1 d2 d3 : same_tables d1 d2 -> same_tables d2 d3 -> same_tables d1 d3.
Proof. unfold same_tables. intuition congruence. Qed.

Definition zero_bitmaps (d : domain) : domain :=
  d <| IovaBitmap := zero_words bitmapWords |> <| IovaStartBitmap := zero_words bitmapWords |>
    <| IovaEndBitmap := zero_words (bitmapWords + 1) |>.

Lemma zero_bitmaps_rep d : iova_rep (zero_bitmaps d) ∅.
Proof.
  assert (HN : forall p, ~ covered ∅ p) by (intros p (b & n & H & _); by rewrite lookup_empty in H).
  constructor; simpl; try done; intros *; rewrite ?lookup_empty, ?bit_zero; try done.
  - intros _. split; [done|]. intros H. by apply HN in H.
  - intros _. split; [done|]. intros (b & n & H & _). by rewrite lookup_empty in H.
Qed.

Lemma set_bits_1 a p : set_bits a p 1 = set_bit a p.
Proof. cbn. by destruct (set_bit a p). Qed.

Lemma init_bitmaps_rep d :
  exists d', init_bitmaps d = Some d' /\ iova_rep d' {[0 := 1]} /\ same_tables d d'.
Proof.
  unfold init_bitmaps.
  destruct (set_bit_spec (zero_words bitmapWords) 0) as (b & Eb & _); [done|].
  destruct (set_bit_spec (zero_words (bitmapWords + 1)) 1) as (e & Ee & _); [done|].
  rewrite Eb. ostep. rewrite Ee. ostep. eexists. split; [done|]. split; [|done].
  change {[0 := 1]} with (<[0 := 1]> (∅ : gmap Z Z)).
  eapply (rep_alloc (zero_bitmaps d) ∅ 0 1); [apply zero_bitmaps_rep|done| |..].
  - split_and!; [done|done|]. intros p _ (? & ? & H & _). by rewrite lookup_empty in H.
  - simpl IovaBitmap. by rewrite set_bits_1.
  - done.
  - done.
  - done.
Qed.

Definition rcb_allocs : gmap Z Z := <[kRcbPage := kRcbCount]> {[0 := 1]}.

Lemma reserve_rcb_rep d :
  iova_rep d {[0 := 1]} ->
  exists d', reserve_rcb d = Some d' /\ iova_rep d' rcb_allocs /\ same_tables d d'.
Proof.
  intros R. unfold reserve_rcb.
  change (Z.min (kRcbPage + kRcbCount) pages - kRcbPage) with kRcbCount.
  change (kRcbPage <? pages) with true.
  destruct (set_bits_spec (Z.to_nat kRcbCount) (IovaBitmap d) kRcbPage) as (b & Eb & _);
    [done|rewrite (rep_len _ _ R), Z2Nat.id by done; done|].
  destruct (set_bit_spec (IovaStartBitmap d) kRcbPage) as (s & Es & _);
    [unfold in_words; rewrite (rep_len_start _ _ R); done|].
  destruct (set_bit_spec (IovaEndBitmap d) (kRcbPage + kRcbCount)) as (e & Ee & _);
    [unfold in_words; rewrite (rep_len_end _ _ R); done|].
  rewrite Eb. ostep. rewrite Es. ostep. rewrite Ee. ostep.
  eexists. split; [done|]. split; [|done].
  eapply rep_alloc; [done|done| |done..].
  split_and!; [done|done|]. intros p Hp (b0 & n0 & H & Hb0).
  apply lookup_singleton_Some in H as [<- <-]. unfold kRcbPage, kRcbCount in Hp.
  change (1048320 <= p < 1048576) in Hp. lia.
Qed.

(** ** Runs of the allocator *)
Inductive iova_op :=
  | OpAlloc (PageCount : Z)
  | OpFree (page PageCount : Z).

Definition run_op (o : iova_op) (d : domain) : option domain :=
  match o with
  | OpAlloc n => '(_, _, d') ← RkIommuAllocIova d n; Some d'
  | OpFree p n => RkIommuFreeIova d (p * RK_IOMMU_PAGE_SIZE) n
  end.

(** What a correct client asks for: a positive count, and the release of a
    range with the size it was allocated with, or of a page that starts none. *)
Definition op_ok (A : gmap Z Z) (o : iova_op) : Prop :=
  match o with
  | OpAlloc n => 0 < n
  | OpFree p n => 0 <= p < pages /\ 0 < n <= pages /\ (A !! p = Some n \/ A !! p = None)
  end.

Lemma free_stray_outcome d A page n :
  iova_rep d A -> 0 <= page < pages -> 0 < n <= pages -> A !! page = None ->
  RkIommuFreeIova d (page * RK_IOMMU_PAGE_SIZE) n = Some d.
Proof.
  intros R Hp Hn HA. destruct (decide (page <= pages - n)) as [Hle|Hgt].
  - rewrite free_guards by (rewrite ?u32_small; geo; lia).
    rewrite test_bit_spec by (unfold in_words; rewrite (rep_len_start _ _ R); geo; lia). ostep.
    destruct (bit (IovaStartBitmap d) page) eqn:E; [|done].
    apply (rep_start _ _ R) in E; [|done]. destruct E as [? E]. congruence.
  - unfold RkIommuFreeIova. rewrite page_iova_land, page_iova_shiftr by lia.
    rewrite (u32_small page) by (geo; lia). rewrite u32_small by (geo; lia).
    repeat case_bool; simpl; (done || lia).
Qed.

Lemma run_op_rep o d A :
  iova_rep d A -> op_ok A o -> exists d' A', run_op o d = Some d' /\ iova_rep d' A'.
Proof.
  intros R Ho. destruct o as [n|p n]; simpl in *.
  - destruct (alloc_outcome d A n R Ho) as [(base & d' & _ & E & R')|[_ E]]; rewrite E; ostep; eauto.
  - destruct Ho as (Hp & Hn & [HA|HA]).
    + destruct (free_outcome d A p n R HA) as (d' & E & R'). eauto.
    + rewrite (free_stray_outcome d A) by done. eauto.
Qed.
