(* ===== verification/PageWalk.v ===== *)
(** * Page-table walks

    What the hardware sees after the map and unmap loops of
    [src/driver/shared/iommu/pgtable.c].  [translate] is the two-level walk in
    the entry formats documented in [src/driver/shared/iommu/pgtable.h]; the
    theorems relate it to the operations through the view [pte_at], the entry
    that governs an IOVA page. *)

From S2P Require Import Prelude Bitmap PgTable IovaAlloc.

#[local] Abbreviation pages := RK_IOMMU_IOVA_PAGES (only parsing).

(** ** The walk *)
Definition dte_pt_addr (av1 : bool) (dte : Z) : Z :=
  Z.land dte (if av1 then AV1_DTE_PT_ADDR_MASK else RK_DTE_PT_ADDRESS_MASK).

(** v2: address in bits 31:12.  AV1D: bits 31:12 are address bits 31:12 and
    bits 11:4 are address bits 39:32. *)
Definition pte_page_addr (av1 : bool) (pte : Z) : Z :=
  if av1 then Z.lor (Z.land pte 0xfffff000) (Z.shiftl (Z.land (Z.shiftr pte 4) 0xff) 32)
  else Z.land pte 0xfffff000.

Definition pte_writable (pte : Z) : bool := flag pte 4.

(** Where the walk starts: DTE_ADDR holds [PdPhys]; on AV1D the table array
    base holds [PtaPhys], whose entry 0 points at the directory. *)
Definition walk_root (d : domain) (k : kmem) : Z :=
  if IsAv1d d then Z.land (page_word k (PtaPhys d) 0) AV1_PTA_DT_ADDR_MASK else PdPhys d.

Definition translate (d : domain) (k : kmem) (iova : Z) : option (Z * bool) :=
  let dte := page_word k (walk_root d k) (Z.shiftr iova 22) in
  if negb (flag dte 1) then None else
  let pte := page_word k (dte_pt_addr (IsAv1d d) dte) (Z.land (Z.shiftr iova 12) 0x3ff) in
  if negb (flag pte 1) then None else
  Some (Z.lor (pte_page_addr (IsAv1d d) pte) (Z.land iova 0xfff), pte_writable pte).

(** ** Well-formed tables *)
Definition good_page (p : Z) : Prop := 0 <= p < 2 ^ 32 /\ p mod 4096 = 0.

(** Documented contract of [MmAllocateContiguousNodeMemory] as called: pages
    are aligned, below 4 GiB, and not already handed out. *)
Definition supply_ok (k : kmem) : Prop :=
  NoDup (omap id (k_page_supply k)) /\
  forall p, Some p ∈ k_page_supply k -> good_page p /\ k_pages k !! p = None.

Record pt_wf (d : domain) (k : kmem) : Prop := PtWf {
  wf_pd : exists pd, Pd d = Some pd /\ PdPhys d = pd /\ good_page pd /\
            is_Some (k_pages k !! pd) /\ (forall i p, Pts d !! i = Some p -> p <> pd);
  wf_root : walk_root d k = PdPhys d;
  wf_pta : IsAv1d d = true -> Some (PtaPhys d) <> Pd d /\ is_Some (k_pages k !! PtaPhys d) /\
             (forall i p, Pts d !! i = Some p -> p <> PtaPhys d);
  wf_pts i p : Pts d !! i = Some p ->
    0 <= i < 1024 /\ good_page p /\ is_Some (k_pages k !! p) /\
    page_word k (PdPhys d) i = make_dte (IsAv1d d) p;
  wf_inj i j p : Pts d !! i = Some p -> Pts d !! j = Some p -> i = j;
  wf_none i : 0 <= i < 1024 -> Pts d !! i = None -> page_word k (PdPhys d) i = 0;
  wf_supply : supply_ok k;
}.

(** The entry governing IOVA page [P]. *)
Definition pte_at (d : domain) (k : kmem) (P : Z) : Z :=
  match Pts d !! (P / 1024) with
  | Some p => page_word k p (P mod 1024)
  | None => 0
  end.

(** ** Memory lemmas *)
Lemma page_write_live k p i v :
  is_Some (k_pages k !! p) -> 0 <= i < 1024 ->
  page_write k p i v = Some (k <| k_pages ::= alter (insert i v) p |>).
Proof.
  intros Hl Hi. unfold page_write, page_ok. rewrite bool_decide_eq_true_2 by done.
  repeat case_bool; simpl; (done || lia).
Qed.

Lemma page_word_write k p i v q j :
  is_Some (k_pages k !! p) ->
  page_word (k <| k_pages ::= alter (insert i v) p |>) q j
  = if decide (q = p /\ j = i) then v else page_word k q j.
Proof.
  intros [m Hm]. unfold page_word. simpl. rewrite lookup_alter. case_decide as Hq.
  - subst q. rewrite Hm. simpl. rewrite lookup_insert.
    repeat case_decide; try done; intuition congruence.
  - rewrite decide_False by (intros []; done). done.
Qed.

Lemma live_write k p i v q :
  is_Some (k_pages (k <| k_pages ::= alter (insert i v) p |>) !! q) <-> is_Some (k_pages k !! q).
Proof. simpl. rewrite lookup_alter. case_decide; [subst|done]. by rewrite fmap_is_Some. Qed.

Lemma supply_write k p i v :
  supply_ok k -> supply_ok (k <| k_pages ::= alter (insert i v) p |>).
Proof.
  intros [Hnd Hs]. split; [done|]. intros q Hq. destruct (Hs q Hq) as [Hg Hn].
  split; [done|]. simpl. rewrite lookup_alter. case_decide; [subst|done]. by rewrite Hn.
Qed.

(** Stores into page tables keep the tables well-formed. *)
Lemma pt_wf_write d k idx p i v :
  pt_wf d k -> Pts d !! idx = Some p -> 0 <= i < 1024 ->
  pt_wf d (k <| k_pages ::= alter (insert i v) p |>).
Proof.
  intros W Hp Hi. pose proof W as [(pd & Hpd & Hphys & Hg & Hl & Hne) Wr Wa Wp Wi Wn Ws].
  destruct (Wp _ _ Hp) as (Hidx & Hgp & Hlp & Hdte).
  assert (Hw : forall q j, q <> p ->
    page_word (k <| k_pages ::= alter (insert i v) p |>) q j = page_word k q j)
    by (intros q j Hq; rewrite page_word_write, decide_False by (done || tauto); done).
  assert (PdPhys d <> p) by (pose proof (Hne _ _ Hp); congruence).
  constructor.
  - exists pd. rewrite live_write. done.
  - revert Wr. unfold walk_root. destruct (IsAv1d d) eqn:Ha; [|done].
    rewrite Hw; [done|]. destruct (Wa eq_refl) as (_ & _ & Hpta). by apply not_eq_sym, (Hpta idx).
  - intros Ha. rewrite live_write. by apply Wa.
  - intros j q Hq. rewrite live_write, Hw by done. by apply Wp.
  - done.
  - intros j Hj Hjn. rewrite Hw by done. by apply Wn.
  - by apply supply_write.
Qed.

Lemma pte_at_write d k idx p i v P :
  pt_wf d k -> Pts d !! idx = Some p -> 0 <= i < 1024 ->
  pte_at d (k <| k_pages ::= alter (insert i v) p |>) P
  = if decide (P = idx * 1024 + i) then v else pte_at d k P.
Proof.
  intros W Hp Hi. destruct (wf_pts _ _ W _ _ Hp) as (_ & _ & Hl & _). unfold pte_at.
  destruct (Pts d !! (P / 1024)) as [q|] eqn:Hq.
  - rewrite page_word_write by done. destruct (decide (q = p)) as [->|Hne].
    + pose proof (wf_inj _ _ W _ _ _ Hp Hq) as ->.
      repeat case_decide; try done; exfalso; zdm.
    + rewrite !decide_False; [done| |tauto]. intros ->. apply Hne.
      replace ((idx * 1024 + i) / 1024) with idx in Hq by zdm. congruence.
  - rewrite decide_False; [done|]. intros ->.
    replace ((idx * 1024 + i) / 1024) with idx in Hq by zdm. congruence.
Qed.

(** ** Indices *)
Lemma iova_pdi_page P : 0 <= P < pages -> iova_pdi (P * RK_IOMMU_PAGE_SIZE) = P / 1024.
Proof.
  intros HP. unfold iova_pdi. change 0x3ff with (Z.ones 10).
  rewrite Z.land_ones, Z.shiftr_div_pow2 by done. geo.
  change (2 ^ 22) with 4194304. change (2 ^ 10) with 1024. zdm.
Qed.

Lemma iova_pti_page P : 0 <= P -> iova_pti (P * RK_IOMMU_PAGE_SIZE) = P mod 1024.
Proof.
  intros HP. unfold iova_pti. rewrite page_iova_shiftr.
  change 0x3ff with (Z.ones 10). by rewrite Z.land_ones.
Qed.

(** Page [P + i] in the loop's index arithmetic. *)
Lemma walk_index P i :
  0 <= P < pages -> 0 <= i <= pages ->
  P / 1024 + u32 (P mod 1024 + i) / 1024 = (P + i) / 1024 /\
  u32 (P mod 1024 + i) mod 1024 = (P + i) mod 1024.
Proof. intros. rewrite u32_small by (geo; zdm). split; zdm. Qed.

(** ** Unmap *)
Lemma unmap_loop_spec d P : forall n i k,
  pt_wf d k -> 0 <= P < pages -> 0 <= i <= pages ->
  exists k', unmap_loop d (P / 1024) (P mod 1024) i n k = Some k' /\ pt_wf d k' /\
    k_page_supply k' = k_page_supply k /\
    forall Q, 0 <= Q < pages ->
      pte_at d k' Q = if decide (P + i <= Q < P + i + Z.of_nat n) then 0 else pte_at d k Q.
Proof.
  intros n. induction n as [|n IH]; intros i k W HP Hi.
  { exists k. split_and!; [done..|]. intros Q HQ. rewrite decide_False; [done|lia]. }
  cbn [unmap_loop]. destruct (walk_index P i HP Hi) as [Hd Hm].
  unfold RK_IOMMU_PT_ENTRIES, RK_IOMMU_PD_ENTRIES. rewrite Hd, Hm.
  destruct (Z.leb_spec 1024 ((P + i) / 1024)) as [Hge|Hlt].
  { exists k. split_and!; [done..|]. intros Q HQ. rewrite decide_False; [done|geo; zdm]. }
  assert (HPi : P + i < pages) by (geo; zdm).
  destruct (Pts d !! ((P + i) / 1024)) as [pt|] eqn:Hpt.
  - destruct (wf_pts _ _ W _ _ Hpt) as (_ & _ & Hl & _).
    rewrite page_write_live by (done || zdm). ostep.
    destruct (IH (i + 1) (k <| k_pages ::= alter (insert ((P + i) mod 1024) 0) pt |>))
      as (k' & E & W' & Hs & Hq); [eapply pt_wf_write; [done..|zdm]|done|lia|].
    exists k'. split_and!; [done|done|done|]. intros Q HQ. rewrite Hq by done.
    rewrite (pte_at_write d k _ pt) by (done || zdm).
    replace ((P + i) / 1024 * 1024 + (P + i) mod 1024) with (P + i) by zdm.
    repeat case_decide; (done || lia).
  - destruct (IH (i + 1) k) as (k' & E & W' & Hs & Hq); [done|done|lia|].
    exists k'. split_and!; [done|done|done|]. intros Q HQ. rewrite Hq by done.
    destruct (decide (Q = P + i)) as [->|Hne].
    + assert (pte_at d k (P + i) = 0) as -> by (unfold pte_at; by rewrite Hpt).
      repeat case_decide; done.
    + repeat case_decide; (done || lia).
Qed.

(** The whole unmap: every entry of the range is cleared, no other changes. *)
Definition cleared (d : domain) (k : kmem) (d' : domain) (k' : kmem) (P n : Z) : Prop :=
  forall Q, 0 <= Q < pages ->
    pte_at d' k' Q = if decide (P <= Q < P + n) then 0 else pte_at d k Q.

Lemma unmap_outcome d k P n :
  pt_wf d k -> 0 <= P < pages -> 0 <= n ->
  exists k', RkIommuUnmapAt d (P * RK_IOMMU_PAGE_SIZE) n k = Some k' /\ pt_wf d k' /\
    k_page_supply k' = k_page_supply k /\ cleared d k d k' P n.
Proof.
  intros W HP Hn. unfold RkIommuUnmapAt. rewrite iova_pdi_page, iova_pti_page by lia.
  destruct (unmap_loop_spec d P (Z.to_nat n) 0 k W HP) as (k' & E & W' & Hs & Hq); [geo; lia|].
  exists k'. split_and!; [done..|]. intros Q HQ. rewrite Hq by done.
  rewrite Z.add_0_r, Z2Nat.id by done. done.
Qed.

(** ** First use of a directory entry *)
Lemma supply_pop k va s :
  supply_ok k -> k_page_supply k = Some va :: s ->
  good_page va /\ k_pages k !! va = None /\
  supply_ok (k <| k_pages ::= insert va ∅ |> <| k_page_supply := s |>).
Proof.
  intros [Hnd Hs] E. rewrite E in Hnd, Hs. simpl in Hnd.
  destruct (Hs va) as [Hg Hn]; [by left|]. split_and!; [done|done|].
  apply NoDup_cons in Hnd as [Hnin Hnd]. split; [done|]. simpl. intros q Hq.
  destruct (Hs q) as [Hgq Hnq]; [by right|]. split; [done|].
  rewrite lookup_insert_ne; [done|]. intros ->. apply Hnin.
  apply list_elem_of_omap. by exists (Some q).
Qed.

Lemma supply_skip k s :
  supply_ok k -> k_page_supply k = None :: s -> supply_ok (k <| k_page_supply := s |>).
Proof.
  intros [Hnd Hs] E. rewrite E in Hnd, Hs. split; [done|]. intros p Hp. apply Hs. by right.
Qed.

Lemma page_word_new k va s q j :
  k_pages k !! va = None ->
  page_word (k <| k_pages ::= insert va ∅ |> <| k_page_supply := s |>) q j = page_word k q j.
Proof.
  intros Hn. unfold page_word. simpl. rewrite lookup_insert. case_decide; [subst|done].
  rewrite Hn. simpl. by rewrite lookup_empty.
Qed.

Lemma good_u32 p : good_page p -> u32 p = p.
Proof. intros [Hp _]. by apply u32_small. Qed.

Definition same_bitmaps (d d' : domain) : Prop :=
  IovaBitmap d' = IovaBitmap d /\ IovaStartBitmap d' = IovaStartBitmap d /\
  IovaEndBitmap d' = IovaEndBitmap d /\ IsAv1d d' = IsAv1d d.

Lemma same_bitmaps_trans d1 d2 d3 :
  same_bitmaps d1 d2 -> same_bitmaps d2 d3 -> same_bitmaps d1 d3.
Proof. unfold same_bitmaps. intuition congruence. Qed.

Lemma same_bitmaps_rep d d' A : same_bitmaps d d' -> iova_rep d A -> iova_rep d' A.
Proof. intros (Hb & Hs & He & _) []. constructor; rewrite ?Hb, ?Hs, ?He; done. Qed.

(** Installing a fresh, empty page table in an empty directory entry. *)
Lemma pt_wf_install d k pdi va s ptphys :
  pt_wf d k -> 0 <= pdi < 1024 -> Pts d !! pdi = None -> k_page_supply k = Some va :: s ->
  let d' := d <| PtPhys ::= insert pdi ptphys |> <| Pts ::= insert pdi va |> in
  let k1 := k <| k_pages ::= insert va ∅ |> <| k_page_supply := s |> in
  let k' := k1 <| k_pages ::= alter (insert pdi (make_dte (IsAv1d d) va)) (PdPhys d) |> in
  pt_wf d' k' /\ forall Q, pte_at d' k' Q = pte_at d k Q.
Proof.
  intros W Hpdi Hnone Hsup d' k1 k'.
  destruct (supply_pop k va s (wf_supply _ _ W) Hsup) as (Hgv & Hva & Hs1).
  pose proof W as [(pd & Hpd & Hphys & Hg & Hl & Hne) Wr Wa Wp Wi Wn Ws].
  assert (Hlive : forall q, is_Some (k_pages k !! q) -> is_Some (k_pages k' !! q)).
  { intros q Hq. unfold k'. rewrite live_write. unfold k1. simpl.
    rewrite lookup_insert. case_decide; [by eauto|done]. }
  assert (Hlv : is_Some (k_pages k' !! va)).
  { unfold k'. rewrite live_write. unfold k1. simpl. rewrite lookup_insert_eq. by eauto. }
  assert (Hlpd : is_Some (k_pages k1 !! PdPhys d)).
  { unfold k1. simpl. rewrite Hphys, lookup_insert. case_decide; [by eauto|done]. }
  assert (Hw : forall q j, page_word k' q j
     = if decide (q = PdPhys d /\ j = pdi) then make_dte (IsAv1d d) va else page_word k q j).
  { intros q j. unfold k'. rewrite page_word_write by done. case_decide; [done|].
    by apply page_word_new. }
  assert (Hvpd : forall q, is_Some (k_pages k !! q) -> q <> va) by (intros q [? ?] ->; congruence).
  split.
  - constructor; simpl.
    + exists pd. split; [done|]. split; [done|]. split; [done|]. split; [by apply Hlive|].
      intros i p [[_ <-]|[_ Hp]]%lookup_insert_Some; [by apply not_eq_sym, Hvpd|by eapply Hne].
    + revert Wr. unfold walk_root. simpl. destruct (IsAv1d d) eqn:Ha; [|done].
      destruct (Wa eq_refl) as (Hap & _). rewrite Hw, decide_False; [done|].
      intros [He _]. rewrite He, Hphys in Hap. congruence.
    + intros Ha. destruct (Wa Ha) as (Hap & Hal & Han). split_and!; [done|by apply Hlive|].
      intros i p [[_ <-]|[_ Hp]]%lookup_insert_Some; [by apply not_eq_sym, Hvpd|by eapply Han].
    + intros i p [[<- <-]|[Hi Hp]]%lookup_insert_Some.
      * rewrite Hw, decide_True by done. split; [done|]. split; done.
      * destruct (Wp _ _ Hp) as (Hi0 & Hg0 & Hl0 & Hd0).
        rewrite Hw, decide_False by (intros []; done).
        split; [done|]. split; [done|]. split; [by apply Hlive|done].
    + intros i j p [[<- <-]|[Hi Hp]]%lookup_insert_Some [[<- Hq]|[Hj Hq]]%lookup_insert_Some;
        [done|exfalso|exfalso|by eapply Wi].
      * eapply Hvpd; [eapply Wp, Hq|done].
      * eapply Hvpd; [eapply Wp, Hp|done].
    + intros i Hi [Hp Hd]%lookup_insert_None. rewrite Hw, decide_False by (intros []; done).
      by apply Wn.
    + by apply supply_write.
  - intros Q. unfold pte_at. simpl. rewrite lookup_insert. case_decide as Hd.
    + subst. rewrite Hnone, Hw, decide_False; [|intros [-> _]; by apply (Hvpd (PdPhys d)); rewrite ?Hphys].
      unfold page_word. by rewrite Hva.
    + destruct (Pts d !! (Q / 1024)) as [p|] eqn:Hp; [|done].
      rewrite Hw, decide_False; [done|]. intros [-> _]. eapply Hne; [done|]. congruence.
Qed.

Lemma ensure_pt_outcome d k pdi :
  pt_wf d k -> 0 <= pdi < 1024 ->
  exists ok d' k', ensure_pt d pdi k = Some (ok, d', k') /\ pt_wf d' k' /\
    same_bitmaps d d' /\ (forall Q, pte_at d' k' Q = pte_at d k Q) /\
    (ok = true -> is_Some (Pts d' !! pdi)).
Proof.
  intros W Hpdi. unfold ensure_pt. destruct (Pts d !! pdi) as [p|] eqn:Hp.
  { exists true, d, k. split_and!; [done..|eauto]. }
  pose proof (wf_pd _ _ W) as (pd & Hpd & Hphys & _ & Hl & _).
  unfold AllocPageBelow4G. destruct (k_page_supply k) as [|[va|] s] eqn:Hsup.
  - eexists false, _, k. split; [done|]. split; [by destruct W|]. done.
  - destruct (supply_pop k va s (wf_supply _ _ W) Hsup) as (Hgv & Hva & _).
    rewrite (good_u32 va Hgv). cbn [Pd set_field]. simpl. rewrite Hpd. ostep.
    assert (Hlpd : is_Some (k_pages (k <| k_pages ::= insert va ∅ |> <| k_page_supply := s |>) !! pd)).
    { simpl. rewrite lookup_insert. case_decide; [by eauto|done]. }
    rewrite page_write_live by done. ostep. rewrite <- Hphys.
    eexists true, _, _. split; [done|].
    destruct (pt_wf_install d k pdi va s va W Hpdi Hp Hsup) as [W' HQ].
    split_and!; [exact W'|done..|exact HQ|]. intros _. simpl. rewrite lookup_insert_eq. by eauto.
  - eexists false, _, _. split; [done|]. split.
    + destruct W as [Wpd Wr Wa Wp Wi Wn Ws]. constructor; try done. by eapply supply_skip.
    + done.
Qed.

(** ** Map *)
Definition mapped_range (d : domain) (k : kmem) (d' : domain) (k' : kmem)
    (P i n PhysAddr Flags : Z) : Prop :=
  forall Q, 0 <= Q < pages ->
    pte_at d' k' Q = if decide (P + i <= Q < P + i + n)
                     then make_pte (IsAv1d d) (u64 (PhysAddr + (Q - P) * RK_IOMMU_PAGE_SIZE)) Flags
                     else pte_at d k Q.

(** A failed map leaves every page it had written cleared. *)
Definition map_failed (s : NTSTATUS) (d : domain) (k : kmem) (d' : domain) (k' : kmem)
    (P i n : Z) : Prop :=
  (s = STATUS_INVALID_PARAMETER /\ pages < P + i + n \/ s = STATUS_INSUFFICIENT_RESOURCES) /\
  exists j, i <= j < i + n /\ cleared d k d' k' P j.

Lemma rollback_outcome d k P i :
  pt_wf d k -> 0 <= P < pages -> 0 <= i ->
  exists k', (if 0 <? i then RkIommuUnmapAt d (P * RK_IOMMU_PAGE_SIZE) i k else Some k) = Some k' /\
    pt_wf d k' /\ cleared d k d k' P i.
Proof.
  intros W HP Hi. destruct (Z.ltb_spec 0 i).
  - destruct (unmap_outcome d k P i W HP Hi) as (k' & E & W' & _ & Hc). eauto.
  - exists k. split_and!; [done..|]. intros Q HQ. rewrite decide_False; [done|lia].
Qed.

Lemma cleared_pre d k d1 k1 d' k' P n :
  (forall Q, 0 <= Q < pages -> ~ (P <= Q < P + n) -> pte_at d1 k1 Q = pte_at d k Q) ->
  cleared d1 k1 d' k' P n -> cleared d k d' k' P n.
Proof. intros Hq Hc Q HQ. rewrite Hc by done. case_decide; [done|by apply Hq]. Qed.

Lemma map_loop_outcome P PhysAddr Flags n : forall d k i,
  pt_wf d k -> 0 <= P < pages -> 0 <= i -> P + i <= pages ->
  exists s d' k', map_loop d (P * RK_IOMMU_PAGE_SIZE) PhysAddr Flags i n k = Some (s, d', k') /\
    pt_wf d' k' /\ same_bitmaps d d' /\
    ((s = STATUS_SUCCESS /\ P + i + Z.of_nat n <= pages /\
      mapped_range d k d' k' P i (Z.of_nat n) PhysAddr Flags) \/
     map_failed s d k d' k' P i (Z.of_nat n)).
Proof.
  induction n as [|n IH]; intros d k i W HP Hi HPi.
  { exists STATUS_SUCCESS, d, k. split_and!; [done..|]. left. split_and!; [done|lia|].
    intros Q HQ. rewrite decide_False; [done|lia]. }
  cbn [map_loop]. rewrite iova_pdi_page, iova_pti_page by lia.
  destruct (walk_index P i HP) as [Hd Hm]; [lia|].
  unfold RK_IOMMU_PT_ENTRIES, RK_IOMMU_PD_ENTRIES. rewrite Hd, Hm.
  destruct (Z.leb_spec 1024 ((P + i) / 1024)) as [Hge|Hlt].
  { destruct (rollback_outcome d k P i W HP Hi) as (k' & E & W' & Hc). rewrite E. ostep.
    exists STATUS_INVALID_PARAMETER, d, k'. split_and!; [done..|]. right. split.
    - left. split; [done|geo; zdm].
    - exists i. split; [lia|done]. }
  assert (HPi' : P + i < pages) by (geo; zdm).
  destruct (ensure_pt_outcome d k ((P + i) / 1024) W) as (ok & d1 & k1 & E & W1 & Hsb & Hq1 & Hok);
    [zdm|]. rewrite E. ostep. destruct ok; cbn [negb].
  2:{ destruct (rollback_outcome d1 k1 P i W1 HP Hi) as (k' & E' & W' & Hc). rewrite E'. ostep.
      exists STATUS_INSUFFICIENT_RESOURCES, d1, k'. split_and!; [done..|]. right. split; [by right|].
      exists i. split; [lia|]. eapply cleared_pre; [|done]. done. }
  destruct Hok as [pt Hpt]; [done|]. rewrite Hpt. ostep.
  destruct (wf_pts _ _ W1 _ _ Hpt) as (_ & _ & Hl & _).
  rewrite page_write_live by (done || zdm). ostep.
  set (k2 := k1 <| k_pages ::= _ |>).
  assert (W2 : pt_wf d1 k2) by (eapply pt_wf_write; [done..|zdm]).
  assert (Hq2 : forall Q, pte_at d1 k2 Q = if decide (Q = P + i)
      then make_pte (IsAv1d d1) (u64 (PhysAddr + i * RK_IOMMU_PAGE_SIZE)) Flags else pte_at d k Q).
  { intros Q. unfold k2. rewrite (pte_at_write d1 k1 _ pt) by (done || zdm).
    replace ((P + i) / 1024 * 1024 + (P + i) mod 1024) with (P + i) by zdm. by rewrite Hq1. }
  destruct (IH d1 k2 (i + 1) W2 HP) as (s & d' & k' & E' & W' & Hsb' & Hres); [lia|lia|].
  exists s, d', k'. split; [done|]. split; [done|]. split; [by eapply same_bitmaps_trans|].
  pose proof Hsb as (_ & _ & _ & Hav). destruct Hres as [(-> & Hle & Hmap)|[Hs (j & Hj & Hc)]].
  - left. split_and!; [done|lia|]. intros Q HQ. rewrite Hmap, Hq2, Hav by done.
    destruct (decide (Q = P + i)) as [->|Hne].
    + rewrite decide_False, (decide_True (P := P + i <= _ < _)) by lia.
      do 3 f_equal. lia.
    + repeat case_decide; (done || lia).
  - right. split; [destruct Hs as [[? ?]|?]; [left; split; [done|lia]|by right]|].
    exists j. split; [lia|]. eapply cleared_pre; [|done].
    intros Q HQ Hout. rewrite Hq2, decide_False; [done|lia].
Qed.

Lemma map_outcome d k P PhysAddr n Flags :
  pt_wf d k -> 0 <= P < pages -> 0 <= n ->
  exists s d' k',
    RkIommuMapAt d (P * RK_IOMMU_PAGE_SIZE) PhysAddr n Flags k = Some (s, d', k') /\
    pt_wf d' k' /\ same_bitmaps d d' /\
    ((s = STATUS_SUCCESS /\ P + n <= pages /\ mapped_range d k d' k' P 0 n PhysAddr Flags) \/
     map_failed s d k d' k' P 0 n).
Proof.
  intros W HP Hn. unfold RkIommuMapAt.
  destruct (map_loop_outcome P PhysAddr Flags (Z.to_nat n) d k 0 W HP) as (s & d' & k' & E & H);
    [done|lia|]. rewrite Z2Nat.id, Z.add_0_r in H by done. eauto 8.
Qed.

(** ** The walk through a well-formed table *)
Lemma flag1 w : flag w 1 = Z.testbit w 0.
Proof. by apply (flag_bit w 0). Qed.
Lemma flag4 w : flag w 4 = Z.testbit w 2.
Proof. by apply (flag_bit w 2). Qed.

Lemma make_dte_valid av1 p : flag (make_dte av1 p) 1 = true.
Proof. rewrite flag1. unfold make_dte. destruct av1; rewrite Z.lor_spec; apply orb_true_r. Qed.

Lemma land_mask_high x m :
  good_page x -> Z.land 0xfffff000 m = 0xfffff000 -> Z.land x m = x.
Proof.
  intros [Hx Hm] Hc. rewrite <- (land_high_mask x Hx Hm) at 1.
  rewrite <- Z.land_assoc, Hc. by apply land_high_mask.
Qed.

Lemma dte_roundtrip av1 p : good_page p -> dte_pt_addr av1 (make_dte av1 p) = p.
Proof.
  intros Hp. unfold dte_pt_addr, make_dte.
  destruct av1; unfold AV1_DTE_PT_ADDR_MASK, AV1_DTE_VALID, RK_DTE_PT_VALID, RK_DTE_PT_ADDRESS_MASK;
    land_norm; by apply land_mask_high.
Qed.

Lemma translate_pte d k iova :
  pt_wf d k -> 0 <= iova < 2 ^ 32 ->
  translate d k iova
  = let pte := pte_at d k (iova / 4096) in
    if negb (flag pte 1) then None else
    Some (Z.lor (pte_page_addr (IsAv1d d) pte) (Z.land iova 0xfff), pte_writable pte).
Proof.
  intros W Hi. unfold translate, pte_at. rewrite (wf_root _ _ W).
  rewrite !Z.shiftr_div_pow2 by done. change (2 ^ 22) with 4194304. change (2 ^ 12) with 4096.
  change 0x3ff with (Z.ones 10). rewrite Z.land_ones by done. change (2 ^ 10) with 1024.
  replace (iova / 4096 / 1024) with (iova / 4194304) by zdm.
  assert (Hr : 0 <= iova / 4194304 < 1024) by zdm.
  destruct (Pts d !! (iova / 4194304)) as [p|] eqn:Hp.
  - destruct (wf_pts _ _ W _ _ Hp) as (_ & Hg & _ & ->).
    rewrite make_dte_valid, dte_roundtrip by done. done.
  - by rewrite (wf_none _ _ W _ Hr Hp).
Qed.

(** ** Entry encodings *)
Ltac fold_const_shiftr :=
  repeat match goal with
  | |- context [Z.shiftr (Zpos ?a) (Zpos ?b)] =>
      let v := eval vm_compute in (Z.shiftr (Zpos a) (Zpos b)) in
      replace (Z.shiftr (Zpos a) (Zpos b)) with v by reflexivity
  end.

Lemma make_pte_valid av1 phys F : flag (make_pte av1 phys F) 1 = true.
Proof.
  rewrite flag1. unfold make_pte. destruct av1.
  - destruct (flag F _); rewrite !Z.lor_spec;
      replace (Z.testbit AV1_PTE_VALID 0) with true by reflexivity;
      by rewrite orb_true_r.
  - rewrite Z.lor_spec. apply orb_true_r.
Qed.

Lemma testbit_mask_const x c b : Z.testbit c b = false -> Z.testbit (Z.land x c) b = false.
Proof. intros H. by rewrite Z.land_spec, H, andb_false_r. Qed.

Lemma make_pte_writable av1 phys F : pte_writable (make_pte av1 phys F) = flag F 4.
Proof.
  unfold pte_writable. rewrite !flag4. unfold make_pte. destruct av1.
  - change (RK_PTE_PAGE_WRITABLE) with 4. rewrite flag4.
    assert (Hlow : Z.testbit (Z.lor (Z.lor (u32 (Z.land phys AV1_PTE_PAGE_ADDR_LOW_MASK))
        (u32 (Z.shiftl (u32 (Z.land (Z.shiftr phys 32) AV1_PTE_PAGE_ADDR_HIGH_MASK))
                       AV1_PTE_PAGE_ADDR_HIGH_SHIFT))) AV1_PTE_VALID) 2 = false).
    { rewrite !Z.lor_spec, (u32_land (Z.land phys _)), (u32_land (Z.shiftl _ _)).
      rewrite (Z.land_spec (Z.shiftl _ _)), Z.shiftl_spec_low by done.
      rewrite <- Z.land_assoc, testbit_mask_const; done. }
    destruct (Z.testbit F 2).
    + rewrite Z.lor_spec. apply orb_true_r.
    + exact Hlow.
  - rewrite !Z.lor_spec, u32_land, <- Z.land_assoc, testbit_mask_const by done.
    rewrite Z.land_spec.
    replace (Z.testbit RK_PTE_PAGE_VALID 2) with false by reflexivity.
    replace (Z.testbit (Z.lor RK_PTE_PAGE_READABLE RK_PTE_PAGE_WRITABLE) 2) with true by reflexivity.
    by rewrite andb_true_r, orb_false_r, orb_false_l.
Qed.

Lemma make_pte_addr av1 phys F : good_page phys -> pte_page_addr av1 (make_pte av1 phys F) = phys.
Proof.
  intros Hg. pose proof Hg as [Hp _]. unfold pte_page_addr, make_pte. destruct av1.
  - rewrite (Z.shiftr_div_pow2 phys), Z.div_small by done.
    rewrite Z.land_0_l, (u32_small 0), Z.shiftl_0_l, (u32_small 0) by lia.
    unfold AV1_PTE_PAGE_ADDR_LOW_MASK, AV1_PTE_VALID, AV1_PTE_WRITABLE.
    rewrite Z.lor_0_r. destruct (flag F _);
      rewrite !Z.shiftr_lor, u32_land, !Z.shiftr_land;
      fold_const_shiftr;
      land_norm; by apply land_mask_high.
  - unfold RK_PTE_PAGE_ADDRESS_MASK, RK_PTE_PAGE_VALID, RK_PTE_PAGE_READABLE, RK_PTE_PAGE_WRITABLE.
    land_norm. by apply land_mask_high.
Qed.

Lemma page_offset_lor x iova :
  x mod 4096 = 0 -> Z.lor x (Z.land iova 0xfff) = x + iova mod 4096.
Proof.
  intros Hx. change 0xfff with (Z.ones 12). rewrite Z.land_ones by done. change (2 ^ 12) with 4096.
  enough (Z.land x (iova mod 4096) = 0) as H0 by (pose proof (Z.add_lor_land x (iova mod 4096)); lia).
  change 4096 with (2 ^ 12) in *. rewrite <- Z.land_ones by done.
  rewrite (Z.land_comm iova), Z.land_assoc, Z.land_ones, Hx by done. apply Z.land_0_l.
Qed.

Lemma good_page_add p j :
  good_page p -> 0 <= j -> p + (j + 1) * 4096 <= 2 ^ 32 -> good_page (p + j * 4096).
Proof. intros [Hp Hm] Hj Hle. split; [lia|]. rewrite Z.mod_add; done. Qed.

Lemma translate_mapped d k iova phys F :
  pt_wf d k -> 0 <= iova < 2 ^ 32 -> good_page phys ->
  pte_at d k (iova / 4096) = make_pte (IsAv1d d) phys F ->
  translate d k iova = Some (phys + iova mod 4096, flag F RK_PTE_PAGE_WRITABLE).
Proof.
  intros W Hi Hg Hp. rewrite translate_pte by done. cbv zeta. rewrite Hp.
  rewrite make_pte_valid, make_pte_addr, make_pte_writable by done. cbn [negb].
  by rewrite page_offset_lor by apply Hg.
Qed.

Lemma translate_same d k d' k' iova :
  pt_wf d k -> pt_wf d' k' -> IsAv1d d' = IsAv1d d -> 0 <= iova < 2 ^ 32 ->
  pte_at d' k' (iova / 4096) = pte_at d k (iova / 4096) ->
  translate d' k' iova = translate d k iova.
Proof. intros W W' Ha Hi Hp. rewrite !translate_pte by done. by rewrite Hp, Ha. Qed.

Lemma translate_cleared d k iova :
  pt_wf d k -> 0 <= iova < 2 ^ 32 -> pte_at d k (iova / 4096) = 0 -> translate d k iova = None.
Proof. intros W Hi Hp. rewrite translate_pte by done. cbv zeta. by rewrite Hp. Qed.

(** ** The operations, seen through the walk *)

(** A successful map translates its whole range and changes nothing else. *)
Lemma map_translates d k P PhysAddr n Flags d' k' :
  pt_wf d k -> 0 <= P < pages -> 0 <= n -> good_page PhysAddr -> PhysAddr + n * 4096 <= 2 ^ 32 ->
  RkIommuMapAt d (P * RK_IOMMU_PAGE_SIZE) PhysAddr n Flags k = Some (STATUS_SUCCESS, d', k') ->
  forall iova, 0 <= iova < 2 ^ 32 ->
    translate d' k' iova
    = let off := iova - P * 4096 in
      if decide (0 <= off < n * 4096) then Some (PhysAddr + off, flag Flags RK_PTE_PAGE_WRITABLE)
      else translate d k iova.
Proof.
  intros W HP Hn Hg Hle E iova Hi.
  destruct (map_outcome d k P PhysAddr n Flags W HP Hn) as (s & d1 & k1 & E1 & W1 & Hsb & Hres).
  rewrite E1 in E. simplify_eq. pose proof Hsb as (_ & _ & _ & Ha).
  destruct Hres as [(_ & HPn & Hmap)|[[[[=] _]|[=]] _]].
  assert (HQ : 0 <= iova / 4096 < pages) by (geo; zdm).
  specialize (Hmap (iova / 4096) HQ). rewrite Z.add_0_r in Hmap. cbv zeta.
  destruct (decide (0 <= iova - P * 4096 < n * 4096)) as [Hd|Hd].
  - rewrite decide_True in Hmap by zdm.
    assert (Hgp : good_page (PhysAddr + (iova / 4096 - P) * 4096)) by (apply good_page_add; [done|zdm..]).
    change RK_IOMMU_PAGE_SIZE with 4096 in Hmap. rewrite u64_small, <- Ha in Hmap by (destruct Hgp; lia).
    rewrite (translate_mapped d' k' iova _ Flags) by done. do 2 f_equal. zdm.
  - rewrite decide_False in Hmap by zdm. by apply translate_same.
Qed.

(** Clearing a range revokes exactly the translations of that range. *)
Lemma cleared_translate d k d' k' P n iova :
  pt_wf d k -> pt_wf d' k' -> IsAv1d d' = IsAv1d d -> cleared d k d' k' P n ->
  0 <= iova < 2 ^ 32 ->
  translate d' k' iova
  = if decide (P <= iova / 4096 < P + n) then None else translate d k iova.
Proof.
  intros W W' Ha Hc Hi. assert (HQ : 0 <= iova / 4096 < pages) by (geo; zdm).
  specialize (Hc _ HQ). case_decide; [by apply translate_cleared|by apply translate_same].
Qed.
