(* ===== verification/DomainLife.v ===== *)
(** * Domain creation and destruction

    [RkIommuDomainCreateVdec], [RkIommuDomainCreateAv1d] and
    [RkIommuDomainDestroy] of [src/driver/shared/iommu/pgtable.c]: creation
    either establishes the allocator and page-table invariants or gives back
    everything it took; destruction gives back everything a domain owns. *)

From S2P Require Import Prelude Bitmap PgTable IovaAlloc PageWalk.

(** ** The two kernel allocators *)
Lemma pool_alloc_outcome k t :
  exists ok k', ExAllocatePool2 k t = (ok, k') /\ k_pages k' = k_pages k /\
    k_page_supply k' = k_page_supply k /\
    k_pool k' = if ok then t :: k_pool k else k_pool k.
Proof. unfold ExAllocatePool2. destruct (k_pool_supply k) as [|[] s]; eauto 10. Qed.

Lemma page_alloc_outcome k :
  supply_ok k ->
  exists o phys k', AllocPageBelow4G k = (o, phys, k') /\ k_pool k' = k_pool k /\
    match o with
    | Some va => good_page va /\ phys = va /\ k_pages k !! va = None /\
                 k_pages k' = <[va := ∅]> (k_pages k) /\ supply_ok k'
    | None => k_pages k' = k_pages k /\ supply_ok k'
    end.
Proof.
  intros Hs. unfold AllocPageBelow4G. destruct (k_page_supply k) as [|[va|] s] eqn:E.
  - eauto 10.
  - destruct (supply_pop k va s Hs E) as (Hg & Hn & Hs'). eexists (Some va), _, _.
    split; [done|]. split; [done|]. rewrite good_u32 by done. done.
  - eexists None, _, _. split; [done|]. split; [done|]. split; [done|]. by eapply supply_skip.
Qed.

Lemma remove_one_hd t l : remove_one t (t :: l) = l.
Proof. simpl. by rewrite decide_True. Qed.

Lemma supply_ok_ext k k' :
  k_page_supply k' = k_page_supply k -> k_pages k' = k_pages k -> supply_ok k -> supply_ok k'.
Proof. unfold supply_ok. by intros -> ->. Qed.

(** Nothing taken, nothing lost. *)
Definition gives_back (k k' : kmem) : Prop := k_pages k' = k_pages k /\ k_pool k' = k_pool k.

(** Peel one allocation of the code off the goal. *)
Ltac pool_step k :=
  let ok := fresh "ok" in let k' := fresh "k" in
  let E := fresh "E" in let Hp := fresh "Hpg" in let Hs := fresh "Hsup" in
  let Hl := fresh "Hpool" in
  lazymatch goal with
  | |- context [ExAllocatePool2 k ?t] =>
      destruct (pool_alloc_outcome k t) as (ok & k' & E & Hp & Hs & Hl); rewrite E;
      destruct ok; cbn [negb]
  end.

(** The failing branches: undo in reverse order of allocation. *)
Ltac unwind :=
  eexists _, _, _; split; [reflexivity|]; right;
  split; [reflexivity|]; split; [reflexivity|];
  unfold gives_back, ExFreePoolWithTag, FreePageBelow4G; simpl;
  repeat match goal with
         | H : k_pages _ = _ |- _ => rewrite H; clear H
         | H : k_pool _ = _ |- _ => rewrite H; clear H
         end;
  repeat (simpl; rewrite decide_True by done);
  rewrite ?delete_insert_id by done; split; done.

Definition created (d : domain) (k k' : kmem) (A : gmap Z Z) : Prop :=
  pt_wf d k' /\ iova_rep d A /\ Pts d = ∅ /\
  k_pool k' = [Tag_eIkR; Tag_sIkR; Tag_bIkR; Tag_mDkR] ++ k_pool k.

Lemma created_vdec_wf d d' pd k k' :
  Pd d = Some pd -> PdPhys d = pd -> Pts d = ∅ -> IsAv1d d = false -> good_page pd ->
  k_pages k' = <[pd := ∅]> (k_pages k) -> supply_ok k' -> same_tables d d' -> pt_wf d' k'.
Proof.
  intros Hpd Hph Hpts Ha Hg Hk Hs (Sa & _ & _ & Sp & Sph & Spt & _).
  constructor; rewrite ?Sa, ?Sp, ?Sph, ?Spt, ?Hpts, ?Ha; try done.
  - exists pd. rewrite Hpd, Hph, Hk, lookup_insert_eq. split_and!; [done..|apply Hg|eauto|done].
  - unfold walk_root. by rewrite Sa, Ha, Sph.
  - intros i _ _. unfold page_word. by rewrite Hk, Hph, lookup_insert_eq.
Qed.

Lemma create_vdec_outcome k :
  supply_ok k ->
  exists s od k', RkIommuDomainCreateVdec k = Some (s, od, k') /\
    ((exists d, s = STATUS_SUCCESS /\ od = Some d /\ created d k k' rcb_allocs) \/
     (s = STATUS_INSUFFICIENT_RESOURCES /\ od = None /\ gives_back k k')).
Proof.
  intros Hs. unfold RkIommuDomainCreateVdec. pool_step k; [|unwind].
  destruct (page_alloc_outcome k0) as (o & ph & k1 & E1 & Hl1 & Ho); [by eapply supply_ok_ext|].
  rewrite E1. destruct o as [va|]; [|destruct Ho as [Hpg1 _]; unwind].
  destruct Ho as (Hg & -> & Hn & Hk1 & Hs1). rewrite Hpg in Hn, Hk1.
  pool_step k1; [|unwind]. pool_step k2; [|unwind]. pool_step k3; [|unwind].
  set (d0 := (zero_domain false) <| Pd := Some va |> <| PdPhys := va |>).
  destruct (init_bitmaps_rep d0) as (d1 & E5 & R1 & T1). rewrite E5. ostep.
  destruct (reserve_rcb_rep d1 R1) as (d2 & E6 & R2 & T2). rewrite E6. ostep.
  pose proof (same_tables_trans _ _ _ T1 T2) as T.
  eexists _, _, _. split; [reflexivity|]. left. exists d2. split; [done|]. split; [done|].
  split_and!; [| done | by destruct T as (_ & _ & _ & _ & _ & -> & _) |].
  - eapply (created_vdec_wf d0 d2 va k); [done..| | |done].
    + congruence.
    + eapply supply_ok_ext; [| |exact Hs1]; congruence.
  - simpl. congruence.
Qed.

(** ** AV1D: the table array page *)
Lemma pta_entry pd :
  good_page pd ->
  let pta0 := Z.lor (Z.land pd AV1_PTA_DT_ADDR_MASK) AV1_PTA_MODE_4K in
  Z.land (u32 pta0) AV1_PTA_DT_ADDR_MASK = pd.
Proof.
  intros Hg. cbv zeta. unfold AV1_PTA_DT_ADDR_MASK, AV1_PTA_MODE_4K.
  rewrite Z.lor_0_r, u32_land, <- !Z.land_assoc. fold_const_land.
  by apply land_mask_high.
Qed.

Lemma created_av1d_wf d d' pd pta w1 k k' :
  Pd d = Some pd -> PdPhys d = pd -> Pta d = Some pta -> PtaPhys d = pta -> pta <> pd ->
  Pts d = ∅ -> IsAv1d d = true -> good_page pd ->
  k_pages k' = <[pta := <[1 := w1]> (<[0 := u32 (Z.lor (Z.land pd AV1_PTA_DT_ADDR_MASK) AV1_PTA_MODE_4K)]> ∅)]>
                 (<[pd := ∅]> (k_pages k)) ->
  supply_ok k' -> same_tables d d' -> pt_wf d' k'.
Proof.
  intros Hpd Hph Hta Htph Hne Hpts Ha Hg Hk Hs (Sa & St & Stp & Sp & Sph & Spt & _).
  assert (Hlpd : k_pages k' !! pd = Some ∅)
    by (rewrite Hk, lookup_insert_ne, lookup_insert_eq; done).
  constructor; rewrite ?Sa, ?Stp, ?Sp, ?Sph, ?Spt, ?Hpts, ?Ha; try done.
  - exists pd. rewrite Hpd, Hph, Hlpd. split_and!; [done..|apply Hg|eauto|done].
  - unfold walk_root. rewrite Sa, Ha, Stp, Htph, ?Sph, Hph. unfold page_word.
    rewrite Hk, lookup_insert_eq. simpl. rewrite lookup_insert_ne, lookup_insert_eq by done.
    by apply pta_entry.
  - intros _. rewrite Htph, Hpd, Hk, lookup_insert_eq. split_and!; [congruence|eauto|done].
  - intros i _ _. unfold page_word. by rewrite Hph, Hlpd.
Qed.

Lemma create_av1d_outcome k :
  supply_ok k ->
  exists s od k', RkIommuDomainCreateAv1d k = Some (s, od, k') /\
    ((exists d, s = STATUS_SUCCESS /\ od = Some d /\ created d k k' {[0 := 1]}) \/
     (s = STATUS_INSUFFICIENT_RESOURCES /\ od = None /\ gives_back k k')).
Proof.
  intros Hs. unfold RkIommuDomainCreateAv1d. pool_step k; [|unwind].
  destruct (page_alloc_outcome k0) as (o & ph & k1 & E1 & Hl1 & Ho); [by eapply supply_ok_ext|].
  rewrite E1. destruct o as [va|]; [|destruct Ho as [Hpg1 _]; unwind].
  destruct Ho as (Hg & -> & Hn & Hk1 & Hs1). rewrite Hpg in Hn, Hk1.
  destruct (page_alloc_outcome k1 Hs1) as (o & ph & k2 & E2 & Hl2 & Ho).
  rewrite E2. destruct o as [ta|]; [|destruct Ho as [Hpg2 _]; unwind].
  destruct Ho as (Hgt & -> & Hnt & Hk2 & Hs2). rewrite Hk1 in Hnt, Hk2.
  pose proof Hnt as [_ Hne]%lookup_insert_None.
  set (d0 := (zero_domain true) <| Pd := Some va |> <| PdPhys := va |>
               <| Pta := Some ta |> <| PtaPhys := ta |>).
  set (p0 := Z.lor (Z.land (PdPhys _) AV1_PTA_DT_ADDR_MASK) AV1_PTA_MODE_4K).
  assert (Hlt : is_Some (k_pages k2 !! ta)) by (rewrite Hk2, lookup_insert_eq; eauto).
  rewrite page_write_live by done. ostep.
  rewrite page_write_live by (rewrite ?live_write; done). ostep.
  set (k3 := k2 <| k_pages ::= _ |> <| k_pages ::= _ |>).
  assert (Hk3 : k_pages k3 = <[ta := <[1 := Z.shiftr p0 32]> (<[0 := u32 p0]> ∅)]>
                                (<[va := ∅]> (k_pages k))).
  { unfold k3. simpl. rewrite Hk2, !alter_insert_eq. done. }
  assert (Hl3 : k_pool k3 = k_pool k2) by done.
  assert (Hs3 : supply_ok k3) by (by apply supply_write, supply_write).
  clearbody k3. clear Hk2 Hlt Hk1.
  pool_step k3; [|unwind]. pool_step k4; [|unwind]. pool_step k5; [|unwind].
  destruct (init_bitmaps_rep d0) as (d1 & E6 & R1 & T1). rewrite E6. ostep.
  eexists _, _, _. split; [reflexivity|]. left. exists d1. split; [done|]. split; [done|].
  split_and!; [| done | by destruct T1 as (_ & _ & _ & _ & _ & -> & _) |].
  - eapply (created_av1d_wf d0 d1 va ta _ k); [done..| | |done].
    + rewrite Hpg2, Hpg1, Hpg0. exact Hk3.
    + eapply supply_ok_ext; [| |exact Hs3]; congruence.
  - simpl. congruence.
Qed.

(** ** Destruction *)

(** The pages a domain owns. *)
Definition owns (d : domain) (p : Z) : Prop :=
  Pd d = Some p \/ Pta d = Some p \/ exists i, Pts d !! i = Some p.

Lemma free_pts_spec d js : forall k,
  let k' := foldl (fun k i => match Pts d !! i with Some va => FreePageBelow4G k va | None => k end)
                  k js in
  k_pool k' = k_pool k /\
  forall p, k_pages k' !! p = k_pages k !! p \/
            (k_pages k' !! p = None /\ exists i, i ∈ js /\ Pts d !! i = Some p).
Proof.
  induction js as [|i js IH]; intros k; cbn [foldl]; cbv zeta in *; [auto|].
  destruct (Pts d !! i) as [va|] eqn:Hi.
  - destruct (IH (FreePageBelow4G k va)) as [Hpool Hp]. split; [done|]. intros p.
    destruct (Hp p) as [Hq|(Hq & j & Hj & Hjp)].
    + rewrite Hq. simpl. rewrite lookup_delete. case_decide; [subst|by left].
      right. split; [done|]. exists i. split; [by left|done].
    + right. split; [done|]. exists j. split; [by right|done].
  - destruct (IH k) as [Hpool Hp]. split; [done|]. intros p.
    destruct (Hp p) as [Hq|(Hq & j & Hj & Hjp)]; [by left|].
    right. split; [done|]. exists j. split; [by right|done].
Qed.

Lemma free_pts_freed d js p i : forall k,
  i ∈ js -> Pts d !! i = Some p ->
  k_pages (foldl (fun k i => match Pts d !! i with Some va => FreePageBelow4G k va | None => k end)
                 k js) !! p = None.
Proof.
  induction js as [|j js IH]; intros k Hin Hp; [by apply elem_of_nil in Hin|].
  cbn [foldl]. apply elem_of_cons in Hin as [<-|Hin]; [|by apply IH].
  rewrite Hp. destruct (free_pts_spec d js (FreePageBelow4G k p)) as [_ Hs].
  destruct (Hs p) as [->|[-> _]]; [|done]. simpl. by rewrite lookup_delete_eq.
Qed.

Lemma remove_tags k rest :
  k_pool k = [Tag_eIkR; Tag_sIkR; Tag_bIkR; Tag_mDkR] ++ rest ->
  k_pool (ExFreePoolWithTag (ExFreePoolWithTag (ExFreePoolWithTag (ExFreePoolWithTag k Tag_bIkR)
            Tag_sIkR) Tag_eIkR) Tag_mDkR) = rest.
Proof. intros H. simpl. by rewrite H. Qed.

Lemma destroy_outcome d k rest :
  pt_wf d k -> k_pool k = [Tag_eIkR; Tag_sIkR; Tag_bIkR; Tag_mDkR] ++ rest ->
  let k' := RkIommuDomainDestroy (Some d) k in
  k_pool k' = rest /\
  forall p, (owns d p -> k_pages k' !! p = None) /\
            (~ owns d p -> k_pages k' !! p = k_pages k !! p).
Proof.
  intros W Hpool. cbv zeta. unfold RkIommuDomainDestroy, RK_IOMMU_PD_ENTRIES.
  set (k1 := foldl _ k _).
  destruct (free_pts_spec d (seqZ 0 1024) k) as [Hpl Hs]. fold k1 in Hpl, Hs.
  assert (Hfreed : forall i p, Pts d !! i = Some p -> k_pages k1 !! p = None).
  { intros i p Hp. apply (free_pts_freed d _ p i); [|done].
    apply elem_of_seqZ. by destruct (wf_pts _ _ W _ _ Hp) as [? _]. }
  clearbody k1. split.
  - apply remove_tags. by destruct (Pd d), (Pta d); simpl; rewrite Hpl.
  - intros p. simpl.
    assert (Hpg : k_pages (match Pta d with
        | Some va => FreePageBelow4G (match Pd d with Some va => FreePageBelow4G k1 va | None => k1 end) va
        | None => match Pd d with Some va => FreePageBelow4G k1 va | None => k1 end end) !! p
      = if decide (Pd d = Some p \/ Pta d = Some p) then None else k_pages k1 !! p).
    { destruct (Pd d), (Pta d); simpl; rewrite ?lookup_delete; repeat case_decide;
        try done; intuition congruence. }
    rewrite Hpg. split.
    + intros [H|[H|[i Hi]]]; [by rewrite decide_True by auto..|]. case_decide; eauto.
    + intros Hno. rewrite decide_False by (unfold owns in Hno; tauto).
      destruct (Hs p) as [|(_ & i & _ & Hi)]; [done|]. destruct Hno. right; right. eauto.
Qed.
