(* ===== verification/Mmio.v ===== *)
(** * Register accesses

    The device side of every driver: an ordered trace of register writes, reads
    and stalls at offsets from the mapped base.  What a read returns is decided
    by the hardware, so the answers come from a supply. *)

From S2P Require Import Prelude.

Inductive access :=
  | Wr (off v : Z)
  | Rd (off v : Z)
  | Stall (us : Z)
  | Delay (ms : Z).
#[export] Instance access_eq_dec : EqDecision access.
Proof. solve_decision. Defined.

Record mmio := Mmio { m_trace : list access; m_reads : list Z }.
#[export] Instance eta_mmio : Eta mmio := fun m => Mmio (m_trace m) (m_reads m).

Definition emit (a : access) (m : mmio) : mmio := m <| m_trace ::= fun t => t ++ [a] |>.

(** [WRITE_REGISTER_ULONG], [READ_REGISTER_ULONG],
    [KeStallExecutionProcessor] and a millisecond [KeDelayExecutionThread]. *)
Definition write_reg (off v : Z) (m : mmio) : mmio := emit (Wr off v) m.
Definition read_reg (off : Z) (m : mmio) : Z * mmio :=
  match m_reads m with
  | v :: rest => (u32 v, emit (Rd off (u32 v)) (m <| m_reads := rest |>))
  | [] => (0, emit (Rd off 0) m)
  end.
Definition stall (us : Z) (m : mmio) : mmio := emit (Stall us) m.
Definition delay (ms : Z) (m : mmio) : mmio := emit (Delay ms) m.

(** A loop [for (mi = 0; mi < n; mi++) body(mi)]. *)
Definition for_each (n : Z) (body : Z -> mmio -> mmio) (m : mmio) : mmio :=
  foldl (fun m mi => body mi m) m (seqZ 0 n).

(** The value of the last write to a register, and a fold over the writes of
    one register: how the hardware state follows from the trace. *)
Definition last_write (off : Z) (t : list access) : option Z :=
  foldl (fun acc a => match a with
                      | Wr o v => if o =? off then Some v else acc
                      | _ => acc
                      end) None t.

Definition track (off : Z) (upd : Z -> bool -> bool) (s : bool) (t : list access) : bool :=
  foldl (fun s a => match a with
                    | Wr o v => if o =? off then upd v s else s
                    | _ => s
                    end) s t.

(** Steps only append to the trace. *)
Definition extends (m m' : mmio) : Prop := exists t, m_trace m' = m_trace m ++ t.

Lemma extends_refl m : extends m m.
Proof. exists []. by rewrite app_nil_r. Qed.

Lemma extends_trans m1 m2 m3 : extends m1 m2 -> extends m2 m3 -> extends m1 m3.
Proof. intros [t1 H1] [t2 H2]. exists (t1 ++ t2). by rewrite H2, H1, app_assoc. Qed.

Lemma trace_write off v m : m_trace (write_reg off v m) = m_trace m ++ [Wr off v].
Proof. done. Qed.

Lemma trace_stall us m : m_trace (stall us m) = m_trace m ++ [Stall us].
Proof. done. Qed.

Lemma read_reg_trace off m :
  exists v rest, read_reg off m = (v, Mmio (m_trace m ++ [Rd off v]) rest) /\ 0 <= v < 2 ^ 32.
Proof.
  unfold read_reg. destruct m as [t [|v rest]]; simpl.
  - exists 0, []. by split.
  - exists (u32 v), rest. split; [done|]. apply u32_range.
Qed.

Lemma last_write_snoc off t a :
  last_write off (t ++ [a])
  = match a with
    | Wr o v => if o =? off then Some v else last_write off t
    | _ => last_write off t
    end.
Proof. unfold last_write. by rewrite foldl_app. Qed.

Lemma track_snoc off upd s t a :
  track off upd s (t ++ [a])
  = match a with
    | Wr o v => if o =? off then upd v (track off upd s t) else track off upd s t
    | _ => track off upd s t
    end.
Proof. unfold track. by rewrite foldl_app. Qed.

#[export] Hint Rewrite trace_write trace_stall last_write_snoc track_snoc : rk.
