(* ===== verification/IommuHw.v ===== *)
(** * The v2 IOMMU device: registers, paging and faults

    Model of [src/driver/rkiommu_vdec/device.c] (device record, paging enable
    and disable), of the register-level operations of
    [src/driver/rkiommu_vdec/ifc.c] and of the fault interrupt of
    [src/driver/rkiommu_vdec/fault.c].  Every operation takes the device and
    the register trace and returns its status with both updated; the device is
    the one [DevFromContext] resolved, so its NULL check has no counterpart. *)

From S2P Require Import Prelude Bitmap PgTable Mmio.

(** ** Registers and commands of pgtable.h *)
Definition RK_MMU_DTE_ADDR : Z := 0x00.
Definition RK_MMU_STATUS : Z := 0x04.
Definition RK_MMU_COMMAND : Z := 0x08.
Definition RK_MMU_PAGE_FAULT_ADDR : Z := 0x0C.
Definition RK_MMU_INT_RAWSTAT : Z := 0x14.
Definition RK_MMU_INT_CLEAR : Z := 0x18.
Definition RK_MMU_INT_MASK : Z := 0x1C.
Definition RK_MMU_INT_STATUS : Z := 0x20.
Definition RK_MMU_AUTO_GATING : Z := 0x24.
Definition RK_MMU_STATUS_PAGING_ENABLED : Z := 1.
Definition RK_MMU_CMD_ENABLE_PAGING : Z := 0.
Definition RK_MMU_CMD_DISABLE_PAGING : Z := 1.
Definition RK_MMU_CMD_ENABLE_STALL : Z := 2.
Definition RK_MMU_CMD_DISABLE_STALL : Z := 3.
Definition RK_MMU_CMD_ZAP_CACHE : Z := 4.
Definition RK_MMU_CMD_PAGE_FAULT_DONE : Z := 5.
Definition RK_MMU_CMD_FORCE_RESET : Z := 6.
Definition RK_MMU_CMD_RESET : Z := 1.
Definition RK_MMU_IRQ_PAGE_FAULT : Z := 1.
Definition RK_MMU_IRQ_BUS_ERROR : Z := 2.
Definition RK_MMU_IRQ_MASK : Z := 3.

(** ** RKIOMMU_DEVICE

    [MmioBase] says whether the window is mapped (offsets are relative to it);
    [Dom] is the [Domain] pointer; [Consumers] is the used prefix of the fixed
    array of four, so its length is [ConsumerCount]; pointers handed in by
    other drivers are numbers.  [IrqConnected] is the effect of
    WdfInterruptEnable/Disable. *)
Record iommu := Iommu {
  Hid : Z; Uid : Z;
  MmioBase : bool; MmioLength : Z;
  Dom : option domain;
  PagingEnabled : bool;
  FlagDisableMmuReset : bool; FlagEnableCmdRetry : bool; FlagShootdownEntire : bool;
  FaultCb : option Z; FaultCbCookie : Z;
  FaultCtxStatus : Z; FaultCtxIova : Z;
  Interrupt : bool; IrqConnected : bool;
  IsMaster : bool; IsCodecSlave : bool;
  PtAttached : bool; PtAttachedEvent : bool;
  Consumers : list (Z * Z);
}.
#[export] Instance eta_iommu : Eta iommu := fun d =>
  Iommu (Hid d) (Uid d) (MmioBase d) (MmioLength d) (Dom d) (PagingEnabled d)
    (FlagDisableMmuReset d) (FlagEnableCmdRetry d) (FlagShootdownEntire d)
    (FaultCb d) (FaultCbCookie d) (FaultCtxStatus d) (FaultCtxIova d)
    (Interrupt d) (IrqConnected d) (IsMaster d) (IsCodecSlave d)
    (PtAttached d) (PtAttachedEvent d) (Consumers d).

(** [(MmioLength >= 0x80) ? 2 : 1], and register [r] of instance [mi]. *)
Definition n_mmu (d : iommu) : Z := if 0x80 <=? MmioLength d then 2 else 1.
Definition reg (mi r : Z) : Z := mi * 0x40 + r.
Definition command (c mi : Z) (m : mmio) : mmio := write_reg (reg mi RK_MMU_COMMAND) c m.

(** ** RkIommuDisableHw *)
Definition disable_one (mi : Z) (m : mmio) : mmio :=
  let m := write_reg (reg mi RK_MMU_INT_MASK) 0 m in
  let m := stall 20 (command RK_MMU_CMD_DISABLE_PAGING mi m) in
  write_reg (reg mi RK_MMU_DTE_ADDR) 0 m.

Definition RkIommuDisableHw (d : iommu) (m : mmio) : NTSTATUS * iommu * mmio :=
  if negb (MmioBase d) then (STATUS_DEVICE_NOT_READY, d, m) else
  if negb (PagingEnabled d) then (STATUS_SUCCESS, d, m) else
  let n_cfg := n_mmu d in
  let m := for_each n_cfg (fun mi m => stall 20 (command RK_MMU_CMD_ENABLE_STALL mi m)) m in
  let m := for_each n_cfg disable_one m in
  let d := d <| PagingEnabled := false |> in
  let m := for_each n_cfg (command RK_MMU_CMD_DISABLE_STALL) m in
  (STATUS_SUCCESS, d, m).

(** ** RkIommuEnableHw (release build: the DBG read-backs are not compiled) *)
Definition enable_one (d : iommu) (PdPhys : Z) (mi : Z) (m : mmio) : mmio :=
  let m := if negb (FlagDisableMmuReset d)
           then stall 50 (command RK_MMU_CMD_RESET mi m) else m in
  let m := write_reg (reg mi RK_MMU_DTE_ADDR) PdPhys m in
  let m := command RK_MMU_CMD_ZAP_CACHE mi m in
  let m := write_reg (reg mi RK_MMU_INT_MASK) RK_MMU_IRQ_MASK m in
  let (ag, m) := read_reg (reg mi RK_MMU_AUTO_GATING) m in
  write_reg (reg mi RK_MMU_AUTO_GATING) (Z.lor ag (Z.shiftl 1 31)) m.

(** The enable attempts: command paging on every instance, then read the status
    of both and decide on the first. *)
Fixpoint enable_attempts (n_cfg : Z) (attempts : nat) (m : mmio) : bool * mmio :=
  match attempts with
  | O => (false, m)
  | S a =>
      let m := for_each n_cfg (command RK_MMU_CMD_ENABLE_PAGING) m in
      let (st0, m) := read_reg (reg 0 RK_MMU_STATUS) m in
      let m := if 1 <? n_cfg then snd (read_reg (reg 1 RK_MMU_STATUS) m) else m in
      if flag st0 RK_MMU_STATUS_PAGING_ENABLED then (true, m)
      else enable_attempts n_cfg a (stall 20 m)
  end.

Definition RkIommuEnableHw (d : iommu) (m : mmio) : NTSTATUS * iommu * mmio :=
  match Dom d with
  | None => (STATUS_DEVICE_NOT_READY, d, m)
  | Some dom =>
      if negb (MmioBase d) then (STATUS_DEVICE_NOT_READY, d, m) else
      if PagingEnabled d then (STATUS_SUCCESS, d, m) else
      let n_cfg := n_mmu d in
      let m := for_each n_cfg (fun mi m => stall 50 (command RK_MMU_CMD_ENABLE_STALL mi m)) m in
      let m := for_each n_cfg (enable_one d (PdPhys dom)) m in
      let attempts := if FlagEnableCmdRetry d then 3%nat else 1%nat in
      let (on, m) := enable_attempts n_cfg attempts m in
      let m' := for_each n_cfg (command RK_MMU_CMD_DISABLE_STALL) m in
      if on then (STATUS_SUCCESS, d <| PagingEnabled := true |>, m')
      else (STATUS_DEVICE_HARDWARE_ERROR, d, m')
  end.

(** ** Interface operations on the registers

    [RkIommuFlushTlb]; the same loop ends MapMdl and UnmapMdl. *)
Definition zap_all (d : iommu) (m : mmio) : mmio :=
  if PagingEnabled d && MmioBase d
  then for_each (n_mmu d) (command RK_MMU_CMD_ZAP_CACHE) m else m.

Definition RkIommuFlushTlb (d : iommu) (m : mmio) : NTSTATUS * mmio :=
  if negb (MmioBase d) then (STATUS_DEVICE_NOT_READY, m) else
  if negb (PagingEnabled d) then (STATUS_SUCCESS, m) else
  (STATUS_SUCCESS, for_each (n_mmu d) (command RK_MMU_CMD_ZAP_CACHE) m).

Definition RkIommuReattach (d : iommu) (m : mmio) : NTSTATUS * iommu * mmio :=
  if negb (MmioBase d) then (STATUS_DEVICE_NOT_READY, d, m) else
  match Dom d with
  | None => (STATUS_DEVICE_NOT_READY, d, m)
  | Some _ =>
      let '(s, d, m) := RkIommuDisableHw d m in
      if negb (NT_SUCCESS s) then (s, d, m) else
      let '(s, d, m) := RkIommuEnableHw d m in
      if negb (NT_SUCCESS s) then (s, d, m) else (STATUS_SUCCESS, d, m)
  end.

(** RkIommuForceReset: [poll_dte] is the wait for DTE_ADDR to read zero, at
    most [n] polls a millisecond apart; [false] is the timeout. *)
Fixpoint poll_dte (mi : Z) (n : nat) (m : mmio) : bool * mmio :=
  match n with
  | O => (false, m)
  | S n' =>
      let (dte, m) := read_reg (reg mi RK_MMU_DTE_ADDR) m in
      if dte =? 0 then (true, m) else poll_dte mi n' (delay 1 m)
  end.

Definition poll_all (n : Z) (m : mmio) : NTSTATUS * mmio :=
  foldl (fun '(rs, m) mi =>
           let (ok, m) := poll_dte mi 100 m in
           (if ok : bool then rs else STATUS_TIMEOUT, m))
        (STATUS_SUCCESS, m) (seqZ 0 n).

(** [NT_SUCCESS(rs)] holds for STATUS_TIMEOUT too (0x102 is a success code). *)
Definition RkIommuForceReset (d : iommu) (m : mmio) : NTSTATUS * iommu * mmio :=
  if negb (MmioBase d) then (STATUS_DEVICE_NOT_READY, d, m) else
  let n := n_mmu d in
  let m := for_each n (fun mi m => stall 20 (command RK_MMU_CMD_ENABLE_STALL mi m)) m in
  let m := for_each n (command RK_MMU_CMD_FORCE_RESET) m in
  let (rs, m) := poll_all n m in
  let m := for_each n (command RK_MMU_CMD_DISABLE_STALL) m in
  let d := if NT_SUCCESS rs then d <| PagingEnabled := false |> else d in
  (rs, d, m).

Definition RkIommuEnable := RkIommuEnableHw.
Definition RkIommuDisable := RkIommuDisableHw.

Definition RkIommuMaskIrq (d : iommu) : NTSTATUS * iommu :=
  (STATUS_SUCCESS, if Interrupt d then d <| IrqConnected := false |> else d).
Definition RkIommuUnmaskIrq (d : iommu) : NTSTATUS * iommu :=
  (STATUS_SUCCESS, if Interrupt d then d <| IrqConnected := true |> else d).

Definition RkIommuRegisterFaultHandler (d : iommu) (ConsumerContext : Z) (Callback : option Z)
  : NTSTATUS * iommu :=
  (STATUS_SUCCESS, d <| FaultCb := Callback |> <| FaultCbCookie := ConsumerContext |>).

Definition RkIommuIfcIsPtAttached (d : iommu) : bool := PtAttached d.

(** [wait] is the kernel's answer to the wait on PtAttachedEvent. *)
Definition RkIommuIfcWaitPtAttached (d : iommu) (TimeoutMs : Z) (wait : Z -> NTSTATUS) : NTSTATUS :=
  if negb (IsCodecSlave d) then STATUS_SUCCESS else
  if PtAttached d then STATUS_SUCCESS else wait TimeoutMs.

(** RKIOMMU_FAULT_SNAPSHOT: five registers per instance, the second zero on
    single-instance devices. *)
Record mmu_snapshot := MmuSnapshot {
  Status : Z; IntRawStat : Z; IntStatus : Z; PageFaultAddr : Z; DteAddr : Z }.

Definition snapshot_one (mi : Z) (m : mmio) : mmu_snapshot * mmio :=
  let (st, m) := read_reg (reg mi RK_MMU_STATUS) m in
  let (rs, m) := read_reg (reg mi RK_MMU_INT_RAWSTAT) m in
  let (ist, m) := read_reg (reg mi RK_MMU_INT_STATUS) m in
  let (pf, m) := read_reg (reg mi RK_MMU_PAGE_FAULT_ADDR) m in
  let (dte, m) := read_reg (reg mi RK_MMU_DTE_ADDR) m in
  (MmuSnapshot st rs ist pf dte, m).

Definition RkIommuSnapshot (d : iommu) (m : mmio)
  : NTSTATUS * option (mmu_snapshot * mmu_snapshot) * mmio :=
  if negb (MmioBase d) then (STATUS_DEVICE_NOT_READY, None, m) else
  let (s0, m) := snapshot_one 0 m in
  if 0x80 <=? MmioLength d then
    let (s1, m) := snapshot_one 1 m in (STATUS_SUCCESS, Some (s0, s1), m)
  else (STATUS_SUCCESS, Some (s0, MmuSnapshot 0 0 0 0 0), m).

(** ** The master registry (ifc.c) *)
Definition MasterGetPtBase (d : iommu) : NTSTATUS * Z :=
  if negb (IsMaster d) then (STATUS_DEVICE_NOT_READY, 0) else
  match Dom d with
  | None => (STATUS_DEVICE_NOT_READY, 0)
  | Some dom => (STATUS_SUCCESS, PdPhys dom)
  end.

Definition maxConsumers : Z := 4.

Definition MasterRegisterQueryRemove (d : iommu) (consCtx cb : Z) : NTSTATUS * iommu :=
  if Z.of_nat (length (Consumers d)) <? maxConsumers
  then (STATUS_SUCCESS, d <| Consumers ::= fun l => l ++ [(consCtx, cb)] |>)
  else (STATUS_INSUFFICIENT_RESOURCES, d).

(** Move the last entry into the freed slot and shrink. *)
Definition swap_remove {A} (i : nat) (l : list A) : list A :=
  match last l with
  | Some x => let l' := take (length l - 1) l in
              if (i =? length l - 1)%nat then l' else <[i := x]> l'
  | None => l
  end.

Fixpoint consumer_index (consCtx : Z) (l : list (Z * Z)) : option nat :=
  match l with
  | [] => None
  | (c, _) :: l' => if c =? consCtx then Some O else S <$> consumer_index consCtx l'
  end.

Definition MasterUnregisterQueryRemove (d : iommu) (consCtx : Z) : iommu :=
  match consumer_index consCtx (Consumers d) with
  | Some i => d <| Consumers ::= swap_remove i |>
  | None => d
  end.

(** ** The fault interrupt (fault.c) *)
Definition isr_one (mi : Z) (acc : bool * Z * Z * mmio) : bool * Z * Z * mmio :=
  let '(handled, mergedStatus, faultIova, m) := acc in
  let (intStatus, m) := read_reg (reg mi RK_MMU_INT_STATUS) m in
  if negb (flag intStatus RK_MMU_IRQ_MASK) then (handled, mergedStatus, faultIova, m) else
  let mergedStatus := Z.lor mergedStatus intStatus in
  let (faultIova, m) := if (mi =? 0) || (faultIova =? 0)
                        then read_reg (reg mi RK_MMU_PAGE_FAULT_ADDR) m else (faultIova, m) in
  let m := if flag intStatus RK_MMU_IRQ_PAGE_FAULT
           then command RK_MMU_CMD_PAGE_FAULT_DONE mi (command RK_MMU_CMD_ZAP_CACHE mi m) else m in
  let m := write_reg (reg mi RK_MMU_INT_CLEAR) (Z.land intStatus RK_MMU_IRQ_MASK) m in
  (true, mergedStatus, faultIova, m).

(** [true] means the DPC is queued. *)
Definition RkIommuEvtIsr (d : iommu) (m : mmio) : bool * iommu * mmio :=
  if negb (MmioBase d) then (false, d, m) else
  let '(handled, mergedStatus, faultIova, m) :=
    foldl (fun acc mi => isr_one mi acc) (false, 0, 0, m) (seqZ 0 (n_mmu d)) in
  if negb handled then (false, d, m) else
  (true, d <| FaultCtxStatus := mergedStatus |> <| FaultCtxIova := faultIova |>, m).

(** The call the DPC makes: callback, cookie, fault address, status. *)
Definition RkIommuEvtDpc (d : iommu) : option (Z * Z * Z * Z) :=
  match FaultCb d with
  | Some cb => Some (cb, FaultCbCookie d, FaultCtxIova d, FaultCtxStatus d)
  | None => None
  end.
