(* ===== verification/IommuHwFacts.v ===== *)
(** * What the paging sequences do to the hardware

    A monitor of the MMU instances replays a register trace: which instance is
    stalled, what its directory base and interrupt mask are, whether paging was
    commanded, and whether a configuration write ever reached a device whose
    instances were not all stalled.  The lemmas give its state after
    [RkIommuEnableHw] and [RkIommuDisableHw] of
    [src/driver/rkiommu_vdec/device.c] and RkIommuForceReset of ifc.c. *)

From S2P Require Import Prelude Bitmap PgTable Mmio IommuHw.

(** ** The monitor *)
Record mmu := Mmu { stalled : bool; dte : Z; irq_mask : Z; paging : bool }.
#[export] Instance eta_mmu : Eta mmu := fun s => Mmu (stalled s) (dte s) (irq_mask s) (paging s).

Definition mmu_command (c : Z) (s : mmu) : mmu :=
  if c =? RK_MMU_CMD_ENABLE_STALL then s <| stalled := true |> else
  if c =? RK_MMU_CMD_DISABLE_STALL then s <| stalled := false |> else
  if c =? RK_MMU_CMD_ENABLE_PAGING then s <| paging := true |> else
  if c =? RK_MMU_CMD_DISABLE_PAGING then s <| paging := false |> else
  if c =? RK_MMU_CMD_FORCE_RESET then s <| paging := false |> <| dte := 0 |> else s.

Definition mmu_write (mi o v : Z) (s : mmu) : mmu :=
  if o =? reg mi RK_MMU_COMMAND then mmu_command v s else
  if o =? reg mi RK_MMU_DTE_ADDR then s <| dte := v |> else
  if o =? reg mi RK_MMU_INT_MASK then s <| irq_mask := v |> else s.

Record monitor := Monitor { mmu0 : mmu; mmu1 : mmu; quiet : bool }.
#[export] Instance eta_monitor : Eta monitor := fun s => Monitor (mmu0 s) (mmu1 s) (quiet s).

(** Writes that reconfigure instance [mi]: everything but the stall commands,
    the TLB zap and the interrupt acknowledge. *)
Definition reconfigures (mi o v : Z) : bool :=
  (o =? reg mi RK_MMU_DTE_ADDR) || (o =? reg mi RK_MMU_INT_MASK) ||
  (o =? reg mi RK_MMU_AUTO_GATING) ||
  ((o =? reg mi RK_MMU_COMMAND) &&
   negb ((v =? RK_MMU_CMD_ENABLE_STALL) || (v =? RK_MMU_CMD_DISABLE_STALL) ||
         (v =? RK_MMU_CMD_ZAP_CACHE) || (v =? RK_MMU_CMD_PAGE_FAULT_DONE))).

Definition all_stalled (n : Z) (s : monitor) : bool :=
  stalled (mmu0 s) && ((n =? 1) || stalled (mmu1 s)).

Definition mon_step (n : Z) (s : monitor) (a : access) : monitor :=
  match a with
  | Wr o v =>
      Monitor (mmu_write 0 o v (mmu0 s)) (mmu_write 1 o v (mmu1 s))
        (quiet s && (negb (reconfigures 0 o v || reconfigures 1 o v) || all_stalled n s))
  | _ => s
  end.

Definition mon (n : Z) (s : monitor) (t : list access) : monitor := foldl (mon_step n) s t.

Lemma mon_write n s off v m :
  mon n s (m_trace (write_reg off v m)) = mon_step n (mon n s (m_trace m)) (Wr off v).
Proof. unfold mon. rewrite trace_write, foldl_app. done. Qed.

Lemma mon_stall n s us m : mon n s (m_trace (stall us m)) = mon n s (m_trace m).
Proof. unfold mon. rewrite trace_stall, foldl_app. done. Qed.

Lemma mon_delay n s ms m : mon n s (m_trace (delay ms m)) = mon n s (m_trace m).
Proof. unfold mon, delay, emit. simpl. rewrite foldl_app. done. Qed.

Lemma mon_read n s off m : mon n s (m_trace (snd (read_reg off m))) = mon n s (m_trace m).
Proof.
  destruct (read_reg_trace off m) as (v & rest & -> & _). simpl.
  unfold mon. rewrite foldl_app. done.
Qed.

Lemma for_each_1 body m : for_each 1 body m = body 0 m.
Proof. done. Qed.
Lemma for_each_2 body m : for_each 2 body m = body 1 (body 0 m).
Proof. done. Qed.

(** The monitor after the sequence, one rewriting step per access. *)
Ltac mon_run :=
  unfold command; repeat (rewrite mon_write || rewrite mon_stall || rewrite mon_delay || rewrite mon_read).

Lemma n_mmu_cases d : n_mmu d = 1 \/ n_mmu d = 2.
Proof. unfold n_mmu. destruct (_ <=? _); auto. Qed.

(** Replace the status read by its value and the trace it leaves. *)
Ltac read_step :=
  match goal with
  | |- context [let (_, _) := read_reg ?o ?m in _] =>
      let E := fresh "Erd" in
      destruct (read_reg o m) as [? ?] eqn:E;
      apply (f_equal snd) in E; cbn [snd] in E; subst
  end.

Definition on_all (n : Z) (f : mmu -> mmu) (s : monitor) : monitor :=
  Monitor (f (mmu0 s)) (if n =? 1 then mmu1 s else f (mmu1 s)) (quiet s).

(** ** The phases of the sequences *)
Ltac by_instances d :=
  destruct (n_mmu_cases d) as [-> | ->]; rewrite ?for_each_1, ?for_each_2; mon_run.

Lemma stall_phase d s us m :
  mon (n_mmu d) s (m_trace (for_each (n_mmu d)
     (fun mi m => stall us (command RK_MMU_CMD_ENABLE_STALL mi m)) m))
  = on_all (n_mmu d) (fun u => u <| stalled := true |>) (mon (n_mmu d) s (m_trace m)).
Proof.
  by_instances d; destruct (mon _ s (m_trace m)) as [[] [] []]; reflexivity.
Qed.

Lemma unstall_phase d s m :
  mon (n_mmu d) s (m_trace (for_each (n_mmu d) (command RK_MMU_CMD_DISABLE_STALL) m))
  = on_all (n_mmu d) (fun u => u <| stalled := false |>) (mon (n_mmu d) s (m_trace m)).
Proof.
  by_instances d; destruct (mon _ s (m_trace m)) as [[] [] []]; reflexivity.
Qed.

Lemma gating_value n s mi v :
  mi = 0 \/ mi = 1 ->
  mon_step n s (Wr (reg mi RK_MMU_AUTO_GATING) v)
  = mon_step n s (Wr (reg mi RK_MMU_AUTO_GATING) 0).
Proof. intros [-> | ->]; reflexivity. Qed.

Definition on_one (mi : Z) (f : mmu -> mmu) (s : monitor) : monitor :=
  if mi =? 0 then Monitor (f (mmu0 s)) (mmu1 s) (quiet s)
  else Monitor (mmu0 s) (f (mmu1 s)) (quiet s).

Definition configured (d : iommu) (pd : Z) (u : mmu) : mmu :=
  Mmu (stalled u) pd RK_MMU_IRQ_MASK (paging u && FlagDisableMmuReset d).

Lemma config_one d pd mi m n s :
  mi = 0 \/ mi = 1 -> n = 1 \/ n = 2 ->
  all_stalled n (mon n s (m_trace m)) = true ->
  mon n s (m_trace (enable_one d pd mi m)) = on_one mi (configured d pd) (mon n s (m_trace m)).
Proof.
  intros Hmi Hn. unfold enable_one. cbv zeta. read_step. unfold command, configured. mon_run.
  rewrite (gating_value n) by done.
  destruct (FlagDisableMmuReset d); cbn [negb]; mon_run;
    destruct (mon n s (m_trace m)) as [[[] ? ? []] [[] ? ? []] q];
    destruct Hmi as [-> | ->], Hn as [-> | ->]; destruct q; vm_compute;
    intros H; (discriminate H || reflexivity).
Qed.

(** Configuring every instance, all of them stalled. *)
Lemma config_phase d pd s m :
  all_stalled (n_mmu d) (mon (n_mmu d) s (m_trace m)) = true ->
  mon (n_mmu d) s (m_trace (for_each (n_mmu d) (enable_one d pd) m))
  = on_all (n_mmu d) (configured d pd) (mon (n_mmu d) s (m_trace m)).
Proof.
  intros Hs. destruct (n_mmu_cases d) as [E|E]; rewrite E in *;
    rewrite ?for_each_1, ?for_each_2; rewrite !config_one; auto.
  rewrite config_one by auto. exact Hs.
Qed.

Lemma disable_phase d s m :
  all_stalled (n_mmu d) (mon (n_mmu d) s (m_trace m)) = true ->
  mon (n_mmu d) s (m_trace (for_each (n_mmu d) disable_one m))
  = on_all (n_mmu d) (fun u => u <| dte := 0 |> <| irq_mask := 0 |> <| paging := false |>)
      (mon (n_mmu d) s (m_trace m)).
Proof.
  unfold disable_one.
  by_instances d; destruct (mon _ s (m_trace m)) as [[[] ? ? []] [[] ? ? []] []]; vm_compute;
    intros H; (discriminate H || reflexivity).
Qed.

Lemma paging_phase d s m :
  all_stalled (n_mmu d) (mon (n_mmu d) s (m_trace m)) = true ->
  mon (n_mmu d) s (m_trace (for_each (n_mmu d) (command RK_MMU_CMD_ENABLE_PAGING) m))
  = on_all (n_mmu d) (fun u => u <| paging := true |>) (mon (n_mmu d) s (m_trace m)).
Proof.
  by_instances d; destruct (mon _ s (m_trace m)) as [[[] ? ? []] [[] ? ? []] []]; vm_compute;
    intros H; (discriminate H || reflexivity).
Qed.

Lemma all_stalled_on_all n f s :
  (forall u, stalled u = true -> stalled (f u) = true) -> (n = 1 \/ n = 2) ->
  all_stalled n s = true -> all_stalled n (on_all n f s) = true.
Proof.
  unfold all_stalled. intros Hf [-> | ->]; simpl; rewrite ?andb_true_iff; intros [H0 H1]; auto.
Qed.

Lemma all_stalled_after n s :
  (n = 1 \/ n = 2) -> all_stalled n (on_all n (fun u => u <| stalled := true |>) s) = true.
Proof. by intros [-> | ->]. Qed.

Lemma on_all_on_all n f g s :
  on_all n f (on_all n g s) = on_all n (fun u => f (g u)) s.
Proof. unfold on_all. simpl. by destruct (n =? 1). Qed.

Lemma on_all_ext n f g s :
  (forall u, f u = g u) -> on_all n f s = on_all n g s.
Proof. unfold on_all. intros H. by rewrite !H. Qed.

(** Paging is commanded on every instance by each attempt. *)
Lemma attempts_phase d s k : forall m,
  all_stalled (n_mmu d) (mon (n_mmu d) s (m_trace m)) = true ->
  mon (n_mmu d) s (m_trace (snd (enable_attempts (n_mmu d) (S k) m)))
  = on_all (n_mmu d) (fun u => u <| paging := true |>) (mon (n_mmu d) s (m_trace m)).
Proof.
  induction k as [|k IH]; intros m Hs; cbn [enable_attempts]; cbv zeta; read_step.
  - case_match; cbn [snd]; case_match; mon_run; by apply paging_phase.
  - set (m1 := if 1 <? n_mmu d then _ else _).
    assert (Hm1 : mon (n_mmu d) s (m_trace m1)
                  = on_all (n_mmu d) (fun u => u <| paging := true |>) (mon (n_mmu d) s (m_trace m))).
    { unfold m1. case_match; mon_run; by apply paging_phase. }
    clearbody m1. destruct (flag _ _); cbn [snd]; [done|].
    specialize (IH (stall 20 m1)). rewrite mon_stall in IH. cbn [enable_attempts] in IH.
    rewrite IH, Hm1, on_all_on_all; [by apply on_all_ext|].
    rewrite Hm1. apply all_stalled_on_all; auto using n_mmu_cases.
Qed.

(** ** The whole sequences *)
Lemma enable_outcome d dom m s :
  Dom d = Some dom -> MmioBase d = true -> PagingEnabled d = false ->
  exists st d' m', RkIommuEnableHw d m = (st, d', m') /\
    mon (n_mmu d) s (m_trace m')
    = on_all (n_mmu d) (fun _ => Mmu false (PdPhys dom) RK_MMU_IRQ_MASK true)
        (mon (n_mmu d) s (m_trace m)) /\
    ((st = STATUS_SUCCESS /\ d' = d <| PagingEnabled := true |>) \/
     (st = STATUS_DEVICE_HARDWARE_ERROR /\ d' = d)).
Proof.
  intros Hd Hb Hp. unfold RkIommuEnableHw. rewrite Hd, Hb, Hp. cbn [negb]. cbv zeta.
  set (m1 := for_each _ _ m). set (m2 := for_each _ _ m1).
  pose proof (stall_phase d s 50 m) as H1. fold m1 in H1.
  assert (S1 : all_stalled (n_mmu d) (mon (n_mmu d) s (m_trace m1)) = true)
    by (rewrite H1; auto using all_stalled_after, n_mmu_cases).
  pose proof (config_phase d (PdPhys dom) s m1 S1) as H2. fold m2 in H2.
  assert (S2 : all_stalled (n_mmu d) (mon (n_mmu d) s (m_trace m2)) = true)
    by (rewrite H2; apply all_stalled_on_all; auto using n_mmu_cases).
  clearbody m1 m2.
  set (k := if FlagEnableCmdRetry d then _ else _).
  assert (exists k', k = S k') as [k' ->] by (unfold k; destruct (FlagEnableCmdRetry d); eauto).
  pose proof (attempts_phase d s k' m2 S2) as H3.
  destruct (enable_attempts (n_mmu d) (S k') m2) as [on m3]. cbn [snd] in H3.
  pose proof (unstall_phase d s m3) as H4. rewrite H3, H2, H1, !on_all_on_all in H4.
  destruct on; eexists _, _, _; (split; [reflexivity|]); (split; [|by auto]);
    rewrite H4; by apply on_all_ext.
Qed.

Lemma disable_outcome d m s :
  MmioBase d = true -> PagingEnabled d = true ->
  exists m', RkIommuDisableHw d m = (STATUS_SUCCESS, d <| PagingEnabled := false |>, m') /\
    mon (n_mmu d) s (m_trace m')
    = on_all (n_mmu d) (fun _ => Mmu false 0 0 false) (mon (n_mmu d) s (m_trace m)).
Proof.
  intros Hb Hp. unfold RkIommuDisableHw. rewrite Hb, Hp. cbn [negb]. cbv zeta.
  eexists. split; [reflexivity|]. rewrite unstall_phase, disable_phase, stall_phase, !on_all_on_all.
  - by apply on_all_ext.
  - rewrite stall_phase. auto using all_stalled_after, n_mmu_cases.
Qed.

(** ** Force reset *)
Lemma poll_dte_mon mi n s k : forall m, mon k s (m_trace (snd (poll_dte mi n m))) = mon k s (m_trace m).
Proof.
  induction n as [|n IH]; intros m; cbn [poll_dte]; [done|]. cbv zeta. read_step.
  case_match; cbn [snd]; [by rewrite mon_read|]. by rewrite IH, mon_delay, mon_read.
Qed.

Lemma poll_all_mon n s k m : mon k s (m_trace (snd (poll_all n m))) = mon k s (m_trace m).
Proof.
  unfold poll_all. generalize STATUS_SUCCESS. revert m.
  induction (seqZ 0 n) as [|mi l IH]; intros m rs; cbn [foldl]; [done|].
  pose proof (poll_dte_mon mi 100 s k m) as H. destruct (poll_dte mi 100 m) as [ok m1].
  cbn [snd] in H. by rewrite IH, H.
Qed.

(** Both statuses the polling can leave pass the NT_SUCCESS test. *)
Lemma poll_all_status n m :
  fst (poll_all n m) = STATUS_SUCCESS \/ fst (poll_all n m) = STATUS_TIMEOUT.
Proof.
  unfold poll_all.
  assert (H : forall l rs m, rs = STATUS_SUCCESS \/ rs = STATUS_TIMEOUT ->
    let r := fst (foldl (fun '(rs, m) mi => let (ok, m) := poll_dte mi 100 m in
                           (if ok : bool then rs else STATUS_TIMEOUT, m)) (rs, m) l) in
    r = STATUS_SUCCESS \/ r = STATUS_TIMEOUT).
  { induction l as [|mi l IH]; intros rs m' Hrs; cbn [foldl]; [done|].
    destruct (poll_dte mi 100 m') as [[] m1]; apply IH; auto. }
  apply H. by left.
Qed.

Lemma reset_phase d s m :
  all_stalled (n_mmu d) (mon (n_mmu d) s (m_trace m)) = true ->
  mon (n_mmu d) s (m_trace (for_each (n_mmu d) (command RK_MMU_CMD_FORCE_RESET) m))
  = on_all (n_mmu d) (fun u => u <| paging := false |> <| dte := 0 |>) (mon (n_mmu d) s (m_trace m)).
Proof.
  by_instances d; destruct (mon _ s (m_trace m)) as [[[] ? ? []] [[] ? ? []] []]; vm_compute;
    intros H; (discriminate H || reflexivity).
Qed.

Lemma force_reset_outcome d m s :
  MmioBase d = true ->
  exists rs m', RkIommuForceReset d m = (rs, d <| PagingEnabled := false |>, m') /\
    (rs = STATUS_SUCCESS \/ rs = STATUS_TIMEOUT) /\
    mon (n_mmu d) s (m_trace m')
    = on_all (n_mmu d) (fun u => Mmu false 0 (irq_mask u) false) (mon (n_mmu d) s (m_trace m)).
Proof.
  intros Hb. unfold RkIommuForceReset. rewrite Hb. cbn [negb]. cbv zeta.
  set (m1 := for_each _ _ m). set (m2 := for_each _ _ m1).
  pose proof (stall_phase d s 20 m) as H1. fold m1 in H1.
  assert (S1 : all_stalled (n_mmu d) (mon (n_mmu d) s (m_trace m1)) = true)
    by (rewrite H1; auto using all_stalled_after, n_mmu_cases).
  pose proof (reset_phase d s m1 S1) as H2. fold m2 in H2. clearbody m1 m2.
  pose proof (poll_all_mon (n_mmu d) s (n_mmu d) m2) as H3.
  pose proof (poll_all_status (n_mmu d) m2) as Hs.
  destruct (poll_all (n_mmu d) m2) as [rs m3]. cbn [fst snd] in *.
  pose proof (unstall_phase d s m3) as H4. rewrite H3, H2, H1, !on_all_on_all in H4.
  exists rs. eexists. split; [|split; [exact Hs|rewrite H4; by apply on_all_ext]].
  by destruct Hs as [-> | ->].
Qed.

(** ** The fault interrupt *)

(** What servicing an instance whose INT_STATUS reads [v] appends; [rd] holds
    the fault-address read, when there is one. *)
Definition service (mi v : Z) (rd : list access) : list access :=
  Rd (reg mi RK_MMU_INT_STATUS) v ::
  if flag v RK_MMU_IRQ_MASK then
    rd ++ (if flag v RK_MMU_IRQ_PAGE_FAULT
           then [Wr (reg mi RK_MMU_COMMAND) RK_MMU_CMD_ZAP_CACHE;
                 Wr (reg mi RK_MMU_COMMAND) RK_MMU_CMD_PAGE_FAULT_DONE] else [])
       ++ [Wr (reg mi RK_MMU_INT_CLEAR) (Z.land v RK_MMU_IRQ_MASK)]
  else [].

Lemma isr_one_outcome mi h st f m :
  exists v rd f' m', isr_one mi (h, st, f, m)
    = (h || flag v RK_MMU_IRQ_MASK, if flag v RK_MMU_IRQ_MASK then Z.lor st v else st, f', m') /\
    m_trace m' = m_trace m ++ service mi v rd /\
    (rd = [] \/ exists a, rd = [Rd (reg mi RK_MMU_PAGE_FAULT_ADDR) a]).
Proof.
  unfold isr_one, service. destruct (read_reg_trace (reg mi RK_MMU_INT_STATUS) m) as (v & r & -> & _).
  destruct (flag v RK_MMU_IRQ_MASK) eqn:Ef; cbn [negb].
  2: { exists v, [], f. eexists. rewrite Ef, orb_false_r. by split; [|split; [|left]]. }
  destruct ((mi =? 0) || (f =? 0)).
  - destruct (read_reg_trace (reg mi RK_MMU_PAGE_FAULT_ADDR)
                (Mmio (m_trace m ++ [Rd (reg mi RK_MMU_INT_STATUS) v]) r)) as (a & r' & -> & _).
    exists v, [Rd (reg mi RK_MMU_PAGE_FAULT_ADDR) a], a. eexists. rewrite Ef, orb_true_r.
    split; [reflexivity|]. split; [|right; eauto].
    destruct (flag v RK_MMU_IRQ_PAGE_FAULT); simpl; by rewrite <- !app_assoc.
  - exists v, [], f. eexists. rewrite Ef, orb_true_r. split; [reflexivity|]. split; [|by left].
    destruct (flag v RK_MMU_IRQ_PAGE_FAULT); simpl; by rewrite <- !app_assoc.
Qed.
