(* ===== verification/IommuMap.v ===== *)
(** * Mapping and unmapping buffers

    Model of [RkIommuMapMdl] and [RkIommuUnmapMdl] of
    [src/driver/rkiommu_vdec/ifc.c], over the page tables of [PgTable], the
    paging sequences of [IommuHw] and the register trace. *)

From S2P Require Import Prelude Bitmap PgTable Mmio IommuHw IovaAlloc PageWalk.

(** ** The pieces of an MDL the code reads: start address, byte count, frames *)
Record MDL := Mdl { MdlVa : Z; MdlByteCount : Z; MdlPfnArray : list Z }.

Definition PAGE_SHIFT : Z := 12.

(** ADDRESS_AND_SIZE_TO_SPAN_PAGES of the kernel headers. *)
Definition span_pages (va size : Z) : Z :=
  u32 (Z.shiftr (Z.land va 0xFFF + size + 0xFFF) PAGE_SHIFT).

Definition RkMppBufferUsageBitstreamInput : Z := 1.
Definition RkMppBufferUsageScratch : Z := 4.

Definition pte_flags (Role : Z) : Z :=
  if Role =? RkMppBufferUsageBitstreamInput then RK_PTE_PAGE_READABLE
  else Z.lor RK_PTE_PAGE_READABLE RK_PTE_PAGE_WRITABLE.

(** The undo of both failing branches of the page loop. *)
Definition map_mdl_undo (d : domain) (baseIova pageCount i : Z) (k : kmem)
  : option (domain * kmem) :=
  k ← (if 0 <? i then RkIommuUnmapAt d baseIova i k else Some k);
  d ← RkIommuFreeIova d baseIova pageCount;
  Some (d, k).

(** The loop over the frames; [n] iterations are left and [i] are done. *)
Fixpoint map_mdl_loop (d : domain) (pfnArray : list Z) (baseIova pageCount pteFlags i : Z)
    (n : nat) (iova : Z) (k : kmem) : option (NTSTATUS * domain * kmem) :=
  match n with
  | O => Some (STATUS_SUCCESS, d, k)
  | S n' =>
      pfn ← pfnArray !! Z.to_nat i;
      let phys := u64 (Z.shiftl pfn PAGE_SHIFT) in
      if negb (Z.shiftr phys 32 =? 0) then
        '(d, k) ← map_mdl_undo d baseIova pageCount i k;
        Some (STATUS_INVALID_PARAMETER, d, k)
      else
        '(status, d, k) ← RkIommuMapAt d iova phys 1 pteFlags k;
        if negb (NT_SUCCESS status) then
          '(d, k) ← map_mdl_undo d baseIova pageCount i k;
          Some (status, d, k)
        else map_mdl_loop d pfnArray baseIova pageCount pteFlags (i + 1) n'
               (iova + RK_IOMMU_PAGE_SIZE) k
  end.

(** The device with the kernel memory and the registers it acts on. *)
Record world := World { w_dev : iommu; w_mem : kmem; w_io : mmio }.
#[export] Instance eta_world : Eta world := fun w => World (w_dev w) (w_mem w) (w_io w).

(** The IOVA of the result is meaningful when the status is a success. *)
Definition RkIommuMapMdl (w : world) (m : MDL) (Role : Z) : option (NTSTATUS * Z * world) :=
  let dev := w_dev w in
  if negb (IsMaster dev) then Some (STATUS_NOT_SUPPORTED, 0, w) else
  match Dom dev with
  | None => Some (STATUS_DEVICE_NOT_READY, 0, w)
  | Some dom =>
      let pageCount := span_pages (MdlVa m) (MdlByteCount m) in
      if pageCount =? 0 then Some (STATUS_INVALID_PARAMETER, 0, w) else
      let pteFlags := pte_flags Role in
      '(status, baseIova, dom) ← RkIommuAllocIova dom pageCount;
      if negb (NT_SUCCESS status) then
        Some (status, 0, w <| w_dev := dev <| Dom := Some dom |> |>) else
      '(status, dom, k) ← map_mdl_loop dom (MdlPfnArray m) baseIova pageCount pteFlags 0
                            (Z.to_nat pageCount) baseIova (w_mem w);
      let dev := dev <| Dom := Some dom |> in
      if negb (NT_SUCCESS status) then Some (status, 0, World dev k (w_io w)) else
      let io := zap_all dev (w_io w) in
      let '(_, dev, io) := RkIommuEnableHw dev io in
      Some (STATUS_SUCCESS, baseIova, World dev k io)
  end.

(** The forward scan for the end marker: [n] pages from [pg] are left. *)
Fixpoint scan_end (bm : words) (startPage pg : Z) (n : nat) : option Z :=
  match n with
  | O => Some 0
  | S n' =>
      e ← test_bit bm pg;
      if (e : bool) then Some (pg - startPage) else scan_end bm startPage (pg + 1) n'
  end.

Definition RkIommuUnmapMdl (w : world) (Iova : Z) : option (NTSTATUS * world) :=
  let dev := w_dev w in
  if negb (IsMaster dev) then Some (STATUS_NOT_SUPPORTED, w) else
  match Dom dev with
  | None => Some (STATUS_DEVICE_NOT_READY, w)
  | Some dom =>
      if Z.shiftl RK_IOMMU_IOVA_PAGES 12 <=? Iova then Some (STATUS_INVALID_PARAMETER, w) else
      if negb (Z.land Iova 0xFFF =? 0) then Some (STATUS_INVALID_PARAMETER, w) else
      let startPage := u32 (Z.shiftr Iova 12) in
      st ← test_bit (IovaStartBitmap dom) startPage;
      if negb (st : bool) then Some (STATUS_INVALID_PARAMETER, w) else
      pageCount ← scan_end (IovaEndBitmap dom) startPage (startPage + 1)
                    (Z.to_nat (RK_IOMMU_IOVA_PAGES - startPage));
      if pageCount =? 0 then Some (STATUS_INVALID_PARAMETER, w) else
      k ← RkIommuUnmapAt dom Iova pageCount (w_mem w);
      dom ← RkIommuFreeIova dom Iova pageCount;
      let dev := dev <| Dom := Some dom |> in
      Some (STATUS_SUCCESS, World dev k (zap_all dev (w_io w)))
  end.

(** * The buffer-mapping contract

    [dom_ok]: the joint invariant of a domain and its client's ranges - tables
    well-formed, bitmaps representing the ranges, and no translation outside
    them.  The lemmas show that [RkIommuMapMdl] and [RkIommuUnmapMdl] of
    [src/driver/rkiommu_vdec/ifc.c] preserve it and what they do to it. *)

#[local] Abbreviation pages := RK_IOMMU_IOVA_PAGES (only parsing).

Record dom_ok (d : domain) (k : kmem) (A : gmap Z Z) : Prop := DomOk {
  ok_wf : pt_wf d k;
  ok_rep : iova_rep d A;
  ok_free : forall P, 0 <= P < pages -> ~ covered A P -> pte_at d k P = 0;
}.

(** ** Allocation and release leave the tables alone *)
Lemma alloc_tables d n s iova d' :
  RkIommuAllocIova d n = Some (s, iova, d') -> same_tables d d'.
Proof.
  unfold RkIommuAllocIova. intros H. inv_opt. destruct x as [base|]; inv_opt; [|by subst].
  by subst d'.
Qed.

Lemma free_tables d iova n d' : RkIommuFreeIova d iova n = Some d' -> same_tables d d'.
Proof.
  unfold RkIommuFreeIova. repeat (case_match; [by intros [= <-]|]). intros Hf. inv_opt.
  destruct (negb x); inv_opt; by subst d'.
Qed.

Lemma pte_at_tables d d' k P : same_tables d d' -> pte_at d' k P = pte_at d k P.
Proof. unfold pte_at. by intros (_ & _ & _ & _ & _ & -> & _). Qed.

Lemma pt_wf_tables d d' k : same_tables d d' -> pt_wf d k -> pt_wf d' k.
Proof.
  intros (Ha & Ht & Htp & Hp & Hpp & Hpt & Hptp) W. destruct W as [Wp Wr Wa Ws Wi Wn Wk].
  unfold walk_root in *.
  constructor; unfold walk_root; rewrite ?Ha, ?Htp, ?Hp, ?Hpp, ?Hpt; done.
Qed.

(** ** The page loop *)
Definition frame (pfns : list Z) (j : Z) : Z :=
  u64 (Z.shiftl (default 0 (pfns !! Z.to_nat j)) PAGE_SHIFT).

Definition below_4g (pfns : list Z) (n : Z) : Prop :=
  forall j, 0 <= j < n -> frame pfns j < 2 ^ 32.

Lemma u64_shiftl_aligned pfn : u64 (Z.shiftl pfn PAGE_SHIFT) mod 4096 = 0.
Proof.
  unfold u64, PAGE_SHIFT. rewrite Z.shiftl_mul_pow2 by done.
  change (2 ^ 12) with 4096. change (2 ^ 64) with (4503599627370496 * 4096).
  rewrite Z.mul_mod_distr_r by done. by apply Z.mod_mul.
Qed.

Lemma frame_good pfns j :
  Z.shiftr (frame pfns j) 32 = 0 -> good_page (frame pfns j).
Proof.
  unfold frame. set (x := default 0 _). intros H.
  pose proof (u64_range (Z.shiftl x PAGE_SHIFT)). rewrite Z.shiftr_div_pow2 in H by done.
  split; [|apply u64_shiftl_aligned]. zdm.
Qed.

Definition mdl_view (d0 : domain) (k0 : kmem) (d : domain) (k : kmem)
    (base i : Z) (pfns : list Z) (F : Z) : Prop :=
  forall Q, 0 <= Q < pages ->
    pte_at d k Q = if decide (base <= Q < base + i)
                   then make_pte (IsAv1d d0) (frame pfns (Q - base)) F else pte_at d0 k0 Q.

(** The undo restores the view in which the range held nothing. *)
Lemma undo_outcome d0 k0 d k A base n i pfns F :
  pt_wf d k -> iova_rep d (<[base:=n]> A) -> 0 <= i <= n -> 0 <= base ->
  0 < n -> base + n <= pages ->
  mdl_view d0 k0 d k base i pfns F ->
  (forall Q, base <= Q < base + n -> pte_at d0 k0 Q = 0) ->
  exists d' k', map_mdl_undo d (base * RK_IOMMU_PAGE_SIZE) n i k = Some (d', k') /\
    pt_wf d' k' /\ iova_rep d' (delete base A) /\ IsAv1d d' = IsAv1d d /\
    forall Q, 0 <= Q < pages -> pte_at d' k' Q = pte_at d0 k0 Q.
Proof.
  intros W R Hi H0 Hn Hb Hv Hz. unfold map_mdl_undo.
  destruct (rollback_outcome d k base i W) as (k1 & E1 & W1 & Hc); [geo; lia|lia|].
  rewrite E1. ostep.
  destruct (free_outcome d (<[base:=n]> A) base n R) as (d2 & E2 & R2); [by rewrite lookup_insert_eq|].
  rewrite E2. ostep. rewrite delete_insert_eq in R2.
  pose proof (free_tables _ _ _ _ E2) as T. exists d2, k1.
  split; [done|]. split; [by eapply pt_wf_tables|]. split; [done|].
  split; [by destruct T as [-> _]|]. intros Q HQ.
  rewrite (pte_at_tables d d2) by done. rewrite (Hc Q HQ), (Hv Q HQ).
  repeat case_decide; try done. symmetry. apply Hz. lia.
Qed.

Lemma map_mdl_loop_outcome d0 k0 A base n pfns F nn : forall d k i,
  pt_wf d k -> iova_rep d (<[base:=n]> A) -> IsAv1d d = IsAv1d d0 ->
  0 <= base -> 0 < n -> base + n <= pages -> 0 <= i -> i + Z.of_nat nn = n ->
  n <= Z.of_nat (length pfns) ->
  mdl_view d0 k0 d k base i pfns F ->
  (forall Q, base <= Q < base + n -> pte_at d0 k0 Q = 0) ->
  exists s d' k', map_mdl_loop d pfns (base * RK_IOMMU_PAGE_SIZE) n F i nn
                    ((base + i) * RK_IOMMU_PAGE_SIZE) k = Some (s, d', k') /\
    pt_wf d' k' /\ IsAv1d d' = IsAv1d d0 /\
    ((s = STATUS_SUCCESS /\ iova_rep d' (<[base:=n]> A) /\ mdl_view d0 k0 d' k' base n pfns F /\
      forall j, i <= j < n -> good_page (frame pfns j)) \/
     (NT_SUCCESS s = false /\ iova_rep d' (delete base A) /\
      forall Q, 0 <= Q < pages -> pte_at d' k' Q = pte_at d0 k0 Q)).
Proof.
  induction nn as [|nn IH]; intros d k i W R Ha H0 Hn Hb Hi Hnn Hlen Hv Hz; cbn [map_mdl_loop].
  { replace i with n in * by lia. exists STATUS_SUCCESS, d, k.
    split; [done|]. split; [done|]. split; [done|]. left. split; [done|]. split; [done|]. split; [done|]. intros; lia. }
  assert (Hundo : exists d' k',
      map_mdl_undo d (base * RK_IOMMU_PAGE_SIZE) n i k = Some (d', k') /\ pt_wf d' k' /\
      iova_rep d' (delete base A) /\ IsAv1d d' = IsAv1d d /\
      forall Q, 0 <= Q < pages -> pte_at d' k' Q = pte_at d0 k0 Q)
    by (apply (undo_outcome d0 k0 d k A base n i pfns F); (done || lia)).
  destruct (lookup_lt_is_Some_2 pfns (Z.to_nat i)) as [pfn Hpfn]; [lia|].
  rewrite Hpfn. ostep.
  assert (Hf : u64 (Z.shiftl pfn PAGE_SHIFT) = frame pfns i) by (unfold frame; by rewrite Hpfn).
  rewrite Hf. destruct (Z.eqb_spec (Z.shiftr (frame pfns i) 32) 0) as [Hs|Hs]; cbn [negb].
  2: { destruct Hundo as (d' & k' & E & W' & R' & Ha' & Hq). rewrite E. ostep.
       exists STATUS_INVALID_PARAMETER, d', k'. split; [done|]. split; [done|].
       split; [congruence|]. by right. }
  pose proof (frame_good _ _ Hs) as Hg.
  destruct (map_outcome d k (base + i) (frame pfns i) 1 F W)
    as (s & d1 & k1 & E1 & W1 & Sb & Hc); [geo; lia|lia|].
  rewrite E1. ostep. pose proof (same_bitmaps_rep _ _ _ Sb R) as R1.
  assert (Ha1 : IsAv1d d1 = IsAv1d d) by apply Sb.
  destruct Hc as [(-> & _ & Hm)|[Hs' (j & Hj & Hm)]].
  - cbn [negb NT_SUCCESS]. change (NT_SUCCESS STATUS_SUCCESS) with true. cbn [negb].
    replace ((base + i) * RK_IOMMU_PAGE_SIZE + RK_IOMMU_PAGE_SIZE)
      with ((base + (i + 1)) * RK_IOMMU_PAGE_SIZE) by lia.
    destruct (IH d1 k1 (i + 1)) as (s & d' & k' & E & W' & Ha' & Ho); try done; try lia.
    + congruence.
    + intros Q HQ. rewrite (Hm Q HQ), (Hv Q HQ).
      destruct (decide (Q = base + i)) as [->|Hne].
      * rewrite !decide_True by lia. rewrite Ha, Z.add_simpl_l, Z.sub_diag, Z.mul_0_l, Z.add_0_r.
        f_equal. apply u64_small. unfold frame. apply u64_range.
      * repeat case_decide; (done || lia).
    + exists s, d', k'. split; [done|]. split; [done|]. split; [done|].
      destruct Ho as [(-> & R' & Hv' & Hg')|Ho]; [left|by right].
      do 3 (split; [done|]). intros j Hj. destruct (decide (j = i)) as [->|]; [done|apply Hg'; lia].
  - assert (Hns : NT_SUCCESS s = false) by (destruct Hs' as [[-> _]|[= ->]]; done). rewrite Hns. cbn [negb].
    assert (j = 0) as -> by lia.
    destruct (undo_outcome d0 k0 d1 k1 A base n i pfns F) as (d' & k' & E & W' & R' & Ha' & Hq);
      try done; try lia.
    + intros Q HQ. rewrite (Hm Q HQ), <- (Hv Q HQ). rewrite decide_False; [done|lia].
    + rewrite E. ostep. exists s, d', k'. split; [done|]. split; [done|]. split; [congruence|].
      by right.
Qed.

(** ** MapMdl *)
Lemma enable_keeps d m s d' m' :
  RkIommuEnableHw d m = (s, d', m') ->
  Dom d' = Dom d /\ IsMaster d' = IsMaster d /\ MmioBase d' = MmioBase d.
Proof.
  unfold RkIommuEnableHw. intros He.
  destruct (Dom d) as [dom|] eqn:E; [|by simplify_eq].
  destruct (negb (MmioBase d)); [by simplify_eq|].
  destruct (PagingEnabled d); [by simplify_eq|].
  destruct (enable_attempts _ _ _) as [[] io]; by simplify_eq/=.
Qed.

Definition covered_view (d : domain) (k : kmem) (d' : domain) (k' : kmem) : Prop :=
  forall Q, 0 <= Q < pages -> pte_at d' k' Q = pte_at d k Q.

Lemma map_mdl_outcome w m Role d A :
  let n := span_pages (MdlVa m) (MdlByteCount m) in
  IsMaster (w_dev w) = true -> Dom (w_dev w) = Some d -> dom_ok d (w_mem w) A ->
  0 < n -> n <= Z.of_nat (length (MdlPfnArray m)) ->
  exists s iova w' d', RkIommuMapMdl w m Role = Some (s, iova, w') /\
    Dom (w_dev w') = Some d' /\ IsMaster (w_dev w') = true /\ IsAv1d d' = IsAv1d d /\
    ((s = STATUS_SUCCESS /\ exists base, iova = base * RK_IOMMU_PAGE_SIZE /\
        highest_free_run A base n /\ dom_ok d' (w_mem w') (<[base:=n]> A) /\
        mdl_view d (w_mem w) d' (w_mem w') base n (MdlPfnArray m) (pte_flags Role) /\
        forall j, 0 <= j < n -> good_page (frame (MdlPfnArray m) j)) \/
     (NT_SUCCESS s = false /\ dom_ok d' (w_mem w') A /\ covered_view d (w_mem w) d' (w_mem w'))).
Proof.
  intros n HM HD [W R Hfree] Hn Hlen. unfold RkIommuMapMdl. rewrite HM, HD. cbn [negb]. cbv zeta.
  fold n. destruct (Z.eqb_spec n 0); [lia|].
  destruct (alloc_outcome d A n R Hn) as [(base & d1 & Hbest & E1 & R1)|[Hnone E1]].
  2: { rewrite E1. ostep. change (NT_SUCCESS STATUS_INSUFFICIENT_RESOURCES) with false. cbn [negb].
       eexists _, _, _, d. split; [reflexivity|]. do 3 (split; [done|]). right.
       split; [done|]. split; [by constructor|]. by intros Q HQ. }
  pose proof Hbest as [(H0 & Hb & Hrun) _].
  assert (Hfresh : A !! base = None)
    by (eapply free_run_fresh; [exact Hn|intros b m' Hbm; apply (rep_range _ _ R _ _ Hbm)|split; done]).
  rewrite E1. ostep. change (NT_SUCCESS STATUS_SUCCESS) with true. cbn [negb].
  pose proof (alloc_tables _ _ _ _ _ E1) as T. pose proof (pt_wf_tables _ _ _ T W) as W1.
  assert (Hz : forall Q, base <= Q < base + n -> pte_at d (w_mem w) Q = 0)
    by (intros Q HQ; apply Hfree; [lia|by apply Hrun]).
  destruct (map_mdl_loop_outcome d (w_mem w) A base n (MdlPfnArray m) (pte_flags Role)
              (Z.to_nat n) d1 (w_mem w) 0) as (s & d2 & k2 & E2 & W2 & Ha2 & Ho);
    try done; try lia; try apply T.
  { intros Q HQ. rewrite decide_False by lia. by apply pte_at_tables. }
  rewrite Z.add_0_r in E2. rewrite E2. ostep.
  destruct Ho as [(-> & R2 & Hv & Hg)|(Hs & R2 & Hv)].
  - change (NT_SUCCESS STATUS_SUCCESS) with true. cbn [negb].
    set (dev := (w_dev w) <| Dom := Some d2 |>).
    destruct (RkIommuEnableHw dev (zap_all dev (w_io w))) as [[se de] ioe] eqn:Ee.
    destruct (enable_keeps _ _ _ _ _ Ee) as (Hd & Hm & _).
    eexists _, _, _, d2. split; [reflexivity|]. split; [exact Hd|]. split; [simpl; rewrite Hm; exact HM|].
    split; [done|]. left. split; [done|]. exists base. do 2 (split; [done|]).
    split; [|done]. constructor; [done|done|]. intros P HP HN.
    rewrite (covered_insert A base n P Hfresh) in HN.
    simpl. rewrite (Hv P HP), decide_False by tauto. apply Hfree; tauto.
  - rewrite Hs. cbn [negb]. eexists _, _, _, d2. split; [reflexivity|]. do 3 (split; [done|]).
    right. split; [done|]. rewrite delete_id in R2 by done. split; [|exact Hv].
    constructor; [done|done|]. intros P HP HN. simpl. rewrite (Hv P HP). by apply Hfree.
Qed.

(** ** UnmapMdl *)
Lemma scan_end_spec d A sp n : iova_rep d A -> A !! sp = Some n ->
  forall nn pg, sp < pg <= sp + n -> pg + Z.of_nat nn = pages + 1 ->
    scan_end (IovaEndBitmap d) sp pg nn = Some n.
Proof.
  intros R HA. pose proof (rep_range _ _ R _ _ HA) as (H0 & Hn & Hb).
  induction nn as [|nn IH]; intros pg Hpg Hnn; cbn [scan_end]; [lia|].
  rewrite test_bit_spec by (unfold in_words; rewrite (rep_len_end _ _ R); geo; lia). ostep.
  destruct (bit (IovaEndBitmap d) pg) eqn:E.
  - apply (rep_end _ _ R) in E; [|lia]. destruct E as (b & m & Hbm & Hsum).
    pose proof (rep_range _ _ R _ _ Hbm).
    destruct (Z.lt_trichotomy b sp) as [Hl|[->|Hl]].
    + pose proof (rep_disjoint _ _ R _ _ _ _ Hbm HA Hl). lia.
    + f_equal. assert (m = n) by congruence. lia.
    + pose proof (rep_disjoint _ _ R _ _ _ _ HA Hbm Hl). lia.
  - destruct (decide (pg = sp + n)) as [->|]; [|apply IH; lia].
    assert (bit (IovaEndBitmap d) (sp + n) = true) by (apply (rep_end _ _ R); [lia|eauto]). congruence.
Qed.

Lemma unmap_mdl_outcome w sp n d A :
  IsMaster (w_dev w) = true -> Dom (w_dev w) = Some d -> dom_ok d (w_mem w) A -> A !! sp = Some n ->
  exists w' d', RkIommuUnmapMdl w (sp * RK_IOMMU_PAGE_SIZE) = Some (STATUS_SUCCESS, w') /\
    Dom (w_dev w') = Some d' /\ IsMaster (w_dev w') = true /\ IsAv1d d' = IsAv1d d /\
    dom_ok d' (w_mem w') (delete sp A) /\ cleared d (w_mem w) d' (w_mem w') sp n /\
    w_io w' = zap_all (w_dev w) (w_io w).
Proof.
  intros HM HD [W R Hfree] HA. pose proof (rep_range _ _ R _ _ HA) as (H0 & Hn & Hb).
  unfold RkIommuUnmapMdl. rewrite HM, HD. cbn [negb].
  rewrite page_iova_land, page_iova_shiftr, (u32_small sp) by (geo; lia). cbn [negb].
  destruct (Z.leb_spec (Z.shiftl pages 12) (sp * RK_IOMMU_PAGE_SIZE)) as [Hle|_].
  { exfalso. rewrite Z.shiftl_mul_pow2 in Hle by done. change (2 ^ 12) with 4096 in Hle. geo. lia. }
  change (0 =? 0) with true. cbn [negb].
  rewrite test_bit_spec by (unfold in_words; rewrite (rep_len_start _ _ R); geo; lia). ostep.
  assert (bit (IovaStartBitmap d) sp = true) as -> by (apply (rep_start _ _ R); [lia|eauto]).
  cbn [negb]. rewrite (scan_end_spec d A sp n R HA) by (geo; lia). ostep.
  destruct (Z.eqb_spec n 0); [lia|].
  destruct (unmap_outcome d (w_mem w) sp n W) as (k' & E & W' & _ & Hc); [lia..|]. rewrite E. ostep.
  destruct (free_outcome d A sp n R HA) as (d' & E' & R'). rewrite E'. ostep.
  pose proof (free_tables _ _ _ _ E') as T.
  assert (Hc' : cleared d (w_mem w) d' k' sp n)
    by (intros Q HQ; rewrite (pte_at_tables d d') by done; by apply Hc).
  eexists _, d'. split; [reflexivity|]. split; [done|]. split; [done|]. split; [apply T|].
  split; [|split; [exact Hc'|done]]. constructor; [by eapply pt_wf_tables|done|].
  intros P HP HN. simpl. rewrite (Hc' P HP). case_decide as Hin; [done|]. apply Hfree; [done|].
  intros Hcov. apply HN. apply (covered_delete A sp n P (rep_disjoint _ _ R) HA). tauto.
Qed.

Lemma unmap_mdl_stray w Iova d A :
  IsMaster (w_dev w) = true -> Dom (w_dev w) = Some d -> dom_ok d (w_mem w) A -> 0 <= Iova ->
  (forall sp, Iova = sp * RK_IOMMU_PAGE_SIZE -> A !! sp = None) ->
  RkIommuUnmapMdl w Iova = Some (STATUS_INVALID_PARAMETER, w).
Proof.
  intros HM HD [W R Hfree] H0 HA. unfold RkIommuUnmapMdl. rewrite HM, HD. cbn [negb].
  destruct (Z.leb_spec (Z.shiftl pages 12) Iova) as [|Hlt]; [done|].
  rewrite Z.shiftl_mul_pow2 in Hlt by done. change (2 ^ 12) with 4096 in Hlt.
  destruct (Z.eqb_spec (Z.land Iova 0xFFF) 0) as [Hal|]; cbn [negb]; [|done].
  change 0xFFF with (Z.ones 12) in Hal. rewrite Z.land_ones in Hal by done.
  rewrite Z.shiftr_div_pow2 by done. change (2 ^ 12) with 4096 in *.
  rewrite u32_small by (geo; zdm).
  rewrite test_bit_spec by (unfold in_words; rewrite (rep_len_start _ _ R); geo; zdm). ostep.
  destruct (bit (IovaStartBitmap d) (Iova / 4096)) eqn:E; [|done].
  apply (rep_start _ _ R) in E; [|geo; zdm]. rewrite HA in E; [by destruct E|]. geo. zdm.
Qed.
