(* ===== verification/PgTableProps.v ===== *)
(** * Properties of the page tables and the IOVA allocator

    The contract of [src/driver/shared/iommu/pgtable.c] towards the two IOMMU
    drivers: the allocator refines a finite map from base pages to lengths, the
    map and unmap walks give the hardware exactly the requested view, creation
    and destruction balance. *)

From S2P Require Import Prelude Bitmap PgTable IovaAlloc PageWalk DomainLife.

#[local] Abbreviation pages := RK_IOMMU_IOVA_PAGES (only parsing).

(** ** A concrete domain, for the witnesses *)
Definition sample_kmem : kmem :=
  KMem ∅ [Some 0x10000; Some 0x20000; Some 0x30000; Some 0x40000] []
       [true; true; true; true].

Lemma sample_supply : supply_ok sample_kmem.
Proof.
  split; [apply (bool_decide_unpack (NoDup _)); vm_compute; exact I|]. intros p Hp. simpl in Hp.
  repeat (apply elem_of_cons in Hp as [[= ->]|Hp]; [by repeat split|]). by apply elem_of_nil in Hp.
Qed.

Definition sample (av1 : bool) : domain * kmem :=
  match (if av1 then RkIommuDomainCreateAv1d else RkIommuDomainCreateVdec) sample_kmem with
  | Some (_, Some d, k) => (d, k)
  | _ => (zero_domain av1, sample_kmem)
  end.

Lemma sample_vdec_created : created (sample false).1 sample_kmem (sample false).2 rcb_allocs.
Proof.
  unfold sample.
  destruct (create_vdec_outcome sample_kmem sample_supply)
    as (s & od & k' & E & [(d & -> & -> & C)|(-> & _ & _)]); [by rewrite E|].
  exfalso. revert E. vm_compute. discriminate.
Qed.

Lemma sample_av1d_created : created (sample true).1 sample_kmem (sample true).2 {[0 := 1]}.
Proof.
  unfold sample.
  destruct (create_av1d_outcome sample_kmem sample_supply)
    as (s & od & k' & E & [(d & -> & -> & C)|(-> & _ & _)]); [by rewrite E|].
  exfalso. revert E. vm_compute. discriminate.
Qed.

Lemma sample_vdec_rep : iova_rep (sample false).1 rcb_allocs.
Proof. apply sample_vdec_created. Qed.
Lemma sample_vdec_wf : pt_wf (sample false).1 (sample false).2.
Proof. apply sample_vdec_created. Qed.

(** ** The allocator *)

(** C40: the allocator refines a finite map from base pages to lengths.
    [RkIommuAllocIova] returns the free range of [PageCount] pages with the highest
    base and records it, or reports STATUS_INSUFFICIENT_RESOURCES and changes
    nothing, and then no free range of that size exists.  [RkIommuFreeIova] of a live
    range with the length it was allocated with removes exactly that range; of a page
    that starts no live range it changes nothing.  Neither ever indexes the bitmaps
    out of bounds. *)
Theorem alloc_free_refine_map d A :
  iova_rep d A ->
  (forall PageCount, 0 < PageCount ->
     (exists base d', highest_free_run A base PageCount /\
        RkIommuAllocIova d PageCount = Some (STATUS_SUCCESS, base * RK_IOMMU_PAGE_SIZE, d') /\
        iova_rep d' (<[base:=PageCount]> A)) \/
     ((forall base, ~ free_run A base PageCount) /\
      RkIommuAllocIova d PageCount = Some (STATUS_INSUFFICIENT_RESOURCES, 0, d))) /\
  (forall base n, 0 <= base < pages -> 0 < n <= pages ->
     (A !! base = Some n ->
      exists d', RkIommuFreeIova d (base * RK_IOMMU_PAGE_SIZE) n = Some d' /\ iova_rep d' (delete base A)) /\
     (A !! base = None -> RkIommuFreeIova d (base * RK_IOMMU_PAGE_SIZE) n = Some d)).
Proof.
  intros R. split; [intros; by apply alloc_outcome|]. intros base n Hb Hn.
  split; intros HA; [by apply free_outcome|by eapply free_stray_outcome].
Qed.

Lemma alloc_free_refine_map_witness :
  RkIommuAllocIova (sample false).1 4 ≫= (fun r => Some r.1) = Some (STATUS_SUCCESS, 0xFFEFC000) /\
  ((exists base d', highest_free_run rcb_allocs base 4 /\
     RkIommuAllocIova (sample false).1 4
     = Some (STATUS_SUCCESS, base * RK_IOMMU_PAGE_SIZE, d') /\
     iova_rep d' (<[base:=4]> rcb_allocs)) \/
   ((forall base, ~ free_run rcb_allocs base 4) /\
    RkIommuAllocIova (sample false).1 4
    = Some (STATUS_INSUFFICIENT_RESOURCES, 0, (sample false).1))) /\
  (rcb_allocs !! 0 = Some 1 ->
   exists d', RkIommuFreeIova (sample false).1 (0 * RK_IOMMU_PAGE_SIZE) 1 = Some d' /\
     iova_rep d' (delete 0 rcb_allocs)).
Proof.
  destruct (alloc_free_refine_map _ _ sample_vdec_rep) as [Ha Hf].
  split; [vm_compute; reflexivity|]. split; [apply Ha; lia|]. apply Hf; geo; lia.
Defined.

(** The states of a domain's allocator, with the allocations a client holds:
    it starts as either creator leaves it and moves by allocations of any
    positive size, releases of held ranges and stray releases. *)
Inductive iova_reach : domain -> gmap Z Z -> Prop :=
  | reach_av1d d0 d : init_bitmaps d0 = Some d -> iova_reach d {[0 := 1]}
  | reach_vdec d0 d1 d :
      init_bitmaps d0 = Some d1 -> reserve_rcb d1 = Some d -> iova_reach d rcb_allocs
  | reach_alloc d A n iova d' :
      iova_reach d A -> 0 < n -> RkIommuAllocIova d n = Some (STATUS_SUCCESS, iova, d') ->
      iova_reach d' (<[iova / RK_IOMMU_PAGE_SIZE := n]> A)
  | reach_free d A b n d' :
      iova_reach d A -> A !! b = Some n ->
      RkIommuFreeIova d (b * RK_IOMMU_PAGE_SIZE) n = Some d' -> iova_reach d' (delete b A)
  | reach_stray d A b n d' :
      iova_reach d A -> A !! b = None -> 0 <= b < pages -> 0 < n <= pages ->
      RkIommuFreeIova d (b * RK_IOMMU_PAGE_SIZE) n = Some d' -> iova_reach d' A.

Lemma iova_reach_rep d A : iova_reach d A -> iova_rep d A.
Proof.
  induction 1 as [d0 d E|d0 d1 d E1 E2|d A n iova d' _ R Hn E|d A b n d' _ R HA E
                 |d A b n d' _ R HA Hb Hn E].
  - destruct (init_bitmaps_rep d0) as (d' & E' & R & _). congruence.
  - destruct (init_bitmaps_rep d0) as (d1' & E' & R & _).
    assert (d1' = d1) as -> by congruence.
    destruct (reserve_rcb_rep d1 R) as (d' & E'' & R' & _). congruence.
  - destruct (alloc_outcome d A n R Hn) as [(base & d'' & _ & E' & R')|[_ E']].
    + rewrite E in E'. injection E' as -> ->.
      rewrite Z.div_mul by (unfold RK_IOMMU_PAGE_SIZE; lia). done.
    + rewrite E in E'. discriminate.
  - destruct (free_outcome d A b n R HA) as (d'' & E' & R'). congruence.
  - rewrite (free_stray_outcome d A b n R Hb Hn HA) in E. congruence.
Qed.

(** In every reachable allocator state the bitmaps represent the client's
    live ranges: the ranges are inside the IOVA space and pairwise disjoint,
    and the next operation of a correct client is defined (no index is out of
    bounds). *)
Theorem allocator_invariant d A o :
  iova_reach d A -> op_ok A o ->
  iova_rep d A /\
  (forall b1 n1 b2 n2 p, A !! b1 = Some n1 -> A !! b2 = Some n2 ->
     b1 <= p < b1 + n1 -> b2 <= p < b2 + n2 -> b1 = b2) /\
  (forall b n, A !! b = Some n -> 0 <= b /\ 0 < n /\ b + n <= pages) /\
  is_Some (run_op o d).
Proof.
  intros Hr Ho. pose proof (iova_reach_rep d A Hr) as R. split; [done|].
  split; [|split; [apply (rep_range _ _ R)|]].
  - intros b1 n1 b2 n2 p H1 H2 Hp1 Hp2. destruct (Z.lt_trichotomy b1 b2) as [Hl|[|Hl]]; [|done|].
    + pose proof (rep_disjoint _ _ R _ _ _ _ H1 H2 Hl). lia.
    + pose proof (rep_disjoint _ _ R _ _ _ _ H2 H1 Hl). lia.
  - destruct (run_op_rep o d A R Ho) as (d' & A' & E & _). eauto.
Qed.

Lemma sample_bitmaps : exists d0 d1 d,
  init_bitmaps d0 = Some d1 /\ reserve_rcb d1 = Some d /\ iova_reach d rcb_allocs.
Proof.
  destruct (init_bitmaps_rep (zero_domain false)) as (d1 & E1 & R1 & _).
  destruct (reserve_rcb_rep d1 R1) as (d & E & _ & _).
  exists (zero_domain false), d1, d. eauto using reach_vdec.
Qed.

Lemma allocator_invariant_witness : exists d,
  iova_rep d rcb_allocs /\
  (forall b1 n1 b2 n2 p, rcb_allocs !! b1 = Some n1 -> rcb_allocs !! b2 = Some n2 ->
     b1 <= p < b1 + n1 -> b2 <= p < b2 + n2 -> b1 = b2) /\
  (forall b n, rcb_allocs !! b = Some n -> 0 <= b /\ 0 < n /\ b + n <= pages) /\
  is_Some (run_op (OpAlloc 16) d).
Proof.
  destruct sample_bitmaps as (d0 & d1 & d & _ & _ & H). exists d.
  apply (allocator_invariant d rcb_allocs (OpAlloc 16) H). simpl. lia.
Defined.

(** The range guard of [RkIommuFreeIova] subtracts in 32 bits, so it does
    not reject a [PageCount] above the size of the IOVA space: on a live base
    the clearing loop then runs past the end of the bitmap. *)
Lemma guard_wraps d A base n PageCount :
  iova_rep d A -> A !! base = Some n -> pages < PageCount < 2 ^ 32 ->
  RkIommuFreeIova d (base * RK_IOMMU_PAGE_SIZE) PageCount = None.
Proof.
  intros R HA HP. pose proof (rep_range _ _ R _ _ HA) as (H0 & Hn & H1).
  rewrite free_guards.
  - rewrite test_bit_spec by (unfold in_words; rewrite (rep_len_start _ _ R); geo; lia). ostep.
    assert (bit (IovaStartBitmap d) base = true) as -> by (apply (rep_start _ _ R); [geo; lia|eauto]).
    cbn [negb]. rewrite free_loop_oob; [done|..]; rewrite ?(rep_len _ _ R); geo; lia.
  - geo; lia.
  - geo; lia.
  - assert (u32 (pages - PageCount) = pages - PageCount + 2 ^ 32) as ->; [|geo; lia].
    unfold u32. geo. zdm.
Qed.

(** ** Maps and unmaps, seen by the hardware *)

(** C39: mapping and unmapping [n] pages at IOVA page [P], on well-formed tables,
    always return and keep the tables well-formed.  When a map reports success the
    hardware walk takes every address of the range to the matching physical address
    with the requested write permission, and every other address as before; when it
    fails, the range [P, P + j) it had reached is unmapped, and every other address is
    as before.  An unmap revokes exactly the range: the walk faults on every address
    of it and is unchanged elsewhere, and no page table is freed (nor taken). *)
Theorem page_tables_hardware_view d k P n :
  pt_wf d k -> 0 <= P < pages -> 0 <= n ->
  (forall PhysAddr Flags, good_page PhysAddr -> PhysAddr + n * 4096 <= 2 ^ 32 ->
    exists s d' k',
      RkIommuMapAt d (P * RK_IOMMU_PAGE_SIZE) PhysAddr n Flags k = Some (s, d', k') /\
      pt_wf d' k' /\ same_bitmaps d d' /\
      ((s = STATUS_SUCCESS /\ P + n <= pages /\
        forall iova, 0 <= iova < 2 ^ 32 ->
          translate d' k' iova
          = let off := iova - P * 4096 in
            if decide (0 <= off < n * 4096)
            then Some (PhysAddr + off, flag Flags RK_PTE_PAGE_WRITABLE)
            else translate d k iova) \/
       (NT_SUCCESS s = false /\
        exists j, 0 <= j < n /\ forall iova, 0 <= iova < 2 ^ 32 ->
          translate d' k' iova
          = if decide (P <= iova / 4096 < P + j) then None else translate d k iova))) /\
  (exists k', RkIommuUnmapAt d (P * RK_IOMMU_PAGE_SIZE) n k = Some k' /\ pt_wf d k' /\
    k_page_supply k' = k_page_supply k /\
    forall iova, 0 <= iova < 2 ^ 32 ->
      translate d k' iova
      = if decide (P <= iova / 4096 < P + n) then None else translate d k iova).
Proof.
  intros W HP Hn. split.
  - intros PhysAddr Flags Hg Hle. destruct (map_outcome d k P PhysAddr n Flags W HP Hn)
      as (s & d' & k' & E & W' & Sb & [(-> & Hr & _)|([[-> _]| ->] & j & Hj & Hc)]);
      eexists _, d', k'; (split; [exact E|]); (split; [done|]); (split; [done|]).
    + left. split; [done|]. split; [done|]. by apply (map_translates d k P PhysAddr n Flags d' k').
    + right. split; [reflexivity|]. exists j. split; [done|]. intros iova Hi.
      by apply (cleared_translate d k d' k' P j iova W W'); [apply Sb| |].
    + right. split; [reflexivity|]. exists j. split; [done|]. intros iova Hi.
      by apply (cleared_translate d k d' k' P j iova W W'); [apply Sb| |].
  - destruct (unmap_outcome d k P n W HP Hn) as (k' & E & W' & Hs & Hc).
    exists k'. split; [done|]. split; [done|]. split; [done|]. intros iova Hi. by apply cleared_translate.
Qed.

Lemma page_tables_hardware_view_witness :
  let d := (sample false).1 in let k := (sample false).2 in
  ('(s, d', k') ← RkIommuMapAt d (5 * RK_IOMMU_PAGE_SIZE) 0x7000 2 6 k; translate d' k' 0x5123)
  = Some (0x7123, true) /\
  (exists s d' k', RkIommuMapAt d (5 * RK_IOMMU_PAGE_SIZE) 0x7000 2 6 k = Some (s, d', k') /\
    pt_wf d' k' /\ same_bitmaps d d' /\
    ((s = STATUS_SUCCESS /\ 5 + 2 <= pages /\
      forall iova, 0 <= iova < 2 ^ 32 ->
        translate d' k' iova
        = let off := iova - 5 * 4096 in
          if decide (0 <= off < 2 * 4096) then Some (0x7000 + off, flag 6 RK_PTE_PAGE_WRITABLE)
          else translate d k iova) \/
     (NT_SUCCESS s = false /\
      exists j, 0 <= j < 2 /\ forall iova, 0 <= iova < 2 ^ 32 ->
        translate d' k' iova
        = if decide (5 <= iova / 4096 < 5 + j) then None else translate d k iova))) /\
  (exists k', RkIommuUnmapAt d (5 * RK_IOMMU_PAGE_SIZE) 2 k = Some k' /\ pt_wf d k' /\
    k_page_supply k' = k_page_supply k /\
    forall iova, 0 <= iova < 2 ^ 32 ->
      translate d k' iova
      = if decide (5 <= iova / 4096 < 5 + 2) then None else translate d k iova).
Proof.
  intros d k. split; [vm_compute; reflexivity|].
  destruct (page_tables_hardware_view d k 5 2 sample_vdec_wf) as [Hm Hu]; [geo; lia|lia|].
  split; [apply Hm; [by split|lia]|exact Hu].
Defined.

(** The AV1D entry of a page at or above 4 GiB does not decode to that page:
    [AV1_PTE_PAGE_ADDR_HIGH_SHIFT] is 28, where the entry format keeps address
    bits 39:32 in bits 11:4, so the hardware would access a page below 4 GiB. *)
Lemma pte_loses_high_bits PhysAddr Flags :
  2 ^ 32 <= PhysAddr < 2 ^ 40 ->
  pte_page_addr true (make_pte true PhysAddr Flags) < 2 ^ 32.
Proof.
  intros Hp. apply Z.lt_nge. intros Hge.
  set (p := make_pte true PhysAddr Flags) in *.
  assert (Hz : Z.land (Z.shiftr p 4) 0xff = 0).
  { unfold p, make_pte, RK_PTE_PAGE_WRITABLE, AV1_PTE_PAGE_ADDR_LOW_MASK,
      AV1_PTE_PAGE_ADDR_HIGH_SHIFT, AV1_PTE_VALID, AV1_PTE_WRITABLE.
    apply Z.bits_inj'. intros b Hb. rewrite Z.bits_0, Z.land_spec, Z.shiftr_spec by done.
    change 0xff with (Z.ones 8). rewrite Z.testbit_ones_nonneg by done.
    destruct (Z.ltb_spec b 8); [|apply andb_false_r]. rewrite andb_true_r.
    assert (Hlo : Z.testbit (Z.lor (Z.lor (u32 (Z.land PhysAddr 0xfffff000))
        (u32 (Z.shiftl (u32 (Z.land (Z.shiftr PhysAddr 32) AV1_PTE_PAGE_ADDR_HIGH_MASK)) 28))) 1)
        (b + 4) = false).
    { rewrite !Z.lor_spec, !(u32_land (Z.land PhysAddr _)), !(u32_land (Z.shiftl _ _)).
      rewrite (Z.land_spec (Z.shiftl _ _)), Z.shiftl_spec_low by lia.
      rewrite <- Z.land_assoc, testbit_mask_const.
      - simpl. rewrite Z.bits_above_log2; simpl; (done || lia).
      - assert (b = 0 \/ b = 1 \/ b = 2 \/ b = 3 \/ b = 4 \/ b = 5 \/ b = 6 \/ b = 7)
          as Hcase by lia. by repeat destruct Hcase as [-> |Hcase]; [..|subst]. }
    destruct (flag Flags 4); [|exact Hlo]. rewrite Z.lor_spec, Hlo.
    rewrite Z.bits_above_log2; simpl; (done || lia). }
  unfold pte_page_addr in Hge. rewrite Hz, Z.shiftl_0_l, Z.lor_0_r in Hge.
  pose proof (u32_range (Z.land p 0xfffff000)) as Hu. rewrite u32_land, <- Z.land_assoc in Hu.
  change (Z.land 0xfffff000 0xffffffff) with 0xfffff000 in Hu. lia.
Qed.

(** Two gaps of width.  The AV1D entry of a page at or above 4 GiB does not decode to
    that page, since [AV1_PTE_PAGE_ADDR_HIGH_SHIFT] is 28 where the format keeps address
    bits 39:32 in bits 11:4: the hardware would access a page below 4 GiB.  And the range
    guard of [RkIommuFreeIova] subtracts in 32 bits, so that on a live base a
    [PageCount] above the size of the IOVA space runs past the end of the bitmap. *)
Theorem width_gaps PhysAddr Flags d A base n PageCount :
  2 ^ 32 <= PhysAddr < 2 ^ 40 -> iova_rep d A -> A !! base = Some n -> pages < PageCount < 2 ^ 32 ->
  pte_page_addr true (make_pte true PhysAddr Flags) < 2 ^ 32 /\
  RkIommuFreeIova d (base * RK_IOMMU_PAGE_SIZE) PageCount = None.
Proof. intros Hp R HA HP. split; [by apply pte_loses_high_bits|by eapply guard_wraps]. Qed.

Lemma width_gaps_witness :
  pte_page_addr true (make_pte true 0x123456000 6) < 2 ^ 32 /\
  RkIommuFreeIova (sample false).1 (0 * RK_IOMMU_PAGE_SIZE) (pages + 1) = None.
Proof.
  apply (width_gaps 0x123456000 6 _ rcb_allocs 0 1); [lia|exact sample_vdec_rep|vm_compute; reflexivity|geo; lia].
Defined.

(** ** Creation and destruction *)

(** A creation: ready for use (page tables well-formed, nothing mapped, the allocator
    holding exactly [A]), or everything given back. *)
Definition created_or_given_back (create : kmem -> option (NTSTATUS * option domain * kmem)) (A : gmap Z Z) (k : kmem) : Prop :=
  exists s od k', create k = Some (s, od, k') /\
    ((exists d, s = STATUS_SUCCESS /\ od = Some d /\ pt_wf d k' /\ iova_rep d A /\
        forall iova, 0 <= iova < 2 ^ 32 -> translate d k' iova = None) \/
     (s = STATUS_INSUFFICIENT_RESOURCES /\ od = None /\ gives_back k k')).

Lemma creators_outcome k :
  supply_ok k ->
  created_or_given_back RkIommuDomainCreateVdec rcb_allocs k /\
  created_or_given_back RkIommuDomainCreateAv1d {[0 := 1]} k.
Proof.
  intros Hs. split.
  - destruct (create_vdec_outcome k Hs) as (s & od & k' & E & [(d & -> & -> & C)|H]);
      eexists _, _, _; (split; [exact E|]); [left|by right].
    destruct C as (W & R & HN & _). exists d. do 4 (split; [done|]). intros iova Hi.
    apply translate_cleared; [done..|]. unfold pte_at. by rewrite HN.
  - destruct (create_av1d_outcome k Hs) as (s & od & k' & E & [(d & -> & -> & C)|H]);
      eexists _, _, _; (split; [exact E|]); [left|by right].
    destruct C as (W & R & HN & _). exists d. do 4 (split; [done|]). intros iova Hi.
    apply translate_cleared; [done..|]. unfold pte_at. by rewrite HN.
Qed.

(** [RkIommuDomainCreateVdec] and [RkIommuDomainCreateAv1d] return; on success
    the domain is ready for use (page tables well-formed, nothing mapped, the allocator
    holding exactly page 0 and, for VDEC, the RCB window), on failure every page and
    pool block taken on the way has been given back.  [RkIommuDomainDestroy] frees
    exactly what a domain owns: its four pool blocks, its directory, its table array and
    every page table installed by maps; no other page is touched. *)
Theorem domain_lifetime k d kd rest :
  supply_ok k -> pt_wf d kd -> k_pool kd = [Tag_eIkR; Tag_sIkR; Tag_bIkR; Tag_mDkR] ++ rest ->
  created_or_given_back RkIommuDomainCreateVdec rcb_allocs k /\
  created_or_given_back RkIommuDomainCreateAv1d {[0 := 1]} k /\
  let k' := RkIommuDomainDestroy (Some d) kd in
  k_pool k' = rest /\
  forall p, (owns d p -> k_pages k' !! p = None) /\
            (~ owns d p -> k_pages k' !! p = k_pages kd !! p).
Proof.
  intros Hs Hwf Hp. destruct (creators_outcome k Hs) as [Hv Ha]. split; [done|]. split; [done|].
  by apply destroy_outcome.
Qed.

Lemma domain_lifetime_witness :
  let d := (sample true).1 in let k := (sample true).2 in
  created_or_given_back RkIommuDomainCreateVdec rcb_allocs sample_kmem /\
  k_pool (RkIommuDomainDestroy (Some d) k) = [].
Proof.
  destruct (domain_lifetime sample_kmem (sample true).1 (sample true).2 [] sample_supply) as (Hv & _ & Hp & _).
  - apply sample_av1d_created.
  - apply sample_av1d_created.
  - split; [exact Hv|exact Hp].
Defined.
