(* ===== verification/IommuProps.v ===== *)
(** * Properties of the v2 IOMMU driver

    What [src/driver/rkiommu_vdec/] promises to the codec drivers: a mapped
    buffer is translated page by page and nothing else is, an unmap recovers
    the exact size of the mapping and revokes it, no device access is ever
    translated outside a live mapping, and the hardware is only reconfigured
    while every MMU instance is stalled and never left stalled. *)

From S2P Require Import Prelude Bitmap PgTable IovaAlloc PageWalk DomainLife Mmio.
From S2P Require Import IommuHw IommuHwFacts IommuMap PgTableProps.

#[local] Abbreviation pages := RK_IOMMU_IOVA_PAGES (only parsing).

(** ** A concrete master, for the witnesses *)
Definition sample_iommu (Len : Z) (dom : option domain) (paging : bool) : iommu :=
  Iommu 0x3570 9 true Len dom paging true true true None 0 0 0 true true true false true true [].

Definition sample_world : world :=
  World (sample_iommu 0x80 (Some (sample false).1) false) (sample false).2 (Mmio [] [0; 0; 1; 1]).

Lemma created_dom_ok d k k' A : created d k k' A -> dom_ok d k' A.
Proof.
  intros (W & R & HN & _). constructor; [done|done|]. intros P _ _. unfold pte_at. by rewrite HN.
Qed.

Lemma sample_world_ok : dom_ok (sample false).1 (w_mem sample_world) rcb_allocs.
Proof. eapply created_dom_ok. exact sample_vdec_created. Qed.

Definition sample_mdl : MDL := Mdl 0x5000 0x2000 [0x12; 0x99].

(** ** Mapping *)

(** C17: [RkIommuMapMdl] on a master, for an MDL of [n] pages.  It always returns
    and keeps the domain invariant.  On success the buffer gets the highest free
    range, each of its pages is translated to the frame the MDL names, writable
    unless the role is the bitstream input, and every other address is
    translated as before.  On failure no translation has changed and the range
    has been given back. *)
Theorem map_mdl_contract w m Role d A :
  let n := span_pages (MdlVa m) (MdlByteCount m) in
  IsMaster (w_dev w) = true -> Dom (w_dev w) = Some d -> dom_ok d (w_mem w) A ->
  0 < n -> n <= Z.of_nat (length (MdlPfnArray m)) ->
  exists s iova0 w' d', RkIommuMapMdl w m Role = Some (s, iova0, w') /\
    Dom (w_dev w') = Some d' /\
    ((s = STATUS_SUCCESS /\ exists base, iova0 = base * RK_IOMMU_PAGE_SIZE /\
        highest_free_run A base n /\ dom_ok d' (w_mem w') (<[base:=n]> A) /\
        forall iova, 0 <= iova < 2 ^ 32 ->
          translate d' (w_mem w') iova
          = let page := iova / 4096 in
            if decide (base <= page < base + n)
            then Some (frame (MdlPfnArray m) (page - base) + iova mod 4096,
                       negb (Role =? RkMppBufferUsageBitstreamInput))
            else translate d (w_mem w) iova) \/
     (NT_SUCCESS s = false /\ dom_ok d' (w_mem w') A /\
      forall iova, 0 <= iova < 2 ^ 32 -> translate d' (w_mem w') iova = translate d (w_mem w) iova)).
Proof.
  intros n HM HD Hok Hn Hlen.
  destruct (map_mdl_outcome w m Role d A HM HD Hok Hn Hlen)
    as (s & iova0 & w' & d' & E & HD' & _ & Ha & Ho).
  exists s, iova0, w', d'. split; [done|]. split; [done|].
  destruct Ho as [(-> & base & -> & Hb & Hok' & Hv & Hg)|(Hs & Hok' & Hv)]; [left|right].
  - split; [done|]. exists base. do 3 (split; [done|]). intros iova Hi.
    assert (HQ : 0 <= iova / 4096 < pages) by (geo; zdm). specialize (Hv _ HQ). cbv zeta. subst n.
    destruct (decide (base <= iova / 4096 < _)) as [Hin|Hin].
    + rewrite <- Ha in Hv.
      rewrite (translate_mapped d' _ iova _ _ (ok_wf _ _ _ Hok') Hi (Hg (iova / 4096 - base) ltac:(lia)) Hv).
      do 2 f_equal. unfold pte_flags. by destruct (Role =? RkMppBufferUsageBitstreamInput).
    + by apply (translate_same d (w_mem w) d' (w_mem w') iova (ok_wf _ _ _ Hok) (ok_wf _ _ _ Hok')).
  - split; [done|]. split; [done|]. intros iova Hi.
    apply (translate_same d (w_mem w) d' (w_mem w') iova (ok_wf _ _ _ Hok) (ok_wf _ _ _ Hok')); try done.
    apply Hv. geo. zdm.
Qed.

Lemma map_mdl_contract_witness :
  let d := (sample false).1 in
  ('(s, i, w') ← RkIommuMapMdl sample_world sample_mdl 3;
   d' ← Dom (w_dev w'); translate d' (w_mem w') (i + 0x1234)) = Some (0x99234, true) /\
  exists s iova0 w' d', RkIommuMapMdl sample_world sample_mdl 3 = Some (s, iova0, w') /\
    Dom (w_dev w') = Some d' /\
    ((s = STATUS_SUCCESS /\ exists base, iova0 = base * RK_IOMMU_PAGE_SIZE /\
        highest_free_run rcb_allocs base 2 /\ dom_ok d' (w_mem w') (<[base:=2]> rcb_allocs) /\
        forall iova, 0 <= iova < 2 ^ 32 ->
          translate d' (w_mem w') iova
          = let page := iova / 4096 in
            if decide (base <= page < base + 2)
            then Some (frame [0x12; 0x99] (page - base) + iova mod 4096,
                       negb (3 =? RkMppBufferUsageBitstreamInput))
            else translate d (w_mem sample_world) iova) \/
     (NT_SUCCESS s = false /\ dom_ok d' (w_mem w') rcb_allocs /\
      forall iova, 0 <= iova < 2 ^ 32 ->
        translate d' (w_mem w') iova = translate d (w_mem sample_world) iova)).
Proof.
  intros d. split; [vm_compute; reflexivity|].
  apply (map_mdl_contract sample_world sample_mdl 3 d rcb_allocs);
    [reflexivity|reflexivity|exact sample_world_ok|reflexivity|vm_compute; discriminate].
Defined.



(** ** Isolation over whole runs *)

(** The states of a master: from domain creation, by maps and unmaps with any
    arguments (an MDL has a frame for each of its pages), with the ranges the
    clients hold.  Each step records its status. *)
Inductive master_reach : world -> gmap Z Z -> Prop :=
  | mr_create k s d k' dev io :
      supply_ok k -> RkIommuDomainCreateVdec k = Some (s, Some d, k') ->
      IsMaster dev = true -> master_reach (World (dev <| Dom := Some d |>) k' io) rcb_allocs
  | mr_map w A m Role s iova w' :
      master_reach w A -> 0 < span_pages (MdlVa m) (MdlByteCount m) ->
      span_pages (MdlVa m) (MdlByteCount m) <= Z.of_nat (length (MdlPfnArray m)) ->
      RkIommuMapMdl w m Role = Some (s, iova, w') ->
      master_reach w' (if NT_SUCCESS s
                       then <[iova / RK_IOMMU_PAGE_SIZE := span_pages (MdlVa m) (MdlByteCount m)]> A
                       else A)
  | mr_unmap w A Iova s w' :
      master_reach w A -> 0 <= Iova -> RkIommuUnmapMdl w Iova = Some (s, w') ->
      master_reach w' (if NT_SUCCESS s then delete (Iova / RK_IOMMU_PAGE_SIZE) A else A).

Lemma master_reach_ok w A :
  master_reach w A -> exists d, IsMaster (w_dev w) = true /\ Dom (w_dev w) = Some d /\
    dom_ok d (w_mem w) A.
Proof.
  induction 1 as [k s d k' dev io Hs E HM|w A m Role s iova w' _ (d & HM & HD & Hok) Hn Hl E
                 |w A Iova s w' _ (d & HM & HD & Hok) H0 E].
  - exists d. split; [done|]. split; [done|]. simpl.
    destruct (create_vdec_outcome k Hs) as (s1 & od & k1 & E1 & [(d1 & -> & -> & C)|(_ & -> & _)]);
      [|congruence].
    rewrite E in E1. injection E1 as -> -> ->. by eapply created_dom_ok.
  - destruct (map_mdl_outcome w m Role d A HM HD Hok Hn Hl)
      as (s1 & i1 & w1 & d1 & E1 & HD1 & HM1 & _ & Ho).
    rewrite E in E1. injection E1 as -> -> ->. exists d1. split; [done|]. split; [done|].
    destruct Ho as [(-> & base & -> & _ & Hok' & _)|(-> & Hok' & _)]; [|done].
    change (NT_SUCCESS STATUS_SUCCESS) with true. by rewrite Z.div_mul by done.
  - destruct (A !! (Iova / RK_IOMMU_PAGE_SIZE)) as [n|] eqn:HA.
    + destruct (decide (Iova = Iova / RK_IOMMU_PAGE_SIZE * RK_IOMMU_PAGE_SIZE)) as [Hal|Hal].
      * destruct (unmap_mdl_outcome w _ n d A HM HD Hok HA) as (w1 & d1 & E1 & HD1 & HM1 & _ & Hok' & _).
        rewrite <- Hal in E1. rewrite E in E1. injection E1 as -> ->. exists d1. done.
      * rewrite (unmap_mdl_stray w Iova d A) in E; try done.
        -- injection E as <- <-. exists d. done.
        -- intros sp ->. destruct Hal. by rewrite Z.div_mul.
    + rewrite (unmap_mdl_stray w Iova d A) in E; try done.
      * injection E as <- <-. exists d. done.
      * intros sp ->. by rewrite Z.div_mul in HA.
Qed.

(** C13: DMA isolation.  In every reachable state of a master, an address the
    hardware translates lies in a live mapping, and the live mappings are
    pairwise disjoint and inside the IOVA space. *)
Theorem dma_isolation w A iova phys wr :
  master_reach w A -> 0 <= iova < 2 ^ 32 ->
  (exists d, Dom (w_dev w) = Some d /\ translate d (w_mem w) iova = Some (phys, wr)) ->
  exists b n, A !! b = Some n /\ b <= iova / 4096 < b + n /\ b + n <= pages /\
    forall b' n', A !! b' = Some n' -> b' <= iova / 4096 < b' + n' -> b' = b.
Proof.
  intros Hr Hi (d & HD & Ht). destruct (master_reach_ok w A Hr) as (d' & _ & HD' & [W R Hf]).
  rewrite HD in HD'. injection HD' as <-.
  assert (HQ : 0 <= iova / 4096 < pages) by (geo; zdm).
  destruct (bit (IovaBitmap d) (iova / 4096)) eqn:E.
  - apply (rep_bit _ _ R) in E; [|done]. destruct E as (b & n & Hb & Hin). exists b, n.
    split; [done|]. split; [done|]. split; [apply (rep_range _ _ R _ _ Hb)|].
    intros b' n' Hb' Hin'. destruct (Z.lt_trichotomy b b') as [Hl|[|Hl]]; [|done|].
    + pose proof (rep_disjoint _ _ R _ _ _ _ Hb Hb' Hl). lia.
    + pose proof (rep_disjoint _ _ R _ _ _ _ Hb' Hb Hl). lia.
  - assert (HN : ~ covered A (iova / 4096))
      by (intros Hc; apply (rep_bit _ _ R) in Hc; [congruence|done]).
    by rewrite (translate_cleared d (w_mem w) iova W Hi (Hf _ HQ HN)) in Ht.
Qed.

Definition isolated : option (world * Z) :=
  '(_, i, w) ← RkIommuMapMdl sample_world sample_mdl 1; Some (w, i).

Lemma sample_reach : master_reach sample_world rcb_allocs.
Proof.
  unfold sample_world.
  change (sample_iommu 0x80 (Some (sample false).1) false)
    with ((sample_iommu 0x80 None false) <| Dom := Some (sample false).1 |>).
  destruct (RkIommuDomainCreateVdec sample_kmem) as [[[s od] k']|] eqn:E.
  2: { exfalso. destruct (create_vdec_outcome sample_kmem sample_supply) as (? & ? & ? & E1 & _).
       congruence. }
  assert (Hod : exists d, od = Some d).
  { destruct (create_vdec_outcome sample_kmem sample_supply)
      as (s1 & od1 & k1 & E1 & [(d1 & -> & -> & C)|(-> & _ & _)]); [rewrite E in E1; injection E1; eauto|].
    exfalso. revert E1. vm_compute. discriminate. }
  destruct Hod as [d ->]. assert (sample false = (d, k')) as -> by (unfold sample; by rewrite E).
  eapply mr_create; [exact sample_supply|exact E|reflexivity].
Qed.

Lemma dma_isolation_witness :
  exists w i phys wr, isolated = Some (w, i) /\
    exists b n, (<[i / RK_IOMMU_PAGE_SIZE := 2]> rcb_allocs) !! b = Some n /\
      b <= (i + 5) / 4096 < b + n /\ b + n <= pages /\ phys = 0x12005 /\ wr = false /\
      forall b' n', (<[i / RK_IOMMU_PAGE_SIZE := 2]> rcb_allocs) !! b' = Some n' ->
        b' <= (i + 5) / 4096 < b' + n' -> b' = b.
Proof.
  destruct (RkIommuMapMdl sample_world sample_mdl 1) as [[[s i] w]|] eqn:E.
  2: { exfalso. revert E. vm_compute. discriminate. }
  assert (Hv : ('(s, i, w) ← RkIommuMapMdl sample_world sample_mdl 1;
                d ← Dom (w_dev w); t ← translate d (w_mem w) (i + 5); Some (s, i, t))
               = Some (STATUS_SUCCESS, 0xFFEFE000, (0x12005, false))) by (vm_compute; reflexivity).
  rewrite E in Hv. cbn [mbind option_bind] in Hv.
  destruct (Dom (w_dev w)) as [d|] eqn:HD;
    cbn [mbind option_bind] in Hv; [|discriminate Hv].
  destruct (translate d (w_mem w) (i + 5)) as [t|] eqn:Ht;
    cbn [mbind option_bind] in Hv; [|discriminate Hv].
  injection Hv as -> -> ->. exists w, 0xFFEFE000, 0x12005, false.
  split; [unfold isolated; rewrite E; reflexivity|].
  pose proof (mr_map sample_world rcb_allocs sample_mdl 1 STATUS_SUCCESS _ w sample_reach
                ltac:(reflexivity) ltac:(vm_compute; discriminate) E) as Hr.
  destruct (dma_isolation w _ (0xFFEFE000 + 5) 0x12005 false Hr ltac:(lia)
              (ex_intro _ d (conj HD Ht))) as (b & n & Hb & Hin & Hp & Hu).
  exists b, n. do 3 (split; [assumption|]). split; [reflexivity|]. split; [reflexivity|exact Hu].
Defined.

(** ** The paging sequences *)

(** The programming sequences.  [RkIommuEnableHw] on an idle device and
    [RkIommuReattach] from any paging state: whatever the status registers answer,
    every MMU instance ends un-stalled, with the directory of the domain in DTE_ADDR,
    the fault interrupts enabled and paging commanded; no register is reconfigured
    while an instance is running; and [PagingEnabled] says whether the sequence
    succeeded.  [s] is any earlier state of the hardware. *)
Theorem program_sequences d dom m s :
  Dom d = Some dom -> MmioBase d = true ->
  (PagingEnabled d = false ->
   exists st d' m', RkIommuEnableHw d m = (st, d', m') /\
     mon (n_mmu d) s (m_trace m')
     = on_all (n_mmu d) (fun _ => Mmu false (PdPhys dom) RK_MMU_IRQ_MASK true)
         (mon (n_mmu d) s (m_trace m)) /\
     (st = STATUS_SUCCESS \/ st = STATUS_DEVICE_HARDWARE_ERROR) /\
     PagingEnabled d' = NT_SUCCESS st /\ Dom d' = Some dom) /\
  (exists st d' m', RkIommuReattach d m = (st, d', m') /\
     mon (n_mmu d) s (m_trace m')
     = on_all (n_mmu d) (fun _ => Mmu false (PdPhys dom) RK_MMU_IRQ_MASK true)
         (mon (n_mmu d) s (m_trace m)) /\
     PagingEnabled d' = NT_SUCCESS st).
Proof.
  intros Hd Hb. split.
  - intros Hp. destruct (enable_outcome d dom m s Hd Hb Hp) as (st & d' & m' & E & Hm & Ho).
    exists st, d', m'. split; [done|]. split; [done|].
    destruct Ho as [[-> ->]|[-> ->]]; (split; [by auto|]); (split; [|done]); done.
  - unfold RkIommuReattach. rewrite Hb, Hd. cbn [negb].
    assert (Hdis : exists d1 m1 f, RkIommuDisableHw d m = (STATUS_SUCCESS, d1, m1) /\
    Dom d1 = Some dom /\ MmioBase d1 = true /\ PagingEnabled d1 = false /\ n_mmu d1 = n_mmu d /\
    mon (n_mmu d) s (m_trace m1) = on_all (n_mmu d) f (mon (n_mmu d) s (m_trace m))).
    { destruct (PagingEnabled d) eqn:Hp.
    - destruct (disable_outcome d m s Hb Hp) as (m1 & E & H). eexists _, m1, _. by split_and!.
    - exists d, m, id. unfold RkIommuDisableHw. rewrite Hb, Hp. split_and!; try done.
    unfold on_all. destruct (mon _ _ _); simpl. by destruct (_ =? 1). }
    destruct Hdis as (d1 & m1 & f & -> & Hd1 & Hb1 & Hp1 & Hn1 & Hm1).
    change (NT_SUCCESS STATUS_SUCCESS) with true. cbn [negb].
    destruct (enable_outcome d1 dom m1 s Hd1 Hb1 Hp1) as (st & d2 & m2 & -> & Hm2 & Ho).
    rewrite Hn1 in Hm2. rewrite Hm1, on_all_on_all in Hm2.
    destruct Ho as [[-> ->]|[-> ->]];
    (eexists _, _, m2; split; [reflexivity|]; split; [exact Hm2|]; done).
Qed.

Lemma program_sequences_witness :
  let dom := (sample false).1 in
  (let d := sample_iommu 0x80 (Some dom) false in
   exists st d' m', RkIommuEnableHw d (Mmio [] [0; 0; 0; 1; 1; 1]) = (st, d', m') /\
     mon 2 (Monitor (Mmu false 7 0 false) (Mmu true 9 0 true) true) (m_trace m')
     = Monitor (Mmu false (PdPhys dom) RK_MMU_IRQ_MASK true)
               (Mmu false (PdPhys dom) RK_MMU_IRQ_MASK true) true /\
     (st = STATUS_SUCCESS \/ st = STATUS_DEVICE_HARDWARE_ERROR) /\
     PagingEnabled d' = NT_SUCCESS st /\ Dom d' = Some dom) /\
  (exists st d' m', RkIommuReattach (sample_iommu 0x80 (Some dom) true) (Mmio [] [0; 0; 1; 1]) = (st, d', m') /\
     mon 2 (Monitor (Mmu false 7 0 true) (Mmu false 7 0 true) true) (m_trace m')
     = Monitor (Mmu false (PdPhys dom) RK_MMU_IRQ_MASK true)
               (Mmu false (PdPhys dom) RK_MMU_IRQ_MASK true) true /\
     PagingEnabled d' = NT_SUCCESS st).
Proof.
  intros dom. split.
  - apply (program_sequences (sample_iommu 0x80 (Some dom) false) dom
             (Mmio [] [0; 0; 0; 1; 1; 1])
             (Monitor (Mmu false 7 0 false) (Mmu true 9 0 true) true)); reflexivity.
  - apply (program_sequences (sample_iommu 0x80 (Some dom) true) dom
             (Mmio [] [0; 0; 1; 1]) (Monitor (Mmu false 7 0 true) (Mmu false 7 0 true) true)); reflexivity.
Defined.

(** [RkIommuForceReset] guards the update of [PagingEnabled] by
    [NT_SUCCESS(rs)], but the timeout status 0x102 is a success code: the flag is
    cleared, and a success code returned, on every path, the one where DTE_ADDR
    never read zero included. *)
Theorem force_reset_timeout_passes d m :
  MmioBase d = true ->
  exists rs m', RkIommuForceReset d m = (rs, d <| PagingEnabled := false |>, m') /\
    NT_SUCCESS rs = true.
Proof.
  intros Hb. destruct (force_reset_outcome d m (Monitor (Mmu false 0 0 false) (Mmu false 0 0 false) true) Hb)
    as (rs & m' & E & Hs & _).
  exists rs, m'. split; [done|]. by destruct Hs as [-> | ->].
Qed.

Lemma force_reset_timeout_passes_witness :
  let d := sample_iommu 0x40 None true in
  let m := Mmio [] (replicate 100 0x10000) in
  (RkIommuForceReset d m).1.1 = STATUS_TIMEOUT /\
  exists rs m', RkIommuForceReset d m = (rs, d <| PagingEnabled := false |>, m') /\
    NT_SUCCESS rs = true.
Proof. split; [vm_compute; reflexivity|]. apply force_reset_timeout_passes. reflexivity. Defined.

Definition services (vs : list Z) (rds : list (list access)) : list access :=
  concat (imap (fun mi '(v, rd) => service (Z.of_nat mi) v rd) (zip vs rds)).

Lemma services_1 v rd : services [v] [rd] = service 0 v rd.
Proof. rewrite <- (app_nil_r (service 0 v rd)). reflexivity. Qed.

Lemma services_2 v rd v1 rd1 : services [v; v1] [rd; rd1] = service 0 v rd ++ service 1 v1 rd1.
Proof. rewrite <- (app_nil_r (service 1 v1 rd1)). reflexivity. Qed.

(** The interrupt handler services every instance: each one whose
    INT_STATUS shows a fault is acknowledged with exactly its fault bits, after a
    TLB zap and PAGE_FAULT_DONE when it is a page fault, instances without a
    fault are not written, and the handler claims the interrupt (and queues the
    DPC with the merged status) exactly when some instance had one. *)
Theorem isr_acknowledges d m :
  MmioBase d = true ->
  exists vs rds h d' m', RkIommuEvtIsr d m = (h, d', m') /\
    Z.of_nat (length vs) = n_mmu d /\ length rds = length vs /\
    m_trace m' = m_trace m ++ services vs rds /\
    h = existsb (fun v => flag v RK_MMU_IRQ_MASK) vs /\
    FaultCtxStatus d' = if h then foldl (fun acc v => if flag v RK_MMU_IRQ_MASK
                                                      then Z.lor acc v else acc) 0 vs
                        else FaultCtxStatus d.
Proof.
  intros Hb. unfold RkIommuEvtIsr. rewrite Hb. cbn [negb].
  destruct (n_mmu_cases d) as [-> | ->].
  - change (seqZ 0 1) with [0]. cbn [foldl].
    destruct (isr_one_outcome 0 false 0 0 m) as (v & rd & f & m1 & -> & Ht & _).
    exists [v], [rd], (flag v RK_MMU_IRQ_MASK). rewrite services_1, <- Ht, Z.lor_0_l.
    cbn [existsb foldl orb]. rewrite orb_false_r, Z.lor_0_l.
    destruct (flag v RK_MMU_IRQ_MASK); cbn [negb]; eexists _, m1; split_and!; reflexivity.
  - change (seqZ 0 2) with [0; 1]. cbn [foldl].
    destruct (isr_one_outcome 0 false 0 0 m) as (v & rd & f & m1 & -> & Ht & _).
    destruct (isr_one_outcome 1 (false || flag v RK_MMU_IRQ_MASK)
                (if flag v RK_MMU_IRQ_MASK then Z.lor 0 v else 0) f m1)
      as (v1 & rd1 & f1 & m2 & -> & Ht1 & _).
    exists [v; v1], [rd; rd1], (flag v RK_MMU_IRQ_MASK || flag v1 RK_MMU_IRQ_MASK).
    rewrite services_2, app_assoc, <- Ht, <- Ht1. cbn [existsb foldl orb]. rewrite orb_false_r.
    destruct (flag v RK_MMU_IRQ_MASK), (flag v1 RK_MMU_IRQ_MASK); cbn [negb orb];
      eexists _, m2; split_and!; reflexivity.
Qed.

Lemma isr_acknowledges_witness :
  let d := sample_iommu 0x80 None true in
  let m := Mmio [] [1; 0xABC0; 2] in
  RkIommuEvtIsr d m
  = (true, d <| FaultCtxStatus := 3 |> <| FaultCtxIova := 0xABC0 |>,
     Mmio (service 0 1 [Rd 0xC 0xABC0] ++ service 1 2 []) []) /\
  exists vs rds h d' m', RkIommuEvtIsr d m = (h, d', m') /\
    Z.of_nat (length vs) = 2 /\ length rds = length vs /\
    m_trace m' = services vs rds /\
    h = existsb (fun v => flag v RK_MMU_IRQ_MASK) vs /\
    FaultCtxStatus d' = if h then foldl (fun acc v => if flag v RK_MMU_IRQ_MASK
                                                      then Z.lor acc v else acc) 0 vs
                        else 0.
Proof.
  split; [vm_compute; reflexivity|].
  apply (isr_acknowledges (sample_iommu 0x80 None true) (Mmio [] [1; 0xABC0; 2])). reflexivity.
Defined.

(** ** The master registry *)
Lemma consumer_index_spec c l i :
  consumer_index c l = Some i -> exists cb, l !! i = Some (c, cb).
Proof.
  revert i. induction l as [|[c' cb] l IH]; intros i; simpl; [done|].
  destruct (Z.eqb_spec c' c) as [->|]; [intros [= <-]; eauto|].
  intros (j & E & ->)%fmap_Some. by apply IH.
Qed.

Lemma consumer_index_none c l : consumer_index c l = None -> c ∉ l.*1.
Proof.
  induction l as [|[c' cb] l IH]; simpl; [by intros _ ?%elem_of_nil|].
  destruct (Z.eqb_spec c' c) as [->|]; [done|]. intros E%fmap_None. apply not_elem_of_cons. auto.
Qed.

Lemma swap_remove_perm {A} (l : list A) i x :
  l !! i = Some x -> l ≡ₚ x :: swap_remove i l.
Proof.
  intros Hi. unfold swap_remove. destruct (last l) as [y|] eqn:E.
  2: { apply last_None in E as ->. by rewrite lookup_nil in Hi. }
  apply last_Some in E as [l' ->]. rewrite length_app. simpl.
  replace (length l' + 1 - 1)%nat with (length l') by lia. rewrite take_app_length.
  destruct (Nat.eqb_spec i (length l')) as [->|Hne].
  - rewrite lookup_app_r, Nat.sub_diag in Hi by lia. injection Hi as ->. by rewrite Permutation_app_comm.
  - assert (Hl : l' !! i = Some x).
    { pose proof (lookup_lt_Some _ _ _ Hi) as Hlt. rewrite length_app in Hlt. simpl in Hlt.
      rewrite lookup_app_l in Hi by lia. done. }
    rewrite Permutation_app_comm. simpl.
    rewrite <- (take_drop_middle l' i x Hl) at 1.
    rewrite insert_take_drop by (eapply lookup_lt_Some; exact Hl).
    rewrite <- !Permutation_middle. by constructor.
Qed.

Lemma filter_absent (c : Z) (l : list (Z * Z)) : c ∉ l.*1 -> filter (fun e => e.1 = c) l = [].
Proof.
  induction l as [|[c' b] l IH]; simpl; intros Hn; [done|]. apply not_elem_of_cons in Hn as [Hc Hl].
  rewrite filter_cons_False by (simpl; congruence). by apply IH.
Qed.

(** The master's registry of query-remove callbacks: registration appends
    while one of the four slots is free and otherwise refuses without change, and
    after a consumer unregisters, the remaining entries are exactly the others,
    so the cascade cannot call it again. *)
Theorem registry_contract d c cb :
  NoDup (Consumers d).*1 -> Z.of_nat (length (Consumers d)) <= maxConsumers ->
  (let (s, d') := MasterRegisterQueryRemove d c cb in
   (Z.of_nat (length (Consumers d)) < maxConsumers /\ s = STATUS_SUCCESS /\
    Consumers d' = Consumers d ++ [(c, cb)]) \/
   (Z.of_nat (length (Consumers d)) = maxConsumers /\ s = STATUS_INSUFFICIENT_RESOURCES /\ d' = d)) /\
  let d' := MasterUnregisterQueryRemove d c in
  (c ∉ (Consumers d').*1) /\ NoDup (Consumers d').*1 /\
  Permutation (Consumers d) (filter (fun e => e.1 = c) (Consumers d) ++ Consumers d').
Proof.
  intros Hnd Hl. split.
  - unfold MasterRegisterQueryRemove. destruct (Z.ltb_spec (Z.of_nat (length (Consumers d))) maxConsumers).
    + by left.
    + right. split; [lia|done].
  - cbv zeta. unfold MasterUnregisterQueryRemove. destruct (consumer_index c (Consumers d)) as [i|] eqn:E.
    + destruct (consumer_index_spec _ _ _ E) as [cb' Hi]. simpl.
      pose proof (swap_remove_perm _ _ _ Hi) as Hp. set (r := swap_remove i _) in *. clearbody r.
      rewrite Hp in Hnd. simpl in Hnd. apply NoDup_cons in Hnd as [Hnin Hnd].
      split; [done|]. split; [done|]. rewrite Hp. rewrite filter_cons_True by done. simpl.
      by rewrite filter_absent.
    + pose proof (consumer_index_none _ _ E) as Hn. split; [done|]. split; [done|].
      by rewrite filter_absent.
Qed.

Lemma registry_contract_witness :
  let d := (sample_iommu 0x80 None false) <| Consumers := [(1, 10); (2, 20); (3, 30)] |> in
  Consumers (MasterUnregisterQueryRemove d 1) = [(3, 30); (2, 20)] /\
  (let (s, d') := MasterRegisterQueryRemove d 1 5 in
   (Z.of_nat (length (Consumers d)) < maxConsumers /\ s = STATUS_SUCCESS /\
    Consumers d' = Consumers d ++ [(1, 5)]) \/
   (Z.of_nat (length (Consumers d)) = maxConsumers /\ s = STATUS_INSUFFICIENT_RESOURCES /\ d' = d)) /\
  let d' := MasterUnregisterQueryRemove d 1 in
  (1 ∉ (Consumers d').*1) /\ NoDup (Consumers d').*1 /\
  Permutation (Consumers d) (filter (fun e => e.1 = 1) (Consumers d) ++ Consumers d').
Proof.
  intros d. split; [reflexivity|]. apply (registry_contract d 1 5).
  - apply (bool_decide_unpack (NoDup _)). vm_compute. exact I.
  - vm_compute. discriminate.
Defined.
