(* ===== verification/BufPool.v ===== *)
(** * The buffer pool

    Model of [src/driver/shared/rkmpp/bufpool.c]: size rounding, the per-file
    and global quotas, allocation with every unwinding path, lookups, release
    and the drain at file cleanup.  The IOMMU the pool maps through is the
    interface [IommuProvider]; [BufPoolIommu] discharges it with the driver of
    [IommuMap]. *)

From stdpp Require Import gmultiset.
From S2P Require Import Prelude IommuMap.

(** ** What the pool needs of an IOMMU driver

    The two operations, the relation [prov_holds] between a provider state and
    the page ranges its clients hold, and their contract.  Page 0 is never
    handed out, so an IOVA of 0 can mean "not mapped". *)
Class IommuProvider (W : Type) := {
  prov_map : W -> MDL -> Z -> option (NTSTATUS * Z * W);
  prov_unmap : W -> Z -> option (NTSTATUS * W);
  prov_holds : W -> gmap Z Z -> Prop;
  prov_map_law w A m role :
    let n := span_pages (MdlVa m) (MdlByteCount m) in
    prov_holds w A -> 0 < n -> n <= Z.of_nat (length (MdlPfnArray m)) ->
    exists s iova w', prov_map w m role = Some (s, iova, w') /\
      ((s = STATUS_SUCCESS /\ exists base, iova = base * 4096 /\ 0 < base /\ A !! base = None /\
          prov_holds w' (<[base:=n]> A)) \/
       (NT_SUCCESS s = false /\ prov_holds w' A));
  prov_unmap_law w A base n :
    prov_holds w A -> 0 < base -> A !! base = Some n ->
    exists w', prov_unmap w (base * 4096) = Some (STATUS_SUCCESS, w') /\
      prov_holds w' (delete base A);
}.

(** ** RKMPP_BUFFER and RKMPP_FILE_CTX *)
Record buffer := Buffer {
  Cookie : Z; KernelVa : Z; BufMdl : option MDL; UserVa : Z; Iova : Z; Size : Z;
  OwnerProcess : Z }.
#[export] Instance eta_buffer : Eta buffer := fun b =>
  Buffer (Cookie b) (KernelVa b) (BufMdl b) (UserVa b) (Iova b) (Size b) (OwnerProcess b).

Record file_ctx := FileCtx {
  Buffers : list buffer; AllocatedBytes : Z; BufferCount : Z; ErrorCount : Z }.
#[export] Instance eta_file_ctx : Eta file_ctx := fun c =>
  FileCtx (Buffers c) (AllocatedBytes c) (BufferCount c) (ErrorCount c).

Definition RKMPP_MAX_BUFFER_BYTES : Z := 128 * 1024 * 1024.
Definition RKMPP_MAX_FILE_BYTES : Z := 2 * 1024 * 1024 * 1024.
Definition RKMPP_MAX_GLOBAL_BYTES : Z := 4 * 1024 * 1024 * 1024.
Definition RKMPP_MAX_FILE_BUFFER_COUNT : Z := 128.
Definition PAGE_SIZE : Z := 4096.
Definition MAXULONG : Z := 0xffffffff.

Definition RkMppBufUsageValid (Usage : Z) : bool :=
  (Usage =? RkMppBufferUsageBitstreamInput) || (Usage =? 2) || (Usage =? 3) ||
  (Usage =? RkMppBufferUsageScratch).

(** [inl] is the failing status, [inr] the rounded size. *)
Definition RkMppBufRoundSize (size : Z) : NTSTATUS + Z :=
  if (size =? 0) || (RKMPP_MAX_BUFFER_BYTES <? size) then inl STATUS_INVALID_PARAMETER else
  if MAXULONG - (PAGE_SIZE - 1) <? size then inl STATUS_INVALID_PARAMETER else
  let rounded := Z.land (u32 (size + PAGE_SIZE - 1)) (u32 (Z.lnot (PAGE_SIZE - 1))) in
  if (rounded =? 0) || (RKMPP_MAX_BUFFER_BYTES <? rounded) then inl STATUS_INVALID_PARAMETER else
  inr rounded.

(** ** Quotas

    The file charge and its undo, each one hold of the file lock. *)
Definition charge_file (c : file_ctx) (size : Z) : option file_ctx :=
  if (RKMPP_MAX_FILE_BUFFER_COUNT <=? BufferCount c) ||
     (RKMPP_MAX_FILE_BYTES - size <? AllocatedBytes c) then None
  else Some (c <| AllocatedBytes ::= fun b => b + size |> <| BufferCount ::= fun n => n + 1 |>).

Definition uncharge_file (c : file_ctx) (size : Z) : file_ctx :=
  c <| AllocatedBytes ::= fun b => if size <=? b then b - size else 0 |>
    <| BufferCount ::= fun n => if 0 <? n then n - 1 else n |>.

(** ** The pool and the kernel objects it owns

    [Ledger] lists the live contiguous blocks and MDLs (by kernel VA), user
    mappings (process and VA), tracking nodes (by cookie) and process
    references; the C heap it stands for has no names of its own. *)
Record ledger := Ledger {
  l_contig : gset Z; l_mdl : gset Z; l_user : gset (Z * Z); l_node : gset Z;
  l_ref : gmultiset Z }.
#[export] Instance eta_ledger : Eta ledger := fun l =>
  Ledger (l_contig l) (l_mdl l) (l_user l) (l_node l) (l_ref l).

Section pool.
Context {W : Type} `{!IommuProvider W}.

(** [files] are the contexts of the open file objects; [iommu] is [None] when
    the codec has no IOMMU interface. *)
Record pool := Pool {
  files : list file_ctx;
  g_nextCookie : Z;
  g_totalAllocatedBytes : Z;
  led : ledger;
  prov : option W;
}.
#[export] Instance eta_pool : Eta pool := fun p =>
  Pool (files p) (g_nextCookie p) (g_totalAllocatedBytes p) (led p) (prov p).

Definition upd_file (f : nat) (c : file_ctx) (p : pool) : pool := p <| files ::= insert f c |>.

(** RkMppBufReserveQuota without interference: the compare-exchange of the
    global total then succeeds the first time ([Quota] has the interleavings). *)
Definition RkMppBufReserveQuota (f : nat) (size : Z) (p : pool) : option (NTSTATUS * pool) :=
  if RKMPP_MAX_FILE_BYTES <? size then Some (STATUS_QUOTA_EXCEEDED, p) else
  c ← files p !! f;
  match charge_file c size with
  | None => Some (STATUS_QUOTA_EXCEEDED, p)
  | Some c' =>
      let next := g_totalAllocatedBytes p + size in
      if RKMPP_MAX_GLOBAL_BYTES <? next
      then Some (STATUS_QUOTA_EXCEEDED, upd_file f (uncharge_file c' size) p)
      else Some (STATUS_SUCCESS, (upd_file f c' p) <| g_totalAllocatedBytes := next |>)
  end.

Definition RkMppBufReleaseQuota (f : nat) (size : Z) (p : pool) : option pool :=
  c ← files p !! f;
  Some ((upd_file f (uncharge_file c size) p) <| g_totalAllocatedBytes ::= fun t => t - size |>).

(** RkMppBufFileCtxInit: every field but the error count. *)
Definition RkMppBufFileCtxInit (c : file_ctx) : file_ctx :=
  c <| Buffers := [] |> <| AllocatedBytes := 0 |> <| BufferCount := 0 |>.

Definition on_led (g : ledger -> ledger) (p : pool) : pool := p <| led ::= g |>.

(** ** RkMppBufFreeOne

    [acq] is the answer of PsAcquireProcessExitSynchronization. *)
Definition unmap_user (acq : Z -> NTSTATUS) (b : buffer) (p : pool) : pool :=
  match BufMdl b with
  | Some _ =>
      if negb (UserVa b =? 0) && negb (OwnerProcess b =? 0) && NT_SUCCESS (acq (OwnerProcess b))
      then on_led (fun l => l <| l_user ::= fun s => s ∖ {[(OwnerProcess b, UserVa b)]} |>) p
      else p
  | None => p
  end.

Definition unmap_iommu (b : buffer) (p : pool) : option pool :=
  if Iova b =? 0 then Some p else
  match prov p with
  | None => Some p
  | Some w => '(_, w') ← prov_unmap w (Iova b); Some (p <| prov := Some w' |>)
  end.

Definition RkMppBufFreeOne (acq : Z -> NTSTATUS) (b : buffer) (p : pool) : option pool :=
  let p := unmap_user acq b p in
  p ← unmap_iommu b p;
  let p := match BufMdl b with
           | Some _ => on_led (fun l => l <| l_mdl ::= fun s => s ∖ {[KernelVa b]} |>) p
           | None => p
           end in
  let p := if KernelVa b =? 0 then p
           else on_led (fun l => l <| l_contig ::= fun s => s ∖ {[KernelVa b]} |>) p in
  let p := if OwnerProcess b =? 0 then p
           else on_led (fun l => l <| l_ref ::= fun s => s ∖ {[+ OwnerProcess b +]} |>) p in
  Some (on_led (fun l => l <| l_node ::= fun s => s ∖ {[Cookie b]} |>) p).

(** ** Lookups *)
Fixpoint find_cookie (cookie : Z) (l : list buffer) : option buffer :=
  match l with
  | [] => None
  | b :: l' => if Cookie b =? cookie then Some b else find_cookie cookie l'
  end.

Definition RkMppBufLookupIovaLocked (c : file_ctx) (cookie : Z) : NTSTATUS * Z * Z :=
  match find_cookie cookie (Buffers c) with
  | Some b => (STATUS_SUCCESS, Iova b, Size b)
  | None => (STATUS_NOT_FOUND, 0, 0)
  end.

Definition RkMppBufLookupIova (p : pool) (f : nat) (cookie : Z) : option (NTSTATUS * Z * Z) :=
  c ← files p !! f; Some (RkMppBufLookupIovaLocked c cookie).

Definition RkMppBufLookupMdlLocked (c : file_ctx) (cookie : Z) : NTSTATUS * option MDL :=
  match find_cookie cookie (Buffers c) with
  | Some b => (STATUS_SUCCESS, BufMdl b)
  | None => (STATUS_NOT_FOUND, None)
  end.

Definition RkMppBufLookupMdl (p : pool) (f : nat) (cookie : Z) : option (NTSTATUS * option MDL) :=
  c ← files p !! f; Some (RkMppBufLookupMdlLocked c cookie).

(** ** RkMppBufAlloc

    The kernel's answers to one call: the contiguous block (kernel VA and
    frames), whether the MDL and the node could be allocated, the user VA, and
    the calling process. *)
Record answers := Answers {
  a_contig : option (Z * list Z); a_mdl : bool; a_user : option Z; a_node : bool;
  a_process : Z }.

Record alloc_out := AllocOut {
  BufferHandle : Z; OutIova : Z; OutUserVa : Z; SizeRoundedUp : Z }.

(** [InterlockedIncrement64] until non-zero; the counter starts at 1. *)
Definition next_cookie (n : Z) : Z :=
  let c := u64 (n + 1) in if c =? 0 then u64 (c + 1) else c.

(** The undo steps, innermost first. *)
Definition undo_mem (f : nat) (kva size : Z) (p : pool) : option pool :=
  RkMppBufReleaseQuota f size (on_led (fun l => l <| l_contig ::= fun s => s ∖ {[kva]} |>) p).
Definition undo_mdl (f : nat) (kva size : Z) (p : pool) : option pool :=
  undo_mem f kva size (on_led (fun l => l <| l_mdl ::= fun s => s ∖ {[kva]} |>) p).
Definition undo_iommu (f : nat) (kva size iova : Z) (w : W) (p : pool) : option pool :=
  '(_, w') ← prov_unmap w iova;
  undo_mdl f kva size (p <| prov := Some w' |>).

Definition RkMppBufAlloc (f : nat) (InUsage InSize : Z) (a : answers) (p : pool)
  : option (NTSTATUS * option alloc_out * pool) :=
  if negb (RkMppBufUsageValid InUsage) then Some (STATUS_INVALID_PARAMETER, None, p) else
  match RkMppBufRoundSize InSize with
  | inl status => Some (status, None, p)
  | inr sizeRounded =>
  '(status, p) ← RkMppBufReserveQuota f sizeRounded p;
  if negb (NT_SUCCESS status) then Some (status, None, p) else
  match a_contig a with
  | None =>
      p ← RkMppBufReleaseQuota f sizeRounded p; Some (STATUS_INSUFFICIENT_RESOURCES, None, p)
  | Some (kernelVa, pfns) =>
  let p := on_led (fun l => l <| l_contig ::= fun s => {[kernelVa]} ∪ s |>) p in
  if negb (a_mdl a) then
    p ← undo_mem f kernelVa sizeRounded p; Some (STATUS_INSUFFICIENT_RESOURCES, None, p)
  else
  let mdl := Mdl kernelVa sizeRounded pfns in
  let p := on_led (fun l => l <| l_mdl ::= fun s => {[kernelVa]} ∪ s |>) p in
  match prov p with
  | None => p ← undo_mdl f kernelVa sizeRounded p; Some (STATUS_DEVICE_NOT_READY, None, p)
  | Some w =>
  '(status, iova, w) ← prov_map w mdl InUsage;
  let p := p <| prov := Some w |> in
  if negb (NT_SUCCESS status) then
    p ← undo_mdl f kernelVa sizeRounded p; Some (status, None, p)
  else
  match a_user a with
  | None =>
      p ← undo_iommu f kernelVa sizeRounded iova w p; Some (STATUS_INSUFFICIENT_RESOURCES, None, p)
  | Some userVa =>
  let p := on_led (fun l => l <| l_user ::= fun s => {[(a_process a, userVa)]} ∪ s |>) p in
  let cookie := next_cookie (g_nextCookie p) in
  let p := p <| g_nextCookie := cookie |> in
  if negb (a_node a) then
    let p := on_led (fun l => l <| l_user ::= fun s => s ∖ {[(a_process a, userVa)]} |>) p in
    p ← undo_iommu f kernelVa sizeRounded iova w p; Some (STATUS_INSUFFICIENT_RESOURCES, None, p)
  else
  let buf := Buffer cookie kernelVa (Some mdl) userVa iova sizeRounded (a_process a) in
  let p := on_led (fun l => l <| l_node ::= fun s => {[cookie]} ∪ s |>
                              <| l_ref ::= fun s => {[+ a_process a +]} ⊎ s |>) p in
  c ← files p !! f;
  let p := upd_file f (c <| Buffers ::= fun l => l ++ [buf] |>) p in
  Some (STATUS_SUCCESS, Some (AllocOut cookie iova userVa sizeRounded), p)
  end end end end.

(** ** Release *)
Fixpoint remove_cookie (cookie : Z) (l : list buffer) : list buffer :=
  match l with
  | [] => []
  | b :: l' => if Cookie b =? cookie then l' else b :: remove_cookie cookie l'
  end.

(** [InUse] is the predicate the driver passes ([None] skips the check). *)
Definition RkMppBufFreeIfNotInUse (acq : Z -> NTSTATUS) (f : nat) (cookie : Z)
    (InUse : option (Z -> bool)) (p : pool) : option (NTSTATUS * pool) :=
  c ← files p !! f;
  if match InUse with Some q => q cookie | None => false end
  then Some (STATUS_DEVICE_BUSY, p) else
  match find_cookie cookie (Buffers c) with
  | None => Some (STATUS_NOT_FOUND, p)
  | Some b =>
      let p := upd_file f (c <| Buffers ::= remove_cookie cookie |>) p in
      p ← RkMppBufReleaseQuota f (Size b) p;
      p ← RkMppBufFreeOne acq b p;
      Some (STATUS_SUCCESS, p)
  end.

(** The drain loop; [n] bounds its iterations by the length of the list. *)
Fixpoint free_all_loop (acq : Z -> NTSTATUS) (f : nat) (n : nat) (p : pool) : option pool :=
  match n with
  | O => Some p
  | S n' =>
      c ← files p !! f;
      match Buffers c with
      | [] => Some p
      | b :: l =>
          let p := upd_file f (c <| Buffers := l |>) p in
          p ← RkMppBufReleaseQuota f (Size b) p;
          p ← RkMppBufFreeOne acq b p;
          free_all_loop acq f n' p
      end
  end.

Definition RkMppBufFreeAll (acq : Z -> NTSTATUS) (f : nat) (p : pool) : option pool :=
  c ← files p !! f; free_all_loop acq f (length (Buffers c)) p.

End pool.
#[global] Arguments pool : clear implicits.
