(* ===== verification/BufPoolFacts.v ===== *)
(** * The buffer-pool invariant

    [holding L ...]: the kernel objects, the quota totals and the IOMMU ranges
    are exactly those of the buffers [L]; [pool_ok] ties [L] to the per-file
    lists of [src/driver/shared/rkmpp/bufpool.c].  The lemmas show that
    allocation and release move the invariant from one list to the next, and
    that every failing path restores it. *)

From stdpp Require Import gmultiset.
From S2P Require Import Prelude IommuMap BufPool.

(** ** Sizes *)
Lemma span_rounded kva size :
  Z.land kva 0xFFF = 0 -> 0 < size <= RKMPP_MAX_BUFFER_BYTES -> size mod 4096 = 0 ->
  span_pages kva size = size / 4096.
Proof.
  intros Hk Hs Hm. unfold span_pages, PAGE_SHIFT. rewrite Hk, Z.shiftr_div_pow2 by done.
  change (2 ^ 12) with 4096. unfold RKMPP_MAX_BUFFER_BYTES in Hs. rewrite u32_small; zdm.
Qed.

Lemma round_size_ok size r :
  0 <= size < 2 ^ 32 -> RkMppBufRoundSize size = inr r ->
  0 < r <= RKMPP_MAX_BUFFER_BYTES /\ r mod 4096 = 0 /\ size <= r < size + 4096.
Proof.
  intros Hs. unfold RkMppBufRoundSize, PAGE_SIZE, MAXULONG, RKMPP_MAX_BUFFER_BYTES.
  destruct ((size =? 0) || _) eqn:E0; [done|]. destruct (4294967295 - _ <? size) eqn:E1; [done|].
  rewrite u32_small by lia. change (u32 (Z.lnot (4096 - 1))) with 0xfffff000.
  set (x := size + 4096 - 1).
  assert (Hx : Z.land x 0xfffff000 = x / 4096 * 4096).
  { assert (Hq : 0 <= x < 2 ^ 32) by (unfold x; lia).
    assert (Hq' : 0 <= x / 4096 * 4096 < 2 ^ 32 /\ (x / 4096 * 4096) mod 4096 = 0)
      by (split; [zdm|apply Z.mod_mul; lia]).
    rewrite <- (land_high_mask (x / 4096 * 4096)) by tauto.
    apply Z.bits_inj'. intros k Hk. rewrite !Z.land_spec.
    destruct (Z.ltb_spec k 12).
    - replace (Z.testbit 0xfffff000 k) with false; [by rewrite !andb_false_r|].
      symmetry. change 0xfffff000 with (Z.shiftl 0xfffff 12). by apply Z.shiftl_spec_low.
    - f_equal. change 4096 with (2 ^ 12). rewrite <- Z.shiftl_mul_pow2, <- Z.shiftr_div_pow2 by done.
      rewrite Z.shiftl_spec, Z.shiftr_spec by lia. f_equal. lia. }
  rewrite Hx. destruct ((x / 4096 * 4096 =? 0) || _) eqn:E2; [done|]. intros [= <-].
  apply orb_false_iff in E0 as [E0 E0'], E2 as [E2 E2'].
  apply Z.eqb_neq in E0, E2. apply Z.ltb_ge in E0', E2'.
  split; [unfold x in *; zdm|]. split; [by apply Z.mod_mul|]. unfold x. zdm.
Qed.

(** ** Quotas, one file at a time *)
Fixpoint sum_sizes (l : list buffer) : Z :=
  match l with [] => 0 | b :: l' => Size b + sum_sizes l' end.

Lemma sum_sizes_app l1 l2 : sum_sizes (l1 ++ l2) = sum_sizes l1 + sum_sizes l2.
Proof. induction l1; simpl; lia. Qed.

#[export] Instance sum_sizes_proper : Proper (Permutation ==> eq) sum_sizes.
Proof. induction 1; simpl; lia. Qed.

Definition file_ok (c : file_ctx) : Prop :=
  BufferCount c = Z.of_nat (length (Buffers c)) /\ AllocatedBytes c = sum_sizes (Buffers c) /\
  BufferCount c <= RKMPP_MAX_FILE_BUFFER_COUNT /\ AllocatedBytes c <= RKMPP_MAX_FILE_BYTES.

Lemma uncharge_charge c c' size :
  0 <= AllocatedBytes c -> 0 <= BufferCount c -> 0 < size ->
  charge_file c size = Some c' -> uncharge_file c' size = c.
Proof.
  unfold charge_file. intros Hb Hn Hs. destruct (_ || _); [done|]. intros [= <-].
  unfold uncharge_file. destruct c as [bs ab bc ec]. unfold set_field. simpl in *.
  destruct (Z.leb_spec size (ab + size)); [|lia]. destruct (Z.ltb_spec 0 (bc + 1)); [|lia].
  f_equal; lia.
Qed.

Lemma charge_buffers c c' size : charge_file c size = Some c' -> Buffers c' = Buffers c.
Proof. unfold charge_file. destruct (_ || _); [done|]. by intros [= <-]. Qed.

Lemma charge_add c c' b :
  file_ok c -> charge_file c (Size b) = Some c' ->
  file_ok (c' <| Buffers ::= fun l => l ++ [b] |>).
Proof.
  intros (Hn & Hb & Hc & Hm). unfold charge_file. destruct (_ || _) eqn:E; [done|].
  apply orb_false_iff in E as [E1 E2]. apply Z.leb_gt in E1. apply Z.ltb_ge in E2.
  intros [= <-]. unfold file_ok. simpl. rewrite length_app, sum_sizes_app. simpl. lia.
Qed.

Lemma uncharge_remove c b l :
  file_ok c -> Buffers c ≡ₚ b :: l -> 0 < Size b -> 0 <= sum_sizes l ->
  file_ok (uncharge_file (c <| Buffers := l |>) (Size b)).
Proof.
  intros (Hn & Hb & Hc & Hm) Hp Hs Hl. unfold file_ok, uncharge_file. simpl.
  rewrite Hp in Hn, Hb. simpl in Hn, Hb.
  destruct (Z.leb_spec (Size b) (AllocatedBytes c)); [|lia].
  destruct (Z.ltb_spec 0 (BufferCount c)); lia.
Qed.

Lemma find_cookie_Some k l b :
  find_cookie k l = Some b -> Cookie b = k /\ l ≡ₚ b :: remove_cookie k l.
Proof.
  induction l as [|x l IH]; simpl; [done|]. destruct (Z.eqb_spec (Cookie x) k) as [Hk|Hk].
  - by intros [= ->].
  - intros H. destruct (IH H) as [Hc Hp]. split; [done|]. rewrite Hp at 1. apply Permutation_swap.
Qed.

Lemma find_cookie_None k l : find_cookie k l = None <-> forall b, b ∈ l -> Cookie b <> k.
Proof.
  induction l as [|x l IH]; simpl.
  - split; [by intros _ b ?%elem_of_nil|done].
  - destruct (Z.eqb_spec (Cookie x) k) as [Hk|Hk].
    + split; [done|]. intros H. destruct (H x); [by left|done].
    + rewrite IH. split.
      * intros H b [-> |Hb]%elem_of_cons; auto.
      * intros H b Hb. apply H. by right.
Qed.

(** ** What a list of buffers holds *)
Record good_buf (b : buffer) : Prop := GoodBuf {
  gb_size : 0 < Size b;
  gb_pages : Size b mod 4096 = 0;
  gb_iova : 0 < Iova b /\ Iova b mod 4096 = 0;
  gb_mdl : is_Some (BufMdl b);
  gb_kva : KernelVa b <> 0;
  gb_uva : UserVa b <> 0;
  gb_proc : OwnerProcess b <> 0;
}.

Definition user_key (b : buffer) : Z * Z := (OwnerProcess b, UserVa b).

(** [A0] are the IOVA ranges reserved by the provider, [A] all it holds. *)
Record holding (A0 : gmap Z Z) (L : list buffer) (next total : Z) (l : ledger)
    (A : gmap Z Z) : Prop := Holding {
  h_contig : l_contig l = list_to_set (KernelVa <$> L);
  h_mdl : l_mdl l = list_to_set (KernelVa <$> L);
  h_node : l_node l = list_to_set (Cookie <$> L);
  h_ref : l_ref l = list_to_set_disj (OwnerProcess <$> L);
  h_user : forall b, b ∈ L -> user_key b ∈ l_user l;
  h_kva : NoDup (KernelVa <$> L);
  h_cookie : NoDup (Cookie <$> L);
  h_ukey : NoDup (user_key <$> L);
  h_iova : NoDup (Iova <$> L);
  h_next : forall b, b ∈ L -> 0 < Cookie b <= next;
  h_total : total = sum_sizes L;
  h_good : forall b, b ∈ L -> good_buf b;
  h_ranges : forall b, b ∈ L -> A !! (Iova b / 4096) = Some (Size b / 4096);
  h_only : forall base n, A !! base = Some n ->
    A0 !! base = Some n \/ exists b, b ∈ L /\ Iova b = base * 4096;
  h_reserved : forall base n, A0 !! base = Some n ->
    A !! base = Some n /\ forall b, b ∈ L -> Iova b <> base * 4096;
}.

Lemma holding_perm A0 L L' next total l A :
  L ≡ₚ L' -> holding A0 L next total l A -> holding A0 L' next total l A.
Proof.
  intros HP [].
  constructor; try setoid_rewrite <- HP; done.
Qed.

(** A new buffer, with objects not held yet. *)
Lemma holding_add A0 L next total l A b next' :
  holding A0 L next total l A -> good_buf b ->
  KernelVa b ∉ l_contig l -> user_key b ∉ l_user l -> next < Cookie b <= next' ->
  0 <= next -> A !! (Iova b / 4096) = None ->
  holding A0 (b :: L) next' (total + Size b)
    (Ledger ({[KernelVa b]} ∪ l_contig l) ({[KernelVa b]} ∪ l_mdl l) ({[user_key b]} ∪ l_user l)
       ({[Cookie b]} ∪ l_node l) ({[+ OwnerProcess b +]} ⊎ l_ref l))
    (<[Iova b / 4096 := Size b / 4096]> A).
Proof.
  intros [] Hg Hk Hu Hc Hn HA. pose proof (gb_iova b Hg) as [Hi Hm].
  assert (Hnew : forall b', b' ∈ L -> Iova b' <> Iova b).
  { intros b' Hb' He. pose proof (h_ranges0 b' Hb'). rewrite He in *. congruence. }
  constructor; simpl; try setoid_rewrite elem_of_cons.
  - by rewrite h_contig0.
  - by rewrite h_mdl0.
  - by rewrite h_node0.
  - by rewrite h_ref0.
  - intros b' [-> |Hb']; [set_solver|]. apply elem_of_union_r. auto.
  - apply NoDup_cons. split; [|done]. rewrite h_contig0 in Hk. by rewrite elem_of_list_to_set in Hk.
  - apply NoDup_cons. split; [|done]. intros Hin. apply list_elem_of_fmap in Hin as (b' & He & Hb').
    pose proof (h_next0 b' Hb'). lia.
  - apply NoDup_cons. split; [|done]. intros Hin. apply list_elem_of_fmap in Hin as (b' & He & Hb').
    apply Hu. rewrite He. auto.
  - apply NoDup_cons. split; [|done]. intros Hin. apply list_elem_of_fmap in Hin as (b' & He & Hb').
    by apply (Hnew b').
  - intros b' [-> |Hb']; [lia|]. pose proof (h_next0 b' Hb'). lia.
  - lia.
  - intros b' [-> |Hb']; auto.
  - intros b' [-> |Hb']; [apply lookup_insert_eq|]. rewrite lookup_insert_ne; [auto|].
    intros He. apply (Hnew b' Hb'). destruct (gb_iova b' (h_good0 b' Hb')). zdm.
  - intros base n. rewrite lookup_insert. case_decide as He.
    + intros [= <-]. right. exists b. split; [by left|]. zdm.
    + intros H. destruct (h_only0 base n H) as [|(b' & Hb' & ?)]; [by left|right; eauto].
  - intros base n H. destruct (h_reserved0 base n H) as [H1 H2]. split.
    + rewrite lookup_insert_ne; [done|]. congruence.
    + intros b' [-> |Hb']; [|auto]. intros He. rewrite He, Z.div_mul in HA by done. congruence.
Qed.

Lemma ms_drop (x : Z) (X : gmultiset Z) : ({[+ x +]} ⊎ X) ∖ {[+ x +]} = X.
Proof. multiset_solver. Qed.

(** Giving up a buffer; its user mapping may stay with an exiting process. *)
Lemma holding_remove A0 L next total l A b us :
  holding A0 (b :: L) next total l A ->
  us = l_user l ∖ {[user_key b]} \/ us = l_user l ->
  holding A0 L next (total - Size b)
    (Ledger (l_contig l ∖ {[KernelVa b]}) (l_mdl l ∖ {[KernelVa b]}) us
       (l_node l ∖ {[Cookie b]}) (l_ref l ∖ {[+ OwnerProcess b +]}))
    (delete (Iova b / 4096) A).
Proof.
  intros [] Hus. simpl in *. setoid_rewrite elem_of_cons in h_user0.
  setoid_rewrite elem_of_cons in h_next0. setoid_rewrite elem_of_cons in h_good0.
  setoid_rewrite elem_of_cons in h_ranges0.
  apply NoDup_cons in h_kva0 as [Hk ?], h_cookie0 as [Hc ?], h_ukey0 as [Hu ?], h_iova0 as [Hi ?].
  assert (Hdiff : forall (X : list Z) x, x ∉ X ->
    ({[x]} ∪ list_to_set X : gset Z) ∖ {[x]} = list_to_set X) by (intros; set_solver).
  assert (Hne : forall b', b' ∈ L -> Iova b' <> Iova b).
  { intros b' Hb' He. apply Hi. rewrite <- He. by apply list_elem_of_fmap_2. }
  constructor; simpl; auto.
  - by rewrite h_contig0, Hdiff.
  - by rewrite h_mdl0, Hdiff.
  - by rewrite h_node0, Hdiff.
  - rewrite h_ref0. apply ms_drop.
  - intros b' Hb'. pose proof (h_user0 b' (or_intror Hb')) as Hin.
    destruct Hus as [-> | ->]; [|done]. apply elem_of_difference. split; [done|].
    rewrite elem_of_singleton. intros He. apply Hu. rewrite <- He. by apply list_elem_of_fmap_2.
  - lia.
  - intros b' Hb'. rewrite lookup_delete_ne; [auto|]. intros He. apply (Hne b' Hb').
    destruct (gb_iova b (h_good0 b (or_introl eq_refl))), (gb_iova b' (h_good0 b' (or_intror Hb'))). zdm.
  - intros base n [Hd H']%lookup_delete_Some.
    destruct (h_only0 base n H') as [|(b' & Hb' & He)]; [by left|right].
    apply elem_of_cons in Hb' as [-> |Hb']; [|eauto].
    destruct Hd. rewrite He. by rewrite Z.div_mul.
  - intros base n H'. destruct (h_reserved0 base n H') as [Hr1 Hr2].
    split; [|intros b' Hb'; apply Hr2; by right]. apply lookup_delete_Some. split; [|done].
    intros He. apply (Hr2 b); [by left|].
    destruct (gb_iova b (h_good0 b (or_introl eq_refl))). zdm.
Qed.

Lemma holding_next A0 L next next' total l A :
  next <= next' -> holding A0 L next total l A -> holding A0 L next' total l A.
Proof. intros Hle []. constructor; try done. intros b Hb. pose proof (h_next0 b Hb). lia. Qed.

(** ** The pool invariant *)
Section pool.
Context {W : Type} `{!IommuProvider W}.
Implicit Types p q : pool W.

Definition all_bufs p : list buffer := mjoin (Buffers <$> files p).

Record pool_ok (A0 : gmap Z Z) p : Prop := PoolOk {
  pk_files : Forall file_ok (files p);
  pk_next : 1 <= g_nextCookie p;
  pk_cap : g_totalAllocatedBytes p <= RKMPP_MAX_GLOBAL_BYTES;
  pk_prov : exists w A, prov p = Some w /\ prov_holds w A /\
    holding A0 (all_bufs p) (g_nextCookie p) (g_totalAllocatedBytes p) (led p) A;
}.

(** Documented contract of the kernel's answers to one allocation. *)
Record answers_ok p (InSize : Z) (a : answers) : Prop := AnswersOk {
  ao_contig kva pfns : a_contig a = Some (kva, pfns) ->
    kva <> 0 /\ Z.land kva 0xFFF = 0 /\ (kva ∉ l_contig (led p)) /\
    forall r, RkMppBufRoundSize InSize = inr r -> r / 4096 <= Z.of_nat (length pfns);
  ao_user uva : a_user a = Some uva -> uva <> 0 /\ (a_process a, uva) ∉ l_user (led p);
  ao_process : a_process a <> 0;
}.

Lemma all_bufs_update (l : list file_ctx) f c c' b :
  l !! f = Some c -> Buffers c' ≡ₚ b :: Buffers c ->
  mjoin (Buffers <$> <[f:=c']> l) ≡ₚ b :: mjoin (Buffers <$> l).
Proof.
  revert f. induction l as [|x l IH]; intros [|f]; csimpl; [done|done| |].
  - intros [= ->] ->. done.
  - intros Hf Hb. rewrite (IH f Hf Hb). by rewrite Permutation_middle.
Qed.

Lemma all_bufs_same (l : list file_ctx) f c c' :
  l !! f = Some c -> Buffers c' = Buffers c ->
  mjoin (Buffers <$> <[f:=c']> l) = mjoin (Buffers <$> l).
Proof.
  revert f. induction l as [|x l IH]; intros [|f]; csimpl; [done|done| |].
  - by intros [= ->] ->.
  - intros Hf Hb. by rewrite (IH f Hf Hb).
Qed.

(** *** Undoing a partial allocation

    [staged]: the quota of [size] is charged to file [f] on top of [p]. *)
Definition staged f (size : Z) p q : Prop :=
  exists c c', files p !! f = Some c /\ charge_file c size = Some c' /\
    files q = <[f:=c']> (files p) /\ g_totalAllocatedBytes q = g_totalAllocatedBytes p + size.

Definition restore p q : pool W :=
  q <| files := files p |> <| g_totalAllocatedBytes := g_totalAllocatedBytes p |> <| led := led p |>.

Lemma file_ok_nonneg c : file_ok c -> (forall b, b ∈ Buffers c -> good_buf b) ->
  0 <= AllocatedBytes c /\ 0 <= BufferCount c.
Proof.
  intros (Hn & Hb & _) Hg. split; [|lia]. rewrite Hb. clear Hn Hb.
  induction (Buffers c) as [|b l IH]; simpl; [done|].
  pose proof (gb_size b (Hg b (list_elem_of_here b l))).
  assert (0 <= sum_sizes l); [|lia]. apply IH. intros b' Hb'. apply Hg. by right.
Qed.

Lemma pool_file A0 p f c :
  pool_ok A0 p -> files p !! f = Some c ->
  file_ok c /\ 0 <= AllocatedBytes c /\ 0 <= BufferCount c /\
  (forall b, b ∈ Buffers c -> good_buf b /\ b ∈ all_bufs p).
Proof.
  intros [Hf _ _ (w & A & _ & _ & H)] Hc.
  assert (Hin : forall b, b ∈ Buffers c -> b ∈ all_bufs p).
  { intros b Hb. unfold all_bufs. apply list_elem_of_join. exists (Buffers c).
    split; [done|]. apply list_elem_of_fmap_2. by eapply list_elem_of_lookup_2. }
  assert (Hg : forall b, b ∈ Buffers c -> good_buf b) by (intros b Hb; eapply h_good; eauto).
  pose proof (Forall_lookup_1 _ _ _ _ Hf Hc) as Hok.
  destruct (file_ok_nonneg c Hok Hg). eauto 10.
Qed.

Lemma release_staged A0 f size p q :
  pool_ok A0 p -> 0 < size -> staged f size p q -> led q = led p ->
  RkMppBufReleaseQuota f size q = Some (restore p q).
Proof.
  intros Hok Hs (c & c' & Hc & Hch & Hf & Ht) Hl. unfold RkMppBufReleaseQuota.
  destruct (pool_file A0 p f c Hok Hc) as (_ & Hb & Hn & _).
  rewrite Hf, list_lookup_insert_eq by (by eapply lookup_lt_Some). ostep.
  rewrite (uncharge_charge c c' size) by done.
  unfold restore, upd_file, set_field. simpl. rewrite Hf, Ht, Hl, list_insert_insert_eq.
  rewrite list_insert_id by done. f_equal. f_equal. lia.
Qed.

Lemma undo_mem_staged A0 f size kva p q :
  pool_ok A0 p -> 0 < size -> staged f size p q -> kva ∉ l_contig (led p) ->
  led q = (led p) <| l_contig ::= fun s => {[kva]} ∪ s |> ->
  undo_mem f kva size q = Some (restore p q).
Proof.
  intros Hok Hs St Hk Hl. unfold undo_mem.
  rewrite (release_staged A0 f size p); [by destruct q|done..|].
  unfold on_led, set_field. simpl. rewrite Hl. unfold set_field. simpl.
  destruct (led p). simpl in *. f_equal. set_solver.
Qed.

Lemma undo_mdl_staged A0 f size kva p q :
  pool_ok A0 p -> 0 < size -> staged f size p q -> kva ∉ l_contig (led p) -> kva ∉ l_mdl (led p) ->
  led q = (led p) <| l_contig ::= fun s => {[kva]} ∪ s |> <| l_mdl ::= fun s => {[kva]} ∪ s |> ->
  undo_mdl f kva size q = Some (restore p q).
Proof.
  intros Hok Hs St Hk Hm Hl. unfold undo_mdl.
  rewrite (undo_mem_staged A0 f size kva p); [by destruct q|done..|].
  unfold on_led, set_field. simpl. rewrite Hl. unfold set_field. simpl.
  destruct (led p). simpl in *. f_equal. set_solver.
Qed.

Lemma restore_ok A0 p q w A :
  pool_ok A0 p -> g_nextCookie p <= g_nextCookie q -> prov q = Some w -> prov_holds w A ->
  holding A0 (all_bufs p) (g_nextCookie p) (g_totalAllocatedBytes p) (led p) A ->
  pool_ok A0 (restore p q).
Proof.
  intros [Hf Hn Hc _] Hle Hq Hw Hh. constructor; simpl; [done|lia|done|].
  exists w, A. split; [done|]. split; [done|]. by eapply holding_next.
Qed.

Lemma reserve_outcome A0 f size p c :
  pool_ok A0 p -> files p !! f = Some c -> 0 < size <= RKMPP_MAX_BUFFER_BYTES ->
  RkMppBufReserveQuota f size p = Some (STATUS_QUOTA_EXCEEDED, p) \/
  exists q, RkMppBufReserveQuota f size p = Some (STATUS_SUCCESS, q) /\
    staged f size p q /\ led q = led p /\ prov q = prov p /\ g_nextCookie q = g_nextCookie p /\
    g_totalAllocatedBytes q <= RKMPP_MAX_GLOBAL_BYTES.
Proof.
  intros Hok Hc Hs. unfold RkMppBufReserveQuota.
  destruct (Z.ltb_spec RKMPP_MAX_FILE_BYTES size); [by left|]. rewrite Hc. ostep.
  destruct (charge_file c size) as [c'|] eqn:Hch; [|by left].
  destruct (pool_file A0 p f c Hok Hc) as (_ & Hb & Hn & _).
  destruct (Z.ltb_spec RKMPP_MAX_GLOBAL_BYTES (g_totalAllocatedBytes p + size)).
  - left. rewrite (uncharge_charge c c' size) by (done || lia).
    unfold upd_file, set_field. rewrite list_insert_id by done. by destruct p.
  - right. eexists. split; [reflexivity|]. split; [|done].
    exists c, c'. done.
Qed.
(** *** Allocation *)
Definition alloc_failed p (s : NTSTATUS) (o : option alloc_out) q : Prop :=
  NT_SUCCESS s = false /\ o = None /\ files q = files p /\ led q = led p /\
  g_totalAllocatedBytes q = g_totalAllocatedBytes p.

Definition alloc_added p f (c : file_ctx) (InSize : Z) (s : NTSTATUS) (o : option alloc_out) q : Prop :=
  s = STATUS_SUCCESS /\ exists b c', RkMppBufRoundSize InSize = inr (Size b) /\
    o = Some (AllocOut (Cookie b) (Iova b) (UserVa b) (Size b)) /\
    Cookie b = g_nextCookie p + 1 /\ files q = <[f:=c']> (files p) /\
    Buffers c' = Buffers c ++ [b] /\ all_bufs q ≡ₚ b :: all_bufs p.

Lemma failed_restore p s q : NT_SUCCESS s = false -> alloc_failed p s None (restore p q).
Proof. done. Qed.

Lemma held_mdl A0 p w A kva :
  pool_ok A0 p -> prov p = Some w ->
  holding A0 (all_bufs p) (g_nextCookie p) (g_totalAllocatedBytes p) (led p) A ->
  (kva ∉ l_contig (led p)) -> (kva ∉ l_mdl (led p)).
Proof. intros _ _ Hh Hk. by rewrite (h_mdl _ _ _ _ _ _ Hh), <- (h_contig _ _ _ _ _ _ Hh). Qed.

Lemma alloc_commit A0 p f c c' q A w base pages_n b :
  pool_ok A0 p -> files p !! f = Some c -> charge_file c (Size b) = Some c' ->
  holding A0 (all_bufs p) (g_nextCookie p) (g_totalAllocatedBytes p) (led p) A ->
  good_buf b -> Iova b = base * 4096 -> pages_n = Size b / 4096 -> A !! base = None ->
  (KernelVa b ∉ l_contig (led p)) -> (user_key b ∉ l_user (led p)) ->
  Cookie b = g_nextCookie p + 1 ->
  prov_holds w (<[base:=pages_n]> A) ->
  files q = <[f := c' <| Buffers ::= fun l => l ++ [b] |>]> (files p) ->
  g_totalAllocatedBytes q = g_totalAllocatedBytes p + Size b ->
  g_totalAllocatedBytes q <= RKMPP_MAX_GLOBAL_BYTES ->
  g_nextCookie q = Cookie b -> prov q = Some w ->
  led q = Ledger ({[KernelVa b]} ∪ l_contig (led p)) ({[KernelVa b]} ∪ l_mdl (led p))
            ({[user_key b]} ∪ l_user (led p)) ({[Cookie b]} ∪ l_node (led p))
            ({[+ OwnerProcess b +]} ⊎ l_ref (led p)) ->
  pool_ok A0 q /\ all_bufs q ≡ₚ b :: all_bufs p.
Proof.
  intros Hok Hc Hch Hh Hg Hi Hn HA Hk Hu Hck Hw Hf Ht Hcap Hnx Hpv Hl.
  pose proof (pk_next _ _ Hok) as Hnext.
  assert (Hperm : all_bufs q ≡ₚ b :: all_bufs p).
  { unfold all_bufs. rewrite Hf. apply (all_bufs_update _ f c); [done|]. simpl.
    rewrite (charge_buffers c c' _ Hch). by rewrite Permutation_app_comm. }
  split; [|done]. constructor.
  - rewrite Hf. apply Forall_insert; [apply Hok|].
    apply (charge_add c); [|done]. by destruct (pool_file A0 p f c Hok Hc).
  - lia.
  - done.
  - exists w, (<[base:=pages_n]> A). split; [done|]. split; [done|].
    apply (holding_perm A0 (b :: all_bufs p)); [done|]. rewrite Hl, Ht, Hnx, Hn.
    assert (base = Iova b / 4096) as -> by (rewrite Hi; by rewrite Z.div_mul).
    apply (holding_add A0 (all_bufs p) (g_nextCookie p)); try done; lia.
Qed.

Lemma alloc_outcome_pool A0 p f c u sz a :
  pool_ok A0 p -> files p !! f = Some c -> 0 <= sz < 2 ^ 32 -> answers_ok p sz a ->
  g_nextCookie p + 1 < 2 ^ 64 ->
  exists s o q, RkMppBufAlloc f u sz a p = Some (s, o, q) /\ pool_ok A0 q /\
    (alloc_added p f c sz s o q \/ alloc_failed p s o q).
Proof.
  intros Hok Hc Hsz [Hac Hau Hap] Hck. unfold RkMppBufAlloc.
  destruct (RkMppBufUsageValid u); cbn [negb].
  2: { eexists _, _, p. split; [done|]. split; [done|]. by right. }
  destruct (RkMppBufRoundSize sz) as [st|r] eqn:Er.
  { eexists _, _, p. split; [done|]. split; [done|]. right.
    revert Er. unfold RkMppBufRoundSize. repeat case_match; intros [= <-]; done. }
  destruct (round_size_ok sz r Hsz Er) as (Hr & Hrm & _).
  destruct (reserve_outcome A0 f r p c Hok Hc Hr) as [E|(q & E & St & Hl & Hp & Hn & Hcap)];
    rewrite E; ostep.
  { change (NT_SUCCESS STATUS_QUOTA_EXCEEDED) with false. cbn [negb].
    eexists _, _, p. split; [done|]. split; [done|]. by right. }
  change (NT_SUCCESS STATUS_SUCCESS) with true. cbn [negb].
  destruct (pk_prov _ _ Hok) as (w & A & Hpw & Hw & Hh).
  assert (Hr0 : 0 < r) by lia.
  assert (Hres : forall q', g_nextCookie p <= g_nextCookie q' -> forall w', prov q' = Some w' ->
    prov_holds w' A -> pool_ok A0 (restore p q')) by (intros; by eapply restore_ok).
  destruct (a_contig a) as [[kva pfns]|].
  2: { rewrite (release_staged A0 f r p q) by done. ostep.
       eexists _, _, _. split; [done|]. split; [|by right].
       apply (Hres q ltac:(lia) w); congruence. }
  destruct (Hac kva pfns eq_refl) as (Hk0 & Hka & Hkf & Hlen). specialize (Hlen r eq_refl).
  pose proof (held_mdl A0 p w A kva Hok Hpw Hh Hkf) as Hkm.
  destruct (a_mdl a); cbn [negb].
  2: { rewrite (undo_mem_staged A0 f r kva p);
         [|done|done|exact St|done|unfold on_led, set_field; simpl; by rewrite Hl]. ostep.
       eexists _, _, _. split; [done|]. split; [|by right].
       refine (Hres _ _ w _ _); [simpl; lia|simpl; by rewrite Hp|done]. }
  assert (Hpq : prov (on_led (fun l => l <| l_mdl ::= fun s => {[kva]} ∪ s |>)
                 (on_led (fun l => l <| l_contig ::= fun s => {[kva]} ∪ s |>) q)) = Some w)
    by (simpl; congruence).
  rewrite Hpq.
  set (mdl := Mdl kva r pfns).
  assert (Hspan : span_pages (MdlVa mdl) (MdlByteCount mdl) = r / 4096) by (apply span_rounded; done).
  destruct (prov_map_law w A mdl u Hw) as (s & iova & w' & Em & Ho);
    [rewrite Hspan; zdm|rewrite Hspan; done|].
  rewrite Em. ostep.
  destruct Ho as [(-> & base & -> & Hb0 & HAb & Hw')|[Hs Hw']].
  2: { rewrite Hs. cbn [negb]. rewrite (undo_mdl_staged A0 f r kva p);
         [|done|done|exact St|done|done|unfold on_led, set_field; simpl; by rewrite Hl]. ostep.
       eexists _, _, _. split; [done|]. split; [|by right].
       eapply Hres; [simpl; lia|done|done]. }
  change (NT_SUCCESS STATUS_SUCCESS) with true. cbn [negb]. rewrite Hspan in Hw'.
  destruct (prov_unmap_law w' _ base (r / 4096) Hw' Hb0) as (w2 & Eu & Hw2); [apply lookup_insert_eq|].
  rewrite delete_insert_id in Hw2 by done.
  destruct (a_user a) as [uva|].
  2: { unfold undo_iommu. rewrite Eu. ostep. rewrite (undo_mdl_staged A0 f r kva p);
         [|done|done|exact St|done|done|unfold on_led, set_field; simpl; by rewrite Hl]. ostep.
       eexists _, _, _. split; [done|]. split; [|by right].
       eapply Hres; [simpl; lia|done|done]. }
  destruct (Hau uva eq_refl) as [Hu0 Huf].
  assert (Hcookie : next_cookie (g_nextCookie q) = g_nextCookie p + 1).
  { pose proof (pk_next _ _ Hok). unfold next_cookie. rewrite Hn, u64_small by lia.
    destruct (Z.eqb_spec (g_nextCookie p + 1) 0); [lia|done]. }
  cbn [g_nextCookie]. simpl (g_nextCookie _). rewrite Hcookie.
  destruct (a_node a); cbn [negb].
  2: { unfold undo_iommu. rewrite Eu. ostep. rewrite (undo_mdl_staged A0 f r kva p);
         [|done|done|exact St|done|done|].
       - ostep. eexists _, _, _. split; [done|]. split; [|by right].
         eapply Hres; [simpl; lia|done|done].
       - unfold on_led, set_field. simpl. rewrite Hl. f_equal. set_solver. }
  destruct St as (c0 & c' & Hc0 & Hch & Hf & Ht). assert (c0 = c) as -> by congruence.
  simpl (files _ !! f). rewrite Hf, list_lookup_insert_eq by (by eapply lookup_lt_Some). ostep.
  set (b := Buffer (g_nextCookie p + 1) kva (Some mdl) uva (base * 4096) r (a_process a)).
  eexists _, _, _. split; [reflexivity|].
  match goal with |- pool_ok _ ?x /\ _ => set (q' := x) end.
  assert (Hfq : files q' = <[f := c' <| Buffers ::= fun l => l ++ [b] |>]> (files p)).
  { unfold q'. simpl. by rewrite Hf, list_insert_insert_eq. }
  destruct (alloc_commit A0 p f c c' q' A w' base (r / 4096) b) as [Hok' Hperm]; try done.
  - constructor; simpl; (done || lia || auto). split; [lia|by apply Z.mod_mul].
  - unfold q'. simpl. rewrite Hl. unfold user_key. simpl. done.
  - split; [done|]. left. split; [done|]. exists b. eexists. split; [done|]. split; [done|].
    split; [done|]. split; [exact Hfq|]. split; [|done]. simpl. by rewrite (charge_buffers c c' r).
Qed.
(** *** Release *)
Definition freed p f (b : buffer) (l : list buffer) q : Prop :=
  exists c', files q = <[f:=c']> (files p) /\ Buffers c' = l /\ all_bufs p ≡ₚ b :: all_bufs q /\
    l_contig (led q) = l_contig (led p) ∖ {[KernelVa b]} /\
    l_mdl (led q) = l_mdl (led p) ∖ {[KernelVa b]} /\
    l_node (led q) = l_node (led p) ∖ {[Cookie b]} /\
    l_ref (led q) = l_ref (led p) ∖ {[+ OwnerProcess b +]} /\
    g_totalAllocatedBytes q = g_totalAllocatedBytes p - Size b.

Lemma free_buffer A0 p f c b l acq :
  pool_ok A0 p -> files p !! f = Some c -> Buffers c ≡ₚ b :: l ->
  exists q1 q, RkMppBufReleaseQuota f (Size b) (upd_file f (c <| Buffers := l |>) p) = Some q1 /\
    RkMppBufFreeOne acq b q1 = Some q /\ pool_ok A0 q /\ freed p f b l q.
Proof.
  intros Hok Hc Hp. destruct (pool_file A0 p f c Hok Hc) as (Hfc & Hb & Hn & Hbufs).
  destruct (Hbufs b) as [Hg Hin]; [rewrite Hp; by left|].
  destruct (pk_prov _ _ Hok) as (w & A & Hpw & Hw & Hh).
  pose proof (lookup_lt_Some _ _ _ Hc) as Hlt.
  set (c' := uncharge_file (c <| Buffers := l |>) (Size b)).
  assert (Hall : all_bufs p ≡ₚ b :: mjoin (Buffers <$> <[f:=c']> (files p))).
  { rewrite <- (all_bufs_update (<[f:=c']> (files p)) f c' c b).
    - by rewrite list_insert_insert_eq, list_insert_id.
    - by rewrite list_lookup_insert_eq.
    - done. }
  assert (Hsum : 0 <= sum_sizes l).
  { assert (Hgl : forall x, x ∈ l -> 0 < Size x)
      by (intros x Hx; apply gb_size; apply Hbufs; rewrite Hp; by right).
    clear -Hgl. induction l as [|x l IH]; simpl; [done|].
    pose proof (Hgl x (list_elem_of_here x l)).
    assert (0 <= sum_sizes l) by (apply IH; intros y Hy; apply Hgl; by right). lia. }
  unfold RkMppBufReleaseQuota, upd_file at 1. simpl (files _).
  rewrite list_lookup_insert_eq by done. ostep. eexists. 
  pose proof (holding_perm A0 _ _ _ _ _ _ Hall Hh) as Hh'.
  pose proof (gb_iova b Hg) as [Hi Him].
  assert (HAb : A !! (Iova b / 4096) = Some (Size b / 4096)) by (apply (h_ranges _ _ _ _ _ _ Hh'); by left).
  destruct (prov_unmap_law w A (Iova b / 4096) (Size b / 4096) Hw) as (w' & Eu & Hw'); [zdm|done|].
  replace (Iova b / 4096 * 4096) with (Iova b) in Eu by zdm.
  destruct (gb_mdl b Hg) as [mdl Hmdl]. pose proof (gb_kva b Hg) as Hkva. pose proof (gb_proc b Hg) as Hpr.
  unfold RkMppBufFreeOne, unmap_iommu, unmap_user. rewrite Hmdl.
  destruct (Z.eqb_spec (Iova b) 0); [lia|]. destruct (Z.eqb_spec (KernelVa b) 0); [done|].
  destruct (Z.eqb_spec (OwnerProcess b) 0); [done|].
  set (ok := (negb (UserVa b =? 0) && negb false && NT_SUCCESS (acq (OwnerProcess b)))).
  set (us := if ok then l_user (led p) ∖ {[user_key b]} else l_user (led p)).
  assert (Hus : us = l_user (led p) ∖ {[user_key b]} \/ us = l_user (led p))
    by (unfold us; destruct ok; auto).
  exists (Pool (<[f:=c']> (files p)) (g_nextCookie p) (g_totalAllocatedBytes p - Size b)
            (Ledger (l_contig (led p) ∖ {[KernelVa b]}) (l_mdl (led p) ∖ {[KernelVa b]}) us
               (l_node (led p) ∖ {[Cookie b]}) (l_ref (led p) ∖ {[+ OwnerProcess b +]})) (Some w')).
  split; [reflexivity|]. split; [|split].
  - unfold us. subst c'. clearbody ok. clear -Hpw Eu. destruct p as [fs nx tot [lc lm lu ln lr] pv].
    simpl in Hpw. subst pv. unfold on_led, upd_file, set_field.
    destruct ok; simpl; rewrite Eu; ostep; simpl; by rewrite list_insert_insert_eq.
  - constructor; simpl.
    + apply Forall_insert; [apply Hok|]. apply uncharge_remove; try done. by apply gb_size.
    + apply Hok.
    + pose proof (pk_cap _ _ Hok). pose proof (gb_size b Hg). lia.
    + exists w', (delete (Iova b / 4096) A). split; [done|]. split; [done|].
      by apply holding_remove.
  - exists c'. split; [done|]. split; [done|]. by split.
Qed.

Lemma free_if_not_in_use_outcome A0 p f c cookie InUse acq :
  pool_ok A0 p -> files p !! f = Some c ->
  exists s q, RkMppBufFreeIfNotInUse acq f cookie InUse p = Some (s, q) /\ pool_ok A0 q /\
    ((s = STATUS_DEVICE_BUSY /\ q = p /\ exists u, InUse = Some u /\ u cookie = true) \/
     (s = STATUS_NOT_FOUND /\ q = p /\ forall b, b ∈ Buffers c -> Cookie b <> cookie) \/
     (s = STATUS_SUCCESS /\ (forall u, InUse = Some u -> u cookie = false) /\
      exists b, b ∈ Buffers c /\ Cookie b = cookie /\ freed p f b (remove_cookie cookie (Buffers c)) q)).
Proof.
  intros Hok Hc. unfold RkMppBufFreeIfNotInUse. rewrite Hc. ostep.
  set (busy := match InUse with Some u => u cookie | None => false end).
  destruct busy eqn:Eb.
  { exists STATUS_DEVICE_BUSY, p. split; [done|]. split; [done|]. left. split; [done|].
    split; [done|]. unfold busy in Eb. destruct InUse as [u|]; [eauto|done]. }
  destruct (find_cookie cookie (Buffers c)) as [b|] eqn:Ef.
  - destruct (find_cookie_Some _ _ _ Ef) as [Hck Hp].
    destruct (free_buffer A0 p f c b _ acq Hok Hc Hp) as (q1 & q & E1 & E2 & Hok' & Hfr).
    change (c <| Buffers ::= remove_cookie cookie |>)
      with (c <| Buffers := remove_cookie cookie (Buffers c) |>).
    rewrite E1. ostep. rewrite E2. ostep. exists STATUS_SUCCESS, q. split; [done|]. split; [done|].
    right; right. split; [done|]. split.
    + intros u ->. exact Eb.
    + exists b. split; [rewrite Hp; by left|]. by split.
  - exists STATUS_NOT_FOUND, p. split; [done|]. split; [done|]. right; left.
    split; [done|]. split; [done|]. by apply find_cookie_None.
Qed.

Lemma free_all_outcome A0 acq f n : forall p c,
  pool_ok A0 p -> files p !! f = Some c -> n = length (Buffers c) ->
  exists q c', free_all_loop acq f n p = Some q /\ pool_ok A0 q /\
    files q = <[f:=c']> (files p) /\ Buffers c' = [] /\ AllocatedBytes c' = 0 /\
    BufferCount c' = 0 /\ all_bufs p ≡ₚ Buffers c ++ all_bufs q.
Proof.
  induction n as [|n IH]; intros p c Hok Hc Hlen; cbn [free_all_loop].
  - destruct (Buffers c) eqn:E; [|done]. exists p, c. split; [done|]. split; [done|].
    destruct (pool_file A0 p f c Hok Hc) as ((Hn & Hb & _) & _). rewrite E in Hn, Hb.
    by rewrite list_insert_id.
  - rewrite Hc. ostep. destruct (Buffers c) as [|b l] eqn:E; [done|]. injection Hlen as ->.
    destruct (free_buffer A0 p f c b l acq Hok Hc) as (q1 & q & E1 & E2 & Hok' & c1 & Hf & Hb & Hp & _);
      [by rewrite E|]. rewrite E1. ostep. rewrite E2. ostep.
    pose proof (lookup_lt_Some _ _ _ Hc) as Hlt.
    destruct (IH q c1 Hok') as (q' & c' & E3 & Hok'' & Hf' & Hb' & Hab & Hbc & Hp').
    + rewrite Hf. by rewrite list_lookup_insert_eq.
    + by rewrite Hb.
    + exists q', c'. split; [done|]. split; [done|]. rewrite Hf', Hf, list_insert_insert_eq.
      split; [done|]. do 3 (split; [done|]). rewrite Hp, Hp', Hb. done.
Qed.
End pool.
