(* ===== verification/BufPoolIommu.v ===== *)
(** * The v2 IOMMU driver as the pool's provider

    Discharges the interface [IommuProvider] with [RkIommuMapMdl] and
    [RkIommuUnmapMdl]: a provider state is the master's device, memory and
    registers, and what its clients hold is the range map of [dom_ok]. *)

From S2P Require Import Prelude Bitmap PgTable IovaAlloc PageWalk Mmio IommuHw IommuMap.
From S2P Require Import IommuMap BufPool.

Definition vdec_holds (w : world) (A : gmap Z Z) : Prop :=
  exists d, IsMaster (w_dev w) = true /\ Dom (w_dev w) = Some d /\ dom_ok d (w_mem w) A /\
    is_Some (A !! 0).

Lemma vdec_map_law w A m role :
  let n := span_pages (MdlVa m) (MdlByteCount m) in
  vdec_holds w A -> 0 < n -> n <= Z.of_nat (length (MdlPfnArray m)) ->
  exists s iova w', RkIommuMapMdl w m role = Some (s, iova, w') /\
    ((s = STATUS_SUCCESS /\ exists base, iova = base * 4096 /\ 0 < base /\ A !! base = None /\
        vdec_holds w' (<[base:=n]> A)) \/
     (NT_SUCCESS s = false /\ vdec_holds w' A)).
Proof.
  intros n (d & HM & HD & Hok & [m0 H0]) Hn Hlen.
  destruct (map_mdl_outcome w m role d A HM HD Hok Hn Hlen)
    as (s & iova & w' & d' & E & HD' & HM' & _ & Ho).
  exists s, iova, w'. split; [done|].
  destruct Ho as [(-> & base & -> & [Hb _] & Hok' & _)|(Hs & Hok' & _)]; [left|right].
  - split; [done|]. exists base. split; [done|].
    pose proof (ok_rep _ _ _ Hok) as R. pose proof (rep_range _ _ R _ _ H0) as Hr0.
    assert (Hfresh : A !! base = None)
      by (eapply free_run_fresh; [exact Hn|intros b k Hk; apply (rep_range _ _ R _ _ Hk)|exact Hb]).
    assert (Hne : base <> 0) by congruence. destruct Hb as (Hb0 & _).
    split; [lia|]. split; [done|]. exists d'. do 3 (split; [done|]).
    rewrite lookup_insert_ne by done. eauto.
  - split; [done|]. exists d'. do 3 (split; [done|]). eauto.
Qed.

Lemma vdec_unmap_law w A base n :
  vdec_holds w A -> 0 < base -> A !! base = Some n ->
  exists w', RkIommuUnmapMdl w (base * 4096) = Some (STATUS_SUCCESS, w') /\
    vdec_holds w' (delete base A).
Proof.
  intros (d & HM & HD & Hok & H0) Hb HA.
  destruct (unmap_mdl_outcome w base n d A HM HD Hok HA) as (w' & d' & E & HD' & HM' & _ & Hok' & _).
  exists w'. split; [done|]. exists d'. do 3 (split; [done|]).
  rewrite lookup_delete_ne by lia. done.
Qed.

#[export] Instance vdec_provider : IommuProvider world := {|
  prov_map := RkIommuMapMdl;
  prov_unmap := RkIommuUnmapMdl;
  prov_holds := vdec_holds;
  prov_map_law := vdec_map_law;
  prov_unmap_law := vdec_unmap_law;
|}.
