(* ===== verification/Quota.v ===== *)
(** * Quotas under concurrent allocations

    The reservation and release of [src/driver/shared/rkmpp/bufpool.c] as the
    other threads see them: each hold of the file lock is one step, and so is
    each access to the global total (the read, and the compare-exchange of
    RkMppBufReserveQuota; the InterlockedAdd64 of RkMppBufReleaseQuota).  The
    file steps are the [charge_file] and [uncharge_file] of [BufPool]. *)

From S2P Require Import Prelude BufPool.

(** Where a thread is; [T_Read cur] holds the total it last read. *)
Inductive pc := T_Start | T_Charged | T_Read (cur : Z) | T_Held | T_Releasing | T_Done.
Record thread := Thread { t_file : nat; t_size : Z; t_pc : pc }.
#[export] Instance eta_thread : Eta thread := fun t => Thread (t_file t) (t_size t) (t_pc t).

Record quota := QuotaSt { q_files : list file_ctx; q_total : Z; q_threads : list thread }.
#[export] Instance eta_quota : Eta quota := fun q =>
  QuotaSt (q_files q) (q_total q) (q_threads q).

(** One step of thread [t], given the files and the total: what becomes of
    them and where the thread goes. *)
Definition thread_step (t : thread) (fs : list file_ctx) (total : Z)
  : option (list file_ctx * Z * pc) :=
  let size := t_size t in
  match t_pc t with
  | T_Start =>
      if RKMPP_MAX_FILE_BYTES <? size then Some (fs, total, T_Done) else
      c ← fs !! t_file t;
      match charge_file c size with
      | None => Some (fs, total, T_Done)
      | Some c' => Some (<[t_file t := c']> fs, total, T_Charged)
      end
  | T_Charged => Some (fs, total, T_Read total)
  | T_Read cur =>
      let next := cur + size in
      if RKMPP_MAX_GLOBAL_BYTES <? next then
        c ← fs !! t_file t; Some (<[t_file t := uncharge_file c size]> fs, total, T_Done)
      else if total =? cur then Some (fs, next, T_Held)
      else Some (fs, total, T_Charged)
  | T_Held =>
      c ← fs !! t_file t; Some (<[t_file t := uncharge_file c size]> fs, total, T_Releasing)
  | T_Releasing => Some (fs, total - size, T_Done)
  | T_Done => None
  end.

Inductive quota_step : quota -> quota -> Prop :=
  | qs_thread q i t fs total p :
      q_threads q !! i = Some t -> thread_step t (q_files q) (q_total q) = Some (fs, total, p) ->
      quota_step q (QuotaSt fs total (<[i := t <| t_pc := p |>]> (q_threads q))).

(** Empty files, and any number of threads about to reserve. *)
Definition quota_init (q : quota) : Prop :=
  q_total q = 0 /\
  Forall (fun c => AllocatedBytes c = 0 /\ BufferCount c = 0) (q_files q) /\
  Forall (fun t => t_pc t = T_Start /\ 0 < t_size t) (q_threads q).

Inductive quota_reach : quota -> Prop :=
  | qr_init q : quota_init q -> quota_reach q
  | qr_step q q' : quota_reach q -> quota_step q q' -> quota_reach q'.

(** ** What the counters count *)
Definition counted_global (t : thread) : bool :=
  match t_pc t with T_Held | T_Releasing => true | _ => false end.
Definition counted_file (f : nat) (t : thread) : bool :=
  (t_file t =? f)%nat && match t_pc t with T_Charged | T_Read _ | T_Held => true | _ => false end.

Fixpoint tsum (g : thread -> Z) (l : list thread) : Z :=
  match l with [] => 0 | t :: l' => g t + tsum g l' end.

Definition global_charge (t : thread) : Z := if counted_global t then t_size t else 0.
Definition file_bytes (f : nat) (t : thread) : Z := if counted_file f t then t_size t else 0.
Definition file_count (f : nat) (t : thread) : Z := if counted_file f t then 1 else 0.

Lemma tsum_insert g l i t t' :
  l !! i = Some t -> tsum g (<[i:=t']> l) = tsum g l - g t + g t'.
Proof.
  revert i. induction l as [|x l IH]; intros [|i]; csimpl; [done|done| |].
  - intros [= ->]. lia.
  - intros Hi. rewrite (IH i Hi). lia.
Qed.

Lemma tsum_nonneg g l : (forall t, t ∈ l -> 0 <= g t) -> 0 <= tsum g l.
Proof.
  induction l as [|x l IH]; simpl; intros H; [done|].
  pose proof (H x (list_elem_of_here x l)).
  assert (0 <= tsum g l) by (apply IH; intros y Hy; apply H; by right). lia.
Qed.

Lemma tsum_ge g l i t :
  (forall t, t ∈ l -> 0 <= g t) -> l !! i = Some t -> g t <= tsum g l.
Proof.
  revert i. induction l as [|x l IH]; intros [|i]; csimpl; intros H; [done|done| |].
  - intros [= ->]. assert (0 <= tsum g l) by (apply tsum_nonneg; intros y Hy; apply H; by right). lia.
  - intros Hi. pose proof (H x (list_elem_of_here x l)).
    assert (g t <= tsum g l) by (eapply IH; [|exact Hi]; intros y Hy; apply H; by right). lia.
Qed.

Record quota_inv (q : quota) : Prop := QuotaInv {
  qi_size t : t ∈ q_threads q -> 0 < t_size t;
  qi_total : q_total q = tsum global_charge (q_threads q);
  qi_cap : q_total q <= RKMPP_MAX_GLOBAL_BYTES;
  qi_file f c : q_files q !! f = Some c ->
    AllocatedBytes c = tsum (file_bytes f) (q_threads q) /\
    BufferCount c = tsum (file_count f) (q_threads q) /\
    AllocatedBytes c <= RKMPP_MAX_FILE_BYTES /\ BufferCount c <= RKMPP_MAX_FILE_BUFFER_COUNT;
}.

Lemma tsum_start g l :
  Forall (fun t => t_pc t = T_Start /\ 0 < t_size t) l ->
  (forall t, t_pc t = T_Start -> g t = 0) -> tsum g l = 0.
Proof. intros Hl Hg. induction Hl as [|t l [Ht _] _ IH]; simpl; [done|]. rewrite (Hg t Ht). lia. Qed.

Lemma quota_init_inv q : quota_init q -> quota_inv q.
Proof.
  intros (Ht & Hf & Hth). constructor.
  - intros t Hin. by eapply Forall_forall in Hth as [_ H].
  - rewrite Ht. symmetry. apply (tsum_start _ _ Hth). intros t E. unfold global_charge, counted_global.
    by rewrite E.
  - rewrite Ht. done.
  - intros f c Hc. pose proof (Forall_lookup_1 _ _ _ _ Hf Hc) as [Hb Hn]. rewrite Hb, Hn.
    split; [|split; [|done]]; symmetry; apply (tsum_start _ _ Hth); intros t E;
      unfold file_bytes, file_count, counted_file; by rewrite E, andb_false_r.
Qed.

(** ** Preservation *)
Section step.
Context (q : quota) (i : nat) (t : thread).
Context (I : quota_inv q) (Hi : q_threads q !! i = Some t).

Let moved (p : pc) : list thread := <[i := t <| t_pc := p |>]> (q_threads q).

Lemma size_pos : 0 < t_size t.
Proof. apply (qi_size q I). by eapply list_elem_of_lookup_2. Qed.

Lemma moved_size p u : u ∈ moved p -> 0 < t_size u.
Proof.
  intros Hu. apply list_elem_of_lookup in Hu as [j Hj]. unfold moved in Hj.
  rewrite list_lookup_insert in Hj. case_decide as E.
  - injection Hj as <-. simpl. apply size_pos.
  - apply (qi_size q I). by eapply list_elem_of_lookup_2.
Qed.

Lemma global_move p :
  tsum global_charge (moved p)
  = q_total q - global_charge t + global_charge (t <| t_pc := p |>).
Proof. unfold moved. by rewrite (tsum_insert _ _ _ _ _ Hi), (qi_total q I). Qed.

(** The counters of the files after the move, when the step replaces the
    thread's file by one that differs by the change of its own charge. *)
Lemma files_move p c' :
  (forall c, q_files q !! t_file t = Some c ->
     AllocatedBytes c' = AllocatedBytes c - file_bytes (t_file t) t
                         + file_bytes (t_file t) (t <| t_pc := p |>) /\
     BufferCount c' = BufferCount c - file_count (t_file t) t
                      + file_count (t_file t) (t <| t_pc := p |>) /\
     AllocatedBytes c' <= RKMPP_MAX_FILE_BYTES /\ BufferCount c' <= RKMPP_MAX_FILE_BUFFER_COUNT) ->
  forall f c, (<[t_file t := c']> (q_files q)) !! f = Some c ->
    AllocatedBytes c = tsum (file_bytes f) (moved p) /\
    BufferCount c = tsum (file_count f) (moved p) /\
    AllocatedBytes c <= RKMPP_MAX_FILE_BYTES /\ BufferCount c <= RKMPP_MAX_FILE_BUFFER_COUNT.
Proof.
  intros Hc' f c. rewrite list_lookup_insert. unfold moved. rewrite !(tsum_insert _ _ _ _ _ Hi).
  case_decide as E.
  - destruct E as [<- Hlt]. intros [= <-].
    destruct (lookup_lt_is_Some_2 _ _ Hlt) as [c0 Hc0].
    destruct (qi_file q I _ _ Hc0) as (Hb & Hn & _). destruct (Hc' c0 Hc0) as (Hb' & Hn' & H1 & H2).
    split; [lia|split; [lia|done]].
  - intros Hc. destruct (qi_file q I _ _ Hc) as (Hb & Hn & H1 & H2).
    destruct (decide (t_file t = f)) as [<-|Hne].
    { exfalso. apply E. split; [done|]. by eapply lookup_lt_Some. }
    unfold file_bytes at 2 3, file_count at 2 3, counted_file. simpl.
    destruct (Nat.eqb_spec (t_file t) f); [done|]. simpl. rewrite Hb, Hn in *. repeat split; lia.
Qed.

(** Steps that leave the files alone. *)
Lemma files_stay p :
  file_bytes (t_file t) t = file_bytes (t_file t) (t <| t_pc := p |>) ->
  file_count (t_file t) t = file_count (t_file t) (t <| t_pc := p |>) ->
  forall f c, q_files q !! f = Some c ->
    AllocatedBytes c = tsum (file_bytes f) (moved p) /\
    BufferCount c = tsum (file_count f) (moved p) /\
    AllocatedBytes c <= RKMPP_MAX_FILE_BYTES /\ BufferCount c <= RKMPP_MAX_FILE_BUFFER_COUNT.
Proof.
  intros Hb Hn f c Hc. destruct (q_files q !! t_file t) as [c0|] eqn:E.
  - destruct (qi_file q I _ _ E) as (_ & _ & H1 & H2).
    apply (files_move p c0); [|by rewrite list_insert_id].
    intros c1 Hc1. assert (c1 = c0) as -> by congruence. repeat split; (lia || done).
  - unfold moved. rewrite !(tsum_insert _ _ _ _ _ Hi). destruct (qi_file q I _ _ Hc) as (Hb' & Hn' & H1 & H2).
    assert (t_file t <> f) by congruence.
    unfold file_bytes at 2 3, file_count at 2 3, counted_file. simpl.
    destruct (Nat.eqb_spec (t_file t) f); [done|]. simpl. rewrite Hb', Hn' in *. repeat split; lia.
Qed.

(** A thread whose charge is counted by its file: the undo never saturates. *)
Lemma uncharge_exact c :
  q_files q !! t_file t = Some c -> counted_file (t_file t) t = true ->
  AllocatedBytes (uncharge_file c (t_size t)) = AllocatedBytes c - t_size t /\
  BufferCount (uncharge_file c (t_size t)) = BufferCount c - 1 /\
  AllocatedBytes c - t_size t <= RKMPP_MAX_FILE_BYTES /\ BufferCount c - 1 <= RKMPP_MAX_FILE_BUFFER_COUNT.
Proof.
  intros Hc Hct. destruct (qi_file q I _ _ Hc) as (Hb & Hn & H1 & H2). pose proof size_pos.
  assert (t_size t <= AllocatedBytes c).
  { rewrite Hb. assert (file_bytes (t_file t) t = t_size t) as <- by (unfold file_bytes; by rewrite Hct).
    eapply tsum_ge; [|exact Hi]. intros u Hu. unfold file_bytes. pose proof (qi_size q I u Hu).
    destruct (counted_file (t_file t) u); lia. }
  assert (1 <= BufferCount c).
  { rewrite Hn. assert (file_count (t_file t) t = 1) as <- by (unfold file_count; by rewrite Hct).
    eapply tsum_ge; [|exact Hi]. intros u Hu. unfold file_count. destruct (counted_file (t_file t) u); lia. }
  unfold uncharge_file. simpl. destruct (Z.leb_spec (t_size t) (AllocatedBytes c)); [|lia].
  destruct (Z.ltb_spec 0 (BufferCount c)); lia.
Qed.
End step.

Ltac pc_facts E :=
  unfold global_charge, counted_global, file_bytes, file_count, counted_file; simpl;
  rewrite ?E, ?Nat.eqb_refl; simpl.

Lemma quota_step_inv q q' : quota_inv q -> quota_step q q' -> quota_inv q'.
Proof.
  intros I Hs. destruct Hs as [q i t fs total p Hi Hst].
  pose proof (size_pos q i t I Hi) as Hsz. pose proof (qi_cap q I) as Hcap.
  assert (Hall : total = q_total q - global_charge t + global_charge (t <| t_pc := p |>) /\
    total <= RKMPP_MAX_GLOBAL_BYTES /\
    forall f c, fs !! f = Some c ->
      AllocatedBytes c = tsum (file_bytes f) (<[i := t <| t_pc := p |>]> (q_threads q)) /\
      BufferCount c = tsum (file_count f) (<[i := t <| t_pc := p |>]> (q_threads q)) /\
      AllocatedBytes c <= RKMPP_MAX_FILE_BYTES /\ BufferCount c <= RKMPP_MAX_FILE_BUFFER_COUNT).
  2: { destruct Hall as (Ht & Hc & Hf). constructor; simpl; [|by rewrite (global_move q i t I Hi)|done|done].
       intros u. by apply moved_size. }
  unfold thread_step in Hst. destruct (t_pc t) as [| |cur| | |] eqn:E.
  - destruct (_ <? t_size t).
    { injection Hst as <- <- <-. split; [pc_facts E; lia|]. split; [done|].
      apply files_stay; try done; by pc_facts E. }
    destruct (q_files q !! t_file t) as [c|] eqn:Hc; [|discriminate]. simpl in Hst.
    destruct (charge_file c (t_size t)) as [c'|] eqn:Hch.
    2: { injection Hst as <- <- <-. split; [pc_facts E; lia|]. split; [done|].
         apply files_stay; try done; by pc_facts E. }
    injection Hst as <- <- <-. split; [pc_facts E; lia|]. split; [done|].
    apply files_move; try done. intros c0 Hc0. assert (c0 = c) as -> by congruence.
    unfold charge_file in Hch. destruct (_ || _) eqn:Eg; [done|]. injection Hch as <-.
    apply orb_false_iff in Eg as [Eg1 Eg2]. apply Z.leb_gt in Eg1. apply Z.ltb_ge in Eg2.
    pc_facts E. lia.
  - injection Hst as <- <- <-. split; [pc_facts E; lia|]. split; [done|].
    apply files_stay; try done; by pc_facts E.
  - destruct (Z.ltb_spec RKMPP_MAX_GLOBAL_BYTES (cur + t_size t)) as [Hgt|Hle].
    { destruct (q_files q !! t_file t) as [c|] eqn:Hc; [|discriminate]. simpl in Hst.
      injection Hst as <- <- <-. split; [pc_facts E; lia|]. split; [done|].
      destruct (uncharge_exact q i t I Hi c Hc) as (Hb & Hn & H1 & H2); [by pc_facts E|].
      apply files_move; try done. intros c0 Hc0. assert (c0 = c) as -> by congruence.
      rewrite Hb, Hn. pc_facts E. lia. }
    destruct (Z.eqb_spec (q_total q) cur) as [Heq|_].
    + injection Hst as <- <- <-. split; [pc_facts E; lia|]. split; [done|].
      apply files_stay; try done; by pc_facts E.
    + injection Hst as <- <- <-. split; [pc_facts E; lia|]. split; [done|].
      apply files_stay; try done; by pc_facts E.
  - destruct (q_files q !! t_file t) as [c|] eqn:Hc; [|discriminate]. simpl in Hst.
    injection Hst as <- <- <-. split; [pc_facts E; lia|]. split; [done|].
    destruct (uncharge_exact q i t I Hi c Hc) as (Hb & Hn & H1 & H2); [by pc_facts E|].
    apply files_move; try done. intros c0 Hc0. assert (c0 = c) as -> by congruence.
    rewrite Hb, Hn. pc_facts E. lia.
  - injection Hst as <- <- <-. split; [pc_facts E; lia|]. split; [lia|].
    apply files_stay; try done; by pc_facts E.
  - discriminate.
Qed.

Lemma quota_reach_inv q : quota_reach q -> quota_inv q.
Proof. induction 1; [by apply quota_init_inv|by eapply quota_step_inv]. Qed.
