(* ===== verification/BufPoolProps.v ===== *)
(** * Properties of the buffer pool

    What [src/driver/shared/rkmpp/bufpool.c] promises: an allocation either
    yields a tracked, mapped, charged buffer or leaves everything as it was;
    a release gives back exactly one buffer's objects; handles resolve only in
    the file they were issued to; and the quotas hold under any interleaving. *)

From stdpp Require Import gmultiset.
From S2P Require Import Prelude PgTable IovaAlloc DomainLife Mmio IommuHw IommuMap.
From S2P Require Import BufPool BufPoolFacts BufPoolIommu Quota PgTableProps IommuProps.

(** ** A concrete pool over the v2 driver, for the witnesses *)
Definition sample_pool : pool world :=
  Pool [FileCtx [] 0 0 0; FileCtx [] 0 0 0] 1 0 (Ledger ∅ ∅ ∅ ∅ ∅) (Some sample_world).

Lemma sample_pool_ok : pool_ok rcb_allocs sample_pool.
Proof.
  constructor; [|done|done|].
  - apply Forall_forall. intros c Hc.
    repeat (apply elem_of_cons in Hc as [-> |Hc]; [by repeat split|]). by apply elem_of_nil in Hc.
  - exists sample_world, rcb_allocs. split; [done|]. split.
    + exists (sample false).1. split; [done|]. split; [done|]. split; [exact sample_world_ok|].
      by exists 1.
    + constructor; simpl; try done; try (by intros b ?%elem_of_nil); try apply NoDup_nil_2.
      * intros base n H. by left.
      * intros base n H. split; [done|]. by intros b ?%elem_of_nil.
Qed.

Definition sample_answers : answers := Answers (Some (0x800000, [0x12; 0x13])) true (Some 0x7000) true 4.

Lemma sample_answers_ok : answers_ok sample_pool 5000 sample_answers.
Proof.
  constructor; [|intros uva [= <-]; split; [done|]; by intros ?%elem_of_empty|done].
  intros kva pfns [= <- <-]. split; [done|]. split; [reflexivity|].
  split; [by intros ?%elem_of_empty|]. intros r Hr. vm_compute in Hr. by injection Hr as <-.
Qed.

(** ** Allocation *)

(** C31: [RkMppBufAlloc] is all or nothing.  On every answer of the kernel and of
    the IOMMU it returns and keeps the pool invariant.  On success exactly one
    buffer is added, at the end of the file's list, of the requested size rounded
    up to pages and with a new handle, and the output describes it.  On failure
    the file lists, the quota totals and every kernel object are as before, and
    the IOMMU holds nothing more. *)
Theorem buf_alloc_all_or_nothing {W} `{!IommuProvider W} A0 (p : pool W) f c usage sz a :
  pool_ok A0 p -> files p !! f = Some c -> 0 <= sz < 2 ^ 32 -> answers_ok p sz a ->
  g_nextCookie p + 1 < 2 ^ 64 ->
  exists s o q, RkMppBufAlloc f usage sz a p = Some (s, o, q) /\ pool_ok A0 q /\
    ((s = STATUS_SUCCESS /\ exists b c', RkMppBufRoundSize sz = inr (Size b) /\
        o = Some (AllocOut (Cookie b) (Iova b) (UserVa b) (Size b)) /\
        Cookie b = g_nextCookie p + 1 /\ files q = <[f:=c']> (files p) /\
        Buffers c' = Buffers c ++ [b] /\ all_bufs q ≡ₚ b :: all_bufs p) \/
     (NT_SUCCESS s = false /\ o = None /\ files q = files p /\ led q = led p /\
      g_totalAllocatedBytes q = g_totalAllocatedBytes p)).
Proof. apply alloc_outcome_pool. Qed.

Lemma buf_alloc_all_or_nothing_witness :
  ('(s, o, q) ← RkMppBufAlloc 1 3 5000 sample_answers sample_pool; Some (s, o))
  = Some (STATUS_SUCCESS, Some (AllocOut 2 0xFFEFE000 0x7000 8192)) /\
  exists s o q, RkMppBufAlloc 1 3 5000 sample_answers sample_pool = Some (s, o, q) /\
    pool_ok rcb_allocs q /\
    ((s = STATUS_SUCCESS /\ exists b c', RkMppBufRoundSize 5000 = inr (Size b) /\
        o = Some (AllocOut (Cookie b) (Iova b) (UserVa b) (Size b)) /\
        Cookie b = 1 + 1 /\ files q = <[1%nat:=c']> (files sample_pool) /\
        Buffers c' = [] ++ [b] /\ all_bufs q ≡ₚ b :: all_bufs sample_pool) \/
     (NT_SUCCESS s = false /\ o = None /\ files q = files sample_pool /\ led q = led sample_pool /\
      g_totalAllocatedBytes q = 0)).
Proof.
  split; [vm_compute; reflexivity|].
  apply (buf_alloc_all_or_nothing rcb_allocs sample_pool 1 (FileCtx [] 0 0 0) 3 5000 sample_answers
           sample_pool_ok); [reflexivity|lia|exact sample_answers_ok|reflexivity].
Defined.

(** ** Release *)

(** [RkMppBufFreeIfNotInUse] refuses while the in-use predicate holds and
    reports an unknown handle, both without change; otherwise it removes exactly
    the named buffer and gives back its quota, its IOMMU range (the pool
    invariant), its MDL, memory, node and process reference. *)
Theorem buf_free_exact {W} `{!IommuProvider W} A0 (p : pool W) f c cookie InUse acq :
  pool_ok A0 p -> files p !! f = Some c ->
  exists s q, RkMppBufFreeIfNotInUse acq f cookie InUse p = Some (s, q) /\ pool_ok A0 q /\
    ((s = STATUS_DEVICE_BUSY /\ q = p /\ exists u, InUse = Some u /\ u cookie = true) \/
     (s = STATUS_NOT_FOUND /\ q = p /\ forall b, b ∈ Buffers c -> Cookie b <> cookie) \/
     (s = STATUS_SUCCESS /\ (forall u, InUse = Some u -> u cookie = false) /\
      exists b, b ∈ Buffers c /\ Cookie b = cookie /\
        freed p f b (remove_cookie cookie (Buffers c)) q)).
Proof. apply free_if_not_in_use_outcome. Qed.

Lemma buf_free_exact_witness :
  exists s q, RkMppBufFreeIfNotInUse (fun _ => 0) 0 7 (Some (fun c => c =? 9)) sample_pool = Some (s, q) /\
    pool_ok rcb_allocs q /\
    ((s = STATUS_DEVICE_BUSY /\ q = sample_pool /\
      exists u, Some (fun c => c =? 9) = Some u /\ u 7 = true) \/
     (s = STATUS_NOT_FOUND /\ q = sample_pool /\ forall b, b ∈ [] -> Cookie b <> 7) \/
     (s = STATUS_SUCCESS /\ (forall u, Some (fun c => c =? 9) = Some u -> u 7 = false) /\
      exists b, b ∈ [] /\ Cookie b = 7 /\ freed sample_pool 0 b (remove_cookie 7 []) q)).
Proof.
  apply (buf_free_exact rcb_allocs sample_pool 0 (FileCtx [] 0 0 0) 7 (Some (fun c => c =? 9)) _
           sample_pool_ok). reflexivity.
Defined.

(** [RkMppBufFreeAll] terminates and empties the file: its list is empty, its
    quota is zero, exactly its buffers have left the pool, and the invariant (so
    the objects and IOMMU ranges of every other file) is kept. *)
Theorem buf_free_all_drains {W} `{!IommuProvider W} A0 (p : pool W) f c acq :
  pool_ok A0 p -> files p !! f = Some c ->
  exists q c', RkMppBufFreeAll acq f p = Some q /\ pool_ok A0 q /\
    files q = <[f:=c']> (files p) /\ Buffers c' = [] /\ AllocatedBytes c' = 0 /\
    BufferCount c' = 0 /\ all_bufs p ≡ₚ Buffers c ++ all_bufs q.
Proof.
  intros Hok Hc. unfold RkMppBufFreeAll. rewrite Hc. ostep. by apply free_all_outcome.
Qed.

Lemma buf_free_all_drains_witness : exists p,
  ('(_, _, q) ← RkMppBufAlloc 1 3 5000 sample_answers sample_pool; Some q) = Some p /\
  exists q c' c, RkMppBufFreeAll (fun _ => 0) 1 p = Some q /\ pool_ok rcb_allocs q /\
    files q = <[1%nat:=c']> (files p) /\ Buffers c' = [] /\ AllocatedBytes c' = 0 /\
    BufferCount c' = 0 /\ all_bufs p ≡ₚ Buffers c ++ all_bufs q /\ length (Buffers c) = 1%nat.
Proof.
  destruct (alloc_outcome_pool rcb_allocs sample_pool 1 (FileCtx [] 0 0 0) 3 5000 sample_answers
              sample_pool_ok eq_refl ltac:(lia) sample_answers_ok eq_refl)
    as (s & o & p & E & Hok & [Ha|Hf]).
  - destruct Ha as (_ & b & c' & _ & _ & _ & Hfs & Hb & _). exists p.
    split; [rewrite E; reflexivity|].
    destruct (buf_free_all_drains rcb_allocs p 1 c' (fun _ => 0) Hok) as (q & c2 & H).
    + rewrite Hfs. reflexivity.
    + exists q, c2, c'. do 6 (split; [apply H|]).
      split; [apply H|]. rewrite Hb. reflexivity.
  - exfalso. assert (Hv : ('(s, o, q) ← RkMppBufAlloc 1 3 5000 sample_answers sample_pool; Some s)
                          = Some STATUS_SUCCESS) by (vm_compute; reflexivity).
    rewrite E in Hv. injection Hv as ->. destruct Hf as (Hf & _). discriminate Hf.
Defined.

(** ** Handles *)

(** A handle resolves in the file it was issued to, to its own buffer, and
    in no other file. *)
Theorem handles_are_per_file {W} `{!IommuProvider W} A0 (p : pool W) f c b g :
  pool_ok A0 p -> files p !! f = Some c -> b ∈ Buffers c -> is_Some (files p !! g) ->
  RkMppBufLookupIova p g (Cookie b)
  = Some (if decide (g = f) then (STATUS_SUCCESS, Iova b, Size b) else (STATUS_NOT_FOUND, 0, 0)) /\
  RkMppBufLookupMdl p g (Cookie b)
  = Some (if decide (g = f) then (STATUS_SUCCESS, BufMdl b) else (STATUS_NOT_FOUND, None)).
Proof.
  intros Hok Hc Hb [cg Hg]. destruct (pk_prov _ _ Hok) as (w & A & _ & _ & Hh).
  pose proof (h_cookie _ _ _ _ _ _ Hh) as Hnd.
  unfold RkMppBufLookupIova, RkMppBufLookupMdl, RkMppBufLookupIovaLocked, RkMppBufLookupMdlLocked.
  rewrite Hg. ostep.
  assert (Hfind : find_cookie (Cookie b) (Buffers cg) = if decide (g = f) then Some b else None);
    [|rewrite Hfind; by destruct (decide (g = f))].
  assert (Huniq : forall x, x ∈ all_bufs p -> b ∈ all_bufs p -> Cookie x = Cookie b -> x = b).
  { intros x Hx Hb' He. apply list_elem_of_lookup in Hx as [i Hi], Hb' as [j Hj].
    assert (i = j); [|congruence].
    eapply (NoDup_lookup _ _ _ (Cookie b) Hnd); rewrite list_lookup_fmap; [by rewrite Hi, <- He|by rewrite Hj]. }
  destruct (pool_file A0 p f c Hok Hc) as (_ & _ & _ & Hin).
  destruct (pool_file A0 p g cg Hok Hg) as (_ & _ & _ & Hing).
  case_decide as E.
  - subst g. assert (cg = c) as -> by congruence.
    destruct (find_cookie (Cookie b) (Buffers c)) as [x|] eqn:Ex.
    + destruct (find_cookie_Some _ _ _ Ex) as [Hx Hp]. f_equal. apply Huniq; [|by apply Hin|done].
      apply Hin. rewrite Hp. by left.
    + apply find_cookie_None with (b := b) in Ex; done.
  - apply find_cookie_None. intros x Hx He.
    assert (x = b) as -> by (apply Huniq; [by apply Hing|by apply Hin|done]).
    apply E. clear -Hnd Hc Hg Hb Hx.
    assert (Hnd' : NoDup (all_bufs p)) by (eapply NoDup_fmap_1; exact Hnd). unfold all_bufs in Hnd'.
    clear Hnd. revert f g Hc Hg Hnd'. induction (files p) as [|y l IH]; [done|].
    intros [|f] [|g] Hc Hg Hnd; simpl in *; csimpl in *; try done;
      apply NoDup_app in Hnd as (_ & Hd & Hl).
    + exfalso. injection Hc as ->. apply (Hd b Hb). apply list_elem_of_join. exists (Buffers cg).
      split; [done|]. apply list_elem_of_fmap_2. by eapply list_elem_of_lookup_2.
    + exfalso. injection Hg as ->. apply (Hd b Hx). apply list_elem_of_join. exists (Buffers c).
      split; [done|]. apply list_elem_of_fmap_2. by eapply list_elem_of_lookup_2.
    + f_equal. by apply IH.
Qed.

Lemma handles_are_per_file_witness : exists p b,
  ('(_, _, q) ← RkMppBufAlloc 1 3 5000 sample_answers sample_pool; Some q) = Some p /\
  Cookie b = 2 /\
  RkMppBufLookupIova p 0 (Cookie b) = Some (STATUS_NOT_FOUND, 0, 0) /\
  RkMppBufLookupMdl p 0 (Cookie b) = Some (STATUS_NOT_FOUND, None).
Proof.
  destruct (alloc_outcome_pool rcb_allocs sample_pool 1 (FileCtx [] 0 0 0) 3 5000 sample_answers
              sample_pool_ok eq_refl ltac:(lia) sample_answers_ok eq_refl)
    as (s & o & p & E & Hok & [Ha|Hf]).
  - destruct Ha as (_ & b & c' & _ & _ & Hck & Hfs & Hb & _). exists p, b.
    split; [rewrite E; reflexivity|]. split; [exact Hck|].
    apply (handles_are_per_file rcb_allocs p 1 c' b 0 Hok).
    + rewrite Hfs. reflexivity.
    + rewrite Hb. by left.
    + rewrite Hfs. by eexists.
  - exfalso. assert (Hv : ('(s, o, q) ← RkMppBufAlloc 1 3 5000 sample_answers sample_pool; Some s)
                          = Some STATUS_SUCCESS) by (vm_compute; reflexivity).
    rewrite E in Hv. injection Hv as ->. destruct Hf as (Hf & _). discriminate Hf.
Defined.

(** ** Quotas under interleaving *)

(** C37: under every interleaving of any number of reservations and releases, the
    global total never exceeds 4 GiB and no file exceeds its byte or buffer
    quota; the total is exactly the sum of the reservations held, so when all
    threads are done it is back to zero, like the counters of every file. *)
Theorem quotas_hold q :
  quota_reach q ->
  0 <= q_total q <= RKMPP_MAX_GLOBAL_BYTES /\
  (forall f c, q_files q !! f = Some c ->
     AllocatedBytes c <= RKMPP_MAX_FILE_BYTES /\ BufferCount c <= RKMPP_MAX_FILE_BUFFER_COUNT) /\
  q_total q = tsum global_charge (q_threads q) /\
  (Forall (fun t => t_pc t = T_Done) (q_threads q) ->
   q_total q = 0 /\ forall f c, q_files q !! f = Some c -> AllocatedBytes c = 0 /\ BufferCount c = 0).
Proof.
  intros Hr. pose proof (quota_reach_inv q Hr) as I. split.
  - split; [|apply I]. rewrite (qi_total q I). apply tsum_nonneg. intros t Ht.
    pose proof (qi_size q I t Ht). unfold global_charge. destruct (counted_global t); lia.
  - split; [intros f c Hc; by destruct (qi_file q I f c Hc) as (_ & _ & ? & ?)|].
    split; [apply I|]. intros Hd.
    assert (H0 : forall g l, Forall (fun t => t_pc t = T_Done) l ->
                 (forall t, t_pc t = T_Done -> g t = 0) -> tsum g l = 0).
    { intros g l Hl Hg. induction Hl as [|t l Ht _ IH]; simpl; [done|]. rewrite (Hg t Ht). lia. }
    split.
    + rewrite (qi_total q I). apply H0; [done|]. intros t E. unfold global_charge, counted_global.
      by rewrite E.
    + intros f c Hc. destruct (qi_file q I f c Hc) as (-> & -> & _).
      split; (apply H0; [done|]); intros t E; unfold file_bytes, file_count, counted_file;
        by rewrite E, andb_false_r.
Qed.

Lemma quotas_hold_witness :
  let q := QuotaSt [FileCtx [] 8192 1 0] 0 [Thread 0 8192 T_Charged; Thread 0 4096 T_Start] in
  0 <= q_total q <= RKMPP_MAX_GLOBAL_BYTES /\
  (forall f c, q_files q !! f = Some c ->
     AllocatedBytes c <= RKMPP_MAX_FILE_BYTES /\ BufferCount c <= RKMPP_MAX_FILE_BUFFER_COUNT) /\
  q_total q = tsum global_charge (q_threads q) /\
  (Forall (fun t => t_pc t = T_Done) (q_threads q) ->
   q_total q = 0 /\ forall f c, q_files q !! f = Some c -> AllocatedBytes c = 0 /\ BufferCount c = 0).
Proof.
  intros q. apply (quotas_hold q).
  apply (qr_step (QuotaSt [FileCtx [] 0 0 0] 0 [Thread 0 8192 T_Start; Thread 0 4096 T_Start])).
  - apply qr_init. split; [reflexivity|]. split; repeat constructor.
  - exact (qs_thread (QuotaSt [FileCtx [] 0 0 0] 0 [Thread 0 8192 T_Start; Thread 0 4096 T_Start])
             0 (Thread 0 8192 T_Start) [FileCtx [] 8192 1 0] 0 T_Charged eq_refl eq_refl).
Defined.
