(* ===== verification/JobQueue.v ===== *)
(** * The job queue of the rkvdec driver: data and lock-held operations

    Model of the bookkeeping half of [src/driver/rkvdec/job.c] and [job.h]: the
    job descriptors in the kernel pool, the queue with its two lists and two
    in-flight slots, selection and promotion, completion, and the sections of
    WAIT_JOB and of the owner drain that run under the queue lock.

    Jobs are named by their address.  Every access to a job goes through the
    pool [jobs]: following the address of a freed job, freeing twice or unlinking
    an entry that is on no list is [None]. *)

From S2P Require Import Prelude Mmio IommuMap BufPool.

#[export] Instance MDL_eq_dec : EqDecision MDL.
Proof. solve_decision. Defined.

(** ** The dense register bank (rkmpp_ioctl.h) *)
Definition RKMPP_DENSE_COMMON_FIRST : Z := 8.
Definition RKMPP_DENSE_COMMON_WORDS : Z := 25.
Definition RKMPP_DENSE_CPARAM_FIRST : Z := 64.
Definition RKMPP_DENSE_CPARAM_WORDS : Z := 49.
Definition RKMPP_DENSE_CADDR_FIRST : Z := 128.
Definition RKMPP_DENSE_CADDR_LAST : Z := 142.
Definition RKMPP_DENSE_CADDR_WORDS : Z := 15.
Definition RKMPP_DENSE_CODADDR_FIRST : Z := 160.
Definition RKMPP_DENSE_CODADDR_LAST : Z := 199.
Definition RKMPP_DENSE_CODADDR_WORDS : Z := 40.
Definition RKMPP_DENSE_HIPOC_FIRST : Z := 200.
Definition RKMPP_DENSE_HIPOC_WORDS : Z := 5.
Definition RKMPP_DENSE_STAT_FIRST : Z := 256.
Definition RKMPP_DENSE_STAT_WORDS : Z := 22.
Definition RKMPP_DENSE_KICK_REG_IDX : Z := 10.
Definition RKMPP_MAX_DENSE_IOVA_SLOTS : Z := 64.
Definition RKMPP_MAX_BUF_REFS : Z := 16.

Record dense_bank := DenseBk {
  Common : list Z; CodecParams : list Z; CommonAddr : list Z; CodecAddr : list Z;
  HighPoc : list Z; Stat : list Z }.
#[export] Instance eta_dense_bank : Eta dense_bank := fun b =>
  DenseBk (Common b) (CodecParams b) (CommonAddr b) (CodecAddr b) (HighPoc b) (Stat b).

Record iova_slot := IovaSlot { RegIdx : Z; IovaOffset : Z; SlotHandle : Z }.
Record buf_ref := BufRef { RefHandle : Z; RefRole : Z }.

Definition RkMppDenseIsAddressReg (reg_idx : Z) : bool :=
  ((RKMPP_DENSE_CADDR_FIRST <=? reg_idx) && (reg_idx <=? RKMPP_DENSE_CADDR_LAST)) ||
  (reg_idx =? 161) || (reg_idx =? 163) ||
  ((164 <=? reg_idx) && (reg_idx <=? 179)) ||
  (reg_idx =? 180) ||
  ((181 <=? reg_idx) && (reg_idx <=? 196)) ||
  (reg_idx =? 197) ||
  (reg_idx =? 160) || (reg_idx =? 162) || (reg_idx =? 167) || (reg_idx =? 168) ||
  (reg_idx =? 169) || (reg_idx =? 170) ||
  ((171 <=? reg_idx) && (reg_idx <=? 178)) ||
  (reg_idx =? 179).

(** ** RKMPP_JOB

    An owner is the index of a file object; [None] is the NULL owner of a foreign
    job.  The counted arrays are lists of their used part. *)
Record job := Job {
  Id : Z; Done : bool; Result : NTSTATUS; HardwareStatus : Z; StartQpc : Z; EndQpc : Z;
  Owner : option nat; BufRefs : list buf_ref;
  CleanMdls : list MDL; OutputFrameMdl : option MDL; ColmvCurMdl : option MDL;
  DenseKickValue : Z; DenseBank : dense_bank; DenseIovaSlots : list iova_slot;
  KickDecMode : Z; KickPrevDecMode : Z; KickPrevOwner : option nat;
  KickSwitchOwner : bool; KickSwitchMode : bool; KickPrevValid : bool;
  TargetCore : Z; OrphanOnComplete : bool; WaiterPin : Z }.
#[export] Instance eta_job : Eta job := fun j =>
  Job (Id j) (Done j) (Result j) (HardwareStatus j) (StartQpc j) (EndQpc j)
      (Owner j) (BufRefs j) (CleanMdls j) (OutputFrameMdl j) (ColmvCurMdl j)
      (DenseKickValue j) (DenseBank j) (DenseIovaSlots j)
      (KickDecMode j) (KickPrevDecMode j) (KickPrevOwner j)
      (KickSwitchOwner j) (KickSwitchMode j) (KickPrevValid j)
      (TargetCore j) (OrphanOnComplete j) (WaiterPin j).

(** A job just allocated, zeroed and with its event initialised. *)
Definition zero_bank : dense_bank :=
  DenseBk (replicate 25 0) (replicate 49 0) (replicate 15 0) (replicate 40 0)
          (replicate 5 0) (replicate 22 0).
Definition zero_job : job :=
  Job 0 false 0 0 0 0 None [] [] None None 0 zero_bank [] 0 0 None false false false 0 false 0.

(** ** RKMPP_PEER_KICK_PARAMS and RKMPP_JOB_QUEUE *)
Record peer_kick_params := PeerParams {
  Bank : dense_bank; BankBytes : Z; KickValue : Z; IovaSlots : list iova_slot;
  IovaSlotCount : Z; CompletionCookie : Z }.

(** sizeof(RKMPP_DENSE_BANK): 156 words. *)
Definition sizeof_DENSE_BANK : Z :=
  4 * (RKMPP_DENSE_COMMON_WORDS + RKMPP_DENSE_CPARAM_WORDS + RKMPP_DENSE_CADDR_WORDS +
       RKMPP_DENSE_CODADDR_WORDS + RKMPP_DENSE_HIPOC_WORDS + RKMPP_DENSE_STAT_WORDS).

Record queue := Queue {
  Pending : list Z; Completed : list Z; NextId : Z; LastIsrHwStatus : Z;
  LastOwner : option nat; LastDecMode : Z; LastValid : bool;
  OwnerLru : list (option nat * Z);
  CoreCount : Z; CoreIdle : Z; CorePending : list Z; InFlightPerCore : list (option Z);
  LastKickCore : Z;
  PeerOpen : bool; Peer : option (peer_kick_params -> NTSTATUS);
  KickActive : bool; KickRearm : bool }.
#[export] Instance eta_queue : Eta queue := fun q =>
  Queue (Pending q) (Completed q) (NextId q) (LastIsrHwStatus q)
        (LastOwner q) (LastDecMode q) (LastValid q) (OwnerLru q)
        (CoreCount q) (CoreIdle q) (CorePending q) (InFlightPerCore q) (LastKickCore q)
        (PeerOpen q) (Peer q) (KickActive q) (KickRearm q).

Definition RkMppJobQueueInit : queue :=
  Queue [] [] 0 0 None 0 false (replicate 4 (None, 0)) 1 1 [0; 0] [None; None] (-1)
        false None false false.

(** ** The device around the queue

    [devlog] is the ordered record of what the driver does outside the queue: the
    register accesses, the calls to the CCU and IOMMU interfaces, cache
    maintenance, events, peer kicks and work items. *)
Inductive ccu_op := FullCoreReset | AssertCoreReset | DeassertCoreReset | UngateLeafClocks | GateLeafClocks.
Inductive iommu_op := IommuDisable | IommuEnable | IommuFlushTlb.
Inductive effect :=
  | Mm (a : access)
  | CcuCall (op : ccu_op) (uid : Z)
  | IommuCall (op : iommu_op)
  | FlushIo (m : MDL)
  | SetEvent (j : Z)
  | PeerKick (p : peer_kick_params)
  | WorkItemEnqueue.

(** A file context: whether RkMppBufFileCtxInit has run on it, and its fields. *)
Record jfile := JFile { f_inited : bool; f_ctx : file_ctx }.
#[export] Instance eta_jfile : Eta jfile := fun f => JFile (f_inited f) (f_ctx f).

Record jdev := JDev {
  jobs : gmap Z job; qu : queue; jfiles : list jfile;
  NeedsCoreReset : Z; NeedsFullReset : Z; LastJobFailed : Z;
  qpc : Z; devlog : list effect }.
#[export] Instance eta_jdev : Eta jdev := fun d =>
  JDev (jobs d) (qu d) (jfiles d) (NeedsCoreReset d) (NeedsFullReset d) (LastJobFailed d)
       (qpc d) (devlog d).

(** What is fixed while the device runs: the register window, the device UID, and
    the CCU and IOMMU interfaces with the entries they provide. *)
Record ccu_ifc := Ccu {
  has_FullCoreReset : Z -> bool; has_CoreReset : Z -> bool;
  has_UngateLeafClocks : Z -> bool; has_GateLeafClocks : Z -> bool }.
Record iommu_ifc := Iommu {
  has_Disable : bool; has_Enable : bool; Enable_status : NTSTATUS; has_FlushTlb : bool }.
Record env := Env {
  MmioBase : bool; MmioLength : Z; Uid : Z; CcuIfc : option ccu_ifc; IommuIfc : option iommu_ifc }.

Definition log1 (x : effect) (s : jdev) : jdev := s <| devlog ::= fun l => l ++ [x] |>.
Definition on_q (g : queue -> queue) (s : jdev) : jdev := s <| qu ::= g |>.

(** [*j] read, [*j] written, the pool's free, and RemoveEntryList(&j->Link). *)
Definition deref (j : Z) (s : jdev) : option job := jobs s !! j.
Definition upd_job (j : Z) (g : job -> job) (s : jdev) : option jdev :=
  x ← jobs s !! j; Some (s <| jobs ::= insert j (g x) |>).
Definition free_job (j : Z) (s : jdev) : option jdev :=
  _ ← jobs s !! j; Some (s <| jobs ::= delete j |>).

Definition free_if (b : bool) (j : Z) (s : jdev) : option jdev :=
  if b then free_job j s else Some s.

Fixpoint list_remove_Z (j : Z) (l : list Z) : list Z :=
  match l with
  | [] => []
  | x :: l' => if x =? j then l' else x :: list_remove_Z j l'
  end.
Definition unlink (j : Z) (s : jdev) : option jdev :=
  _ ← jobs s !! j;
  if decide (j ∈ Pending (qu s)) then Some (on_q (fun q => q <| Pending ::= list_remove_Z j |>) s)
  else if decide (j ∈ Completed (qu s))
  then Some (on_q (fun q => q <| Completed ::= list_remove_Z j |>) s)
  else None.

Definition slot (c : Z) (q : queue) : option (option Z) := InFlightPerCore q !! Z.to_nat c.
Definition set_slot (c : Z) (v : option Z) (q : queue) : queue :=
  q <| InFlightPerCore ::= insert (Z.to_nat c) v |>.
Definition core_bit (c : Z) : Z := Z.shiftl 1 c.
Definition set_idle (c : Z) (q : queue) : queue :=
  q <| CoreIdle ::= fun m => Z.lor m (core_bit c) |>.
Definition clear_idle (c : Z) (q : queue) : queue :=
  q <| CoreIdle ::= fun m => Z.land m (u32 (Z.lnot (core_bit c))) |>.
Definition dec_pending (c : Z) (q : queue) : queue :=
  q <| CorePending ::= alter (fun n => if 0 <? n then n - 1 else n) (Z.to_nat c) |>.
Definition cores (q : queue) : list Z := seqZ 0 (CoreCount q).
Definition all_idle_mask (q : queue) : Z := Z.shiftl 1 (CoreCount q) - 1.

(** ** RkMppJobReferencesBuffer *)
Definition RkMppJobReferencesBuffer (j : option job) (File : nat) (Cookie : Z) : bool :=
  match j with
  | None => false
  | Some j =>
      if negb (bool_decide (Owner j = Some File)) || (Cookie =? 0) then false else
      existsb (fun x => SlotHandle x =? Cookie) (DenseIovaSlots j) ||
      existsb (fun x => RefHandle x =? Cookie) (BufRefs j)
  end.

(** The walk of a list or of the slots for the first job that satisfies [P]. *)
Fixpoint find_job (P : Z -> job -> bool) (l : list Z) (s : jdev) : option (option Z) :=
  match l with
  | [] => Some None
  | j :: l' => x ← deref j s; if P j x then Some (Some j) else find_job P l' s
  end.
Fixpoint find_slot (P : Z -> job -> bool) (l : list Z) (s : jdev) : option (option Z) :=
  match l with
  | [] => Some None
  | c :: l' =>
      v ← slot c (qu s);
      match v with
      | None => find_slot P l' s
      | Some j => x ← deref j s; if P j x then Some (Some j) else find_slot P l' s
      end
  end.

Definition is_found {A} (x : option A) : bool := match x with Some _ => true | None => false end.
Definition is_none {A} (x : option A) : bool := match x with None => true | Some _ => false end.

Definition RkMppJobQueueHasOtherOwner (File : nat) (s : jdev) : option bool :=
  let other := fun (_ : Z) x => negb (bool_decide (Owner x = Some File)) in
  a ← find_slot other (cores (qu s)) s;
  if is_found a then Some true else
  b ← find_job other (Pending (qu s)) s; Some (is_found b).

Definition RkMppJobBufferInUse (File : nat) (Cookie : Z) (s : jdev) : option bool :=
  let P := fun (_ : Z) x => RkMppJobReferencesBuffer (Some x) File Cookie in
  a ← find_slot P (cores (qu s)) s;
  if is_found a then Some true else
  b ← find_job P (Pending (qu s)) s;
  if is_found b then Some true else
  c ← find_job P (Completed (qu s)) s; Some (is_found c).

(** RkMppJobPeekDense: the kick value and the bank of one of the caller's jobs. *)
Definition RkMppJobPeekDense (File : nat) (JobId : Z) (s : jdev)
  : option (NTSTATUS * option (Z * dense_bank)) :=
  let P := fun (_ : Z) x => Id x =? JobId in
  a ← find_slot P (cores (qu s)) s;
  b ← (if is_found a then Some a else find_job P (Pending (qu s)) s);
  c ← (if is_found b then Some b else find_job P (Completed (qu s)) s);
  match c with
  | None => Some (STATUS_NOT_FOUND, None)
  | Some j =>
      x ← deref j s;
      if negb (bool_decide (Owner x = Some File)) then Some (STATUS_NOT_FOUND, None)
      else Some (STATUS_SUCCESS, Some (DenseKickValue x, DenseBank x))
  end.

(** ** Selection *)
Fixpoint lru_score (lru : list (option nat * Z)) (o : option nat) : Z :=
  match lru with
  | [] => 0
  | (f, k) :: lru' => if decide (f = o) then k else lru_score lru' o
  end.

Fixpoint lru_scan (lru : list (option nat * Z)) (l : list Z) (best chosen : Z) (s : jdev)
  : option Z :=
  match l with
  | [] => Some chosen
  | j :: l' =>
      x ← deref j s;
      let score := lru_score lru (Owner x) in
      if score <? best then if score =? 0 then Some j else lru_scan lru l' score j s
      else lru_scan lru l' best chosen s
  end.

Definition PickPendingByOwnerLru (s : jdev) : option (option Z * jdev) :=
  match Pending (qu s) with
  | [] => Some (None, s)
  | h :: _ =>
      j ← lru_scan (OwnerLru (qu s)) (Pending (qu s)) (2 ^ 64 - 1) h s;
      s ← unlink j s;
      Some (Some j, s)
  end.

Definition pick_core_step (q : queue) (mask : Z) (acc : Z * Z) (i : Z) : option (Z * Z) :=
  let '(best, bestPending) := acc in
  if negb (flag mask (core_bit i)) then Some acc else
  n ← CorePending q !! Z.to_nat i;
  if n <? bestPending then Some (i, n)
  else if (n =? bestPending) && (0 <=? best) && negb (i =? LastKickCore q) && (best =? LastKickCore q)
  then Some (i, bestPending) else Some acc.

Definition PickTargetCore (q : queue) : option Z :=
  let mask := Z.land (CoreIdle q) (all_idle_mask q) in
  if mask =? 0 then Some (-1) else
  '(best, _) ← foldlM (pick_core_step q mask) (-1, 2 ^ 32 - 1) (cores q); Some best.

(** The upsert of the per-owner table: the entry of the owner, else the entry
    with the lowest id seen before. *)
Fixpoint lru_slot (lru : list (option nat * Z)) (o : option nat) (i evict ev_id : Z) : Z :=
  match lru with
  | [] => evict
  | (f, k) :: lru' =>
      if decide (f = o) then i
      else if k <? ev_id then lru_slot lru' o (i + 1) i k
      else lru_slot lru' o (i + 1) evict ev_id
  end.
Definition lru_upsert (o : option nat) (id : Z) (lru : list (option nat * Z)) : list (option nat * Z) :=
  match o, lru with
  | Some _, (_, k0) :: _ => <[Z.to_nat (lru_slot lru o 0 0 k0) := (o, id)]> lru
  | _, _ => lru
  end.

(** One promotion: the job into the slot of the core, and the bookkeeping. *)
Definition promote_one (core j : Z) (s : jdev) : option jdev :=
  s ← upd_job j (fun x => x <| TargetCore := core |>) s;
  x ← deref j s;
  _ ← slot core (qu s);
  Some (on_q (fun q =>
    (clear_idle core (set_slot core (Some j) q))
      <| CorePending ::= alter (fun n => u32 (n + 1)) (Z.to_nat core) |>
      <| LastKickCore := core |>
      <| OwnerLru ::= lru_upsert (Owner x) (Id x) |>) s).

(** The loop runs at most [CoreCount] times ([n < q->CoreCount]). *)
Fixpoint promote_loop (fuel : nat) (s : jdev) : option (list (Z * Z) * jdev) :=
  match fuel with
  | O => Some ([], s)
  | S fuel' =>
      match Pending (qu s) with
      | [] => Some ([], s)
      | _ :: _ =>
          core ← PickTargetCore (qu s);
          if core <? 0 then Some ([], s) else
          '(oj, s) ← PickPendingByOwnerLru s;
          match oj with
          | None => Some ([], s)
          | Some j =>
              s ← promote_one core j s;
              '(ps, s) ← promote_loop fuel' s;
              Some ((j, core) :: ps, s)
          end
      end
  end.
Definition PromoteUntilFull (s : jdev) : option (list (Z * Z) * jdev) :=
  promote_loop (Z.to_nat (CoreCount (qu s))) s.

(** ** The deferred-kick worker's flags

    RkMppEnqueueKickWorker: one hold of the lock, then the enqueue. *)
Definition RkMppEnqueueKickWorker (s : jdev) : jdev :=
  let enqueue := negb (KickActive (qu s)) in
  let s := on_q (fun q => q <| KickRearm := true |>
                            <| KickActive ::= fun a => if enqueue then true else a |>) s in
  if enqueue then log1 WorkItemEnqueue s else s.

(** ** Completion *)
Definition RKVDEC2_INT_DEC_RDY_STA : Z := Z.shiftl 1 2.
Definition RKVDEC2_INT_DEC_ERROR_STA : Z := Z.shiftl 1 4.
Definition RKVDEC2_INT_DEC_TIMEOUT_STA : Z := Z.shiftl 1 5.
Definition RKVDEC2_INT_BUF_EMPTY_STA : Z := Z.shiftl 1 6.
Definition RKVDEC2_INT_COLMV_REF_ERROR : Z := Z.shiftl 1 7.
Definition RKVDEC2_INT_ERROR_MASK : Z :=
  Z.lor (Z.lor RKVDEC2_INT_DEC_ERROR_STA RKVDEC2_INT_DEC_TIMEOUT_STA)
        (Z.lor RKVDEC2_INT_BUF_EMPTY_STA RKVDEC2_INT_COLMV_REF_ERROR).

Definition job_failed (res : NTSTATUS) (hw : Z) : bool :=
  negb (NT_SUCCESS res) || flag hw RKVDEC2_INT_ERROR_MASK.

(** Charge the error to the context of the owner. *)
Definition charge_error (o : option nat) (s : jdev) : jdev :=
  match o with
  | None => s
  | Some f => s <| jfiles ::= alter (fun x => x <| f_ctx ::= fun c => c <| ErrorCount ::= fun n => n + 1 |> |>) f |>
  end.

(** The two-tier classification of RkMppJobComplete. *)
Definition classify (res : NTSTATUS) (hw : Z) (o : option nat) (s : jdev) : jdev :=
  if job_failed res hw then
    let stuck := flag hw RKVDEC2_INT_DEC_TIMEOUT_STA || (res =? STATUS_IO_TIMEOUT) in
    let s := if stuck then s <| NeedsFullReset := 1 |> else s <| NeedsCoreReset := 1 |> in
    charge_error o (s <| LastJobFailed := 1 |>)
  else s <| LastJobFailed := 0 |>.

Definition flush_opt (m : option MDL) (s : jdev) : jdev :=
  match m with Some m => log1 (FlushIo m) s | None => s end.

Definition gate (e : env) (s : jdev) : jdev :=
  match CcuIfc e with
  | Some ccu =>
      if ((Uid e =? 0) || (Uid e =? 1)) && has_GateLeafClocks ccu (Uid e)
      then log1 (CcuCall GateLeafClocks (Uid e)) s else s
  | None => s
  end.

(** The hold of the queue lock: [None] when nothing is in flight, otherwise the
    job, and whether to free it here, to wake the worker and to gate the clocks. *)
Definition complete_locked (res : NTSTATUS) (hw : Z) (s : jdev)
  : option (option (Z * bool * bool * bool) * jdev) :=
  v ← slot 0 (qu s);
  match v with
  | None => Some (None, s)
  | Some j =>
      s ← upd_job j (fun x => x <| EndQpc := qpc s |> <| Result := res |>
                                <| HardwareStatus := hw |>) s;
      x ← deref j s;
      let s := classify res hw (Owner x) s in
      let s := flush_opt (ColmvCurMdl x) (flush_opt (OutputFrameMdl x) s) in
      let orphan := OrphanOnComplete x in
      let pinned := 0 <? WaiterPin x in
      let freeHere := orphan && negb pinned in
      let s := if negb orphan || pinned
               then on_q (fun q => q <| Completed ::= fun l => l ++ [j] |>) s else s in
      s ← upd_job j (fun x => x <| Done := true |>) (log1 (SetEvent j) s);
      let c := TargetCore x in
      _ ← slot c (qu s);
      let s := on_q (fun q => dec_pending c (set_idle c (set_slot c None q))) s in
      let wantKick := match Pending (qu s) with [] => false | _ => true end in
      let idleAfter := (CoreIdle (qu s) =? all_idle_mask (qu s)) && negb wantKick in
      Some (Some (j, freeHere, wantKick, idleAfter), s)
  end.

Definition RkMppJobComplete (e : env) (res : NTSTATUS) (hw : Z) (s : jdev) : option jdev :=
  '(r, s) ← complete_locked res hw s;
  match (r : option (Z * bool * bool * bool)) with
  | None => Some s
  | Some (j, freeHere, wantKick, idleAfter) =>
      let s := if idleAfter then gate e s else s in
      s ← free_if freeHere j s;
      Some (if (wantKick : bool) then RkMppEnqueueKickWorker s else s)
  end.

(** RkMppPeerCompletion: the hold of the lock, then the event. *)
Definition peer_locked (Cookie : Z) (JobStatus : NTSTATUS) (hw : Z) (s : jdev)
  : option (option (Z * bool) * jdev) :=
  v ← slot 1 (qu s);
  match v with
  | None => Some (None, s)
  | Some j =>
      x ← deref j s;
      if negb (Id x =? Cookie) then Some (None, s) else
      s ← upd_job j (fun x => x <| EndQpc := qpc s |> <| Result := JobStatus |>
                                <| HardwareStatus := hw |>) s;
      let s := if job_failed JobStatus hw then charge_error (Owner x) s else s in
      let s := flush_opt (ColmvCurMdl x) (flush_opt (OutputFrameMdl x) s) in
      let s := on_q (fun q => dec_pending 1 (set_idle 1 (set_slot 1 None q))
                                <| Completed ::= fun l => l ++ [j] |>) s in
      let wantKick := match Pending (qu s) with [] => false | _ => true end in
      Some (Some (j, wantKick), s)
  end.

Definition signal (j : Z) (s : jdev) : option jdev :=
  upd_job j (fun x => x <| Done := true |>) (log1 (SetEvent j) s).

Definition RkMppPeerCompletion (Cookie : Z) (JobStatus : NTSTATUS) (hw : Z) (s : jdev) : option jdev :=
  '(r, s) ← peer_locked Cookie JobStatus hw s;
  match (r : option (Z * bool)) with
  | None => Some s
  | Some (j, wantKick) =>
      s ← signal j s;
      Some (if (wantKick : bool) then RkMppEnqueueKickWorker s else s)
  end.

(** ** WAIT_JOB *)
Record wait_out := WaitOut { OutStatus : NTSTATUS; OutHardwareStatus : Z; ElapsedQpc : Z }.

Definition wait_result (x : job) : wait_out :=
  let elapsed := EndQpc x - StartQpc x in
  WaitOut (Result x) (HardwareStatus x) (u64 (if elapsed <? 0 then 0 else elapsed)).

(** The lookup, in the code's order, and what it decides under the lock: an
    unknown job, a completed one (unlinked), or one to wait for (pinned). *)
Inductive wait_found := W_NotFound | W_Complete (j : Z) | W_Pinned (j : Z).

Definition wait_lookup (File : nat) (JobId : Z) (s : jdev) : option (wait_found * jdev) :=
  let P := fun (_ : Z) x => Id x =? JobId in
  a ← find_job P (Completed (qu s)) s;
  b ← (if is_found a then Some a
       else find_slot (fun _ x => (Id x =? JobId) && bool_decide (Owner x = Some File)) (cores (qu s)) s);
  c ← (if is_found b then Some b else find_job P (Pending (qu s)) s);
  match c with
  | None => Some (W_NotFound, s)
  | Some j =>
      x ← deref j s;
      if negb (bool_decide (Owner x = Some File)) then Some (W_NotFound, s)
      else if is_found a then s ← unlink j s; Some (W_Complete j, s)
      else s ← upd_job j (fun x => x <| WaiterPin ::= fun n => n + 1 |>) s; Some (W_Pinned j, s)
  end.

(** After a wait that ran out: unpin, and the last one unlinks a job that is
    pending or completed and abandons one that is in flight.  The result tells
    whether the job is to be freed. *)
Definition wait_timeout_locked (j : Z) (s : jdev) : option (bool * jdev) :=
  s ← upd_job j (fun x => x <| WaiterPin ::= fun n => n - 1 |>) s;
  x ← deref j s;
  if negb (WaiterPin x =? 0) then Some (false, s) else
  if decide (j ∈ Pending (qu s)) then s ← unlink j s; Some (true, s)
  else if decide (j ∈ Completed (qu s)) then s ← unlink j s; Some (true, s)
  else
    a ← find_slot (fun k _ => k =? j) (cores (qu s)) s;
    if is_found a then
      s ← upd_job j (fun x => x <| OrphanOnComplete := true |>) s; Some (false, s)
    else Some (false, s).

(** After a wait that was signalled: read the result, unpin, and the last one
    unlinks the job. *)
Definition wait_done_locked (j : Z) (s : jdev) : option (wait_out * bool * jdev) :=
  x ← deref j s;
  s ← upd_job j (fun x => x <| WaiterPin ::= fun n => n - 1 |>) s;
  y ← deref j s;
  if WaiterPin y =? 0 then s ← unlink j s; Some (wait_result x, true, s)
  else Some (wait_result x, false, s).

(** [wait] is KeWaitForSingleObject on the event of a job with all that other
    threads do meanwhile; its result tells whether the wait ran out. *)
Definition waiter : Type := Z -> jdev -> option (bool * jdev).

Definition RkMppJobWait (wait : waiter) (File : nat) (JobId : Z) (s : jdev)
  : option (NTSTATUS * option wait_out * jdev) :=
  '(r, s) ← wait_lookup File JobId s;
  match r with
  | W_NotFound => Some (STATUS_NOT_FOUND, None, s)
  | W_Complete j =>
      x ← deref j s;
      s ← free_job j s;
      Some (STATUS_SUCCESS, Some (wait_result x), s)
  | W_Pinned j =>
      '(timedOut, s) ← wait j s;
      if (timedOut : bool) then
        '(safeToFree, s) ← wait_timeout_locked j s;
        s ← free_if safeToFree j s;
        Some (STATUS_TIMEOUT, Some (WaitOut STATUS_TIMEOUT 0 0), s)
      else
        '(out, reapHere, s) ← wait_done_locked j s;
        s ← free_if reapHere j s;
        Some (STATUS_SUCCESS, Some out, s)
  end.

(** ** RkMppJobsDrainOwner *)
Fixpoint partition_jobs (P : job -> bool) (l : list Z) (s : jdev) : option (list Z * list Z) :=
  match l with
  | [] => Some ([], [])
  | j :: l' =>
      x ← deref j s;
      '(out, rest) ← partition_jobs P l' s;
      Some (if P x then (j :: out, rest) else (out, j :: rest))
  end.

Definition owned_by (File : nat) (x : job) : bool := bool_decide (Owner x = Some File).

(** Phase 1: splice the owner's jobs out of both lists. *)
Definition drain_splice (File : nat) (s : jdev) : option (list Z * jdev) :=
  '(p, pending) ← partition_jobs (owned_by File) (Pending (qu s)) s;
  '(c, completed) ← partition_jobs (owned_by File) (Completed (qu s)) s;
  Some (p ++ c, on_q (fun q => q <| Pending := pending |> <| Completed := completed |>) s).

Definition free_all (l : list Z) (s : jdev) : option jdev := foldlM (fun s j => free_job j s) s l.

(** Phase 3: find and pin the first in-flight job of the owner. *)
Definition drain_pin (File : nat) (s : jdev) : option (option Z * jdev) :=
  a ← find_slot (fun _ x => owned_by File x) (cores (qu s)) s;
  match a with
  | None => Some (None, s)
  | Some j => s ← upd_job j (fun x => x <| WaiterPin ::= fun n => n + 1 |>) s; Some (Some j, s)
  end.

(** Sever the buffers of the owner's in-flight jobs and abandon them. *)
Definition orphan_slot (File : nat) (s : jdev) (c : Z) : option jdev :=
  v ← slot c (qu s);
  match v with
  | None => Some s
  | Some j =>
      x ← deref j s;
      if owned_by File x then
        upd_job j (fun x => x <| OutputFrameMdl := None |> <| ColmvCurMdl := None |>
                              <| OrphanOnComplete := true |>) s
      else Some s
  end.

Definition drain_after (File : nat) (j : Z) (timedOut : bool) (s : jdev) : option (list Z * jdev) :=
  s ← upd_job j (fun x => x <| WaiterPin ::= fun n => n - 1 |>) s;
  s ← (if timedOut then foldlM (orphan_slot File) s (cores (qu s)) else Some s);
  '(c, completed) ← partition_jobs (fun x => owned_by File x && (WaiterPin x =? 0))
                                   (Completed (qu s)) s;
  Some (c, on_q (fun q => q <| Completed := completed |>) s).

(** [None] in the result: the fuel ran out before the loop left. *)
Fixpoint drain_loop (wait : waiter) (File : nat) (fuel : nat) (s : jdev) : option (option bool * jdev) :=
  match fuel with
  | O => Some (None, s)
  | S fuel' =>
      '(oj, s) ← drain_pin File s;
      match oj with
      | None => Some (Some false, s)
      | Some j =>
          '(timedOut, s) ← wait j s;
          '(toFree, s) ← drain_after File j timedOut s;
          s ← free_all toFree s;
          if (timedOut : bool) then Some (Some true, s <| NeedsFullReset := 1 |>)
          else drain_loop wait File fuel' s
      end
  end.

Definition RkMppJobsDrainOwner (wait : waiter) (File : nat) (fuel : nat) (s : jdev)
  : option (option bool * jdev) :=
  '(toFree, s) ← drain_splice File s;
  s ← free_all toFree s;
  drain_loop wait File fuel s.

(** ** RkMppDetachPeer and the arrival of the peer (device.c): the locked part *)
Definition detach_locked (q : queue) : queue :=
  q <| PeerOpen := false |> <| CoreCount := 1 |> <| CoreIdle ::= fun m => Z.land m 1 |>
    <| CorePending ::= insert 1%nat 0 |> <| Peer := None |>.
Definition attach_locked (kick : peer_kick_params -> NTSTATUS) (q : queue) : queue :=
  if PeerOpen q then q
  else q <| Peer := Some kick |> <| PeerOpen := true |> <| CoreCount := 2 |>
         <| CoreIdle ::= fun m => Z.lor m 2 |> <| CorePending ::= insert 1%nat 0 |>.
