(* ===== verification/JobQueueFacts.v ===== *)
(** * Facts about the job queue

    The invariant of the queue ([core_ok] for the cores, [queue_ok] for the whole)
    and what each lock-held operation of [JobQueue] does to it. *)

From S2P Require Import Prelude Mmio IommuMap BufPool JobQueue.

(** ** The jobs a queue names *)
Definition q_all (q : queue) : list Z := Pending q ++ Completed q ++ omap id (InFlightPerCore q).

Definition release (c : Z) (q : queue) : queue := dec_pending c (set_idle c (set_slot c None q)).
Definition occupy (c j : Z) (o : option nat) (id : Z) (q : queue) : queue :=
  (clear_idle c (set_slot c (Some j) q))
    <| CorePending ::= alter (fun n => u32 (n + 1)) (Z.to_nat c) |>
    <| LastKickCore := c |>
    <| OwnerLru ::= lru_upsert o id |>.

(** ** The cores

    The invariant speaks of four fields: the number of cores, the idle mask, the
    counts and the slots. *)
Record core_okv (n m : Z) (pe : list Z) (sl : list (option Z)) : Prop := CoreOk {
  co_slots : length sl = 2%nat;
  co_pend : length pe = 2%nat;
  co_count : n = 1 \/ n = 2;
  co_mask : 0 <= m < 4;
  co_idle : forall c v, Z.of_nat c < n -> sl !! c = Some v -> Z.testbit m (Z.of_nat c) = is_none v;
  co_load : forall c k v, pe !! c = Some k -> sl !! c = Some v -> 0 <= k <= if is_none v then 0 else 1;
}.
#[global] Arguments co_slots {_ _ _ _}.
#[global] Arguments co_pend {_ _ _ _}.
#[global] Arguments co_count {_ _ _ _}.
#[global] Arguments co_mask {_ _ _ _}.
#[global] Arguments co_idle {_ _ _ _}.
#[global] Arguments co_load {_ _ _ _}.
Definition core_ok (q : queue) : Prop :=
  core_okv (CoreCount q) (CoreIdle q) (CorePending q) (InFlightPerCore q).

(** With the two slots and the idle mask spelled out, everything computes. *)
Lemma core_okv_2 n m n0 n1 v0 v1 :
  (n = 1 \/ n = 2) -> 0 <= m < 4 ->
  Z.testbit m 0 = is_none v0 -> (1 < n -> Z.testbit m 1 = is_none v1) ->
  0 <= n0 <= (if is_none v0 then 0 else 1) -> 0 <= n1 <= (if is_none v1 then 0 else 1) ->
  core_okv n m [n0; n1] [v0; v1].
Proof.
  intros Hn Hm I0 I1 L0 L1. split; try done.
  - intros [|[|c]] v Hc Hv; simpl in Hv; try done; injection Hv as <-; auto.
  - intros [|[|c]] k v Hk Hv; simpl in Hk, Hv; try done; injection Hk as <-; by injection Hv as <-.
Qed.

Lemma core_okv_inv n m pe sl :
  core_okv n m pe sl ->
  exists n0 n1 v0 v1, pe = [n0; n1] /\ sl = [v0; v1] /\ (n = 1 \/ n = 2) /\
    (m = 0 \/ m = 1 \/ m = 2 \/ m = 3) /\
    Z.testbit m 0 = is_none v0 /\ (1 < n -> Z.testbit m 1 = is_none v1) /\
    0 <= n0 <= (if is_none v0 then 0 else 1) /\ 0 <= n1 <= (if is_none v1 then 0 else 1).
Proof.
  intros [Hs Hp Hn Hm Hi Hl].
  destruct sl as [|v0 [|v1 [|]]]; try done. destruct pe as [|n0 [|n1 [|]]]; try done.
  exists n0, n1, v0, v1. do 3 (split; [done|]). split; [lia|].
  split; [apply (Hi 0%nat); [lia|done]|]. split; [intros; by apply (Hi 1%nat)|].
  split; [by apply (Hl 0%nat)|by apply (Hl 1%nat)].
Qed.

Ltac open_cores H :=
  let n0 := fresh "n0" in let n1 := fresh "n1" in let v0 := fresh "v0" in let v1 := fresh "v1" in
  apply core_okv_inv in H as (n0 & n1 & v0 & v1 & -> & -> & Hn & Hm & I0 & I1 & L0 & L1).
Ltac mask_case H := destruct H as [-> | [-> | [-> | ->]]].

Definition dec1 (n : Z) : Z := if 0 <? n then n - 1 else n.

Lemma okv_release n m pe sl c :
  (c < 2)%nat -> core_okv n m pe sl ->
  core_okv n (Z.lor m (core_bit (Z.of_nat c))) (alter dec1 c pe) (<[c:=None]> sl).
Proof.
  intros Hc H. open_cores H. destruct c as [|[|]]; [| |lia]; simpl; apply core_okv_2; try done.
  - mask_case Hm; vm_compute; split; discriminate || done.
  - mask_case Hm; done.
  - intros E. rewrite <- (I1 E). mask_case Hm; done.
  - unfold dec1. case_bool; destruct v0; simpl in *; lia.
  - mask_case Hm; vm_compute; split; discriminate || done.
  - rewrite <- I0. mask_case Hm; done.
  - intros E. mask_case Hm; done.
  - unfold dec1. case_bool; destruct v1; simpl in *; lia.
Qed.

Lemma clear_mask m c :
  (m = 0 \/ m = 1 \/ m = 2 \/ m = 3) -> (c < 2)%nat ->
  let m' := Z.land m (u32 (Z.lnot (core_bit (Z.of_nat c)))) in
  0 <= m' < 4 /\ Z.testbit m' (Z.of_nat c) = false /\
  Z.testbit m' (Z.of_nat (1 - c)) = Z.testbit m (Z.of_nat (1 - c)).
Proof.
  intros Hm Hc. destruct c as [|[|]]; [| |lia]; mask_case Hm; vm_compute;
    (split; [split; discriminate || done|done]).
Qed.

Lemma okv_occupy n m pe sl c j :
  (c < 2)%nat -> sl !! c = Some None -> core_okv n m pe sl ->
  core_okv n (Z.land m (u32 (Z.lnot (core_bit (Z.of_nat c)))))
    (alter (fun n => u32 (n + 1)) c pe) (<[c:=Some j]> sl) /\
  core_okv n (Z.land m (u32 (Z.lnot (core_bit (Z.of_nat c))))) pe (<[c:=Some j]> sl).
Proof.
  intros Hc Hfree H. open_cores H. destruct (clear_mask m c Hm Hc) as (M1 & M2 & M3).
  destruct c as [|[|]]; [| |lia]; simpl in Hfree; injection Hfree as ->; simpl in L0, L1;
    change (Z.of_nat (1 - 0)) with 1 in *; change (Z.of_nat (1 - 1)) with 0 in *;
    change (Z.of_nat 0) with 0 in *; change (Z.of_nat 1) with 1 in *;
    split; cbn -[u32 Z.add Z.testbit]; apply core_okv_2; try done;
    try (intros E; rewrite M3; by apply I1); try (by rewrite M3); try (simpl; lia).
  - rewrite u32_small by lia. simpl. lia.
  - rewrite u32_small by lia. simpl. lia.
Qed.

Lemma okv_detach n m pe sl :
  core_okv n m pe sl -> core_okv 1 (Z.land m 1) (<[1%nat:=0]> pe) sl.
Proof.
  intros H. open_cores H. simpl. apply core_okv_2; try done; try (by left).
  - mask_case Hm; vm_compute; split; discriminate || done.
  - rewrite <- I0. mask_case Hm; done.
  - destruct v1; simpl; lia.
Qed.

Lemma okv_attach n m pe sl :
  sl !! 1%nat = Some None -> core_okv n m pe sl -> core_okv 2 (Z.lor m 2) (<[1%nat:=0]> pe) sl.
Proof.
  intros Hfree H. open_cores H. injection Hfree as ->. simpl. apply core_okv_2; try done; try (by right).
  - mask_case Hm; vm_compute; split; discriminate || done.
  - rewrite <- I0. mask_case Hm; done.
  - intros _. mask_case Hm; done.
Qed.

Lemma core_ok_ext q q' :
  CoreCount q' = CoreCount q -> CoreIdle q' = CoreIdle q -> CorePending q' = CorePending q ->
  InFlightPerCore q' = InFlightPerCore q -> core_ok q -> core_ok q'.
Proof. unfold core_ok. by intros -> -> -> ->. Qed.

Lemma core_ok_release c q : (c < 2)%nat -> core_ok q -> core_ok (release (Z.of_nat c) q).
Proof.
  intros Hc H. pose proof (okv_release _ _ _ _ c Hc H) as G. unfold core_ok.
  cbn [release dec_pending set_idle set_slot set_field CoreCount CoreIdle CorePending InFlightPerCore].
  by rewrite Nat2Z.id.
Qed.

Lemma core_ok_occupy c j o id q :
  (c < 2)%nat -> InFlightPerCore q !! c = Some None -> core_ok q ->
  core_ok (occupy (Z.of_nat c) j o id q).
Proof.
  intros Hc Hf H. destruct (okv_occupy _ _ _ _ c j Hc Hf H) as [G _]. unfold core_ok.
  cbn [occupy clear_idle set_slot set_field CoreCount CoreIdle CorePending InFlightPerCore].
  by rewrite Nat2Z.id.
Qed.

Lemma core_ok_foreign j q :
  InFlightPerCore q !! 0%nat = Some None -> core_ok q -> core_ok (clear_idle 0 (set_slot 0 (Some j) q)).
Proof. intros Hf H. exact (proj2 (okv_occupy _ _ _ _ 0 j ltac:(lia) Hf H)). Qed.

Lemma core_ok_detach q : core_ok q -> core_ok (detach_locked q).
Proof. exact (okv_detach _ _ _ _). Qed.

Lemma core_ok_attach kick q :
  InFlightPerCore q !! 1%nat = Some None -> core_ok q -> core_ok (attach_locked kick q).
Proof.
  unfold attach_locked. destruct (PeerOpen q); [done|]. intros Hf H. exact (okv_attach _ _ _ _ Hf H).
Qed.

(** ** Target selection

    A core with a job is never chosen, one is found whenever one is idle, and of
    two idle cores the one not kicked last is taken: the in-flight counts, the
    primary criterion, are then both zero. *)
Lemma pick_core_spec q :
  core_ok q ->
  exists c, PickTargetCore q = Some c /\
    ((c = -1 /\ forall k v, Z.of_nat k < CoreCount q -> InFlightPerCore q !! k = Some v -> v <> None) \/
     (0 <= c < CoreCount q /\ InFlightPerCore q !! Z.to_nat c = Some None /\
      (c = LastKickCore q -> forall k, Z.of_nat k < CoreCount q ->
         InFlightPerCore q !! k = Some None -> k = Z.to_nat c))).
Proof.
  intros H. unfold PickTargetCore, cores, all_idle_mask, pick_core_step. unfold core_ok in H.
  set (l := LastKickCore q). clearbody l.
  revert H. generalize (CoreCount q) as n, (CoreIdle q) as m, (CorePending q) as pe, (InFlightPerCore q) as sl.
  clear q. intros n m pe sl H. open_cores H.
  destruct Hn as [-> | ->]; [clear I1|pose proof (I1 ltac:(lia)) as J1; clear I1];
    mask_case Hm; cbn in I0; destruct v0; try discriminate I0;
    try (cbn in J1; destruct v1; try discriminate J1);
    cbn -[Z.ltb Z.eqb] in *; repeat match goal with
    | H : 0 <= ?x <= 0 |- _ => assert (x = 0) as -> by lia; clear H
    end.
  all: try (eexists; split; [vm_compute; reflexivity|]; left; split; [done|];
            intros [|[|k]] v Hk Hv; simpl in *; try lia; by injection Hv as <-).
  all: destruct l as [|[p|p|]|p]; eexists;
    (split; [vm_compute; reflexivity|]); right; (split; [lia|]); (split; [done|]);
    try done; intros _ [|[|k]] Hk Hv; simpl in *; try done; try lia.
Qed.

(** ** The part of a job the bookkeeping depends on

    The probe, timestamp and result fields of a job are blanked; the invariants
    speak of the pool seen through [sig]. *)
Record jsig := JSig {
  s_id : Z; s_owner : option nat; s_done : bool; s_target : Z; s_orphan : bool; s_pin : Z;
  s_bank : dense_bank; s_slots : list iova_slot; s_refs : list buf_ref }.
#[export] Instance eta_jsig : Eta jsig := fun s =>
  JSig (s_id s) (s_owner s) (s_done s) (s_target s) (s_orphan s) (s_pin s)
       (s_bank s) (s_slots s) (s_refs s).
Definition sig (x : job) : jsig :=
  JSig (Id x) (Owner x) (Done x) (TargetCore x) (OrphanOnComplete x) (WaiterPin x)
       (DenseBank x) (DenseIovaSlots x) (BufRefs x).
Definition sigs (d : jdev) : gmap Z jsig := sig <$> jobs d.

Definition bank_ok (b : dense_bank) : Prop :=
  length (Common b) = 25%nat /\ length (CodecParams b) = 49%nat /\
  length (CommonAddr b) = 15%nat /\ length (CodecAddr b) = 40%nat /\
  length (HighPoc b) = 5%nat /\ length (Stat b) = 22%nat.

(** The per-owner table records ids already given out. *)
Definition lru_ok (q : queue) : Prop := Forall (fun e => 0 <= e.2 <= NextId q) (OwnerLru q).

Record queue_ok (h : gmap Z jsig) (q : queue) : Prop := QueueOk {
  qo_core : core_ok q;
  qo_nodup : NoDup (q_all q);
  qo_live j : j ∈ q_all q -> is_Some (h !! j);
  qo_target c j x : InFlightPerCore q !! c = Some (Some j) -> h !! j = Some x ->
    s_target x = Z.of_nat c;
  qo_bank j x : h !! j = Some x -> bank_ok (s_bank x);
  qo_id j x : h !! j = Some x -> 1 <= s_id x <= NextId q;
  qo_uniq i j x y : h !! i = Some x -> h !! j = Some y -> s_id x = s_id y -> i = j;
  qo_next : 0 <= NextId q < 2 ^ 64;
  qo_lru : lru_ok q;
}.

(** The queue fields the invariants read. *)
Definition qview (q : queue) :=
  (Pending q, Completed q, NextId q, CoreCount q, CoreIdle q, CorePending q, InFlightPerCore q,
   (PeerOpen q, KickActive q, KickRearm q, OwnerLru q)).

(** A step that the bookkeeping does not see. *)
Definition quiet (d d' : jdev) : Prop := sigs d' = sigs d /\ qview (qu d') = qview (qu d).

Lemma quiet_refl d : quiet d d.
Proof. done. Qed.
Lemma quiet_trans d1 d2 d3 : quiet d1 d2 -> quiet d2 d3 -> quiet d1 d3.
Proof. unfold quiet. intros [-> ->]. done. Qed.

Lemma lookup_sigs d j x : jobs d !! j = Some x -> sigs d !! j = Some (sig x).
Proof. intros H. unfold sigs. by rewrite lookup_fmap, H. Qed.
Lemma sigs_lookup d j y : sigs d !! j = Some y -> exists x, jobs d !! j = Some x /\ y = sig x.
Proof. unfold sigs. rewrite lookup_fmap. destruct (jobs d !! j) as [x|]; [|done]. intros [= <-]. eauto. Qed.
Lemma live_job d j : is_Some (sigs d !! j) -> exists x, jobs d !! j = Some x.
Proof. intros [y Hy]. destruct (sigs_lookup _ _ _ Hy) as (x & Hx & _). eauto. Qed.

Lemma upd_job_eq j g d x :
  jobs d !! j = Some x -> upd_job j g d = Some (d <| jobs := <[j := g x]> (jobs d) |>).
Proof. intros H. unfold upd_job. by rewrite H. Qed.
Lemma sigs_upd j y d : sigs (d <| jobs := <[j := y]> (jobs d) |>) = <[j := sig y]> (sigs d).
Proof. unfold sigs. simpl. apply fmap_insert. Qed.
Lemma sigs_upd_same j x y d :
  jobs d !! j = Some x -> sig y = sig x -> sigs (d <| jobs := <[j := y]> (jobs d) |>) = sigs d.
Proof. intros H E. rewrite sigs_upd, E. apply insert_id. by apply lookup_sigs. Qed.

Lemma quiet_upd j g d x :
  jobs d !! j = Some x -> sig (g x) = sig x ->
  exists d', upd_job j g d = Some d' /\ quiet d d' /\ jobs d' !! j = Some (g x) /\
    qu d' = qu d /\ devlog d' = devlog d /\ jfiles d' = jfiles d /\ qpc d' = qpc d /\
    NeedsCoreReset d' = NeedsCoreReset d /\ NeedsFullReset d' = NeedsFullReset d /\
    LastJobFailed d' = LastJobFailed d.
Proof.
  intros H E. rewrite (upd_job_eq _ _ _ _ H). eexists. split; [done|]. split; [split; [by eapply sigs_upd_same|done]|].
  simpl. by rewrite lookup_insert_eq.
Qed.

(** ** The walks *)
Lemma find_job_spec P l d :
  (forall j, j ∈ l -> is_Some (sigs d !! j)) ->
  exists r, find_job P l d = Some r /\
    match r with
    | None => forall j x, j ∈ l -> jobs d !! j = Some x -> P j x = false
    | Some j => j ∈ l /\ exists x, jobs d !! j = Some x /\ P j x = true
    end.
Proof.
  induction l as [|j l IH]; intros Hl; simpl.
  - exists None. split; [done|]. intros ? ? Hin. by apply elem_of_nil in Hin.
  - destruct (live_job d j) as [x Hx]; [apply Hl; by left|]. unfold deref. rewrite Hx. ostep.
    destruct (P j x) eqn:EP.
    + exists (Some j). split; [done|]. split; [by left|]. eauto.
    + destruct IH as (r & -> & Hr); [intros; apply Hl; by right|]. exists r. split; [done|].
      destruct r as [k|].
      * destruct Hr as [? ?]. split; [by right|done].
      * intros k y [->|Hk]%elem_of_cons Hy; [congruence|eauto].
Qed.

Lemma elem_of_inflight j q : j ∈ omap id (InFlightPerCore q) <-> exists c, InFlightPerCore q !! c = Some (Some j).
Proof.
  rewrite list_elem_of_omap. split.
  - intros (v & Hv & E). simpl in E. subst v. by apply list_elem_of_lookup in Hv.
  - intros [c Hc]. exists (Some j). split; [by eapply list_elem_of_lookup_2|done].
Qed.

Lemma inflight_live h q c j :
  queue_ok h q -> InFlightPerCore q !! c = Some (Some j) -> is_Some (h !! j).
Proof.
  intros Hok Hc. apply (qo_live _ _ Hok). unfold q_all. rewrite !elem_of_app. right; right.
  apply elem_of_inflight. eauto.
Qed.

Lemma slot_some q c : core_ok q -> 0 <= c < 2 -> exists v, slot c q = Some v.
Proof.
  intros Hok Hc. unfold slot. destruct (InFlightPerCore q !! Z.to_nat c) eqn:E; [eauto|].
  apply lookup_ge_None in E. rewrite (co_slots Hok) in E. lia.
Qed.

Lemma cores_range q c : core_ok q -> c ∈ cores q -> 0 <= c < 2.
Proof. intros Hok. unfold cores. rewrite elem_of_seqZ. destruct (co_count Hok) as [-> | ->]; lia. Qed.

Lemma find_slot_spec P l d :
  queue_ok (sigs d) (qu d) -> (forall c, c ∈ l -> 0 <= c < 2) ->
  exists r, find_slot P l d = Some r /\
    match r with
    | None => forall c j x, c ∈ l -> slot c (qu d) = Some (Some j) -> jobs d !! j = Some x -> P j x = false
    | Some j => exists c x, c ∈ l /\ slot c (qu d) = Some (Some j) /\ jobs d !! j = Some x /\ P j x = true
    end.
Proof.
  intros Hok. induction l as [|c l IH]; intros Hl; simpl.
  - exists None. split; [done|]. intros ? ? ? Hin. by apply elem_of_nil in Hin.
  - destruct (slot_some (qu d) c (qo_core _ _ Hok)) as [v Hv]; [apply Hl; by left|]. rewrite Hv. ostep.
    destruct IH as (r & Er & Hr); [intros; apply Hl; by right|].
    assert (Hskip : (forall j x, v = Some j -> jobs d !! j = Some x -> P j x = false) ->
      match r with
      | None => forall c0 j x, c0 ∈ c :: l -> slot c0 (qu d) = Some (Some j) -> jobs d !! j = Some x -> P j x = false
      | Some j => exists c0 x, c0 ∈ c :: l /\ slot c0 (qu d) = Some (Some j) /\ jobs d !! j = Some x /\ P j x = true
      end).
    { intros Hc. destruct r as [k|].
      - destruct Hr as (c0 & x & ? & ?). exists c0, x. split; [by right|done].
      - intros c0 j x [->|Hin]%elem_of_cons Hs Hx; [|eauto]. apply (Hc j x); [congruence|done]. }
    destruct v as [j|].
    + destruct (live_job d j) as [x Hx]; [by eapply inflight_live|]. unfold deref. rewrite Hx. ostep.
      destruct (P j x) eqn:EP.
      * exists (Some j). split; [done|]. exists c, x. split; [by left|]. done.
      * exists r. split; [done|]. apply Hskip. intros j' x' [= <-] Hx'. congruence.
    + exists r. split; [done|]. by apply Hskip.
Qed.

(** ** How the invariant moves *)
Lemma queue_ok_perm h q q' :
  queue_ok h q -> core_ok q' -> q_all q' ≡ₚ q_all q -> NextId q' = NextId q -> lru_ok q' ->
  (forall c j x, InFlightPerCore q' !! c = Some (Some j) -> h !! j = Some x -> s_target x = Z.of_nat c) ->
  queue_ok h q'.
Proof.
  intros [] Hc Hp Hn Hl Ht. split; try done.
  - by rewrite Hp.
  - intros j. rewrite Hp. auto.
  - by rewrite Hn.
  - by rewrite Hn.
Qed.

Lemma queue_ok_view h q q' :
  qview q' = qview q -> queue_ok h q -> queue_ok h q'.
Proof.
  unfold qview. intros E. assert (Hall : q_all q' = q_all q) by (unfold q_all; congruence).
  intros Hok. eapply queue_ok_perm; [exact Hok| |by rewrite Hall|congruence| |].
  2: { unfold lru_ok. assert (OwnerLru q' = OwnerLru q /\ NextId q' = NextId q) as [-> ->] by (split; congruence).
       apply (qo_lru _ _ Hok). }
  - eapply core_ok_ext; [..|apply Hok]; congruence.
  - assert (InFlightPerCore q' = InFlightPerCore q) as -> by congruence. apply (qo_target _ _ Hok).
Qed.

Lemma queue_ok_quiet d d' : quiet d d' -> queue_ok (sigs d) (qu d) -> queue_ok (sigs d') (qu d').
Proof. intros [-> Hq]. by apply queue_ok_view. Qed.

Lemma queue_ok_upd h q j x y :
  queue_ok h q -> h !! j = Some x -> s_id y = s_id x -> s_bank y = s_bank x ->
  (s_target y = s_target x \/ forall c, InFlightPerCore q !! c <> Some (Some j)) ->
  queue_ok (<[j:=y]> h) q.
Proof.
  intros [H1 H2 H3 H4 H5 H6 H7 H8 H9] Hj Ei Eb Et. split; try done.
  - intros k Hk. destruct (decide (k = j)) as [->|]; [rewrite lookup_insert_eq; eauto|].
    rewrite lookup_insert_ne by done. auto.
  - intros c k z Hc Hz. destruct (decide (k = j)) as [->|].
    + rewrite lookup_insert_eq in Hz. injection Hz as <-. destruct Et as [->|Et]; [eauto|].
      by destruct (Et c).
    + rewrite lookup_insert_ne in Hz by done. eauto.
  - intros k z Hz. destruct (decide (k = j)) as [->|].
    + rewrite lookup_insert_eq in Hz. injection Hz as <-. rewrite Eb. eauto.
    + rewrite lookup_insert_ne in Hz by done. eauto.
  - intros k z Hz. destruct (decide (k = j)) as [->|].
    + rewrite lookup_insert_eq in Hz. injection Hz as <-. rewrite Ei. eauto.
    + rewrite lookup_insert_ne in Hz by done. eauto.
  - assert (Hid : forall k z, <[j:=y]> h !! k = Some z -> exists z', h !! k = Some z' /\ s_id z' = s_id z).
    { intros k z Hz. destruct (decide (k = j)) as [->|].
      - rewrite lookup_insert_eq in Hz. injection Hz as <-. eauto.
      - rewrite lookup_insert_ne in Hz by done. eauto. }
    intros a b u v Hu Hv E. destruct (Hid _ _ Hu) as (u' & Hu' & Eu), (Hid _ _ Hv) as (v' & Hv' & Ev).
    eapply H7; [exact Hu'|exact Hv'|congruence].
Qed.

(** A job leaves the queue and the pool. *)
Lemma queue_ok_remove h q q' j :
  queue_ok h q -> core_ok q' -> j :: q_all q' ≡ₚ q_all q -> NextId q' = NextId q ->
  OwnerLru q' = OwnerLru q -> (forall c k, InFlightPerCore q' !! c = Some (Some k) -> InFlightPerCore q !! c = Some (Some k)) ->
  queue_ok (delete j h) q'.
Proof.
  intros [H1 H2 H3 H4 H5 H6 H7 H8 H9] Hc Hp Hn Hlru Hs. rewrite <- Hp in H2.
  apply NoDup_cons in H2 as [Hj Hnd].
  assert (Hdel : forall k z, delete j h !! k = Some z -> h !! k = Some z).
  { intros k z Hz. by apply lookup_delete_Some in Hz as [_ ?]. }
  split; try done; rewrite ?Hn; eauto; [|unfold lru_ok; by rewrite Hn, Hlru].
  intros k Hk. rewrite lookup_delete_ne by (intros ->; done). apply H3. rewrite <- Hp. by right.
Qed.

(** A fresh job enters the pool and the queue. *)
Lemma queue_ok_add h q q' j y :
  queue_ok h q -> h !! j = None -> core_ok q' -> q_all q' ≡ₚ j :: q_all q ->
  NextId q' = NextId q + 1 -> NextId q + 1 < 2 ^ 64 -> s_id y = NextId q + 1 -> bank_ok (s_bank y) -> OwnerLru q' = OwnerLru q ->
  (forall c k, InFlightPerCore q' !! c = Some (Some k) ->
     (k = j /\ s_target y = Z.of_nat c) \/ InFlightPerCore q !! c = Some (Some k)) ->
  queue_ok (<[j:=y]> h) q'.
Proof.
  intros [H1 H2 H3 H4 H5 H6 H7 H8 H9] Hj Hc Hp Hn Hlt Hid Hb Hlru Hs.
  assert (Hfresh : j ∉ q_all q) by (intros Hin; destruct (H3 j Hin); congruence).
  assert (Hins : forall k z, <[j:=y]> h !! k = Some z -> (k = j /\ z = y) \/ (k <> j /\ h !! k = Some z)).
  { intros k z Hz. destruct (decide (k = j)) as [->|].
    - rewrite lookup_insert_eq in Hz. injection Hz as <-. by left.
    - rewrite lookup_insert_ne in Hz by done. by right. }
  split; try done; try lia.
  - rewrite Hp. by constructor.
  - intros k. rewrite Hp. intros [->|Hk]%elem_of_cons; [rewrite lookup_insert_eq; eauto|].
    rewrite lookup_insert_ne by (intros ->; done). auto.
  - intros c k z Hk Hz. destruct (Hs c k Hk) as [[-> Et]|Hq].
    + rewrite lookup_insert_eq in Hz. by injection Hz as <-.
    + destruct (Hins _ _ Hz) as [[-> _]|[_ Hz']]; [|eauto]. exfalso. apply Hfresh. unfold q_all.
      rewrite !elem_of_app. right; right. apply elem_of_inflight. eauto.
  - intros k z Hz. destruct (Hins _ _ Hz) as [[_ ->]|[_ Hz']]; eauto.
  - intros k z Hz. destruct (Hins _ _ Hz) as [[_ ->]|[_ Hz']]; [lia|]. specialize (H6 _ _ Hz'). lia.
  - intros a b u v Hu Hv E. destruct (Hins _ _ Hu) as [[-> ->]|[_ Hu']], (Hins _ _ Hv) as [[-> ->]|[_ Hv']];
      eauto; exfalso; [specialize (H6 _ _ Hv')|specialize (H6 _ _ Hu')]; lia.
  - unfold lru_ok. rewrite Hlru, Hn. eapply Forall_impl; [exact H9|]. simpl. lia.
Qed.

(** ** Unlinking *)
Definition unlinkq (j : Z) (q : queue) : queue :=
  if decide (j ∈ Pending q) then q <| Pending ::= list_remove_Z j |>
  else q <| Completed ::= list_remove_Z j |>.

Lemma list_remove_perm j l : j ∈ l -> l ≡ₚ j :: list_remove_Z j l.
Proof.
  induction l as [|x l IH]; [by intros ?%elem_of_nil|]. simpl. destruct (Z.eqb_spec x j) as [->|Hne].
  - done.
  - intros [->|Hin]%elem_of_cons; [done|]. rewrite (IH Hin) at 1. apply perm_swap.
Qed.

Lemma list_remove_subset j k l : k ∈ list_remove_Z j l -> k ∈ l.
Proof.
  induction l as [|x l IH]; simpl; [done|]. destruct (x =? j); [by right|].
  intros [->|Hk]%elem_of_cons; [by left|right; auto].
Qed.

Lemma unlinkq_all j q :
  j ∈ Pending q ++ Completed q -> j :: q_all (unlinkq j q) ≡ₚ q_all q.
Proof.
  intros Hj. unfold unlinkq, q_all. destruct (decide (j ∈ Pending q)) as [Hp|Hp]; simpl.
  - symmetry. rewrite (list_remove_perm j (Pending q) Hp) at 1. done.
  - apply elem_of_app in Hj as [?|Hc]; [done|].
    rewrite (Permutation_middle _ _ j : j :: Pending q ++ _ ≡ₚ _). f_equiv.
    symmetry. rewrite (list_remove_perm j (Completed q) Hc) at 1. done.
Qed.

Lemma unlinkq_cores j q :
  core_ok q -> core_ok (unlinkq j q) /\ InFlightPerCore (unlinkq j q) = InFlightPerCore q /\
  NextId (unlinkq j q) = NextId q /\ OwnerLru (unlinkq j q) = OwnerLru q.
Proof.
  intros Hok. unfold unlinkq. destruct (decide _); (split; [|done]); (eapply core_ok_ext; [..|exact Hok]; done).
Qed.

Lemma unlink_eq j d :
  is_Some (jobs d !! j) -> j ∈ Pending (qu d) ++ Completed (qu d) ->
  unlink j d = Some (on_q (unlinkq j) d).
Proof.
  intros [x Hx] Hj. unfold unlink, unlinkq. rewrite Hx. ostep. destruct (decide (j ∈ Pending (qu d))).
  - unfold on_q, set_field. simpl. by rewrite decide_True by done.
  - apply elem_of_app in Hj as [?|Hc]; [done|]. rewrite decide_True by done.
    unfold on_q, set_field. simpl. by rewrite decide_False by done.
Qed.

Lemma queue_ok_unlink_free h q j :
  queue_ok h q -> j ∈ Pending q ++ Completed q -> queue_ok (delete j h) (unlinkq j q).
Proof.
  intros Hok Hj. destruct (unlinkq_cores j q (qo_core _ _ Hok)) as (Hc & Hi & Hn & Hl).
  eapply queue_ok_remove; [exact Hok|done|by apply unlinkq_all|done|done|]. intros c k. by rewrite Hi.
Qed.

(** ** Slots *)
Lemma omap_clear (l : list (option Z)) c j :
  l !! c = Some (Some j) -> j :: omap id (<[c:=None]> l) ≡ₚ omap id l.
Proof.
  revert c. induction l as [|v l IH]; intros [|c] Hc; simpl in *; try done.
  - injection Hc as ->. done.
  - destruct v as [k|]; simpl; [|by apply IH]. rewrite perm_swap. f_equiv. by apply IH.
Qed.

Lemma omap_fill (l : list (option Z)) c j :
  l !! c = Some None -> omap id (<[c:=Some j]> l) ≡ₚ j :: omap id l.
Proof.
  revert c. induction l as [|v l IH]; intros [|c] Hc; simpl in *; try done.
  - by injection Hc as ->.
  - destruct v as [k|]; simpl; [|by apply IH]. rewrite (IH _ Hc). apply perm_swap.
Qed.

Lemma release_all c j q :
  InFlightPerCore q !! c = Some (Some j) -> j :: q_all (release (Z.of_nat c) q) ≡ₚ q_all q.
Proof.
  intros Hc. unfold q_all, release, dec_pending, set_idle, set_slot, set_field. simpl.
  rewrite Nat2Z.id, !app_assoc, (Permutation_middle _ _ j). by rewrite omap_clear.
Qed.

Lemma occupy_all c j o id q :
  InFlightPerCore q !! c = Some None -> q_all (occupy (Z.of_nat c) j o id q) ≡ₚ j :: q_all q.
Proof.
  intros Hc.
  change (q_all (occupy (Z.of_nat c) j o id q))
    with (Pending q ++ Completed q ++ omap (fun v => v) (<[Z.to_nat (Z.of_nat c) := Some j]> (InFlightPerCore q))).
  rewrite Nat2Z.id, (omap_fill _ _ _ Hc). unfold q_all. rewrite !app_assoc.
  by rewrite (Permutation_middle _ _ j).
Qed.

Lemma insert_slot_inv {A} (l : list A) c v c' v' :
  <[c:=v]> l !! c' = Some v' -> (c' = c /\ v' = v) \/ (c' <> c /\ l !! c' = Some v').
Proof.
  intros H. destruct (decide (c' = c)) as [->|Hne].
  - left. split; [done|]. apply list_lookup_insert_Some in H as [(_ & ? & _)|[? _]]; [done|by exfalso].
  - right. split; [done|]. by rewrite list_lookup_insert_ne in H.
Qed.

Lemma nodup_slots q c c' j :
  NoDup (q_all q) -> InFlightPerCore q !! c = Some (Some j) -> InFlightPerCore q !! c' = Some (Some j) ->
  c = c'.
Proof.
  intros Hnd. assert (Hn : NoDup (omap id (InFlightPerCore q))).
  { unfold q_all in Hnd. apply NoDup_app in Hnd as (_ & _ & Hnd). by apply NoDup_app in Hnd as (_ & _ & ?). }
  clear Hnd. revert c c'. induction (InFlightPerCore q) as [|v l IH]; [done|].
  intros [|c] [|c'] Hc Hc'; simpl in *; try done.
  - injection Hc as ->. simpl in Hn. apply NoDup_cons in Hn as [Hj _]. exfalso. apply Hj.
    apply list_elem_of_omap. exists (Some j). split; [by eapply list_elem_of_lookup_2|done].
  - injection Hc' as ->. simpl in Hn. apply NoDup_cons in Hn as [Hj _]. exfalso. apply Hj.
    apply list_elem_of_omap. exists (Some j). split; [by eapply list_elem_of_lookup_2|done].
  - f_equal. apply IH; [|done|done]. destruct v; simpl in Hn; [by apply NoDup_cons in Hn as []|done].
Qed.

(** A job that has left its slot is in no other. *)
Lemma released_slots q c j :
  NoDup (q_all q) -> InFlightPerCore q !! c = Some (Some j) ->
  forall c', <[c:=None]> (InFlightPerCore q) !! c' <> Some (Some j).
Proof.
  intros Hnd Hc c' Hc'. apply insert_slot_inv in Hc' as [[_ ?]|[Hne Hc']]; [done|].
  apply Hne. by eapply nodup_slots.
Qed.

(** The queue once a slot is released and its job is completed. *)
Definition to_completed (j : Z) (q : queue) : queue := q <| Completed ::= fun l => l ++ [j] |>.

Lemma to_completed_all j q : q_all (to_completed j q) ≡ₚ j :: q_all q.
Proof.
  unfold q_all, to_completed, set_field. simpl. rewrite <- (app_assoc (Completed q)). simpl.
  rewrite !app_assoc. by rewrite (Permutation_middle _ _ j).
Qed.

Lemma to_completed_cores j q : core_ok q -> core_ok (to_completed j q).
Proof. apply core_ok_ext; done. Qed.

Lemma release_to_completed c j q :
  InFlightPerCore q !! c = Some (Some j) ->
  q_all (release (Z.of_nat c) (to_completed j q)) ≡ₚ q_all q /\
  q_all (to_completed j (release (Z.of_nat c) q)) ≡ₚ q_all q.
Proof.
  intros Hc. split.
  - apply (Permutation_cons_inv (a := j)). rewrite (release_all c j (to_completed j q)) by done.
    apply to_completed_all.
  - rewrite to_completed_all. by apply release_all.
Qed.

Lemma release_inflight c q :
  InFlightPerCore (release (Z.of_nat c) q) = <[c:=None]> (InFlightPerCore q).
Proof. unfold release, dec_pending, set_idle, set_slot, set_field. simpl. by rewrite Nat2Z.id. Qed.

Lemma queue_ok_release_completed h q c j x y :
  queue_ok h q -> InFlightPerCore q !! c = Some (Some j) -> h !! j = Some x ->
  s_id y = s_id x -> s_bank y = s_bank x -> s_target y = s_target x ->
  queue_ok (<[j:=y]> h) (release (Z.of_nat c) (to_completed j q)) /\
  queue_ok (<[j:=y]> h) (to_completed j (release (Z.of_nat c) q)).
Proof.
  intros Hok Hc Hj Ei Eb Et.
  assert (Hc2 : (c < 2)%nat).
  { rewrite <- (co_slots (qo_core _ _ Hok)). by eapply lookup_lt_Some. }
  assert (Hok' : queue_ok (<[j:=y]> h) q) by (eapply queue_ok_upd; eauto).
  destruct (release_to_completed c j q Hc) as [P1 P2].
  split; (eapply queue_ok_perm; [exact Hok'| |done|done|exact (qo_lru _ _ Hok)|]).
  - apply core_ok_release; [done|]. apply to_completed_cores. apply Hok.
  - intros c' k z. rewrite release_inflight. simpl. intros [[_ ?]|[_ Hk]]%insert_slot_inv; [done|].
    by apply (qo_target _ _ Hok').
  - apply to_completed_cores, core_ok_release; [done|]. apply Hok.
  - intros c' k z. unfold to_completed, set_field. simpl. rewrite Nat2Z.id.
    intros [[_ ?]|[_ Hk]]%insert_slot_inv; [done|]. by apply (qo_target _ _ Hok').
Qed.

Lemma queue_ok_release_free h q c j :
  queue_ok h q -> InFlightPerCore q !! c = Some (Some j) ->
  queue_ok (delete j h) (release (Z.of_nat c) q).
Proof.
  intros Hok Hc. assert (Hc2 : (c < 2)%nat).
  { rewrite <- (co_slots (qo_core _ _ Hok)). by eapply lookup_lt_Some. }
  eapply queue_ok_remove; [exact Hok|by apply core_ok_release, Hok|by apply release_all|done|done|].
  intros c' k. rewrite release_inflight. intros [[_ ?]|[_ Hk]]%insert_slot_inv; done.
Qed.

(** ** Completion *)
Definition flushes (x : job) : list effect :=
  map FlushIo (option_list (OutputFrameMdl x) ++ option_list (ColmvCurMdl x)).

(** The device with the same jobs and queue. *)
Lemma classify_frame res hw o d :
  jobs (classify res hw o d) = jobs d /\ qu (classify res hw o d) = qu d /\
  devlog (classify res hw o d) = devlog d /\ qpc (classify res hw o d) = qpc d.
Proof.
  unfold classify. destruct (job_failed res hw); [|done].
  destruct (flag hw RKVDEC2_INT_DEC_TIMEOUT_STA || (res =? STATUS_IO_TIMEOUT)); destruct o; done.
Qed.

Lemma flush_frame a b d :
  let d' := flush_opt b (flush_opt a d) in
  jobs d' = jobs d /\ qu d' = qu d /\ jfiles d' = jfiles d /\ NeedsCoreReset d' = NeedsCoreReset d /\
  NeedsFullReset d' = NeedsFullReset d /\ LastJobFailed d' = LastJobFailed d /\ qpc d' = qpc d /\
  devlog d' = devlog d ++ map FlushIo (option_list a ++ option_list b).
Proof.
  destruct a, b; simpl; rewrite ?app_nil_r, <- ?app_assoc; done.
Qed.

Definition wants_kick (q : queue) : bool := match Pending q with [] => false | _ => true end.
Definition idle_after (q : queue) : bool := (CoreIdle q =? all_idle_mask q) && negb (wants_kick q).
Definition finished (res : NTSTATUS) (hw now : Z) (x : job) : job :=
  x <| EndQpc := now |> <| Result := res |> <| HardwareStatus := hw |> <| Done := true |>.
Definition frees_here (x : job) : bool := OrphanOnComplete x && negb (0 <? WaiterPin x).

Lemma complete_locked_outcome res hw d :
  queue_ok (sigs d) (qu d) ->
  (InFlightPerCore (qu d) !! 0%nat = Some None /\ complete_locked res hw d = Some (None, d)) \/
  (exists j x d', InFlightPerCore (qu d) !! 0%nat = Some (Some j) /\ jobs d !! j = Some x /\
     let q' := release 0 (if frees_here x then qu d else to_completed j (qu d)) in
     let dc := classify res hw (Owner x) d in
     complete_locked res hw d = Some (Some (j, frees_here x, wants_kick q', idle_after q'), d') /\
     jobs d' = <[j := finished res hw (qpc d) x]> (jobs d) /\ qu d' = q' /\
     devlog d' = devlog d ++ flushes x ++ [SetEvent j] /\
     jfiles d' = jfiles dc /\ NeedsCoreReset d' = NeedsCoreReset dc /\
     NeedsFullReset d' = NeedsFullReset dc /\ LastJobFailed d' = LastJobFailed dc /\ qpc d' = qpc d).
Proof.
  intros Hok. unfold complete_locked.
  destruct (slot_some (qu d) 0 (qo_core _ _ Hok)) as [v Hv]; [lia|].
  unfold slot in *. change (Z.to_nat 0) with 0%nat in *. rewrite Hv. ostep.
  destruct v as [j|]; [right|by left].
  destruct (live_job d j) as [x Hx]; [by eapply inflight_live|].
  rewrite (upd_job_eq _ _ _ _ Hx). ostep. unfold deref. simpl jobs. rewrite lookup_insert_eq. ostep.
  set (x1 := x <| EndQpc := _ |> <| Result := _ |> <| HardwareStatus := _ |>).
  set (d1 := d <| jobs := _ |>).
  assert (Ht : TargetCore x = 0) by (exact (qo_target _ _ Hok 0%nat j (sig x) Hv (lookup_sigs _ _ _ Hx))).
  set (dc := classify res hw (Owner x1) d1).
  destruct (flush_frame (OutputFrameMdl x1) (ColmvCurMdl x1) dc) as (F1 & F2 & F3 & F4 & F5 & F6 & F7 & F8).
  set (df := flush_opt (ColmvCurMdl x1) (flush_opt (OutputFrameMdl x1) dc)) in *.
  destruct (classify_frame res hw (Owner x1) d1) as (C1 & C2 & C3 & C4). fold dc in C1, C2, C3, C4.
  assert (E : (negb (OrphanOnComplete x1) || (0 <? WaiterPin x1)) = negb (frees_here x)).
  { unfold frees_here. subst x1. simpl. by destruct (OrphanOnComplete x), (0 <? WaiterPin x). }
  rewrite E. clear E.
  set (d2 := if negb (frees_here x) then on_q _ df else df).
  assert (G : jobs d2 = <[j := x1]> (jobs d) /\
              qu d2 = (if frees_here x then qu d else to_completed j (qu d)) /\
              devlog d2 = devlog d ++ flushes x /\ jfiles d2 = jfiles df /\
              NeedsCoreReset d2 = NeedsCoreReset df /\ NeedsFullReset d2 = NeedsFullReset df /\
              LastJobFailed d2 = LastJobFailed df /\ qpc d2 = qpc df).
  { subst d2. destruct (frees_here x); simpl; rewrite ?F1, ?F2, ?F8, ?C1, ?C2, ?C3; done. }
  destruct G as (G1 & G2 & G3 & G4 & G5 & G6 & G7 & G8).
  clearbody d2. rewrite (upd_job_eq j _ (log1 (SetEvent j) d2) x1) by (simpl; rewrite G1; apply lookup_insert_eq).
  ostep. simpl qu. rewrite G2.
  assert (Hi : InFlightPerCore (if frees_here x then qu d else to_completed j (qu d)) !! Z.to_nat (TargetCore x1) = Some (Some j)).
  { replace (TargetCore x1) with 0 by done. by destruct (frees_here x). }
  rewrite Hi. ostep. replace (TargetCore x1) with 0 by done.
  set (d3 := (log1 (SetEvent j) d2) <| jobs := <[j := x1 <| Done := true |>]> (jobs (log1 (SetEvent j) d2)) |>).
  assert (J : jobs d3 = <[j := finished res hw (qpc d) x]> (jobs d)).
  { transitivity (<[j := x1 <| Done := true |>]> (jobs d2)); [reflexivity|]. rewrite G1. apply insert_insert_eq. }
  assert (Q : qu d3 = if frees_here x then qu d else to_completed j (qu d)) by exact G2.
  assert (R : devlog d3 = devlog d ++ flushes x ++ [SetEvent j]).
  { transitivity (devlog d2 ++ [SetEvent j]); [reflexivity|]. by rewrite G3, <- app_assoc. }
  assert (T : jfiles d3 = jfiles d2 /\ NeedsCoreReset d3 = NeedsCoreReset d2 /\
              NeedsFullReset d3 = NeedsFullReset d2 /\ LastJobFailed d3 = LastJobFailed d2 /\
              qpc d3 = qpc d2) by (repeat split; reflexivity).
  clearbody d3. destruct T as (T1 & T2 & T3 & T4 & T5).
  exists j, x, (on_q (release 0) d3). split; [done|]. split; [done|]. split.
  { unfold on_q, set_field. cbn [qu]. rewrite Ht, Q. reflexivity. }
  split; [exact J|]. split; [cbn; by rewrite Q|]. split; [exact R|].
  cbn [on_q set_field jfiles NeedsCoreReset NeedsFullReset LastJobFailed qpc].
  rewrite T1, T2, T3, T4, T5, G4, G5, G6, G7, G8, F3, F4, F5, F6, F7, C4.
  clear -x. subst dc x1 d1. unfold classify. cbn [Owner set_field].
  destruct (job_failed res hw), (flag hw RKVDEC2_INT_DEC_TIMEOUT_STA || (res =? STATUS_IO_TIMEOUT)), (Owner x);
    repeat split; reflexivity.
Qed.
