(* ===== verification/JobKick.v ===== *)
(** * The job queue of the rkvdec driver: kicks, interrupts and submission

    Model of the half of [src/driver/rkvdec/job.c] that drives the hardware: the
    local kick, the interrupt routines, foreign jobs, the dispatch of
    promotions, the deferred worker and SUBMIT_DENSE; and of the kick entry of
    [peer_worker.c]. *)

From S2P Require Import Prelude Mmio IommuMap BufPool JobQueue.

Definition RKVDEC2_SWREG_BASE : Z := 0x100.
Definition RKVDEC2_INT_STATUS_OFFSET : Z := RKVDEC2_SWREG_BASE + 0x380.
Definition RKVDEC2_REG_DEC_E_BIT : Z := 1.

Definition wr (off v : Z) (s : jdev) : jdev := log1 (Mm (Wr off v)) s.

(** ** JobKickLocalInner, block by block *)

(** The cross-kick probe. *)
Definition kick_probe (j : Z) (s : jdev) : option jdev :=
  x ← deref j s;
  w ← Common (DenseBank x) !! 1%nat;
  let dec_mode := Z.land w 0x1f in
  let q := qu s in
  let owner_switch := LastValid q && negb (bool_decide (LastOwner q = Owner x)) in
  let mode_switch := LastValid q && negb (LastDecMode q =? dec_mode) in
  s ← upd_job j (fun x =>
        x <| KickDecMode := dec_mode |>
          <| KickPrevDecMode := if LastValid q then LastDecMode q else 0 |>
          <| KickPrevOwner := if LastValid q then LastOwner q else None |>
          <| KickSwitchOwner := owner_switch |> <| KickSwitchMode := mode_switch |>
          <| KickPrevValid := LastValid q |>) s;
  Some (on_q (fun q => q <| LastOwner := Owner x |> <| LastDecMode := dec_mode |>
                         <| LastValid := true |>) s).

(** A call through the CCU interface for this device's core. *)
Definition ccu_call (e : env) (has : ccu_ifc -> Z -> bool) (ops : list ccu_op) (s : jdev) : jdev :=
  match CcuIfc e with
  | Some ccu =>
      if ((Uid e =? 0) || (Uid e =? 1)) && has ccu (Uid e)
      then foldl (fun s op => log1 (CcuCall op (Uid e)) s) s ops else s
  | None => s
  end.

Definition iommu_call (e : env) (has : iommu_ifc -> bool) (op : iommu_op) (s : jdev) : jdev :=
  match IommuIfc e with
  | Some i => if has i then log1 (IommuCall op) s else s
  | None => s
  end.

(** The wide reset: IOMMU off, core reset, IOMMU on; a failed enable asks for
    another wide reset at the next kick. *)
Definition full_reset (e : env) (s : jdev) : jdev :=
  let s := iommu_call e has_Disable IommuDisable s in
  let s := ccu_call e has_FullCoreReset [FullCoreReset] s in
  let s := iommu_call e has_Enable IommuEnable s in
  let s := match IommuIfc e with
           | Some i => if has_Enable i && negb (NT_SUCCESS (Enable_status i))
                       then s <| NeedsFullReset := 1 |> else s
           | None => s
           end in
  s <| NeedsCoreReset := 0 |>.

(** RkMppQueryAndClear... of the two flags, and the reset they ask for. *)
Definition pending_reset (e : env) (s : jdev) : jdev :=
  if negb (NeedsFullReset s =? 0) then full_reset e (s <| NeedsFullReset := 0 |>)
  else
    let s := s <| NeedsFullReset := 0 |> in
    if negb (NeedsCoreReset s =? 0)
    then ccu_call e has_CoreReset [AssertCoreReset; DeassertCoreReset] (s <| NeedsCoreReset := 0 |>)
    else s <| NeedsCoreReset := 0 |>.

Definition cache_setup (e : env) (s : jdev) : jdev :=
  if RKVDEC2_SWREG_BASE + 0x600 <=? MmioLength e then
    foldl (fun s '(off, v) => wr (RKVDEC2_SWREG_BASE + off) v s) s
      [(0x51c, 0x13); (0x55c, 0x13); (0x59c, 0x13); (0x510, 1); (0x550, 1); (0x590, 1)]
  else s.

(** The bank table. *)
Definition banks (b : dense_bank) : list (Z * Z * list Z) :=
  [ (RKMPP_DENSE_COMMON_FIRST, RKMPP_DENSE_COMMON_WORDS, Common b);
    (RKMPP_DENSE_CPARAM_FIRST, RKMPP_DENSE_CPARAM_WORDS, CodecParams b);
    (RKMPP_DENSE_CADDR_FIRST, RKMPP_DENSE_CADDR_WORDS, CommonAddr b);
    (RKMPP_DENSE_CODADDR_FIRST, RKMPP_DENSE_CODADDR_WORDS, CodecAddr b);
    (RKMPP_DENSE_HIPOC_FIRST, RKMPP_DENSE_HIPOC_WORDS, HighPoc b);
    (RKMPP_DENSE_STAT_FIRST, RKMPP_DENSE_STAT_WORDS, Stat b) ].

Definition bank_fits (len : Z) (b : Z * Z * list Z) : bool :=
  let '(firstIdx, count, _) := b in
  firstIdx * 4 + RKVDEC2_SWREG_BASE + count * 4 <=? len.
Definition kickByte : Z := RKMPP_DENSE_KICK_REG_IDX * 4 + RKVDEC2_SWREG_BASE.
Definition window_fits (e : env) (b : dense_bank) : bool :=
  forallb (bank_fits (MmioLength e)) (banks b) && (kickByte + 4 <=? MmioLength e).

(** The writes of one bank; the kick register is left out. *)
Definition bank_word (b : Z * Z * list Z) (s : jdev) (p : Z) : option jdev :=
  let '(firstIdx, _, src) := b in
  let idx := firstIdx + p in
  if idx =? RKMPP_DENSE_KICK_REG_IDX then Some s else
  v ← src !! Z.to_nat p;
  Some (wr (idx * 4 + RKVDEC2_SWREG_BASE) v s).
Definition bank_write (s : jdev) (b : Z * Z * list Z) : option jdev :=
  foldlM (bank_word b) s (seqZ 0 b.1.2).

Definition JobKickLocalInner (e : env) (j : Z) (s : jdev) : option jdev :=
  s ← upd_job j (fun x => x <| StartQpc := qpc s |>) s;
  if negb (MmioBase e) || (MmioLength e =? 0)
  then RkMppJobComplete e STATUS_DEVICE_NOT_READY 0 s else
  s ← kick_probe j s;
  let s := pending_reset e s in
  let s := ccu_call e has_UngateLeafClocks [UngateLeafClocks] s in
  let s := wr RKVDEC2_INT_STATUS_OFFSET 0 s in
  let s := cache_setup e s in
  x ← deref j s;
  if negb (window_fits e (DenseBank x)) then RkMppJobComplete e STATUS_INVALID_PARAMETER 0 s else
  let s := foldl (fun s m => log1 (FlushIo m) s) s (CleanMdls x) in
  s ← foldlM bank_write s (banks (DenseBank x));
  let s := iommu_call e has_FlushTlb IommuFlushTlb s in
  let s := wr kickByte (DenseKickValue x) s in
  if flag (DenseKickValue x) RKVDEC2_REG_DEC_E_BIT then Some s
  else RkMppJobComplete e STATUS_SUCCESS 0 s.

(** ** RkMppEvtIsr and RkMppEvtDpc

    [v] is what the status register reads. *)
Definition RkMppEvtIsr (e : env) (v : Z) (s : jdev) : bool * jdev :=
  let '(hwStatus, s) :=
    if MmioBase e
    then (u32 v, wr RKVDEC2_INT_STATUS_OFFSET 0 (log1 (Mm (Rd RKVDEC2_INT_STATUS_OFFSET (u32 v))) s))
    else (0, s) in
  if hwStatus =? 0 then (false, s)
  else (true, on_q (fun q => q <| LastIsrHwStatus := hwStatus |>) s).

Definition RkMppEvtDpc (e : env) (s : jdev) : option jdev :=
  let hwStatus := LastIsrHwStatus (qu s) in
  let result := if flag hwStatus RKVDEC2_INT_ERROR_MASK then STATUS_DEVICE_HARDWARE_ERROR
                else STATUS_SUCCESS in
  v ← slot 0 (qu s);
  s ← match v with
      | None => Some s
      | Some _ => RkMppJobComplete e result hwStatus s
      end;
  Some (iommu_call e has_FlushTlb IommuFlushTlb s).

(** ** RkMppJobRunForeign

    [a_job] is the answer of the pool; the callback is the last component of the
    result, with the cookie it is given. *)
Definition foreign_job (p : peer_kick_params) : job :=
  zero_job <| Result := STATUS_PENDING |> <| DenseKickValue := KickValue p |>
           <| DenseIovaSlots := take (Z.to_nat (IovaSlotCount p)) (IovaSlots p) |>
           <| DenseBank := Bank p |>.

Definition next_id (q : queue) : Z := u64 (NextId q + 1).
Definition bump_id (s : jdev) : jdev := on_q (fun q => q <| NextId := next_id q |>) s.

Definition foreign_start (p : peer_kick_params) (j : Z) (s : jdev) : option (bool * jdev) :=
  let s := bump_id s in
  let s := s <| jobs ::= insert j ((foreign_job p) <| Id := NextId (qu s) |>) |> in
  v ← slot 0 (qu s);
  match v with
  | Some _ => s ← free_job j s; Some (false, s)
  | None => Some (true, on_q (fun q => clear_idle 0 (set_slot 0 (Some j) q)) s)
  end.

(** After the 100 ms wait. *)
Definition foreign_finish (j : Z) (timedOut : bool) (s : jdev)
  : option (NTSTATUS * Z * jdev) :=
  if timedOut then
    s ← upd_job j (fun x => x <| OrphanOnComplete := true |>) s;
    Some (STATUS_IO_TIMEOUT, 0, s <| NeedsFullReset := 1 |>)
  else
    x ← deref j s;
    s ← unlink j s;
    s ← free_job j s;
    Some (Result x, HardwareStatus x, s).

Definition callback : Type := option (Z * NTSTATUS * Z).

Definition RkMppJobRunForeign (e : env) (wait : waiter) (a_job : option Z) (p : peer_kick_params)
    (s : jdev) : option (NTSTATUS * callback * jdev) :=
  if negb (BankBytes p =? sizeof_DENSE_BANK) then Some (STATUS_INVALID_PARAMETER, None, s) else
  if RKMPP_MAX_DENSE_IOVA_SLOTS <? IovaSlotCount p then Some (STATUS_INVALID_PARAMETER, None, s) else
  match a_job with
  | None => Some (STATUS_INSUFFICIENT_RESOURCES, None, s)
  | Some j =>
      '(started, s) ← foreign_start p j s;
      if negb started then Some (STATUS_DEVICE_BUSY, None, s) else
      s ← JobKickLocalInner e j s;
      '(timedOut, s) ← wait j s;
      '(res, hw, s) ← foreign_finish j timedOut s;
      Some (if (timedOut : bool) then STATUS_IO_TIMEOUT else STATUS_SUCCESS,
            Some (CompletionCookie p, res, hw), s)
  end.

(** ** The provider's side of a peer kick (peer_worker.c)

    PeerKickJob checks and copies the parameters into a work item; the worker
    runs it as a foreign job and drops its status. *)
Record peer_answers := PeerAnswers { a_devobj : bool; a_work : bool; a_item : bool }.

Definition PeerKickJob (a : peer_answers) (p : peer_kick_params) (work : list peer_kick_params)
  : NTSTATUS * list peer_kick_params :=
  if negb (BankBytes p =? sizeof_DENSE_BANK) then (STATUS_INVALID_PARAMETER, work) else
  if RKMPP_MAX_DENSE_IOVA_SLOTS <? IovaSlotCount p then (STATUS_INVALID_PARAMETER, work) else
  if Z.land (KickValue p) RKVDEC2_REG_DEC_E_BIT =? 0 then (STATUS_INVALID_PARAMETER, work) else
  if negb (a_devobj a) then (STATUS_DEVICE_NOT_READY, work) else
  if negb (a_work a) then (STATUS_INSUFFICIENT_RESOURCES, work) else
  if negb (a_item a) then (STATUS_INSUFFICIENT_RESOURCES, work) else
  (STATUS_SUCCESS,
   work ++ [PeerParams (Bank p) sizeof_DENSE_BANK (KickValue p)
              (take (Z.to_nat (IovaSlotCount p)) (IovaSlots p)) (IovaSlotCount p)
              (CompletionCookie p)]).

Definition PeerKickWorker (e : env) (wait : waiter) (a_job : option Z) (w : peer_kick_params) (s : jdev)
  : option (callback * jdev) :=
  '(_, cb, s) ← RkMppJobRunForeign e wait a_job w s; Some (cb, s).

(** ** KickPromotions *)
Definition kick_params (x : job) : peer_kick_params :=
  PeerParams (DenseBank x) sizeof_DENSE_BANK (DenseKickValue x) (DenseIovaSlots x)
             (Z.of_nat (length (DenseIovaSlots x))) (Id x).

(** The hold of the lock that rolls the slot back. *)
Definition rollback_locked (core j : Z) (s : jdev) : option jdev :=
  v ← slot core (qu s);
  let s := if bool_decide (v = Some j)
           then on_q (fun q => dec_pending core (set_idle core (set_slot core None q))) s else s in
  Some (on_q (fun q => q <| Completed ::= fun l => l ++ [j] |>) s).

(** The result is stored and the event set after the lock is released. *)
Definition fail_signal (j : Z) (st : NTSTATUS) (s : jdev) : option jdev :=
  s ← upd_job j (fun x => x <| Result := st |>) s; signal j s.

(** The status of the dispatch to the peer: [None] when the peer is closed. *)
Definition peer_dispatch (j : Z) (s : jdev) : option (NTSTATUS * jdev) :=
  match PeerOpen (qu s), Peer (qu s) with
  | true, Some kick =>
      x ← deref j s;
      let s := foldl (fun s m => log1 (FlushIo m) s) s (CleanMdls x) in
      let s := flush_opt (ColmvCurMdl x) s in
      Some (kick (kick_params x), log1 (PeerKick (kick_params x)) s)
  | _, _ => Some (STATUS_DEVICE_NOT_READY, s)
  end.

Definition kick_one (e : env) (s : jdev) (p : Z * Z) : option jdev :=
  let '(j, core) := p in
  if core =? 0 then JobKickLocalInner e j s
  else
    '(st, s) ← peer_dispatch j s;
    if NT_SUCCESS st then Some s
    else s ← rollback_locked core j s; fail_signal j st s.

Definition KickPromotions (e : env) (promos : list (Z * Z)) (s : jdev) : option jdev :=
  foldlM (kick_one e) s promos.

(** ** RkMppKickWorker

    [drain_once] is the hold of the lock at the head of the loop: [None] when the
    worker leaves.  [others] is what other threads do while the lock is free. *)
Definition drain_once (s : jdev) : option (option (list (Z * Z)) * jdev) :=
  if negb (KickRearm (qu s)) then Some (None, on_q (fun q => q <| KickActive := false |>) s)
  else
    '(promos, s) ← PromoteUntilFull (on_q (fun q => q <| KickRearm := false |>) s);
    Some (Some promos, s).

Fixpoint RkMppKickWorker (e : env) (others : jdev -> option jdev) (fuel : nat) (s : jdev)
  : option (bool * jdev) :=
  match fuel with
  | O => Some (false, s)
  | S fuel' =>
      '(r, s) ← drain_once s;
      match (r : option (list (Z * Z))) with
      | None => Some (true, s)
      | Some promos =>
          s ← KickPromotions e promos s;
          s ← others s;
          RkMppKickWorker e others fuel' s
      end
  end.

(** ** RkMppJobSubmitDense *)
Record submit_in := SubmitIn {
  InIovaSlotCount : Z; InBufRefCount : Z; InKickValue : Z; InBank : dense_bank;
  InIovaSlots : list iova_slot; InBufRefs : list buf_ref }.

(** Walking the buffer list of a context: one that RkMppBufFileCtxInit has not
    initialised holds a null head, which the walk follows. *)
Definition walk_ctx (f : jfile) : option file_ctx := if f_inited f then Some (f_ctx f) else None.

(** Stamp a word of the bank at a register index, when an address bank holds it. *)
Definition stamp (idx v : Z) (b : dense_bank) : option dense_bank :=
  if (RKMPP_DENSE_CADDR_FIRST <=? idx) && (idx <=? RKMPP_DENSE_CADDR_LAST)
  then Some (b <| CommonAddr ::= insert (Z.to_nat (idx - RKMPP_DENSE_CADDR_FIRST)) v |>)
  else if (RKMPP_DENSE_CODADDR_FIRST <=? idx) && (idx <=? RKMPP_DENSE_CODADDR_LAST)
  then Some (b <| CodecAddr ::= insert (Z.to_nat (idx - RKMPP_DENSE_CODADDR_FIRST)) v |>)
  else None.

Definition add_clean (m : MDL) (x : job) : job :=
  if decide (m ∈ CleanMdls x) then x
  else if decide (length (CleanMdls x) < 8)%nat then x <| CleanMdls ::= fun l => l ++ [m] |>
  else x.

Definition input_reg (byteOff : Z) : bool :=
  (byteOff =? 0x200) || (byteOff =? 0x204) || (byteOff =? 0x280) ||
  (byteOff =? 0x284) || (byteOff =? 0x28C) || (byteOff =? 0x2D0).

(** The cache-maintenance class of a slot other than reg162 and reg172. *)
Definition classify_mdl (byteOff : Z) (m : MDL) (x : job) : job :=
  if byteOff =? 0x208 then
    if is_none (OutputFrameMdl x) then x <| OutputFrameMdl := Some m |> else x
  else if byteOff =? 0x20C then
    add_clean m (if is_none (ColmvCurMdl x) then x <| ColmvCurMdl := Some m |> else x)
  else if input_reg byteOff then add_clean m x
  else x.

(** The state of the resolve loop: the job under construction and the handles of
    reg162 and reg172. *)
Record resolving := Resolving { r_job : job; reg162Handle : Z; reg172Handle : Z }.
#[export] Instance eta_resolving : Eta resolving := fun r =>
  Resolving (r_job r) (reg162Handle r) (reg172Handle r).

Definition resolve_slot (f : jfile) (src : iova_slot) (r : resolving)
  : option (NTSTATUS * resolving) :=
  let r := r <| r_job ::= fun x => x <| DenseIovaSlots ::= fun l => l ++ [src] |> |> in
  if negb (RkMppDenseIsAddressReg (RegIdx src)) then Some (STATUS_INVALID_PARAMETER, r) else
  if SlotHandle src =? 0 then Some (STATUS_INVALID_PARAMETER, r) else
  c ← walk_ctx f;
  let '(s, iova, bufSize) := RkMppBufLookupIovaLocked c (SlotHandle src) in
  if negb (NT_SUCCESS s) then Some (STATUS_INVALID_HANDLE, r) else
  if bufSize <=? IovaOffset src then Some (STATUS_INVALID_PARAMETER, r) else
  match stamp (RegIdx src) (u32 (iova + IovaOffset src)) (DenseBank (r_job r)) with
  | None => Some (STATUS_INVALID_PARAMETER, r)
  | Some b =>
      let r := r <| r_job ::= fun x => x <| DenseBank := b |> |> in
      match RkMppBufLookupMdlLocked c (SlotHandle src) with
      | (s, Some m) =>
          if negb (NT_SUCCESS s) then Some (STATUS_SUCCESS, r) else
          let byteOff := u32 (RegIdx src * 4) in
          if byteOff =? 0x288 then Some (STATUS_SUCCESS, r <| reg162Handle := SlotHandle src |>)
          else if byteOff =? 0x2B0 then Some (STATUS_SUCCESS, r <| reg172Handle := SlotHandle src |>)
          else Some (STATUS_SUCCESS, r <| r_job ::= classify_mdl byteOff m |>)
      | (_, None) => Some (STATUS_SUCCESS, r)
      end
  end.

Fixpoint resolve_loop (f : jfile) (l : list iova_slot) (r : resolving) : option (NTSTATUS * resolving) :=
  match l with
  | [] => Some (STATUS_SUCCESS, r)
  | src :: l' =>
      '(s, r) ← resolve_slot f src r;
      if NT_SUCCESS s then resolve_loop f l' r else Some (s, r)
  end.

(** reg162 is cleaned when it names another buffer than reg172. *)
Definition resolve_reg162 (f : jfile) (r : resolving) : option job :=
  if negb (reg162Handle r =? 0) && negb (reg162Handle r =? reg172Handle r) then
    c ← walk_ctx f;
    match RkMppBufLookupMdlLocked c (reg162Handle r) with
    | (s, Some m) => Some (if NT_SUCCESS s then add_clean m (r_job r) else r_job r)
    | (_, None) => Some (r_job r)
    end
  else Some (r_job r).

Definition RKMPP_MAX_PENDING_JOBS : Z := 8.
Definition RKMPP_MAX_PENDING_JOBS_PER_FILE : Z := 4.

(** The two counts of the admission control; the walk stops when both caps are
    reached. *)
Fixpoint count_pending (File : nat) (l : list Z) (pendingCount ownerCount : Z) (s : jdev)
  : option (Z * Z) :=
  match l with
  | [] => Some (pendingCount, ownerCount)
  | j :: l' =>
      x ← deref j s;
      let pendingCount := pendingCount + 1 in
      let ownerCount := if owned_by File x then ownerCount + 1 else ownerCount in
      if (RKMPP_MAX_PENDING_JOBS <=? pendingCount) && (RKMPP_MAX_PENDING_JOBS_PER_FILE <=? ownerCount)
      then Some (pendingCount, ownerCount)
      else count_pending File l' pendingCount ownerCount s
  end.

Fixpoint count_inflight (File : nat) (l : list Z) (s : jdev) : option Z :=
  match l with
  | [] => Some 0
  | c :: l' =>
      n ← count_inflight File l' s;
      v ← slot c (qu s);
      match v with
      | None => Some n
      | Some j => x ← deref j s; Some (if owned_by File x then n + 1 else n)
      end
  end.

Definition admission_full (File : nat) (s : jdev) : option bool :=
  inflight ← count_inflight File (cores (qu s)) s;
  '(pendingCount, ownerCount) ← count_pending File (Pending (qu s)) 0 inflight s;
  Some ((RKMPP_MAX_PENDING_JOBS <=? pendingCount) || (RKMPP_MAX_PENDING_JOBS_PER_FILE <=? ownerCount)).

(** Everything up to the release of the file lock: a failing status, or the job
    with the promotions to kick.  [a_job] is the answer of the pool. *)
Definition submit_locked (File : nat) (i : submit_in) (a_job : option Z) (s : jdev)
  : option ((NTSTATUS + Z * list (Z * Z)) * jdev) :=
  if (RKMPP_MAX_DENSE_IOVA_SLOTS <? InIovaSlotCount i) || (RKMPP_MAX_BUF_REFS <? InBufRefCount i)
  then Some (inl STATUS_INVALID_PARAMETER, s) else
  if Z.land (InKickValue i) RKVDEC2_REG_DEC_E_BIT =? 0 then Some (inl STATUS_INVALID_PARAMETER, s) else
  match a_job with
  | None => Some (inl STATUS_INSUFFICIENT_RESOURCES, s)
  | Some j =>
      f ← jfiles s !! File;
      let x := zero_job <| Owner := Some File |> <| DenseKickValue := InKickValue i |>
                        <| DenseBank := InBank i |> in
      '(st, r) ← resolve_loop f (take (Z.to_nat (InIovaSlotCount i)) (InIovaSlots i)) (Resolving x 0 0);
      if negb (NT_SUCCESS st) then Some (inl st, s) else
      x ← resolve_reg162 f r;
      let x := x <| BufRefs := take (Z.to_nat (InBufRefCount i)) (InBufRefs i) |> in
      let s := bump_id s in
      let x := x <| Id := NextId (qu s) |> in
      full ← admission_full File s;
      if (full : bool) then Some (inl STATUS_DEVICE_BUSY, s) else
      let s := on_q (fun q => q <| Pending ::= fun l => l ++ [j] |>)
                 (s <| jobs ::= insert j x |>) in
      '(promos, s) ← PromoteUntilFull s;
      Some (inr (j, promos), s)
  end.

Definition RkMppJobSubmitDense (e : env) (File : nat) (i : submit_in) (a_job : option Z) (s : jdev)
  : option (NTSTATUS * option Z * jdev) :=
  '(r, s) ← submit_locked File i a_job s;
  match (r : NTSTATUS + Z * list (Z * Z)) with
  | inl st => Some (st, None, s)
  | inr (j, promos) =>
      s ← KickPromotions e promos s;
      x ← deref j s;
      Some (STATUS_SUCCESS, Some (Id x), s)
  end.

(** ** The detach with its short wait (device.c) *)
Definition RkMppDetachPeer (wait : waiter) (s : jdev) : option jdev :=
  let wasOpen := PeerOpen (qu s) in
  peerJob ← slot 1 (qu s);
  let s := on_q detach_locked s in
  if negb wasOpen then Some s else
  match peerJob with
  | Some j => '(_, s) ← wait j s; Some s
  | None => Some s
  end.

(** ** IOCTL_RKMPP_FREE_BUFFER (ioctl.c)

    RkMppFreeBufInUseCb hands the question of the buffer pool to the job queue,
    under the file lock; [acq] is as in [RkMppBufFreeIfNotInUse]. *)
Definition RkMppFreeBufInUseCb (File : nat) (s : jdev) (Cookie : Z) : option bool :=
  RkMppJobBufferInUse File Cookie s.

Definition ioctl_FREE_BUFFER {W} `{!IommuProvider W} (acq : Z -> NTSTATUS) (File : nat) (Cookie : Z)
    (s : jdev) (p : pool W) : option (NTSTATUS * pool W) :=
  f ← jfiles s !! File;
  if negb (f_inited f) then Some (STATUS_NOT_FOUND, p) else
  if Cookie =? 0 then Some (STATUS_INVALID_PARAMETER, p) else
  b ← RkMppFreeBufInUseCb File s Cookie;
  RkMppBufFreeIfNotInUse acq File Cookie (Some (fun _ => b)) p.
