(* ===== verification/JobPromoteFacts.v ===== *)
(** * Facts about promotion

    What one promotion does ([promote_step]), that PromoteUntilFull is a sequence
    of them ([promotes]) that stops only with an empty list or full cores, and
    what a sequence preserves. *)

From S2P Require Import Prelude Mmio IommuMap BufPool JobQueue JobQueueFacts.

(** ** The least recently kicked owner *)
Definition score (d : jdev) (j : Z) : Z :=
  match jobs d !! j with Some x => lru_score (OwnerLru (qu d)) (Owner x) | None => 0 end.

Lemma lru_score_range q o :
  lru_ok q -> 0 <= NextId q < 2 ^ 64 -> 0 <= lru_score (OwnerLru q) o < 2 ^ 64.
Proof.
  unfold lru_ok. intros Hl' Hn. induction (OwnerLru q) as [|[f k] l IH]; simpl; [lia|].
  apply Forall_cons in Hl' as [Hk Hl']. simpl in Hk. destruct (decide (f = o)); [lia|auto].
Qed.

Lemma score_range d j : queue_ok (sigs d) (qu d) -> 0 <= score d j < 2 ^ 64.
Proof.
  intros Hok. unfold score. destruct (jobs d !! j); [|lia].
  apply lru_score_range; apply Hok.
Qed.

Lemma lru_scan_spec d l best h :
  queue_ok (sigs d) (qu d) -> (forall j, j ∈ l -> is_Some (sigs d !! j)) -> 0 <= best ->
  exists j, lru_scan (OwnerLru (qu d)) l best h d = Some j /\
    ((j = h /\ forall k, k ∈ l -> best <= score d k) \/
     (score d j < best /\ exists l1 l2, l = l1 ++ j :: l2 /\
        (forall k, k ∈ l1 -> score d j < score d k) /\ (forall k, k ∈ l2 -> score d j <= score d k))).
Proof.
  intros Hok. revert best h. induction l as [|j l IH]; intros best h Hl Hb; simpl.
  - exists h. split; [done|]. left. split; [done|]. intros k Hk. by apply elem_of_nil in Hk.
  - destruct (live_job d j) as [x Hx]; [apply Hl; by left|]. unfold deref. rewrite Hx. ostep.
    assert (Es : lru_score (OwnerLru (qu d)) (Owner x) = score d j) by (unfold score; by rewrite Hx).
    rewrite Es. pose proof (score_range d j Hok) as Hr.
    assert (Hl' : forall k, k ∈ l -> is_Some (sigs d !! k)) by (intros; apply Hl; by right).
    destruct (Z.ltb_spec (score d j) best).
    + destruct (Z.eqb_spec (score d j) 0).
      * exists j. split; [done|]. right. split; [done|]. exists [], l. split; [done|].
        split; [intros k Hk; by apply elem_of_nil in Hk|]. intros k _. pose proof (score_range d k Hok). lia.
      * destruct (IH (score d j) j Hl') as (r & -> & Hres); [lia|]. exists r. split; [done|]. right.
        destruct Hres as [[-> Hall]|(Hlt & l1 & l2 & -> & H1 & H2)].
        -- split; [done|]. exists [], l. split; [done|]. split; [intros k Hk; by apply elem_of_nil in Hk|done].
        -- split; [lia|]. exists (j :: l1), l2. split; [done|]. split; [|done].
           intros k [->|Hk]%elem_of_cons; [lia|auto].
    + destruct (IH best h Hl' Hb) as (r & -> & Hres). exists r. split; [done|].
      destruct Hres as [[-> Hall]|(Hlt & l1 & l2 & -> & H1 & H2)].
      * left. split; [done|]. intros k [->|Hk]%elem_of_cons; auto.
      * right. split; [done|]. exists (j :: l1), l2. split; [done|]. split; [|done].
        intros k [->|Hk]%elem_of_cons; [lia|auto].
Qed.

Lemma list_remove_split j l1 l2 : j ∉ l1 -> list_remove_Z j (l1 ++ j :: l2) = l1 ++ l2.
Proof.
  induction l1 as [|x l1 IH]; simpl; intros Hn; [by rewrite Z.eqb_refl|].
  apply not_elem_of_cons in Hn as [Hne Hn]. destruct (Z.eqb_spec x j); [congruence|]. by rewrite IH.
Qed.

(** The fair choice: of the lowest score, and the first of its kind. *)
Definition fair (d : jdev) (l1 : list Z) (j : Z) (l2 : list Z) : Prop :=
  (forall k, k ∈ l1 -> score d j < score d k) /\ (forall k, k ∈ l2 -> score d j <= score d k).

Lemma pending_live d j : queue_ok (sigs d) (qu d) -> j ∈ Pending (qu d) -> is_Some (sigs d !! j).
Proof. intros Hok Hj. apply (qo_live _ _ Hok). unfold q_all. rewrite !elem_of_app. by left. Qed.

Lemma pick_pending_outcome d :
  queue_ok (sigs d) (qu d) -> Pending (qu d) <> [] ->
  exists j x l1 l2, Pending (qu d) = l1 ++ j :: l2 /\ jobs d !! j = Some x /\ fair d l1 j l2 /\
    PickPendingByOwnerLru d = Some (Some j, on_q (fun q => q <| Pending := l1 ++ l2 |>) d).
Proof.
  intros Hok Hne. unfold PickPendingByOwnerLru. destruct (Pending (qu d)) as [|h t] eqn:EP; [done|].
  assert (Hl : forall j, j ∈ h :: t -> is_Some (sigs d !! j)).
  { intros j Hj. apply pending_live; [done|]. by rewrite EP. }
  destruct (lru_scan_spec d (h :: t) (2 ^ 64 - 1) h Hok Hl) as (j & Ej & Hj); [lia|].
  rewrite Ej. ostep.
  assert (Hsp : exists l1 l2, h :: t = l1 ++ j :: l2 /\ fair d l1 j l2).
  { destruct Hj as [[-> Hall]|(_ & l1 & l2 & E & H)]; [|eauto]. exists [], t. split; [done|].
    split; [intros k Hk; by apply elem_of_nil in Hk|]. intros k Hk.
    pose proof (score_range d h Hok). specialize (Hall k ltac:(by right)). lia. }
  destruct Hsp as (l1 & l2 & Esp & Hfair).
  assert (Hin : j ∈ h :: t) by (rewrite Esp; apply elem_of_app; right; by left).
  destruct (live_job d j (Hl j Hin)) as [x Hx].
  rewrite (unlink_eq j d) by (rewrite ?EP; eauto; apply elem_of_app; by left). ostep.
  exists j, x, l1, l2. split; [done|]. split; [done|]. split; [done|].
  assert (Hn : j ∉ l1).
  { pose proof (qo_nodup _ _ Hok) as Hnd. unfold q_all in Hnd. rewrite EP, Esp in Hnd.
    apply NoDup_app in Hnd as (Hnd & _ & _). apply NoDup_app in Hnd as (_ & Hd & _).
    intros Hc. apply (Hd j Hc). by left. }
  unfold on_q, set_field at 1, unlinkq. simpl. rewrite EP, decide_True by done.
  repeat f_equal. unfold set_field. simpl. by rewrite EP, Esp, list_remove_split.
Qed.

(** ** One promotion *)
Record promote_step (d : jdev) (j core : Z) (d' : jdev) : Prop := PromoteStep {
  ps_core : 0 <= core < CoreCount (qu d);
  ps_free : InFlightPerCore (qu d) !! Z.to_nat core = Some None;
  ps_turn : core = LastKickCore (qu d) -> forall k, Z.of_nat k < CoreCount (qu d) ->
            InFlightPerCore (qu d) !! k = Some None -> k = Z.to_nat core;
  ps_pick : exists x l1 l2, Pending (qu d) = l1 ++ j :: l2 /\ jobs d !! j = Some x /\ fair d l1 j l2 /\
            d' = d <| jobs := <[j := x <| TargetCore := core |>]> (jobs d) |>
                   <| qu := occupy core j (Owner x) (Id x) ((qu d) <| Pending := l1 ++ l2 |>) |>;
}.

Inductive promotes : jdev -> list (Z * Z) -> jdev -> Prop :=
  | promotes_nil d : promotes d [] d
  | promotes_cons d j core d1 ps d2 :
      promote_step d j core d1 -> promotes d1 ps d2 -> promotes d ((j, core) :: ps) d2.

Lemma lru_upsert_ok o id lru n :
  Forall (fun e => 0 <= e.2 <= n) lru -> 0 <= id <= n -> Forall (fun e => 0 <= e.2 <= n) (lru_upsert o id lru).
Proof.
  intros Hl Hid. unfold lru_upsert. destruct o as [f|]; [|done]. destruct lru as [|[g k] l]; [done|].
  by apply Forall_insert.
Qed.

Lemma promote_step_ok d j core d' :
  queue_ok (sigs d) (qu d) -> promote_step d j core d' ->
  queue_ok (sigs d') (qu d') /\ q_all (qu d') ≡ₚ q_all (qu d).
Proof.
  intros Hok [Hc Hf _ (x & l1 & l2 & EP & Hx & _ & ->)].
  pose proof (qo_core _ _ Hok) as Hcore. pose proof (co_count Hcore) as Hcc.
  assert (Hjn : forall c, InFlightPerCore (qu d) !! c <> Some (Some j)).
  { intros c Hcj. pose proof (qo_nodup _ _ Hok) as Hnd. unfold q_all in Hnd. rewrite app_assoc in Hnd.
    apply NoDup_app in Hnd as (_ & Hd & _). apply (Hd j).
    - rewrite EP, !elem_of_app. left; right; by left.
    - apply elem_of_inflight. eauto. }
  set (q1 := (qu d) <| Pending := l1 ++ l2 |>).
  assert (Hall1 : j :: q_all q1 ≡ₚ q_all (qu d)).
  { change (q_all q1) with ((l1 ++ l2) ++ Completed (qu d) ++ omap id (InFlightPerCore (qu d))).
    unfold q_all. rewrite EP, <- !app_assoc. simpl. by rewrite <- Permutation_middle. }
  assert (exists c, core = Z.of_nat c) as [c ->] by (exists (Z.to_nat core); lia). rewrite Nat2Z.id in Hf.
  assert (Hall : q_all (occupy (Z.of_nat c) j (Owner x) (Id x) q1) ≡ₚ q_all (qu d)).
  { rewrite (occupy_all c j (Owner x) (Id x) q1 Hf). exact Hall1. }
  split; [|exact Hall].
  assert (Hu : queue_ok (<[j := sig (x <| TargetCore := Z.of_nat c |>)]> (sigs d)) (qu d)).
  { eapply queue_ok_upd; [exact Hok|by apply lookup_sigs|done|done|by right]. }
  assert (Esig : sigs (d <| jobs := <[j := x <| TargetCore := Z.of_nat c |>]> (jobs d) |>
                         <| qu := occupy (Z.of_nat c) j (Owner x) (Id x) q1 |>)
                 = <[j := sig (x <| TargetCore := Z.of_nat c |>)]> (sigs d)) by apply fmap_insert.
  rewrite Esig. clear Esig.
  change (queue_ok (<[j := sig (x <| TargetCore := Z.of_nat c |>)]> (sigs d))
            (occupy (Z.of_nat c) j (Owner x) (Id x) q1)).
  eapply queue_ok_perm; [exact Hu| |exact Hall|done| |].
  - apply (core_ok_occupy c j (Owner x) (Id x) q1); [lia|done|]. by eapply core_ok_ext, Hcore.
  - apply lru_upsert_ok; [apply Hok|]. pose proof (qo_id _ _ Hok _ _ (lookup_sigs _ _ _ Hx)) as Hid.
    simpl in Hid. change (0 <= Id x <= NextId (qu d)). lia.
  - change (InFlightPerCore (occupy (Z.of_nat c) j (Owner x) (Id x) q1))
      with (<[Z.to_nat (Z.of_nat c) := Some j]> (InFlightPerCore (qu d))). rewrite Nat2Z.id.
    intros c' k y [[-> [= ->]]|[Hne Hk]]%insert_slot_inv Hy.
    + rewrite lookup_insert_eq in Hy. by injection Hy as <-.
    + rewrite lookup_insert_ne in Hy by (intros ->; by eapply Hjn). by eapply (qo_target _ _ Hok).
Qed.

(** ** Sequences of promotions *)

(** What a promotion leaves alone. *)
Definition pframe (d : jdev) :=
  (jfiles d, NeedsCoreReset d, NeedsFullReset d, LastJobFailed d, qpc d, devlog d,
   (Completed (qu d), NextId (qu d), CoreCount (qu d), PeerOpen (qu d), Peer (qu d),
    KickActive (qu d), KickRearm (qu d))).

(** Jobs change in their target only. *)
Definition retargeted (h h' : gmap Z job) : Prop :=
  forall k, (fun x => x <| TargetCore := 0 |>) <$> h' !! k = (fun x => x <| TargetCore := 0 |>) <$> h !! k.

Lemma retargeted_trans h1 h2 h3 : retargeted h1 h2 -> retargeted h2 h3 -> retargeted h1 h3.
Proof. intros H1 H2 k. by rewrite H2, H1. Qed.

Lemma retargeted_Some h h' k x :
  retargeted h h' -> h !! k = Some x -> exists t, h' !! k = Some (x <| TargetCore := t |>).
Proof.
  intros Hr Hk. specialize (Hr k). rewrite Hk in Hr. simpl in Hr.
  destruct (h' !! k) as [y|]; [|done]. simpl in Hr. exists (TargetCore y).
  destruct x, y. unfold set_field in *. simpl in *. injection Hr as -> -> -> -> -> -> -> -> -> -> -> -> -> -> -> -> -> -> -> -> -> ->.
  done.
Qed.

Lemma retargeted_inv h h' k y :
  retargeted h h' -> h' !! k = Some y -> exists x, h !! k = Some x /\ y = x <| TargetCore := TargetCore y |>.
Proof.
  intros Hr Hk. pose proof (Hr k) as E. rewrite Hk in E. destruct (h !! k) as [x|] eqn:Ex; [|done].
  destruct (retargeted_Some h h' k x Hr Ex) as [t Ht]. exists x. split; [done|].
  rewrite Hk in Ht. injection Ht as ->. done.
Qed.

Record promoted (d : jdev) (ps : list (Z * Z)) (d' : jdev) : Prop := Promoted {
  pr_ok : queue_ok (sigs d') (qu d');
  pr_all : q_all (qu d') ≡ₚ q_all (qu d);
  pr_frame : pframe d' = pframe d;
  pr_jobs : retargeted (jobs d) (jobs d');
  pr_pending : Pending (qu d') ⊆ Pending (qu d);
  pr_keep c j : InFlightPerCore (qu d) !! c = Some (Some j) -> InFlightPerCore (qu d') !! c = Some (Some j);
  pr_new c j : InFlightPerCore (qu d') !! c = Some (Some j) ->
    InFlightPerCore (qu d) !! c = Some (Some j) \/ (j, Z.of_nat c) ∈ ps;
  pr_slot j c : (j, c) ∈ ps -> 0 <= c < CoreCount (qu d) /\ j ∈ Pending (qu d) /\
    InFlightPerCore (qu d') !! Z.to_nat c = Some (Some j);
  pr_nodup : NoDup ps.*1;
}.

Lemma promoted_nil d : queue_ok (sigs d) (qu d) -> promoted d [] d.
Proof.
  intros Hok. split; try done; auto.
  - intros j c H. by apply elem_of_nil in H.
  - constructor.
Qed.

Lemma promote_step_fields d j core d' :
  promote_step d j core d' ->
  exists x l1 l2, Pending (qu d) = l1 ++ j :: l2 /\ jobs d !! j = Some x /\
    InFlightPerCore (qu d') = <[Z.to_nat core := Some j]> (InFlightPerCore (qu d)) /\
    Pending (qu d') = l1 ++ l2 /\ pframe d' = pframe d /\ CoreCount (qu d') = CoreCount (qu d) /\
    jobs d' = <[j := x <| TargetCore := core |>]> (jobs d).
Proof.
  intros [_ _ _ (x & l1 & l2 & EP & Hx & _ & ->)]. exists x, l1, l2. split; [done|]. split; [done|].
  split; [reflexivity|]. split; [reflexivity|]. split; [|split; reflexivity].
  unfold pframe. cbn [set_field qu jfiles NeedsCoreReset NeedsFullReset LastJobFailed qpc devlog].
  reflexivity.
Qed.

Lemma promoted_cons d j core d1 ps d2 :
  queue_ok (sigs d) (qu d) -> promote_step d j core d1 -> promoted d1 ps d2 ->
  promoted d ((j, core) :: ps) d2.
Proof.
  intros Hok Hst [R1 R2 R3 R4 R5 R6 R7 R8 R9].
  destruct (promote_step_ok d j core d1 Hok Hst) as [Hok1 Hall1].
  destruct (promote_step_fields _ _ _ _ Hst) as (x & l1 & l2 & EP & Hx & Ei & Ep & Ef & Ec & Ej).
  destruct Hst as [Hc Hf _ _].
  assert (Hlen : (Z.to_nat core < length (InFlightPerCore (qu d)))%nat) by (by eapply lookup_lt_Some).
  assert (Hin : InFlightPerCore (qu d1) !! Z.to_nat core = Some (Some j)).
  { rewrite Ei. by apply list_lookup_insert_eq. }
  assert (Hnp : j ∉ Pending (qu d1)).
  { intros Hj. pose proof (qo_nodup _ _ Hok1) as Hnd. unfold q_all in Hnd.
    apply NoDup_app in Hnd as (_ & Hd & _). apply (Hd j Hj). apply elem_of_app. right.
    apply elem_of_inflight. eauto. }
  split.
  - done.
  - by rewrite R2.
  - by rewrite R3.
  - eapply retargeted_trans; [|exact R4]. intros k. rewrite Ej.
    destruct (decide (k = j)) as [->|]; [|by rewrite lookup_insert_ne].
    rewrite lookup_insert_eq, Hx. done.
  - intros k Hk. apply R5 in Hk. rewrite Ep in Hk. rewrite EP. apply elem_of_app in Hk.
    apply elem_of_app. destruct Hk; [by left|right; by right].
  - intros c k Hk. apply R6. rewrite Ei, list_lookup_insert_ne; [done|]. intros <-. congruence.
  - intros c k Hk. destruct (R7 c k Hk) as [H1|H1]; [|right; by right].
    rewrite Ei in H1. apply insert_slot_inv in H1 as [[-> [= ->]]|[_ H1]]; [|by left].
    right. rewrite Z2Nat.id by lia. by left.
  - intros k c [[= -> ->]|Hk]%elem_of_cons.
    + split; [lia|]. split; [|by apply R6]. rewrite EP. apply elem_of_app. right. by left.
    + destruct (R8 k c Hk) as (H1 & H2 & H3). rewrite Ec in H1. split; [done|]. split; [|done].
      rewrite Ep in H2. rewrite EP. apply elem_of_app in H2. apply elem_of_app.
      destruct H2; [by left|right; by right].
  - simpl. apply NoDup_cons. split; [|done]. intros Hj. apply list_elem_of_fmap in Hj as ([k c] & E & Hk).
    simpl in E. subst k. destruct (R8 _ _ Hk) as (_ & H2 & _). done.
Qed.

Lemma promotes_promoted (d : jdev) ps (d' : jdev) :
  promotes d ps d' -> queue_ok (sigs d) (qu d) -> promoted d ps d'.
Proof.
  intros Hp. induction Hp as [d|d j core d1 ps d2 Hst _ IH]; intros Hok; [by apply promoted_nil|].
  eapply promoted_cons; [done|exact Hst|]. apply IH. by eapply promote_step_ok.
Qed.

(** ** The loop *)
Definition free_cores (q : queue) : nat :=
  length (filter (fun v => v = None) (take (Z.to_nat (CoreCount q)) (InFlightPerCore q))).
Definition all_busy (q : queue) : Prop :=
  forall c v, Z.of_nat c < CoreCount q -> InFlightPerCore q !! c = Some v -> v <> None.

Lemma free_cores_fill q q' c j :
  CoreCount q' = CoreCount q -> InFlightPerCore q' = <[c := Some j]> (InFlightPerCore q) ->
  Z.of_nat c < CoreCount q -> InFlightPerCore q !! c = Some None ->
  free_cores q = S (free_cores q').
Proof.
  intros E1 E2 Hc Hf. unfold free_cores. rewrite E1, E2.
  assert (Hc' : (c < Z.to_nat (CoreCount q))%nat) by lia. clear E1 E2 Hc. revert Hc' Hf.
  generalize (Z.to_nat (CoreCount q)) as n. revert c. clear.
  induction (InFlightPerCore q) as [|v l IH]; intros [|c] [|n] Hc Hf; simpl in *; try done; try lia.
  - injection Hf as ->. rewrite filter_cons_True, filter_cons_False by done. done.
  - destruct v.
    + rewrite !filter_cons_False by done. apply IH; [lia|done].
    + rewrite !filter_cons_True by done. simpl. f_equal. apply IH; [lia|done].
Qed.

Lemma free_cores_0 q : free_cores q = 0%nat -> all_busy q.
Proof.
  unfold free_cores. intros H c v Hc Hv ->. apply length_zero_iff_nil in H.
  assert (Hin : None ∈ filter (fun v => v = None) (take (Z.to_nat (CoreCount q)) (InFlightPerCore q))).
  { apply list_elem_of_filter. split; [done|]. apply list_elem_of_lookup. exists c.
    rewrite lookup_take_lt by lia. done. }
  rewrite H in Hin. by apply elem_of_nil in Hin.
Qed.

Lemma promote_loop_outcome fuel d :
  queue_ok (sigs d) (qu d) -> (free_cores (qu d) <= fuel)%nat ->
  exists ps d', promote_loop fuel d = Some (ps, d') /\ promotes d ps d' /\
    (Pending (qu d') = [] \/ all_busy (qu d')).
Proof.
  revert d. induction fuel as [|fuel IH]; intros d Hok Hfuel; simpl.
  - exists [], d. split; [done|]. split; [constructor|]. right. apply free_cores_0. lia.
  - destruct (Pending (qu d)) as [|h t] eqn:EP.
    + exists [], d. split; [done|]. split; [constructor|]. by left.
    + destruct (pick_core_spec (qu d) (qo_core _ _ Hok)) as (core & -> & Hcore). ostep.
      destruct Hcore as [[-> Hbusy]|(Hc & Hf & Hturn)].
      * simpl. exists [], d. split; [done|]. split; [constructor|]. right. exact Hbusy.
      * destruct (Z.ltb_spec core 0); [lia|].
        destruct (pick_pending_outcome d Hok) as (j & x & l1 & l2 & EP' & Hx & Hfair & ->); [by rewrite EP|].
        ostep. set (d0 := on_q _ d).
        set (d1 := d <| jobs := <[j := x <| TargetCore := core |>]> (jobs d) |>
                     <| qu := occupy core j (Owner x) (Id x) ((qu d) <| Pending := l1 ++ l2 |>) |>).
        assert (Hst : promote_step d j core d1) by (split; eauto 10).
        assert (E1 : promote_one core j d0 = Some d1).
        { unfold promote_one. rewrite (upd_job_eq j _ d0 x Hx). ostep. unfold deref.
          cbn [jobs set_field]. rewrite lookup_insert_eq. ostep.
          change (slot core (qu (d0 <| jobs := <[j := x <| TargetCore := core |>]> (jobs d0) |>)))
            with (InFlightPerCore (qu d) !! Z.to_nat core). rewrite Hf. ostep. reflexivity. }
        rewrite E1. ostep. destruct (promote_step_ok d j core d1 Hok Hst) as [Hok1 _].
        destruct (IH d1 Hok1) as (ps & d2 & -> & Hps & Hstop).
        { pose proof (free_cores_fill (qu d) (qu d1) (Z.to_nat core) j eq_refl eq_refl ltac:(lia) Hf). lia. }
        ostep. exists ((j, core) :: ps), d2. split; [done|]. split; [|done]. by econstructor.
Qed.

Lemma promote_until_full_outcome d :
  queue_ok (sigs d) (qu d) ->
  exists ps d', PromoteUntilFull d = Some (ps, d') /\ promotes d ps d' /\
    (Pending (qu d') = [] \/ all_busy (qu d')).
Proof.
  intros Hok. apply promote_loop_outcome; [done|]. unfold free_cores.
  etransitivity; [apply length_filter|]. rewrite length_take. lia.
Qed.

(** ** The table of last kicks *)

(** The slot of the upsert: the owner's entry when there is one, and no entry of
    the owner before it. *)
Definition lru_index (A : nat) (lru : list (option nat * Z)) (n : nat) : Prop :=
  (exists e, lru !! n = Some e /\ (Some A ∈ lru.*1 -> e.1 = Some A)) /\
  (forall m k, (m < n)%nat -> lru !! m <> Some (Some A, k)).

Lemma lru_index_cons A f k lru n :
  f <> Some A -> lru_index A lru n -> lru_index A ((f, k) :: lru) (S n).
Proof.
  intros Hne [(e & He & Hp) Hm]. split.
  - exists e. split; [done|]. intros [?|?]%elem_of_cons; [simpl in *; congruence|auto].
  - intros [|m] k' Hlt; simpl; [congruence|]. apply Hm. lia.
Qed.

Lemma lru_slot_index lru A i ev k0 :
  (lru_slot lru (Some A) i ev k0 = ev /\ Some A ∉ lru.*1) \/
  exists n, lru_slot lru (Some A) i ev k0 = i + Z.of_nat n /\ lru_index A lru n.
Proof.
  revert i ev k0. induction lru as [|[f k] lru IH]; intros i ev k0; simpl lru_slot.
  - left. split; [done|]. intros H. by apply elem_of_nil in H.
  - destruct (decide (f = Some A)) as [->|Hne].
    { right. exists 0%nat. split; [lia|]. split; [by exists (Some A, k)|]. lia. }
    assert (Hhere : Some A ∉ lru.*1 -> lru_index A ((f, k) :: lru) 0).
    { intros Hn. split; [|lia]. exists (f, k). split; [done|].
      intros [?|?]%elem_of_cons; [simpl in *; congruence|done]. }
    destruct (k <? k0).
    + right. destruct (IH (i + 1) i k) as [[-> Hn]|(n & -> & Hn)].
      * exists 0%nat. split; [lia|auto].
      * exists (S n). split; [lia|by apply lru_index_cons].
    + destruct (IH (i + 1) ev k0) as [[-> Hn]|(n & -> & Hn)].
      * left. split; [done|]. intros [?|?]%elem_of_cons; [simpl in *; congruence|done].
      * right. exists (S n). split; [lia|by apply lru_index_cons].
Qed.

Lemma lru_upsert_at A id lru :
  lru <> [] -> exists n, lru_upsert (Some A) id lru = <[n := (Some A, id)]> lru /\ lru_index A lru n.
Proof.
  destruct lru as [|[f k] l]; [done|]. intros _. unfold lru_upsert. set (lru := (f, k) :: l) in *.
  destruct (lru_slot_index lru A 0 0 k) as [[-> Hn]|(n & -> & Hn)].
  - exists 0%nat. split; [done|]. split; [|lia]. by exists (f, k).
  - exists n. split; [|done]. f_equal. lia.
Qed.

Lemma lru_score_upsert A id lru : lru <> [] -> lru_score (lru_upsert (Some A) id lru) (Some A) = id.
Proof.
  intros Hne. destruct (lru_upsert_at A id lru Hne) as (n & -> & [(e & He & _) Hm]). clear Hne.
  revert n He Hm. induction lru as [|[f k] lru IH]; intros [|n] He Hm; simpl in *; try done.
  - by rewrite decide_True.
  - rewrite decide_False by (intros ->; by apply (Hm 0%nat k); [lia|]).
    apply IH; [done|]. intros m k' Hlt. exact (Hm (S m) k' ltac:(lia)).
Qed.

Lemma promote_step_lru d j core d' x :
  promote_step d j core d' -> jobs d !! j = Some x ->
  OwnerLru (qu d') = lru_upsert (Owner x) (Id x) (OwnerLru (qu d)).
Proof. intros [_ _ _ (y & l1 & l2 & _ & Hy & _ & ->)] Hx. assert (y = x) as -> by congruence. done. Qed.
