(* ===== verification/JobSubmitFacts.v ===== *)
(** * Facts about submission

    The resolve loop against a reference that judges each slot on its own, the
    admission control against plain counts, and SUBMIT_DENSE up to the release of
    its locks. *)

From S2P Require Import Prelude Mmio IommuMap BufPool JobQueue JobKick BufPoolFacts.
From S2P Require Import JobQueueFacts JobPromoteFacts.

(** ** One slot *)
Definition slot_status (c : file_ctx) (src : iova_slot) : NTSTATUS :=
  if negb (RkMppDenseIsAddressReg (RegIdx src)) || (SlotHandle src =? 0) then STATUS_INVALID_PARAMETER
  else match find_cookie (SlotHandle src) (Buffers c) with
       | None => STATUS_INVALID_HANDLE
       | Some b => if Size b <=? IovaOffset src then STATUS_INVALID_PARAMETER else STATUS_SUCCESS
       end.

(** The bank with the 32 low bits of the address in the named register. *)
Definition set_reg (idx v : Z) (b : dense_bank) : dense_bank :=
  if (RKMPP_DENSE_CADDR_FIRST <=? idx) && (idx <=? RKMPP_DENSE_CADDR_LAST)
  then b <| CommonAddr ::= insert (Z.to_nat (idx - RKMPP_DENSE_CADDR_FIRST)) v |>
  else b <| CodecAddr ::= insert (Z.to_nat (idx - RKMPP_DENSE_CODADDR_FIRST)) v |>.
Definition stamp_slot (c : file_ctx) (b : dense_bank) (src : iova_slot) : dense_bank :=
  match find_cookie (SlotHandle src) (Buffers c) with
  | Some x => set_reg (RegIdx src) (u32 (Iova x + IovaOffset src)) b
  | None => b
  end.

Fixpoint slots_status (c : file_ctx) (l : list iova_slot) : NTSTATUS :=
  match l with
  | [] => STATUS_SUCCESS
  | src :: l' => if NT_SUCCESS (slot_status c src) then slots_status c l' else slot_status c src
  end.

Lemma slots_status_success c l :
  NT_SUCCESS (slots_status c l) = true <-> Forall (fun s => slot_status c s = STATUS_SUCCESS) l.
Proof.
  assert (Hs : forall s, NT_SUCCESS (slot_status c s) = true <-> slot_status c s = STATUS_SUCCESS).
  { intros s. unfold slot_status. destruct (_ || _); [done|]. destruct (find_cookie _ _); [|done].
    by destruct (_ <=? _). }
  induction l as [|s l IH]; simpl; [split; done|]. rewrite Forall_cons, <- Hs.
  destruct (NT_SUCCESS (slot_status c s)) eqn:E; [rewrite IH; tauto|]. rewrite E. split; [done|tauto].
Qed.

(** Every address register lies in one of the two address banks. *)
Lemma address_reg_range idx :
  RkMppDenseIsAddressReg idx = true ->
  RKMPP_DENSE_CADDR_FIRST <= idx <= RKMPP_DENSE_CADDR_LAST \/
  RKMPP_DENSE_CODADDR_FIRST <= idx <= RKMPP_DENSE_CODADDR_LAST.
Proof.
  unfold RkMppDenseIsAddressReg, RKMPP_DENSE_CADDR_FIRST, RKMPP_DENSE_CADDR_LAST,
    RKMPP_DENSE_CODADDR_FIRST, RKMPP_DENSE_CODADDR_LAST.
  rewrite !orb_true_iff, !andb_true_iff, !Z.leb_le, !Z.eqb_eq. lia.
Qed.

Lemma stamp_address idx v b : RkMppDenseIsAddressReg idx = true -> stamp idx v b = Some (set_reg idx v b).
Proof.
  intros H. apply address_reg_range in H. unfold stamp, set_reg.
  destruct ((RKMPP_DENSE_CADDR_FIRST <=? idx) && (idx <=? RKMPP_DENSE_CADDR_LAST)) eqn:E; [done|].
  apply andb_false_iff in E. rewrite !Z.leb_gt in E.
  destruct ((RKMPP_DENSE_CODADDR_FIRST <=? idx) && (idx <=? RKMPP_DENSE_CODADDR_LAST)) eqn:E2; [done|].
  apply andb_false_iff in E2. rewrite !Z.leb_gt in E2. exfalso.
  unfold RKMPP_DENSE_CADDR_FIRST, RKMPP_DENSE_CADDR_LAST, RKMPP_DENSE_CODADDR_FIRST, RKMPP_DENSE_CODADDR_LAST in *.
  lia.
Qed.

Lemma set_reg_ok idx v b : bank_ok b -> bank_ok (set_reg idx v b).
Proof.
  unfold set_reg. intros (H1 & H2 & H3 & H4 & H5 & H6).
  destruct (_ && _); unfold bank_ok; simpl; rewrite ?length_insert; done.
Qed.

Lemma stamp_slot_ok c b src : bank_ok b -> bank_ok (stamp_slot c b src).
Proof. intros H. unfold stamp_slot. destruct (find_cookie _ _); [by apply set_reg_ok|done]. Qed.

Lemma stamp_slots_ok c l b : bank_ok b -> bank_ok (foldl (stamp_slot c) b l).
Proof. revert b. induction l as [|s l IH]; intros b Hb; simpl; [done|]. by apply IH, stamp_slot_ok. Qed.

(** ** The buffers a job maintains the cache of *)
Definition mdl_of (c : file_ctx) (m : MDL) : Prop := exists b, b ∈ Buffers c /\ BufMdl b = Some m.
Record mdls_ok (c : file_ctx) (x : job) : Prop := MdlsOk {
  mo_len : (length (CleanMdls x) <= 8)%nat;
  mo_nodup : NoDup (CleanMdls x);
  mo_clean m : m ∈ CleanMdls x -> mdl_of c m;
  mo_out m : OutputFrameMdl x = Some m -> mdl_of c m;
  mo_colmv m : ColmvCurMdl x = Some m -> mdl_of c m;
}.

(** A job without what the resolve loop writes. *)
Definition unresolved (x : job) : job :=
  x <| DenseBank := zero_bank |> <| DenseIovaSlots := [] |> <| CleanMdls := [] |>
    <| OutputFrameMdl := None |> <| ColmvCurMdl := None |>.
(** What cache classification leaves alone. *)
Definition unclassified (x : job) : job :=
  x <| CleanMdls := [] |> <| OutputFrameMdl := None |> <| ColmvCurMdl := None |>.

Lemma add_clean_ok c m x : mdls_ok c x -> mdl_of c m -> mdls_ok c (add_clean m x).
Proof.
  intros [H1 H2 H3 H4 H5] Hm. unfold add_clean. destruct (decide (m ∈ CleanMdls x)); [done|].
  destruct (decide (length (CleanMdls x) < 8)%nat); [|done]. split; simpl; try done.
  - rewrite length_app. simpl. lia.
  - apply NoDup_app. split; [done|]. split; [|apply NoDup_singleton].
    intros y Hy ->%list_elem_of_singleton. done.
  - intros y [Hy| ->%list_elem_of_singleton]%elem_of_app; auto.
Qed.

Lemma add_clean_same m x : unclassified (add_clean m x) = unclassified x.
Proof. unfold add_clean. destruct (decide _); [done|]. by destruct (decide _). Qed.

Lemma classify_mdl_ok c off m x :
  mdls_ok c x -> mdl_of c m -> mdls_ok c (classify_mdl off m x).
Proof.
  intros H Hm. unfold classify_mdl. destruct (off =? 0x208); [|destruct (off =? 0x20C)].
  - destruct (is_none (OutputFrameMdl x)); [|done]. destruct H. split; simpl; try done. by intros y [= <-].
  - apply add_clean_ok; [|done]. destruct (is_none (ColmvCurMdl x)); [|done].
    destruct H. split; simpl; try done. by intros y [= <-].
  - destruct (input_reg off); [by apply add_clean_ok|done].
Qed.

Lemma classify_mdl_same off m x : unclassified (classify_mdl off m x) = unclassified x.
Proof.
  unfold classify_mdl. destruct (off =? 0x208); [by destruct (is_none _)|].
  destruct (off =? 0x20C); [rewrite add_clean_same; by destruct (is_none _)|].
  destruct (input_reg off); [apply add_clean_same|done].
Qed.

(** ** The resolve loop *)
Record resolved (c : file_ctx) (l : list iova_slot) (x y : job) : Prop := Resolved {
  rs_bank : DenseBank y = foldl (stamp_slot c) (DenseBank x) l;
  rs_slots : DenseIovaSlots y = DenseIovaSlots x ++ l;
  rs_same : unresolved y = unresolved x;
  rs_mdls : mdls_ok c x -> mdls_ok c y;
}.

Lemma resolved_refl c x : resolved c [] x x.
Proof. split; rewrite ?app_nil_r; done. Qed.
Lemma resolved_trans c l1 l2 x y z : resolved c l1 x y -> resolved c l2 y z -> resolved c (l1 ++ l2) x z.
Proof.
  intros [A1 A2 A3 A4] [B1 B2 B3 B4]. split; auto; [|by rewrite B2, A2, app_assoc|congruence].
  by rewrite B1, A1, foldl_app.
Qed.

Lemma resolved_class x y b sl :
  unclassified y = unclassified (x <| DenseBank := b |> <| DenseIovaSlots := sl |>) ->
  DenseBank y = b /\ DenseIovaSlots y = sl /\ unresolved y = unresolved x.
Proof.
  intros E.
  assert (H : forall A (g : job -> A), g (unclassified y) = g (unclassified (x <| DenseBank := b |> <| DenseIovaSlots := sl |>))) by (intros; by rewrite E).
  split; [exact (H _ DenseBank)|]. split; [exact (H _ DenseIovaSlots)|].
  exact (H _ unresolved).
Qed.

Lemma find_cookie_mdl c h b m : find_cookie h (Buffers c) = Some b -> BufMdl b = Some m -> mdl_of c m.
Proof.
  intros Hf Hm. destruct (find_cookie_Some _ _ _ Hf) as [_ Hp]. exists b. split; [|done].
  rewrite Hp. by left.
Qed.

Lemma resolve_slot_outcome c src r :
  exists r', resolve_slot (JFile true c) src r = Some (slot_status c src, r') /\
    (slot_status c src = STATUS_SUCCESS -> resolved c [src] (r_job r) (r_job r')).
Proof.
  unfold resolve_slot, slot_status. set (r1 := r <| r_job ::= _ |>).
  destruct (RkMppDenseIsAddressReg (RegIdx src)) eqn:Ea; simpl negb; cbv iota; [|exists r1; by split].
  destruct (SlotHandle src =? 0) eqn:Eh; simpl orb; cbv iota; [exists r1; by split|].
  unfold walk_ctx. simpl f_inited. cbv iota. ostep. simpl f_ctx.
  unfold RkMppBufLookupIovaLocked, RkMppBufLookupMdlLocked.
  destruct (find_cookie (SlotHandle src) (Buffers c)) as [b|] eqn:Ef; simpl NT_SUCCESS; cbv iota.
  2: { exists r1. by split. }
  simpl negb. cbv iota. destruct (Size b <=? IovaOffset src); [exists r1; by split|].
  rewrite stamp_address by done. set (bk := set_reg _ _ _). set (r2 := r1 <| r_job ::= _ |>).
  assert (Hbk : bk = stamp_slot c (DenseBank (r_job r)) src) by (unfold stamp_slot; by rewrite Ef).
  assert (Hfin : forall r', unclassified (r_job r') = unclassified (r_job r2) ->
            (mdls_ok c (r_job r) -> mdls_ok c (r_job r')) -> resolved c [src] (r_job r) (r_job r')).
  { intros r' E Hm. destruct (resolved_class (r_job r) (r_job r') bk (DenseIovaSlots (r_job r) ++ [src])) as (G1 & G2 & G3); [exact E|].
    split; [by rewrite G1, Hbk|done|done|done]. }
  assert (Hm2 : mdls_ok c (r_job r) -> mdls_ok c (r_job r2)) by (intros [? ? ? ? ?]; by split).
  clearbody r2. destruct (BufMdl b) as [m|] eqn:Em.
  2: { exists r2. split; [done|]. intros _. by apply Hfin. }
  cbv iota. destruct (u32 (RegIdx src * 4) =? 0x288); [eexists; split; [reflexivity|]; intros _; by apply Hfin|].
  destruct (u32 (RegIdx src * 4) =? 0x2B0); [eexists; split; [reflexivity|]; intros _; by apply Hfin|].
  eexists. split; [reflexivity|]. intros _. apply Hfin; simpl.
  - apply classify_mdl_same.
  - intros H. apply classify_mdl_ok; [auto|]. by eapply find_cookie_mdl.
Qed.

Lemma resolve_loop_outcome c l r :
  exists r', resolve_loop (JFile true c) l r = Some (slots_status c l, r') /\
    (NT_SUCCESS (slots_status c l) = true -> resolved c l (r_job r) (r_job r')).
Proof.
  revert r. induction l as [|src l IH]; intros r; simpl.
  - exists r. split; [done|]. intros _. apply resolved_refl.
  - destruct (resolve_slot_outcome c src r) as (r1 & -> & H1). ostep.
    destruct (NT_SUCCESS (slot_status c src)) eqn:E.
    + destruct (IH r1) as (r2 & -> & H2). exists r2. split; [done|]. intros Hs.
      change (src :: l) with ([src] ++ l). eapply resolved_trans; [apply H1|by apply H2].
      apply (proj1 (Forall_singleton _ _) (proj1 (slots_status_success c [src]) ltac:(simpl; by rewrite E))).
    + exists r1. split; [done|]. congruence.
Qed.

Lemma resolve_reg162_outcome c r :
  exists y, resolve_reg162 (JFile true c) r = Some y /\ unclassified y = unclassified (r_job r) /\
    (mdls_ok c (r_job r) -> mdls_ok c y).
Proof.
  unfold resolve_reg162. destruct (_ && _); [|by exists (r_job r)]. unfold walk_ctx. simpl f_inited. cbv iota.
  ostep. simpl f_ctx. unfold RkMppBufLookupMdlLocked.
  destruct (find_cookie (reg162Handle r) (Buffers c)) as [b|] eqn:Ef; [|by exists (r_job r)].
  destruct (BufMdl b) as [m|] eqn:Em; [|by exists (r_job r)]. simpl NT_SUCCESS. cbv iota.
  exists (add_clean m (r_job r)). split; [done|]. split; [apply add_clean_same|].
  intros H. apply add_clean_ok; [done|]. by eapply find_cookie_mdl.
Qed.

(** ** Admission control *)
Definition owned (File : nat) (d : jdev) (j : Z) : bool :=
  match jobs d !! j with Some x => owned_by File x | None => false end.
Definition visible_inflight (q : queue) : list Z := omap id (take (Z.to_nat (CoreCount q)) (InFlightPerCore q)).
Definition count_owned (File : nat) (d : jdev) (l : list Z) : Z :=
  Z.of_nat (length (filter (fun j => owned File d j = true) l)).

Lemma count_owned_cons File d j l :
  count_owned File d (j :: l) = (if owned File d j then 1 else 0) + count_owned File d l.
Proof.
  unfold count_owned. destruct (owned File d j) eqn:E.
  - rewrite filter_cons_True by done. simpl length. lia.
  - rewrite filter_cons_False by (by rewrite E). lia.
Qed.
Lemma count_owned_nonneg File d l : 0 <= count_owned File d l.
Proof. unfold count_owned. lia. Qed.

Definition full_at (p o : Z) : bool :=
  (RKMPP_MAX_PENDING_JOBS <=? p) || (RKMPP_MAX_PENDING_JOBS_PER_FILE <=? o).

Lemma count_pending_outcome File l p o d :
  (forall j, j ∈ l -> is_Some (sigs d !! j)) ->
  exists p' o', count_pending File l p o d = Some (p', o') /\
    full_at p' o' = full_at (p + Z.of_nat (length l)) (o + count_owned File d l).
Proof.
  revert p o. induction l as [|j l IH]; intros p o Hl; simpl count_pending.
  - exists p, o. split; [done|]. unfold count_owned. simpl. by rewrite !Z.add_0_r.
  - destruct (live_job d j) as [x Hx]; [apply Hl; by left|]. unfold deref. rewrite Hx. ostep.
    rewrite count_owned_cons. unfold owned at 1. rewrite Hx. simpl length.
    set (o1 := if owned_by File x then o + 1 else o).
    assert (Eo : o + ((if owned_by File x then 1 else 0) + count_owned File d l) = o1 + count_owned File d l)
      by (subst o1; destruct (owned_by File x); lia).
    rewrite Eo. replace (p + Z.of_nat (S (length l))) with (p + 1 + Z.of_nat (length l)) by lia.
    destruct ((RKMPP_MAX_PENDING_JOBS <=? p + 1) && (RKMPP_MAX_PENDING_JOBS_PER_FILE <=? o1)) eqn:E.
    + exists (p + 1), o1. split; [done|]. apply andb_true_iff in E as [E1 E2]. unfold full_at.
      rewrite E1. simpl. symmetry. apply orb_true_iff. left. apply Z.leb_le. apply Z.leb_le in E1. lia.
    + destruct (IH (p + 1) o1) as (p' & o' & -> & H); [intros; apply Hl; by right|]. eauto.
Qed.

Lemma count_inflight_outcome File d n :
  queue_ok (sigs d) (qu d) -> (n <= 2)%nat ->
  count_inflight File (seqZ 0 (Z.of_nat n)) d
  = Some (count_owned File d (omap id (take n (InFlightPerCore (qu d))))).
Proof.
  intros Hok Hn. pose proof (qo_core _ _ Hok) as Hc. apply core_okv_inv in Hc as (n0 & n1 & v0 & v1 & _ & E & _).
  assert (Hone : forall c v, InFlightPerCore (qu d) !! c = Some v -> forall m,
     (v' ← Some v; match v' with None => Some m | Some j => x ← deref j d; Some (if owned_by File x then m + 1 else m) end)
     = Some (count_owned File d (option_list v) + m)).
  { intros c [j|] Hv m; ostep; [|done]. destruct (live_job d j) as [x Hx]; [by eapply inflight_live|].
    unfold deref. rewrite Hx. ostep. simpl option_list. rewrite count_owned_cons. unfold owned. rewrite Hx.
    unfold count_owned. simpl. destruct (owned_by File x); f_equal; lia. }
  assert (Happ : forall l1 l2, count_owned File d (l1 ++ l2) = count_owned File d l1 + count_owned File d l2).
  { intros. unfold count_owned. rewrite filter_app, length_app. lia. }
  assert (S0 : slot 0 (qu d) = Some v0) by (unfold slot; by rewrite E).
  assert (S1 : slot 1 (qu d) = Some v1) by (unfold slot; by rewrite E).
  pose proof (Hone 0%nat v0 ltac:(by rewrite E)) as O0. pose proof (Hone 1%nat v1 ltac:(by rewrite E)) as O1.
  destruct n as [|[|[|]]]; [| | |lia]; rewrite E.
  - done.
  - change (seqZ 0 (Z.of_nat 1)) with [0]. simpl count_inflight. rewrite S0. ostep. etransitivity; [exact (O0 0)|].
    f_equal. destruct v0; simpl; lia.
  - change (seqZ 0 (Z.of_nat 2)) with [0; 1]. simpl count_inflight. rewrite S0, S1. ostep.
    rewrite (O1 0 : match v1 with None => _ | _ => _ end = _). ostep.
    etransitivity; [exact (O0 _)|]. f_equal.
    replace (omap id (take 2 [v0; v1])) with (option_list v0 ++ option_list v1) by (by destruct v0, v1).
    rewrite Happ. lia.
Qed.

Lemma admission_outcome File d :
  queue_ok (sigs d) (qu d) ->
  admission_full File d
  = Some (full_at (Z.of_nat (length (Pending (qu d))))
            (count_owned File d (visible_inflight (qu d)) + count_owned File d (Pending (qu d)))).
Proof.
  intros Hok. unfold admission_full, cores, visible_inflight.
  pose proof (co_count (qo_core _ _ Hok)) as Hcc.
  replace (seqZ 0 (CoreCount (qu d))) with (seqZ 0 (Z.of_nat (Z.to_nat (CoreCount (qu d))))) by (f_equal; lia).
  rewrite count_inflight_outcome by (done || lia). ostep.
  destruct (count_pending_outcome File (Pending (qu d)) 0
     (count_owned File d (omap id (take (Z.to_nat (CoreCount (qu d))) (InFlightPerCore (qu d))))) d)
    as (p & o & -> & H). { intros j Hj. by apply pending_live. }
  ostep. f_equal. exact H.
Qed.

(** ** SUBMIT_DENSE up to the release of its locks *)
Definition in_slots (i : submit_in) : list iova_slot := take (Z.to_nat (InIovaSlotCount i)) (InIovaSlots i).
Definition in_refs (i : submit_in) : list buf_ref := take (Z.to_nat (InBufRefCount i)) (InBufRefs i).

(** The status of a submission, check by check. *)
Definition submit_status (File : nat) (c : file_ctx) (i : submit_in) (a_job : option Z) (d : jdev) : NTSTATUS :=
  if (RKMPP_MAX_DENSE_IOVA_SLOTS <? InIovaSlotCount i) || (RKMPP_MAX_BUF_REFS <? InBufRefCount i)
  then STATUS_INVALID_PARAMETER
  else if Z.land (InKickValue i) RKVDEC2_REG_DEC_E_BIT =? 0 then STATUS_INVALID_PARAMETER
  else if is_none a_job then STATUS_INSUFFICIENT_RESOURCES
  else if negb (NT_SUCCESS (slots_status c (in_slots i))) then slots_status c (in_slots i)
  else if full_at (Z.of_nat (length (Pending (qu d))))
            (count_owned File d (visible_inflight (qu d)) + count_owned File d (Pending (qu d)))
  then STATUS_DEVICE_BUSY
  else STATUS_SUCCESS.

(** The job a successful submission creates. *)
Record submitted (File : nat) (c : file_ctx) (i : submit_in) (id : Z) (x : job) : Prop := Submitted {
  sb_id : Id x = id;
  sb_owner : Owner x = Some File;
  sb_kick : DenseKickValue x = InKickValue i;
  sb_bank : DenseBank x = foldl (stamp_slot c) (InBank i) (in_slots i);
  sb_slots : DenseIovaSlots x = in_slots i;
  sb_refs : BufRefs x = in_refs i;
  sb_fresh : Done x = false /\ OrphanOnComplete x = false /\ WaiterPin x = 0;
  sb_mdls : mdls_ok c x;
}.

(** The device with the new job at the tail of the pending list. *)
Definition enqueued (j : Z) (x : job) (d : jdev) : jdev :=
  on_q (fun q => q <| Pending ::= fun l => l ++ [j] |>) ((bump_id d) <| jobs ::= insert j x |>).

Lemma enqueued_fields j x d :
  jobs (enqueued j x d) = <[j := x]> (jobs d) /\
  Pending (qu (enqueued j x d)) = Pending (qu d) ++ [j] /\ NextId (qu (enqueued j x d)) = next_id (qu d) /\
  Completed (qu (enqueued j x d)) = Completed (qu d) /\
  InFlightPerCore (qu (enqueued j x d)) = InFlightPerCore (qu d) /\
  CoreCount (qu (enqueued j x d)) = CoreCount (qu d) /\ CoreIdle (qu (enqueued j x d)) = CoreIdle (qu d) /\
  CorePending (qu (enqueued j x d)) = CorePending (qu d) /\ OwnerLru (qu (enqueued j x d)) = OwnerLru (qu d).
Proof. repeat split; reflexivity. Qed.

Lemma enqueued_ok j x d :
  queue_ok (sigs d) (qu d) -> jobs d !! j = None -> NextId (qu d) + 1 < 2 ^ 64 ->
  Id x = NextId (qu d) + 1 -> bank_ok (DenseBank x) ->
  queue_ok (sigs (enqueued j x d)) (qu (enqueued j x d)) /\
  q_all (qu (enqueued j x d)) ≡ₚ j :: q_all (qu d).
Proof.
  intros Hok Hj Hn Hid Hb. destruct (enqueued_fields j x d) as (E1 & E2 & E3 & E4 & E5 & E6 & E7 & E8 & E9).
  assert (Hall : q_all (qu (enqueued j x d)) ≡ₚ j :: q_all (qu d)).
  { unfold q_all. rewrite E2, E4, E5, <- app_assoc. simpl. by rewrite <- Permutation_middle. }
  split; [|exact Hall]. unfold sigs. rewrite E1, fmap_insert.
  pose proof (qo_next _ _ Hok) as Hn0.
  eapply queue_ok_add; [exact Hok| | |exact Hall| |done|exact Hid|exact Hb|exact E9|].
  - unfold sigs. by rewrite lookup_fmap, Hj.
  - eapply core_ok_ext; [exact E6|exact E7|exact E8|exact E5|apply Hok].
  - rewrite E3. unfold next_id. apply u64_small. lia.
  - intros c k. rewrite E5. by right.
Qed.

Lemma bump_ok d :
  queue_ok (sigs d) (qu d) -> NextId (qu d) + 1 < 2 ^ 64 -> queue_ok (sigs (bump_id d)) (qu (bump_id d)).
Proof.
  intros [H1 H2 H3 H4 H5 H6 H7 H8 H9] Hn.
  assert (E : NextId (qu (bump_id d)) = NextId (qu d) + 1) by (change (next_id (qu d) = NextId (qu d) + 1); apply u64_small; lia).
  split; try done.
  - intros j x Hx. rewrite E. specialize (H6 j x Hx). lia.
  - lia.
  - unfold lru_ok. rewrite E. eapply Forall_impl; [exact H9|]. simpl. lia.
Qed.

Lemma submit_locked_outcome File c i a_job d :
  queue_ok (sigs d) (qu d) -> jfiles d !! File = Some (JFile true c) ->
  (forall j, a_job = Some j -> jobs d !! j = None) -> bank_ok (InBank i) ->
  NextId (qu d) + 1 < 2 ^ 64 ->
  let st := submit_status File c i a_job d in
  if NT_SUCCESS st then
    exists j x ps d', a_job = Some j /\ submit_locked File i a_job d = Some (inr (j, ps), d') /\
      submitted File c i (NextId (qu d) + 1) x /\
      promotes (enqueued j x d) ps d' /\ (Pending (qu d') = [] \/ all_busy (qu d'))
  else submit_locked File i a_job d
       = Some (inl st, if st =? STATUS_DEVICE_BUSY then bump_id d else d).
Proof.
  intros Hok Hf Hfresh Hb Hn. unfold submit_status, submit_locked. cbv zeta.
  destruct ((RKMPP_MAX_DENSE_IOVA_SLOTS <? InIovaSlotCount i) || (RKMPP_MAX_BUF_REFS <? InBufRefCount i)); [done|].
  destruct (Z.land (InKickValue i) RKVDEC2_REG_DEC_E_BIT =? 0); [done|].
  destruct a_job as [j|]; simpl is_none; cbv iota; [|done].
  rewrite Hf. ostep. fold (in_slots i). set (x0 := zero_job <| Owner := _ |> <| DenseKickValue := _ |> <| DenseBank := _ |>).
  destruct (resolve_loop_outcome c (in_slots i) (Resolving x0 0 0)) as (r & -> & Hr). ostep.
  destruct (NT_SUCCESS (slots_status c (in_slots i))) eqn:Es; simpl negb; cbv iota.
  2: { rewrite Es. assert ((slots_status c (in_slots i) =? STATUS_DEVICE_BUSY) = false) as ->; [|done].
       clear -Es. induction (in_slots i) as [|s l IH]; simpl in *; [done|].
       destruct (NT_SUCCESS (slot_status c s)) eqn:E; [auto|]. unfold slot_status.
       destruct (_ || _); [done|]. destruct (find_cookie _ _); [|done]. by destruct (_ <=? _). }
  destruct (resolve_reg162_outcome c r) as (y & -> & Uy & My). ostep. specialize (Hr eq_refl).
  fold (in_refs i). rewrite (admission_outcome File (bump_id d)) by (by apply bump_ok). ostep.
  change (Pending (qu (bump_id d))) with (Pending (qu d)).
  change (visible_inflight (qu (bump_id d))) with (visible_inflight (qu d)).
  change (count_owned File (bump_id d)) with (count_owned File d).
  destruct (full_at _ _); [done|]. change (NT_SUCCESS STATUS_SUCCESS) with true. cbv iota.
  set (x := y <| BufRefs := in_refs i |> <| Id := NextId (qu (bump_id d)) |>).
  change (on_q _ _) with (enqueued j x d).
  assert (Eid : NextId (qu (bump_id d)) = NextId (qu d) + 1).
  { change (next_id (qu d) = NextId (qu d) + 1). apply u64_small. pose proof (qo_next _ _ Hok). lia. }
  destruct Hr as [R1 R2 R3 R4]. simpl r_job in *.
  assert (Hu : forall A (g : job -> A), g (unclassified y) = g (unclassified (r_job r))) by (intros; by rewrite Uy).
  assert (Hu0 : forall A (g : job -> A), g (unresolved (r_job r)) = g (unresolved x0)) by (intros; by rewrite R3).
  assert (Ey : DenseBank y = foldl (stamp_slot c) (InBank i) (in_slots i)).
  { transitivity (DenseBank (r_job r)); [exact (Hu _ DenseBank)|exact R1]. }
  assert (Hsub : submitted File c i (NextId (qu d) + 1) x).
  { split.
    - exact Eid.
    - transitivity (Owner (r_job r)); [exact (Hu _ Owner)|exact (Hu0 _ Owner)].
    - transitivity (DenseKickValue (r_job r)); [exact (Hu _ DenseKickValue)|exact (Hu0 _ DenseKickValue)].
    - exact Ey.
    - transitivity (DenseIovaSlots (r_job r)); [exact (Hu _ DenseIovaSlots)|exact R2].
    - reflexivity.
    - split; [|split].
      + transitivity (Done (r_job r)); [exact (Hu _ Done)|exact (Hu0 _ Done)].
      + transitivity (OrphanOnComplete (r_job r)); [exact (Hu _ OrphanOnComplete)|exact (Hu0 _ OrphanOnComplete)].
      + transitivity (WaiterPin (r_job r)); [exact (Hu _ WaiterPin)|exact (Hu0 _ WaiterPin)].
    - assert (M0 : mdls_ok c x0).
      { split; simpl; try done; [lia|constructor|]. intros m Hm. by apply elem_of_nil in Hm. }
      specialize (My (R4 M0)). destruct My. by split. }
  clearbody x. clear Hu Hu0 R1 R2 R3 R4 Uy My x0 r Ey y.
  destruct (enqueued_ok j x d Hok (Hfresh j eq_refl) Hn (sb_id _ _ _ _ _ Hsub)) as [Hok' _].
  { rewrite (sb_bank _ _ _ _ _ Hsub). by apply stamp_slots_ok. }
  destruct (promote_until_full_outcome _ Hok') as (ps & d' & -> & Hps & Hstop). ostep.
  exists j, x, ps, d'. done.
Qed.
