(* ===== verification/JobKickFacts.v ===== *)
(** * Facts about kicks and completions

    What each block of JobKickLocalInner appends to the device log, the whole
    kick, and the completion with everything around the lock. *)

From S2P Require Import Prelude Mmio IommuMap BufPool JobQueue JobKick JobQueueFacts JobPromoteFacts.

(** ** Steps that only log

    [logs l d d']: [d'] is [d] with [l] appended to the log and, perhaps, other
    reset flags. *)
Record logs (l : list effect) (d d' : jdev) : Prop := Logs {
  lg_log : devlog d' = devlog d ++ l;
  lg_jobs : jobs d' = jobs d;
  lg_qu : qu d' = qu d;
  lg_files : jfiles d' = jfiles d;
  lg_failed : LastJobFailed d' = LastJobFailed d;
  lg_qpc : qpc d' = qpc d;
}.

Lemma logs_refl d : logs [] d d.
Proof. split; rewrite ?app_nil_r; done. Qed.
Lemma logs_trans l1 l2 d1 d2 d3 : logs l1 d1 d2 -> logs l2 d2 d3 -> logs (l1 ++ l2) d1 d3.
Proof.
  intros [A1 A2 A3 A4 A5 A6] [B1 B2 B3 B4 B5 B6].
  split; rewrite ?B1, ?B2, ?B3, ?B4, ?B5, ?B6, ?A1, ?A2, ?A3, ?A4, ?A5, ?A6; rewrite ?app_assoc; done.
Qed.
Lemma logs_log1 a d : logs [a] d (log1 a d).
Proof. split; done. Qed.
Lemma logs_full v d : logs [] d (d <| NeedsFullReset := v |>).
Proof. split; simpl; rewrite ?app_nil_r; done. Qed.
Lemma logs_core v d : logs [] d (d <| NeedsCoreReset := v |>).
Proof. split; simpl; rewrite ?app_nil_r; done. Qed.
Lemma logs_fold {A} (f : jdev -> A -> jdev) (g : A -> list effect) l d :
  (forall d a, logs (g a) d (f d a)) -> logs (flat_map g l) d (foldl f d l).
Proof.
  intros H. revert d. induction l as [|a l IH]; intros d; simpl; [apply logs_refl|].
  eapply logs_trans; [apply H|apply IH].
Qed.
Lemma logs_quiet l d d' : logs l d d' -> quiet d d'.
Proof. intros []. unfold quiet, sigs. split; congruence. Qed.

(** The calls through the interfaces. *)
Definition ccu_log (e : env) (has : ccu_ifc -> Z -> bool) (ops : list ccu_op) : list effect :=
  match CcuIfc e with
  | Some ccu => if ((Uid e =? 0) || (Uid e =? 1)) && has ccu (Uid e)
                then map (fun op => CcuCall op (Uid e)) ops else []
  | None => []
  end.
Definition iommu_log (e : env) (has : iommu_ifc -> bool) (op : iommu_op) : list effect :=
  match IommuIfc e with Some i => if has i then [IommuCall op] else [] | None => [] end.

Lemma flat_map_single {A B} (f : A -> B) l : flat_map (fun a => [f a]) l = map f l.
Proof. induction l as [|a l IH]; simpl; [done|]. by rewrite IH. Qed.

Lemma ccu_call_logs e has ops d : logs (ccu_log e has ops) d (ccu_call e has ops d).
Proof.
  unfold ccu_log, ccu_call. destruct (CcuIfc e) as [ccu|]; [|apply logs_refl].
  destruct (((Uid e =? 0) || (Uid e =? 1)) && has ccu (Uid e)); [|apply logs_refl].
  rewrite <- flat_map_single. apply logs_fold. intros. apply logs_log1.
Qed.
Lemma iommu_call_logs e has op d : logs (iommu_log e has op) d (iommu_call e has op d).
Proof.
  unfold iommu_log, iommu_call. destruct (IommuIfc e) as [i|]; [|apply logs_refl].
  destruct (has i); [apply logs_log1|apply logs_refl].
Qed.

(** ** The reset a kick owes *)
Definition reset_log (e : env) (d : jdev) : list effect :=
  if negb (NeedsFullReset d =? 0)
  then iommu_log e has_Disable IommuDisable ++ ccu_log e has_FullCoreReset [FullCoreReset] ++
       iommu_log e has_Enable IommuEnable
  else if negb (NeedsCoreReset d =? 0)
  then ccu_log e has_CoreReset [AssertCoreReset; DeassertCoreReset] else [].

(** The wide reset is asked for again when the IOMMU did not come back. *)
Definition enable_failed (e : env) : bool :=
  match IommuIfc e with Some i => has_Enable i && negb (NT_SUCCESS (Enable_status i)) | None => false end.

Lemma ccu_call_flags e has ops d :
  NeedsFullReset (ccu_call e has ops d) = NeedsFullReset d /\
  NeedsCoreReset (ccu_call e has ops d) = NeedsCoreReset d.
Proof.
  unfold ccu_call. destruct (CcuIfc e); [|done].
  destruct (((Uid e =? 0) || (Uid e =? 1)) && has c (Uid e)); [|done].
  revert d. induction ops as [|op ops IH]; intros d; [done|]. simpl. by rewrite !(proj1 (IH _)), !(proj2 (IH _)).
Qed.
Lemma iommu_call_flags e has op d :
  NeedsFullReset (iommu_call e has op d) = NeedsFullReset d /\
  NeedsCoreReset (iommu_call e has op d) = NeedsCoreReset d.
Proof. unfold iommu_call. destruct (IommuIfc e) as [i|]; [|done]. by destruct (has i). Qed.

Lemma pending_reset_outcome e d :
  logs (reset_log e d) d (pending_reset e d) /\
  NeedsCoreReset (pending_reset e d) = 0 /\
  NeedsFullReset (pending_reset e d)
  = if negb (NeedsFullReset d =? 0) && enable_failed e then 1 else 0.
Proof.
  unfold pending_reset, reset_log. destruct (Z.eqb_spec (NeedsFullReset d) 0) as [E|E]; simpl negb; cbv iota.
  - change (NeedsCoreReset (d <| NeedsFullReset := 0 |>)) with (NeedsCoreReset d).
    destruct (Z.eqb_spec (NeedsCoreReset d) 0) as [E'|E']; simpl negb; cbv iota.
    + split; [|done]. change (@nil effect) with (@nil effect ++ []).
      eapply logs_trans; [apply logs_full|apply logs_core].
    + split; [|by rewrite (proj1 (ccu_call_flags _ _ _ _)), (proj2 (ccu_call_flags _ _ _ _))].
      change (ccu_log e has_CoreReset [AssertCoreReset; DeassertCoreReset])
        with (([] ++ []) ++ ccu_log e has_CoreReset [AssertCoreReset; DeassertCoreReset]).
      eapply logs_trans; [|apply ccu_call_logs]. eapply logs_trans; [apply logs_full|apply logs_core].
  - unfold full_reset. set (d1 := iommu_call e has_Enable IommuEnable _).
    assert (L : logs (iommu_log e has_Disable IommuDisable ++ ccu_log e has_FullCoreReset [FullCoreReset] ++
                      iommu_log e has_Enable IommuEnable) d d1).
    { change (iommu_log e has_Disable IommuDisable) with ([] ++ iommu_log e has_Disable IommuDisable).
      rewrite <- app_assoc. eapply logs_trans; [apply (logs_full 0)|].
      eapply logs_trans; [apply iommu_call_logs|]. eapply logs_trans; [apply ccu_call_logs|apply iommu_call_logs]. }
    assert (F : NeedsFullReset d1 = 0).
    { subst d1. rewrite (proj1 (iommu_call_flags _ _ _ _)), (proj1 (ccu_call_flags _ _ _ _)), (proj1 (iommu_call_flags _ _ _ _)). done. }
    clearbody d1. unfold enable_failed.
    set (l := iommu_log e has_Disable IommuDisable ++ _) in *. clearbody l.
    rewrite <- (app_nil_r l).
    destruct (IommuIfc e) as [i|]; [destruct (has_Enable i && negb (NT_SUCCESS (Enable_status i)))|].
    + split; [|done]. rewrite <- (app_nil_r (l ++ [])). eapply logs_trans; [|apply logs_core].
      eapply logs_trans; [exact L|apply logs_full].
    + split; [|done]. eapply logs_trans; [exact L|apply logs_core].
    + split; [|done]. eapply logs_trans; [exact L|apply logs_core].
Qed.

(** ** Cache set-up and the banks *)
Definition cache_log (e : env) : list effect :=
  if RKVDEC2_SWREG_BASE + 0x600 <=? MmioLength e then
    map (fun '(off, v) => Mm (Wr (RKVDEC2_SWREG_BASE + off) v))
      [(0x51c, 0x13); (0x55c, 0x13); (0x59c, 0x13); (0x510, 1); (0x550, 1); (0x590, 1)]
  else [].

Lemma cache_setup_logs e d : logs (cache_log e) d (cache_setup e d).
Proof.
  unfold cache_log, cache_setup. destruct (RKVDEC2_SWREG_BASE + 0x600 <=? MmioLength e); [|apply logs_refl].
  rewrite <- flat_map_single. apply logs_fold. intros d' [off v]. apply logs_log1.
Qed.

(** The writes of a bank, word by word in ascending order, without the kick
    register. *)
Definition word_log (i v : Z) : list effect :=
  if i =? RKMPP_DENSE_KICK_REG_IDX then [] else [Mm (Wr (i * 4 + RKVDEC2_SWREG_BASE) v)].
Fixpoint words_log (i : Z) (src : list Z) : list effect :=
  match src with [] => [] | v :: src' => word_log i v ++ words_log (i + 1) src' end.
Definition bank_log (b : dense_bank) : list effect :=
  words_log RKMPP_DENSE_COMMON_FIRST (Common b) ++ words_log RKMPP_DENSE_CPARAM_FIRST (CodecParams b) ++
  words_log RKMPP_DENSE_CADDR_FIRST (CommonAddr b) ++ words_log RKMPP_DENSE_CODADDR_FIRST (CodecAddr b) ++
  words_log RKMPP_DENSE_HIPOC_FIRST (HighPoc b) ++ words_log RKMPP_DENSE_STAT_FIRST (Stat b).

Lemma bank_words first c src pre rest d :
  src = pre ++ rest ->
  exists d', foldlM (bank_word (first, c, src)) d (seqZ (Z.of_nat (length pre)) (Z.of_nat (length rest))) = Some d' /\
    logs (words_log (first + Z.of_nat (length pre)) rest) d d' /\
    NeedsFullReset d' = NeedsFullReset d /\ NeedsCoreReset d' = NeedsCoreReset d.
Proof.
  revert pre d. induction rest as [|v rest IH]; intros pre d E.
  - exists d. simpl. split; [done|]. split; [apply logs_refl|done].
  - simpl length. rewrite seqZ_cons by lia. rewrite foldlM_cons.
    replace (Z.pred (Z.of_nat (S (length rest)))) with (Z.of_nat (length rest)) by lia.
    replace (Z.succ (Z.of_nat (length pre))) with (Z.of_nat (length (pre ++ [v]))) by (rewrite length_app; simpl; lia).
    assert (Hl : src !! Z.to_nat (Z.of_nat (length pre)) = Some v).
    { rewrite Nat2Z.id, E. by apply list_lookup_middle. }
    assert (Hstep : exists d1, bank_word (first, c, src) d (Z.of_nat (length pre)) = Some d1 /\
       logs (word_log (first + Z.of_nat (length pre)) v) d d1 /\
       NeedsFullReset d1 = NeedsFullReset d /\ NeedsCoreReset d1 = NeedsCoreReset d).
    { unfold bank_word, word_log. rewrite Hl. ostep. case_bool; eexists; (split; [done|]); (split; [|done]); [apply logs_refl|apply logs_log1]. }
    destruct Hstep as (d1 & -> & L1 & F1 & F2). ostep.
    destruct (IH (pre ++ [v]) d1) as (d2 & -> & L2 & F3 & F4); [by rewrite <- app_assoc|].
    exists d2. split; [done|]. rewrite F3, F4. split; [|done]. simpl.
    eapply logs_trans; [exact L1|].
    replace (first + Z.of_nat (length pre) + 1) with (first + Z.of_nat (length (pre ++ [v]))); [exact L2|].
    rewrite length_app. simpl. lia.
Qed.

Lemma bank_write_outcome first c src d :
  length src = Z.to_nat c -> 0 <= c ->
  exists d', bank_write d (first, c, src) = Some d' /\ logs (words_log first src) d d' /\
    NeedsFullReset d' = NeedsFullReset d /\ NeedsCoreReset d' = NeedsCoreReset d.
Proof.
  intros Hl Hc. destruct (bank_words first c src [] src d eq_refl) as (d' & E & L & F).
  simpl in E, L. rewrite Z.add_0_r in L. exists d'. split; [|done]. unfold bank_write. simpl.
  rewrite <- E. do 2 f_equal. lia.
Qed.

Lemma banks_outcome b d :
  bank_ok b ->
  exists d', foldlM bank_write d (banks b) = Some d' /\ logs (bank_log b) d d' /\
    NeedsFullReset d' = NeedsFullReset d /\ NeedsCoreReset d' = NeedsCoreReset d.
Proof.
  intros (H1 & H2 & H3 & H4 & H5 & H6). unfold banks, bank_log.
  destruct (bank_write_outcome RKMPP_DENSE_COMMON_FIRST RKMPP_DENSE_COMMON_WORDS (Common b) d H1) as (d1 & E1 & L1 & F1 & G1); [done|].
  destruct (bank_write_outcome RKMPP_DENSE_CPARAM_FIRST RKMPP_DENSE_CPARAM_WORDS (CodecParams b) d1 H2) as (d2 & E2 & L2 & F2 & G2); [done|].
  destruct (bank_write_outcome RKMPP_DENSE_CADDR_FIRST RKMPP_DENSE_CADDR_WORDS (CommonAddr b) d2 H3) as (d3 & E3 & L3 & F3 & G3); [done|].
  destruct (bank_write_outcome RKMPP_DENSE_CODADDR_FIRST RKMPP_DENSE_CODADDR_WORDS (CodecAddr b) d3 H4) as (d4 & E4 & L4 & F4 & G4); [done|].
  destruct (bank_write_outcome RKMPP_DENSE_HIPOC_FIRST RKMPP_DENSE_HIPOC_WORDS (HighPoc b) d4 H5) as (d5 & E5 & L5 & F5 & G5); [done|].
  destruct (bank_write_outcome RKMPP_DENSE_STAT_FIRST RKMPP_DENSE_STAT_WORDS (Stat b) d5 H6) as (d6 & E6 & L6 & F6 & G6); [done|].
  exists d6. rewrite !foldlM_cons, E1. ostep. rewrite foldlM_cons, E2. ostep.
  rewrite foldlM_cons, E3. ostep. rewrite foldlM_cons, E4. ostep.
  rewrite foldlM_cons, E5. ostep. rewrite foldlM_cons, E6. ostep. split; [done|].
  split; [|split; congruence].
  do 5 (eapply logs_trans; [eassumption|]). exact L6.
Qed.

(** The window holds every bank exactly when it holds the last. *)
Lemma window_fits_len e b : window_fits e b = (0x558 <=? MmioLength e).
Proof.
  unfold window_fits, banks, bank_fits, kickByte. simpl forallb.
  unfold RKVDEC2_SWREG_BASE, RKMPP_DENSE_KICK_REG_IDX, RKMPP_DENSE_COMMON_FIRST, RKMPP_DENSE_COMMON_WORDS,
    RKMPP_DENSE_CPARAM_FIRST, RKMPP_DENSE_CPARAM_WORDS, RKMPP_DENSE_CADDR_FIRST, RKMPP_DENSE_CADDR_WORDS,
    RKMPP_DENSE_CODADDR_FIRST, RKMPP_DENSE_CODADDR_WORDS, RKMPP_DENSE_HIPOC_FIRST, RKMPP_DENSE_HIPOC_WORDS,
    RKMPP_DENSE_STAT_FIRST, RKMPP_DENSE_STAT_WORDS.
  apply eq_true_iff_eq. rewrite !andb_true_iff, !Z.leb_le. lia.
Qed.

(** ** Completion with everything around the lock *)
Definition gate_log (e : env) : list effect := ccu_log e has_GateLeafClocks [GateLeafClocks].

Lemma gate_logs e d : logs (gate_log e) d (gate e d).
Proof.
  unfold gate_log, ccu_log, gate. destruct (CcuIfc e) as [ccu|]; [|apply logs_refl].
  destruct (((Uid e =? 0) || (Uid e =? 1)) && has_GateLeafClocks ccu (Uid e)); [apply logs_log1|apply logs_refl].
Qed.
Lemma gate_flags e d :
  NeedsFullReset (gate e d) = NeedsFullReset d /\ NeedsCoreReset (gate e d) = NeedsCoreReset d.
Proof.
  unfold gate. destruct (CcuIfc e) as [ccu|]; [|done].
  by destruct (((Uid e =? 0) || (Uid e =? 1)) && has_GateLeafClocks ccu (Uid e)).
Qed.

Definition armed (q : queue) : queue := q <| KickRearm := true |> <| KickActive := true |>.

Record completes (e : env) (res : NTSTATUS) (hw : Z) (d : jdev) (j : Z) (x : job) (d' : jdev) : Prop :=
  Completes {
  cp_slot : InFlightPerCore (qu d) !! 0%nat = Some (Some j);
  cp_job : jobs d !! j = Some x;
  cp_jobs : jobs d' = if frees_here x then delete j (jobs d)
                      else <[j := finished res hw (qpc d) x]> (jobs d);
  cp_qu : let q' := release 0 (if frees_here x then qu d else to_completed j (qu d)) in
          qview (qu d') = qview (if wants_kick (qu d) then armed q' else q');
  cp_log : let q' := release 0 (if frees_here x then qu d else to_completed j (qu d)) in
           devlog d' = devlog d ++ flushes x ++ [SetEvent j] ++
             (if idle_after q' then gate_log e else []) ++
             (if wants_kick (qu d) && negb (KickActive (qu d)) then [WorkItemEnqueue] else []);
  cp_files : jfiles d' = jfiles (classify res hw (Owner x) d);
  cp_core : NeedsCoreReset d' = NeedsCoreReset (classify res hw (Owner x) d);
  cp_full : NeedsFullReset d' = NeedsFullReset (classify res hw (Owner x) d);
  cp_failed : LastJobFailed d' = LastJobFailed (classify res hw (Owner x) d);
  cp_qpc : qpc d' = qpc d;
  cp_peer : Peer (qu d') = Peer (qu d) /\ LastKickCore (qu d') = LastKickCore (qu d);
}.

Lemma enqueue_fields d :
  jobs (RkMppEnqueueKickWorker d) = jobs d /\ qview (qu (RkMppEnqueueKickWorker d)) = qview (armed (qu d)) /\
  devlog (RkMppEnqueueKickWorker d)
  = devlog d ++ (if negb (KickActive (qu d)) then [WorkItemEnqueue] else []) /\
  jfiles (RkMppEnqueueKickWorker d) = jfiles d /\
  NeedsCoreReset (RkMppEnqueueKickWorker d) = NeedsCoreReset d /\
  NeedsFullReset (RkMppEnqueueKickWorker d) = NeedsFullReset d /\
  LastJobFailed (RkMppEnqueueKickWorker d) = LastJobFailed d /\ qpc (RkMppEnqueueKickWorker d) = qpc d /\
  Peer (qu (RkMppEnqueueKickWorker d)) = Peer (qu d) /\
  LastKickCore (qu (RkMppEnqueueKickWorker d)) = LastKickCore (qu d).
Proof.
  unfold RkMppEnqueueKickWorker. destruct (KickActive (qu d)) eqn:E; simpl negb; cbv iota.
  - split; [reflexivity|]. split; [unfold qview; simpl; by rewrite E|]. split; [by rewrite app_nil_r|].
    repeat split; reflexivity.
  - repeat split; reflexivity.
Qed.

Lemma release_fields q :
  Pending (release 0 q) = Pending q /\ KickActive (release 0 q) = KickActive q /\
  Peer (release 0 q) = Peer q /\ LastKickCore (release 0 q) = LastKickCore q.
Proof. repeat split; reflexivity. Qed.

Lemma complete_outcome e res hw d :
  queue_ok (sigs d) (qu d) ->
  (InFlightPerCore (qu d) !! 0%nat = Some None /\ RkMppJobComplete e res hw d = Some d) \/
  (exists j x d', RkMppJobComplete e res hw d = Some d' /\ completes e res hw d j x d').
Proof.
  intros Hok. unfold RkMppJobComplete.
  destruct (complete_locked_outcome res hw d Hok)
    as [[H0 ->]|(j & x & d1 & H0 & Hx & -> & J1 & Q1 & L1 & F1 & C1 & W1 & B1 & P1)]; [by left|right].
  ostep. set (q' := release 0 (if frees_here x then qu d else to_completed j (qu d))) in *.
  assert (Hq : wants_kick q' = wants_kick (qu d) /\ KickActive q' = KickActive (qu d) /\
               Peer q' = Peer (qu d) /\ LastKickCore q' = LastKickCore (qu d)).
  { subst q'. unfold wants_kick. destruct (frees_here x); rewrite !(proj1 (release_fields _));
      repeat split; reflexivity. }
  destruct Hq as (Hw & Ha & Hp & Hlk). rewrite Hw.
  set (d2 := if idle_after q' then gate e d1 else d1).
  assert (G : logs (if idle_after q' then gate_log e else []) d1 d2 /\
              NeedsFullReset d2 = NeedsFullReset d1 /\ NeedsCoreReset d2 = NeedsCoreReset d1).
  { subst d2. destruct (idle_after q'); [split; [apply gate_logs|apply gate_flags]|split; [apply logs_refl|done]]. }
  destruct G as ([G1 G2 G3 G4 G5 G6] & G7 & G8). clearbody d2.
  assert (E : exists d3, free_if (frees_here x) j d2 = Some d3 /\
    jobs d3 = (if frees_here x then delete j (jobs d) else <[j := finished res hw (qpc d) x]> (jobs d)) /\
    qu d3 = qu d2 /\ devlog d3 = devlog d2 /\ jfiles d3 = jfiles d2 /\ NeedsCoreReset d3 = NeedsCoreReset d2 /\
    NeedsFullReset d3 = NeedsFullReset d2 /\ LastJobFailed d3 = LastJobFailed d2 /\ qpc d3 = qpc d2).
  { unfold free_if, free_job. rewrite G2, J1. destruct (frees_here x).
    - rewrite lookup_insert_eq. ostep. eexists. split; [done|]. split; [|repeat split; reflexivity].
      simpl. rewrite G2, J1. apply delete_insert_eq.
    - eexists. split; [done|]. rewrite G2, J1. repeat split; reflexivity. }
  destruct E as (d3 & -> & J3 & Q3 & L3 & F3 & C3 & W3 & B3 & P3). ostep.
  assert (Q : qu d3 = q') by congruence.
  exists j, x. eexists. split; [reflexivity|].
  destruct (enqueue_fields d3) as (N1 & N2 & N3 & N4 & N5 & N6 & N7 & N8 & N9 & N10).
  destruct (wants_kick (qu d)) eqn:Ew; split; try done; try congruence; cbv zeta; fold q'; rewrite ?Ew.
  - rewrite N2, Q. done.
  - rewrite N3, L3, G1, L1, Q, Ha, <- !app_assoc. done.
  - rewrite N9, N10, Q. done.
  - rewrite Q. done.
  - rewrite L3, G1, L1, app_nil_r, <- !app_assoc. done.
  - rewrite Q. done.
Qed.

Lemma completes_ok e res hw d j x d' :
  queue_ok (sigs d) (qu d) -> completes e res hw d j x d' -> queue_ok (sigs d') (qu d').
Proof.
  intros Hok [H0 Hx J Q _ _ _ _ _ _ _].
  set (q' := release 0 (if frees_here x then qu d else to_completed j (qu d))) in *.
  assert (Hq : queue_ok (sigs d') q').
  { unfold sigs. rewrite J. subst q'. destruct (frees_here x).
    - rewrite fmap_delete. change 0 with (Z.of_nat 0). by apply queue_ok_release_free.
    - rewrite fmap_insert. change 0 with (Z.of_nat 0).
      destruct (queue_ok_release_completed _ _ _ _ _ (sig (finished res hw (qpc d) x)) Hok H0
                  (lookup_sigs _ _ _ Hx)) as [H _]; done. }
  destruct (wants_kick (qu d)); [|by eapply queue_ok_view].
  eapply queue_ok_view; [exact Q|].
  eapply queue_ok_perm; [exact Hq| |done|done|apply (qo_lru _ _ Hq)|apply (qo_target _ _ Hq)].
  eapply core_ok_ext; [..|apply (qo_core _ _ Hq)]; done.
Qed.

(** ** The whole kick *)
Lemma kick_probe_outcome j d x :
  jobs d !! j = Some x -> bank_ok (DenseBank x) ->
  exists y d', kick_probe j d = Some d' /\ sig y = sig x /\ jobs d' = <[j := y]> (jobs d) /\
    DenseKickValue y = DenseKickValue x /\ CleanMdls y = CleanMdls x /\
    OutputFrameMdl y = OutputFrameMdl x /\ ColmvCurMdl y = ColmvCurMdl x /\
    StartQpc y = StartQpc x /\ qview (qu d') = qview (qu d) /\
    Peer (qu d') = Peer (qu d) /\ LastKickCore (qu d') = LastKickCore (qu d) /\
    devlog d' = devlog d /\ jfiles d' = jfiles d /\ NeedsCoreReset d' = NeedsCoreReset d /\
    NeedsFullReset d' = NeedsFullReset d /\ LastJobFailed d' = LastJobFailed d /\ qpc d' = qpc d.
Proof.
  intros Hx (Hb & _). unfold kick_probe, deref. rewrite Hx. ostep.
  destruct (Common (DenseBank x) !! 1%nat) as [w|] eqn:Ew; [|apply lookup_ge_None in Ew; lia]. ostep.
  rewrite (upd_job_eq _ _ _ _ Hx). ostep.
  eexists _, _. split; [reflexivity|]. split; [|split; [reflexivity|]]; [reflexivity|].
  repeat split; reflexivity.
Qed.

(** The log of a kick up to the window check, and after it. *)
Definition kick_prefix (e : env) (d : jdev) : list effect :=
  reset_log e d ++ ccu_log e has_UngateLeafClocks [UngateLeafClocks] ++
  [Mm (Wr RKVDEC2_INT_STATUS_OFFSET 0)] ++ cache_log e.
Definition kick_suffix (e : env) (x : job) : list effect :=
  map FlushIo (CleanMdls x) ++ bank_log (DenseBank x) ++ iommu_log e has_FlushTlb IommuFlushTlb ++
  [Mm (Wr kickByte (DenseKickValue x))].

(** A quiet step that logs [l] and leaves the reset flags at [fc] and [ff]. *)
Record kicked (l : list effect) (fc ff : Z) (d d' : jdev) : Prop := Kicked {
  kk_quiet : quiet d d';
  kk_log : devlog d' = devlog d ++ l;
  kk_core : NeedsCoreReset d' = fc;
  kk_full : NeedsFullReset d' = ff;
  kk_files : jfiles d' = jfiles d;
  kk_failed : LastJobFailed d' = LastJobFailed d;
  kk_qpc : qpc d' = qpc d;
  kk_peer : Peer (qu d') = Peer (qu d);
}.

Definition full_after (e : env) (d : jdev) : Z :=
  if negb (NeedsFullReset d =? 0) && enable_failed e then 1 else 0.

(** Where the kick leaves the function: the register window is missing or too
    short, the kick bit is absent, or the hardware runs. *)
Lemma kick_outcome e j d x :
  queue_ok (sigs d) (qu d) -> jobs d !! j = Some x ->
  exists d1,
    (if negb (MmioBase e) || (MmioLength e =? 0) then
       kicked [] (NeedsCoreReset d) (NeedsFullReset d) d d1 /\
       JobKickLocalInner e j d = RkMppJobComplete e STATUS_DEVICE_NOT_READY 0 d1
     else if negb (0x558 <=? MmioLength e) then
       kicked (kick_prefix e d) 0 (full_after e d) d d1 /\
       JobKickLocalInner e j d = RkMppJobComplete e STATUS_INVALID_PARAMETER 0 d1
     else
       kicked (kick_prefix e d ++ kick_suffix e x) 0 (full_after e d) d d1 /\
       JobKickLocalInner e j d
       = if flag (DenseKickValue x) RKVDEC2_REG_DEC_E_BIT then Some d1
         else RkMppJobComplete e STATUS_SUCCESS 0 d1).
Proof.
  intros Hok Hx. unfold JobKickLocalInner.
  pose (g := fun y => y <| StartQpc := qpc d |>).
  destruct (quiet_upd j g d x Hx)
    as (d1 & E1 & Qt1 & Hx1 & Q1 & L1 & F1 & P1 & C1 & W1 & B1); [reflexivity|].
  change (upd_job j _ d) with (upd_job j g d). rewrite E1. ostep. subst g. cbv beta in Hx1.
  set (x1 := x <| StartQpc := qpc d |>) in *.
  destruct (negb (MmioBase e) || (MmioLength e =? 0)).
  { exists d1. split; [|done]. split; try done; try congruence. by rewrite app_nil_r. }
  assert (Hbx : bank_ok (DenseBank x1)) by exact (qo_bank _ _ Hok _ _ (lookup_sigs _ _ _ Hx)).
  destruct (kick_probe_outcome j d1 x1 Hx1 Hbx)
    as (y & d2 & -> & Sy & J2 & K2 & M2 & _ & _ & _ & V2 & R2 & _ & L2 & F2 & C2 & W2 & B2 & P2). ostep.
  assert (Qt2 : quiet d d2).
  { eapply quiet_trans; [exact Qt1|]. split; [|exact V2]. unfold sigs. rewrite J2, fmap_insert, Sy.
    apply insert_id. by apply lookup_sigs. }
  destruct (pending_reset_outcome e d2) as (L3 & C3 & W3).
  set (d3 := pending_reset e d2) in *. clearbody d3.
  assert (Erl : reset_log e d2 = reset_log e d) by (unfold reset_log; by rewrite W2, C2, W1, C1).
  assert (Efa : full_after e d2 = full_after e d) by (unfold full_after; by rewrite W2, W1).
  pose proof (ccu_call_logs e has_UngateLeafClocks [UngateLeafClocks] d3) as L4.
  destruct (ccu_call_flags e has_UngateLeafClocks [UngateLeafClocks] d3) as [W4 C4].
  set (d4 := ccu_call e _ _ d3) in *. clearbody d4.
  pose proof (logs_log1 (Mm (Wr RKVDEC2_INT_STATUS_OFFSET 0)) d4) as L5.
  assert (W5 : NeedsFullReset (wr RKVDEC2_INT_STATUS_OFFSET 0 d4) = NeedsFullReset d4 /\
               NeedsCoreReset (wr RKVDEC2_INT_STATUS_OFFSET 0 d4) = NeedsCoreReset d4) by (split; reflexivity).
  fold (wr RKVDEC2_INT_STATUS_OFFSET 0 d4) in L5. set (d5 := wr _ _ d4) in *. clearbody d5.
  pose proof (cache_setup_logs e d5) as L6.
  assert (W6 : NeedsFullReset (cache_setup e d5) = NeedsFullReset d5 /\
               NeedsCoreReset (cache_setup e d5) = NeedsCoreReset d5).
  { unfold cache_setup. destruct (_ <=? _); [|done]. split; reflexivity. }
  set (d6 := cache_setup e d5) in *. clearbody d6.
  assert (L26 : logs (kick_prefix e d) d2 d6).
  { unfold kick_prefix. rewrite <- Erl. do 3 (eapply logs_trans; [eassumption|]). exact L6. }
  assert (Hy : jobs d6 !! j = Some y) by (rewrite (lg_jobs _ _ _ L26), J2; apply lookup_insert_eq).
  unfold deref. rewrite Hy. ostep. rewrite window_fits_len.
  assert (K6 : kicked (kick_prefix e d) 0 (full_after e d) d d6).
  { split.
    - eapply quiet_trans; [exact Qt2|]. eapply logs_quiet, L26.
    - rewrite (lg_log _ _ _ L26). congruence.
    - destruct W6, W5. congruence.
    - rewrite <- Efa. unfold full_after. destruct W6, W5. congruence.
    - rewrite (lg_files _ _ _ L26). congruence.
    - rewrite (lg_failed _ _ _ L26). congruence.
    - rewrite (lg_qpc _ _ _ L26). congruence.
    - rewrite (lg_qu _ _ _ L26). congruence. }
  clear L3 L4 L5 L6 W3 C3 W4 C4 W5 W6 L26 d3 d4 d5.
  destruct (negb (0x558 <=? MmioLength e)); [by exists d6|].
  assert (Eb : DenseBank y = DenseBank x) by (assert (H : s_bank (sig y) = s_bank (sig x1)) by (by rewrite Sy); exact H).
  assert (Ec : CleanMdls y = CleanMdls x) by exact M2.
  assert (Ek : DenseKickValue y = DenseKickValue x) by exact K2.
  rewrite Eb, Ec, Ek.
  pose proof (logs_fold (fun s m => log1 (FlushIo m) s) (fun m => [FlushIo m]) (CleanMdls x) d6
                (fun d a => logs_log1 (FlushIo a) d)) as L7. rewrite flat_map_single in L7.
  assert (W7 : forall l d, NeedsFullReset (foldl (fun s m => log1 (FlushIo m) s) d l) = NeedsFullReset d /\
                NeedsCoreReset (foldl (fun s m => log1 (FlushIo m) s) d l) = NeedsCoreReset d).
  { induction l as [|m l IH]; intros d0; [done|]. simpl. by rewrite (proj1 (IH _)), (proj2 (IH _)). }
  specialize (W7 (CleanMdls x) d6). set (d7 := foldl _ d6 _) in *. clearbody d7.
  destruct (banks_outcome (DenseBank x) d7 Hbx) as (d8 & -> & L8 & W8 & C8). ostep.
  pose proof (iommu_call_logs e has_FlushTlb IommuFlushTlb d8) as L9.
  destruct (iommu_call_flags e has_FlushTlb IommuFlushTlb d8) as [W9 C9].
  set (d9 := iommu_call e _ _ d8) in *. clearbody d9.
  pose proof (logs_log1 (Mm (Wr kickByte (DenseKickValue x))) d9) as L10.
  exists (wr kickByte (DenseKickValue x) d9). split; [|done].
  assert (L610 : logs (kick_suffix e x) d6 (wr kickByte (DenseKickValue x) d9)).
  { unfold kick_suffix. do 3 (eapply logs_trans; [eassumption|]). exact L10. }
  destruct K6 as [A1 A2 A3 A4 A5 A6 A7 A8], W7 as [W7 C7].
  assert (W10 : NeedsFullReset (wr kickByte (DenseKickValue x) d9) = NeedsFullReset d9 /\
                NeedsCoreReset (wr kickByte (DenseKickValue x) d9) = NeedsCoreReset d9) by (split; reflexivity).
  destruct W10 as [W10 C10]. split.
  - eapply quiet_trans; [exact A1|]. eapply logs_quiet, L610.
  - rewrite (lg_log _ _ _ L610), A2. by rewrite app_assoc.
  - congruence.
  - congruence.
  - rewrite (lg_files _ _ _ L610). done.
  - rewrite (lg_failed _ _ _ L610). done.
  - rewrite (lg_qpc _ _ _ L610). done.
  - rewrite (lg_qu _ _ _ L610). done.
Qed.
