(* ===== verification/JobWaitFacts.v ===== *)
(** * Facts about waiting, draining and peer completion

    The lock-held sections of WAIT_JOB, of the owner drain, of RkMppPeerCompletion
    and of RkMppJobRunForeign. *)

From S2P Require Import Prelude Mmio IommuMap BufPool JobQueue JobKick.
From S2P Require Import JobQueueFacts JobPromoteFacts JobKickFacts.

Lemma completed_live d j : queue_ok (sigs d) (qu d) -> j ∈ Completed (qu d) -> is_Some (sigs d !! j).
Proof. intros Hok Hj. apply (qo_live _ _ Hok). unfold q_all. rewrite !elem_of_app. auto. Qed.

Lemma sigs_same d d' : jobs d' = jobs d -> sigs d' = sigs d.
Proof. unfold sigs. by intros ->. Qed.

(** ** RkMppPeerCompletion under the lock *)
Lemma peer_locked_outcome cookie st hw d :
  queue_ok (sigs d) (qu d) ->
  ((forall j x, InFlightPerCore (qu d) !! 1%nat = Some (Some j) -> jobs d !! j = Some x -> Id x <> cookie) /\
   peer_locked cookie st hw d = Some (None, d)) \/
  (exists j x d', InFlightPerCore (qu d) !! 1%nat = Some (Some j) /\ jobs d !! j = Some x /\ Id x = cookie /\
     peer_locked cookie st hw d = Some (Some (j, wants_kick (qu d)), d') /\
     jobs d' = <[j := x <| EndQpc := qpc d |> <| Result := st |> <| HardwareStatus := hw |>]> (jobs d) /\
     qu d' = to_completed j (release 1 (qu d)) /\
     devlog d' = devlog d ++ flushes x /\
     jfiles d' = jfiles (if job_failed st hw then charge_error (Owner x) d else d)).
Proof.
  intros Hok. unfold peer_locked.
  destruct (slot_some (qu d) 1 (qo_core _ _ Hok)) as [v Hv]; [lia|].
  unfold slot in *. change (Z.to_nat 1) with 1%nat in *. rewrite Hv. ostep.
  destruct v as [j|]; [|left; split; [intros; congruence|done]].
  destruct (live_job d j) as [x Hx]; [by eapply inflight_live|].
  unfold deref. rewrite Hx. ostep. destruct (Z.eqb_spec (Id x) cookie) as [Ei|Ei]; simpl negb; cbv iota.
  2: { left. split; [|done]. intros j' x' Hj' Hx'. assert (j' = j) as -> by congruence. congruence. }
  right. rewrite (upd_job_eq _ _ _ _ Hx). ostep. set (d1 := d <| jobs := _ |>).
  set (d2 := if job_failed st hw then charge_error (Owner x) d1 else d1).
  destruct (flush_frame (OutputFrameMdl x) (ColmvCurMdl x) d2) as (F1 & F2 & F3 & _ & _ & _ & _ & F8).
  set (d3 := flush_opt _ (flush_opt _ d2)) in *.
  assert (C : jobs d2 = jobs d1 /\ qu d2 = qu d1 /\ devlog d2 = devlog d1).
  { subst d2. destruct (job_failed st hw); [|done]. by destruct (Owner x). }
  destruct C as (C1 & C2 & C3).
  exists j, x. eexists. split; [done|]. split; [done|]. split; [done|]. split; [|split; [|split; [|split]]].
  - unfold on_q, set_field at 1. simpl qu. rewrite F2, C2. reflexivity.
  - cbn [jobs set_field on_q]. by rewrite F1, C1.
  - cbn [qu set_field on_q]. by rewrite F2, C2.
  - cbn [devlog set_field on_q]. by rewrite F8, C3.
  - cbn [jfiles set_field on_q]. rewrite F3. subst d2. destruct (job_failed st hw); [|done].
    by destruct (Owner x).
Qed.

(** ** WAIT_JOB *)

(** The job the lookup of WAIT_JOB stops at, when it is the caller's. *)
Definition wait_target (File : nat) (JobId : Z) (d : jdev) (j : Z) (x : job) : Prop :=
  jobs d !! j = Some x /\ Id x = JobId /\ Owner x = Some File.

Lemma wait_lookup_outcome File JobId d :
  queue_ok (sigs d) (qu d) ->
  wait_lookup File JobId d = Some (W_NotFound, d) \/
  (exists j x, j ∈ Completed (qu d) /\ wait_target File JobId d j x /\
     wait_lookup File JobId d = Some (W_Complete j, on_q (unlinkq j) d)) \/
  (exists j x, wait_target File JobId d j x /\ (j ∈ Pending (qu d) \/
       exists c, Z.of_nat c < CoreCount (qu d) /\ InFlightPerCore (qu d) !! c = Some (Some j)) /\
     wait_lookup File JobId d
     = Some (W_Pinned j, d <| jobs := <[j := x <| WaiterPin := WaiterPin x + 1 |>]> (jobs d) |>)).
Proof.
  intros Hok. unfold wait_lookup.
  destruct (find_job_spec (fun _ x => Id x =? JobId) (Completed (qu d)) d) as (a & -> & Ha).
  { intros. by apply completed_live. }
  ostep. destruct a as [j|]; simpl is_found; cbv iota.
  - destruct Ha as (Hj & x & Hx & Ei). apply Z.eqb_eq in Ei. ostep. simpl is_found. cbv iota. ostep.
    unfold deref. rewrite Hx. ostep. case_bool_decide as Eo; simpl negb; cbv iota; [|by left].
    right; left. exists j, x. split; [done|]. split; [done|].
    rewrite unlink_eq by (eauto; apply elem_of_app; by right). done.
  - destruct (find_slot_spec (fun _ x => (Id x =? JobId) && bool_decide (Owner x = Some File))
                (cores (qu d)) d Hok) as (b & -> & Hb).
    { intros c. apply cores_range. apply Hok. }
    ostep.
    assert (Hpin : forall j x, wait_target File JobId d j x ->
      (j ∈ Pending (qu d) \/ exists c, Z.of_nat c < CoreCount (qu d) /\ InFlightPerCore (qu d) !! c = Some (Some j)) ->
      (x ← deref j d; if negb (bool_decide (Owner x = Some File)) then Some (W_NotFound, d)
         else if is_found (@None Z) then s ← unlink j d; Some (W_Complete j, s)
         else s ← upd_job j (fun x => x <| WaiterPin ::= fun n => n + 1 |>) d; Some (W_Pinned j, s))
      = Some (W_Pinned j, d <| jobs := <[j := x <| WaiterPin := WaiterPin x + 1 |>]> (jobs d) |>)).
    { intros j x (Hx & _ & Eo) _. unfold deref. rewrite Hx. ostep. rewrite bool_decide_eq_true_2 by done.
      simpl. by rewrite (upd_job_eq _ _ _ _ Hx). }
    destruct b as [j|]; simpl is_found; cbv iota; ostep.
    + destruct Hb as (c & x & Hc & Hs & Hx & E). apply andb_true_iff in E as [Ei Eo].
      apply Z.eqb_eq in Ei. apply bool_decide_eq_true in Eo. right; right. exists j, x.
      assert (Hr : j ∈ Pending (qu d) \/ exists c, Z.of_nat c < CoreCount (qu d) /\ InFlightPerCore (qu d) !! c = Some (Some j)).
      { right. exists (Z.to_nat c). unfold cores in Hc. rewrite elem_of_seqZ in Hc. split; [lia|exact Hs]. }
      split; [done|]. split; [done|]. by apply Hpin.
    + destruct (find_job_spec (fun _ x => Id x =? JobId) (Pending (qu d)) d) as (c & -> & Hc).
      { intros. by apply pending_live. }
      ostep. destruct c as [j|]; [|by left]. destruct Hc as (Hj & x & Hx & Ei). apply Z.eqb_eq in Ei.
      destruct (decide (Owner x = Some File)) as [Eo|Eo].
      * right; right. exists j, x. split; [done|]. split; [by left|]. apply Hpin; [done|by left].
      * left. unfold deref. rewrite Hx. ostep. by rewrite bool_decide_eq_false_2.
Qed.

(** Unpinning. *)
Definition unpinned (x : job) : job := x <| WaiterPin := WaiterPin x - 1 |>.

Lemma wait_done_outcome j d x :
  queue_ok (sigs d) (qu d) -> jobs d !! j = Some x -> j ∈ Completed (qu d) ->
  let d1 := d <| jobs := <[j := unpinned x]> (jobs d) |> in
  wait_done_locked j d
  = Some (wait_result x, WaiterPin x - 1 =? 0, if WaiterPin x - 1 =? 0 then on_q (unlinkq j) d1 else d1).
Proof.
  intros Hok Hx Hj. cbv zeta. unfold wait_done_locked, deref. rewrite Hx. ostep.
  rewrite (upd_job_eq _ _ _ _ Hx). ostep. cbn [jobs set_field]. rewrite lookup_insert_eq. ostep.
  change (WaiterPin (x <| WaiterPin ::= fun n => n - 1 |>)) with (WaiterPin x - 1).
  destruct (WaiterPin x - 1 =? 0); [|done].
  rewrite unlink_eq; [done| |apply elem_of_app; by right].
  cbn [jobs set_field]. rewrite lookup_insert_eq. eauto.
Qed.

Definition in_flight_visible (d : jdev) (j : Z) : Prop :=
  exists c, 0 <= c < CoreCount (qu d) /\ InFlightPerCore (qu d) !! Z.to_nat c = Some (Some j).

Lemma wait_timeout_outcome j d x :
  queue_ok (sigs d) (qu d) -> jobs d !! j = Some x ->
  let d1 := d <| jobs := <[j := unpinned x]> (jobs d) |> in
  exists r, wait_timeout_locked j d = Some r /\
  ((r = (true, on_q (unlinkq j) d1) /\ WaiterPin x = 1 /\ j ∈ Pending (qu d) ++ Completed (qu d)) \/
   (r = (false, d <| jobs := <[j := unpinned x <| OrphanOnComplete := true |>]> (jobs d) |>) /\
    WaiterPin x = 1 /\ in_flight_visible d j) \/
   (r = (false, d1) /\ (WaiterPin x <> 1 \/ (j ∉ Pending (qu d) ++ Completed (qu d)) /\ ~ in_flight_visible d j))).
Proof.
  intros Hok Hx. cbv zeta. unfold wait_timeout_locked. rewrite (upd_job_eq _ _ _ _ Hx). ostep.
  unfold deref. cbn [jobs set_field]. rewrite lookup_insert_eq. ostep.
  change (WaiterPin (x <| WaiterPin ::= fun n => n - 1 |>)) with (WaiterPin x - 1).
  change (x <| WaiterPin ::= fun n => n - 1 |>) with (unpinned x).
  change (d <| jobs ::= insert j (unpinned x) |>) with (d <| jobs := <[j := unpinned x]> (jobs d) |>).
  set (d1 := d <| jobs := <[j := unpinned x]> (jobs d) |>).
  assert (Hx1 : jobs d1 !! j = Some (unpinned x)) by (cbn; apply lookup_insert_eq).
  assert (Q1 : qu d1 = qu d) by done.
  assert (Hok1 : queue_ok (sigs d1) (qu d1)).
  { rewrite Q1. unfold d1. rewrite sigs_upd. eapply queue_ok_upd; [done|by apply lookup_sigs|done..|by left]. }
  destruct (Z.eqb_spec (WaiterPin x - 1) 0) as [Ep|Ep]; simpl negb; cbv iota.
  2: { eexists. split; [done|]. right; right. split; [done|]. left. lia. }
  rewrite Q1. destruct (decide (j ∈ Pending (qu d))) as [Hp|Hp].
  { rewrite unlink_eq by (eauto; rewrite Q1; apply elem_of_app; by left). ostep. eexists. split; [done|].
    left. split; [done|]. split; [lia|]. apply elem_of_app. by left. }
  destruct (decide (j ∈ Completed (qu d))) as [Hc|Hc].
  { rewrite unlink_eq by (eauto; rewrite Q1; apply elem_of_app; by right). ostep. eexists. split; [done|].
    left. split; [done|]. split; [lia|]. apply elem_of_app. by right. }
  destruct (find_slot_spec (fun k _ => k =? j) (cores (qu d)) d1 Hok1) as (a & -> & Ha).
  { intros c. apply cores_range. apply Hok. }
  ostep. destruct a as [k|]; simpl is_found; cbv iota.
  - destruct Ha as (c & y & Hcc & Hs & Hy & E). apply Z.eqb_eq in E. subst k.
    rewrite (upd_job_eq _ _ _ _ Hx1). ostep. eexists. split; [done|]. right; left. split.
    + f_equal. unfold d1, set_field. simpl. by rewrite insert_insert_eq.
    + split; [lia|]. exists c. unfold cores in Hcc. rewrite elem_of_seqZ in Hcc. split; [lia|exact Hs].
  - eexists. split; [done|]. right; right. split; [done|]. right.
    split; [by intros [?|?]%elem_of_app|]. intros (c & Hc1 & Hs).
    specialize (Ha c j (unpinned x)). rewrite Z.eqb_refl in Ha. discriminate Ha; [|exact Hs|exact Hx1].
    unfold cores. rewrite elem_of_seqZ. lia.
Qed.

(** ** Splitting and freeing *)
Definition holds_of (P : job -> bool) (d : jdev) (j : Z) : bool :=
  match jobs d !! j with Some x => P x | None => false end.

Lemma partition_jobs_outcome P l d :
  (forall j, j ∈ l -> is_Some (sigs d !! j)) ->
  partition_jobs P l d
  = Some (filter (fun j => holds_of P d j = true) l, filter (fun j => holds_of P d j = false) l).
Proof.
  induction l as [|j l IH]; intros Hl; simpl; [done|].
  destruct (live_job d j) as [x Hx]; [apply Hl; by left|]. unfold deref. rewrite Hx. ostep.
  rewrite IH by (intros; apply Hl; by right). ostep.
  assert (E : holds_of P d j = P x) by (unfold holds_of; by rewrite Hx).
  destruct (P x).
  - rewrite filter_cons_True, filter_cons_False by (by rewrite E). done.
  - rewrite filter_cons_False, filter_cons_True by (by rewrite E). done.
Qed.

Lemma split_perm P d (l : list Z) :
  filter (fun j => holds_of P d j = true) l ++ filter (fun j => holds_of P d j = false) l ≡ₚ l.
Proof.
  induction l as [|j l IH]; [done|]. destruct (holds_of P d j) eqn:E.
  - rewrite filter_cons_True, filter_cons_False by (by rewrite E). simpl. by f_equiv.
  - rewrite filter_cons_False, filter_cons_True by (by rewrite E). by rewrite <- Permutation_middle, IH.
Qed.

Lemma free_listed_outcome l d :
  NoDup l -> (forall j, j ∈ l -> is_Some (jobs d !! j)) ->
  free_all l d = Some (d <| jobs := foldr delete (jobs d) l |>).
Proof.
  revert d. induction l as [|j l IH]; intros d Hnd Hl.
  - simpl. destruct d. done.
  - apply NoDup_cons in Hnd as [Hj Hnd]. unfold free_all. rewrite foldlM_cons.
    destruct (Hl j) as [x Hx]; [by left|]. cbv beta.
    assert (E : free_job j d = Some (d <| jobs := delete j (jobs d) |>)) by (unfold free_job; by rewrite Hx).
    rewrite E. ostep. fold (free_all l).
    assert (Hl' : forall k, k ∈ l -> is_Some (delete j (jobs d) !! k)).
    { intros k Hk. rewrite lookup_delete_ne by (intros ->; done). apply Hl. by right. }
    etransitivity; [exact (IH (d <| jobs := delete j (jobs d) |>) Hnd Hl')|]. f_equal. unfold set_field. simpl. f_equal.
    clear. generalize (jobs d) as m. induction l as [|k l IH]; intros m; simpl; [done|].
    rewrite IH. apply delete_delete.
Qed.

Lemma sigs_delete_all l d : sigs (d <| jobs := foldr delete (jobs d) l |>) = foldr delete (sigs d) l.
Proof.
  unfold sigs. cbn [jobs set_field]. induction l as [|j l IH]; simpl; [done|]. by rewrite fmap_delete, IH.
Qed.

(** ** The owner drain *)
Definition without (P : job -> bool) (d : jdev) (q : queue) : queue :=
  q <| Pending := filter (fun j => holds_of P d j = false) (Pending q) |>
    <| Completed := filter (fun j => holds_of P d j = false) (Completed q) |>.
Definition spliced (P : job -> bool) (d : jdev) : list Z :=
  filter (fun j => holds_of P d j = true) (Pending (qu d)) ++
  filter (fun j => holds_of P d j = true) (Completed (qu d)).

Lemma drain_splice_outcome File d :
  queue_ok (sigs d) (qu d) ->
  drain_splice File d = Some (spliced (owned_by File) d, d <| qu := without (owned_by File) d (qu d) |>).
Proof.
  intros Hok. unfold drain_splice.
  rewrite (partition_jobs_outcome _ (Pending (qu d))) by (intros j Hj; exact (pending_live _ _ Hok Hj)). ostep.
  rewrite (partition_jobs_outcome _ (Completed (qu d))) by (intros j Hj; exact (completed_live _ _ Hok Hj)).
  done.
Qed.

Lemma spliced_all P d :
  spliced P d ++ q_all (without P d (qu d)) ≡ₚ q_all (qu d).
Proof.
  unfold spliced, q_all.
  change (Pending (without P d (qu d))) with (filter (fun j => holds_of P d j = false) (Pending (qu d))).
  change (Completed (without P d (qu d))) with (filter (fun j => holds_of P d j = false) (Completed (qu d))).
  change (InFlightPerCore (without P d (qu d))) with (InFlightPerCore (qu d)).
  rewrite <- (split_perm P d (Pending (qu d))) at 3. rewrite <- (split_perm P d (Completed (qu d))) at 3.
  generalize (filter (fun j => holds_of P d j = true) (Pending (qu d))) as a,
    (filter (fun j => holds_of P d j = true) (Completed (qu d))) as b,
    (filter (fun j => holds_of P d j = false) (Pending (qu d))) as c,
    (filter (fun j => holds_of P d j = false) (Completed (qu d))) as e,
    (omap id (InFlightPerCore (qu d))) as i.
  intros a b c e i. rewrite <- !app_assoc. apply Permutation_app_head.
  rewrite !app_assoc. do 2 apply Permutation_app_tail. apply Permutation_app_comm.
Qed.

Lemma drain_pin_outcome File d :
  queue_ok (sigs d) (qu d) ->
  (drain_pin File d = Some (None, d) /\
   forall c j x, 0 <= c < CoreCount (qu d) -> InFlightPerCore (qu d) !! Z.to_nat c = Some (Some j) ->
     jobs d !! j = Some x -> Owner x <> Some File) \/
  (exists j x, in_flight_visible d j /\ jobs d !! j = Some x /\ Owner x = Some File /\
     drain_pin File d = Some (Some j, d <| jobs := <[j := x <| WaiterPin := WaiterPin x + 1 |>]> (jobs d) |>)).
Proof.
  intros Hok. unfold drain_pin.
  destruct (find_slot_spec (fun _ x => owned_by File x) (cores (qu d)) d Hok) as (a & -> & Ha).
  { intros c. apply cores_range. apply Hok. }
  ostep. destruct a as [j|].
  - right. destruct Ha as (c & x & Hc & Hs & Hx & E). apply bool_decide_eq_true in E.
    unfold cores in Hc. rewrite elem_of_seqZ in Hc. exists j, x.
    split; [exists c; split; [lia|exact Hs]|]. split; [done|]. split; [done|].
    rewrite (upd_job_eq _ _ _ _ Hx). done.
  - left. split; [done|]. intros c j x Hc Hs Hx Eo. specialize (Ha c j x).
    unfold owned_by in Ha. rewrite bool_decide_eq_true_2 in Ha by done. discriminate Ha; [|exact Hs|exact Hx].
    unfold cores. rewrite elem_of_seqZ. lia.
Qed.

(** A job given up by the drain. *)
Definition abandon (x : job) : job :=
  x <| OutputFrameMdl := None |> <| ColmvCurMdl := None |> <| OrphanOnComplete := true |>.
Definition in_slots_of (d : jdev) (l : list Z) (k : Z) : bool :=
  existsb (fun c => bool_decide (slot c (qu d) = Some (Some k))) l.
Definition marked (File : nat) (l : list Z) (d d' : jdev) : Prop :=
  forall k, jobs d' !! k
  = if in_slots_of d l k && holds_of (owned_by File) d k then abandon <$> jobs d !! k else jobs d !! k.

Lemma orphan_slot_outcome File c d :
  queue_ok (sigs d) (qu d) -> 0 <= c < 2 ->
  exists m, orphan_slot File d c = Some (d <| jobs := m |>) /\ marked File [c] d (d <| jobs := m |>).
Proof.
  intros Hok Hc. unfold orphan_slot, marked, in_slots_of. cbn [jobs set_field existsb].
  destruct (slot_some (qu d) c (qo_core _ _ Hok) Hc) as [v Hv]. rewrite Hv. ostep.
  assert (Hid : d <| jobs := jobs d |> = d) by (by destruct d).
  destruct v as [j|].
  - destruct (live_job d j) as [x Hx]; [by eapply inflight_live|]. unfold deref. rewrite Hx. ostep.
    destruct (owned_by File x) eqn:Eo.
    + rewrite (upd_job_eq _ _ _ _ Hx). eexists. split; [done|]. intros k. cbn [jobs set_field].
      destruct (decide (k = j)) as [->|Hne].
      * rewrite lookup_insert_eq, bool_decide_eq_true_2 by done. unfold holds_of. by rewrite Hx, Eo.
      * rewrite lookup_insert_ne by done. rewrite bool_decide_eq_false_2 by congruence. done.
    + exists (jobs d). rewrite Hid. split; [done|]. intros k. case_bool_decide as E; [|done].
      injection E as <-. unfold holds_of. by rewrite Hx, Eo.
  - exists (jobs d). rewrite Hid. split; [done|]. intros k. by rewrite bool_decide_eq_false_2.
Qed.

Definition unorphaned (s : jsig) : jsig := s <| s_orphan := false |>.

Lemma marked_sigs File l d d' k :
  marked File l d d' -> unorphaned <$> sigs d' !! k = unorphaned <$> sigs d !! k.
Proof.
  intros Hm. unfold sigs. rewrite !lookup_fmap, (Hm k).
  destruct (in_slots_of d l k && holds_of (owned_by File) d k); [|done]. by destruct (jobs d !! k).
Qed.

Lemma queue_ok_unorphaned h h' q :
  (forall k, unorphaned <$> h' !! k = unorphaned <$> h !! k) -> queue_ok h q -> queue_ok h' q.
Proof.
  intros Hs [H1 H2 H3 H4 H5 H6 H7 H8 H9].
  assert (Hinv : forall k y, h' !! k = Some y -> exists x, h !! k = Some x /\ unorphaned y = unorphaned x).
  { intros k y Hy. specialize (Hs k). rewrite Hy in Hs. destruct (h !! k) as [x|]; [|done].
    exists x. split; [done|]. exact (inj Some _ _ Hs). }
  split; try done.
  - intros j Hj. specialize (Hs j). destruct (H3 j Hj) as [x Hx]. rewrite Hx in Hs.
    destruct (h' !! j); [eauto|done].
  - intros c j y Hc Hy. destruct (Hinv _ _ Hy) as (x & Hx & E).
    assert (s_target y = s_target x) as -> by (exact (f_equal s_target E)). eauto.
  - intros j y Hy. destruct (Hinv _ _ Hy) as (x & Hx & E).
    assert (s_bank y = s_bank x) as -> by (exact (f_equal s_bank E)). eauto.
  - intros j y Hy. destruct (Hinv _ _ Hy) as (x & Hx & E).
    assert (s_id y = s_id x) as -> by (exact (f_equal s_id E)). eauto.
  - intros i j u v Hu Hv Eid. destruct (Hinv _ _ Hu) as (u' & Hu' & Eu), (Hinv _ _ Hv) as (v' & Hv' & Ev).
    eapply H7; [exact Hu'|exact Hv'|].
    transitivity (s_id u); [symmetry; exact (f_equal s_id Eu)|]. rewrite Eid. exact (f_equal s_id Ev).
Qed.

Lemma orphan_slots_outcome File l d :
  queue_ok (sigs d) (qu d) -> (forall c, c ∈ l -> 0 <= c < 2) ->
  exists m, foldlM (orphan_slot File) d l = Some (d <| jobs := m |>) /\ marked File l d (d <| jobs := m |>).
Proof.
  revert d. induction l as [|c l IH]; intros d Hok Hl.
  - exists (jobs d). assert (Hid : d <| jobs := jobs d |> = d) by (by destruct d). rewrite Hid.
    split; [done|]. by intros k.
  - rewrite foldlM_cons. destruct (orphan_slot_outcome File c d Hok) as (m1 & -> & M1); [apply Hl; by left|].
    ostep. set (d1 := d <| jobs := m1 |>) in *.
    destruct (IH d1) as (m2 & -> & M2).
    { eapply queue_ok_unorphaned; [|exact Hok]. intros k. by eapply marked_sigs. }
    { intros c' Hc'. apply Hl. by right. }
    exists m2. split; [done|]. intros k. specialize (M1 k). specialize (M2 k).
    cbn [jobs set_field] in M2 |- *.
    assert (Ein : in_slots_of d1 l k = in_slots_of d l k) by done. rewrite Ein in M2.
    assert (Eh : holds_of (owned_by File) d1 k = holds_of (owned_by File) d k).
    { unfold holds_of. rewrite M1. destruct (in_slots_of d [c] k && holds_of (owned_by File) d k); [|done].
      by destruct (jobs d !! k). }
    rewrite Eh in M2. rewrite M2, M1. unfold in_slots_of. simpl existsb. rewrite orb_false_r.
    destruct (bool_decide (slot c (qu d) = Some (Some k))), (existsb _ l), (holds_of (owned_by File) d k);
      simpl; try done. by destruct (jobs d !! k).
Qed.

Definition reaped (File : nat) (x : job) : bool := owned_by File x && (WaiterPin x =? 0).

Lemma drain_after_outcome File j (timedOut : bool) d x :
  queue_ok (sigs d) (qu d) -> jobs d !! j = Some x ->
  let d1 := d <| jobs := <[j := unpinned x]> (jobs d) |> in
  exists d2, (if timedOut then marked File (cores (qu d)) d1 d2 else jobs d2 = jobs d1) /\
    qu d2 = qu d /\ devlog d2 = devlog d /\ jfiles d2 = jfiles d /\
    queue_ok (sigs d2) (qu d2) /\
    drain_after File j timedOut d
    = Some (filter (fun k => holds_of (reaped File) d2 k = true) (Completed (qu d)),
            d2 <| qu := (qu d) <| Completed := filter (fun k => holds_of (reaped File) d2 k = false) (Completed (qu d)) |> |>).
Proof.
  intros Hok Hx. cbv zeta. unfold drain_after. rewrite (upd_job_eq _ _ _ _ Hx). ostep.
  change (x <| WaiterPin ::= fun n => n - 1 |>) with (unpinned x).
  set (d1 := d <| jobs := <[j := unpinned x]> (jobs d) |>).
  assert (Hok1 : queue_ok (sigs d1) (qu d1)).
  { unfold d1. rewrite sigs_upd. eapply queue_ok_upd; [done|by apply lookup_sigs|done..|by left]. }
  assert (Hd2 : exists m, (if timedOut then foldlM (orphan_slot File) d1 (cores (qu d1)) else Some d1)
            = Some (d1 <| jobs := m |>) /\
     (if timedOut then marked File (cores (qu d)) d1 (d1 <| jobs := m |>) else m = jobs d1)).
  { destruct timedOut.
    - destruct (orphan_slots_outcome File (cores (qu d1)) d1 Hok1) as (m & -> & Hm).
      + intros c. apply cores_range. apply Hok1.
      + by exists m.
    - exists (jobs d1). by split; [destruct d|]. }
  destruct Hd2 as (m & -> & Hm). ostep. set (d2 := d1 <| jobs := m |>) in *.
  assert (Hok2 : queue_ok (sigs d2) (qu d2)).
  { destruct timedOut; [|unfold sigs, d2; cbn [jobs set_field qu]; rewrite Hm; exact Hok1].
    eapply queue_ok_unorphaned; [|exact Hok1]. intros k. by eapply marked_sigs. }
  rewrite partition_jobs_outcome by (intros; by apply completed_live). ostep.
  exists d2. split; [by destruct timedOut|]. do 3 (split; [done|]). split; [done|]. done.
Qed.

(** ** Foreign jobs *)
Lemma foreign_start_outcome p j d :
  queue_ok (sigs d) (qu d) -> jobs d !! j = None -> NextId (qu d) + 1 < 2 ^ 64 -> bank_ok (Bank p) ->
  exists r d', foreign_start p j d = Some (r, d') /\
  ((r = false /\ (exists k, InFlightPerCore (qu d) !! 0%nat = Some (Some k)) /\
    jobs d' = jobs d /\ qu d' = qu (bump_id d)) \/
   (r = true /\ InFlightPerCore (qu d) !! 0%nat = Some None /\
    jobs d' = <[j := (foreign_job p) <| Id := NextId (qu d) + 1 |>]> (jobs d) /\
    qu d' = clear_idle 0 (set_slot 0 (Some j) (qu (bump_id d))))).
Proof.
  intros Hok Hj Hn Hb. unfold foreign_start.
  assert (Eid : NextId (qu (bump_id d)) = NextId (qu d) + 1).
  { change (next_id (qu d) = NextId (qu d) + 1). apply u64_small. pose proof (qo_next _ _ Hok). lia. }
  rewrite Eid. destruct (slot_some (qu d) 0 (qo_core _ _ Hok)) as [v Hv]; [lia|].
  set (d1 := (bump_id d) <| jobs ::= _ |>). change (slot 0 (qu d1)) with (slot 0 (qu d)). rewrite Hv. ostep.
  assert (J1 : jobs d1 = <[j := (foreign_job p) <| Id := NextId (qu d) + 1 |>]> (jobs d)) by done.
  destruct v as [k|].
  - unfold free_job. rewrite J1, lookup_insert_eq. ostep. eexists _, _. split; [reflexivity|]. left.
    split; [done|]. split; [exists k; exact Hv|]. split; [|done]. cbn [jobs set_field].
    change (delete j (jobs d1) = jobs d). rewrite J1. by apply delete_insert_id.
  - eexists _, _. split; [reflexivity|]. right. split; [done|]. split; [exact Hv|]. done.
Qed.

Lemma foreign_finish_done j d x :
  jobs d !! j = Some x -> j ∈ Completed (qu d) ->
  foreign_finish j false d
  = Some (Result x, HardwareStatus x, (on_q (unlinkq j) d) <| jobs := delete j (jobs d) |>).
Proof.
  intros Hx Hj. unfold foreign_finish, deref. rewrite Hx. ostep.
  rewrite unlink_eq by (eauto; apply elem_of_app; by right). ostep. unfold free_job.
  change (jobs (on_q (unlinkq j) d)) with (jobs d). rewrite Hx. done.
Qed.
