(* ===== verification/JobSys.v ===== *)
(** * The job queue under concurrency

    The threads of the rkvdec driver as a labelled step relation over the device
    of [JobQueue] and [JobKick]: one step per hold of the queue lock, and one per
    access to a job that a thread makes outside the lock.  A thread between two
    steps is an entry of the ghost fields: [held] for a job it still has to touch
    without a pin, [pins] for a waiter, [foreign] for RkMppJobRunForeign, [arming]
    for a completion about to wake the worker, [peer_out] for a kick the peer has
    accepted and not completed. *)

From S2P Require Import Prelude Mmio IommuMap BufPool JobQueue JobKick JobQueueFacts JobPromoteFacts JobKickFacts.

(** What a thread still does with a job: kick it on a core, set its event, store
    a failure and set its event, or read its id back (the end of SUBMIT_DENSE). *)
Inductive hold := HKick (core : Z) | HSignal | HFail (st : NTSTATUS) | HReadId.
#[export] Instance hold_eq_dec : EqDecision hold.
Proof. solve_decision. Defined.

Record sys := Sys {
  dev : jdev; held : list (Z * hold); pins : list Z; foreign : list Z;
  arming : nat; peer_out : list Z }.
#[export] Instance eta_sys : Eta sys := fun s =>
  Sys (dev s) (held s) (pins s) (foreign s) (arming s) (peer_out s).

Definition sys_init (files : list jfile) (qpc0 : Z) : sys :=
  Sys (JDev ∅ RkMppJobQueueInit files 1 0 0 qpc0 []) [] [] [] 0 [].

Fixpoint remove1 {A} `{EqDecision A} (x : A) (l : list A) : list A :=
  match l with
  | [] => []
  | y :: l' => if decide (y = x) then l' else y :: remove1 x l'
  end.

(** The jobs a thread may still touch. *)
Definition users (S : sys) : list Z := (held S).*1 ++ pins S ++ foreign S.

Definition kicks (ps : list (Z * Z)) : list (Z * hold) := map (fun p => (p.1, HKick p.2)) ps.
Definition arm (b : bool) (n : nat) : nat := if b then Datatypes.S n else n.

Inductive label :=
  | L_submit (File : nat) (i : submit_in) (a_job : option Z)
  | L_kick (j core : Z)
  | L_signal (j : Z)
  | L_fail (j : Z) (st : NTSTATUS)
  | L_read (j : Z)
  | L_complete (res : NTSTATUS) (hw : Z)
  | L_enqueue
  | L_worker
  | L_isr (v : Z)
  | L_peer_complete (cookie : Z) (st : NTSTATUS) (hw : Z)
  | L_wait (File : nat) (JobId : Z)
  | L_wait_done (j : Z)
  | L_wait_timeout (j : Z)
  | L_splice (File : nat)
  | L_drain_pin (File : nat)
  | L_drain_after (File : nat) (j : Z) (timedOut : bool)
  | L_detach
  | L_attach (kick : peer_kick_params -> NTSTATUS)
  | L_tick (n : Z)
  | L_foreign_start (p : peer_kick_params) (j : Z)
  | L_foreign_finish (j : Z) (timedOut : bool).

Definition unhold (x : Z * hold) (S : sys) : sys := S <| held ::= remove1 x |>.
Definition with_dev (d : jdev) (S : sys) : sys := S <| dev := d |>.

(** The kick of a job on the peer: accepted, or rolled back under the lock with the
    failure still to be stored and signalled. *)
Definition exec_peer_kick (j core : Z) (S : sys) : option sys :=
  '(st, d) ← peer_dispatch j (dev S);
  if NT_SUCCESS st then
    x ← deref j (dev S); Some ((with_dev d S) <| peer_out ::= fun l => l ++ [Id x] |>)
  else
    d ← rollback_locked core j d;
    Some ((with_dev d S) <| held ::= fun l => l ++ [(j, HFail st)] |>).

(** One step; [None] is an access to freed memory or a corrupted list. *)
Definition exec (e : env) (l : label) (S : sys) : option sys :=
  match l with
  | L_submit File i a_job =>
      '(r, d) ← submit_locked File i a_job (dev S);
      match (r : NTSTATUS + Z * list (Z * Z)) with
      | inl _ => Some (with_dev d S)
      | inr (j, ps) => Some ((with_dev d S) <| held ::= fun l => l ++ kicks ps ++ [(j, HReadId)] |>)
      end
  | L_kick j core =>
      let S := unhold (j, HKick core) S in
      if core =? 0 then d ← JobKickLocalInner e j (dev S); Some (with_dev d S)
      else exec_peer_kick j core S
  | L_signal j => d ← signal j (dev S); Some (with_dev d (unhold (j, HSignal) S))
  | L_fail j st => d ← fail_signal j st (dev S); Some (with_dev d (unhold (j, HFail st) S))
  | L_read j => _ ← deref j (dev S); Some (unhold (j, HReadId) S)
  | L_complete res hw =>
      '(r, d) ← complete_locked res hw (dev S);
      match (r : option (Z * bool * bool * bool)) with
      | None => Some (with_dev d S)
      | Some (j, freeHere, wantKick, idleAfter) =>
          let d := if idleAfter then gate e d else d in
          d ← free_if freeHere j d;
          Some ((with_dev d S) <| arming ::= arm wantKick |>)
      end
  | L_enqueue => Some ((with_dev (RkMppEnqueueKickWorker (dev S)) S) <| arming ::= Nat.pred |>)
  | L_worker =>
      '(r, d) ← drain_once (dev S);
      match (r : option (list (Z * Z))) with
      | None => Some (with_dev d S)
      | Some ps => Some ((with_dev d S) <| held ::= fun l => l ++ kicks ps |>)
      end
  | L_isr v => Some (with_dev (RkMppEvtIsr e v (dev S)).2 S)
  | L_peer_complete cookie st hw =>
      '(r, d) ← peer_locked cookie st hw (dev S);
      let S := S <| peer_out ::= remove1 cookie |> in
      match (r : option (Z * bool)) with
      | None => Some (with_dev d S)
      | Some (j, wantKick) =>
          Some ((with_dev d S) <| held ::= fun l => l ++ [(j, HSignal)] |> <| arming ::= arm wantKick |>)
      end
  | L_wait File JobId =>
      '(r, d) ← wait_lookup File JobId (dev S);
      match (r : wait_found) with
      | W_NotFound => Some (with_dev d S)
      | W_Complete j => d ← free_job j d; Some (with_dev d S)
      | W_Pinned j => Some ((with_dev d S) <| pins ::= fun l => l ++ [j] |>)
      end
  | L_wait_done j =>
      '(_, reap, d) ← wait_done_locked j (dev S);
      d ← free_if reap j d; Some ((with_dev d S) <| pins ::= remove1 j |>)
  | L_wait_timeout j =>
      '(safe, d) ← wait_timeout_locked j (dev S);
      d ← free_if safe j d; Some ((with_dev d S) <| pins ::= remove1 j |>)
  | L_splice File =>
      '(l, d) ← drain_splice File (dev S); d ← free_all l d; Some (with_dev d S)
  | L_drain_pin File =>
      '(o, d) ← drain_pin File (dev S);
      Some ((with_dev d S) <| pins ::= fun l => l ++ option_list (o : option Z) |>)
  | L_drain_after File j timedOut =>
      '(l, d) ← drain_after File j timedOut (dev S);
      d ← free_all l d;
      let d := if timedOut then d <| NeedsFullReset := 1 |> else d in
      Some ((with_dev d S) <| pins ::= remove1 j |>)
  | L_detach => Some (with_dev (on_q detach_locked (dev S)) S)
  | L_attach kick => Some (with_dev (on_q (attach_locked kick) (dev S)) S)
  | L_tick n => Some (with_dev ((dev S) <| qpc ::= Z.add n |>) S)
  | L_foreign_start p j =>
      '(started, d) ← foreign_start p j (dev S);
      if (started : bool)
      then Some ((with_dev d S) <| held ::= fun l => l ++ [(j, HKick 0)] |> <| foreign ::= fun l => l ++ [j] |>)
      else Some (with_dev d S)
  | L_foreign_finish j timedOut =>
      '(_, _, d) ← foreign_finish j timedOut (dev S);
      Some ((with_dev d S) <| foreign ::= remove1 j |>)
  end.

(** The event of a job is set: what lets a wait return before its timeout.  A wait
    on a freed job returns as it pleases. *)
Definition event_set (d : jdev) (j : Z) : Prop := forall x, jobs d !! j = Some x -> Done x = true.

(** When a thread can take a step: it is at the step's program point, the pool
    hands out unused addresses, the submitted bank has the size of its type, the
    file has been initialised, ids have not run out, and the peer attaches with no
    job of an earlier attachment in flight. *)
Definition enabled (l : label) (S : sys) : Prop :=
  let d := dev S in
  match l with
  | L_submit File i a_job =>
      (exists c, jfiles d !! File = Some (JFile true c)) /\
      (forall j, a_job = Some j -> jobs d !! j = None) /\
      (length (Common (InBank i)) = 25 /\ length (CodecParams (InBank i)) = 49 /\
       length (CommonAddr (InBank i)) = 15 /\ length (CodecAddr (InBank i)) = 40 /\
       length (HighPoc (InBank i)) = 5 /\ length (Stat (InBank i)) = 22)%nat /\
      NextId (qu d) + 1 < 2 ^ 64
  | L_kick j core => (j, HKick core) ∈ held S
  | L_signal j => (j, HSignal) ∈ held S
  | L_fail j st => (j, HFail st) ∈ held S
  | L_read j => (j, HReadId) ∈ held S
  | L_enqueue => (0 < arming S)%nat
  | L_worker => KickActive (qu d) = true
  | L_peer_complete cookie _ _ => cookie ∈ peer_out S
  | L_wait_done j => j ∈ pins S /\ event_set d j
  | L_wait_timeout j => j ∈ pins S
  | L_drain_after _ j timedOut => j ∈ pins S /\ (timedOut = false -> event_set d j)
  | L_attach _ => InFlightPerCore (qu d) !! 1%nat = Some None
  | L_tick n => 0 <= n
  | L_foreign_start p j =>
      jobs d !! j = None /\
      (length (Common (Bank p)) = 25 /\ length (CodecParams (Bank p)) = 49 /\
       length (CommonAddr (Bank p)) = 15 /\ length (CodecAddr (Bank p)) = 40 /\
       length (HighPoc (Bank p)) = 5 /\ length (Stat (Bank p)) = 22)%nat /\
      NextId (qu d) + 1 < 2 ^ 64
  | L_foreign_finish j timedOut => j ∈ foreign S /\ (timedOut = false -> event_set d j)
  | _ => True
  end.

(** No step frees a job another thread may still touch. *)
Definition undisturbed (S S' : sys) : Prop :=
  forall j, is_Some (jobs (dev S) !! j) -> jobs (dev S') !! j = None -> j ∉ users S'.

(** Executions: any interleaving, and those that keep to the discipline. *)
Inductive runs (e : env) : sys -> sys -> Prop :=
  | runs_refl S : runs e S S
  | runs_step S S' S'' l : runs e S S' -> enabled l S' -> exec e l S' = Some S'' -> runs e S S''.

Inductive disciplined (e : env) : sys -> sys -> Prop :=
  | disc_refl S : disciplined e S S
  | disc_step S S' S'' l :
      disciplined e S S' -> enabled l S' -> exec e l S' = Some S'' -> undisturbed S' S'' ->
      disciplined e S S''.

(** * Facts about the job queue under concurrency

    The invariant of the step relation of [JobSys], and how the few kinds of
    change a step makes to the pool, the queue and the ghost fields carry it. *)

(** How often a job is pinned. *)
Definition npins (j : Z) (l : list Z) : Z := Z.of_nat (length (filter (fun k => k = j) l)).

Record ghost := Ghost { g_held : list (Z * hold); g_pins : list Z; g_foreign : list Z; g_out : list Z }.
Definition g_users (g : ghost) : list Z := (g_held g).*1 ++ g_pins g ++ g_foreign g.

Record inv (h : gmap Z jsig) (q : queue) (g : ghost) : Prop := Inv {
  iv_queue : queue_ok h q;
  iv_live j : j ∈ g_users g -> is_Some (h !! j);
  iv_pin j y : h !! j = Some y -> s_pin y = npins j (g_pins g);
  iv_done j y : h !! j = Some y -> s_done y = true -> j ∈ Completed q;
  iv_signal j : (j, HSignal) ∈ g_held g -> j ∈ Completed q;
  iv_fail j st : (j, HFail st) ∈ g_held g -> j ∈ Completed q;
  iv_kick j c : (j, HKick c) ∈ g_held g -> c = 0 \/ (c = 1 /\ InFlightPerCore q !! 1%nat = Some (Some j));
  iv_kick1 : NoDup (filter (fun x => x.2 = HKick 1) (g_held g));
  iv_out j y : InFlightPerCore q !! 1%nat = Some (Some j) -> h !! j = Some y -> s_id y ∈ g_out g ->
    (j, HKick 1) ∉ g_held g;
  iv_out_pending j y : j ∈ Pending q -> h !! j = Some y -> s_id y ∉ g_out g;
  iv_out_le k : k ∈ g_out g -> k <= NextId q;
}.

(** No wakeup is lost: with a pending job and the local core idle, a completion is
    about to wake the worker or the worker has been told to look again. *)
Record wake (q : queue) (arming : nat) : Prop := Wake {
  wk_idle : Pending q <> [] -> InFlightPerCore q !! 0%nat = Some None ->
    KickRearm q = true \/ (0 < arming)%nat;
  wk_active : KickRearm q = true -> KickActive q = true;
}.

(** ** Ghost lists *)
Lemma remove1_elem {A} `{EqDecision A} (x y : A) l : y ∈ remove1 x l -> y ∈ l.
Proof.
  induction l as [|z l IH]; simpl; [done|]. destruct (decide (z = x)); [by right|].
  intros [->|H]%elem_of_cons; [by left|right; auto].
Qed.
Lemma remove1_perm {A} `{EqDecision A} (x : A) l : x ∈ l -> l ≡ₚ x :: remove1 x l.
Proof.
  induction l as [|z l IH]; [by intros ?%elem_of_nil|]. simpl. destruct (decide (z = x)) as [->|Hne]; [done|].
  intros [->|H]%elem_of_cons; [done|]. rewrite (IH H) at 1. apply perm_swap.
Qed.

Lemma remove1_sublist {A} `{EqDecision A} (x : A) l : remove1 x l `sublist_of` l.
Proof.
  induction l as [|y l IH]; simpl; [done|]. destruct (decide (y = x)); [by apply sublist_cons|].
  by apply sublist_skip.
Qed.
Lemma filter_sublist' {A} (P : A -> Prop) `{forall x, Decision (P x)} l1 l2 :
  l1 `sublist_of` l2 -> filter P l1 `sublist_of` filter P l2.
Proof.
  intros Hs. induction Hs as [|x l1 l2 _ IH|x l1 l2 _ IH]; [done| |]; destruct (decide (P x)).
  - rewrite !filter_cons_True by done. by apply sublist_skip.
  - by rewrite !filter_cons_False by done.
  - rewrite (filter_cons_True _ x l2) by done. by apply sublist_cons.
  - by rewrite (filter_cons_False _ x l2) by done.
Qed.

Lemma npins_app j l1 l2 : npins j (l1 ++ l2) = npins j l1 + npins j l2.
Proof. unfold npins. rewrite filter_app, length_app. lia. Qed.
Lemma npins_one j k : npins j [k] = if decide (k = j) then 1 else 0.
Proof.
  unfold npins. destruct (decide (k = j)).
  - by rewrite filter_cons_True.
  - by rewrite filter_cons_False.
Qed.
Lemma npins_remove1 j k l :
  k ∈ l -> npins j (remove1 k l) = (npins j l - (if decide (k = j) then 1 else 0)).
Proof.
  intros H. assert (E : npins j l = npins j (k :: remove1 k l)).
  { unfold npins. f_equal. apply Permutation_length, filter_Permutation, remove1_perm, H. }
  rewrite E. change (k :: remove1 k l) with ([k] ++ remove1 k l). rewrite npins_app, npins_one. lia.
Qed.
Lemma npins_0 j l : j ∉ l -> npins j l = 0.
Proof.
  intros H. unfold npins. induction l as [|k l IH]; [done|].
  apply not_elem_of_cons in H as [Hne H]. rewrite filter_cons_False by done. auto.
Qed.
Lemma npins_elem j l : 0 < npins j l -> j ∈ l.
Proof.
  intros H. destruct (decide (j ∈ l)); [done|]. rewrite npins_0 in H by done. lia.
Qed.

Lemma slot_not_completed h q c j :
  queue_ok h q -> InFlightPerCore q !! c = Some (Some j) -> (j ∉ Completed q) /\ (j ∉ Pending q).
Proof.
  intros Hok Hc. pose proof (qo_nodup _ _ Hok) as Hnd. unfold q_all in Hnd.
  apply NoDup_app in Hnd as (_ & Hd & Hnd). apply NoDup_app in Hnd as (_ & Hd2 & _).
  assert (Hi : j ∈ omap id (InFlightPerCore q)) by (apply elem_of_inflight; eauto). split.
  - intros Hj. by apply (Hd2 j).
  - intros Hj. apply (Hd j Hj). apply elem_of_app. by right.
Qed.

(** ** The view of the queue *)
Lemma inv_view h q q' g : qview q' = qview q -> inv h q g -> inv h q' g.
Proof.
  intros E [H1 H2 H3 H4 H5 H6 H7 H8 H9 H10 H11].
  assert (EC : Completed q' = Completed q) by (unfold qview in E; congruence).
  assert (EP : Pending q' = Pending q) by (unfold qview in E; congruence).
  assert (EI : InFlightPerCore q' = InFlightPerCore q) by (unfold qview in E; congruence).
  assert (EN : NextId q' = NextId q) by (unfold qview in E; congruence).
  split; rewrite ?EC, ?EP, ?EI, ?EN; try done. by eapply queue_ok_view.
Qed.

Lemma wake_view q q' n : qview q' = qview q -> wake q n -> wake q' n.
Proof.
  intros E [H1 H2].
  assert (EP : Pending q' = Pending q) by (unfold qview in E; congruence).
  assert (EI : InFlightPerCore q' = InFlightPerCore q) by (unfold qview in E; congruence).
  assert (ER : KickRearm q' = KickRearm q) by (unfold qview in E; congruence).
  assert (EA : KickActive q' = KickActive q) by (unfold qview in E; congruence).
  split; rewrite ?EP, ?EI, ?ER, ?EA; done.
Qed.

(** Only the flags of the worker change. *)
Lemma inv_flags h q q' g :
  Completed q' = Completed q -> Pending q' = Pending q -> InFlightPerCore q' = InFlightPerCore q ->
  NextId q' = NextId q -> queue_ok h q' -> inv h q g -> inv h q' g.
Proof.
  intros EC EP EI EN Hok [H1 H2 H3 H4 H5 H6 H7 H8 H9 H10 H11].
  split; rewrite ?EC, ?EP, ?EI, ?EN; done.
Qed.

Lemma queue_ok_armed h q : queue_ok h q -> queue_ok h (armed q).
Proof.
  intros Hq. eapply queue_ok_perm; [exact Hq| |done|done|apply (qo_lru _ _ Hq)|apply (qo_target _ _ Hq)].
  eapply core_ok_ext; [..|apply (qo_core _ _ Hq)]; done.
Qed.

Lemma inv_armed h q g : inv h q g -> inv h (armed q) g.
Proof. intros H. eapply inv_flags; [..|apply queue_ok_armed, H|exact H]; done. Qed.

(** ** A job's record changes *)
Lemma inv_upd h q g g' j x y :
  inv h q g -> h !! j = Some x ->
  s_id y = s_id x -> s_bank y = s_bank x -> s_target y = s_target x ->
  g_held g' = g_held g -> g_out g' = g_out g -> (forall k, k ∈ g_users g' -> k ∈ g_users g \/ k = j) ->
  s_pin y = npins j (g_pins g') -> (forall k, k <> j -> npins k (g_pins g') = npins k (g_pins g)) ->
  (s_done y = true -> j ∈ Completed q) ->
  inv (<[j := y]> h) q g'.
Proof.
  intros [H1 H2 H3 H4 H5 H6 H7 H8 H9 H10 H11] Hj Ei Eb Et Eh Eo Hu Hp Hn Hd.
  assert (Hins : forall k z, <[j:=y]> h !! k = Some z -> (k = j /\ z = y) \/ (k <> j /\ h !! k = Some z)).
  { intros k z Hz. destruct (decide (k = j)) as [->|].
    - rewrite lookup_insert_eq in Hz. injection Hz as <-. by left.
    - rewrite lookup_insert_ne in Hz by done. by right. }
  split; rewrite ?Eh, ?Eo; try done.
  - eapply queue_ok_upd; eauto.
  - intros k Hk. destruct (decide (k = j)) as [->|]; [rewrite lookup_insert_eq; eauto|].
    rewrite lookup_insert_ne by done. destruct (Hu k Hk); [auto|done].
  - intros k z Hz. destruct (Hins _ _ Hz) as [[-> ->]|[Hne Hz']]; [done|]. rewrite Hn by done. eauto.
  - intros k z Hz Hdz. destruct (Hins _ _ Hz) as [[-> ->]|[Hne Hz']]; eauto.
  - intros k z Hs Hz Ho. destruct (Hins _ _ Hz) as [[-> ->]|[Hne Hz']]; [|eauto].
    eapply H9; [done|exact Hj|]. by rewrite <- Ei.
  - intros k z Hs Hz. destruct (Hins _ _ Hz) as [[-> ->]|[Hne Hz']]; [|eauto].
    rewrite Ei. eauto.
Qed.

(** ** The thread lets go of a job *)
Lemma inv_unhold h q g x :
  inv h q g -> inv h q (Ghost (remove1 x (g_held g)) (g_pins g) (g_foreign g) (g_out g)).
Proof.
  intros [H1 H2 H3 H4 H5 H6 H7 H8 H9 H10 H11]. split; simpl; try done.
  - intros j Hj. apply H2. unfold g_users in *. simpl in Hj. rewrite !elem_of_app in *.
    destruct Hj as [Hj|Hj]; [left|by right]. apply list_elem_of_fmap in Hj as (y & -> & Hy).
    apply list_elem_of_fmap. exists y. split; [done|]. by eapply remove1_elem.
  - intros j Hj. eapply H5, remove1_elem, Hj.
  - intros j st Hj. eapply H6, remove1_elem, Hj.
  - intros j c Hj. eapply H7, remove1_elem, Hj.
  - eapply (sublist_NoDup _ _ H8). apply filter_sublist', remove1_sublist.
  - intros j y Hs Hy Ho Hc. eapply (H9 j y); try done. by eapply remove1_elem.
Qed.

(** ** The thread takes hold of a job *)
Lemma inv_hold h q g j k :
  inv h q g -> is_Some (h !! j) -> (k = HSignal \/ (exists st, k = HFail st) -> j ∈ Completed q) ->
  (forall c, k = HKick c -> c = 0) ->
  inv h q (Ghost (g_held g ++ [(j, k)]) (g_pins g) (g_foreign g) (g_out g)).
Proof.
  intros [H1 H2 H3 H4 H5 H6 H7 H8 H9 H10 H11] Hl Hc Hk.
  assert (Hin : forall x, x ∈ g_held g ++ [(j, k)] -> x ∈ g_held g \/ x = (j, k)).
  { intros x [?| ->%list_elem_of_singleton]%elem_of_app; auto. }
  split; simpl; try done.
  - intros i Hi. unfold g_users in *. simpl in Hi. rewrite fmap_app, !elem_of_app in Hi. simpl in Hi.
    destruct Hi as [[Hi| ->%list_elem_of_singleton]|Hi]; [|done|]; apply H2; unfold g_users;
      rewrite elem_of_app; [by left|right]. by apply elem_of_app.
  - intros i Hi. destruct (Hin _ Hi) as [?|E]; [eauto|]. injection E as -> <-. auto.
  - intros i st Hi. destruct (Hin _ Hi) as [?|E]; [eauto|]. injection E as -> <-. eauto.
  - intros i c Hi. destruct (Hin _ Hi) as [?|E]; [eauto|]. injection E as -> <-. left. by apply Hk.
  - rewrite filter_app. destruct (decide (k = HKick 1)) as [->|Hne]; [by specialize (Hk 1 eq_refl)|].
    rewrite filter_cons_False by done. by rewrite app_nil_r.
  - intros i y Hs Hy Ho Hi. destruct (Hin _ Hi) as [?|E]; [by eapply (H9 i y)|]. injection E as -> E.
    by specialize (Hk 1 (eq_sym E)).
Qed.

(** ** Jobs leave the pool *)
Definition delete_all (l : list Z) (h : gmap Z jsig) : gmap Z jsig := foldr delete h l.

Lemma lookup_delete_all l h j :
  delete_all l h !! j = if decide (j ∈ l) then None else h !! j.
Proof.
  induction l as [|k l IH]; simpl.
  - by destruct (decide (j ∈ [])) as [H%elem_of_nil|].
  - destruct (decide (j = k)) as [->|Hne].
    + rewrite lookup_delete_eq, decide_True by (by left). done.
    + rewrite lookup_delete_ne by done. rewrite IH. destruct (decide (j ∈ l)).
      * rewrite decide_True by (by right). done.
      * rewrite decide_False; [done|]. by intros [->|?]%elem_of_cons.
Qed.

Lemma inv_remove h q q' g l :
  inv h q g -> queue_ok (delete_all l h) q' -> (forall j, j ∈ l -> j ∉ g_users g) ->
  Pending q' ⊆ Pending q -> (forall j, j ∈ Completed q -> j ∈ Completed q' \/ j ∈ l) ->
  InFlightPerCore q' !! 1%nat = InFlightPerCore q !! 1%nat -> NextId q' = NextId q ->
  inv (delete_all l h) q' g.
Proof.
  intros [H1 H2 H3 H4 H5 H6 H7 H8 H9 H10 H11] Hok Hl HP HC HS HN.
  assert (Hd : forall j y, delete_all l h !! j = Some y -> h !! j = Some y /\ (j ∉ l)).
  { intros j y. rewrite lookup_delete_all. by destruct (decide (j ∈ l)). }
  assert (Hh : forall x, x ∈ g_held g -> x.1 ∉ l).
  { intros x Hx Hc. apply (Hl x.1 Hc). unfold g_users. apply elem_of_app. left.
    apply list_elem_of_fmap. eauto. }
  split; rewrite ?HS, ?HN; try done.
  - intros j Hj. rewrite lookup_delete_all, decide_False; [auto|]. intros Hc. by apply (Hl j).
  - intros j y [Hy _]%Hd. auto.
  - intros j y [Hy Hn]%Hd Hdn. destruct (HC j); [by eapply H4|done|done].
  - intros j Hj. destruct (HC j); [by apply H5|done|]. by apply Hh in Hj.
  - intros j st Hj. destruct (HC j); [by eapply H6|done|]. by apply Hh in Hj.
  - intros j y Hs [Hy _]%Hd. eauto.
  - intros j y Hj [Hy _]%Hd. eauto.
Qed.

(** ** A job leaves its slot for the completed list *)
Lemma inv_finish h q q' g j x y :
  inv h q g -> queue_ok (<[j := y]> h) q' -> h !! j = Some x -> s_id y = s_id x -> s_pin y = s_pin x ->
  Pending q' = Pending q -> Completed q' = Completed q ++ [j] -> NextId q' = NextId q ->
  (InFlightPerCore q' !! 1%nat = InFlightPerCore q !! 1%nat \/
   (InFlightPerCore q' !! 1%nat = Some None /\ InFlightPerCore q !! 1%nat = Some (Some j) /\
    (j, HKick 1) ∉ g_held g)) ->
  inv (<[j := y]> h) q' g.
Proof.
  intros [H1 H2 H3 H4 H5 H6 H7 H8 H9 H10 H11] Hok Hj Ei Ep EP EC EN HS.
  assert (Hins : forall k z, <[j:=y]> h !! k = Some z -> (k = j /\ z = y) \/ (k <> j /\ h !! k = Some z)).
  { intros k z Hz. destruct (decide (k = j)) as [->|].
    - rewrite lookup_insert_eq in Hz. injection Hz as <-. by left.
    - rewrite lookup_insert_ne in Hz by done. by right. }
  assert (Hc : forall k, k ∈ Completed q \/ k = j -> k ∈ Completed q').
  { intros k Hk. rewrite EC, elem_of_app, list_elem_of_singleton. done. }
  split; rewrite ?EN; try done.
  - intros k Hk. destruct (decide (k = j)) as [->|]; [rewrite lookup_insert_eq; eauto|].
    rewrite lookup_insert_ne by done. auto.
  - intros k z Hz. destruct (Hins _ _ Hz) as [[-> ->]|[_ Hz']]; [rewrite Ep|]; eauto.
  - intros k z Hz Hd. apply Hc. destruct (Hins _ _ Hz) as [[-> ->]|[_ Hz']]; eauto.
  - intros k Hk. auto.
  - intros k st Hk. eauto.
  - intros k c Hk. destruct (H7 k c Hk) as [->|[-> Hs]]; [by left|right]. split; [done|].
    destruct HS as [->|(_ & HS & Hn)]; [done|]. rewrite HS in Hs. by injection Hs as ->.
  - intros k z Hs Hz Ho. destruct HS as [E|(E & _ & _)]; rewrite E in Hs; [|done].
    destruct (Hins _ _ Hz) as [[-> ->]|[_ Hz']]; [|eauto]. rewrite Ei in Ho. eauto.
  - intros k z Hk Hz. rewrite EP in Hk. destruct (Hins _ _ Hz) as [[-> ->]|[_ Hz']]; [rewrite Ei|]; eauto.
Qed.

(** ** A fresh job *)
Lemma inv_add h q q' g j y :
  inv h q g -> queue_ok (<[j := y]> h) q' -> h !! j = None -> s_pin y = 0 -> s_done y = false ->
  s_id y = NextId q + 1 -> NextId q' = NextId q + 1 ->
  (forall k, k ∈ Pending q' -> k ∈ Pending q \/ k = j) -> Completed q' = Completed q ->
  InFlightPerCore q' !! 1%nat = InFlightPerCore q !! 1%nat ->
  inv (<[j := y]> h) q' g.
Proof.
  intros [H1 H2 H3 H4 H5 H6 H7 H8 H9 H10 H11] Hok Hj Ep Ed Ei EN HP EC HS.
  assert (Hins : forall k z, <[j:=y]> h !! k = Some z -> (k = j /\ z = y) \/ (k <> j /\ h !! k = Some z)).
  { intros k z Hz. destruct (decide (k = j)) as [->|].
    - rewrite lookup_insert_eq in Hz. injection Hz as <-. by left.
    - rewrite lookup_insert_ne in Hz by done. by right. }
  assert (Hu : j ∉ g_users g) by (intros Hc; destruct (H2 j Hc); congruence).
  split; rewrite ?EC, ?HS; try done.
  - intros k Hk. destruct (decide (k = j)) as [->|]; [done|]. rewrite lookup_insert_ne by done. auto.
  - intros k z Hz. destruct (Hins _ _ Hz) as [[-> ->]|[_ Hz']]; [|eauto]. rewrite npins_0; [done|].
    intros Hc. apply Hu. unfold g_users. rewrite !elem_of_app. auto.
  - intros k z Hz Hd. destruct (Hins _ _ Hz) as [[-> ->]|[_ Hz']]; [congruence|eauto].
  - intros k z Hs Hz. destruct (Hins _ _ Hz) as [[-> ->]|[_ Hz']]; [|eauto].
    exfalso. destruct (inflight_live _ _ _ _ H1 Hs). congruence.
  - intros k z Hk Hz. destruct (Hins _ _ Hz) as [[-> ->]|[Hne Hz']].
    + rewrite Ei. intros Ho%H11. lia.
    + destruct (HP k Hk) as [?|?]; [eauto|done].
  - intros k Hk. specialize (H11 k Hk). lia.
Qed.

(** ** Promotions *)
Lemma kicks_elem ps j k : (j, k) ∈ kicks ps <-> exists c, k = HKick c /\ (j, c) ∈ ps.
Proof.
  unfold kicks. rewrite list_elem_of_fmap. split.
  - intros ([i c] & E & H). simpl in E. injection E as -> ->. eauto.
  - intros (c & -> & H). by exists (j, c).
Qed.
Lemma kicks_fst ps : (kicks ps).*1 = ps.*1.
Proof. unfold kicks. rewrite <- list_fmap_compose. done. Qed.

Lemma retargeted_sigs d d' k y :
  retargeted (jobs d) (jobs d') -> sigs d' !! k = Some y ->
  exists x, sigs d !! k = Some x /\ s_id y = s_id x /\ s_pin y = s_pin x /\ s_done y = s_done x /\
    s_owner y = s_owner x.
Proof.
  intros Hr Hy. destruct (sigs_lookup _ _ _ Hy) as (y0 & Hy0 & ->).
  destruct (retargeted_inv _ _ _ _ Hr Hy0) as (x0 & Hx0 & E). exists (sig x0).
  split; [by apply lookup_sigs|]. rewrite E. done.
Qed.
Lemma retargeted_live d d' k :
  retargeted (jobs d) (jobs d') -> is_Some (sigs d !! k) <-> is_Some (sigs d' !! k).
Proof.
  intros Hr. specialize (Hr k). unfold sigs. rewrite !lookup_fmap.
  destruct (jobs d !! k), (jobs d' !! k); simpl in Hr; try done; split; intros [? ?]; done.
Qed.

Lemma inv_promote d d' ps g :
  inv (sigs d) (qu d) g -> promoted d ps d' ->
  inv (sigs d') (qu d') (Ghost (g_held g ++ kicks ps) (g_pins g) (g_foreign g) (g_out g)).
Proof.
  intros Hinv [P1 P2 P3 P4 P5 P6 P7 P8 P9]. destruct Hinv as [H1 H2 H3 H4 H5 H6 H7 H8 H9 H10 H11].
  assert (EC : Completed (qu d') = Completed (qu d)) by (unfold pframe in P3; congruence).
  assert (EN : NextId (qu d') = NextId (qu d)) by (unfold pframe in P3; congruence).
  assert (Hnew : forall j k, (j, k) ∈ kicks ps -> exists c, k = HKick c /\ j ∈ Pending (qu d) /\
            (c = 0 \/ (c = 1 /\ InFlightPerCore (qu d') !! 1%nat = Some (Some j)))).
  { intros j k (c & -> & Hc)%kicks_elem. destruct (P8 _ _ Hc) as (Hr & Hp & Hs). exists c. split; [done|].
    split; [done|]. destruct (co_count (qo_core _ _ H1)) as [E|E]; rewrite E in Hr.
    - left. lia.
    - destruct (decide (c = 0)); [by left|right]. assert (c = 1) as -> by lia. done. }
  assert (Hin : forall x, x ∈ g_held g ++ kicks ps -> x ∈ g_held g \/ x ∈ kicks ps).
  { intros x. rewrite elem_of_app. done. }
  assert (Hexcl : forall i j, InFlightPerCore (qu d) !! 1%nat = Some (Some i) -> (j, HKick 1) ∈ kicks ps -> False).
  { intros i j Hs Hj. destruct (Hnew _ _ Hj) as (c & [= <-] & Hp & [?|[_ Hs']]); [done|].
    rewrite (P6 _ _ Hs) in Hs'. injection Hs' as ->. by apply (slot_not_completed _ _ _ _ H1 Hs). }
  split; simpl; rewrite ?EC, ?EN; try done.
  - intros j Hj. apply (proj1 (retargeted_live d d' j P4)). unfold g_users in Hj. simpl in Hj.
    rewrite fmap_app, kicks_fst, !elem_of_app in Hj. destruct Hj as [[Hj|Hj]|Hj].
    + apply H2. unfold g_users. rewrite elem_of_app. by left.
    + apply list_elem_of_fmap in Hj as ([i c] & -> & Hi). destruct (P8 _ _ Hi) as (_ & Hp & _).
      by apply pending_live.
    + apply H2. unfold g_users. rewrite !elem_of_app. by right.
  - intros j y Hy. destruct (retargeted_sigs _ _ _ _ P4 Hy) as (x & Hx & _ & -> & _). eauto.
  - intros j y Hy Hd. destruct (retargeted_sigs _ _ _ _ P4 Hy) as (x & Hx & _ & _ & E & _).
    eapply H4; [exact Hx|congruence].
  - intros j [Hj|Hj]%Hin; [auto|]. by destruct (Hnew _ _ Hj) as (c & ? & _).
  - intros j st [Hj|Hj]%Hin; [eauto|]. by destruct (Hnew _ _ Hj) as (c & ? & _).
  - intros j c [Hj|Hj]%Hin.
    + destruct (H7 j c Hj) as [->|[-> Hs]]; [by left|right]. auto.
    + destruct (Hnew _ _ Hj) as (c' & [= <-] & _ & H). exact H.
  - rewrite filter_app. apply NoDup_app. split; [done|]. split.
    + intros [j k] [E Hj]%list_elem_of_filter [_ Hk]%list_elem_of_filter. simpl in E. subst k.
      destruct (H7 j 1 Hj) as [?|[_ Hs]]; [done|]. by eapply Hexcl.
    + eapply sublist_NoDup; [|apply sublist_filter]. apply (NoDup_fmap_1 fst). by rewrite kicks_fst.
  - intros j y Hs Hy Ho [Hj|Hj]%Hin; destruct (retargeted_sigs _ _ _ _ P4 Hy) as (x & Hx & Ei & _);
      rewrite Ei in Ho.
    + destruct (H7 j 1 Hj) as [?|[_ Hs']]; [done|]. by eapply (H9 j x).
    + destruct (Hnew _ _ Hj) as (c & [= <-] & Hp & _). by eapply (H10 j x).
  - intros j y Hj Hy. destruct (retargeted_sigs _ _ _ _ P4 Hy) as (x & Hx & -> & _). eauto.
Qed.

(** ** Wake-ups *)
Lemma wake_promoted q n :
  core_ok q -> (Pending q = [] \/ all_busy q) -> (KickRearm q = true -> KickActive q = true) -> wake q n.
Proof.
  intros Hc Hstop Ha. split; [|done]. intros Hp Hi. exfalso. destruct Hstop as [?|Hb]; [done|].
  eapply (Hb 0%nat); [|exact Hi|done]. destruct (co_count Hc) as [-> | ->]; lia.
Qed.

Lemma wake_mono q q' n n' :
  (Pending q' <> [] -> Pending q <> []) ->
  (InFlightPerCore q' !! 0%nat = Some None -> InFlightPerCore q !! 0%nat = Some None) ->
  KickRearm q' = KickRearm q -> KickActive q' = KickActive q -> (n <= n')%nat -> wake q n -> wake q' n'.
Proof.
  intros HP HS ER EA Hn [H1 H2]. split; rewrite ?ER, ?EA; [|done]. intros Hp Hi.
  destruct (H1 (HP Hp) (HS Hi)); [by left|right; lia].
Qed.
