(* ===== verification/JobSysSteps.v ===== *)
(** * Every step of the job queue keeps the invariant

    One lemma per label of [JobSys]: an enabled step does not fault, and when it
    frees no job another thread still uses, the invariant of [JobSys] holds
    after it. *)

From S2P Require Import Prelude Mmio IommuMap BufPool JobQueue JobKick JobSys.
From S2P Require Import JobQueueFacts JobPromoteFacts JobSubmitFacts JobKickFacts JobWaitFacts JobSys.

Definition g_of (S : sys) : ghost := Ghost (held S) (pins S) (foreign S) (peer_out S).
Definition sinv (S : sys) : Prop :=
  inv (sigs (dev S)) (qu (dev S)) (g_of S) /\ wake (qu (dev S)) (arming S).
Definition step_ok (e : env) (l : label) (S : sys) : Prop :=
  exists S', exec e l S = Some S' /\ (undisturbed S S' -> sinv S').

(** ** More ways the invariant is carried *)
Lemma inv_next h q q' g :
  Completed q' = Completed q -> Pending q' = Pending q -> InFlightPerCore q' = InFlightPerCore q ->
  NextId q <= NextId q' -> queue_ok h q' -> inv h q g -> inv h q' g.
Proof.
  intros EC EP EI EN Hok [H1 H2 H3 H4 H5 H6 H7 H8 H9 H10 H11].
  split; rewrite ?EC, ?EP, ?EI; try done. intros k Hk. specialize (H11 k Hk). lia.
Qed.

Lemma inv_cores h q q' g :
  Completed q' = Completed q -> Pending q' = Pending q -> InFlightPerCore q' = InFlightPerCore q ->
  NextId q' = NextId q -> OwnerLru q' = OwnerLru q -> core_ok q' -> inv h q g -> inv h q' g.
Proof.
  intros EC EP EI EN EL Hc Hi. eapply inv_flags; [..|exact Hi]; try done.
  eapply queue_ok_perm; [apply Hi|done| |done| |].
  - unfold q_all. by rewrite EC, EP, EI.
  - unfold lru_ok. rewrite EL, EN. apply Hi.
  - rewrite EI. apply (qo_target _ _ (iv_queue _ _ _ Hi)).
Qed.

Lemma inv_unorphaned h h' q g :
  (forall k, unorphaned <$> h' !! k = unorphaned <$> h !! k) -> inv h q g -> inv h' q g.
Proof.
  intros Hs [H1 H2 H3 H4 H5 H6 H7 H8 H9 H10 H11].
  assert (Hinv : forall k y, h' !! k = Some y -> exists x, h !! k = Some x /\ unorphaned y = unorphaned x).
  { intros k y Hy. specialize (Hs k). rewrite Hy in Hs. destruct (h !! k) as [x|]; [|done].
    exists x. split; [done|]. exact (inj Some _ _ Hs). }
  assert (Hf : forall A (f : jsig -> A) x y, unorphaned y = unorphaned x -> f (unorphaned y) = f (unorphaned x))
    by (intros; by f_equal).
  split; try done.
  - by eapply queue_ok_unorphaned.
  - intros j Hj. specialize (Hs j). destruct (H2 j Hj) as [x Hx]. rewrite Hx in Hs.
    destruct (h' !! j); [eauto|done].
  - intros j y Hy. destruct (Hinv _ _ Hy) as (x & Hx & E). rewrite <- (H3 _ _ Hx). exact (Hf _ s_pin _ _ E).
  - intros j y Hy Hd. destruct (Hinv _ _ Hy) as (x & Hx & E). apply (H4 _ _ Hx).
    rewrite <- Hd. symmetry. exact (Hf _ s_done _ _ E).
  - intros j y Hj Hy Ho. destruct (Hinv _ _ Hy) as (x & Hx & E). apply (H9 j x); try done.
    by rewrite <- (Hf _ s_id _ _ E : s_id y = s_id x).
  - intros j y Hj Hy. destruct (Hinv _ _ Hy) as (x & Hx & E).
    rewrite (Hf _ s_id _ _ E : s_id y = s_id x). eauto.
Qed.

Lemma inv_quiet d d' g : quiet d d' -> inv (sigs d) (qu d) g -> inv (sigs d') (qu d') g.
Proof. intros [-> Hq]. by apply inv_view. Qed.
Lemma wake_quiet d d' n : quiet d d' -> wake (qu d) n -> wake (qu d') n.
Proof. intros [_ Hq]. by apply wake_view. Qed.

Lemma inv_pin_live d g j x : inv (sigs d) (qu d) g -> jobs d !! j = Some x -> WaiterPin x = npins j (g_pins g).
Proof. intros Hi Hx. exact (iv_pin _ _ _ Hi j _ (lookup_sigs _ _ _ Hx)). Qed.
Lemma inv_user_live d g j : inv (sigs d) (qu d) g -> j ∈ g_users g -> exists x, jobs d !! j = Some x.
Proof. intros Hi Hj. apply live_job. by apply (iv_live _ _ _ Hi). Qed.
Lemma held_user g j k : (j, k) ∈ g_held g -> j ∈ g_users g.
Proof. intros H. unfold g_users. rewrite elem_of_app. left. apply list_elem_of_fmap. by exists (j, k). Qed.
Lemma event_done d g j x :
  inv (sigs d) (qu d) g -> jobs d !! j = Some x -> event_set d j -> j ∈ Completed (qu d).
Proof. intros Hi Hx He. exact (iv_done _ _ _ Hi j _ (lookup_sigs _ _ _ Hx) (He x Hx)). Qed.

(** ** Completion of the job on the local core *)
Lemma inv_local_done d j x res hw now g :
  inv (sigs d) (qu d) g -> InFlightPerCore (qu d) !! 0%nat = Some (Some j) -> jobs d !! j = Some x ->
  (frees_here x = true -> j ∉ g_users g) ->
  let q' := release 0 (if frees_here x then qu d else to_completed j (qu d)) in
  inv (if frees_here x then delete j (sigs d) else <[j := sig (finished res hw now x)]> (sigs d)) q' g.
Proof.
  intros Hi H0 Hx Hu. cbv zeta. pose proof (iv_queue _ _ _ Hi) as Hok. destruct (frees_here x) eqn:Ef.
  - change (delete j (sigs d)) with (delete_all [j] (sigs d)).
    eapply inv_remove; [exact Hi|..].
    + change 0 with (Z.of_nat 0). simpl delete_all. by apply queue_ok_release_free.
    + intros k ->%list_elem_of_singleton. auto.
    + done.
    + by left.
    + change 0 with (Z.of_nat 0). rewrite release_inflight. by apply list_lookup_insert_ne.
    + done.
  - eapply inv_finish; [exact Hi| |exact (lookup_sigs _ _ _ Hx)|done..|].
    + change 0 with (Z.of_nat 0).
      exact (proj1 (queue_ok_release_completed _ _ _ _ _ (sig (finished res hw now x)) Hok H0
                     (lookup_sigs _ _ _ Hx) eq_refl eq_refl eq_refl)).
    + left. change 0 with (Z.of_nat 0). rewrite release_inflight. simpl. by apply list_lookup_insert_ne.
Qed.

Lemma wake_armed q n : wake (armed q) n.
Proof. split; [by left|done]. Qed.

Lemma wake_local_done q (f : bool) j n :
  wake q n -> wake (release 0 (if f then q else to_completed j q)) (arm (wants_kick q) n).
Proof.
  intros [W1 W2]. split.
  - intros Hp _. right. assert (wants_kick q = true) as ->; [|simpl; lia].
    unfold wants_kick. destruct f; simpl in Hp; destruct (Pending q); done.
  - destruct f; exact W2.
Qed.

Lemma completes_sigs e res hw d j x d' :
  completes e res hw d j x d' ->
  sigs d' = if frees_here x then delete j (sigs d) else <[j := sig (finished res hw (qpc d) x)]> (sigs d).
Proof.
  intros Hc. unfold sigs. rewrite (cp_jobs _ _ _ _ _ _ _ Hc).
  destruct (frees_here x); [apply fmap_delete|apply fmap_insert].
Qed.

Lemma inv_completes e res hw d j x d' g n :
  inv (sigs d) (qu d) g -> wake (qu d) n -> completes e res hw d j x d' ->
  (frees_here x = true -> j ∉ g_users g) ->
  inv (sigs d') (qu d') g /\ wake (qu d') n.
Proof.
  intros Hi Hw Hc Hu. rewrite (completes_sigs _ _ _ _ _ _ _ Hc).
  pose proof (inv_local_done d j x res hw (qpc d) g Hi (cp_slot _ _ _ _ _ _ _ Hc) (cp_job _ _ _ _ _ _ _ Hc) Hu) as Hd.
  pose proof (wake_local_done (qu d) (frees_here x) j n Hw) as Hl.
  pose proof (cp_qu _ _ _ _ _ _ _ Hc) as Q. cbv zeta in Q, Hd.
  destruct (wants_kick (qu d)); (split; [eapply inv_view; [exact Q|]|eapply wake_view; [exact Q|]]).
  - by apply inv_armed.
  - apply wake_armed.
  - exact Hd.
  - exact Hl.
Qed.

(** ** The steps *)
Lemma sinv_kicked S j k :
  sinv S -> inv (sigs (dev S)) (qu (dev S)) (g_of (unhold (j, k) S)) /\ wake (qu (dev S)) (arming S).
Proof. intros [Hi Hw]. split; [|done]. exact (inv_unhold _ _ _ _ Hi). Qed.

Lemma step_submit e File i a_job S :
  sinv S -> enabled (L_submit File i a_job) S -> step_ok e (L_submit File i a_job) S.
Proof.
  intros [Hi Hw] ([c Hf] & Hfresh & Hb & Hn). unfold step_ok, exec.
  pose proof (iv_queue _ _ _ Hi) as Hok.
  pose proof (submit_locked_outcome File c i a_job (dev S) Hok Hf Hfresh Hb Hn) as H. cbv zeta in H.
  destruct (NT_SUCCESS _).
  - destruct H as (j & x & ps & d' & -> & -> & Hx & Hps & Hstop). ostep. eexists. split; [reflexivity|]. intros _.
    pose proof (Hfresh j eq_refl) as Hj.
    destruct (enqueued_ok j x (dev S) Hok Hj Hn (sb_id _ _ _ _ _ Hx)) as [Hok1 Hall].
    { rewrite (sb_bank _ _ _ _ _ Hx). by apply stamp_slots_ok. }
    destruct (enqueued_fields j x (dev S)) as (E1 & E2 & E3 & E4 & E5 & _).
    destruct (sb_fresh _ _ _ _ _ Hx) as (F1 & _ & F3).
    assert (Hi1 : inv (sigs (enqueued j x (dev S))) (qu (enqueued j x (dev S))) (g_of S)).
    { unfold sigs in *. rewrite E1, fmap_insert in *. eapply inv_add; [exact Hi|exact Hok1|..].
      - by rewrite lookup_fmap, Hj.
      - exact F3.
      - exact F1.
      - exact (sb_id _ _ _ _ _ Hx).
      - rewrite E3. apply u64_small. pose proof (qo_next _ _ Hok). lia.
      - intros k. rewrite E2, elem_of_app, list_elem_of_singleton. done.
      - exact E4.
      - by rewrite E5. }
    pose proof (promotes_promoted _ _ _ Hps Hok1) as Hp.
    pose proof (inv_promote _ _ _ _ Hi1 Hp) as Hi2.
    assert (Hl : is_Some (sigs d' !! j)).
    { apply (retargeted_live _ _ _ (pr_jobs _ _ _ Hp)). unfold sigs. rewrite E1, fmap_insert, lookup_insert_eq. eauto. }
    split.
    + pose proof (inv_hold _ _ _ j HReadId Hi2 Hl) as Hi3.
      assert (Eh : held (set_field held (fun l => l ++ kicks ps ++ [(j, HReadId)]) (with_dev d' S))
                   = (held S ++ kicks ps) ++ [(j, HReadId)]) by (rewrite <- app_assoc; reflexivity).
      unfold g_of. rewrite Eh. apply Hi3; [|done]. by intros [?|[??]].
    + apply wake_promoted; [apply (pr_ok _ _ _ Hp)|done|].
      pose proof (pr_frame _ _ _ Hp) as Hfr. unfold pframe in Hfr.
      change (KickRearm (qu d') = true -> KickActive (qu d') = true).
      assert (KickRearm (qu d') = KickRearm (qu (enqueued j x (dev S)))) as -> by congruence.
      assert (KickActive (qu d') = KickActive (qu (enqueued j x (dev S)))) as -> by congruence.
      exact (wk_active _ _ Hw).
  - rewrite H. ostep. eexists. split; [reflexivity|]. intros _. destruct (_ =? STATUS_DEVICE_BUSY).
    + split.
      * eapply (inv_next _ (qu (dev S))); [done|done|done| |apply bump_ok; done|exact Hi].
        change (NextId (qu (dev S)) <= next_id (qu (dev S))). unfold next_id.
        pose proof (qo_next _ _ Hok). rewrite u64_small by lia. lia.
      * exact (Wake (qu (bump_id (dev S))) _ (wk_idle _ _ Hw) (wk_active _ _ Hw)).
    + done.
Qed.

(** The local kick: quiet, but for the completion of the job then in the slot. *)
Lemma kick_or_complete e j d :
  queue_ok (sigs d) (qu d) -> is_Some (sigs d !! j) ->
  exists d', JobKickLocalInner e j d = Some d' /\
  (quiet d d' \/ exists d1 k x res, quiet d d1 /\ completes e res 0 d1 k x d').
Proof.
  intros Hok [x Hx]%live_job. destruct (kick_outcome e j d x Hok Hx) as (d1 & H).
  assert (HC : forall res, quiet d d1 ->
     exists d', RkMppJobComplete e res 0 d1 = Some d' /\
       (quiet d d' \/ exists d2 k x res, quiet d d2 /\ completes e res 0 d2 k x d')).
  { intros res Hq. destruct (complete_outcome e res 0 d1) as [[_ ->]|(k & y & d' & -> & Hc)].
    - by eapply queue_ok_quiet.
    - eauto.
    - exists d'. split; [done|]. right. eauto 8. }
  destruct (negb (MmioBase e) || (MmioLength e =? 0)).
  { destruct H as [Hk ->]. apply HC, Hk. }
  destruct (negb (0x558 <=? MmioLength e)).
  { destruct H as [Hk ->]. apply HC, Hk. }
  destruct H as [Hk ->]. destruct (flag _ _); [|apply HC, Hk]. exists d1. split; [done|]. left. apply Hk.
Qed.

Lemma quiet_live d d' k : quiet d d' -> is_Some (jobs d !! k) <-> is_Some (jobs d' !! k).
Proof.
  intros [E _]. assert (Hk : sigs d' !! k = sigs d !! k) by (by rewrite E). unfold sigs in Hk.
  rewrite !lookup_fmap in Hk. destruct (jobs d !! k), (jobs d' !! k); simpl in Hk; try done; split; intros [? ?]; done.
Qed.

Lemma step_kick_local e j S :
  sinv S -> (j, HKick 0) ∈ held S -> step_ok e (L_kick j 0) S.
Proof.
  intros HS Hh. destruct (sinv_kicked S j (HKick 0) HS) as [Hi Hw].
  assert (Hl : is_Some (sigs (dev S) !! j)).
  { apply (iv_live _ _ _ (proj1 HS)). by eapply held_user. }
  unfold step_ok, exec. change (0 =? 0) with true. cbv iota.
  change (dev (unhold (j, HKick 0) S)) with (dev S).
  destruct (kick_or_complete e j (dev S) (iv_queue _ _ _ Hi) Hl) as (d' & -> & Hd). ostep.
  eexists. split; [reflexivity|]. intros Hu. destruct Hd as [Hq|(d1 & k & x & res & Hq & Hc)].
  - split; [by eapply (inv_quiet (dev S))|by eapply (wake_quiet (dev S))].
  - apply (inv_completes e res 0 d1 k x d' _ _ (inv_quiet _ _ _ Hq Hi) (wake_quiet _ _ _ Hq Hw) Hc).
    intros Ef. apply (Hu k).
    + apply (quiet_live _ _ k Hq). rewrite (cp_job _ _ _ _ _ _ _ Hc). eauto.
    + change (jobs d' !! k = None). rewrite (cp_jobs _ _ _ _ _ _ _ Hc), Ef. apply lookup_delete_eq.
Qed.

(** The flushes before a peer kick. *)
Lemma peer_dispatch_outcome j d x :
  jobs d !! j = Some x ->
  exists st d', peer_dispatch j d = Some (st, d') /\ jobs d' = jobs d /\ qu d' = qu d.
Proof.
  intros Hx. unfold peer_dispatch. destruct (PeerOpen (qu d)); [|eexists _, _; done].
  destruct (Peer (qu d)) as [kick|]; [|eexists _, _; done]. unfold deref. rewrite Hx. ostep.
  eexists _, _. split; [reflexivity|].
  assert (F : forall l d0, jobs (foldl (fun s m => log1 (FlushIo m) s) d0 l) = jobs d0 /\
                qu (foldl (fun s m => log1 (FlushIo m) s) d0 l) = qu d0).
  { induction l as [|m l IH]; intros d0; [done|]. simpl. by rewrite (proj1 (IH _)), (proj2 (IH _)). }
  specialize (F (CleanMdls x) d) as [F1 F2]. destruct (ColmvCurMdl x); simpl; done.
Qed.

(** Once the kick on the peer is made, the thread holds the job no more. *)
Lemma unheld_kick1 h q g j :
  inv h q g -> (j, HKick 1) ∈ g_held g -> (j, HKick 1) ∉ remove1 (j, HKick 1) (g_held g).
Proof.
  intros Hi Hh Hc. pose proof (iv_kick1 _ _ _ Hi) as Hnd.
  rewrite (remove1_perm _ _ Hh), filter_cons_True in Hnd by done.
  apply NoDup_cons in Hnd as [Hn _]. apply Hn. by apply list_elem_of_filter.
Qed.

Lemma step_kick_peer e j S :
  sinv S -> (j, HKick 1) ∈ held S -> step_ok e (L_kick j 1) S.
Proof.
  intros HS Hh. destruct (sinv_kicked S j (HKick 1) HS) as [Hi Hw].
  destruct (inv_user_live _ _ j (proj1 HS)) as [x Hx]; [by eapply held_user|].
  destruct (iv_kick _ _ _ (proj1 HS) j 1 Hh) as [?|[_ Hs1]]; [done|].
  pose proof (unheld_kick1 _ _ _ j (proj1 HS) Hh) as Hun. simpl in Hun.
  unfold step_ok, exec. change (1 =? 0) with false. cbv iota. unfold exec_peer_kick.
  change (dev (unhold (j, HKick 1) S)) with (dev S).
  destruct (peer_dispatch_outcome j (dev S) x Hx) as (st & d' & -> & EJ & EQ). ostep.
  assert (Hi' : inv (sigs d') (qu d') (g_of (unhold (j, HKick 1) S))) by (by rewrite (sigs_same _ _ EJ), EQ).
  assert (Hw' : wake (qu d') (arming S)) by (by rewrite EQ).
  assert (Hx' : jobs d' !! j = Some x) by (by rewrite EJ). rewrite <- EQ in Hs1.
  clear Hi Hw EJ EQ. destruct (NT_SUCCESS st).
  - unfold deref. rewrite Hx. ostep. eexists. split; [reflexivity|]. intros _. split; [|exact Hw'].
    destruct Hi' as [H1 H2 H3 H4 H5 H6 H7 H8 H9 H10 H11].
    pose proof (lookup_sigs _ _ _ Hx') as Hsx. split; try done.
    + intros k y Hs _ _. change (InFlightPerCore (qu d') !! 1%nat = Some (Some k)) in Hs.
      assert (k = j) as -> by congruence. exact Hun.
    + intros k y Hk Hy Ho. apply elem_of_app in Ho as [Ho|Ho%list_elem_of_singleton].
      * by eapply (H10 k y).
      * assert (k = j) as -> by (by eapply (qo_uniq _ _ H1 k j)).
        by destruct (slot_not_completed _ _ _ _ H1 Hs1).
    + intros k [Hk|Hk%list_elem_of_singleton]%elem_of_app; [by apply H11|]. subst k.
      pose proof (qo_id _ _ H1 _ _ Hsx) as Hr. simpl in Hr. change (NextId (qu d')) with (NextId (qu d')) in *.
      exact (proj2 Hr).
  - unfold rollback_locked, slot. change (Z.to_nat 1) with 1%nat. rewrite Hs1. ostep.
    rewrite bool_decide_eq_true_2 by done. ostep. eexists. split; [reflexivity|]. intros _.
    pose proof (queue_ok_release_completed _ _ 1 j _ (sig x) (iv_queue _ _ _ Hi') Hs1
                  (lookup_sigs _ _ _ Hx') eq_refl eq_refl eq_refl) as [_ Hok].
    assert (Hi2 : inv (sigs d') (to_completed j (release 1 (qu d'))) (g_of (unhold (j, HKick 1) S))).
    { rewrite <- (insert_id (sigs d') j (sig x) (lookup_sigs _ _ _ Hx')).
      eapply inv_finish; [exact Hi'|exact Hok|exact (lookup_sigs _ _ _ Hx')|done..|].
      right. split; [|split; [exact Hs1|exact Hun]].
      change (InFlightPerCore (release 1 (qu d')) !! 1%nat = Some None). change 1 with (Z.of_nat 1).
      rewrite release_inflight. apply list_lookup_insert_eq. eapply lookup_lt_Some, Hs1. }
    split.
    + eapply (inv_hold _ _ _ j (HFail st) Hi2); [by exists (sig x); apply lookup_sigs| |done].
      intros _. change (j ∈ Completed (qu d') ++ [j]). apply elem_of_app. right. by left.
    + split; [|exact (wk_active _ _ Hw')]. intros Hp H0. apply (wk_idle _ _ Hw'); [exact Hp|].
      change (InFlightPerCore (release (Z.of_nat 1) (qu d')) !! 0%nat = Some None) in H0.
      rewrite release_inflight, list_lookup_insert_ne in H0 by done. exact H0.
Qed.

(** ** Touching a completed job without a pin *)
Lemma inv_done_upd d g j x y :
  inv (sigs d) (qu d) g -> jobs d !! j = Some x -> j ∈ Completed (qu d) ->
  sig y = (sig x) <| s_done := true |> -> inv (<[j := sig y]> (sigs d)) (qu d) g.
Proof.
  intros Hi Hx Hc E. eapply inv_upd; [exact Hi|exact (lookup_sigs _ _ _ Hx)|..]; rewrite ?E; try done.
  - by left.
  - exact (iv_pin _ _ _ Hi j _ (lookup_sigs _ _ _ Hx)).
Qed.

Lemma signal_eq j d x :
  jobs d !! j = Some x ->
  exists d', signal j d = Some d' /\ jobs d' = <[j := x <| Done := true |>]> (jobs d) /\ qu d' = qu d.
Proof.
  intros Hx. unfold signal. rewrite (upd_job_eq _ _ _ x) by done. eexists. split; [reflexivity|]. done.
Qed.

Lemma step_signal e j S : sinv S -> (j, HSignal) ∈ held S -> step_ok e (L_signal j) S.
Proof.
  intros HS Hh. destruct (sinv_kicked S j HSignal HS) as [Hi Hw].
  destruct (inv_user_live _ _ j (proj1 HS)) as [x Hx]; [by eapply held_user|].
  unfold step_ok, exec. destruct (signal_eq j _ x Hx) as (d' & -> & EJ & EQ). ostep.
  eexists. split; [reflexivity|]. intros _. split.
  - change (inv (sigs d') (qu d') (g_of (unhold (j, HSignal) S))). rewrite EQ. unfold sigs.
    rewrite EJ, fmap_insert. eapply inv_done_upd; [exact Hi|exact Hx| |done].
    by apply (iv_signal _ _ _ (proj1 HS)).
  - change (wake (qu d') (arming S)). by rewrite EQ.
Qed.

Lemma step_fail e j st S : sinv S -> (j, HFail st) ∈ held S -> step_ok e (L_fail j st) S.
Proof.
  intros HS Hh. destruct (sinv_kicked S j (HFail st) HS) as [Hi Hw].
  destruct (inv_user_live _ _ j (proj1 HS)) as [x Hx]; [by eapply held_user|].
  unfold step_ok, exec, fail_signal. rewrite (upd_job_eq _ _ _ _ Hx). ostep.
  destruct (signal_eq j ((dev S) <| jobs := <[j := x <| Result := st |>]> (jobs (dev S)) |>) (x <| Result := st |>))
    as (d' & -> & EJ & EQ); [apply lookup_insert_eq|]. ostep.
  change (jobs d' = <[j := x <| Result := st |> <| Done := true |>]> (<[j := x <| Result := st |>]> (jobs (dev S)))) in EJ.
  rewrite insert_insert_eq in EJ. change (qu d' = qu (dev S)) in EQ.
  eexists. split; [reflexivity|]. intros _. split.
  - change (inv (sigs d') (qu d') (g_of (unhold (j, HFail st) S))). rewrite EQ. unfold sigs.
    rewrite EJ, fmap_insert. eapply inv_done_upd; [exact Hi|exact Hx| |done].
    by apply (iv_fail _ _ _ (proj1 HS) _ _ Hh).
  - change (wake (qu d') (arming S)). by rewrite EQ.
Qed.

Lemma step_read e j S : sinv S -> (j, HReadId) ∈ held S -> step_ok e (L_read j) S.
Proof.
  intros HS Hh. destruct (inv_user_live _ _ j (proj1 HS)) as [x Hx]; [by eapply held_user|].
  unfold step_ok, exec, deref. rewrite Hx. ostep. eexists. split; [reflexivity|]. intros _.
  exact (sinv_kicked S j HReadId HS).
Qed.

(** ** Completion and the worker *)
Lemma step_complete e res hw S : sinv S -> step_ok e (L_complete res hw) S.
Proof.
  intros [Hi Hw]. unfold step_ok, exec. pose proof (iv_queue _ _ _ Hi) as Hok.
  destruct (complete_locked_outcome res hw (dev S) Hok)
    as [[_ ->]|(j & x & d1 & H0 & Hx & -> & J1 & Q1 & _)]; ostep.
  { eexists. split; [reflexivity|]. done. }
  cbv zeta in Q1.
  set (q' := release 0 _) in *.
  assert (Hg : jobs (if idle_after q' then gate e d1 else d1) = jobs d1 /\
               qu (if idle_after q' then gate e d1 else d1) = qu d1).
  { destruct (idle_after q'); [|done]. destruct (gate_logs e d1) as [_ G1 G2 _ _ _]. done. }
  set (d2 := if idle_after q' then gate e d1 else d1) in *. destruct Hg as [GJ GQ]. clearbody d2.
  rewrite <- GJ in J1. rewrite <- GQ in Q1.
  assert (Ew : wants_kick q' = wants_kick (qu (dev S))) by (unfold q'; by destruct (frees_here x)).
  rewrite Ew. clear GJ GQ. pose proof (wake_local_done (qu (dev S)) (frees_here x) j _ Hw) as Hwk. fold q' in Hwk.
  assert (Hd : (frees_here x = true -> j ∉ users S) -> forall d3, qu d3 = q' ->
     jobs d3 = (if frees_here x then delete j (jobs (dev S))
                else <[j := finished res hw (qpc (dev S)) x]> (jobs (dev S))) -> inv (sigs d3) (qu d3) (g_of S)).
  { intros Hu d3 EQ EJ. rewrite EQ. pose proof (inv_local_done (dev S) j x res hw (qpc (dev S)) _ Hi H0 Hx Hu) as H.
    cbv zeta in H. fold q' in H. unfold sigs in *. rewrite EJ.
    destruct (frees_here x); [rewrite fmap_delete|rewrite fmap_insert]; exact H. }
  unfold free_if, free_job. rewrite J1. destruct (frees_here x) eqn:Ef.
  - rewrite lookup_insert_eq. ostep. eexists. split; [reflexivity|]. intros Hu. split.
    + apply (Hd (fun _ => Hu j ltac:(rewrite Hx; eauto) ltac:(apply lookup_delete_eq))); [exact Q1|].
      change (delete j (jobs d2) = delete j (jobs (dev S))). by rewrite J1, delete_insert_eq.
    + change (wake (qu d2) (arm (wants_kick (qu (dev S))) (arming S))). by rewrite Q1.
  - ostep. eexists. split; [reflexivity|]. intros _. split.
    + apply Hd; [done|exact Q1|exact J1].
    + change (wake (qu d2) (arm (wants_kick (qu (dev S))) (arming S))). by rewrite Q1.
Qed.

Lemma step_enqueue e S : sinv S -> step_ok e L_enqueue S.
Proof.
  intros [Hi Hw]. unfold step_ok, exec. eexists. split; [reflexivity|]. intros _.
  destruct (enqueue_fields (dev S)) as (EJ & EQ & _). split.
  - change (inv (sigs (RkMppEnqueueKickWorker (dev S))) (qu (RkMppEnqueueKickWorker (dev S))) (g_of S)).
    rewrite (sigs_same _ _ EJ). eapply inv_view; [exact EQ|]. by apply inv_armed.
  - change (wake (qu (RkMppEnqueueKickWorker (dev S))) (Nat.pred (arming S))).
    eapply wake_view; [exact EQ|]. apply wake_armed.
Qed.

Lemma step_worker e S : sinv S -> KickActive (qu (dev S)) = true -> step_ok e L_worker S.
Proof.
  intros [Hi Hw] Ha. unfold step_ok, exec, drain_once. destruct (KickRearm (qu (dev S))) eqn:Er; simpl negb; cbv iota.
  - set (d1 := on_q _ (dev S)). assert (Hi1 : inv (sigs d1) (qu d1) (g_of S)).
    { eapply (inv_cores _ (qu (dev S))); [done..| |exact Hi]. apply core_ok_ext with (qu (dev S)); try done. apply Hi. }
    destruct (promote_until_full_outcome d1 (iv_queue _ _ _ Hi1)) as (ps & d' & -> & Hps & Hstop). ostep.
    pose proof (promotes_promoted _ _ _ Hps (iv_queue _ _ _ Hi1)) as Hp.
    eexists. split; [reflexivity|]. intros _. split; [exact (inv_promote _ _ _ _ Hi1 Hp)|].
    apply wake_promoted; [apply (pr_ok _ _ _ Hp)|exact Hstop|].
    pose proof (pr_frame _ _ _ Hp) as Hf. unfold pframe in Hf.
    change (KickRearm (qu d') = true -> KickActive (qu d') = true).
    assert (KickActive (qu d') = KickActive (qu d1)) as -> by congruence. done.
  - ostep. eexists. split; [reflexivity|]. intros _. split.
    + eapply (inv_cores _ (qu (dev S))); [done..| |exact Hi]. apply core_ok_ext with (qu (dev S)); try done. apply Hi.
    + split.
      * intros Hp H0. exact (wk_idle _ _ Hw Hp H0).
      * intros Hr. change (KickRearm (qu (dev S)) = true) in Hr. congruence.
Qed.

Lemma step_isr e v S : sinv S -> step_ok e (L_isr v) S.
Proof.
  intros [Hi Hw]. unfold step_ok, exec. eexists. split; [reflexivity|]. intros _.
  assert (Hq : quiet (dev S) (RkMppEvtIsr e v (dev S)).2).
  { unfold RkMppEvtIsr. destruct (MmioBase e); simpl; [|done]. destruct (u32 v =? 0); done. }
  split; [exact (inv_quiet _ _ _ Hq Hi)|exact (wake_quiet _ _ _ Hq Hw)].
Qed.

(** ** The peer completes *)
Lemma inv_out_sub h q g out :
  out ⊆ g_out g -> inv h q g -> inv h q (Ghost (g_held g) (g_pins g) (g_foreign g) out).
Proof.
  intros Hs [H1 H2 H3 H4 H5 H6 H7 H8 H9 H10 H11]. split; simpl; try done.
  - intros j y Hj Hy Ho. eauto.
  - intros j y Hj Hy Ho. by apply (H10 j y Hj Hy), Hs.
  - intros k Hk. apply H11, Hs, Hk.
Qed.

Lemma wake_pending_slot0 q q' n n' :
  wake q n -> Pending q' = Pending q -> InFlightPerCore q' !! 0%nat = InFlightPerCore q !! 0%nat ->
  KickRearm q' = KickRearm q -> KickActive q' = KickActive q -> (n <= n')%nat -> wake q' n'.
Proof.
  intros Hw EP EI ER EA Hn. eapply wake_mono; [by rewrite EP|by rewrite EI|done..].
Qed.

Lemma step_peer_complete e cookie st hw S :
  sinv S -> cookie ∈ peer_out S -> step_ok e (L_peer_complete cookie st hw) S.
Proof.
  intros [Hi Hw] Hc. unfold step_ok, exec. pose proof (iv_queue _ _ _ Hi) as Hok.
  assert (Hsub : remove1 cookie (peer_out S) ⊆ peer_out S) by (intros k; apply remove1_elem).
  destruct (peer_locked_outcome cookie st hw (dev S) Hok)
    as [[_ ->]|(j & x & d' & H1 & Hx & Eid & -> & EJ & EQ & _)]; ostep; cbv zeta.
  { eexists. split; [reflexivity|]. intros _. split; [exact (inv_out_sub _ _ (g_of S) _ Hsub Hi)|exact Hw]. }
  eexists. split; [reflexivity|]. intros _.
  assert (Hun : (j, HKick 1) ∉ held S).
  { apply (iv_out _ _ _ Hi j _ H1 (lookup_sigs _ _ _ Hx)). by rewrite <- Eid in Hc. }
  set (y := x <| EndQpc := _ |> <| Result := _ |> <| HardwareStatus := _ |>) in *.
  pose proof (queue_ok_release_completed _ _ 1 j _ (sig y) Hok H1 (lookup_sigs _ _ _ Hx)
                eq_refl eq_refl eq_refl) as [_ Hok'].
  assert (Hi' : inv (sigs d') (qu d') (g_of S)).
  { rewrite EQ. unfold sigs. rewrite EJ, fmap_insert.
    eapply inv_finish; [exact Hi|exact Hok'|exact (lookup_sigs _ _ _ Hx)|done..|].
    right. split; [|split; [exact H1|exact Hun]].
    change (InFlightPerCore (release (Z.of_nat 1) (qu (dev S))) !! 1%nat = Some None).
    rewrite release_inflight. apply list_lookup_insert_eq. eapply lookup_lt_Some, H1. }
  split.
  - refine (inv_hold _ _ _ j HSignal (inv_out_sub _ _ (g_of S) _ Hsub Hi') _ _ _); [| |done].
    + unfold sigs. rewrite EJ, fmap_insert, lookup_insert_eq. eauto.
    + intros _. rewrite EQ. change (j ∈ Completed (qu (dev S)) ++ [j]). apply elem_of_app. right. by left.
  - eapply (wake_pending_slot0 (qu (dev S)) (qu d')); [exact Hw|rewrite EQ..|].
    + done.
    + change (InFlightPerCore (release (Z.of_nat 1) (qu (dev S))) !! 0%nat = InFlightPerCore (qu (dev S)) !! 0%nat).
      rewrite release_inflight. by apply list_lookup_insert_ne.
    + done.
    + done.
    + change (arming S <= arm (wants_kick (qu (dev S))) (arming S))%nat. destruct (wants_kick _); simpl; lia.
Qed.

(** ** Jobs unlinked and freed *)
Lemma queue_ok_delete_all h q q' l :
  queue_ok h q -> core_ok q' -> l ++ q_all q' ≡ₚ q_all q -> NextId q' = NextId q ->
  OwnerLru q' = OwnerLru q -> InFlightPerCore q' = InFlightPerCore q ->
  queue_ok (delete_all l h) q'.
Proof.
  intros [H1 H2 H3 H4 H5 H6 H7 H8 H9] Hc Hp Hn Hlru Hs. rewrite <- Hp in H2.
  apply NoDup_app in H2 as (_ & Hj & Hnd).
  assert (Hd : forall j y, delete_all l h !! j = Some y -> h !! j = Some y).
  { intros j y. rewrite lookup_delete_all. by destruct (decide (j ∈ l)). }
  split; try done; rewrite ?Hn, ?Hs; eauto.
  - intros j Hin. rewrite lookup_delete_all, decide_False by (intros Hl; by apply (Hj j)).
    apply H3. rewrite <- Hp. apply elem_of_app. by right.
  - unfold lru_ok. by rewrite Hn, Hlru.
Qed.

Lemma wake_shrink q q' n :
  wake q n -> Pending q' ⊆ Pending q -> InFlightPerCore q' = InFlightPerCore q ->
  KickRearm q' = KickRearm q -> KickActive q' = KickActive q -> wake q' n.
Proof.
  intros Hw HP HS ER EA. eapply wake_mono; [|by rewrite HS|done..].
  intros Hp E. rewrite E in HP. apply Hp. destruct (Pending q') as [|k l]; [done|].
  exfalso. specialize (HP k ltac:(by left)). by apply elem_of_nil in HP.
Qed.

Lemma unlinkq_sub j q : Pending (unlinkq j q) ⊆ Pending q /\ Completed (unlinkq j q) ⊆ Completed q.
Proof.
  unfold unlinkq. destruct (decide (j ∈ Pending q)); simpl; split; try done; intros k; apply list_remove_subset.
Qed.
Lemma list_remove_other j k l : k ∈ l -> k <> j -> k ∈ list_remove_Z j l.
Proof.
  intros Hk Hne. induction l as [|x l IH]; [done|]. simpl. destruct (Z.eqb_spec x j) as [->|].
  - by apply elem_of_cons in Hk as [?|?].
  - apply elem_of_cons in Hk as [->|?]; [by left|right; auto].
Qed.

Lemma inv_unlink_free h q g j :
  inv h q g -> j ∈ Pending q ++ Completed q -> j ∉ g_users g -> inv (delete j h) (unlinkq j q) g.
Proof.
  intros Hi Hj Hu. destruct (unlinkq_cores j q (qo_core _ _ (iv_queue _ _ _ Hi))) as (_ & Ei & En & _).
  change (delete j h) with (delete_all [j] h). eapply inv_remove; [exact Hi|..].
  - simpl. apply queue_ok_unlink_free; [apply Hi|done].
  - by intros k ->%list_elem_of_singleton.
  - apply unlinkq_sub.
  - intros k Hk. destruct (decide (k = j)) as [->|Hne]; [right; by left|left].
    unfold unlinkq. destruct (decide (j ∈ Pending q)); simpl; [done|]. by apply list_remove_other.
  - by rewrite Ei.
  - done.
Qed.

Lemma wake_unlinkq q j n : wake q n -> wake (unlinkq j q) n.
Proof.
  intros Hw. eapply wake_shrink; [exact Hw|apply unlinkq_sub|..]; unfold unlinkq; by destruct (decide _).
Qed.

(** ** Pins *)
Lemma inv_pinned d g j x :
  inv (sigs d) (qu d) g -> jobs d !! j = Some x ->
  inv (<[j := sig (x <| WaiterPin := WaiterPin x + 1 |>)]> (sigs d)) (qu d)
      (Ghost (g_held g) (g_pins g ++ [j]) (g_foreign g) (g_out g)).
Proof.
  intros Hi Hx. eapply inv_upd; [exact Hi|exact (lookup_sigs _ _ _ Hx)|done..| | | |].
  - intros k. unfold g_users. simpl. rewrite !elem_of_app, list_elem_of_singleton. tauto.
  - simpl. rewrite npins_app, npins_one, decide_True by done. by rewrite (inv_pin_live _ _ _ _ Hi Hx).
  - intros k Hk. simpl. rewrite npins_app, npins_one, decide_False by done. lia.
  - exact (iv_done _ _ _ Hi j _ (lookup_sigs _ _ _ Hx)).
Qed.

Lemma inv_unpinned d g j x y :
  inv (sigs d) (qu d) g -> jobs d !! j = Some x -> j ∈ g_pins g ->
  sig y = (sig x) <| s_pin := WaiterPin x - 1 |> <| s_orphan := OrphanOnComplete y |> ->
  inv (<[j := sig y]> (sigs d)) (qu d) (Ghost (g_held g) (remove1 j (g_pins g)) (g_foreign g) (g_out g)).
Proof.
  intros Hi Hx Hj E. eapply inv_upd; [exact Hi|exact (lookup_sigs _ _ _ Hx)|rewrite ?E; done..| | | |].
  - intros k. unfold g_users. simpl. rewrite !elem_of_app. intros [?|[?%remove1_elem|?]]; tauto.
  - cbn [g_pins]. rewrite npins_remove1, decide_True by done.
    assert (s_pin (sig y) = WaiterPin x - 1) as -> by (by rewrite E). by rewrite (inv_pin_live _ _ _ _ Hi Hx).
  - intros k Hk. simpl. rewrite npins_remove1, decide_False by done. lia.
  - assert (s_done (sig y) = s_done (sig x)) as -> by (by rewrite E).
    exact (iv_done _ _ _ Hi j _ (lookup_sigs _ _ _ Hx)).
Qed.

Lemma step_wait e File JobId S : sinv S -> step_ok e (L_wait File JobId) S.
Proof.
  intros [Hi Hw]. unfold step_ok, exec. pose proof (iv_queue _ _ _ Hi) as Hok.
  destruct (wait_lookup_outcome File JobId (dev S) Hok)
    as [->|[(j & x & Hj & (Hx & _ & _) & ->)|(j & x & (Hx & _ & _) & _ & ->)]]; ostep.
  - eexists. split; [reflexivity|]. done.
  - unfold free_job. change (jobs (on_q (unlinkq j) (dev S))) with (jobs (dev S)). rewrite Hx. ostep.
    eexists. split; [reflexivity|]. intros Hu.
    assert (Hn : j ∉ users S) by (apply (Hu j); [rewrite Hx; eauto|apply lookup_delete_eq]). split.
    + assert (Hi' : inv (delete j (sigs (dev S))) (unlinkq j (qu (dev S))) (g_of S)).
      { apply inv_unlink_free; [exact Hi|apply elem_of_app; by right|exact Hn]. }
      unfold sigs in Hi'. rewrite <- fmap_delete in Hi'. exact Hi'.
    + exact (wake_unlinkq _ j _ Hw).
  - eexists. split; [reflexivity|]. intros _. split; [|exact Hw].
    pose proof (inv_pinned _ _ _ _ Hi Hx) as Hp. unfold sigs in Hp. rewrite <- fmap_insert in Hp. exact Hp.
Qed.

(** A thread lets go of its pin and, as the last one, unlinks and frees the job. *)
Lemma unpin_free S j x y (reap : bool) :
  sinv S -> jobs (dev S) !! j = Some x -> j ∈ pins S ->
  sig y = (sig x) <| s_pin := WaiterPin x - 1 |> <| s_orphan := OrphanOnComplete y |> ->
  (reap = true -> j ∈ Pending (qu (dev S)) ++ Completed (qu (dev S))) ->
  let d1 := (dev S) <| jobs := <[j := y]> (jobs (dev S)) |> in
  exists d', free_if reap j (if reap then on_q (unlinkq j) d1 else d1) = Some d' /\
    let S' := (with_dev d' S) <| pins ::= remove1 j |> in undisturbed S S' -> sinv S'.
Proof.
  intros [Hi Hw] Hx Hp E Hr. cbv zeta.
  pose proof (inv_unpinned _ _ _ _ y Hi Hx Hp E) as Hi1. unfold sigs in Hi1. rewrite <- fmap_insert in Hi1.
  destruct reap; unfold free_if, free_job.
  - cbn [jobs on_q set_field]. rewrite lookup_insert_eq. ostep. eexists. split; [reflexivity|]. intros Hu.
    assert (Hn : j ∉ users (S <| pins ::= remove1 j |>)).
    { apply (Hu j); [rewrite Hx; eauto|apply lookup_delete_eq]. }
    split; [|exact (wake_unlinkq _ j _ Hw)].
    pose proof (inv_unlink_free _ _ _ j Hi1 (Hr eq_refl) Hn) as H. rewrite <- fmap_delete in H. exact H.
  - eexists. split; [reflexivity|]. intros _. split; [exact Hi1|exact Hw].
Qed.

Lemma step_wait_done e j S : sinv S -> j ∈ pins S -> event_set (dev S) j -> step_ok e (L_wait_done j) S.
Proof.
  intros HS Hp He. pose proof (proj1 HS) as Hi.
  destruct (inv_user_live _ _ j Hi) as [x Hx]. { unfold g_users. rewrite !elem_of_app. right; by left. }
  pose proof (event_done _ _ _ _ Hi Hx He) as Hc.
  unfold step_ok, exec. rewrite (wait_done_outcome j (dev S) x (iv_queue _ _ _ Hi) Hx Hc). ostep. cbv zeta.
  destruct (unpin_free S j x (unpinned x) (WaiterPin x - 1 =? 0) HS Hx Hp) as (d' & -> & Hd); [done| |].
  { intros _. apply elem_of_app. by right. }
  ostep. eexists. split; [reflexivity|]. exact Hd.
Qed.

Lemma step_wait_timeout e j S : sinv S -> j ∈ pins S -> step_ok e (L_wait_timeout j) S.
Proof.
  intros HS Hp. pose proof (proj1 HS) as Hi.
  destruct (inv_user_live _ _ j Hi) as [x Hx]. { unfold g_users. rewrite !elem_of_app. right; by left. }
  unfold step_ok, exec.
  destruct (wait_timeout_outcome j (dev S) x (iv_queue _ _ _ Hi) Hx)
    as (r & -> & [(-> & _ & Hin)|[(-> & _)|(-> & _)]]); ostep.
  - destruct (unpin_free S j x (unpinned x) true HS Hx Hp) as (d' & -> & Hd); [done|done|].
    ostep. eexists. split; [reflexivity|]. exact Hd.
  - destruct (unpin_free S j x (unpinned x <| OrphanOnComplete := true |>) false HS Hx Hp) as (d' & E & Hd);
      [done|done|]. cbv iota in E. rewrite E. ostep. eexists. split; [reflexivity|]. exact Hd.
  - destruct (unpin_free S j x (unpinned x) false HS Hx Hp) as (d' & E & Hd); [done|done|].
    cbv iota in E. rewrite E. ostep. eexists. split; [reflexivity|]. exact Hd.
Qed.

Lemma step_drain_pin e File S : sinv S -> step_ok e (L_drain_pin File) S.
Proof.
  intros [Hi Hw]. unfold step_ok, exec.
  destruct (drain_pin_outcome File (dev S) (iv_queue _ _ _ Hi)) as [[-> _]|(j & x & _ & Hx & _ & ->)]; ostep.
  - eexists. split; [reflexivity|]. intros _. split; [|exact Hw]. unfold g_of. simpl.
    rewrite app_nil_r. exact Hi.
  - eexists. split; [reflexivity|]. intros _. split; [|exact Hw].
    pose proof (inv_pinned _ _ _ _ Hi Hx) as H. unfold sigs in H. rewrite <- fmap_insert in H. exact H.
Qed.

(** ** The drain frees a list of jobs *)
Lemma free_list d q' l g :
  inv (sigs d) (qu d) g -> l ++ q_all q' ≡ₚ q_all (qu d) -> core_ok q' -> NextId q' = NextId (qu d) ->
  OwnerLru q' = OwnerLru (qu d) -> InFlightPerCore q' = InFlightPerCore (qu d) ->
  Pending q' ⊆ Pending (qu d) -> (forall j, j ∈ Completed (qu d) -> j ∈ Completed q' \/ j ∈ l) ->
  exists d', free_all l (d <| qu := q' |>) = Some d' /\ jobs d' = foldr delete (jobs d) l /\ qu d' = q' /\
    ((forall j, j ∈ l -> j ∉ g_users g) -> inv (sigs d') (qu d') g).
Proof.
  intros Hi Hp Hc Hn Hl Hs HP HC. pose proof (iv_queue _ _ _ Hi) as Hok. pose proof (qo_nodup _ _ Hok) as Hnd.
  rewrite <- Hp in Hnd. apply NoDup_app in Hnd as (Hnd & _ & _).
  rewrite free_listed_outcome; [|exact Hnd|].
  - eexists. split; [reflexivity|]. split; [done|]. split; [done|]. intros Hu.
    rewrite sigs_delete_all. change (sigs (d <| qu := q' |>)) with (sigs d).
    change (inv (delete_all l (sigs d)) q' g).
    eapply inv_remove; [exact Hi| |exact Hu|exact HP|exact HC|by rewrite Hs|exact Hn].
    by apply (queue_ok_delete_all _ (qu d)).
  - intros j Hj. change (is_Some (jobs d !! j)). destruct (live_job d j) as [x Hx]; [|eauto].
    apply (qo_live _ _ Hok). rewrite <- Hp. apply elem_of_app. by left.
Qed.

Lemma freed_unused S d' j l :
  undisturbed S d' -> is_Some (jobs (dev S) !! j) -> j ∈ l ->
  (exists m, jobs (dev d') = foldr delete m l) -> j ∉ users d'.
Proof. intros Hu Hj Hl [m E]. apply Hu; [done|]. rewrite E. by apply lookup_foldr_delete. Qed.

Lemma step_splice e File S : sinv S -> step_ok e (L_splice File) S.
Proof.
  intros [Hi Hw]. unfold step_ok, exec. pose proof (iv_queue _ _ _ Hi) as Hok.
  rewrite (drain_splice_outcome File (dev S) Hok). ostep.
  destruct (free_list (dev S) (without (owned_by File) (dev S) (qu (dev S))) (spliced (owned_by File) (dev S)) (g_of S) Hi)
    as (d' & -> & EJ & EQ & Hd).
  - apply spliced_all.
  - eapply core_ok_ext; [..|apply Hok]; done.
  - done.
  - done.
  - done.
  - intros j Hj. cbn [without Pending set_field] in Hj. by apply list_elem_of_filter in Hj as [_ ?].
  - intros j Hj. cbn [without Completed set_field]. unfold spliced. rewrite elem_of_app, !list_elem_of_filter.
    destruct (holds_of (owned_by File) (dev S) j); auto.
  - ostep. eexists. split; [reflexivity|]. intros Hu. split.
    + apply Hd. intros j Hj. change (j ∉ users (with_dev d' S)).
      eapply freed_unused; [exact Hu| |exact Hj|by exists (jobs (dev S))].
      destruct (live_job (dev S) j) as [x Hx]; [|rewrite Hx; eauto].
      apply (qo_live _ _ Hok). rewrite <- (spliced_all (owned_by File) (dev S)). apply elem_of_app. by left.
    + change (wake (qu d') (arming S)). rewrite EQ. eapply wake_shrink; [exact Hw|..]; try done.
      intros j Hj. cbn [without Pending set_field] in Hj. by apply list_elem_of_filter in Hj as [_ ?].
Qed.

Lemma step_drain_after e File j timedOut S :
  sinv S -> j ∈ pins S -> step_ok e (L_drain_after File j timedOut) S.
Proof.
  intros [Hi Hw] Hp. unfold step_ok, exec. pose proof (iv_queue _ _ _ Hi) as Hok.
  destruct (inv_user_live _ _ j Hi) as [x Hx]. { unfold g_users. rewrite !elem_of_app. right; by left. }
  destruct (drain_after_outcome File j timedOut (dev S) x Hok Hx) as (d2 & Hm & EQ & _ & _ & Hok2 & ->). ostep.
  cbv zeta in Hm. set (d1 := (dev S) <| jobs := <[j := unpinned x]> (jobs (dev S)) |>) in *.
  assert (Hi1 : inv (sigs d1) (qu d1) (g_of (S <| pins ::= remove1 j |>))).
  { pose proof (inv_unpinned _ _ _ _ (unpinned x) Hi Hx Hp eq_refl) as H. unfold sigs in H.
    rewrite <- fmap_insert in H. exact H. }
  assert (Hi2 : inv (sigs d2) (qu d2) (g_of (S <| pins ::= remove1 j |>))).
  { rewrite EQ. destruct timedOut.
    - eapply inv_unorphaned; [|exact Hi1]. intros k. by eapply marked_sigs.
    - rewrite (sigs_same d1 d2 Hm). exact Hi1. }
  assert (Hlive : forall k, is_Some (jobs d2 !! k) -> is_Some (jobs (dev S) !! k)).
  { intros k Hk. assert (H1 : is_Some (jobs d1 !! k)).
    { destruct timedOut; [|by rewrite <- Hm]. rewrite (Hm k) in Hk.
      destruct (_ && _) in Hk; [|done]. by apply fmap_is_Some in Hk. }
    change (is_Some (<[j:=unpinned x]> (jobs (dev S)) !! k)) in H1.
    destruct (decide (k = j)) as [->|]; [rewrite Hx; eauto|]. by rewrite lookup_insert_ne in H1. }
  clear Hm Hi1. rewrite <- EQ. set (Cs := filter (fun k => holds_of (reaped File) d2 k = true) (Completed (qu d2))).
  set (q' := (qu d2) <| Completed := _ |>).
  assert (Hperm : Cs ++ q_all q' ≡ₚ q_all (qu d2)).
  { unfold q_all, q', Cs. cbn [set_field Pending Completed InFlightPerCore].
    rewrite Permutation_app_swap_app. apply Permutation_app_head. rewrite app_assoc. by rewrite split_perm. }
  destruct (free_list d2 q' Cs (g_of (S <| pins ::= remove1 j |>)) Hi2 Hperm) as (d' & -> & EJ & EQ' & Hd); try done.
  - eapply core_ok_ext; [..|apply Hok2]; done.
  - intros k Hk. unfold q', Cs. cbn [set_field Completed]. rewrite !list_elem_of_filter.
    destruct (holds_of (reaped File) d2 k); auto.
  - ostep. eexists. split; [reflexivity|]. intros Hu. split.
    + assert (Hd' : inv (sigs d') (qu d') (g_of (S <| pins ::= remove1 j |>))).
      { apply Hd. intros k Hk. eapply (freed_unused S _ k Cs Hu); [|exact Hk|exists (jobs d2); by destruct timedOut].
        apply Hlive. destruct (live_job d2 k) as [y Hy]; [|rewrite Hy; eauto]. apply (qo_live _ _ Hok2).
        rewrite <- Hperm. apply elem_of_app. by left. }
      by destruct timedOut.
    + assert (Hw' : wake (qu d') (arming S)).
      { rewrite EQ'. unfold q'. rewrite EQ. eapply wake_shrink; [exact Hw|..]; done. }
      by destruct timedOut.
Qed.

(** ** The peer comes and goes; foreign jobs *)
Lemma step_detach e S : sinv S -> step_ok e L_detach S.
Proof.
  intros [Hi Hw]. eexists. split; [reflexivity|]. intros _. split.
  - eapply (inv_cores _ (qu (dev S))); [done..| |exact Hi]. apply core_ok_detach. apply Hi.
  - exact (Wake (detach_locked (qu (dev S))) _ (wk_idle _ _ Hw) (wk_active _ _ Hw)).
Qed.

Lemma step_attach e kick S :
  sinv S -> InFlightPerCore (qu (dev S)) !! 1%nat = Some None -> step_ok e (L_attach kick) S.
Proof.
  intros [Hi Hw] H1. eexists. split; [reflexivity|]. intros _. split.
  - change (inv (sigs (dev S)) (attach_locked kick (qu (dev S))) (g_of S)).
    eapply (inv_cores _ (qu (dev S))); [..|exact Hi]; try (unfold attach_locked; by destruct (PeerOpen _)).
    apply core_ok_attach; [exact H1|apply Hi].
  - change (wake (attach_locked kick (qu (dev S))) (arming S)).
    eapply (wake_shrink (qu (dev S))); [exact Hw|..]; unfold attach_locked; by destruct (PeerOpen _).
Qed.

Lemma step_tick e n S : sinv S -> step_ok e (L_tick n) S.
Proof. intros HS. eexists. split; [reflexivity|]. intros _. exact HS. Qed.

Lemma inv_foreign h q g fs :
  (forall j, j ∈ fs -> j ∈ g_foreign g \/ is_Some (h !! j)) -> inv h q g ->
  inv h q (Ghost (g_held g) (g_pins g) fs (g_out g)).
Proof.
  intros Hf [H1 H2 H3 H4 H5 H6 H7 H8 H9 H10 H11]. split; try done.
  intros j Hj. unfold g_users in *. simpl in Hj. rewrite !elem_of_app in Hj.
  destruct Hj as [Hj|[Hj|Hj]].
  - apply H2. rewrite !elem_of_app. auto.
  - apply H2. rewrite !elem_of_app. auto.
  - destruct (Hf j Hj); [|done]. apply H2. rewrite !elem_of_app. auto.
Qed.

Lemma queue_ok_foreign_started d d' p j :
  queue_ok (sigs d) (qu d) -> jobs d !! j = None -> NextId (qu d) + 1 < 2 ^ 64 -> bank_ok (Bank p) ->
  InFlightPerCore (qu d) !! 0%nat = Some None ->
  jobs d' = <[j := (foreign_job p) <| Id := NextId (qu d) + 1 |>]> (jobs d) ->
  qu d' = clear_idle 0 (set_slot 0 (Some j) (qu (bump_id d))) ->
  queue_ok (sigs d') (qu d') /\ NextId (qu d') = NextId (qu d) + 1.
Proof.
  intros Hok Hj Hn Hb H0 EJ EQ. unfold sigs. rewrite EJ, EQ, fmap_insert.
  assert (Eid : NextId (qu (bump_id d)) = NextId (qu d) + 1).
  { change (next_id (qu d) = NextId (qu d) + 1). apply u64_small. pose proof (qo_next _ _ Hok). lia. }
  set (q' := clear_idle 0 (set_slot 0 (Some j) (qu (bump_id d)))). split; [|exact Eid].
  assert (Ei : InFlightPerCore q' = <[0%nat := Some j]> (InFlightPerCore (qu d))) by done.
  assert (Hall : q_all q' ≡ₚ j :: q_all (qu d)).
  { unfold q_all. rewrite Ei. change (Pending q') with (Pending (qu d)). change (Completed q') with (Completed (qu d)).
    change (@id (option Z)) with (fun v : option Z => v). rewrite (omap_fill _ _ _ H0), !app_assoc.
    by rewrite (Permutation_middle _ _ j). }
  assert (Hjs : sigs d !! j = None) by (unfold sigs; by rewrite lookup_fmap, Hj).
  eapply queue_ok_add; [exact Hok|exact Hjs| |exact Hall|exact Eid|exact Hn|reflexivity|exact Hb|done|].
  - apply core_ok_foreign; [exact H0|]. eapply core_ok_ext; [..|apply Hok]; done.
  - intros c k Hk. rewrite Ei in Hk. apply insert_slot_inv in Hk as [[-> [= ->]]|[_ Hk]]; [left|by right]. done.
Qed.

Lemma inv_foreign_started d d' g p j :
  inv (sigs d) (qu d) g -> jobs d !! j = None -> NextId (qu d) + 1 < 2 ^ 64 -> bank_ok (Bank p) ->
  InFlightPerCore (qu d) !! 0%nat = Some None ->
  jobs d' = <[j := (foreign_job p) <| Id := NextId (qu d) + 1 |>]> (jobs d) ->
  qu d' = clear_idle 0 (set_slot 0 (Some j) (qu (bump_id d))) ->
  inv (sigs d') (qu d') g.
Proof.
  intros Hi Hj Hn Hb H0 EJ EQ.
  destruct (queue_ok_foreign_started d d' p j (iv_queue _ _ _ Hi) Hj Hn Hb H0 EJ EQ) as [Hok' Eid].
  revert Hok'. unfold sigs. rewrite EJ, fmap_insert. intros Hok'.
  assert (Hjs : sigs d !! j = None) by (unfold sigs; by rewrite lookup_fmap, Hj).
  eapply inv_add; [exact Hi|exact Hok'|exact Hjs|reflexivity|reflexivity|reflexivity|exact Eid| |by rewrite EQ|].
  - rewrite EQ. by left.
  - rewrite EQ. by apply list_lookup_insert_ne.
Qed.

Lemma step_foreign_start e p j S :
  sinv S -> enabled (L_foreign_start p j) S -> step_ok e (L_foreign_start p j) S.
Proof.
  intros [Hi Hw] (Hj & Hb & Hn). unfold step_ok, exec. pose proof (iv_queue _ _ _ Hi) as Hok.
  destruct (foreign_start_outcome p j (dev S) Hok Hj Hn Hb)
    as (r & d' & -> & [(-> & _ & EJ & EQ)|(-> & H0 & EJ & EQ)]); ostep.
  - eexists. split; [reflexivity|]. intros _. split.
    + change (inv (sigs d') (qu d') (g_of S)). rewrite EQ, (sigs_same _ _ EJ).
      eapply (inv_next _ (qu (dev S))); [done..| |by apply bump_ok|exact Hi].
      change (NextId (qu (dev S)) <= next_id (qu (dev S))). unfold next_id.
      pose proof (qo_next _ _ Hok). rewrite u64_small by lia. lia.
    + change (wake (qu d') (arming S)). rewrite EQ.
      exact (Wake (qu (bump_id (dev S))) _ (wk_idle _ _ Hw) (wk_active _ _ Hw)).
  - eexists. split; [reflexivity|]. intros _.
    pose proof (inv_foreign_started _ d' _ p j Hi Hj Hn Hb H0 EJ EQ) as Hi1.
    assert (Hl : is_Some (sigs d' !! j)).
    { unfold sigs. rewrite EJ, fmap_insert, lookup_insert_eq. eauto. }
    split.
    + pose proof (inv_hold _ _ _ j (HKick 0) Hi1 Hl) as Hi2.
      refine (inv_foreign _ _ _ (foreign S ++ [j]) _ (Hi2 _ _)).
      * intros k [Hk| ->%list_elem_of_singleton]%elem_of_app; [by left|by right].
      * by intros [?|[??]].
      * by intros c [= <-].
    + change (wake (qu d') (arming S)). rewrite EQ. split; [|exact (wk_active _ _ Hw)].
      intros _ Hs. change (<[0%nat := Some j]> (InFlightPerCore (qu (dev S))) !! 0%nat = Some None) in Hs.
      rewrite list_lookup_insert_eq in Hs; [done|]. by eapply lookup_lt_Some.
Qed.

Lemma step_foreign_finish e j timedOut S :
  sinv S -> j ∈ foreign S -> (timedOut = false -> event_set (dev S) j) ->
  step_ok e (L_foreign_finish j timedOut) S.
Proof.
  intros [Hi Hw] Hj He. unfold step_ok, exec.
  destruct (inv_user_live _ _ j Hi) as [x Hx]. { unfold g_users. rewrite !elem_of_app. by do 2 right. }
  assert (Hi1 : inv (sigs (dev S)) (qu (dev S)) (g_of (S <| foreign ::= remove1 j |>))).
  { refine (inv_foreign _ _ (g_of S) (remove1 j (foreign S)) _ Hi). intros k Hk. left. exact (remove1_elem _ _ _ Hk). }
  destruct timedOut.
  - unfold foreign_finish. rewrite (upd_job_eq _ _ _ _ Hx). ostep. eexists. split; [reflexivity|]. intros _.
    split; [|exact Hw].
    assert (Hs : inv (<[j := sig (x <| OrphanOnComplete := true |>)]> (sigs (dev S))) (qu (dev S))
                   (g_of (S <| foreign ::= remove1 j |>))).
    { eapply inv_unorphaned; [|exact Hi1]. intros k. destruct (decide (k = j)) as [->|].
      - by rewrite lookup_insert_eq, (lookup_sigs _ _ _ Hx).
      - by rewrite lookup_insert_ne. }
    unfold sigs in Hs. rewrite <- fmap_insert in Hs. exact Hs.
  - pose proof (event_done _ _ _ _ Hi Hx (He eq_refl)) as Hc.
    rewrite (foreign_finish_done j (dev S) x Hx Hc). ostep. eexists. split; [reflexivity|]. intros Hu.
    assert (Hn : j ∉ users (S <| foreign ::= remove1 j |>)).
    { apply (Hu j); [rewrite Hx; eauto|apply lookup_delete_eq]. }
    split; [|exact (wake_unlinkq _ j _ Hw)].
    pose proof (inv_unlink_free _ _ _ j Hi1 (proj2 (elem_of_app _ _ _) (or_intror Hc)) Hn) as H.
    unfold sigs in H. rewrite <- fmap_delete in H. exact H.
Qed.

(** ** All of them *)
Lemma step_sound e l S : sinv S -> enabled l S -> step_ok e l S.
Proof.
  intros HS He. destruct l; simpl in He.
  - by apply step_submit.
  - destruct (iv_kick _ _ _ (proj1 HS) j core He) as [->|[-> _]]; [by apply step_kick_local|by apply step_kick_peer].
  - by apply step_signal.
  - by apply step_fail.
  - by apply step_read.
  - by apply step_complete.
  - by apply step_enqueue.
  - by apply step_worker.
  - by apply step_isr.
  - by apply step_peer_complete.
  - by apply step_wait.
  - destruct He. by apply step_wait_done.
  - by apply step_wait_timeout.
  - by apply step_splice.
  - by apply step_drain_pin.
  - destruct He. by apply step_drain_after.
  - by apply step_detach.
  - by apply step_attach.
  - by apply step_tick.
  - by apply step_foreign_start.
  - destruct He. by apply step_foreign_finish.
Qed.

Lemma init_queue_ok : queue_ok ∅ RkMppJobQueueInit.
Proof.
  split; try done.
  - apply (core_okv_2 1 1 0 0 None None); try done; by left.
  - constructor.
  - intros j Hj. by apply elem_of_nil in Hj.
  - unfold lru_ok. simpl. repeat constructor; done.
Qed.

Lemma sinv_init files n : sinv (sys_init files n).
Proof.
  split; [|split; done].
  split; try done; try (intros; by match goal with H : _ ∈ _ |- _ => apply elem_of_nil in H end).
  - exact init_queue_ok.
  - constructor.
Qed.

Lemma disciplined_sinv e S S' : sinv S -> disciplined e S S' -> sinv S'.
Proof.
  intros HS Hd. induction Hd as [|S S1 S2 l _ IH He Hx Hu]; [done|].
  destruct (step_sound e l S1 (IH HS) He) as (S3 & E & H). assert (S3 = S2) as -> by congruence. auto.
Qed.
