(* ===== verification/JobScenarios.v ===== *)
(** * Executions of the job queue, checked by computation

    Decision procedures for [enabled] and [undisturbed], so that a concrete list
    of steps is an execution by evaluation; a sample device; and the executions
    that leave the discipline, each a defect of the driver. *)

From S2P Require Import Prelude Mmio IommuMap BufPool JobQueue JobKick JobSys.
From S2P Require Import JobQueueFacts JobSys JobSysSteps.

(** ** Deciding the side conditions *)
Definition bank_okb (b : dense_bank) : bool :=
  (length (Common b) =? 25)%nat && (length (CodecParams b) =? 49)%nat &&
  (length (CommonAddr b) =? 15)%nat && (length (CodecAddr b) =? 40)%nat &&
  (length (HighPoc b) =? 5)%nat && (length (Stat b) =? 22)%nat.
Definition event_setb (d : jdev) (j : Z) : bool :=
  match jobs d !! j with Some x => Done x | None => true end.
Definition freshb (d : jdev) (j : Z) : bool := is_none (jobs d !! j).

Definition enabledb (l : label) (S : sys) : bool :=
  let d := dev S in
  match l with
  | L_submit File i a_job =>
      match jfiles d !! File with Some f => f_inited f | None => false end &&
      match a_job with Some j => freshb d j | None => true end &&
      bank_okb (InBank i) && (NextId (qu d) + 1 <? 2 ^ 64)
  | L_kick j core => bool_decide ((j, HKick core) ∈ held S)
  | L_signal j => bool_decide ((j, HSignal) ∈ held S)
  | L_fail j st => bool_decide ((j, HFail st) ∈ held S)
  | L_read j => bool_decide ((j, HReadId) ∈ held S)
  | L_enqueue => (0 <? arming S)%nat
  | L_worker => KickActive (qu d)
  | L_peer_complete cookie _ _ => bool_decide (cookie ∈ peer_out S)
  | L_wait_done j => bool_decide (j ∈ pins S) && event_setb d j
  | L_wait_timeout j => bool_decide (j ∈ pins S)
  | L_drain_after _ j timedOut => bool_decide (j ∈ pins S) && (timedOut || event_setb d j)
  | L_attach _ => match InFlightPerCore (qu d) !! 1%nat with Some None => true | _ => false end
  | L_tick n => 0 <=? n
  | L_foreign_start p j => freshb d j && bank_okb (Bank p) && (NextId (qu d) + 1 <? 2 ^ 64)
  | L_foreign_finish j timedOut => bool_decide (j ∈ foreign S) && (timedOut || event_setb d j)
  | _ => true
  end.

Lemma bank_okb_ok b : bank_okb b = true -> bank_ok b.
Proof. unfold bank_okb, bank_ok. rewrite !andb_true_iff, !Nat.eqb_eq. tauto. Qed.
Lemma event_setb_ok d j : event_setb d j = true -> event_set d j.
Proof. unfold event_setb, event_set. intros H x Hx. by rewrite Hx in H. Qed.
Lemma freshb_ok d j : freshb d j = true -> jobs d !! j = None.
Proof. unfold freshb. by destruct (jobs d !! j). Qed.

Lemma enabledb_ok l S : enabledb l S = true -> enabled l S.
Proof.
  destruct l; simpl; rewrite ?andb_true_iff, ?bool_decide_eq_true; try done.
  - intros [[[Hf Ha] Hb] Hn]. apply Z.ltb_lt in Hn.
    split; [|split; [|split; [by apply bank_okb_ok|done]]].
    + destruct (jfiles (dev S) !! File) as [[b c]|]; [|done]. simpl in Hf. subst b. eauto.
    + intros j ->. by apply freshb_ok.
  - intros H. by apply Nat.ltb_lt.
  - intros [Hj He]. split; [done|]. by apply event_setb_ok.
  - intros [Hj He]. split; [done|]. intros ->. by apply event_setb_ok.
  - by destruct (InFlightPerCore (qu (dev S)) !! 1%nat) as [[]|].
  - apply Z.leb_le.
  - intros [[Hf Hb] Hn]. apply Z.ltb_lt in Hn. split; [by apply freshb_ok|]. split; [by apply bank_okb_ok|done].
  - intros [Hj He]. split; [done|]. intros ->. by apply event_setb_ok.
Qed.

Definition undisturbedb (S S' : sys) : bool :=
  forallb (fun p => is_found (jobs (dev S') !! p.1) || negb (bool_decide (p.1 ∈ users S')))
    (map_to_list (jobs (dev S))).
Lemma undisturbedb_ok S S' : undisturbedb S S' = true -> undisturbed S S'.
Proof.
  unfold undisturbedb. rewrite forallb_forall. intros H j [x Hx] Hn.
  specialize (H (j, x)). cbn [fst] in H. rewrite Hn in H. simpl in H.
  rewrite <- list_elem_of_In, elem_of_map_to_list in H. specialize (H Hx).
  by apply negb_true_iff, bool_decide_eq_false in H.
Qed.

(** ** Runs of a list of steps *)
Fixpoint run_steps (e : env) (keep : bool) (ls : list label) (S : sys) : option sys :=
  match ls with
  | [] => Some S
  | l :: ls' =>
      if negb (enabledb l S) then None else
      S' ← exec e l S;
      if keep && negb (undisturbedb S S') then None else run_steps e keep ls' S'
  end.

Lemma runs_cons e S S1 S2 l :
  enabled l S -> exec e l S = Some S1 -> runs e S1 S2 -> runs e S S2.
Proof.
  intros He Hx Hr. induction Hr as [|S1 S2 S3 l' _ IH He' Hx'].
  - eapply runs_step; [constructor|done|done].
  - eapply runs_step; [by apply IH|done|done].
Qed.
Lemma disciplined_cons e S S1 S2 l :
  enabled l S -> exec e l S = Some S1 -> undisturbed S S1 -> disciplined e S1 S2 -> disciplined e S S2.
Proof.
  intros He Hx Hu Hr. induction Hr as [|S1 S2 S3 l' _ IH He' Hx' Hu'].
  - eapply disc_step; [constructor|done..].
  - eapply disc_step; [by apply IH|done..].
Qed.

Lemma run_steps_runs e ls S S' : run_steps e false ls S = Some S' -> runs e S S'.
Proof.
  revert S. induction ls as [|l ls IH]; intros S H; simpl in H; [injection H as ->; constructor|].
  destruct (enabledb l S) eqn:E; simpl in H; [|done].
  apply bind_Some_inv in H as (S1 & Hx & H). eapply runs_cons; [by apply enabledb_ok|exact Hx|auto].
Qed.
Lemma run_steps_disciplined e ls S S' : run_steps e true ls S = Some S' -> disciplined e S S'.
Proof.
  revert S. induction ls as [|l ls IH]; intros S H; simpl in H; [injection H as ->; constructor|].
  destruct (enabledb l S) eqn:E; simpl in H; [|done].
  apply bind_Some_inv in H as (S1 & Hx & H). simpl in H.
  destruct (undisturbedb S S1) eqn:Eu; simpl in H; [|done].
  eapply disciplined_cons; [by apply enabledb_ok|exact Hx|by apply undisturbedb_ok|auto].
Qed.

(** ** A sample device

    The register window of the ACPI resource, both interfaces, two open files
    each with a buffer of handle 1 and 2. *)
Definition env0 : env :=
  Env true 0x800 0
    (Some (Ccu (fun _ => true) (fun _ => true) (fun _ => true) (fun _ => true)))
    (Some (Iommu true true STATUS_SUCCESS true)).
Definition mdl0 : MDL := Mdl 0x800000 0x2000 [0x800; 0x801].
Definition file0 (cookie : Z) : jfile :=
  JFile true (FileCtx [Buffer cookie 0x800000 (Some mdl0) 0 0x10000 0x2000 4] 0x2000 1 0).
Definition sys0 : sys := sys_init [file0 1; file0 2] 100.

(** A submission that names one buffer as the bitstream (reg128). *)
Definition sub0 (handle : Z) : submit_in :=
  SubmitIn 1 1 1 zero_bank [IovaSlot 128 0x40 handle] [BufRef handle 0].
Definition ready : peer_kick_params -> NTSTATUS := fun _ => STATUS_SUCCESS.

(** A concrete execution and a test on where it ends. *)
Lemma run_holds e keep ls S0 (P : sys -> bool) :
  match run_steps e keep ls S0 with Some T => P T | None => false end = true ->
  exists S, run_steps e keep ls S0 = Some S /\ P S = true.
Proof. destruct (run_steps e keep ls S0); [eauto|done]. Qed.

(** After the steps [tr] the step [l] can be taken, and follows a freed job. *)
Definition faults_after (e : env) (tr : list label) (l : label) (S0 : sys) : Prop :=
  exists S, runs e S0 S /\ run_steps e false tr S0 = Some S /\ enabled l S /\ exec e l S = None.

Lemma faults_run e tr l S0 :
  match run_steps e false tr S0 with Some T => enabledb l T && is_none (exec e l T) | None => false end = true ->
  faults_after e tr l S0.
Proof.
  intros (T & Hr & H)%(run_holds e false tr S0 (fun S => enabledb l S && is_none (exec e l S))).
  apply andb_true_iff in H as [H1 H2]. exists T. split; [by eapply run_steps_runs|]. split; [done|].
  split; [by apply enabledb_ok|]. by destruct (exec e l T).
Qed.

(** ** Two waiters on one job

    Both threads of a file wait for the same job.  The first pins it while it is
    in flight; the second comes when it has completed, finds it on the completed
    list, and frees it without looking at the pin.  The first then follows a freed
    job. *)
Definition two_waiters : list label :=
  [ L_submit 0 (sub0 1) (Some 0x1000); L_kick 0x1000 0; L_read 0x1000;
    L_wait 0 1; L_complete STATUS_SUCCESS 4; L_wait 0 1 ].

(** ** A waiter and the cleanup of its file

    The wait pins a pending job; the first phase of the owner drain frees every
    pending job of the file, pinned or not. *)
Definition cleanup_under_wait : list label :=
  [ L_submit 0 (sub0 1) (Some 0x1000); L_submit 0 (sub0 1) (Some 0x2000); L_wait 0 2; L_read 0x2000;
    L_splice 0 ].

(** ** The peer's completion and a wait

    RkMppPeerCompletion puts the job on the completed list, releases the lock and
    only then sets the event; a wait in between frees the job. *)
Definition two_cores : list label :=
  [ L_attach ready; L_submit 0 (sub0 1) (Some 0x1000); L_kick 0x1000 0; L_read 0x1000;
    L_submit 1 (sub0 2) (Some 0x2000); L_kick 0x2000 1; L_read 0x2000 ].
Definition wait_before_event : list label := two_cores ++ [L_peer_complete 2 STATUS_SUCCESS 4; L_wait 1 2].

(** The discipline the safety of the queue asks for is not what the code keeps.
    Three interleavings of enabled steps end at a step that follows a freed job: a
    second WAIT_JOB on a completed job frees it under the first; the cleanup of a
    file frees a pending job under a WAIT_JOB; and a WAIT_JOB frees a job of the
    peer between its move to the completed list and the setting of its event. *)
Theorem races_free_used_jobs :
  faults_after env0 two_waiters (L_wait_done 0x1000) sys0 /\
  faults_after env0 cleanup_under_wait (L_wait_timeout 0x2000) sys0 /\
  faults_after env0 wait_before_event (L_signal 0x2000) sys0.
Proof. split; [|split]; apply faults_run; vm_compute; reflexivity. Qed.

(** ** A job abandoned on the peer

    The wait of a job on the peer core runs out and marks it; the peer completes
    it, and it stays on the completed list with nobody left to free it. *)
Theorem abandoned_peer_job_stays :
  exists S j x, disciplined env0 sys0 S /\ jobs (dev S) !! j = Some x /\ OrphanOnComplete x = true /\
    j ∈ Completed (qu (dev S)) /\ users S = [].
Proof.
  destruct (run_holds env0 true
     (two_cores ++ [L_wait 1 2; L_wait_timeout 0x2000; L_peer_complete 2 STATUS_SUCCESS 4; L_signal 0x2000]) sys0
     (fun S => match jobs (dev S) !! 0x2000 with Some x => OrphanOnComplete x | None => false end &&
               bool_decide (0x2000 ∈ Completed (qu (dev S))) && bool_decide (users S = [])))
    as (T & Hr & H); [vm_compute; reflexivity|].
  rewrite !andb_true_iff, !bool_decide_eq_true in H. destruct H as [[Hx Hc] Hu].
  destruct (jobs (dev T) !! 0x2000) as [x|] eqn:E; [|discriminate Hx].
  exists T, 0x2000, x. exact (conj (run_steps_disciplined _ _ _ _ Hr) (conj E (conj Hx (conj Hc Hu)))).
Qed.

(** ** Detaching the peer hides its job

    RkMppDetachPeer takes CoreCount to 1 and waits 500 ms; a job that is still in
    slot 1 then is no longer seen by the in-use test of FREE_BUFFER. *)
Theorem detach_hides_in_flight :
  exists S j x, disciplined env0 sys0 S /\ InFlightPerCore (qu (dev S)) !! 1%nat = Some (Some j) /\
    jobs (dev S) !! j = Some x /\ RkMppJobReferencesBuffer (Some x) 1 2 = true /\
    RkMppJobBufferInUse 1 2 (dev S) = Some false.
Proof.
  destruct (run_holds env0 true (two_cores ++ [L_detach]) sys0
     (fun S => match jobs (dev S) !! 0x2000 with Some x => RkMppJobReferencesBuffer (Some x) 1 2 | None => false end &&
               bool_decide (InFlightPerCore (qu (dev S)) !! 1%nat = Some (Some 0x2000)) &&
               bool_decide (RkMppJobBufferInUse 1 2 (dev S) = Some false)))
    as (T & Hr & H); [vm_compute; reflexivity|].
  rewrite !andb_true_iff, !bool_decide_eq_true in H. destruct H as [[Hx Hc] Hu].
  destruct (jobs (dev T) !! 0x2000) as [x|] eqn:E; [|discriminate Hx].
  exists T, 0x2000, x. exact (conj (run_steps_disciplined _ _ _ _ Hr) (conj Hc (conj E (conj Hx Hu)))).
Qed.

(** ** A foreign job that times out

    Its slot is never given back, so every later kick for this core is refused,
    and PeerKickWorker drops the refusal: the consumer hears nothing. *)
Definition foreign0 : peer_kick_params := PeerParams zero_bank sizeof_DENSE_BANK 1 [] 0 7.

Theorem foreign_timeout_wedges :
  exists S, disciplined env0 sys0 S /\ users S = [] /\
    forall wait j p, BankBytes p = sizeof_DENSE_BANK -> IovaSlotCount p <= RKMPP_MAX_DENSE_IOVA_SLOTS ->
      exists d, PeerKickWorker env0 wait (Some j) p (dev S) = Some (None, d).
Proof.
  destruct (run_holds env0 true
     [L_foreign_start foreign0 0x1000; L_kick 0x1000 0; L_foreign_finish 0x1000 true] sys0
     (fun S => bool_decide (slot 0 (qu (dev S)) = Some (Some 0x1000)) && bool_decide (users S = [])))
    as (T & Hr & H); [vm_compute; reflexivity|].
  rewrite andb_true_iff, !bool_decide_eq_true in H. destruct H as [Hs Hu].
  exists T. split; [exact (run_steps_disciplined _ _ _ _ Hr)|]. split; [exact Hu|]. intros wait j p Hb Hn.
  unfold PeerKickWorker, RkMppJobRunForeign. rewrite Hb. change (negb (_ =? _)) with false. cbv iota.
  destruct (Z.ltb_spec RKMPP_MAX_DENSE_IOVA_SLOTS (IovaSlotCount p)); [lia|].
  unfold foreign_start. set (d1 := (bump_id (dev T)) <| jobs ::= _ |>).
  change (slot 0 (qu d1)) with (slot 0 (qu (dev T))). rewrite Hs. ostep. unfold free_job.
  assert (E : jobs d1 !! j = Some ((foreign_job p) <| Id := NextId (qu (bump_id (dev T))) |>)) by apply lookup_insert_eq.
  rewrite E. ostep. eexists. reflexivity.
Qed.

(** ** A submission on a file that never allocated a buffer

    Its context still holds a null list head, which the lookup walks. *)
Theorem submit_before_alloc_faults :
  submit_locked 0 (sub0 1) (Some 0x1000) (dev (sys_init [JFile false (FileCtx [] 0 0 0)] 0)) = None.
Proof. vm_compute. reflexivity. Qed.
