(* ===== verification/JobProps.v ===== *)
(** * Properties of the job queue: safety, progress and admission

    What [src/driver/rkvdec/job.c] promises under any interleaving of its
    threads, and what a submission and a round of promotions do. *)

From S2P Require Import Prelude Mmio IommuMap BufPool JobQueue JobKick JobSys.
From S2P Require Import JobQueueFacts JobPromoteFacts JobSubmitFacts JobKickFacts JobWaitFacts.
From S2P Require Import JobSys JobSysSteps JobScenarios.

(** ** States of the sample device, for the witnesses *)
Definition after_steps (ls : list label) : sys := default sys0 (run_steps env0 true ls sys0).

Lemma after_steps_disc ls :
  is_found (run_steps env0 true ls sys0) = true -> disciplined env0 sys0 (after_steps ls).
Proof.
  unfold after_steps. destruct (run_steps env0 true ls sys0) as [T|] eqn:E; [|done]. intros _.
  exact (run_steps_disciplined _ _ _ _ E).
Qed.
Lemma after_steps_ok ls :
  is_found (run_steps env0 true ls sys0) = true ->
  queue_ok (sigs (dev (after_steps ls))) (qu (dev (after_steps ls))).
Proof.
  intros H. apply (disciplined_sinv env0 sys0); [apply sinv_init|by apply after_steps_disc].
Qed.

(** One job runs, two more wait. *)
Definition backlog : list label :=
  [ L_submit 0 (sub0 1) (Some 0x1000); L_kick 0x1000 0; L_read 0x1000;
    L_submit 1 (sub0 2) (Some 0x2000); L_read 0x2000;
    L_submit 0 (sub0 1) (Some 0x3000); L_read 0x3000 ].

(** ** Safety *)



(** ** Progress *)
Lemma promotes_length d ps d' :
  promotes d ps d' -> (length (Pending (qu d')) + length ps = length (Pending (qu d)))%nat.
Proof.
  induction 1 as [d|d j core d1 ps d2 Hst _ IH]; [simpl; lia|].
  destruct (promote_step_fields _ _ _ _ Hst) as (x & l1 & l2 & EP & _ & _ & EP1 & _).
  rewrite EP1, length_app in IH. rewrite EP, length_app. simpl. lia.
Qed.




(** ** Submission *)



(** ** Admission control *)
Definition owned_all (File : nat) (d : jdev) : Z :=
  count_owned File d (visible_inflight (qu d)) + count_owned File d (Pending (qu d)).

Lemma count_owned_app File d l1 l2 : count_owned File d (l1 ++ l2) = count_owned File d l1 + count_owned File d l2.
Proof. unfold count_owned. rewrite filter_app, length_app. lia. Qed.
Lemma count_owned_perm File d l1 l2 : l1 ≡ₚ l2 -> count_owned File d l1 = count_owned File d l2.
Proof. intros H. unfold count_owned. by rewrite H. Qed.
Lemma count_owned_ext File d d' l :
  (forall j, j ∈ l -> owned File d' j = owned File d j) -> count_owned File d' l = count_owned File d l.
Proof.
  induction l as [|j l IH]; intros H; [done|]. rewrite !count_owned_cons, IH, H; [done|by left|].
  intros k Hk. apply H. by right.
Qed.

Lemma promote_step_owned File d j core d' : promote_step d j core d' -> owned_all File d' = owned_all File d.
Proof.
  intros Hst. destruct (promote_step_fields _ _ _ _ Hst) as (x & l1 & l2 & EP & Hx & EI & EP' & _ & EC & EJ).
  destruct Hst as [Hc Hf _ _]. unfold owned_all.
  assert (Eo : forall k, owned File d' k = owned File d k).
  { intros k. unfold owned. rewrite EJ. destruct (decide (k = j)) as [->|].
    - by rewrite lookup_insert_eq, Hx.
    - by rewrite lookup_insert_ne. }
  rewrite !(count_owned_ext File d d') by auto. rewrite <- !count_owned_app. apply count_owned_perm.
  unfold visible_inflight. rewrite EC, EI, EP, EP'.
  assert (Hv : omap id (take (Z.to_nat (CoreCount (qu d))) (<[Z.to_nat core := Some j]> (InFlightPerCore (qu d))))
               ≡ₚ j :: omap id (take (Z.to_nat (CoreCount (qu d))) (InFlightPerCore (qu d)))).
  { rewrite take_insert_lt by lia. change (@id (option Z)) with (fun v : option Z => v).
    apply omap_fill. rewrite lookup_take_lt by lia. exact Hf. }
  rewrite Hv, <- Permutation_middle. simpl. by rewrite !Permutation_middle.
Qed.
Lemma promotes_owned File d ps d' : promotes d ps d' -> owned_all File d' = owned_all File d.
Proof. induction 1 as [|d j core d1 ps d2 Hst _ IH]; [done|]. rewrite IH. by eapply promote_step_owned. Qed.

Lemma enqueued_owned File j x d :
  queue_ok (sigs d) (qu d) -> jobs d !! j = None ->
  owned_all File (enqueued j x d) = owned_all File d + (if owned_by File x then 1 else 0).
Proof.
  intros Hok Hj. destruct (enqueued_fields j x d) as (EJ & EP & _ & _ & EI & EC & _). unfold owned_all.
  assert (Ev : visible_inflight (qu (enqueued j x d)) = visible_inflight (qu d)).
  { unfold visible_inflight. by rewrite EI, EC. }
  assert (Eo : forall k, k ∈ q_all (qu d) -> owned File (enqueued j x d) k = owned File d k).
  { intros k Hk. destruct (qo_live _ _ Hok k Hk) as [y Hy]. destruct (sigs_lookup _ _ _ Hy) as (z & Hz & _).
    unfold owned. rewrite EJ, lookup_insert_ne by congruence. done. }
  rewrite Ev, EP, count_owned_app, count_owned_cons.
  assert (owned File (enqueued j x d) j = owned_by File x) as -> by (unfold owned; by rewrite EJ, lookup_insert_eq).
  rewrite (count_owned_ext File d (enqueued j x d) (visible_inflight (qu d))),
    (count_owned_ext File d (enqueued j x d) (Pending (qu d))).
  - unfold count_owned at 3. simpl. lia.
  - intros k Hk. apply Eo. unfold q_all. apply elem_of_app. by left.
  - intros k Hk. apply Eo. unfold q_all. rewrite !elem_of_app. right; right.
    apply list_elem_of_omap in Hk as (v & Hv & E). apply list_elem_of_omap. exists v. split; [|done].
    apply list_elem_of_lookup in Hv as [c Hc]. apply lookup_take_Some in Hc as [Hc _].
    by eapply list_elem_of_lookup_2.
Qed.

(** The two caps.  A submission is accepted only with fewer than eight jobs
    pending on the device and fewer than four of the file's pending or in flight;
    afterwards at most eight are pending, the file has exactly one more than before,
    so at most four, and the count of every other file is what it was. *)
Theorem admission_caps File c i a_job d j ps d' :
  queue_ok (sigs d) (qu d) -> jfiles d !! File = Some (JFile true c) ->
  (forall j, a_job = Some j -> jobs d !! j = None) -> bank_ok (InBank i) -> NextId (qu d) + 1 < 2 ^ 64 ->
  submit_locked File i a_job d = Some (inr (j, ps), d') ->
  Z.of_nat (length (Pending (qu d))) < RKMPP_MAX_PENDING_JOBS /\
  Z.of_nat (length (Pending (qu d'))) <= RKMPP_MAX_PENDING_JOBS /\
  owned_all File d' = owned_all File d + 1 /\ owned_all File d' <= RKMPP_MAX_PENDING_JOBS_PER_FILE /\
  (forall f, f <> File -> owned_all f d' = owned_all f d).
Proof.
  intros Hok Hf Hfr Hb Hn Hs. pose proof (submit_locked_outcome File c i a_job d Hok Hf Hfr Hb Hn) as H.
  cbv zeta in H. destruct (NT_SUCCESS (submit_status File c i a_job d)) eqn:E; [|congruence].
  destruct H as (j' & x & ps' & d1 & Ej & E1 & Hx & Hps & _). rewrite Hs in E1. injection E1 as <- <- <-.
  assert (Hfull : full_at (Z.of_nat (length (Pending (qu d)))) (owned_all File d) = false).
  { unfold submit_status, owned_all in *.
    destruct (_ || _); [done|]. destruct (Z.land _ _ =? 0); [done|]. destruct (is_none a_job); [done|].
    destruct (NT_SUCCESS (slots_status c (in_slots i))) eqn:E2; simpl negb in E; cbv iota in E.
    - by destruct (full_at _ _).
    - by rewrite E2 in E. }
  unfold full_at in Hfull. apply orb_false_iff in Hfull as [H1 H2]. rewrite Z.leb_gt in H1, H2.
  pose proof (promotes_length _ _ _ Hps) as Hl.
  destruct (enqueued_fields j x d) as (_ & EP & _). rewrite EP, length_app in Hl. simpl in Hl.
  split; [done|]. split; [lia|].
  assert (Ho : forall f, owned_all f d' = owned_all f d + (if owned_by f x then 1 else 0)).
  { intros f. rewrite (promotes_owned f _ _ _ Hps). apply enqueued_owned; auto. }
  unfold owned_by in Ho. rewrite (sb_owner _ _ _ _ _ Hx) in Ho.
  pose proof (Ho File) as HF. rewrite bool_decide_eq_true_2 in HF by done.
  unfold RKMPP_MAX_PENDING_JOBS_PER_FILE in *. split; [exact HF|]. split; [lia|].
  intros f Hne. rewrite Ho, bool_decide_eq_false_2 by congruence. lia.
Qed.

Lemma admission_caps_witness :
  let d := dev (after_steps backlog) in
  let d' := match submit_locked 1 (sub0 2) (Some 0x4000) d with Some (_, d') => d' | None => d end in
  Z.of_nat (length (Pending (qu d))) < RKMPP_MAX_PENDING_JOBS /\
  Z.of_nat (length (Pending (qu d'))) <= RKMPP_MAX_PENDING_JOBS /\
  owned_all 1 d' = owned_all 1 d + 1 /\ owned_all 1 d' <= RKMPP_MAX_PENDING_JOBS_PER_FILE /\
  (forall f, f <> 1%nat -> owned_all f d' = owned_all f d).
Proof.
  apply (admission_caps 1 (f_ctx (file0 2)) (sub0 2) (Some 0x4000) _ 0x4000 []).
  - apply after_steps_ok. vm_compute. reflexivity.
  - vm_compute. reflexivity.
  - intros j [= <-]. vm_compute. reflexivity.
  - repeat split.
  - vm_compute. reflexivity.
  - vm_compute. reflexivity.
Defined.

(** ** Fairness *)

(** A round of promotions is fair.  PromoteUntilFull fills idle cores, each time
    with a job whose file has the oldest last kick (the first such on the list), and
    stops only when nothing is pending or no core is idle.  When one round starts
    two jobs of the same file, every other file with a job waiting has been served
    since: its last kick, as the table stands after the first of the two, is at
    least as recent as that first job. *)
Theorem promotion_fair d :
  queue_ok (sigs d) (qu d) -> OwnerLru (qu d) <> [] ->
  exists ps d', PromoteUntilFull d = Some (ps, d') /\ promotes d ps d' /\
    (Pending (qu d') = [] \/ all_busy (qu d')) /\
    forall j1 c1 j2 c2 rest x1 x2 k y A,
      ps = (j1, c1) :: (j2, c2) :: rest -> jobs d !! j1 = Some x1 -> jobs d !! j2 = Some x2 ->
      Owner x1 = Some A -> Owner x2 = Some A ->
      k ∈ Pending (qu d) -> jobs d !! k = Some y -> Owner y <> Some A ->
      Id x1 <= lru_score (lru_upsert (Some A) (Id x1) (OwnerLru (qu d))) (Owner y).
Proof.
  intros Hok Hne. destruct (promote_until_full_outcome d Hok) as (ps & d' & E & Hps & Hs).
  exists ps, d'. split; [done|]. split; [done|]. split; [done|].
  intros j1 c1 j2 c2 rest x1 x2 k y A -> H1 H2 O1 O2 Hk Hy Oy.
  inversion Hps as [|? ? ? d1 ? ? Hst1 Hps1]; subst. inversion Hps1 as [|? ? ? d2 ? ? Hst2 _]; subst.
  pose proof (promote_step_lru _ _ _ _ _ Hst1 H1) as EL. rewrite O1 in EL.
  destruct (promote_step_fields _ _ _ _ Hst1) as (x & l1 & l2 & EP & Hx & _ & EP1 & _ & _ & EJ).
  assert (x = x1) as -> by congruence. destruct Hst2 as [_ _ _ (x2' & m1 & m2 & EP2 & Hx2 & [F1 F2] & _)].
  assert (Hj : forall i z, jobs d !! i = Some z -> exists t, jobs d1 !! i = Some (z <| TargetCore := t |>)).
  { intros i z Hz. rewrite EJ. destruct (decide (i = j1)) as [->|].
    - rewrite lookup_insert_eq. assert (z = x1) as -> by congruence. eauto.
    - rewrite lookup_insert_ne by done. exists (TargetCore z). rewrite Hz. by destruct z. }
  assert (Hk1 : k ∈ m1 ++ j2 :: m2).
  { rewrite <- EP2, EP1. rewrite EP in Hk. rewrite elem_of_app, elem_of_cons in Hk. rewrite elem_of_app.
    destruct Hk as [?|[->|?]]; [by left| |by right]. congruence. }
  destruct (Hj k y Hy) as [t Hkt], (Hj j2 x2 H2) as [t2 Hjt].
  assert (Ek : score d1 k = lru_score (OwnerLru (qu d1)) (Owner y)) by (unfold score; by rewrite Hkt).
  assert (Ej : score d1 j2 = Id x1).
  { unfold score. rewrite Hjt. change (Owner (x2 <| TargetCore := t2 |>)) with (Owner x2).
    rewrite O2, EL. by apply lru_score_upsert. }
  rewrite EL in Ek. rewrite <- Ek, <- Ej. apply elem_of_app in Hk1 as [Hk1|[->|Hk1]%elem_of_cons].
  - specialize (F1 k Hk1). lia.
  - lia.
  - auto.
Qed.

Lemma promotion_fair_witness :
  let d := dev (after_steps backlog) in
  exists ps d', PromoteUntilFull d = Some (ps, d') /\ promotes d ps d' /\
    (Pending (qu d') = [] \/ all_busy (qu d')).
Proof.
  destruct (promotion_fair (dev (after_steps backlog))) as (ps & d' & E & H & Hs & _).
  - apply after_steps_ok. vm_compute. reflexivity.
  - vm_compute. discriminate.
  - exists ps, d'. exact (conj E (conj H Hs)).
Defined.

(** ** The choice of a core *)

(** The core to kick: with both cores idle the other one than last time (core 0
    the first time), else the idle one, [-1] when there is none. *)
Definition core_choice (q : queue) : Z :=
  let idle c := bool_decide (Z.of_nat c < CoreCount q) &&
                match InFlightPerCore q !! c with Some None => true | _ => false end in
  match idle 0%nat, idle 1%nat with
  | true, true => if LastKickCore q =? 0 then 1 else 0
  | true, false => 0
  | false, true => 1
  | false, false => -1
  end.

(** PickTargetCore, with its masks and counts, is [core_choice]: the in-flight
    counts never separate two idle cores, and a serial submitter alternates. *)
Theorem pick_core_alternates q : core_ok q -> PickTargetCore q = Some (core_choice q).
Proof.
  intros H. unfold PickTargetCore, core_choice, cores, all_idle_mask, pick_core_step. unfold core_ok in H.
  set (l := LastKickCore q). clearbody l.
  revert H. generalize (CoreCount q) as n, (CoreIdle q) as m, (CorePending q) as pe, (InFlightPerCore q) as sl.
  clear q. intros n m pe sl H. open_cores H.
  destruct Hn as [-> | ->]; [clear I1|pose proof (I1 ltac:(lia)) as J1; clear I1];
    mask_case Hm; cbn in I0; destruct v0; try discriminate I0;
    try (cbn in J1; destruct v1; try discriminate J1);
    cbn -[Z.ltb Z.eqb] in *; repeat match goal with
    | H : 0 <= ?x <= 0 |- _ => assert (x = 0) as -> by lia; clear H
    end.
  all: destruct l as [|[p|p|]|p]; vm_compute; reflexivity.
Qed.

Lemma pick_core_alternates_witness :
  PickTargetCore (qu (dev (after_steps two_cores))) = Some (-1) /\
  PickTargetCore (qu (dev (after_steps [L_attach ready]))) = Some (core_choice (qu (dev (after_steps [L_attach ready])))).
Proof.
  split; [vm_compute; reflexivity|].
  apply (pick_core_alternates (qu (dev (after_steps [L_attach ready])))).
  apply (after_steps_ok [L_attach ready]). vm_compute. reflexivity.
Defined.
