(* ===== verification/JobHwProps.v ===== *)
(** * Properties of the job queue: the hardware, buffers, waiting and draining

    What a kick writes, what a completion records and owes, and which buffers a job
    keeps from being freed. *)

From Stdlib Require Import Sorted.
From S2P Require Import Prelude Mmio IommuMap BufPool JobQueue JobKick JobSys.
From S2P Require Import JobQueueFacts JobPromoteFacts JobSubmitFacts JobKickFacts JobWaitFacts.
From S2P Require Import JobSys JobSysSteps JobScenarios JobProps.
From S2P Require Import BufPoolIommu BufPoolProps.

(** ** The registers a kick writes *)

(** The value the dense bank holds for a register, if it covers it. *)
Definition in_bank (first words i : Z) : bool := (first <=? i) && (i <? first + words).
Definition bank_reg (b : dense_bank) (i : Z) : option Z :=
  if in_bank RKMPP_DENSE_COMMON_FIRST RKMPP_DENSE_COMMON_WORDS i
  then Common b !! Z.to_nat (i - RKMPP_DENSE_COMMON_FIRST)
  else if in_bank RKMPP_DENSE_CPARAM_FIRST RKMPP_DENSE_CPARAM_WORDS i
  then CodecParams b !! Z.to_nat (i - RKMPP_DENSE_CPARAM_FIRST)
  else if in_bank RKMPP_DENSE_CADDR_FIRST RKMPP_DENSE_CADDR_WORDS i
  then CommonAddr b !! Z.to_nat (i - RKMPP_DENSE_CADDR_FIRST)
  else if in_bank RKMPP_DENSE_CODADDR_FIRST RKMPP_DENSE_CODADDR_WORDS i
  then CodecAddr b !! Z.to_nat (i - RKMPP_DENSE_CODADDR_FIRST)
  else if in_bank RKMPP_DENSE_HIPOC_FIRST RKMPP_DENSE_HIPOC_WORDS i
  then HighPoc b !! Z.to_nat (i - RKMPP_DENSE_HIPOC_FIRST)
  else if in_bank RKMPP_DENSE_STAT_FIRST RKMPP_DENSE_STAT_WORDS i
  then Stat b !! Z.to_nat (i - RKMPP_DENSE_STAT_FIRST)
  else None.

Lemma in_bank_in first words i : first <= i < first + words -> in_bank first words i = true.
Proof. intros H. unfold in_bank. apply andb_true_iff. rewrite Z.leb_le, Z.ltb_lt. lia. Qed.
Lemma in_bank_out first words i : i < first \/ first + words <= i -> in_bank first words i = false.
Proof. intros H. unfold in_bank. apply andb_false_iff. rewrite Z.leb_gt, Z.ltb_ge. lia. Qed.

Lemma words_log_spec i src off v :
  Mm (Wr off v) ∈ words_log i src <->
  exists p, src !! p = Some v /\ i + Z.of_nat p <> RKMPP_DENSE_KICK_REG_IDX /\
    off = (i + Z.of_nat p) * 4 + RKVDEC2_SWREG_BASE.
Proof.
  revert i. induction src as [|w src IH]; intros i; simpl.
  - split; [by intros ?%elem_of_nil|]. by intros (p & ? & _).
  - rewrite elem_of_app, IH. unfold word_log. split.
    + intros [H|(p & Hp & Hk & ->)].
      * destruct (Z.eqb_spec i RKMPP_DENSE_KICK_REG_IDX); [by apply elem_of_nil in H|].
        apply list_elem_of_singleton in H. injection H as -> ->. exists 0%nat.
        rewrite Z.add_0_r. done.
      * exists (S p). replace (i + Z.of_nat (S p)) with (i + 1 + Z.of_nat p) by lia. done.
    + intros ([|p] & Hp & Hk & ->).
      * left. injection Hp as ->. rewrite Z.add_0_r in *. destruct (Z.eqb_spec i RKMPP_DENSE_KICK_REG_IDX); [done|].
        by apply list_elem_of_singleton.
      * right. exists p. replace (i + 1 + Z.of_nat p) with (i + Z.of_nat (S p)) by lia. done.
Qed.

(** A bank of the table whose registers are apart from those looked up before it. *)
Ltac dense_nums := unfold RKMPP_DENSE_COMMON_FIRST, RKMPP_DENSE_COMMON_WORDS, RKMPP_DENSE_CPARAM_FIRST,
  RKMPP_DENSE_CPARAM_WORDS, RKMPP_DENSE_CADDR_FIRST, RKMPP_DENSE_CADDR_WORDS, RKMPP_DENSE_CODADDR_FIRST,
  RKMPP_DENSE_CODADDR_WORDS, RKMPP_DENSE_HIPOC_FIRST, RKMPP_DENSE_HIPOC_WORDS, RKMPP_DENSE_STAT_FIRST,
  RKMPP_DENSE_STAT_WORDS in *.

Lemma bank_log_spec b off v :
  bank_ok b ->
  Mm (Wr off v) ∈ bank_log b <->
  exists i, off = i * 4 + RKVDEC2_SWREG_BASE /\ i <> RKMPP_DENSE_KICK_REG_IDX /\ bank_reg b i = Some v.
Proof.
  intros (L1 & L2 & L3 & L4 & L5 & L6). unfold bank_log. rewrite !elem_of_app, !words_log_spec. split.
  - intros H. repeat (destruct H as [H|H]); destruct H as (p & Hp & Hk & ->);
      pose proof (lookup_lt_Some _ _ _ Hp); (eexists; split; [reflexivity|]; split; [exact Hk|]);
      unfold bank_reg; dense_nums;
      repeat (rewrite in_bank_out by lia); rewrite in_bank_in by lia;
      rewrite <- Hp; f_equal; lia.
  - intros (i & -> & Hk & Hr). unfold bank_reg in Hr.
    assert (G : forall first words (src : list Z),
      in_bank first words i = true -> src !! Z.to_nat (i - first) = Some v ->
      exists p, src !! p = Some v /\ first + Z.of_nat p <> RKMPP_DENSE_KICK_REG_IDX /\
        i * 4 + RKVDEC2_SWREG_BASE = (first + Z.of_nat p) * 4 + RKVDEC2_SWREG_BASE).
    { intros first words src Hi Hs. unfold in_bank in Hi. apply andb_true_iff in Hi as [Hi _].
      apply Z.leb_le in Hi. exists (Z.to_nat (i - first)). split; [done|].
      replace (first + Z.of_nat (Z.to_nat (i - first))) with i by lia. done. }
    repeat match type of Hr with (if ?c then _ else _) = _ => destruct c eqn:?; [eauto 8|] end. done.
Qed.

(** Register offsets in the order they are written. *)
Definition write_offs (l : list effect) : list Z :=
  omap (fun a => match a with Mm (Wr off _) => Some off | _ => None end) l.

Lemma write_offs_app l1 l2 : write_offs (l1 ++ l2) = write_offs l1 ++ write_offs l2.
Proof. apply omap_app. Qed.

Definition between (lo hi : Z) (l : list Z) : Prop := Forall (fun o => lo <= o < hi) l.
Lemma ascending_app lo mid hi l1 l2 :
  StronglySorted Z.lt l1 -> between lo mid l1 -> StronglySorted Z.lt l2 -> between mid hi l2 -> lo <= mid <= hi ->
  StronglySorted Z.lt (l1 ++ l2) /\ between lo hi (l1 ++ l2).
Proof.
  intros S1 B1 S2 B2 Hm. unfold between in *. split.
  - induction S1 as [|x l1 S1 IH Hx]; simpl; [done|]. apply Forall_cons in B1 as [Hx1 B1].
    constructor; [by apply IH|]. apply Forall_app. split; [done|]. eapply Forall_impl; [exact B2|]. simpl. lia.
  - apply Forall_app. split; (eapply Forall_impl; [eassumption|]); simpl; lia.
Qed.

Lemma words_log_ascending i src :
  StronglySorted Z.lt (write_offs (words_log i src)) /\
  between (i * 4 + RKVDEC2_SWREG_BASE) ((i + Z.of_nat (length src)) * 4 + RKVDEC2_SWREG_BASE)
    (write_offs (words_log i src)).
Proof.
  revert i. induction src as [|v src IH]; intros i; simpl; [split; constructor|].
  rewrite write_offs_app. destruct (IH (i + 1)) as [S1 B1].
  assert (H : StronglySorted Z.lt (write_offs (word_log i v)) /\
              between (i * 4 + RKVDEC2_SWREG_BASE) ((i + 1) * 4 + RKVDEC2_SWREG_BASE) (write_offs (word_log i v))).
  { unfold word_log. destruct (_ =? _); simpl; split; repeat constructor; lia. }
  replace (i + Z.of_nat (S (length src))) with (i + 1 + Z.of_nat (length src)) by lia.
  apply (ascending_app _ ((i + 1) * 4 + RKVDEC2_SWREG_BASE)); try tauto. lia.
Qed.

Lemma between_weaken lo hi lo' hi' l : between lo hi l -> lo' <= lo -> hi <= hi' -> between lo' hi' l.
Proof. intros H ? ?. eapply Forall_impl; [exact H|]. simpl. lia. Qed.

Lemma bank_log_ascending b : bank_ok b -> StronglySorted Z.lt (write_offs (bank_log b)).
Proof.
  intros (L1 & L2 & L3 & L4 & L5 & L6). unfold bank_log. rewrite !write_offs_app.
  assert (G : forall i src lo hi, lo = i * 4 + RKVDEC2_SWREG_BASE ->
     (i + Z.of_nat (length src)) * 4 + RKVDEC2_SWREG_BASE <= hi ->
     StronglySorted Z.lt (write_offs (words_log i src)) /\ between lo hi (write_offs (words_log i src))).
  { intros i src lo hi -> Hh. destruct (words_log_ascending i src) as [S B]. split; [exact S|].
    eapply between_weaken; [exact B|lia|exact Hh]. }
  destruct (G RKMPP_DENSE_STAT_FIRST (Stat b) 0x500 0x600 eq_refl) as [S6 B6]; [rewrite L6; done|].
  destruct (G RKMPP_DENSE_HIPOC_FIRST (HighPoc b) 0x420 0x500 eq_refl) as [S5 B5]; [rewrite L5; done|].
  destruct (G RKMPP_DENSE_CODADDR_FIRST (CodecAddr b) 0x380 0x420 eq_refl) as [S4 B4]; [rewrite L4; done|].
  destruct (G RKMPP_DENSE_CADDR_FIRST (CommonAddr b) 0x300 0x380 eq_refl) as [S3 B3]; [rewrite L3; done|].
  destruct (G RKMPP_DENSE_CPARAM_FIRST (CodecParams b) 0x200 0x300 eq_refl) as [S2 B2]; [rewrite L2; done|].
  destruct (G RKMPP_DENSE_COMMON_FIRST (Common b) 0x120 0x200 eq_refl) as [S1 B1]; [rewrite L1; done|].
  destruct (ascending_app _ _ _ _ _ S5 B5 S6 B6) as [T5 C5]; [lia|].
  destruct (ascending_app _ _ _ _ _ S4 B4 T5 C5) as [T4 C4]; [lia|].
  destruct (ascending_app _ _ _ _ _ S3 B3 T4 C4) as [T3 C3]; [lia|].
  destruct (ascending_app _ _ _ _ _ S2 B2 T3 C3) as [T2 C2]; [lia|].
  by destruct (ascending_app _ _ _ _ _ S1 B1 T2 C2) as [T1 _]; [lia|].
Qed.

(** ** Kicks *)

(** C7: a kick programs the whole bank and starts the hardware last.  With the
    register window in place the log grows by the reset the device owes, the clock
    ungate, the clear of the status register and the cache set-up, the flushes of
    the input buffers, the bank, the TLB flush and the kick register, in this
    order.  The writes of the bank are exactly the registers it covers except the
    kick register, each once, in ascending order, with the bank's value; and the
    queue and the pool are untouched. *)
Theorem kick_programs_bank e j d x :
  queue_ok (sigs d) (qu d) -> jobs d !! j = Some x -> MmioBase e = true -> 0x558 <= MmioLength e ->
  flag (DenseKickValue x) RKVDEC2_REG_DEC_E_BIT = true ->
  exists d', JobKickLocalInner e j d = Some d' /\ quiet d d' /\
    devlog d' = devlog d ++ (reset_log e d ++ ccu_log e has_UngateLeafClocks [UngateLeafClocks] ++
        [Mm (Wr RKVDEC2_INT_STATUS_OFFSET 0)] ++ cache_log e) ++
      map FlushIo (CleanMdls x) ++ bank_log (DenseBank x) ++ iommu_log e has_FlushTlb IommuFlushTlb ++
      [Mm (Wr kickByte (DenseKickValue x))] /\
    (forall off v, Mm (Wr off v) ∈ bank_log (DenseBank x) <->
       exists i, off = i * 4 + RKVDEC2_SWREG_BASE /\ i <> RKMPP_DENSE_KICK_REG_IDX /\
                 bank_reg (DenseBank x) i = Some v) /\
    StronglySorted Z.lt (write_offs (bank_log (DenseBank x))).
Proof.
  intros Hok Hx Hb Hl Hf. destruct (kick_outcome e j d x Hok Hx) as (d1 & H). rewrite Hb, Hf in H.
  destruct (Z.eqb_spec (MmioLength e) 0); [lia|]. destruct (Z.leb_spec 0x558 (MmioLength e)); [|lia].
  simpl in H. destruct H as [Hk E].
  assert (Hbk : bank_ok (DenseBank x)) by exact (qo_bank _ _ Hok _ _ (lookup_sigs _ _ _ Hx)).
  exists d1. split; [exact E|]. split; [apply Hk|]. split; [exact (kk_log _ _ _ _ _ Hk)|].
  split; [intros off v; by apply bank_log_spec|by apply bank_log_ascending].
Qed.

Definition kicked_once : sys := after_steps [L_submit 0 (sub0 1) (Some 0x1000)].
Lemma kicked_once_ok : queue_ok (sigs (dev kicked_once)) (qu (dev kicked_once)).
Proof. apply after_steps_ok. vm_compute. reflexivity. Qed.

Lemma kick_programs_bank_witness :
  exists x d', jobs (dev kicked_once) !! 0x1000 = Some x /\
    JobKickLocalInner env0 0x1000 (dev kicked_once) = Some d' /\ quiet (dev kicked_once) d' /\
    StronglySorted Z.lt (write_offs (bank_log (DenseBank x))).
Proof.
  destruct (jobs (dev kicked_once) !! 0x1000) as [x|] eqn:E; [|vm_compute in E; discriminate E].
  destruct (kick_programs_bank env0 0x1000 (dev kicked_once) x kicked_once_ok E) as (d' & E' & H & _ & _ & S').
  - reflexivity.
  - vm_compute. discriminate.
  - assert (F : (flag (from_option DenseKickValue 0 (jobs (dev kicked_once) !! 0x1000)) RKVDEC2_REG_DEC_E_BIT) = true)
      by (vm_compute; reflexivity).
    rewrite E in F. exact F.
  - exists x, d'. exact (conj eq_refl (conj E' (conj H S'))).
Defined.

(** No register of the bank is written before the bank itself. *)
Lemma prefix_no_bank e d b i v w :
  bank_reg b i = Some w -> Mm (Wr (i * 4 + RKVDEC2_SWREG_BASE) v) ∉ kick_prefix e d.
Proof.
  intros Hr. assert (Hi : 8 <= i < 113 \/ 128 <= i < 143 \/ 160 <= i < 205 \/ 256 <= i < 278).
  { unfold bank_reg in Hr.
    repeat match type of Hr with (if in_bank ?f ?w i then _ else _) = _ =>
      destruct (in_bank f w i) eqn:E; [unfold in_bank in E; apply andb_true_iff in E;
        rewrite Z.leb_le, Z.ltb_lt in E; dense_nums; lia|clear E] end. done. }
  unfold kick_prefix. rewrite !elem_of_app.
  assert (Hc : forall has ops, Mm (Wr (i * 4 + RKVDEC2_SWREG_BASE) v) ∉ ccu_log e has ops).
  { intros has ops. unfold ccu_log. destruct (CcuIfc e); [|by intros ?%elem_of_nil].
    destruct (_ && _); [|by intros ?%elem_of_nil]. by intros (? & ? & _)%list_elem_of_fmap. }
  assert (Hm : forall has op, Mm (Wr (i * 4 + RKVDEC2_SWREG_BASE) v) ∉ iommu_log e has op).
  { intros has op. unfold iommu_log. destruct (IommuIfc e) as [ifc|]; [|by intros ?%elem_of_nil].
    destruct (has ifc); [|by intros ?%elem_of_nil]. by intros ?%list_elem_of_singleton. }
  unfold RKVDEC2_INT_STATUS_OFFSET, RKVDEC2_SWREG_BASE in *. intros [H|[H|[H|H]]].
  - revert H. unfold reset_log. destruct (negb _); [rewrite !elem_of_app|].
    + intros [H|[H|H]]; [by apply Hm in H|by apply Hc in H|by apply Hm in H].
    + destruct (negb _); [apply Hc|by intros ?%elem_of_nil].
  - by apply Hc in H.
  - apply list_elem_of_singleton in H. injection H as H _. lia.
  - unfold cache_log in H. destruct (_ <=? _); [|by apply elem_of_nil in H]. simpl in H.
    repeat (apply elem_of_cons in H as [H|H]; [injection H as H _; unfold RKVDEC2_SWREG_BASE in H; lia|]).
    by apply elem_of_nil in H.
Qed.

(** A kick that cannot be programmed leaves the hardware alone.  Without a
    register window nothing is written; with one too short for the bank the owed
    reset and the set-up are done but no register of the bank, the kick register
    included, is written; either way the job in the local slot completes with the
    failure. *)
Theorem kick_never_half_programs e j d x :
  queue_ok (sigs d) (qu d) -> jobs d !! j = Some x -> InFlightPerCore (qu d) !! 0%nat = Some (Some j) ->
  MmioBase e = false \/ MmioLength e < 0x558 ->
  exists st l d1 y d', JobKickLocalInner e j d = Some d' /\ quiet d d1 /\ devlog d1 = devlog d ++ l /\
    completes e st 0 d1 j y d' /\ NT_SUCCESS st = false /\
    st = (if negb (MmioBase e) || (MmioLength e =? 0) then STATUS_DEVICE_NOT_READY else STATUS_INVALID_PARAMETER) /\
    (forall i v w, bank_reg (DenseBank x) i = Some w -> Mm (Wr (i * 4 + RKVDEC2_SWREG_BASE) v) ∉ l).
Proof.
  intros Hok Hx H0 Hw. destruct (kick_outcome e j d x Hok Hx) as (d1 & H).
  assert (HC : forall st, quiet d d1 -> exists y d', RkMppJobComplete e st 0 d1 = Some d' /\ completes e st 0 d1 j y d').
  { intros st Hq. assert (Ei : InFlightPerCore (qu d1) = InFlightPerCore (qu d)).
    { destruct Hq as [_ Hq]. unfold qview in Hq. by injection Hq as _ _ _ _ _ _ E _ _ _ _. }
    destruct (complete_outcome e st 0 d1 (queue_ok_quiet _ _ Hq Hok)) as [[Hn _]|(k & y & d' & E & Hc)].
    - rewrite Ei, H0 in Hn. done.
    - pose proof (cp_slot _ _ _ _ _ _ _ Hc) as Hs. rewrite Ei, H0 in Hs. injection Hs as <-. eauto. }
  destruct (negb (MmioBase e) || (MmioLength e =? 0)) eqn:Em.
  - destruct H as [Hk ->]. destruct (HC STATUS_DEVICE_NOT_READY (kk_quiet _ _ _ _ _ Hk)) as (y & d' & -> & Hc).
    exists STATUS_DEVICE_NOT_READY, [], d1, y, d'. split; [done|]. split; [apply Hk|].
    split; [exact (kk_log _ _ _ _ _ Hk)|]. split; [done|]. split; [done|]. split; [done|].
    intros i v w _. apply not_elem_of_nil.
  - apply orb_false_iff in Em as [Eb El]. apply negb_false_iff in Eb. apply Z.eqb_neq in El.
    destruct (Z.leb_spec 0x558 (MmioLength e)); simpl negb in H; cbv iota in H.
    { exfalso. destruct Hw; [congruence|lia]. }
    destruct H as [Hk ->]. destruct (HC STATUS_INVALID_PARAMETER (kk_quiet _ _ _ _ _ Hk)) as (y & d' & -> & Hc).
    exists STATUS_INVALID_PARAMETER, (kick_prefix e d), d1, y, d'. split; [done|]. split; [apply Hk|].
    split; [exact (kk_log _ _ _ _ _ Hk)|]. split; [done|]. split; [done|]. split; [done|].
    intros i v w Hr. by eapply prefix_no_bank.
Qed.

Definition env_short : env := Env true 0x500 0 None None.
Lemma kick_never_half_programs_witness :
  exists x st l d1 y d', jobs (dev kicked_once) !! 0x1000 = Some x /\
    JobKickLocalInner env_short 0x1000 (dev kicked_once) = Some d' /\ quiet (dev kicked_once) d1 /\
    devlog d1 = devlog (dev kicked_once) ++ l /\ completes env_short st 0 d1 0x1000 y d' /\ NT_SUCCESS st = false.
Proof.
  destruct (jobs (dev kicked_once) !! 0x1000) as [x|] eqn:E; [|vm_compute in E; discriminate E].
  destruct (kick_never_half_programs env_short 0x1000 (dev kicked_once) x kicked_once_ok E)
    as (st & l & d1 & y & d' & H1 & H2 & H3 & H4 & H5 & _).
  - vm_compute. reflexivity.
  - right. vm_compute. reflexivity.
  - exists x, st, l, d1, y, d'. exact (conj eq_refl (conj H1 (conj H2 (conj H3 (conj H4 H5))))).
Defined.

(** ** Completion *)
Definition stuck (res : NTSTATUS) (hw : Z) : bool :=
  flag hw RKVDEC2_INT_DEC_TIMEOUT_STA || (res =? STATUS_IO_TIMEOUT).
Definition wide_log (e : env) : list effect :=
  iommu_log e has_Disable IommuDisable ++ ccu_log e has_FullCoreReset [FullCoreReset] ++
  iommu_log e has_Enable IommuEnable.
Definition narrow_log (e : env) : list effect :=
  ccu_log e has_CoreReset [AssertCoreReset; DeassertCoreReset].

Lemma charge_flags o d :
  NeedsFullReset (charge_error o d) = NeedsFullReset d /\ NeedsCoreReset (charge_error o d) = NeedsCoreReset d /\
  LastJobFailed (charge_error o d) = LastJobFailed d.
Proof. by destruct o. Qed.

Lemma classify_flags res hw o d :
  NeedsFullReset (classify res hw o d) = (if job_failed res hw && stuck res hw then 1 else NeedsFullReset d) /\
  NeedsCoreReset (classify res hw o d)
  = (if job_failed res hw && negb (stuck res hw) then 1 else NeedsCoreReset d) /\
  LastJobFailed (classify res hw o d) = (if job_failed res hw then 1 else 0).
Proof.
  unfold classify, stuck. destruct (job_failed res hw); [|done].
  destruct (flag hw RKVDEC2_INT_DEC_TIMEOUT_STA || (res =? STATUS_IO_TIMEOUT));
    by destruct (charge_flags o) with (d := d), o.
Qed.

(** C9: a completion does its bookkeeping and no more.  With nothing in flight it
    changes nothing.  Otherwise the slot is given back; a job abandoned and pinned
    by nobody is freed, any other goes to the tail of the completed list with its
    result, the status word, the time and its event set; every other job and the
    pending list stay; the worker is told to run when something is pending; and the
    reset owed at the next kick is the wide one after a hang, the narrow one after
    another error (unless a wide one was owed already), and unchanged after a
    success. *)
Theorem completion_exact e res hw d :
  queue_ok (sigs d) (qu d) ->
  (InFlightPerCore (qu d) !! 0%nat = Some None /\ RkMppJobComplete e res hw d = Some d) \/
  exists j x d', InFlightPerCore (qu d) !! 0%nat = Some (Some j) /\ jobs d !! j = Some x /\
    RkMppJobComplete e res hw d = Some d' /\ queue_ok (sigs d') (qu d') /\
    InFlightPerCore (qu d') = <[0%nat := None]> (InFlightPerCore (qu d)) /\ Pending (qu d') = Pending (qu d) /\
    (if frees_here x then jobs d' = delete j (jobs d) /\ Completed (qu d') = Completed (qu d)
     else jobs d' = <[j := finished res hw (qpc d) x]> (jobs d) /\ Completed (qu d') = Completed (qu d) ++ [j]) /\
    (Pending (qu d) <> [] -> KickRearm (qu d') = true /\ KickActive (qu d') = true) /\
    reset_log e d' = (if job_failed res hw
                      then if stuck res hw || negb (NeedsFullReset d =? 0) then wide_log e else narrow_log e
                      else reset_log e d).
Proof.
  intros Hok. destruct (complete_outcome e res hw d Hok) as [H|(j & x & d' & E & Hc)]; [by left|right].
  exists j, x, d'. split; [apply Hc|]. split; [apply Hc|]. split; [done|]. split; [by eapply completes_ok|].
  pose proof (cp_qu _ _ _ _ _ _ _ Hc) as Q. cbv zeta in Q.
  set (q0 := if frees_here x then qu d else to_completed j (qu d)) in *.
  assert (H0 : Pending q0 = Pending (qu d) /\ InFlightPerCore q0 = InFlightPerCore (qu d) /\
               Completed q0 = if frees_here x then Completed (qu d) else Completed (qu d) ++ [j])
    by (subst q0; by destruct (frees_here x)).
  destruct H0 as (P0 & I0 & C0).
  assert (HV : InFlightPerCore (qu d') = <[0%nat := None]> (InFlightPerCore (qu d)) /\
               Pending (qu d') = Pending (qu d) /\ Completed (qu d') = Completed q0 /\
               (wants_kick (qu d) = true -> KickRearm (qu d') = true /\ KickActive (qu d') = true)).
  { rewrite <- I0, <- P0. destruct (wants_kick (qu d)); unfold qview in Q;
      injection Q as -> -> _ _ _ _ -> _ HA HR _; (split; [done|]); (split; [done|]); (split; [done|]); [|done].
    intros _. by rewrite HA, HR. }
  destruct HV as (HI & HP & HC & HK). split; [exact HI|]. split; [exact HP|]. split; [|split].
  - rewrite HC, C0, (cp_jobs _ _ _ _ _ _ _ Hc). by destruct (frees_here x).
  - intros Hp. apply HK. unfold wants_kick. by destruct (Pending (qu d)).
  - unfold reset_log, wide_log, narrow_log.
    rewrite (cp_full _ _ _ _ _ _ _ Hc), (cp_core _ _ _ _ _ _ _ Hc).
    destruct (classify_flags res hw (Owner x) d) as (-> & -> & _).
    destruct (job_failed res hw), (stuck res hw), (NeedsFullReset d =? 0) eqn:E0; simpl; rewrite ?E0; done.
Qed.

Lemma completion_exact_witness :
  exists d', RkMppJobComplete env0 STATUS_DEVICE_HARDWARE_ERROR 0x20 (dev kicked_once) = Some d' /\
    queue_ok (sigs d') (qu d') /\ reset_log env0 d' = wide_log env0.
Proof.
  destruct (completion_exact env0 STATUS_DEVICE_HARDWARE_ERROR 0x20 (dev kicked_once) kicked_once_ok)
    as [[H _]|(j & x & d' & _ & _ & E & Hok & _ & _ & _ & _ & Hr)].
  - vm_compute in H. discriminate H.
  - exists d'. exact (conj E (conj Hok Hr)).
Defined.

(** ** Buffers in use *)

(** The jobs the queue shows: on a list, or in the slot of a counted core. *)
Definition listed (d : jdev) (j : Z) : Prop :=
  j ∈ Pending (qu d) \/ j ∈ Completed (qu d) \/ in_flight_visible d j.
Definition uses (File : nat) (Cookie : Z) (d : jdev) (j : Z) : Prop :=
  exists x, jobs d !! j = Some x /\ RkMppJobReferencesBuffer (Some x) File Cookie = true.

Lemma visible_cores d j :
  in_flight_visible d j <-> exists c, c ∈ cores (qu d) /\ slot c (qu d) = Some (Some j).
Proof.
  unfold in_flight_visible, cores. split; intros (c & Hc & Hs); exists c; rewrite elem_of_seqZ in *;
    (split; [lia|exact Hs]).
Qed.

Lemma buffer_in_use_spec File Cookie d :
  queue_ok (sigs d) (qu d) ->
  exists b, RkMppJobBufferInUse File Cookie d = Some b /\
    (b = true <-> exists j, listed d j /\ uses File Cookie d j).
Proof.
  intros Hok. unfold RkMppJobBufferInUse. set (P := fun (_ : Z) x => RkMppJobReferencesBuffer (Some x) File Cookie).
  assert (Hcr : forall c, c ∈ cores (qu d) -> 0 <= c < 2) by (intros c; apply cores_range; apply Hok).
  destruct (find_slot_spec P (cores (qu d)) d Hok Hcr) as (a & -> & Ha). ostep. destruct a as [j|]; simpl is_found; cbv iota.
  { exists true. split; [done|]. split; [intros _|done]. destruct Ha as (c & x & Hc & Hs & Hx & Hp).
    exists j. split; [|exists x; done]. right; right. apply visible_cores. eauto. }
  destruct (find_job_spec P (Pending (qu d)) d) as (a & -> & Hb); [intros; by apply pending_live|]. ostep.
  destruct a as [j|]; simpl is_found; cbv iota.
  { exists true. split; [done|]. split; [intros _|done]. destruct Hb as (Hj & x & Hx & Hp).
    exists j. split; [by left|exists x; done]. }
  destruct (find_job_spec P (Completed (qu d)) d) as (a & -> & Hc); [intros; by apply completed_live|]. ostep.
  exists (is_found a). split; [done|]. destruct a as [j|]; simpl.
  - split; [intros _|done]. destruct Hc as (Hj & x & Hx & Hp). exists j. split; [right; by left|exists x; done].
  - split; [done|]. intros (j & Hl & x & Hx & Hp). exfalso. destruct Hl as [Hl|[Hl|Hl]].
    + specialize (Hb j x Hl Hx). unfold P in Hb. congruence.
    + specialize (Hc j x Hl Hx). unfold P in Hc. congruence.
    + apply visible_cores in Hl as (c & Hcc & Hs). specialize (Ha c j x Hcc Hs Hx). unfold P in Ha. congruence.
Qed.

Lemma free_buffer_busy {W} `{!IommuProvider W} acq File h d (p : @pool W) c c' :
  jfiles d !! File = Some (JFile true c) -> files p !! File = Some c' -> h <> 0 ->
  RkMppJobBufferInUse File h d = Some true ->
  ioctl_FREE_BUFFER acq File h d p = Some (STATUS_DEVICE_BUSY, p).
Proof.
  intros Hf Hp Hh Hu. unfold ioctl_FREE_BUFFER, RkMppFreeBufInUseCb. rewrite Hf. ostep. simpl negb. cbv iota.
  destruct (Z.eqb_spec h 0); [done|]. rewrite Hu. ostep. unfold RkMppBufFreeIfNotInUse. by rewrite Hp.
Qed.

(** FREE_BUFFER and the queue.  The in-use test is true exactly when a job that
    is pending, completed or in flight on a counted core belongs to the file and
    names the handle among its slots or references; then FREE_BUFFER refuses with
    STATUS_DEVICE_BUSY and the pool is untouched, and otherwise it is the pool's
    release. *)
Theorem free_buffer_respects_jobs {W} `{!IommuProvider W} acq File h d (p : @pool W) c c' :
  queue_ok (sigs d) (qu d) -> jfiles d !! File = Some (JFile true c) -> files p !! File = Some c' -> h <> 0 ->
  exists b, RkMppJobBufferInUse File h d = Some b /\
    (b = true <-> exists j, listed d j /\ uses File h d j) /\
    ioctl_FREE_BUFFER acq File h d p
    = if b then Some (STATUS_DEVICE_BUSY, p) else RkMppBufFreeIfNotInUse acq File h None p.
Proof.
  intros Hok Hf Hp Hh. destruct (buffer_in_use_spec File h d Hok) as (b & Hu & Hb).
  exists b. split; [done|]. split; [done|]. destruct b; [by eapply free_buffer_busy|].
  unfold ioctl_FREE_BUFFER, RkMppFreeBufInUseCb. rewrite Hf. ostep. simpl negb. cbv iota.
  destruct (Z.eqb_spec h 0); [done|]. by rewrite Hu.
Qed.

Definition no_attach : Z -> NTSTATUS := fun _ => STATUS_SUCCESS.
Lemma free_buffer_respects_jobs_witness :
  ioctl_FREE_BUFFER no_attach 0 1 (dev kicked_once) sample_pool = Some (STATUS_DEVICE_BUSY, sample_pool).
Proof.
  destruct (free_buffer_respects_jobs no_attach 0 1 (dev kicked_once) sample_pool
              (FileCtx [Buffer 1 0x800000 (Some mdl0) 0 0x10000 0x2000 4] 0x2000 1 0) (FileCtx [] 0 0 0)
              kicked_once_ok) as (b & Hu & _ & E).
  - vm_compute. reflexivity.
  - reflexivity.
  - discriminate.
  - assert (Hb : RkMppJobBufferInUse 0 1 (dev kicked_once) = Some true) by (vm_compute; reflexivity).
    rewrite Hb in Hu. injection Hu as <-. exact E.
Defined.

(** The new job is listed after the promotions, its references unchanged. *)
Lemma promoted_listed d ps d' j x :
  queue_ok (sigs d) (qu d) -> promotes d ps d' -> j ∈ Pending (qu d) -> jobs d !! j = Some x ->
  listed d' j /\ exists t, jobs d' !! j = Some (x <| TargetCore := t |>).
Proof.
  intros Hok Hps Hj Hx. pose proof (promotes_promoted _ _ _ Hps Hok) as Hp. split.
  - assert (Hin : j ∈ q_all (qu d')).
    { rewrite (pr_all _ _ _ Hp). unfold q_all. apply elem_of_app. by left. }
    unfold q_all in Hin. rewrite !elem_of_app in Hin. destruct Hin as [?|[?|Hi]]; [by left|by right; left|].
    right; right. apply elem_of_inflight in Hi as [c Hc]. destruct (pr_new _ _ _ Hp c j Hc) as [Hc'|Hc'].
    + by destruct (slot_not_completed _ _ _ _ Hok Hc').
    + destruct (pr_slot _ _ _ Hp _ _ Hc') as (Hr & _ & Hs). exists (Z.of_nat c). split; [|exact Hs].
      pose proof (pr_frame _ _ _ Hp) as Hf. unfold pframe in Hf.
      assert (CoreCount (qu d') = CoreCount (qu d)) as -> by congruence. lia.
  - by apply (retargeted_Some _ _ _ _ (pr_jobs _ _ _ Hp)).
Qed.

(** C24: a submission pins its buffers before it lets go of its locks.  In the state
    in which an accepted submission releases the queue and file locks, every handle
    it names, in a slot or in the reference table, is in use, so FREE_BUFFER of the
    same file refuses it and leaves the pool as it is: no address stamped into the
    bank can be unmapped under the hardware. *)
Theorem submitted_buffers_pinned {W} `{!IommuProvider W} acq File c i a_job d j ps d' h (p : @pool W) c' :
  queue_ok (sigs d) (qu d) -> jfiles d !! File = Some (JFile true c) ->
  (forall j, a_job = Some j -> jobs d !! j = None) -> bank_ok (InBank i) -> NextId (qu d) + 1 < 2 ^ 64 ->
  submit_locked File i a_job d = Some (inr (j, ps), d') ->
  h <> 0 -> h ∈ map SlotHandle (in_slots i) \/ h ∈ map RefHandle (in_refs i) -> files p !! File = Some c' ->
  RkMppJobBufferInUse File h d' = Some true /\
  ioctl_FREE_BUFFER acq File h d' p = Some (STATUS_DEVICE_BUSY, p).
Proof.
  intros Hok Hf Hfr Hb Hn Hs Hh Hin Hp.
  pose proof (submit_locked_outcome File c i a_job d Hok Hf Hfr Hb Hn) as H. cbv zeta in H.
  destruct (NT_SUCCESS (submit_status File c i a_job d)); [|congruence].
  destruct H as (j' & x & ps' & d1 & Ej & E1 & Hx & Hps & _). rewrite Hs in E1. injection E1 as <- <- <-.
  destruct (enqueued_ok j x d Hok (Hfr j Ej) Hn (sb_id _ _ _ _ _ Hx)) as [Hok1 _].
  { rewrite (sb_bank _ _ _ _ _ Hx). by apply stamp_slots_ok. }
  destruct (enqueued_fields j x d) as (EJ & EP & _).
  destruct (promoted_listed _ _ _ j x Hok1 Hps) as (Hl & t & Hx').
  { rewrite EP. apply elem_of_app. right. by left. }
  { rewrite EJ. apply lookup_insert_eq. }
  pose proof (promotes_promoted _ _ _ Hps Hok1) as Hpr.
  assert (Hu : uses File h d' j).
  { exists (x <| TargetCore := t |>). split; [exact Hx'|]. unfold RkMppJobReferencesBuffer.
    change (Owner (x <| TargetCore := t |>)) with (Owner x).
    change (DenseIovaSlots (x <| TargetCore := t |>)) with (DenseIovaSlots x).
    change (BufRefs (x <| TargetCore := t |>)) with (BufRefs x).
    rewrite (sb_owner _ _ _ _ _ Hx), (sb_slots _ _ _ _ _ Hx), (sb_refs _ _ _ _ _ Hx).
    rewrite bool_decide_eq_true_2 by done. destruct (Z.eqb_spec h 0); [done|]. simpl. apply orb_true_iff.
    rewrite !existsb_exists. destruct Hin as [Hin|Hin]; [left|right];
      apply list_elem_of_fmap in Hin as (z & -> & Hz); exists z; rewrite <- list_elem_of_In, Z.eqb_refl; done. }
  destruct (buffer_in_use_spec File h d' (pr_ok _ _ _ Hpr)) as (b & Eb & Hb').
  assert (b = true) as -> by (apply Hb'; eauto). split; [exact Eb|].
  apply (free_buffer_busy acq File h d' p c c'); [|exact Hp|exact Hh|exact Eb].
  pose proof (pr_frame _ _ _ Hpr) as Hfr'. unfold pframe in Hfr'.
  assert (jfiles d' = jfiles (enqueued j x d)) as -> by congruence. exact Hf.
Qed.

Lemma submitted_buffers_pinned_witness :
  exists r d', submit_locked 0 (sub0 1) (Some 0x1000) (dev sys0) = Some (inr r, d') /\
    RkMppJobBufferInUse 0 1 d' = Some true /\
    ioctl_FREE_BUFFER no_attach 0 1 d' sample_pool = Some (STATUS_DEVICE_BUSY, sample_pool).
Proof.
  destruct (submit_locked 0 (sub0 1) (Some 0x1000) (dev sys0)) as [[[st|[j ps]] d']|] eqn:E;
    [vm_compute in E; discriminate E| |vm_compute in E; discriminate E].
  exists (j, ps), d'. split; [reflexivity|].
  apply (submitted_buffers_pinned no_attach 0 (f_ctx (file0 1)) (sub0 1) (Some 0x1000) (dev sys0) j ps d' 1
           sample_pool (FileCtx [] 0 0 0)).
  - apply (after_steps_ok []). reflexivity.
  - reflexivity.
  - intros k _. apply lookup_empty.
  - repeat split.
  - reflexivity.
  - exact E.
  - discriminate.
  - left. vm_compute. by left.
  - reflexivity.
Defined.
