(* ===== verification/JobWaitProps.v ===== *)
(** * Properties of the job queue: waiting and draining

    WAIT_JOB on every outcome, and the owner drain of a closing file. *)

From S2P Require Import Prelude Mmio IommuMap BufPool JobQueue JobKick JobSys.
From S2P Require Import JobQueueFacts JobPromoteFacts JobSubmitFacts JobKickFacts JobWaitFacts.
From S2P Require Import JobSys JobSysSteps JobScenarios JobProps JobHwProps.

(** ** WAIT_JOB *)
Lemma same_id d i j x y :
  queue_ok (sigs d) (qu d) -> jobs d !! i = Some x -> jobs d !! j = Some y -> Id x = Id y -> i = j.
Proof.
  intros Hok Hx Hy E. exact (qo_uniq _ _ Hok i j _ _ (lookup_sigs _ _ _ Hx) (lookup_sigs _ _ _ Hy) E).
Qed.

(** The lookup misses none of the caller's jobs. *)
Lemma wait_lookup_found File JobId d j x :
  queue_ok (sigs d) (qu d) -> wait_target File JobId d j x -> listed d j ->
  wait_lookup File JobId d <> Some (W_NotFound, d).
Proof.
  intros Hok (Hx & Ei & Eo) Hl. unfold wait_lookup.
  assert (Hsame : forall k y, jobs d !! k = Some y -> Id y = JobId -> k = j).
  { intros k y Hy E. eapply same_id; [exact Hok|exact Hy|exact Hx|congruence]. }
  assert (Hd : forall a : option Z, (x ← deref j d; if negb (bool_decide (Owner x = Some File)) then Some (W_NotFound, d)
      else if is_found a then s ← unlink j d; Some (W_Complete j, s)
      else s ← upd_job j (fun x => x <| WaiterPin ::= fun n => n + 1 |>) d; Some (W_Pinned j, s))
      <> Some (W_NotFound, d)).
  { intros a. unfold deref. rewrite Hx. ostep. rewrite bool_decide_eq_true_2 by done. simpl negb. cbv iota.
    destruct (is_found a); [by destruct (unlink j d)|]. by rewrite (upd_job_eq _ _ _ _ Hx). }
  destruct (find_job_spec (fun _ x => Id x =? JobId) (Completed (qu d)) d) as (a & -> & Ha).
  { intros. by apply completed_live. }
  ostep. destruct a as [k|]; simpl is_found; cbv iota; ostep.
  { destruct Ha as (_ & y & Hy & E). apply Z.eqb_eq in E. rewrite (Hsame k y Hy E). apply (Hd (Some k)). }
  destruct (find_slot_spec (fun _ x => (Id x =? JobId) && bool_decide (Owner x = Some File))
              (cores (qu d)) d Hok) as (b & -> & Hb).
  { intros c. apply cores_range. apply Hok. }
  ostep. destruct b as [k|]; simpl is_found; cbv iota; ostep.
  { destruct Hb as (c & y & _ & _ & Hy & E). apply andb_true_iff in E as [E _]. apply Z.eqb_eq in E.
    rewrite (Hsame k y Hy E). apply (Hd None). }
  destruct (find_job_spec (fun _ x => Id x =? JobId) (Pending (qu d)) d) as (b & -> & Hc).
  { intros. by apply pending_live. }
  ostep. destruct b as [k|].
  { destruct Hc as (_ & y & Hy & E). apply Z.eqb_eq in E. rewrite (Hsame k y Hy E). apply (Hd None). }
  exfalso. apply Z.eqb_eq in Ei. destruct Hl as [Hl|[Hl|Hl]].
  - specialize (Hc j x Hl Hx). simpl in Hc. congruence.
  - specialize (Ha j x Hl Hx). simpl in Ha. congruence.
  - apply visible_cores in Hl as (c & Hcc & Hs). specialize (Hb c j x Hcc Hs Hx). simpl in Hb.
    rewrite Ei, Eo, bool_decide_eq_true_2 in Hb by done. done.
Qed.

(** What the end of a wait does to the job: the last waiter frees it when it is on
    a list and abandons it when it is in flight; any other only unpins it. *)
Definition let_go (y : job) (d2 d3 : jdev) (j : Z) : Prop :=
  if WaiterPin y =? 1 then
    if bool_decide (j ∈ Pending (qu d2) ++ Completed (qu d2))
    then jobs d3 = delete j (jobs d2) /\ qu d3 = unlinkq j (qu d2)
    else qu d3 = qu d2 /\
         (in_flight_visible d2 j -> jobs d3 = <[j := (unpinned y) <| OrphanOnComplete := true |>]> (jobs d2)) /\
         (~ in_flight_visible d2 j -> jobs d3 = <[j := unpinned y]> (jobs d2))
  else jobs d3 = <[j := unpinned y]> (jobs d2) /\ qu d3 = qu d2.

Lemma wait_tail (wait : waiter) File JobId d d1 j (timedOut : bool) d2 y :
  wait_lookup File JobId d = Some (W_Pinned j, d1) -> wait j d1 = Some (timedOut, d2) ->
  queue_ok (sigs d2) (qu d2) -> jobs d2 !! j = Some y -> (timedOut = false -> j ∈ Completed (qu d2)) ->
  exists d3, RkMppJobWait wait File JobId d
    = Some (if timedOut then STATUS_TIMEOUT else STATUS_SUCCESS,
            Some (if timedOut then WaitOut STATUS_TIMEOUT 0 0 else wait_result y), d3) /\
    let_go y d2 d3 j.
Proof.
  intros HL HW Hok Hy Hc. unfold RkMppJobWait. rewrite HL. ostep. rewrite HW. ostep. unfold let_go.
  destruct timedOut.
  - destruct (wait_timeout_outcome j d2 y Hok Hy) as (r & -> & H). ostep.
    destruct H as [(-> & Ep & Hin)|[(-> & Ep & Hv)|(-> & Hn)]]; unfold free_if, free_job.
    + cbn [jobs on_q set_field]. rewrite lookup_insert_eq. ostep. eexists. split; [reflexivity|].
      rewrite Ep, Z.eqb_refl, bool_decide_eq_true_2 by done. split; [|done].
      cbn [jobs on_q set_field]. apply delete_insert_eq.
    + ostep. eexists. split; [reflexivity|]. rewrite Ep, Z.eqb_refl. rewrite bool_decide_eq_false_2; [done|].
      intros Hin. destruct Hv as (c & _ & Hs). destruct (slot_not_completed _ _ _ _ Hok Hs) as [H1 H2].
      by apply elem_of_app in Hin as [?|?].
    + ostep. eexists. split; [reflexivity|]. destruct (Z.eqb_spec (WaiterPin y) 1) as [Ep|Ep]; [|done].
      destruct Hn as [?|[Hn Hv]]; [done|]. rewrite bool_decide_eq_false_2 by done. done.
  - specialize (Hc eq_refl). pose proof (wait_done_outcome j d2 y Hok Hy Hc) as E. cbv zeta in E. rewrite E. ostep.
    assert (Hin : j ∈ Pending (qu d2) ++ Completed (qu d2)) by (apply elem_of_app; by right).
    assert (Ep : (WaiterPin y - 1 =? 0) = (WaiterPin y =? 1)) by (apply eq_true_iff_eq; rewrite !Z.eqb_eq; lia).
    rewrite Ep. destruct (WaiterPin y =? 1); unfold free_if, free_job.
    + cbn [jobs on_q set_field]. rewrite lookup_insert_eq. ostep. eexists. split; [reflexivity|].
      rewrite bool_decide_eq_true_2 by done. split; [|done].
      cbn [jobs on_q set_field]. apply delete_insert_eq.
    + ostep. eexists. split; [reflexivity|]. done.
Qed.

(** C10: WAIT_JOB.  A job id that no listed job of the caller's file has gives
    STATUS_NOT_FOUND and changes nothing.  A completed one gives its result and is
    freed.  Any other is pinned across the wait: when the wait is signalled the
    caller gets the result, when it runs out it gets STATUS_TIMEOUT, and in both
    cases the last waiter frees the job or, while it is in flight, leaves it to the
    completion. *)
Theorem wait_job_exact File JobId d :
  queue_ok (sigs d) (qu d) ->
  ((forall j x, listed d j -> ~ wait_target File JobId d j x) /\
   forall wait, RkMppJobWait wait File JobId d = Some (STATUS_NOT_FOUND, None, d)) \/
  (exists j x, wait_target File JobId d j x /\ j ∈ Completed (qu d) /\ forall wait, exists d',
     RkMppJobWait wait File JobId d = Some (STATUS_SUCCESS, Some (wait_result x), d') /\
     jobs d' = delete j (jobs d) /\ qu d' = unlinkq j (qu d) /\ queue_ok (sigs d') (qu d')) \/
  (exists j x, wait_target File JobId d j x /\ (j ∈ Pending (qu d) \/ in_flight_visible d j) /\
     let d1 := d <| jobs := <[j := x <| WaiterPin := WaiterPin x + 1 |>]> (jobs d) |> in
     forall (wait : waiter) (timedOut : bool) d2 y, wait j d1 = Some (timedOut, d2) ->
       queue_ok (sigs d2) (qu d2) -> jobs d2 !! j = Some y -> (timedOut = false -> j ∈ Completed (qu d2)) ->
       exists d3, RkMppJobWait wait File JobId d
         = Some (if timedOut then STATUS_TIMEOUT else STATUS_SUCCESS,
                 Some (if timedOut then WaitOut STATUS_TIMEOUT 0 0 else wait_result y), d3) /\
         let_go y d2 d3 j).
Proof.
  intros Hok. destruct (wait_lookup_outcome File JobId d Hok)
    as [E|[(j & x & Hj & Ht & E)|(j & x & Ht & Hj & E)]].
  - left. split; [|intros wait; unfold RkMppJobWait; by rewrite E].
    intros j x Hl Ht. by apply (wait_lookup_found File JobId d j x Hok Ht Hl).
  - right; left. exists j, x. split; [done|]. split; [done|]. intros wait. unfold RkMppJobWait. rewrite E. ostep.
    destruct Ht as (Hx & _ & _). unfold deref, free_job.
    change (jobs (on_q (unlinkq j) d)) with (jobs d). rewrite Hx. ostep. eexists. split; [reflexivity|].
    split; [done|]. split; [done|]. cbn [jobs qu on_q set_field].
    assert (Hq : queue_ok (delete j (sigs d)) (unlinkq j (qu d))).
    { apply queue_ok_unlink_free; [done|]. apply elem_of_app. by right. }
    unfold sigs in Hq. rewrite <- fmap_delete in Hq. exact Hq.
  - right; right. exists j, x. split; [done|]. split.
    { destruct Hj as [?|(c & Hc & Hs)]; [by left|right]. exists (Z.of_nat c). rewrite Nat2Z.id. split; [lia|done]. }
    cbv zeta. intros wait timedOut d2 y HW Hok2 Hy Hc.
    exact (wait_tail wait File JobId d _ j timedOut d2 y E HW Hok2 Hy Hc).
Qed.

(** The wait in which the interrupt completes the job with success. *)
Definition wait_irq (e : env) : waiter := fun j d =>
  d ← RkMppJobComplete e STATUS_SUCCESS RKVDEC2_INT_DEC_RDY_STA d; Some (false, d).

Lemma wait_job_exact_witness :
  exists d3, RkMppJobWait (wait_irq env0) 0 1 (dev kicked_once)
    = Some (STATUS_SUCCESS, Some (WaitOut STATUS_SUCCESS 4 100), d3).
Proof.
  destruct (wait_job_exact 0 1 (dev kicked_once) kicked_once_ok)
    as [[_ E]|[(j & x & _ & Hj & _)|(j & x & Ht & Hj & H)]].
  - specialize (E (wait_irq env0)). vm_compute in E. discriminate E.
  - vm_compute in Hj. by apply elem_of_nil in Hj.
  - eexists. vm_compute. reflexivity.
Defined.

(** ** The owner drain *)
Definition in_flight_of (File : nat) (d : jdev) : Z := count_owned File d (visible_inflight (qu d)).
Definition pins_ok (d : jdev) : Prop :=
  queue_ok (sigs d) (qu d) /\ forall j x, jobs d !! j = Some x -> 0 <= WaiterPin x.

(** What the drain relies on in a wait: the pinned job is still there when it
    returns, and when it was signalled the file has one job less in flight. *)
Definition drain_wait (File : nat) (wait : waiter) : Prop :=
  forall j d x, pins_ok d -> in_flight_visible d j -> jobs d !! j = Some x -> Owner x = Some File ->
    1 <= WaiterPin x ->
    exists (b : bool) d' y, wait j d = Some (b, d') /\ pins_ok d' /\ jobs d' !! j = Some y /\ 1 <= WaiterPin y /\
      (b = false -> in_flight_of File d' < in_flight_of File d).

Lemma visible_inflight_elem d j : j ∈ visible_inflight (qu d) <-> in_flight_visible d j.
Proof.
  unfold visible_inflight, in_flight_visible. rewrite list_elem_of_omap. split.
  - intros (v & Hv & E). simpl in E. subst v. apply list_elem_of_lookup in Hv as [c Hc].
    apply lookup_take_Some in Hc as [Hc Hl]. exists (Z.of_nat c). rewrite Nat2Z.id. split; [lia|done].
  - intros (c & Hc & Hs). exists (Some j). split; [|done]. apply list_elem_of_lookup. exists (Z.to_nat c).
    rewrite lookup_take_lt by lia. done.
Qed.

Lemma in_flight_of_pos File d : 0 < in_flight_of File d -> exists j, in_flight_visible d j /\ owned File d j = true.
Proof.
  unfold in_flight_of, count_owned. intros H.
  destruct (filter (fun j => owned File d j = true) (visible_inflight (qu d))) as [|j l] eqn:E; [simpl in H; lia|].
  assert (Hj : j ∈ filter (fun j => owned File d j = true) (visible_inflight (qu d))) by (rewrite E; by left).
  apply list_elem_of_filter in Hj as [Ho Hj]. exists j. split; [by apply visible_inflight_elem|done].
Qed.

Lemma in_flight_of_bound File d : queue_ok (sigs d) (qu d) -> in_flight_of File d <= 2.
Proof.
  intros Hok. unfold in_flight_of, count_owned. pose proof (co_slots (qo_core _ _ Hok)) as Hs.
  etransitivity; [apply inj_le, length_filter|]. unfold visible_inflight.
  assert (Hl : forall l : list (option Z), (length (omap id l) <= length l)%nat).
  { induction l as [|[v|] l IH]; csimpl; lia. }
  set (t := take _ _). assert (Ht : (length t <= 2)%nat) by (subst t; rewrite length_take; lia).
  specialize (Hl t). apply (inj_le _ 2). etransitivity; [exact Hl|exact Ht].
Qed.

(** The jobs a step frees or marks are not what is in flight. *)
Lemma in_flight_of_ext File d d' :
  InFlightPerCore (qu d') = InFlightPerCore (qu d) -> CoreCount (qu d') = CoreCount (qu d) ->
  (forall j, in_flight_visible d j -> Owner <$> jobs d' !! j = Owner <$> jobs d !! j) ->
  in_flight_of File d' = in_flight_of File d.
Proof.
  intros EI EC Ho. unfold in_flight_of.
  assert (Ev : visible_inflight (qu d') = visible_inflight (qu d)) by (unfold visible_inflight; by rewrite EI, EC).
  rewrite Ev. apply count_owned_ext. intros j Hj%visible_inflight_elem. specialize (Ho j Hj). unfold owned, owned_by.
  destruct (jobs d' !! j), (jobs d !! j); simpl in Ho; try done. by injection Ho as ->.
Qed.

(** A job the drain has given up. *)
Definition given_up (x : job) : Prop :=
  OutputFrameMdl x = None /\ ColmvCurMdl x = None /\ OrphanOnComplete x = true.

Lemma foldr_delete_lookup (l : list Z) (m : gmap Z job) k x :
  foldr delete m l !! k = Some x -> m !! k = Some x /\ (k ∉ l).
Proof.
  induction l as [|j l IH]; simpl; [by intros; split; [|by intros ?%elem_of_nil]|].
  intros [Hne H]%lookup_delete_Some. destruct (IH H) as [Hx Hk]. split; [done|].
  by intros [->|?]%elem_of_cons.
Qed.

Lemma marked_lookup File l d d' k :
  marked File l d d' -> Owner <$> jobs d' !! k = Owner <$> jobs d !! k /\
  WaiterPin <$> jobs d' !! k = WaiterPin <$> jobs d !! k.
Proof. intros Hm. rewrite (Hm k). destruct (_ && _); [|done]. by destruct (jobs d !! k). Qed.

Lemma marked_given_up File l d1 d2 k y :
  marked File l d1 d2 -> in_slots_of d1 l k = true -> jobs d2 !! k = Some y -> owned_by File y = true -> given_up y.
Proof.
  intros Hm Hin Hy Ho. rewrite (Hm k), Hin in Hy. unfold holds_of in Hy.
  destruct (jobs d1 !! k) as [z|] eqn:Ez; [|done]. simpl in Hy.
  destruct (owned_by File z) eqn:Eo; simpl in Hy; simplify_eq; [done|congruence].
Qed.

(** The state the drain continues with after a wait. *)
Lemma drain_after_free File j (timedOut : bool) d x :
  pins_ok d -> jobs d !! j = Some x -> 1 <= WaiterPin x ->
  exists l d1 d', drain_after File j timedOut d = Some (l, d1) /\ free_all l d1 = Some d' /\
    pins_ok d' /\ in_flight_of File d' = in_flight_of File d /\
    (timedOut = true -> forall k, in_flight_visible d' k -> owned File d' k = true ->
       exists y, jobs d' !! k = Some y /\ given_up y).
Proof.
  intros [Hok Hpin] Hx Hp.
  destruct (drain_after_outcome File j timedOut d x Hok Hx) as (d2 & Hm & EQ & _ & _ & Hok2 & E). cbv zeta in Hm.
  rewrite <- EQ in E. set (Cs := filter (fun k => holds_of (reaped File) d2 k = true) (Completed (qu d2))) in *.
  set (q' := (qu d2) <| Completed := _ |>) in E.
  assert (Hperm : Cs ++ q_all q' ≡ₚ q_all (qu d2)).
  { unfold q_all, q', Cs. cbn [set_field Pending Completed InFlightPerCore].
    rewrite Permutation_app_swap_app. apply Permutation_app_head. rewrite app_assoc. by rewrite split_perm. }
  pose proof (qo_nodup _ _ Hok2) as Hnd. rewrite <- Hperm in Hnd. apply NoDup_app in Hnd as (Hnd & _ & _).
  exists Cs, (d2 <| qu := q' |>), (d2 <| qu := q' |> <| jobs := foldr delete (jobs d2) Cs |>).
  split; [exact E|]. split.
  { etransitivity; [apply (free_listed_outcome Cs (d2 <| qu := q' |>) Hnd)|reflexivity]. intros k Hk. change (is_Some (jobs d2 !! k)).
    destruct (live_job d2 k) as [y Hy]; [|rewrite Hy; eauto]. apply (qo_live _ _ Hok2). rewrite <- Hperm.
    apply elem_of_app. by left. }
  set (d1 := d <| jobs := <[j := unpinned x]> (jobs d) |>) in *.
  assert (Hom : forall k, Owner <$> jobs d2 !! k = Owner <$> jobs d !! k).
  { intros k. transitivity (Owner <$> jobs d1 !! k).
    - destruct timedOut; [by apply (marked_lookup File (cores (qu d)) d1 d2)|by rewrite Hm].
    - unfold d1. cbn [jobs set_field]. destruct (decide (k = j)) as [->|].
      + by rewrite lookup_insert_eq, Hx.
      + by rewrite lookup_insert_ne. }
  assert (Hpm : forall k y, jobs d2 !! k = Some y -> 0 <= WaiterPin y).
  { intros k y Hy. assert (Hw : WaiterPin <$> jobs d1 !! k = Some (WaiterPin y)).
    { destruct timedOut.
      - rewrite <- (proj2 (marked_lookup File (cores (qu d)) d1 d2 k Hm)). by rewrite Hy.
      - rewrite <- Hm. by rewrite Hy. }
    unfold d1 in Hw. cbn [jobs set_field] in Hw. destruct (decide (k = j)) as [->|].
    - rewrite lookup_insert_eq in Hw. injection Hw as <-. change (0 <= WaiterPin x - 1). lia.
    - rewrite lookup_insert_ne in Hw by done. destruct (jobs d !! k) as [z|] eqn:Ez; [|done].
      injection Hw as <-. eauto. }
  assert (Hnc : forall k, in_flight_visible d k -> k ∉ Cs).
  { intros k (c & _ & Hs) Hk. apply list_elem_of_filter in Hk as [_ Hk]. rewrite <- EQ in Hs.
    by destruct (slot_not_completed _ _ _ _ Hok2 Hs). }
  assert (Hlk : forall k, in_flight_visible d k -> foldr delete (jobs d2) Cs !! k = jobs d2 !! k).
  { intros k Hk. specialize (Hnc k Hk). clear -Hnc. induction Cs as [|i l IH]; simpl; [done|].
    apply not_elem_of_cons in Hnc as [? ?]. rewrite lookup_delete_ne by done. auto. }
  split; [|split].
  - split.
    + change (sigs _) with (sigs (d2 <| jobs := foldr delete (jobs d2) Cs |>)). rewrite sigs_delete_all. apply (queue_ok_delete_all _ (qu d2)); try done.
      eapply core_ok_ext; [..|apply Hok2]; done.
    + intros k y Hy. apply foldr_delete_lookup in Hy as [Hy _]. eauto.
  - apply in_flight_of_ext; [by rewrite <- EQ|by rewrite <- EQ|]. intros k Hk. cbn [jobs set_field].
    by rewrite Hlk.
  - intros -> k Hk Ho. assert (Hk' : in_flight_visible d k) by (unfold in_flight_visible in *; by rewrite <- EQ).
    unfold owned in Ho. cbn [jobs set_field] in Ho |- *. rewrite (Hlk k Hk') in Ho |- *.
    destruct (jobs d2 !! k) as [y|] eqn:Ey; [|done]. exists y. split; [done|].
    eapply marked_given_up; [exact Hm| |exact Ey|exact Ho]. apply visible_cores in Hk' as (c & Hc & Hs).
    unfold in_slots_of. apply existsb_exists. exists c. rewrite <- list_elem_of_In. split; [done|].
    by apply bool_decide_eq_true.
Qed.

Lemma pinned_pins_ok d j x :
  pins_ok d -> jobs d !! j = Some x ->
  pins_ok (d <| jobs := <[j := x <| WaiterPin := WaiterPin x + 1 |>]> (jobs d) |>).
Proof.
  intros [Hok Hpin] Hx. split.
  - rewrite sigs_upd. eapply queue_ok_upd; [done|by apply lookup_sigs|done..|by left].
  - intros k y Hy. cbn [jobs set_field] in Hy. destruct (decide (k = j)) as [->|].
    + rewrite lookup_insert_eq in Hy. injection Hy as <-. specialize (Hpin j x Hx).
      change (0 <= WaiterPin x + 1). lia.
    + rewrite lookup_insert_ne in Hy by done. eauto.
Qed.

Lemma pinned_in_flight_of File d j x :
  jobs d !! j = Some x ->
  in_flight_of File (d <| jobs := <[j := x <| WaiterPin := WaiterPin x + 1 |>]> (jobs d) |>) = in_flight_of File d.
Proof.
  intros Hx. apply in_flight_of_ext; [done..|]. intros k _. cbn [jobs set_field].
  destruct (decide (k = j)) as [->|]; [by rewrite lookup_insert_eq, Hx|by rewrite lookup_insert_ne].
Qed.

(** What the drain leaves: nothing of the file in flight, or, after a wait that ran
    out, only given up jobs and a demand for the full reset. *)
Definition drained (File : nat) (gaveUp : bool) (d : jdev) : Prop :=
  (gaveUp = true -> NeedsFullReset d = 1) /\
  forall k, in_flight_visible d k -> owned File d k = true ->
    gaveUp = true /\ exists y, jobs d !! k = Some y /\ given_up y.

Lemma drain_loop_spec (wait : waiter) File (Hwait : drain_wait File wait) fuel d :
  pins_ok d -> in_flight_of File d < Z.of_nat fuel ->
  exists b d', drain_loop wait File fuel d = Some (Some b, d') /\ pins_ok d' /\ drained File b d'.
Proof.
  revert d. induction fuel as [|fuel IH]; intros d Hd Hf.
  { pose proof (Nat2Z.is_nonneg (length (filter (fun j => owned File d j = true) (visible_inflight (qu d))))).
    unfold in_flight_of, count_owned in Hf. lia. }
  simpl drain_loop. destruct (drain_pin_outcome File d (proj1 Hd)) as [[-> Hn]|(j & x & Hv & Hx & Eo & ->)]; ostep.
  - exists false, d. split; [done|]. split; [done|]. split; [done|]. intros k (c & Hc & Hs) Hk. exfalso.
    unfold owned, owned_by in Hk. destruct (jobs d !! k) as [y|] eqn:Ey; [|done].
    apply bool_decide_eq_true in Hk. by apply (Hn c k y).
  - destruct (Hwait j _ (x <| WaiterPin := WaiterPin x + 1 |>) (pinned_pins_ok d j x Hd Hx)) as (b & d2 & y & -> & Hd2 & Hy & Hp & Hless).
    + exact Hv.
    + cbn [jobs set_field]. apply lookup_insert_eq.
    + exact Eo.
    + change (1 <= WaiterPin x + 1). pose proof (proj2 Hd j x Hx). lia.
    + ostep. rewrite pinned_in_flight_of in Hless by done.
      destruct (drain_after_free File j b d2 y Hd2 Hy Hp) as (l & d3 & d4 & -> & F & Hd4 & Ei & Hg). ostep.
      rewrite F. ostep. destruct b.
      * eexists true, _. split; [reflexivity|]. split; [exact Hd4|]. split; [done|]. intros k Hk Ho. split; [done|].
        exact (Hg eq_refl k Hk Ho).
      * apply IH; [done|]. specialize (Hless eq_refl). lia.
Qed.

(** Phase 1: the listed jobs of the file that are not in flight are freed. *)
Lemma drain_splice_free File d :
  pins_ok d -> exists d', free_all (spliced (owned_by File) d) (d <| qu := without (owned_by File) d (qu d) |>) = Some d' /\
    pins_ok d' /\ in_flight_of File d' = in_flight_of File d /\ qu d' = without (owned_by File) d (qu d) /\
    (forall j x, jobs d' !! j = Some x -> Owner x = Some File -> j ∉ Pending (qu d') ++ Completed (qu d')).
Proof.
  intros [Hok Hpin]. set (l := spliced (owned_by File) d). set (q' := without (owned_by File) d (qu d)).
  pose proof (spliced_all (owned_by File) d) as Hperm. fold l q' in Hperm.
  pose proof (qo_nodup _ _ Hok) as Hnd. rewrite <- Hperm in Hnd. apply NoDup_app in Hnd as (Hnd & Hdis & _).
  exists (d <| qu := q' |> <| jobs := foldr delete (jobs d) l |>). split.
  { etransitivity; [apply (free_listed_outcome l (d <| qu := q' |>) Hnd)|reflexivity]. intros k Hk.
    change (is_Some (jobs d !! k)). destruct (live_job d k) as [y Hy]; [|rewrite Hy; eauto].
    apply (qo_live _ _ Hok). rewrite <- Hperm. apply elem_of_app. by left. }
  assert (Hlk : forall k, k ∉ l -> foldr delete (jobs d) l !! k = jobs d !! k).
  { intros k. clear. induction l as [|i l IH]; simpl; intros Hk; [done|].
    apply not_elem_of_cons in Hk as [? ?]. rewrite lookup_delete_ne by done. auto. }
  split; [split|split; [|split; [done|]]].
  - change (sigs _) with (sigs (d <| jobs := foldr delete (jobs d) l |>)). rewrite sigs_delete_all.
    apply (queue_ok_delete_all _ (qu d)); try done. eapply core_ok_ext; [..|apply Hok]; done.
  - intros k y Hy. apply foldr_delete_lookup in Hy as [Hy _]. eauto.
  - apply in_flight_of_ext; [done..|]. intros k (c & _ & Hs). cbn [jobs set_field]. rewrite Hlk; [done|].
    intros Hk. apply (Hdis k Hk). unfold q_all. rewrite !elem_of_app. right; right. apply list_elem_of_omap.
    exists (Some k). split; [|done]. apply list_elem_of_lookup. by eexists.
  - intros k x Hx Eo. cbn [jobs set_field] in Hx. apply foldr_delete_lookup in Hx as [Hx _].
    change (k ∉ Pending q' ++ Completed q'). unfold q', without. cbn [Pending Completed set_field].
    rewrite elem_of_app, !list_elem_of_filter. unfold holds_of. rewrite Hx.
    unfold owned_by. rewrite bool_decide_eq_true_2 by done. by intros [[? _]|[? _]].
Qed.

(** C15: RkMppJobsDrainOwner always leaves its loop: a wait keeps the job the drain
    pinned and, when it was signalled, took one of the file's jobs out of the slots,
    so three passes are enough for two cores.  It leaves nothing of the file in
    flight, or, after a wait that ran out, sets NeedsFullReset and leaves only jobs
    without buffers that the completion will free.  A file with nothing in flight is
    drained at once, and no job of it is left on any list. *)
Theorem drain_loop_terminates (wait : waiter) File d fuel :
  pins_ok d -> drain_wait File wait -> (2 < fuel)%nat ->
  exists gaveUp d', RkMppJobsDrainOwner wait File fuel d = Some (Some gaveUp, d') /\
    pins_ok d' /\ drained File gaveUp d' /\
    (in_flight_of File d = 0 ->
       gaveUp = false /\ forall j x, jobs d' !! j = Some x -> Owner x = Some File -> ~ listed d' j).
Proof.
  intros Hd Hw Hf. unfold RkMppJobsDrainOwner. rewrite drain_splice_outcome by apply Hd. ostep.
  destruct (drain_splice_free File d Hd) as (d1 & -> & Hd1 & Ei & EQ & Hl). ostep.
  pose proof (in_flight_of_bound File d (proj1 Hd)) as Hb.
  destruct (drain_loop_spec wait File Hw fuel d1 Hd1) as (b & d2 & E & Hd2 & Hdr); [lia|].
  exists b, d2. split; [exact E|]. split; [done|]. split; [done|]. intros E0.
  destruct fuel as [|n]; [lia|]. simpl drain_loop in E.
  destruct (drain_pin_outcome File d1 (proj1 Hd1)) as [[Ep Hn]|(j & x & Hv & Hx & Eo & _)].
  - rewrite Ep in E. injection E as <- <-. split; [done|]. intros j x Hx Eo [Hj|[Hj|Hj]].
    + apply (Hl j x Hx Eo), elem_of_app. by left.
    + apply (Hl j x Hx Eo), elem_of_app. by right.
    + destruct Hj as (c & Hc & Hs). by apply (Hn c j x).
  - exfalso. rewrite <- Ei in E0. unfold in_flight_of, count_owned in E0.
    destruct (filter _ _) as [|k l] eqn:El in E0; [|simpl in E0; lia].
    assert (Hj : j ∈ filter (fun j => owned File d1 j = true) (visible_inflight (qu d1))).
    { apply list_elem_of_filter. split; [|by apply visible_inflight_elem].
      unfold owned. rewrite Hx. unfold owned_by. by apply bool_decide_eq_true. }
    rewrite El in Hj. by apply elem_of_nil in Hj.
Qed.

(** A wait that can hold: the interrupt signals the job core 0 runs; the wait for
    another runs out. *)
Definition wait_core0 (e : env) : waiter := fun j d =>
  if bool_decide (slot 0 (qu d) = Some (Some j)) then wait_irq e j d else Some (true, d).

Lemma core0_done_less File d d' j :
  queue_ok (sigs d) (qu d) -> slot 0 (qu d) = Some (Some j) -> owned File d j = true ->
  InFlightPerCore (qu d') = <[0%nat := None]> (InFlightPerCore (qu d)) -> CoreCount (qu d') = CoreCount (qu d) ->
  (forall k, k <> j -> owned File d' k = owned File d k) ->
  in_flight_of File d' < in_flight_of File d.
Proof.
  intros Hok Hs Ho EI EC Hk. unfold in_flight_of.
  assert (E : exists l, visible_inflight (qu d) = j :: l /\ visible_inflight (qu d') = l /\ j ∉ l).
  { unfold visible_inflight. rewrite EI, EC. unfold slot in Hs.
    assert (Hd : forall c, InFlightPerCore (qu d) !! Datatypes.S c <> Some (Some j)).
    { intros c Hc. by pose proof (nodup_slots _ _ _ _ (qo_nodup _ _ Hok) Hs Hc). }
    destruct (InFlightPerCore (qu d)) as [|v sl]; [done|]. injection Hs as ->.
    pose proof (co_count (qo_core _ _ Hok)). destruct (Z.to_nat (CoreCount (qu d))) as [|n] eqn:En; [lia|].
    eexists. split; [reflexivity|]. split; [reflexivity|]. intros (v & Hv & E)%list_elem_of_omap. simpl in E. subst v.
    apply list_elem_of_lookup in Hv as [c Hc]. apply lookup_take_Some in Hc as [Hc _]. by apply (Hd c). }
  destruct E as (l & -> & -> & Hj). rewrite count_owned_cons, Ho.
  rewrite (count_owned_ext File d d' l); [lia|]. intros k Hin. apply Hk. congruence.
Qed.

Lemma wait_core0_ok e File : drain_wait File (wait_core0 e).
Proof.
  intros j d x [Hok Hpin] Hv Hx Eo Hp. unfold wait_core0. case_bool_decide as Hs.
  2: { exists true, d, x. done. }
  unfold wait_irq.
  destruct (complete_outcome e STATUS_SUCCESS RKVDEC2_INT_DEC_RDY_STA d Hok) as [[H0 _]|(j' & x' & d' & E & Hc)].
  { unfold slot in Hs. change (Z.to_nat 0) with 0%nat in Hs. congruence. }
  rewrite E. ostep. assert (j' = j) as ->.
  { pose proof (cp_slot _ _ _ _ _ _ _ Hc) as H0. unfold slot in Hs. change (Z.to_nat 0) with 0%nat in Hs. congruence. }
  assert (x' = x) as -> by (pose proof (cp_job _ _ _ _ _ _ _ Hc); congruence).
  assert (Hf : frees_here x = false).
  { unfold frees_here. apply andb_false_iff. right. apply negb_false_iff, Z.ltb_lt. lia. }
  pose proof (cp_jobs _ _ _ _ _ _ _ Hc) as J. rewrite Hf in J.
  exists false, d'. eexists. split; [reflexivity|]. split; [split|split; [|split]].
  - by eapply completes_ok.
  - intros k y Hy. rewrite J in Hy. destruct (decide (k = j)) as [->|].
    + rewrite lookup_insert_eq in Hy. injection Hy as <-. exact (Hpin j x Hx).
    + rewrite lookup_insert_ne in Hy by done. eauto.
  - rewrite J. apply lookup_insert_eq.
  - exact Hp.
  - intros _. pose proof (cp_qu _ _ _ _ _ _ _ Hc) as Q. cbv zeta in Q. rewrite Hf in Q.
    assert (HI : InFlightPerCore (qu d') = <[0%nat := None]> (InFlightPerCore (qu d)) /\
                 CoreCount (qu d') = CoreCount (qu d)).
    { destruct (wants_kick (qu d)); unfold qview in Q; injection Q; intros; split; assumption. }
    destruct HI as [HI HN]. apply (core0_done_less File d d' j); try done.
    + unfold owned. rewrite Hx. unfold owned_by. by apply bool_decide_eq_true.
    + intros k Hk. unfold owned. rewrite J. by rewrite lookup_insert_ne.
Qed.

(** File 0 closes with a job on each core: the one on core 0 ends in the wait, the
    one on core 1 does not. *)
Definition both_busy : jdev := dev (after_steps
  [L_attach ready; L_submit 0 (sub0 1) (Some 0x1000); L_submit 0 (sub0 1) (Some 0x2000)]).

Lemma both_busy_ok : pins_ok both_busy.
Proof.
  split; [apply after_steps_ok; vm_compute; reflexivity|].
  assert (F : forallb (fun p => 0 <=? WaiterPin p.2) (map_to_list (jobs both_busy)) = true) by (vm_compute; reflexivity).
  rewrite forallb_forall in F. intros j x Hx. apply Z.leb_le. apply (F (j, x)), list_elem_of_In, elem_of_map_to_list, Hx.
Qed.

Lemma drain_loop_terminates_witness :
  exists d', RkMppJobsDrainOwner (wait_core0 env0) 0 3 both_busy = Some (Some true, d') /\ drained 0 true d'.
Proof.
  destruct (drain_loop_terminates (wait_core0 env0) 0 both_busy 3 both_busy_ok (wait_core0_ok env0 0))
    as (b & d' & E & _ & H & _); [lia|].
  assert (b = true) as ->.
  { assert (F : (r ← RkMppJobsDrainOwner (wait_core0 env0) 0 3 both_busy; r.1) = Some true) by (vm_compute; reflexivity).
    rewrite E in F. simpl in F. congruence. }
  exists d'. split; [exact E|exact H].
Defined.
