(* ===== verification/JobPeerProps.v ===== *)
(** * Properties of the job queue: the round trip of a kick through the peer

    The consumer's PeerKick parameters, the provider's work item and foreign job,
    and the completion the callback carries back. *)

From S2P Require Import Prelude Mmio IommuMap BufPool JobQueue JobKick JobSys.
From S2P Require Import JobQueueFacts JobPromoteFacts JobKickFacts JobWaitFacts.
From S2P Require Import JobSys JobSysSteps JobScenarios JobProps JobHwProps JobWaitProps.

(** ** The provider *)

(** The foreign job of the parameters [p] runs to the interrupt that ends it with
    [res] and [hw]. *)
Definition wait_ends (e : env) (res : NTSTATUS) (hw : Z) : waiter := fun _ d =>
  d ← RkMppJobComplete e res hw d; Some (false, d).

Lemma foreign_completes e p k d (res : NTSTATUS) hw :
  queue_ok (sigs d) (qu d) -> jobs d !! k = None -> NextId (qu d) + 1 < 2 ^ 64 -> bank_ok (Bank p) ->
  InFlightPerCore (qu d) !! 0%nat = Some None ->
  MmioBase e = true -> 0x558 <= MmioLength e -> flag (KickValue p) RKVDEC2_REG_DEC_E_BIT = true ->
  exists d1 d2, foreign_start p k d = Some (true, d1) /\ JobKickLocalInner e k d1 = Some d2 /\
    quiet d1 d2 /\ sigs d1 = <[k := sig ((foreign_job p) <| Id := NextId (qu d) + 1 |>)]> (sigs d) /\
    devlog d2 = devlog d ++ kick_prefix e d1 ++ kick_suffix e (foreign_job p) /\
    exists y d3, RkMppJobComplete e res hw d2 = Some d3 /\ completes e res hw d2 k y d3 /\
      sig y = sig ((foreign_job p) <| Id := NextId (qu d) + 1 |>) /\ queue_ok (sigs d3) (qu d3).
Proof.
  intros Hok Hk Hn Hb H0 Hm Hl Hf.
  destruct (foreign_start_outcome p k d Hok Hk Hn Hb) as (r & d1 & E1 & [(_ & (i & Hi) & _)|(-> & _ & EJ & EQ)]);
    [congruence|].
  assert (E1' : devlog d1 = devlog d).
  { revert E1. unfold foreign_start. change (slot 0 _) with (InFlightPerCore (qu d) !! 0%nat). rewrite H0. ostep.
    by intros [= <-]. }
  destruct (queue_ok_foreign_started d d1 p k Hok Hk Hn Hb H0 EJ EQ) as [Hok1 _].
  set (f := (foreign_job p) <| Id := NextId (qu d) + 1 |>) in *.
  assert (Hx : jobs d1 !! k = Some f) by (rewrite EJ; apply lookup_insert_eq).
  destruct (kick_outcome e k d1 f Hok1 Hx) as (d2 & H). rewrite Hm in H. change (DenseKickValue f) with (KickValue p) in H.
  rewrite Hf in H. destruct (Z.eqb_spec (MmioLength e) 0); [lia|]. destruct (Z.leb_spec 0x558 (MmioLength e)); [|lia].
  simpl in H. destruct H as [Hkd E2]. pose proof (kk_quiet _ _ _ _ _ Hkd) as Hq.
  pose proof (queue_ok_quiet _ _ Hq Hok1) as Hok2.
  exists d1, d2. split; [done|]. split; [done|]. split; [done|]. split.
  { unfold sigs. by rewrite EJ, fmap_insert. }
  split; [rewrite (kk_log _ _ _ _ _ Hkd), E1'; reflexivity|].
  assert (H2 : InFlightPerCore (qu d2) !! 0%nat = Some (Some k)).
  { destruct Hq as [_ V]. unfold qview in V. assert (InFlightPerCore (qu d2) = InFlightPerCore (qu d1)) as -> by congruence.
    rewrite EQ. change (<[0%nat := Some k]> (InFlightPerCore (qu d)) !! 0%nat = Some (Some k)).
    apply list_lookup_insert_eq. by eapply lookup_lt_Some. }
  destruct (complete_outcome e res hw d2 Hok2) as [[Hn2 _]|(k' & y & d3 & E3 & Hc)]; [congruence|].
  pose proof (cp_slot _ _ _ _ _ _ _ Hc) as Hs. assert (k' = k) as -> by congruence.
  exists y, d3. split; [done|]. split; [done|]. split; [|by eapply completes_ok].
  pose proof (lookup_sigs _ _ _ (cp_job _ _ _ _ _ _ _ Hc)) as Hy. rewrite (proj1 Hq) in Hy.
  rewrite (lookup_sigs _ _ _ Hx) in Hy. congruence.
Qed.

(** The queue after the completion of a job that nobody abandoned. *)
Lemma completed_view e res hw d j x d' :
  completes e res hw d j x d' -> frees_here x = false ->
  Completed (qu d') = Completed (qu d) ++ [j] /\ InFlightPerCore (qu d') = <[0%nat := None]> (InFlightPerCore (qu d)) /\
  jobs d' = <[j := finished res hw (qpc d) x]> (jobs d).
Proof.
  intros Hc Hf. pose proof (cp_qu _ _ _ _ _ _ _ Hc) as Q. pose proof (cp_jobs _ _ _ _ _ _ _ Hc) as J.
  cbv zeta in Q. rewrite Hf in Q, J.
  assert (H : Completed (qu d') = Completed (qu d) ++ [j] /\
              InFlightPerCore (qu d') = <[0%nat := None]> (InFlightPerCore (qu d))).
  { destruct (wants_kick (qu d)); unfold qview in Q; injection Q; intros; split; assumption. }
  destruct H as [? ?]. done.
Qed.

Lemma unlinkq_inflight j q : InFlightPerCore (unlinkq j q) = InFlightPerCore q.
Proof. unfold unlinkq. by destruct (decide _). Qed.

Lemma peer_worker_outcome e p k d (res : NTSTATUS) hw :
  queue_ok (sigs d) (qu d) -> jobs d !! k = None -> NextId (qu d) + 1 < 2 ^ 64 -> bank_ok (Bank p) ->
  InFlightPerCore (qu d) !! 0%nat = Some None ->
  MmioBase e = true -> 0x558 <= MmioLength e -> flag (KickValue p) RKVDEC2_REG_DEC_E_BIT = true ->
  BankBytes p = sizeof_DENSE_BANK -> IovaSlotCount p <= RKMPP_MAX_DENSE_IOVA_SLOTS ->
  exists d' l1 l2, PeerKickWorker e (wait_ends e res hw) (Some k) p d = Some (Some (CompletionCookie p, res, hw), d') /\
    queue_ok (sigs d') (qu d') /\ InFlightPerCore (qu d') !! 0%nat = Some None /\ jobs d' !! k = None /\
    devlog d' = devlog d ++ l1 ++ kick_suffix e (foreign_job p) ++ l2.
Proof.
  intros Hok Hk Hn Hb H0 Hm Hl Hf Es Ei.
  destruct (foreign_completes e p k d res hw Hok Hk Hn Hb H0 Hm Hl Hf)
    as (d1 & d2 & E1 & E2 & _ & _ & L2 & y & d3 & E3 & Hc & Sy & Hok3).
  assert (Hfh : frees_here y = false).
  { unfold frees_here. assert (OrphanOnComplete y = false) as -> by exact (f_equal s_orphan Sy). done. }
  destruct (completed_view _ _ _ _ _ _ _ Hc Hfh) as (EC & EI & EJ).
  assert (Hin : k ∈ Completed (qu d3)) by (rewrite EC; apply elem_of_app; right; by apply list_elem_of_singleton).
  assert (Hx : jobs d3 !! k = Some (finished res hw (qpc d2) y)) by (rewrite EJ; apply lookup_insert_eq).
  eexists ((on_q (unlinkq k) d3) <| jobs := delete k (jobs d3) |>), (kick_prefix e d1), _. split; [|split; [|split; [|split]]].
  - unfold PeerKickWorker, RkMppJobRunForeign. rewrite Es, Z.eqb_refl. simpl negb. cbv iota.
    destruct (Z.ltb_spec RKMPP_MAX_DENSE_IOVA_SLOTS (IovaSlotCount p)); [lia|].
    rewrite E1. ostep. simpl negb. cbv iota. rewrite E2. ostep. unfold wait_ends. rewrite E3. ostep.
    rewrite (foreign_finish_done k d3 _ Hx Hin). ostep. reflexivity.
  - assert (Hq : queue_ok (delete k (sigs d3)) (unlinkq k (qu d3))).
    { apply queue_ok_unlink_free; [done|]. apply elem_of_app. by right. }
    unfold sigs in Hq. rewrite <- fmap_delete in Hq. exact Hq.
  - change (InFlightPerCore (unlinkq k (qu d3)) !! 0%nat = Some None). rewrite unlinkq_inflight, EI.
    apply list_lookup_insert_eq. pose proof (cp_slot _ _ _ _ _ _ _ Hc). by eapply lookup_lt_Some.
  - cbn [jobs set_field]. apply lookup_delete_eq.
  - cbn [devlog set_field on_q]. pose proof (cp_log _ _ _ _ _ _ _ Hc) as L3. cbv zeta in L3.
    rewrite L3, L2, <- !app_assoc. reflexivity.
Qed.

(** ** The consumer *)
Lemma peer_completion_outcome d j x (res : NTSTATUS) hw :
  queue_ok (sigs d) (qu d) -> InFlightPerCore (qu d) !! 1%nat = Some (Some j) -> jobs d !! j = Some x ->
  exists d', RkMppPeerCompletion (Id x) res hw d = Some d' /\
    jobs d' = <[j := finished res hw (qpc d) x]> (jobs d) /\
    InFlightPerCore (qu d') !! 1%nat = Some None /\ Completed (qu d') = Completed (qu d) ++ [j] /\
    Pending (qu d') = Pending (qu d) /\ (Pending (qu d) <> [] -> KickRearm (qu d') = true).
Proof.
  intros Hok Hs Hx. unfold RkMppPeerCompletion.
  destruct (peer_locked_outcome (Id x) res hw d Hok)
    as [[H _]|(j' & x' & d1 & Hs' & Hx' & _ & -> & EJ & EQ & _)]; [by destruct (H j x Hs Hx)|].
  ostep. assert (j' = j) as -> by congruence. assert (x' = x) as -> by congruence.
  set (x1 := x <| EndQpc := qpc d |> <| Result := res |> <| HardwareStatus := hw |>) in *.
  assert (Hx1 : jobs d1 !! j = Some x1) by (rewrite EJ; apply lookup_insert_eq).
  destruct (signal_eq j d1 x1 Hx1) as (d2 & -> & EJ2 & EQ2). ostep.
  assert (J : jobs d2 = <[j := finished res hw (qpc d) x]> (jobs d)) by (rewrite EJ2, EJ; apply insert_insert_eq).
  assert (I2 : InFlightPerCore (qu d2) !! 1%nat = Some None).
  { rewrite EQ2, EQ. change (<[1%nat := None]> (InFlightPerCore (qu d)) !! 1%nat = Some None).
    apply list_lookup_insert_eq. by eapply lookup_lt_Some. }
  assert (C2 : Completed (qu d2) = Completed (qu d) ++ [j] /\ Pending (qu d2) = Pending (qu d)).
  { by rewrite EQ2, EQ. }
  destruct C2 as [C2 P2]. unfold wants_kick. destruct (Pending (qu d)) as [|i l] eqn:EP; simpl negb; cbv iota.
  - exists d2. done.
  - destruct (enqueue_fields d2) as (N1 & N2 & _). eexists. split; [reflexivity|].
    split; [congruence|]. unfold qview in N2. simpl in N2. injection N2 as M1 M2 _ _ _ _ M7 _ _ M10 _.
    split; [by rewrite M7|]. split; [by rewrite M2|]. split; [by rewrite M1|]. intros _. done.
Qed.

(** C16: a kick through the peer is a round trip.  The work item PeerKickJob queues
    holds exactly the bank, the kick value, the slots and the id of the promoted job
    in the consumer's slot 1; on a provider whose core is free its worker programs
    that bank and starts the hardware with that kick value, and when the interrupt
    ends the foreign job with a status and a status word, the foreign job is gone,
    the core is free again, and the callback carries the id with both; the
    consumer's completion then finds the job by that id, takes it out of slot 1 and
    puts it, done, with both words, on the completed list, and everything else
    stays. *)
Theorem peer_kick_roundtrip e d j x prov k work (res : NTSTATUS) hw :
  queue_ok (sigs d) (qu d) -> InFlightPerCore (qu d) !! 1%nat = Some (Some j) -> jobs d !! j = Some x ->
  Z.of_nat (length (DenseIovaSlots x)) <= RKMPP_MAX_DENSE_IOVA_SLOTS ->
  flag (DenseKickValue x) RKVDEC2_REG_DEC_E_BIT = true ->
  queue_ok (sigs prov) (qu prov) -> InFlightPerCore (qu prov) !! 0%nat = Some None -> jobs prov !! k = None ->
  NextId (qu prov) + 1 < 2 ^ 64 -> MmioBase e = true -> 0x558 <= MmioLength e ->
  PeerKickJob (PeerAnswers true true true) (kick_params x) work = (STATUS_SUCCESS, work ++ [kick_params x]) /\
  exists prov' l1 l2 d',
    PeerKickWorker e (wait_ends e res hw) (Some k) (kick_params x) prov = Some (Some (Id x, res, hw), prov') /\
    devlog prov' = devlog prov ++ l1 ++ (bank_log (DenseBank x) ++ iommu_log e has_FlushTlb IommuFlushTlb ++
                                         [Mm (Wr kickByte (DenseKickValue x))]) ++ l2 /\
    queue_ok (sigs prov') (qu prov') /\ InFlightPerCore (qu prov') !! 0%nat = Some None /\ jobs prov' !! k = None /\
    RkMppPeerCompletion (Id x) res hw d = Some d' /\
    jobs d' = <[j := finished res hw (qpc d) x]> (jobs d) /\
    InFlightPerCore (qu d') !! 1%nat = Some None /\ Completed (qu d') = Completed (qu d) ++ [j] /\
    Pending (qu d') = Pending (qu d) /\ (Pending (qu d) <> [] -> KickRearm (qu d') = true).
Proof.
  intros Hok Hs Hx Hl Hf Hokp H0 Hk Hn Hm Hml.
  assert (Hb : bank_ok (Bank (kick_params x))) by exact (qo_bank _ _ Hok _ _ (lookup_sigs _ _ _ Hx)).
  destruct (peer_worker_outcome e (kick_params x) k prov res hw Hokp Hk Hn Hb H0 Hm Hml Hf eq_refl Hl)
    as (prov' & l1 & l2 & E & Hok' & Hs' & Hk' & L).
  destruct (peer_completion_outcome d j x res hw Hok Hs Hx) as (d' & E' & H).
  split; [|exists prov', l1, l2, d'; exact (conj E (conj L (conj Hok' (conj Hs' (conj Hk' (conj E' H))))))].
  unfold PeerKickJob. change (BankBytes (kick_params x)) with sizeof_DENSE_BANK. rewrite Z.eqb_refl. simpl negb. cbv iota.
  change (IovaSlotCount (kick_params x)) with (Z.of_nat (length (DenseIovaSlots x))).
  destruct (Z.ltb_spec RKMPP_MAX_DENSE_IOVA_SLOTS (Z.of_nat (length (DenseIovaSlots x)))); [lia|].
  unfold flag in Hf. apply negb_true_iff in Hf. change (KickValue (kick_params x)) with (DenseKickValue x).
  rewrite Hf. simpl negb. cbv iota. rewrite Nat2Z.id. unfold kick_params at 2. simpl IovaSlots. by rewrite firstn_all.
Qed.

(** The job on core 1 of [both_busy], run by an idle provider. *)
Lemma both_busy_facts : exists x, jobs both_busy !! 0x2000 = Some x /\ Id x = 2 /\
  Z.of_nat (length (DenseIovaSlots x)) = 1 /\ flag (DenseKickValue x) RKVDEC2_REG_DEC_E_BIT = true.
Proof.
  destruct (jobs both_busy !! 0x2000) as [x|] eqn:Hx; [|vm_compute in Hx; discriminate Hx].
  exists x. split; [reflexivity|].
  assert (F : (fun o => (Id <$> o, length ∘ DenseIovaSlots <$> o, (fun x => flag (DenseKickValue x) RKVDEC2_REG_DEC_E_BIT) <$> o))
                (jobs both_busy !! 0x2000) = (Some 2, Some 1%nat, Some true)) by (vm_compute; reflexivity).
  rewrite Hx in F. injection F as E1 E2 E3. rewrite E1, E3. unfold compose in E2. rewrite E2.
  exact (conj eq_refl (conj eq_refl eq_refl)).
Qed.

Lemma peer_kick_roundtrip_witness :
  exists x prov' d', jobs both_busy !! 0x2000 = Some x /\
    PeerKickWorker env0 (wait_ends env0 STATUS_SUCCESS 4) (Some 0x3000) (kick_params x) (dev sys0)
    = Some (Some (2, STATUS_SUCCESS, 4), prov') /\
    RkMppPeerCompletion 2 STATUS_SUCCESS 4 both_busy = Some d'.
Proof.
  destruct both_busy_facts as (x & Hx & Ei & El & Ef).
  assert (Hs : InFlightPerCore (qu both_busy) !! 1%nat = Some (Some 0x2000)) by (vm_compute; reflexivity).
  destruct (peer_kick_roundtrip env0 both_busy 0x2000 x (dev sys0) 0x3000 [] STATUS_SUCCESS 4
              (proj1 both_busy_ok) Hs Hx)
    as (_ & prov' & l1 & l2 & d' & E & _ & _ & _ & _ & E' & _).
  - rewrite El. vm_compute. discriminate.
  - exact Ef.
  - exact init_queue_ok.
  - reflexivity.
  - reflexivity.
  - reflexivity.
  - reflexivity.
  - vm_compute. discriminate.
  - rewrite Ei in E, E'. exists x, prov', d'. exact (conj Hx (conj E E')).
Defined.
