(* ===== verification/Dpb.v ===== *)
(** * Decoded picture buffers: what the two codecs share (mft/dpb.h, mft/dpb.cpp)

    The pool entries, the status codes, the hold flags of a slot with the operations
    on them, and the insertion sort of the reference lists.  A failing RKMPP_VERIFY
    or assert is a trap: [None]. *)

From S2P Require Import Prelude.

Definition DPB_MAX_SLOTS : Z := 16.

Record DpbPoolEntry := PoolEntry { output_frame : Z; colmv : Z }.

Inductive DpbStatus := DPB_OK | DPB_INVALID_INPUT | DPB_FULL.
#[export] Instance DpbStatus_eq_dec : EqDecision DpbStatus.
Proof. solve_decision. Defined.

Inductive DpbHoldReason := DPB_HOLD_REORDER | DPB_HOLD_READY | DPB_HOLD_CONSUMER.
#[export] Instance DpbHoldReason_eq_dec : EqDecision DpbHoldReason.
Proof. solve_decision. Defined.

(** RKMPP_VERIFY *)
Definition RKMPP_VERIFY (cond : bool) : option unit := if cond then Some tt else None.

(** ** The lifecycle flags and the epoch of a slot *)
Record hold := Hold { pending_reorder : bool; pending_ready : bool; held_by_consumer : bool; epoch : Z }.
#[export] Instance eta_hold : Eta hold := fun h =>
  Hold (pending_reorder h) (pending_ready h) (held_by_consumer h) (epoch h).
#[export] Instance hold_eq_dec : EqDecision hold.
Proof. solve_decision. Defined.

Definition no_hold (e : Z) : hold := Hold false false false e.
Definition held (h : hold) : bool := pending_reorder h || pending_ready h || held_by_consumer h.

Definition flag_get (h : hold) (r : DpbHoldReason) : bool :=
  match r with
  | DPB_HOLD_REORDER => pending_reorder h
  | DPB_HOLD_READY => pending_ready h
  | DPB_HOLD_CONSUMER => held_by_consumer h
  end.
Definition flag_set (r : DpbHoldReason) (v : bool) (h : hold) : hold :=
  match r with
  | DPB_HOLD_REORDER => h <| pending_reorder := v |>
  | DPB_HOLD_READY => h <| pending_ready := v |>
  | DPB_HOLD_CONSUMER => h <| held_by_consumer := v |>
  end.

(** Where a codec's DPB keeps the hold of a slot. *)
Class HoldSlots (D : Type) := {
  get_hold : D -> nat -> option hold;
  upd_hold : nat -> (hold -> hold) -> D -> D;
}.

Section hold_api.
Context {D : Type} `{!HoldSlots D}.

(** An index past the pool is ignored. *)
Definition AddHold (d : D) (slot_idx : Z) (reason : DpbHoldReason) (entry_epoch : Z) : option D :=
  match get_hold d (Z.to_nat slot_idx) with
  | None => Some d
  | Some h =>
      _ ← RKMPP_VERIFY (negb (flag_get h reason));
      _ ← RKMPP_VERIFY (epoch h =? entry_epoch);
      Some (upd_hold (Z.to_nat slot_idx) (flag_set reason true) d)
  end.

Definition ReleaseHold (d : D) (slot_idx : Z) (reason : DpbHoldReason) : option D :=
  match get_hold d (Z.to_nat slot_idx) with
  | None => Some d
  | Some h =>
      _ ← RKMPP_VERIFY (flag_get h reason);
      Some (upd_hold (Z.to_nat slot_idx) (flag_set reason false) d)
  end.

Definition TransferHold (d : D) (slot_idx : Z) (from to : DpbHoldReason) (entry_epoch : Z) : option D :=
  match get_hold d (Z.to_nat slot_idx) with
  | None => Some d
  | Some h =>
      _ ← RKMPP_VERIFY (negb (bool_decide (from = to)));
      _ ← RKMPP_VERIFY (flag_get h from);
      _ ← RKMPP_VERIFY (negb (flag_get h to));
      _ ← RKMPP_VERIFY (epoch h =? entry_epoch);
      Some (upd_hold (Z.to_nat slot_idx) (fun h => flag_set to true (flag_set from false h)) d)
  end.
End hold_api.

(** ** The insertion sort of the lists

    [for (i = 1; i < n; i++) for (j = i; j > 0 && before(a[j], a[j-1]); j--) swap]:
    the prefix below [i] is kept reversed, so that its head is [a[j-1]]. *)
Section insertion_sort.
Context {A : Type} (out_of_order : A -> A -> bool).

(** [out_of_order y x] is the test on [a[j-1] = y] and [a[j] = x]. *)
Fixpoint sink (x : A) (rev_prefix : list A) : list A :=
  match rev_prefix with
  | [] => [x]
  | y :: t => if out_of_order y x then y :: sink x t else x :: y :: t
  end.
Definition insertion_sort (l : list A) : list A := rev (foldl (fun p x => sink x p) [] l).
End insertion_sort.

(** The first index at which a slot satisfies [P]. *)
Fixpoint find_index {A} (P : nat -> A -> bool) (i : nat) (l : list A) : option nat :=
  match l with
  | [] => None
  | x :: l' => if P i x then Some i else find_index P (S i) l'
  end.
Definition find_slot_idx {A} (P : nat -> A -> bool) (l : list A) : option nat := find_index P 0 l.
