(* ===== verification/Dpb264.v ===== *)
(** * The H.264 decoded picture buffer (mft/dpb.h, mft/dpb.cpp)

    DpbCtx with slot selection, deferred reference marking (sliding window and
    MMCO), holds and flush, and the selection handed to the register builder.  The
    arrays are lists of the pool's length; pictures are frames. *)

From S2P Require Import Prelude Dpb.

(** ** What the DPB reads of the parser's result *)
Record H264Mmco := Mmco {
  op : Z; difference_of_pic_nums_minus1 : Z; long_term_pic_num : Z;
  mmco_long_term_frame_idx : Z; max_long_term_frame_idx_plus1 : Z }.

Definition V4L2_H264_DECODE_PARAM_FLAG_IDR_PIC : Z := 0x01.
Definition V4L2_H264_SLICE_TYPE_I : Z := 2.
Definition V4L2_H264_SLICE_TYPE_SI : Z := 4.
Definition V4L2_H264_FRAME_REF : Z := 0x3.
Definition V4L2_H264_DPB_ENTRY_FLAG_VALID : Z := 0x01.
Definition V4L2_H264_DPB_ENTRY_FLAG_ACTIVE : Z := 0x02.
Definition V4L2_H264_DPB_ENTRY_FLAG_LONG_TERM : Z := 0x04.

Record H264ParseResult := Parsed264 {
  has_slice : bool; has_sps : bool; decode_flags : Z; nal_ref_idc : Z; decode_frame_num : Z;
  top_field_order_cnt : Z; bottom_field_order_cnt : Z; slice_type : Z;
  sps_max_num_ref_frames : Z; log2_max_frame_num_minus4 : Z;
  adaptive_ref_pic_marking_mode_flag : bool; idr_long_term_reference_flag : bool;
  mmco : list H264Mmco }.

(** ** DpbCtx *)
Record slot264 := Slot264 {
  in_use : bool; is_ref : bool; long_term : bool; fields : Z; frame_num : Z;
  top_poc : Z; bottom_poc : Z; long_term_frame_idx : Z; slot_hold : hold }.
#[export] Instance eta_slot264 : Eta slot264 := fun s =>
  Slot264 (in_use s) (is_ref s) (long_term s) (fields s) (frame_num s)
          (top_poc s) (bottom_poc s) (long_term_frame_idx s) (slot_hold s).

Record DpbCtx := Dpb264Ctx {
  pool : list DpbPoolEntry; current_idx : option nat; current_epoch : Z;
  max_num_ref_frames : Z; max_frame_num : Z; curr_pic_num : Z; max_long_term_frame_idx : Z;
  pending_adaptive : bool; pending_mmco : list H264Mmco; pending_curr_pic_num : Z;
  last_bumped_poc : Z; slots : list slot264 }.
#[export] Instance eta_DpbCtx : Eta DpbCtx := fun c =>
  Dpb264Ctx (pool c) (current_idx c) (current_epoch c) (max_num_ref_frames c) (max_frame_num c)
            (curr_pic_num c) (max_long_term_frame_idx c) (pending_adaptive c) (pending_mmco c)
            (pending_curr_pic_num c) (last_bumped_poc c) (slots c).

#[export] Instance hold_slots_264 : HoldSlots DpbCtx := {
  get_hold c i := slot_hold <$> slots c !! i;
  upd_hold i f c := c <| slots ::= alter (fun s => s <| slot_hold ::= f |>) i |>;
}.

Definition upd_slot (i : nat) (f : slot264 -> slot264) (c : DpbCtx) : DpbCtx := c <| slots ::= alter f i |>.

(** ** Slots *)
Definition slot_held (s : slot264) : bool := held (slot_hold s).

Definition clear_slot (s : slot264) : slot264 :=
  Slot264 false false false 0 0 0 0 0 (slot_hold s).
Definition slot_clear (i : nat) (c : DpbCtx) : DpbCtx := upd_slot i clear_slot c.

Definition short_ref (s : slot264) : bool := in_use s && is_ref s && negb (long_term s).
Definition long_ref (s : slot264) : bool := in_use s && is_ref s && long_term s.

Definition find_short_term_by_pic_num (pic_num_x : Z) (c : DpbCtx) : option nat :=
  find_slot_idx (fun _ s => short_ref s && (frame_num s =? pic_num_x)) (slots c).
Definition find_long_term_by_lt_pic_num (lt_pic_num : Z) (c : DpbCtx) : option nat :=
  find_slot_idx (fun _ s => long_ref s && (long_term_frame_idx s =? lt_pic_num)) (slots c).
Definition find_long_term_by_frame_idx (lt_idx : Z) (c : DpbCtx) : option nat :=
  find_slot_idx (fun _ s => long_ref s && (long_term_frame_idx s =? lt_idx)) (slots c).

Definition find_free (c : DpbCtx) : option nat :=
  find_slot_idx (fun _ s => negb (in_use s) && negb (slot_held s)) (slots c).

(** Clear the found slot unless it is the current picture's. *)
Definition clear_other (cur : nat) (idx : option nat) (c : DpbCtx) : DpbCtx :=
  match idx with
  | Some i => if bool_decide (i = cur) then c else slot_clear i c
  | None => c
  end.

(** ** Memory management control operations *)
Definition pic_num_x (c : DpbCtx) (m : H264Mmco) : Z :=
  u32 (pending_curr_pic_num c - u32 (difference_of_pic_nums_minus1 m + 1)).

(** [int32_t] of a [uint32_t]. *)
Definition i32 (x : Z) : Z := if x <? 2 ^ 31 then x else x - 2 ^ 32.
Definition u16 (x : Z) : Z := x mod 2 ^ 16.

Definition lt_idx_rejected (c : DpbCtx) (m : H264Mmco) : bool :=
  (max_long_term_frame_idx c <? 0) || (max_long_term_frame_idx c <? i32 (mmco_long_term_frame_idx m)).

Definition make_long_term (m : H264Mmco) (s : slot264) : slot264 :=
  s <| long_term := true |> <| long_term_frame_idx := u16 (mmco_long_term_frame_idx m) |>.

Definition over_max (new_max : Z) (s : slot264) : bool :=
  long_ref s && ((new_max <? 0) || (new_max <? long_term_frame_idx s)).

(** Clear every slot but the current one that satisfies [P]. *)
Definition clear_all_but (cur : nat) (P : slot264 -> bool) (c : DpbCtx) : DpbCtx :=
  c <| slots ::= imap (fun i s => if P s && negb (bool_decide (i = cur)) then clear_slot s else s) |>.

Definition apply_mmco (cur : nat) (c : DpbCtx) (m : H264Mmco) : DpbCtx :=
  if op m =? 1 then clear_other cur (find_short_term_by_pic_num (pic_num_x c m) c) c
  else if op m =? 2 then clear_other cur (find_long_term_by_lt_pic_num (long_term_pic_num m) c) c
  else if op m =? 3 then
    if lt_idx_rejected c m then c else
    let x := pic_num_x c m in
    let c := clear_other cur (find_long_term_by_frame_idx (mmco_long_term_frame_idx m) c) c in
    match find_short_term_by_pic_num x c with
    | Some i => upd_slot i (make_long_term m) c
    | None => c
    end
  else if op m =? 4 then
    let new_max := i32 (max_long_term_frame_idx_plus1 m) - 1 in
    clear_all_but cur (over_max new_max) (c <| max_long_term_frame_idx := new_max |>)
  else if op m =? 5 then
    upd_slot cur (fun s => s <| frame_num := 0 |>)
      (clear_all_but cur (fun _ => true) c <| max_long_term_frame_idx := -1 |>)
  else if op m =? 6 then
    if lt_idx_rejected c m then c else
    upd_slot cur (make_long_term m)
      (clear_other cur (find_long_term_by_frame_idx (mmco_long_term_frame_idx m) c) c)
  else c.

Definition apply_mmco_ops (cur : nat) (c : DpbCtx) : DpbCtx := foldl (apply_mmco cur) c (pending_mmco c).

(** ** Sliding window *)

(** FrameNumWrap. *)
Definition fnw (curr_fn max_fn fn : Z) : Z := if curr_fn <? fn then fn - max_fn else fn.

Fixpoint oldest_scan (curr_fn max_fn : Z) (i : nat) (l : list slot264) (best : option (nat * Z))
  : option (nat * Z) :=
  match l with
  | [] => best
  | s :: l' =>
      let w := fnw curr_fn max_fn (frame_num s) in
      let best :=
        if negb (short_ref s) then best
        else match best with
             | None => Some (i, w)
             | Some (_, b) => if w <? b then Some (i, w) else best
             end in
      oldest_scan curr_fn max_fn (S i) l' best
  end.

Definition oldest_short_term (c : DpbCtx) : option nat :=
  fst <$> oldest_scan (curr_pic_num c) (if max_frame_num c =? 0 then 16 else max_frame_num c) 0 (slots c) None.

Definition evict_oldest_short_term (c : DpbCtx) : DpbCtx :=
  match oldest_short_term c with
  | Some i => slot_clear i (c <| last_bumped_poc := from_option top_poc 0 (slots c !! i) |>)
  | None => c
  end.

Definition count_short_refs (c : DpbCtx) : Z := Z.of_nat (length (filter (fun s => short_ref s = true) (slots c))).

(** The eviction loop of Dpb_OnDecodeComplete; [None] when the fuel runs out. *)
Fixpoint slide (fuel : nat) (max_refs : Z) (c : DpbCtx) : option DpbCtx :=
  if count_short_refs c <=? max_refs then Some c else
  match fuel with
  | O => None
  | S fuel' => slide fuel' max_refs (evict_oldest_short_term c)
  end.

(** ** Dpb_Init and Dpb_Flush *)
Definition zero_slot : slot264 := Slot264 false false false 0 0 0 0 0 (no_hold 0).

Definition Dpb_Init (p : list DpbPoolEntry) : option DpbCtx :=
  if (Z.of_nat (length p) =? 0) || (DPB_MAX_SLOTS <? Z.of_nat (length p)) then None else
  if existsb (fun e => (output_frame e =? 0) || (colmv e =? 0)) p then None else
  Some (Dpb264Ctx p None 0 0 0 0 (-1) false [] 0 0 (replicate (length p) zero_slot)).

Definition flush_slot (s : slot264) : option slot264 :=
  _ ← RKMPP_VERIFY (negb (pending_reorder (slot_hold s)));
  _ ← RKMPP_VERIFY (negb (pending_ready (slot_hold s)));
  Some (if held_by_consumer (slot_hold s)
        then s <| in_use := false |> <| is_ref := false |> <| long_term := false |>
        else clear_slot s).

Definition Dpb_Flush (c : DpbCtx) : option DpbCtx :=
  ss ← mapM flush_slot (slots c);
  Some (c <| slots := ss |> <| current_idx := None |> <| current_epoch ::= fun e => u32 (e + 1) |>).

(** ** Dpb_Select *)
Definition is_idr (p : H264ParseResult) : bool := flag (decode_flags p) V4L2_H264_DECODE_PARAM_FLAG_IDR_PIC.

Definition idr_flush (p : H264ParseResult) (c : DpbCtx) : DpbCtx :=
  if is_idr p
  then c <| slots ::= map clear_slot |>
         <| max_long_term_frame_idx := if idr_long_term_reference_flag p then 0 else -1 |>
  else c.

(** A free slot, making room once. *)
Definition pick_slot (c : DpbCtx) : option nat * DpbCtx :=
  match find_free c with
  | Some i => (Some i, c)
  | None => let c := evict_oldest_short_term c in (find_free c, c)
  end.

Definition take_slot (p : H264ParseResult) (ep : Z) (s : slot264) : slot264 :=
  Slot264 true (negb (nal_ref_idc p =? 0)) (is_idr p && idr_long_term_reference_flag p)
          V4L2_H264_FRAME_REF (decode_frame_num p) (top_field_order_cnt p) (bottom_field_order_cnt p) 0
          ((slot_hold s) <| epoch := ep |>).

(** [1u << (log2_max_frame_num_minus4 + 4)]. *)
Definition MaxFrameNum (p : H264ParseResult) : Z := u32 (Z.shiftl 1 (log2_max_frame_num_minus4 p + 4)).

(** The state the completion reads. *)
Definition capture (p : H264ParseResult) (i : nat) (c : DpbCtx) : DpbCtx :=
  c <| current_idx := Some i |>
    <| pending_adaptive := negb (is_idr p) && adaptive_ref_pic_marking_mode_flag p |>
    <| pending_mmco := if is_idr p then [] else mmco p |>
    <| pending_curr_pic_num := decode_frame_num p |>
    <| max_num_ref_frames := if sps_max_num_ref_frames p =? 0 then 1 else sps_max_num_ref_frames p |>
    <| max_frame_num := MaxFrameNum p |>
    <| curr_pic_num := decode_frame_num p |>.

(** The picture's slot and state are set up. *)
Definition taken (p : H264ParseResult) (i : nat) (c : DpbCtx) : DpbCtx :=
  capture p i (upd_slot i (take_slot p (current_epoch c)) c).

(** *** The compact view of the references *)
Definition active_refs (cur : nat) (c : DpbCtx) : list (nat * slot264) :=
  filter (fun x => (negb (bool_decide (x.1 = cur)) && in_use x.2 && is_ref x.2) = true)
         (imap pair (slots c)).

Definition ref_fnw (p : H264ParseResult) (x : nat * slot264) : Z :=
  fnw (decode_frame_num p) (MaxFrameNum p) (frame_num x.2).

Definition compact_refs (p : H264ParseResult) (cur : nat) (c : DpbCtx) : list (nat * slot264) :=
  insertion_sort (fun x y => ref_fnw p y <? ref_fnw p x) (active_refs cur c).

Record dpb_entry := DpbEntry {
  e_flags : Z; e_fields : Z; e_frame_num : Z; e_pic_num : Z; e_top : Z; e_bottom : Z }.
Definition zero_entry : dpb_entry := DpbEntry 0 0 0 0 0 0.

Definition entry_of (s : slot264) : dpb_entry :=
  let n := if long_term s then long_term_frame_idx s else frame_num s in
  DpbEntry (Z.lor (Z.lor V4L2_H264_DPB_ENTRY_FLAG_VALID V4L2_H264_DPB_ENTRY_FLAG_ACTIVE)
                  (if long_term s then V4L2_H264_DPB_ENTRY_FLAG_LONG_TERM else 0))
           (fields s) n n (top_poc s) (bottom_poc s).

Definition pad {A} (n : nat) (z : A) (l : list A) : list A := take n l ++ replicate (n - length l) z.

(** *** The three lists *)
Definition frame_poc (s : slot264) : Z := Z.min (top_poc s) (bottom_poc s).
Definition cur_poc (p : H264ParseResult) : Z := Z.min (top_field_order_cnt p) (bottom_field_order_cnt p).

(** A reference by its compact index. *)
Definition indexed (l : list (nat * slot264)) : list (Z * slot264) := imap (fun i x => (Z.of_nat i, x.2)) l.

Definition past_refs (p : H264ParseResult) (l : list (nat * slot264)) : list (Z * slot264) :=
  insertion_sort (fun x y => frame_poc x.2 <? frame_poc y.2)
    (filter (fun x => (frame_poc x.2 <=? cur_poc p) = true) (indexed l)).
Definition future_refs (p : H264ParseResult) (l : list (nat * slot264)) : list (Z * slot264) :=
  insertion_sort (fun x y => frame_poc y.2 <? frame_poc x.2)
    (filter (fun x => (frame_poc x.2 <=? cur_poc p) = false) (indexed l)).
Definition listP (p : H264ParseResult) (l : list (nat * slot264)) : list (Z * slot264) :=
  insertion_sort (fun x y => fnw (decode_frame_num p) (MaxFrameNum p) (frame_num x.2)
                             <? fnw (decode_frame_num p) (MaxFrameNum p) (frame_num y.2)) (indexed l).

(** An entry of a list: index and fields. *)
Definition v4l2_reference (x : Z * slot264) : Z * Z := (x.1, V4L2_H264_FRAME_REF).

Definition swap_first {A} (l : list A) : list A :=
  match l with x :: y :: t => y :: x :: t | _ => l end.

Definition ref_lists_of (p : H264ParseResult) (l : list (nat * slot264)) : list (list (Z * Z)) :=
  if is_idr p || (Z.of_nat (length l) =? 0) then [[]; []; []] else
  let l0 := map v4l2_reference (listP p l) in
  if (slice_type p =? V4L2_H264_SLICE_TYPE_I) || (slice_type p =? V4L2_H264_SLICE_TYPE_SI)
  then [l0; []; []] else
  let past := past_refs p l in
  let future := future_refs p l in
  let l1 := map v4l2_reference (past ++ future) in
  let l2 := map v4l2_reference (future ++ past) in
  let same := (1 <? Z.of_nat (length l1)) && bool_decide (l1.*1 = l2.*1) in
  [l0; l1; if same then swap_first l2 else l2].

Record DpbSelection := Selection264 {
  current_slot : nat; current_output : Z; current_colmv : Z;
  sel_refs : list Z; sel_ref_colmv : list Z; dpb_entries : list dpb_entry; ref_lists : list (list (Z * Z)) }.

(** The pool slot behind each of the sixteen addresses: past the references, the
    last one, or the current picture when there is none. *)
Definition ref_slots (cur : nat) (l : list (nat * slot264)) : list nat :=
  let fallback := from_option fst cur (last l) in
  pad (Z.to_nat DPB_MAX_SLOTS) fallback l.*1.

Definition selection (p : H264ParseResult) (cur : nat) (c : DpbCtx) : option DpbSelection :=
  let l := compact_refs p cur c in
  e ← pool c !! cur;
  ps ← mapM (fun i => pool c !! i) (ref_slots cur l);
  Some (Selection264 cur (output_frame e) (colmv e) (map output_frame ps) (map colmv ps)
          (pad (Z.to_nat DPB_MAX_SLOTS) zero_entry (map (fun x => entry_of x.2) l))
          (map (pad 32 (0, 0)) (ref_lists_of p l))).

Definition Dpb_Select (c : DpbCtx) (p : H264ParseResult) : option (DpbStatus * option DpbSelection * DpbCtx) :=
  if negb (has_slice p) then Some (DPB_INVALID_INPUT, None, c) else
  let c := idr_flush p c in
  let '(slot, c) := pick_slot c in
  match slot with
  | None => Some (DPB_FULL, None, c)
  | Some i =>
      s ← slots c !! i;
      _ ← RKMPP_VERIFY (negb (in_use s) && negb (slot_held s) && negb (is_ref s));
      _ ← RKMPP_VERIFY (negb (bool_decide (current_idx c = Some i)));
      out ← selection p i (taken p i c);
      Some (DPB_OK, Some out, taken p i c)
  end.

(** ** Completion *)
Definition INT32_MIN : Z := - 2 ^ 31.
Definition drop_pending (c : DpbCtx) : DpbCtx := c <| pending_adaptive := false |> <| pending_mmco := [] |>.

Definition Dpb_OnDecodeComplete (c : DpbCtx) : option DpbCtx :=
  let c := c <| last_bumped_poc := INT32_MIN |> in
  match current_idx c with
  | None => Some c
  | Some cur =>
      let c := c <| current_idx := None |> in
      s ← slots c !! cur;
      if negb (is_ref s) then Some (drop_pending (slot_clear cur c)) else
      c ← (if pending_adaptive c then Some (apply_mmco_ops cur c)
           else slide (length (slots c)) (if max_num_ref_frames c =? 0 then 1 else max_num_ref_frames c) c);
      Some (drop_pending c)
  end.

Definition Dpb_OnDecodeFailed (c : DpbCtx) : DpbCtx :=
  let c := c <| last_bumped_poc := INT32_MIN |> in
  drop_pending (match current_idx c with
                | None => c
                | Some cur => slot_clear cur (c <| current_idx := None |>)
                end).
