(* ===== verification/Dpb265.v ===== *)
(** * The HEVC decoded picture buffer (mft/dpb.h, mft/dpb.cpp)

    H265DpbCtx: marking driven by the reference picture set of the slice header,
    slot selection, holds and flush, and the selection handed to the register
    builder. *)

From S2P Require Import Prelude Dpb.

Definition H265_MAX_REFS : nat := 16.
Definition H265_DPB_REF_POC_SENTINEL : Z := 0x33333333.

(** ** What the DPB reads of the parser's result *)
Record H265ShortTermRPS := ShortTermRPS {
  num_negative_pics : Z; num_positive_pics : Z; delta_poc : list Z }.
Record H265Sps := Sps265 {
  sps_valid : bool; num_short_term_ref_pic_sets : Z; st_rps : list H265ShortTermRPS;
  sps_max_sub_layers_minus1 : Z; sps_max_num_reorder_pics : list Z }.
Record H265ParseResult := Parsed265 {
  has_slice_265 : bool; is_idr_265 : bool; nal_ref_flag : bool; parsed_poc : Z;
  short_term_ref_pic_set_sps_flag : bool; short_term_ref_pic_set_idx : Z; st_rps_slice : H265ShortTermRPS;
  active_sps_id : Z; active_pps_id : Z; sps_table : list H265Sps }.

(** ** H265DpbCtx *)
Record slot265 := Slot265 { in_use_265 : bool; is_ref_265 : bool; poc : Z; hold_265 : hold }.
#[export] Instance eta_slot265 : Eta slot265 := fun s =>
  Slot265 (in_use_265 s) (is_ref_265 s) (poc s) (hold_265 s).

Record H265DpbCtx := Dpb265Ctx {
  pool_265 : list DpbPoolEntry; current_idx_265 : option nat; current_epoch_265 : Z; slots_265 : list slot265 }.
#[export] Instance eta_H265DpbCtx : Eta H265DpbCtx := fun c =>
  Dpb265Ctx (pool_265 c) (current_idx_265 c) (current_epoch_265 c) (slots_265 c).

#[export] Instance hold_slots_265 : HoldSlots H265DpbCtx := {
  get_hold c i := hold_265 <$> slots_265 c !! i;
  upd_hold i f c := c <| slots_265 ::= alter (fun s => s <| hold_265 ::= f |>) i |>;
}.

Definition upd_slot_265 (i : nat) (f : slot265 -> slot265) (c : H265DpbCtx) : H265DpbCtx :=
  c <| slots_265 ::= alter f i |>.

Definition h265_slot_held (s : slot265) : bool := held (hold_265 s).
Definition clear_slot_265 (s : slot265) : slot265 := Slot265 false false 0 (hold_265 s).

(** First a slot that dropped out of the reference set, then an empty one. *)
Definition h265_find_free (c : H265DpbCtx) : option nat :=
  match find_slot_idx (fun _ s => negb (h265_slot_held s) && (in_use_265 s && negb (is_ref_265 s))) (slots_265 c) with
  | Some i => Some i
  | None => find_slot_idx (fun _ s => negb (h265_slot_held s) && negb (in_use_265 s)) (slots_265 c)
  end.

(** ** H265Dpb_Init and H265Dpb_Flush *)
Definition zero_slot_265 : slot265 := Slot265 false false 0 (no_hold 0).

Definition H265Dpb_Init (p : list DpbPoolEntry) : option H265DpbCtx :=
  if (Z.of_nat (length p) =? 0) || (DPB_MAX_SLOTS <? Z.of_nat (length p)) then None else
  if existsb (fun e => (output_frame e =? 0) || (colmv e =? 0)) p then None else
  Some (Dpb265Ctx p None 0 (replicate (length p) zero_slot_265)).

Definition flush_slot_265 (s : slot265) : option slot265 :=
  _ ← RKMPP_VERIFY (negb (pending_reorder (hold_265 s)));
  _ ← RKMPP_VERIFY (negb (pending_ready (hold_265 s)));
  Some (if held_by_consumer (hold_265 s)
        then s <| in_use_265 := false |> <| is_ref_265 := false |>
        else clear_slot_265 s).

Definition H265Dpb_Flush (c : H265DpbCtx) : option H265DpbCtx :=
  ss ← mapM flush_slot_265 (slots_265 c);
  Some (c <| slots_265 := ss |> <| current_idx_265 := None |>
          <| current_epoch_265 ::= fun e => u32 (e + 1) |>).

(** ** H265Dpb_Select *)

(** The set of the slice: inline, or an entry of the active SPS; the outer [None]
    is an index outside its array. *)
Definition h265_active_strps (p : H265ParseResult) : option (option H265ShortTermRPS) :=
  if negb (short_term_ref_pic_set_sps_flag p) then Some (Some (st_rps_slice p)) else
  if active_sps_id p <? 0 then Some None else
  sps ← sps_table p !! Z.to_nat (active_sps_id p);
  if negb (sps_valid sps) then Some None else
  if num_short_term_ref_pic_sets sps <=? short_term_ref_pic_set_idx p then Some None else
  r ← st_rps sps !! Z.to_nat (short_term_ref_pic_set_idx p);
  Some (Some r).

(** The POCs that stay: at most sixteen entries of the set. *)
Definition needed_pocs (p : H265ParseResult) (rps : option H265ShortTermRPS) : list Z :=
  match rps with
  | None => []
  | Some r =>
      map (fun d => parsed_poc p + d)
        (take (Nat.min (Z.to_nat (num_negative_pics r + num_positive_pics r)) H265_MAX_REFS) (delta_poc r))
  end.

Definition mark_slot (needed : list Z) (s : slot265) : slot265 :=
  if in_use_265 s then s <| is_ref_265 := bool_decide (poc s ∈ needed) |> else s.

Definition rps_marking (p : H265ParseResult) (c : H265DpbCtx) : option H265DpbCtx :=
  if is_idr_265 p then Some (c <| slots_265 ::= map clear_slot_265 |>) else
  rps ← h265_active_strps p;
  Some (c <| slots_265 ::= map (mark_slot (needed_pocs p rps)) |>).

Definition take_slot_265 (p : H265ParseResult) (s : slot265) : slot265 :=
  Slot265 true (nal_ref_flag p) (parsed_poc p) (hold_265 s).

Record H265DpbSelection := Selection265 {
  current_slot_265 : nat; current_output_iova : Z; current_colmv_iova : Z;
  refs_265 : list Z; ref_colmv_265 : list Z; ref_pocs : list Z; ref_valid_mask : Z;
  cur_top_poc : Z; cur_bot_poc : Z }.

(** Slot [i] as a reference of the picture in slot [cur]. *)
Definition active_ref_265 (cur : nat) (i : nat) (s : slot265) : bool :=
  negb (bool_decide (i = cur)) && in_use_265 s && is_ref_265 s.

Definition ref_fill {A} (z : A) (f : DpbPoolEntry -> slot265 -> A) (cur : nat) (c : H265DpbCtx) : list A :=
  imap (fun i x => if active_ref_265 cur i x.2 then f x.1 x.2 else z) (zip (pool_265 c) (slots_265 c)) ++
  replicate (Z.to_nat DPB_MAX_SLOTS - length (slots_265 c)) z.

Definition valid_mask (cur : nat) (c : H265DpbCtx) : Z :=
  foldr Z.lor 0 (imap (fun i s => if active_ref_265 cur i s then Z.shiftl 1 (Z.of_nat i) else 0) (slots_265 c)).

Definition selection_265 (p : H265ParseResult) (cur : nat) (c : H265DpbCtx) : option H265DpbSelection :=
  e ← pool_265 c !! cur;
  Some (Selection265 cur (output_frame e) (colmv e)
          (ref_fill 0 (fun e _ => output_frame e) cur c) (ref_fill 0 (fun e _ => colmv e) cur c)
          (ref_fill H265_DPB_REF_POC_SENTINEL (fun _ s => poc s) cur c) (valid_mask cur c)
          (parsed_poc p) (parsed_poc p)).

Definition H265Dpb_Select (c : H265DpbCtx) (p : H265ParseResult)
  : option (DpbStatus * option H265DpbSelection * H265DpbCtx) :=
  if negb (has_slice_265 p) then Some (DPB_INVALID_INPUT, None, c) else
  c ← rps_marking p c;
  match h265_find_free c with
  | None => Some (DPB_FULL, None, c)
  | Some i =>
      let c := upd_slot_265 i (take_slot_265 p) c <| current_idx_265 := Some i |> in
      out ← selection_265 p i c;
      Some (DPB_OK, Some out, c)
  end.

(** ** Completion *)
Definition H265Dpb_OnDecodeComplete (c : H265DpbCtx) : option H265DpbCtx :=
  match current_idx_265 c with
  | None => Some c
  | Some cur =>
      let c := c <| current_idx_265 := None |> in
      s ← slots_265 c !! cur;
      Some (if is_ref_265 s then c else upd_slot_265 cur clear_slot_265 c)
  end.

Definition H265Dpb_OnDecodeFailed (c : H265DpbCtx) : H265DpbCtx :=
  match current_idx_265 c with
  | None => c
  | Some cur => upd_slot_265 cur clear_slot_265 (c <| current_idx_265 := None |>)
  end.
