(* ===== verification/DecodeEngine.v ===== *)
(** * The decode engine's output order (mft/engine/decode_engine.cpp)

    DecodeEngine with its reorder and ready queues over the DPB of either codec: the
    submission of an access unit, the bumping process, polling, releasing, draining
    and flushing.  What the parser, the register builder and the hardware answer to
    an access unit is an input of the submission. *)

From S2P Require Import Prelude Dpb Dpb264 Dpb265.

(** ** The codec the engine dispatches on *)
Class Codec (D P : Type) := {
  codec_holds :: HoldSlots D;
  Select : D -> P -> option (DpbStatus * option nat * D);
  OnDecodeComplete : D -> option D;
  OnDecodeFailed : D -> D;
  Flush : D -> option D;
  slot_is_ref : D -> nat -> bool;
  current_poc : P -> Z;
  resolve_max_reorder : P -> option Z;
  idr_boundary : P -> bool;
  irap_header : Z -> bool;
  usable : P -> bool;
}.

Definition select_264 (c : DpbCtx) (p : H264ParseResult) : option (DpbStatus * option nat * DpbCtx) :=
  r ← Dpb_Select c p; let '(st, sel, c) := r : DpbStatus * option DpbSelection * DpbCtx in
  Some (st, current_slot <$> sel, c).

#[export] Instance codec_264 : Codec DpbCtx H264ParseResult := {
  codec_holds := hold_slots_264;
  Select := select_264;
  OnDecodeComplete := Dpb_OnDecodeComplete;
  OnDecodeFailed := Dpb_OnDecodeFailed;
  Flush := Dpb_Flush;
  slot_is_ref c i := from_option is_ref false (slots c !! i);
  current_poc := top_field_order_cnt;
  resolve_max_reorder p := Some (if has_sps p then sps_max_num_ref_frames p else 4);
  idr_boundary := is_idr;
  irap_header b := Z.land b 0x1f =? 5;
  usable := fun _ => true;
}.

Definition H265_MAX_SUB_LAYERS : Z := 7.

Definition max_reorder_265 (p : H265ParseResult) : option Z :=
  if active_sps_id p <? 0 then Some 4 else
  sps ← sps_table p !! Z.to_nat (active_sps_id p);
  let idx := Z.min (Z.max (sps_max_sub_layers_minus1 sps) 0) (H265_MAX_SUB_LAYERS - 1) in
  sps_max_num_reorder_pics sps !! Z.to_nat idx.

Definition select_265 (c : H265DpbCtx) (p : H265ParseResult) : option (DpbStatus * option nat * H265DpbCtx) :=
  r ← H265Dpb_Select c p; let '(st, sel, c) := r : DpbStatus * option H265DpbSelection * H265DpbCtx in
  Some (st, current_slot_265 <$> sel, c).

#[export] Instance codec_265 : Codec H265DpbCtx H265ParseResult := {
  codec_holds := hold_slots_265;
  Select := select_265;
  OnDecodeComplete := H265Dpb_OnDecodeComplete;
  OnDecodeFailed := H265Dpb_OnDecodeFailed;
  Flush := H265Dpb_Flush;
  slot_is_ref c i := from_option is_ref_265 false (slots_265 c !! i);
  current_poc := parsed_poc;
  resolve_max_reorder := max_reorder_265;
  idr_boundary := fun _ => false;
  irap_header b := let nut := Z.land (Z.shiftr b 1) 0x3f in (16 <=? nut) && (nut <=? 23);
  usable p := has_slice_265 p && (0 <=? active_sps_id p) && (0 <=? active_pps_id p);
}.

(** ** The engine *)
Definition kPoolSize : Z := 16.
Definition kMaxReorderPics : Z := 32.

Record ReorderEntry := Entry {
  r_poc : Z; pts_hns : Z; dur_hns : Z; slot_idx : Z; r_is_ref : bool; r_epoch : Z }.
#[export] Instance eta_ReorderEntry : Eta ReorderEntry := fun r =>
  Entry (r_poc r) (pts_hns r) (dur_hns r) (slot_idx r) (r_is_ref r) (r_epoch r).

Record engine {D : Type} := Engine {
  dpb : D; reorder_q : list ReorderEntry; ready_q : list ReorderEntry;
  max_num_reorder_pics : Z; submit_count : Z; wait_for_idr : bool; last_decoded_slot : Z }.
Arguments engine : clear implicits.
Arguments Engine {D} _ _ _ _ _ _ _.
#[export] Instance eta_engine D : Eta (engine D) := fun e =>
  Engine (dpb e) (reorder_q e) (ready_q e) (max_num_reorder_pics e) (submit_count e) (wait_for_idr e)
         (last_decoded_slot e).

(** An access unit and what the rest of the pipeline answers to it: its bytes, what
    the parser makes of them (when it succeeds, on a picture of the engine's size),
    whether the tables and registers could be built, whether the hardware produced a
    picture. *)
Record access_unit {P : Type} := AccessUnit {
  au_data : list Z; au_parsed : option P; au_registers : bool; au_output : bool; au_pts : Z }.
Arguments access_unit : clear implicits.
Arguments AccessUnit {P} _ _ _ _ _.

Section engine.
Context {D P : Type} `{!Codec D P}.

Definition in_pool (i : Z) : bool := (0 <=? i) && (i <? kPoolSize).

(** The header byte after each start code is looked at, and skipped. *)
Fixpoint au_has_irap (au : list Z) : bool :=
  match au with
  | a :: ((b :: c :: d :: rest) as tail) =>
      if (a =? 0) && (b =? 0) && (c =? 1) then irap_header d || au_has_irap rest else
      match rest with
      | h :: rest' =>
          if (a =? 0) && (b =? 0) && (c =? 0) && (d =? 1) then irap_header h || au_has_irap rest'
          else au_has_irap tail
      | [] => au_has_irap tail
      end
  | _ => false
  end.

(** The index of the first entry of least POC. *)
Fixpoint best_index (best : nat) (best_poc : Z) (i : nat) (l : list ReorderEntry) : nat :=
  match l with
  | [] => best
  | r :: l' => if r_poc r <? best_poc then best_index i (r_poc r) (S i) l' else best_index best best_poc (S i) l'
  end.
Definition lowest_poc (l : list ReorderEntry) : nat :=
  match l with [] => 0%nat | r :: l' => best_index 0 (r_poc r) 1 l' end.

(** The hold of an entry that moves between queues. *)
Definition move_hold (from to : DpbHoldReason) (r : ReorderEntry) (d : D) : option D :=
  if in_pool (slot_idx r) then TransferHold d (slot_idx r) from to (r_epoch r) else Some d.

Definition bump_lowest (e : engine D) : option (engine D) :=
  let i := lowest_poc (reorder_q e) in
  match reorder_q e !! i with
  | None => Some e
  | Some r =>
      d ← move_hold DPB_HOLD_REORDER DPB_HOLD_READY r (dpb e);
      Some (e <| dpb := d |> <| ready_q ::= fun l => l ++ [r] |> <| reorder_q ::= delete i |>)
  end.

(** [while (reorder_q.size() > n) bump_lowest], from a queue of at most [fuel]
    entries. *)
Fixpoint bump_until (n : Z) (fuel : nat) (e : engine D) : option (engine D) :=
  if Z.of_nat (length (reorder_q e)) <=? n then Some e else
  match fuel with
  | O => None
  | S fuel' => e ← bump_lowest e; bump_until n fuel' e
  end.

Definition DecodeEngine_Drain (e : engine D) : option (engine D) :=
  bump_until 0 (length (reorder_q e)) e.

Definition DecodeEngine_OnDecodeComplete (e : engine D) (entry : ReorderEntry) (max_reorder : Z)
    (is_idr_h264_boundary : bool) : option (engine D) :=
  let max_reorder := if kMaxReorderPics <? max_reorder then kMaxReorderPics else max_reorder in
  e ← (if is_idr_h264_boundary then DecodeEngine_Drain e else Some e);
  let e := e <| reorder_q ::= fun l => l ++ [entry] |> <| max_num_reorder_pics := max_reorder |> in
  bump_until max_reorder (length (reorder_q e)) e.

(** DecodeOne: the status, zero for success. *)
Definition DecodeEngine_DecodeOne (e : engine D) (a : access_unit P) : option (Z * engine D) :=
  match au_parsed a with
  | None => Some (1, e)
  | Some p =>
      if negb (usable p) then Some (1, e) else
      '(st, sel, d) ← Select (dpb e) p;
      match (sel : option nat) with
      | None => Some (1, e <| dpb := d |>)
      | Some i =>
          if negb (bool_decide (st = DPB_OK)) then Some (1, e <| dpb := d |>) else
          if negb (au_registers a) then Some (1, e <| dpb := OnDecodeFailed d |>) else
          if negb (au_output a) then Some (5, e <| dpb := OnDecodeFailed d |>) else
          d ← OnDecodeComplete d;
          Some (0, e <| dpb := d |> <| last_decoded_slot := Z.of_nat i |>)
      end
  end.

Definition entry_pts (e : engine D) (pts : Z) : Z :=
  if pts <? 0 then u64 (submit_count e * 10000000) / 30 else pts.

Definition DecodeEngine_Submit (e : engine D) (a : access_unit P) (ep : Z) : option (Z * engine D) :=
  if wait_for_idr e && negb (au_has_irap (au_data a)) then Some (0, e) else
  let e := e <| wait_for_idr := false |> in
  '(rc, e) ← DecodeEngine_DecodeOne e a;
  if negb (rc =? 0) then Some (rc, e <| wait_for_idr := true |>) else
  p ← au_parsed a;
  let i := last_decoded_slot e in
  d ← (if in_pool i then AddHold (dpb e) i DPB_HOLD_REORDER ep else Some (dpb e));
  max_reorder ← resolve_max_reorder p;
  let entry := Entry (current_poc p) (entry_pts e (au_pts a)) (10000000 / 30)
                     (if in_pool i then i else -1) (in_pool i && slot_is_ref d (Z.to_nat i)) ep in
  e ← DecodeEngine_OnDecodeComplete
        (e <| dpb := d |> <| submit_count ::= fun n => u64 (n + 1) |>) entry max_reorder (idr_boundary p);
  Some (0, e).

(** The frame handed to the consumer carries the entry. *)
Definition DecodeEngine_PollFrame (e : engine D) : option (option ReorderEntry * engine D) :=
  match ready_q e with
  | [] => Some (None, e)
  | r :: l =>
      d ← move_hold DPB_HOLD_READY DPB_HOLD_CONSUMER r (dpb e);
      Some (Some r, e <| ready_q := l |> <| dpb := d |>)
  end.

Definition release_hold (reason : DpbHoldReason) (r : ReorderEntry) (d : D) : option D :=
  if in_pool (slot_idx r) then ReleaseHold d (slot_idx r) reason else Some d.

Definition DecodeEngine_ReleaseFrame (e : engine D) (f : ReorderEntry) : option (engine D) :=
  d ← release_hold DPB_HOLD_CONSUMER f (dpb e); Some (e <| dpb := d |>).

Definition release_queue (reason : DpbHoldReason) (l : list ReorderEntry) (d : D) : option D :=
  foldlM (fun d r => release_hold reason r d) d l.

Definition DecodeEngine_Flush (e : engine D) : option (engine D) :=
  d ← release_queue DPB_HOLD_REORDER (reorder_q e) (dpb e);
  d ← release_queue DPB_HOLD_READY (ready_q e) d;
  d ← Flush d;
  Some (Engine d [] [] 0 0 true (last_decoded_slot e)).

Definition DecodeEngine_QueueDepth (e : engine D) : Z := Z.of_nat (length (reorder_q e)) + Z.of_nat (length (ready_q e)).
Definition DecodeEngine_InputQueueCapacity (e : engine D) : Z :=
  Z.min (Z.max (max_num_reorder_pics e + 1) 4) (kPoolSize - 1).

Definition DecodeEngine_Init (d : D) : engine D := Engine d [] [] 0 0 false (-1).
End engine.
