(* ===== verification/DpbFacts.v ===== *)
(** * Facts shared by the two DPBs

    Checks that pass, the insertion sort (a sorted permutation, stable), and the
    index searches. *)

From Stdlib Require Export Sorting.Sorted.
From S2P Require Import Prelude Dpb Dpb264 Dpb265 DecodeEngine.

(** A check that holds is passed. *)
Lemma verify_true {B} (b : bool) (k : unit -> option B) : b = true -> (RKMPP_VERIFY b ≫= k) = k tt.
Proof. by intros ->. Qed.

Lemma mapM_map {A B} (f : A -> option B) (g : A -> B) (l : list A) :
  (forall x, x ∈ l -> f x = Some (g x)) -> mapM f l = Some (map g l).
Proof.
  induction l as [|x l IH]; intros H; [done|]. simpl. rewrite (H x) by left. ostep. rewrite IH; [done|].
  intros y Hy. apply H. by right.
Qed.

(** ** Insertion sort *)
Section sorted.
Context {A : Type} (ooo : A -> A -> bool) (R : A -> A -> Prop).
Context (Htrans : forall x y z, R x y -> R y z -> R x z).
Context (Htrue : forall y x, ooo y x = true -> R x y) (Hfalse : forall y x, ooo y x = false -> R y x).

Lemma sink_perm x p : sink ooo x p ≡ₚ x :: p.
Proof.
  induction p as [|y t IH]; simpl; [done|]. destruct (ooo y x); [|done]. rewrite IH. apply Permutation_swap.
Qed.

Lemma sink_sorted x p : StronglySorted (flip R) p -> StronglySorted (flip R) (sink ooo x p).
Proof.
  induction 1 as [|y t Hs IH Hy]; simpl; [by repeat constructor|].
  destruct (ooo y x) eqn:E.
  - constructor; [exact IH|]. rewrite sink_perm. constructor; [by apply Htrue|done].
  - constructor; [by constructor|]. constructor; [by apply Hfalse|].
    eapply Forall_impl; [exact Hy|]. intros z Hz. eapply Htrans; [exact Hz|]. by apply Hfalse.
Qed.

Lemma isort_perm_acc l p : foldl (fun p x => sink ooo x p) p l ≡ₚ p ++ l.
Proof.
  revert p. induction l as [|x l IH]; intros p; simpl; [by rewrite app_nil_r|].
  rewrite IH, sink_perm. simpl. by rewrite Permutation_middle.
Qed.
Lemma insertion_sort_perm l : insertion_sort ooo l ≡ₚ l.
Proof. unfold insertion_sort. rewrite <- Permutation_rev. apply isort_perm_acc. Qed.

Lemma StronglySorted_rev l : StronglySorted (flip R) l -> StronglySorted R (rev l).
Proof.
  induction 1 as [|y t Hs IH Hy]; simpl; [constructor|].
  clear Hs. induction (rev t) as [|z u IHu] eqn:E in t, IH, Hy |- *; [by repeat constructor|].
  assert (Hall : Forall (fun w => R w y) (z :: u)).
  { rewrite <- E. by apply Forall_rev. }
  clear E Hy IHu. revert IH Hall. generalize (z :: u) as v. induction v as [|w v IHv]; intros Hs Ha; simpl;
    [by repeat constructor|].
  inversion_clear Hs. inversion_clear Ha. constructor; [by apply IHv|]. apply Forall_app. split; [done|].
  by repeat constructor.
Qed.

Lemma insertion_sort_sorted l : StronglySorted R (insertion_sort ooo l).
Proof.
  apply StronglySorted_rev. assert (H : StronglySorted (flip R) []) by constructor. revert H.
  generalize (@nil A) as p. induction l as [|x l IH]; intros p H; simpl; [done|]. by apply IH, sink_sorted.
Qed.

(** Elements that are never out of order keep their order. *)
Lemma sink_stable (P : A -> bool) x p :
  (forall y, P y = true -> P x = true -> ooo y x = false) ->
  filter (fun y => P y = true) (sink ooo x p) = filter (fun y => P y = true) (x :: p).
Proof.
  intros HP. induction p as [|y t IH]; [done|]. simpl. destruct (ooo y x) eqn:E; [|done].
  destruct (P y) eqn:Ey.
  - destruct (P x) eqn:Ex; [rewrite HP in E by done; done|].
    rewrite filter_cons_True, IH by (by rewrite Ey). rewrite !(filter_cons_False _ x) by (by rewrite Ex).
    by rewrite filter_cons_True by (by rewrite Ey).
  - rewrite filter_cons_False, IH by (by rewrite Ey). destruct (P x) eqn:Ex.
    + rewrite !(filter_cons_True _ x) by (by rewrite Ex). by rewrite filter_cons_False by (by rewrite Ey).
    + rewrite !(filter_cons_False _ x) by (by rewrite Ex). by rewrite filter_cons_False by (by rewrite Ey).
Qed.
Lemma insertion_sort_stable (P : A -> bool) l :
  (forall x y, P y = true -> P x = true -> ooo y x = false) ->
  filter (fun y => P y = true) (insertion_sort ooo l) = filter (fun y => P y = true) l.
Proof.
  intros HP. unfold insertion_sort.
  assert (H : forall p, filter (fun y => P y = true) (rev (foldl (fun p x => sink ooo x p) p l))
                   = filter (fun y => P y = true) (rev p ++ l)).
  { induction l as [|x l IH]; intros p; simpl; [by rewrite app_nil_r|]. rewrite IH, !filter_app.
    assert (Hr : forall q, filter (fun y => P y = true) (rev q) = rev (filter (fun y => P y = true) q)).
    { induction q as [|z q IHq]; simpl; [done|]. rewrite filter_app, IHq. destruct (P z) eqn:Ez.
      - by rewrite !filter_cons_True by (by rewrite Ez).
      - rewrite !filter_cons_False by (by rewrite Ez). by rewrite filter_nil, app_nil_r. }
    rewrite Hr, sink_stable by auto. rewrite <- Hr. simpl. rewrite filter_app, <- app_assoc, <- filter_app. done. }
  exact (H []).
Qed.
End sorted.

(** ** Searches *)
Lemma find_index_Some {A} (P : nat -> A -> bool) k l i :
  find_index P k l = Some i ->
  exists x, (k <= i)%nat /\ l !! (i - k)%nat = Some x /\ P i x = true /\
    forall j y, (j < i - k)%nat -> l !! j = Some y -> P (k + j)%nat y = false.
Proof.
  revert k. induction l as [|x l IH]; intros k; simpl; [done|]. destruct (P k x) eqn:E.
  - intros [= ->]. exists x. rewrite Nat.sub_diag. split; [lia|]. split; [done|]. split; [done|]. intros; lia.
  - intros H. destruct (IH _ H) as (y & Hk & Hl & Hp & Hn). exists y. split; [lia|].
    assert (Ei : (i - k = S (i - S k))%nat) by lia. rewrite Ei. split; [done|]. split; [done|].
    intros [|j] z Hj; simpl; [intros [= ->]; by rewrite Nat.add_0_r|]. intros Hz.
    replace (k + S j)%nat with (S k + j)%nat by lia. apply Hn; [lia|done].
Qed.
Lemma find_index_None {A} (P : nat -> A -> bool) k l :
  find_index P k l = None <-> forall j x, l !! j = Some x -> P (k + j)%nat x = false.
Proof.
  revert k. induction l as [|x l IH]; intros k; simpl; [split; [by intros _ ? ? ?|done]|]. split.
  - destruct (P k x) eqn:E; [done|]. intros H [|j] y; simpl; [intros [= <-]; by rewrite Nat.add_0_r|].
    intros Hy. replace (k + S j)%nat with (S k + j)%nat by lia. by apply (proj1 (IH _) H).
  - intros H. assert (E : P k x = false) by (specialize (H 0%nat x eq_refl); by rewrite Nat.add_0_r in H).
    rewrite E. apply IH. intros j y Hy. replace (S k + j)%nat with (k + S j)%nat by lia. by apply H.
Qed.
Lemma find_slot_idx_Some {A} (P : nat -> A -> bool) l i :
  find_slot_idx P l = Some i ->
  exists x, l !! i = Some x /\ P i x = true /\ forall j y, (j < i)%nat -> l !! j = Some y -> P j y = false.
Proof.
  intros H. apply find_index_Some in H as (x & _ & Hx & Hp & Hn). rewrite Nat.sub_0_r in *. exists x.
  split; [done|]. split; [done|]. intros j y Hj. exact (Hn j y Hj).
Qed.
Lemma find_slot_idx_None {A} (P : nat -> A -> bool) l :
  find_slot_idx P l = None <-> forall j x, l !! j = Some x -> P j x = false.
Proof. exact (find_index_None P 0 l). Qed.
