(* ===== verification/EngineFacts.v ===== *)
(** * The engine over the promises of its DPB

    [CodecLaws] is what a codec's DPB promises to the engine; the engine's invariant
    ties every hold flag to exactly one entry of a queue or frame at the consumer,
    and every operation keeps it. *)

From S2P Require Import Prelude Dpb Dpb264 Dpb265 DecodeEngine DpbFacts.

(** ** What a DPB promises

    [holds] reads the hold of every slot, [stamp] is the epoch a selected slot gets
    and [bumped] what it is after a flush; between pictures the DPB is [wf]. *)
Class CodecLaws (D P : Type) `{!Codec D P} := {
  wf : D -> Prop;
  wfP : P -> Prop;
  holds : D -> list hold;
  stamp : D -> Z;
  bumped : Z -> Z;
  law_size d : wf d -> (length (holds d) <= Z.to_nat kPoolSize)%nat;
  law_get d i : get_hold d i = holds d !! i;
  law_upd d i f : wf d -> (forall h, epoch (f h) = epoch h) -> wf (upd_hold i f d) /\ holds (upd_hold i f d) = alter f i (holds d) /\
    stamp (upd_hold i f d) = stamp d;
  law_select d p : wf d -> wfP p ->
    exists st sel d', Select d p = Some (st, sel, d') /\
      match sel with
      | None => st <> DPB_OK /\ wf d' /\ holds d' = holds d /\ stamp d' = stamp d
      | Some i =>
          st = DPB_OK /\ (exists h, holds d !! i = Some h /\ held h = false) /\
          let hs := <[i := no_hold (stamp d)]> (holds d) in
          (wf (OnDecodeFailed d') /\ holds (OnDecodeFailed d') = hs /\ stamp (OnDecodeFailed d') = stamp d) /\
          exists d'', OnDecodeComplete d' = Some d'' /\ wf d'' /\ holds d'' = hs /\ stamp d'' = stamp d
      end;
  law_flush d : wf d ->
    (forall i h, holds d !! i = Some h -> pending_reorder h = false /\ pending_ready h = false) ->
    exists d', Flush d = Some d' /\ wf d' /\ holds d' = holds d /\ stamp d' = bumped (stamp d);
  law_reorder p : wfP p -> exists n, resolve_max_reorder p = Some n /\ 0 <= n;
}.

(** ** The hold operations *)
Definition hold_for (r : DpbHoldReason) (ep : Z) : hold := flag_set r true (no_hold ep).

Lemma epoch_flag r v h : epoch (flag_set r v h) = epoch h.
Proof. by destruct r. Qed.
Lemma flag_get_for r r' ep : flag_get (hold_for r ep) r' = bool_decide (r = r').
Proof. by destruct r, r'. Qed.
Lemma held_for r ep : held (hold_for r ep) = true.
Proof. by destruct r. Qed.
Lemma hold_for_move from to ep : from <> to ->
  flag_set to true (flag_set from false (hold_for from ep)) = hold_for to ep.
Proof. by destruct from, to. Qed.
Lemma hold_for_clear r ep : flag_set r false (hold_for r ep) = no_hold ep.
Proof. by destruct r. Qed.
Lemma hold_for_inj r r' ep ep' : hold_for r ep = hold_for r' ep' -> r = r' /\ ep = ep'.
Proof. destruct r, r'; intros H; try (injection H as ->; done); discriminate H. Qed.

Lemma alter_to_insert {A} (f : A -> A) (i : nat) (l : list A) x : l !! i = Some x -> alter f i l = <[i := f x]> l.
Proof.
  intros Hx. apply list_eq. intros j. destruct (decide (j = i)) as [->|].
  - rewrite list_lookup_alter_eq, Hx, list_lookup_insert_eq; [done|by eapply lookup_lt_Some].
  - by rewrite list_lookup_alter_ne, list_lookup_insert_ne.
Qed.

Section holds.
Context {D P : Type} `{CodecLaws D P}.

Lemma add_hold_ok d i ep reason :
  wf d -> holds d !! i = Some (no_hold ep) ->
  exists d', AddHold d (Z.of_nat i) reason ep = Some d' /\ wf d' /\
    holds d' = <[i := hold_for reason ep]> (holds d) /\ stamp d' = stamp d.
Proof.
  intros Hw Hi. unfold AddHold. rewrite Nat2Z.id, law_get, Hi.
  assert (E : flag_get (no_hold ep) reason = false) by (by destruct reason). rewrite E. simpl. rewrite Z.eqb_refl. simpl.
  destruct (law_upd d i (flag_set reason true) Hw (epoch_flag _ _)) as (Hw' & Hh & Hs). eexists. split; [done|]. split; [done|].
  split; [|done]. rewrite Hh. exact (alter_to_insert _ i _ (no_hold ep) Hi).
Qed.

Lemma transfer_hold_ok d i ep from to :
  wf d -> from <> to -> holds d !! i = Some (hold_for from ep) ->
  exists d', TransferHold d (Z.of_nat i) from to ep = Some d' /\ wf d' /\
    holds d' = <[i := hold_for to ep]> (holds d) /\ stamp d' = stamp d.
Proof.
  intros Hw Hne Hi. unfold TransferHold. rewrite Nat2Z.id, law_get, Hi.
  rewrite !flag_get_for, (bool_decide_eq_false_2 (from = to)), (bool_decide_eq_true_2 (from = from)) by done. assert (Ee : epoch (hold_for from ep) = ep) by (by destruct from).
  rewrite Ee, Z.eqb_refl. simpl.
  destruct (law_upd d i (fun h => flag_set to true (flag_set from false h)) Hw
              (fun h => eq_trans (epoch_flag to true _) (epoch_flag from false h))) as (Hw' & Hh & Hs).
  eexists. split; [done|]. split; [done|]. split; [|done]. rewrite Hh. rewrite <- (hold_for_move from to ep Hne).
  exact (alter_to_insert _ i _ (hold_for from ep) Hi).
Qed.

Lemma release_hold_ok d i ep reason :
  wf d -> holds d !! i = Some (hold_for reason ep) ->
  exists d', ReleaseHold d (Z.of_nat i) reason = Some d' /\ wf d' /\
    holds d' = <[i := no_hold ep]> (holds d) /\ stamp d' = stamp d.
Proof.
  intros Hw Hi. unfold ReleaseHold. rewrite Nat2Z.id, law_get, Hi, flag_get_for, bool_decide_eq_true_2 by done. simpl.
  destruct (law_upd d i (flag_set reason false) Hw (epoch_flag _ _)) as (Hw' & Hh & Hs). eexists. split; [done|]. split; [done|].
  split; [|done]. rewrite Hh, <- (hold_for_clear reason ep).
  exact (alter_to_insert _ i _ (hold_for reason ep) Hi).
Qed.
End holds.

(** ** Entries and holds *)
Definition tag : Type := DpbHoldReason * ReorderEntry.
Definition slot_of (t : tag) : Z := slot_idx t.2.

Section engine_holds.
Context {D P : Type} `{CodecLaws D P}.

(** Every entry holds its slot with the flag of the queue it is in, and with its
    own epoch; no two share a slot; and no other slot is held. *)
Record tracks (d : D) (T : list tag) : Prop := Tracks {
  tr_wf : wf d;
  tr_nodup : NoDup (map slot_of T);
  tr_held t : t ∈ T -> exists i, slot_of t = Z.of_nat i /\ holds d !! i = Some (hold_for t.1 (r_epoch t.2));
  tr_only i h : holds d !! i = Some h -> held h = true -> Z.of_nat i ∈ map slot_of T;
}.

Lemma tracks_perm d T T' : T ≡ₚ T' -> tracks d T -> tracks d T'.
Proof.
  intros Hp [H1 H2 H3 H4]. split; [done| | |].
  - by rewrite <- Hp.
  - intros t Ht. apply H3. by rewrite Hp.
  - intros i h Hi Hh. rewrite <- Hp. eauto.
Qed.

Lemma tracks_in_pool d T t : tracks d T -> t ∈ T -> in_pool (slot_of t) = true.
Proof.
  intros HT Ht. destruct (tr_held _ _ HT t Ht) as (i & -> & Hi). apply lookup_lt_Some in Hi.
  pose proof (law_size d (tr_wf _ _ HT)). unfold in_pool, kPoolSize in *. apply andb_true_iff.
  rewrite Z.leb_le, Z.ltb_lt. lia.
Qed.

(** The hold of one slot changes, the entries with it. *)
Lemma tracks_insert d d' T t0 T' i (h : hold) :
  tracks d (t0 ++ T) -> holds d' = <[i := h]> (holds d) -> wf d' ->
  (i < length (holds d))%nat -> (Z.of_nat i ∉ map slot_of T) ->
  (forall t, t ∈ t0 -> slot_of t = Z.of_nat i) ->
  (forall t, t ∈ T' -> slot_of t = Z.of_nat i /\ h = hold_for t.1 (r_epoch t.2)) ->
  (length T' <= 1)%nat -> (held h = true -> T' <> []) ->
  tracks d' (T' ++ T).
Proof.
  intros HT Hh Hw Hi Hni H0 H' Hl Hheld.
  pose proof (tr_nodup _ _ HT) as Hnd. rewrite map_app in Hnd. apply NoDup_app in Hnd as (_ & _ & Hnd).
  split; [done| | |].
  - destruct T' as [|t [|]]; simpl in *; [done| |lia]. constructor; [|done].
    by rewrite (proj1 (H' t (ltac:(left)))).
  - intros t [Ht|Ht]%elem_of_app.
    + destruct (H' t Ht) as [Hs Eh]. exists i. split; [done|]. rewrite Hh, list_lookup_insert_eq by done. congruence.
    + destruct (tr_held _ _ HT t) as (k & Hs & Hk); [apply elem_of_app; by right|]. exists k. split; [done|].
      rewrite Hh, list_lookup_insert_ne; [done|]. intros <-. apply Hni. rewrite <- Hs. by apply list_elem_of_fmap_2.
  - intros k g Hk Hg. rewrite map_app, elem_of_app. rewrite Hh in Hk. destruct (decide (k = i)) as [->|Hne].
    + rewrite list_lookup_insert_eq in Hk by done. injection Hk as <-. left.
      destruct T' as [|t T']; [by destruct Hheld|]. rewrite <- (proj1 (H' t (ltac:(left)))). left.
    + rewrite list_lookup_insert_ne in Hk by done. pose proof (tr_only _ _ HT k g Hk Hg) as Hin.
      rewrite map_app, elem_of_app in Hin. destruct Hin as [Hin|Hin]; [|by right]. exfalso.
      apply list_elem_of_fmap in Hin as (t & Es & Ht). rewrite (H0 t Ht) in Es. lia.
Qed.

Lemma tracks_head d t T :
  tracks d (t :: T) -> exists i, slot_of t = Z.of_nat i /\ holds d !! i = Some (hold_for t.1 (r_epoch t.2)) /\
    (Z.of_nat i ∉ map slot_of T) /\ (i < length (holds d))%nat.
Proof.
  intros HT. destruct (tr_held _ _ HT t (ltac:(left))) as (i & Hs & Hi). exists i. split; [done|]. split; [done|].
  split; [|by eapply lookup_lt_Some]. pose proof (tr_nodup _ _ HT) as Hnd. simpl in Hnd.
  apply NoDup_cons in Hnd as [Hnd _]. by rewrite <- Hs.
Qed.

Lemma move_hold_ok d from to x T :
  tracks d ((from, x) :: T) -> from <> to ->
  exists d', move_hold from to x d = Some d' /\ tracks d' ((to, x) :: T) /\ stamp d' = stamp d.
Proof.
  intros HT Hne. destruct (tracks_head _ _ _ HT) as (i & Hs & Hi & Hni & Hl). unfold slot_of in Hs. simpl in Hs, Hi.
  pose proof (tracks_in_pool _ _ _ HT (ltac:(left))) as Hp. unfold slot_of in Hp. simpl in Hp.
  unfold move_hold. rewrite Hp, Hs.
  destruct (transfer_hold_ok d i (r_epoch x) from to (tr_wf _ _ HT) Hne Hi) as (d' & -> & Hw & Hh & Es).
  exists d'. split; [done|]. split; [|done].
  apply (tracks_insert d d' T [(from, x)] [(to, x)] i (hold_for to (r_epoch x))); try done.
  - by intros t ->%list_elem_of_singleton.
  - by intros t ->%list_elem_of_singleton.
Qed.

Lemma release_hold_ok' d reason x T :
  tracks d ((reason, x) :: T) ->
  exists d', release_hold reason x d = Some d' /\ tracks d' T /\ stamp d' = stamp d /\
    length (holds d') = length (holds d).
Proof.
  intros HT. destruct (tracks_head _ _ _ HT) as (i & Hs & Hi & Hni & Hl). unfold slot_of in Hs. simpl in Hs, Hi.
  pose proof (tracks_in_pool _ _ _ HT (ltac:(left))) as Hp. unfold slot_of in Hp. simpl in Hp.
  unfold release_hold. rewrite Hp, Hs.
  destruct (release_hold_ok d i (r_epoch x) reason (tr_wf _ _ HT) Hi) as (d' & -> & Hw & Hh & Es).
  exists d'. split; [done|]. split; [|split; [done|by rewrite Hh, length_insert]].
  apply (tracks_insert d d' T [(reason, x)] [] i (no_hold (r_epoch x))); try done; simpl; [|by intros t ?%elem_of_nil|lia].
  by intros t ->%list_elem_of_singleton.
Qed.

(** Fewer entries than slots leave one free. *)
Lemma tracks_room d T :
  tracks d T -> (length T < length (holds d))%nat -> exists i h, holds d !! i = Some h /\ held h = false.
Proof.
  intros HT Hl. destruct (decide (Exists (fun h => held h = false) (holds d))) as [He|He].
  { apply Exists_exists in He as (h & Hh & E). apply list_elem_of_lookup in Hh as [i Hi]. by exists i, h. }
  exfalso. assert (Hsub : map Z.of_nat (seq 0 (length (holds d))) ⊆+ map slot_of T).
  { apply NoDup_submseteq; [apply NoDup_fmap_2; [by intros ? ? ?%Nat2Z.inj|apply NoDup_seq]|].
    intros z (i & -> & Hi)%list_elem_of_fmap. apply elem_of_seq in Hi.
    destruct (lookup_lt_is_Some_2 (holds d) i) as [h Hh]; [lia|]. apply (tr_only _ _ HT i h Hh).
    destruct (held h) eqn:E; [done|]. exfalso. apply He, Exists_exists. exists h. split; [by eapply list_elem_of_lookup_2|done]. }
  apply submseteq_length in Hsub. rewrite !length_map, length_seq in Hsub. lia.
Qed.

(** A selected slot belongs to no entry. *)
Lemma unheld_unlisted d T i h : tracks d T -> holds d !! i = Some h -> held h = false -> Z.of_nat i ∉ map slot_of T.
Proof.
  intros HT Hi Hh Hin. apply list_elem_of_fmap in Hin as (t & Es & Ht).
  destruct (tr_held _ _ HT t Ht) as (k & Ek & Hk). assert (k = i) as -> by lia. rewrite Hi in Hk. injection Hk as ->.
  by rewrite held_for in Hh.
Qed.

Lemma restamp_tracks d d' T i h :
  tracks d T -> holds d !! i = Some h -> held h = false -> wf d' -> holds d' = <[i := no_hold (stamp d)]> (holds d) ->
  tracks d' T.
Proof.
  intros HT Hi Hh Hw E. pose proof (unheld_unlisted _ _ _ _ HT Hi Hh) as Hni.
  apply (tracks_insert d d' T [] [] i (no_hold (stamp d))); try done; simpl; [by eapply lookup_lt_Some|..];
    [by intros t ?%elem_of_nil|by intros t ?%elem_of_nil|lia].
Qed.

Lemma add_entry_ok d T i h x :
  tracks d T -> holds d !! i = Some h -> h = no_hold (r_epoch x) -> slot_idx x = Z.of_nat i ->
  exists d', AddHold d (Z.of_nat i) DPB_HOLD_REORDER (r_epoch x) = Some d' /\
    tracks d' ((DPB_HOLD_REORDER, x) :: T) /\ stamp d' = stamp d.
Proof.
  intros HT Hi -> Hs.
  destruct (add_hold_ok d i (r_epoch x) DPB_HOLD_REORDER (tr_wf _ _ HT) Hi) as (d' & -> & Hw & Hh & Es).
  exists d'. split; [done|]. split; [|done]. pose proof (unheld_unlisted _ _ _ _ HT Hi eq_refl) as Hni.
  apply (tracks_insert d d' T [] [(DPB_HOLD_REORDER, x)] i (hold_for DPB_HOLD_REORDER (r_epoch x))); try done.
  - by eapply lookup_lt_Some.
  - by intros t ?%elem_of_nil.
  - by intros t ->%list_elem_of_singleton.
Qed.
End engine_holds.

(** ** Bumping *)
Definition poc_le (x y : ReorderEntry) : Prop := r_poc x <= r_poc y.

Lemma best_index_spec best bp k l pre :
  length pre = k -> (exists r, pre !! best = Some r /\ r_poc r = bp) -> (forall r, r ∈ pre -> bp <= r_poc r) ->
  exists r, (pre ++ l) !! best_index best bp k l = Some r /\ forall r', r' ∈ pre ++ l -> poc_le r r'.
Proof.
  revert best bp k pre. induction l as [|x l IH]; intros best bp k pre Hk (r & Hr & Er) Hmin; simpl.
  - rewrite app_nil_r. exists r. split; [done|]. intros r' Hr'. unfold poc_le. rewrite Er. auto.
  - replace (pre ++ x :: l) with ((pre ++ [x]) ++ l) by (by rewrite <- app_assoc). destruct (Z.ltb_spec (r_poc x) bp).
    + apply IH; [rewrite length_app; simpl; lia| |].
      * exists x. split; [|done]. rewrite <- Hk. by rewrite list_lookup_middle by done.
      * intros y [Hy| ->%list_elem_of_singleton]%elem_of_app; [specialize (Hmin y Hy); lia|lia].
    + apply IH; [rewrite length_app; simpl; lia| |].
      * exists r. split; [|done]. rewrite lookup_app_l; [done|by eapply lookup_lt_Some].
      * intros y [Hy| ->%list_elem_of_singleton]%elem_of_app; [by apply Hmin|lia].
Qed.

Lemma lowest_poc_spec l : l <> [] ->
  exists r, l !! lowest_poc l = Some r /\ forall r', r' ∈ l -> poc_le r r'.
Proof.
  destruct l as [|x l]; [done|]. intros _. simpl. apply (best_index_spec 0 (r_poc x) 1 l [x]); [done|by exists x|].
  by intros r ->%list_elem_of_singleton.
Qed.

Section bumping.
Context {D P : Type} `{CodecLaws D P}.

(** The entries of the two queues, before those that are elsewhere. *)
Definition tags (e : engine D) (T : list tag) : list tag :=
  map (pair DPB_HOLD_REORDER) (reorder_q e) ++ map (pair DPB_HOLD_READY) (ready_q e) ++ T.

(** [out] leaves the reorder queue for the ready queue. *)
Record bumps (e e' : engine D) (out : list ReorderEntry) : Prop := Bumps {
  bu_ready : ready_q e' = ready_q e ++ out;
  bu_perm : out ++ reorder_q e' ≡ₚ reorder_q e;
  bu_sorted : StronglySorted poc_le out;
  bu_least x y : x ∈ out -> y ∈ reorder_q e' -> poc_le x y;
  bu_rest : e' = e <| dpb := dpb e' |> <| ready_q := ready_q e' |> <| reorder_q := reorder_q e' |>;
  bu_stamp : stamp (dpb e') = stamp (dpb e);
}.

Lemma bumps_refl e : bumps e e [].
Proof. split; try done; [by rewrite app_nil_r|constructor|by intros ? ? ?%elem_of_nil|by destruct e]. Qed.

Lemma bump_lowest_ok e T :
  tracks (dpb e) (tags e T) -> reorder_q e <> [] ->
  exists e' r, bump_lowest e = Some e' /\ tracks (dpb e') (tags e' T) /\ bumps e e' [r] /\
    length (reorder_q e) = S (length (reorder_q e')) /\ forall x, x ∈ reorder_q e -> poc_le r x.
Proof.
  intros HT Hne. unfold bump_lowest. destruct (lowest_poc_spec _ Hne) as (r & Hr & Hmin). rewrite Hr.
  pose proof (delete_Permutation _ _ _ Hr) as Hp.
  assert (HT' : tracks (dpb e) ((DPB_HOLD_REORDER, r) :: map (pair DPB_HOLD_REORDER) (delete (lowest_poc (reorder_q e)) (reorder_q e))
                 ++ map (pair DPB_HOLD_READY) (ready_q e) ++ T)).
  { eapply tracks_perm; [|exact HT].
    exact (Permutation_app_tail _ (Permutation_map (pair DPB_HOLD_REORDER) Hp)). }
  destruct (move_hold_ok _ _ DPB_HOLD_READY _ _ HT') as (d' & -> & HT2 & Es); [done|]. ostep.
  eexists _, r. split; [reflexivity|]. split; [|split; [|split]].
  - eapply tracks_perm; [|exact HT2]. unfold tags. simpl. rewrite map_app. simpl.
    rewrite <- app_assoc. simpl. rewrite (Permutation_middle _ _ (DPB_HOLD_READY, r)).
    by rewrite (Permutation_middle _ _ (DPB_HOLD_READY, r)).
  - split; simpl; try done; [by repeat constructor|].
    intros x y ->%list_elem_of_singleton Hy. apply Hmin. rewrite Hp. by right.
  - exact (Permutation_length Hp).
  - exact Hmin.
Qed.

Lemma bumps_cons e e1 e2 r out :
  bumps e e1 [r] -> (forall x, x ∈ reorder_q e -> poc_le r x) -> bumps e1 e2 out -> bumps e e2 (r :: out).
Proof.
  intros [A1 A2 A3 A4 A5 A6] Hmin [B1 B2 B3 B4 B5 B6].
  assert (Hr : forall x, x ∈ out ++ reorder_q e2 -> poc_le r x).
  { intros x Hx. apply Hmin. rewrite <- A2. simpl. right. by rewrite <- B2. }
  split.
  - by rewrite B1, A1, <- app_assoc.
  - simpl. rewrite B2. exact A2.
  - constructor; [done|]. rewrite Forall_forall. intros x Hx. apply Hr.
    apply elem_of_app. by left.
  - intros x y [->|Hx]%elem_of_cons Hy; [apply Hr, elem_of_app; by right|eauto].
  - rewrite B5, A5. done.
  - congruence.
Qed.

Lemma bump_until_ok n fuel : forall e T,
  0 <= n -> tracks (dpb e) (tags e T) -> (length (reorder_q e) <= fuel)%nat ->
  exists e' out, bump_until n fuel e = Some e' /\ tracks (dpb e') (tags e' T) /\ bumps e e' out /\
    Z.of_nat (length (reorder_q e')) = Z.min n (Z.of_nat (length (reorder_q e))).
Proof.
  induction fuel as [|fuel IH]; intros e T Hn HT Hf; simpl.
  - destruct (Z.leb_spec (Z.of_nat (length (reorder_q e))) n); [|lia].
    exists e, []. split; [done|]. split; [done|]. split; [apply bumps_refl|lia].
  - destruct (Z.leb_spec (Z.of_nat (length (reorder_q e))) n).
    { exists e, []. split; [done|]. split; [done|]. split; [apply bumps_refl|lia]. }
    assert (Hne : reorder_q e <> []) by (intros E; rewrite E in *; simpl in *; lia).
    destruct (bump_lowest_ok e T HT Hne) as (e1 & r & -> & HT1 & Hb & Hl & Hmin). ostep.
    destruct (IH e1 T Hn HT1) as (e2 & out & -> & HT2 & Hb2 & Hl2); [lia|].
    exists e2, (r :: out). split; [done|]. split; [done|]. split; [by eapply bumps_cons|]. lia.
Qed.
End bumping.

(** ** The operations *)
Section operations.
Context {D P : Type} `{CodecLaws D P}.

Definition at_consumer (live : list ReorderEntry) : list tag := map (pair DPB_HOLD_CONSUMER) live.
Definition eng_ok (e : engine D) (live : list ReorderEntry) : Prop := tracks (dpb e) (tags e (at_consumer live)).

Lemma drain_tracks e T :
  tracks (dpb e) (tags e T) ->
  exists e' out, DecodeEngine_Drain e = Some e' /\ tracks (dpb e') (tags e' T) /\ bumps e e' out /\ reorder_q e' = [].
Proof.
  intros HT. destruct (bump_until_ok 0 (length (reorder_q e)) e T) as (e' & out & E & HT' & Hb & Hl); [lia|done|lia|].
  exists e', out. split; [done|]. split; [done|]. split; [done|]. apply nil_length_inv. lia.
Qed.

(** The order of a completed picture: [first] leaves before it is queued (at an
    IDR of H.264, everything), [out] after. *)
Record completes_order (e e' : engine D) (entry : ReorderEntry) (n : Z) (idr : bool)
    (first out : list ReorderEntry) : Prop := {
  oc_ready : ready_q e' = ready_q e ++ first ++ out;
  oc_first : if idr then first ≡ₚ reorder_q e else first = [];
  oc_perm : out ++ reorder_q e' ≡ₚ (if idr then [] else reorder_q e) ++ [entry];
  oc_sorted : StronglySorted poc_le first /\ StronglySorted poc_le out;
  oc_least x y : x ∈ out -> y ∈ reorder_q e' -> poc_le x y;
  oc_length : Z.of_nat (length (reorder_q e'))
              = Z.min n (Z.of_nat (length ((if idr then [] else reorder_q e) ++ [entry])));
  oc_window : max_num_reorder_pics e' = n;
  oc_stamp : stamp (dpb e') = stamp (dpb e);
}.

Lemma on_complete_ok e T entry n idr :
  tracks (dpb e) (tags e ((DPB_HOLD_REORDER, entry) :: T)) -> 0 <= n ->
  exists e' first out,
    DecodeEngine_OnDecodeComplete e entry n idr = Some e' /\ tracks (dpb e') (tags e' T) /\
    wait_for_idr e' = wait_for_idr e /\
    completes_order e e' entry (Z.min n kMaxReorderPics) idr first out.
Proof.
  intros HT Hn. unfold DecodeEngine_OnDecodeComplete.
  replace (if kMaxReorderPics <? n then kMaxReorderPics else n) with (Z.min n kMaxReorderPics)
    by (destruct (Z.ltb_spec kMaxReorderPics n); lia).
  set (m := Z.min n kMaxReorderPics). assert (Hm : 0 <= m) by (unfold m, kMaxReorderPics; lia).
  assert (H1 : exists e1 first, (if idr then DecodeEngine_Drain e else Some e) = Some e1 /\
     tracks (dpb e1) (tags e1 ((DPB_HOLD_REORDER, entry) :: T)) /\ bumps e e1 first /\
     (if idr then reorder_q e1 = [] else e1 = e /\ first = [])).
  { destruct idr; [|exists e, []; split; [done|]; split; [exact HT|]; split; [apply bumps_refl|done]].
    destruct (drain_tracks e _ HT) as (e1 & out & E & HT1 & Hb & Hq). exists e1, out. done. }
  destruct H1 as (e1 & first & -> & HT1 & Hb1 & Hq1). ostep.
  set (e2 := e1 <| reorder_q ::= _ |> <| max_num_reorder_pics := m |>).
  assert (Hq2 : reorder_q e2 = (if idr then [] else reorder_q e) ++ [entry]).
  { change (reorder_q e2) with (reorder_q e1 ++ [entry]). destruct idr; [by rewrite Hq1|]. by destruct Hq1 as [-> _]. }
  assert (HT2 : tracks (dpb e2) (tags e2 T)).
  { eapply tracks_perm; [|exact HT1]. unfold tags. change (reorder_q e2) with (reorder_q e1 ++ [entry]).
    change (ready_q e2) with (ready_q e1). rewrite map_app, <- app_assoc. simpl.
    by rewrite (Permutation_middle (map (pair DPB_HOLD_READY) (ready_q e1)) T (DPB_HOLD_REORDER, entry)). }
  destruct (bump_until_ok m (length (reorder_q e2)) e2 T Hm HT2) as (e3 & out & E & HT3 & Hb & Hl); [lia|].
  exists e3, first, out. split; [exact E|]. split; [done|]. split.
  { rewrite (bu_rest _ _ _ Hb). change (wait_for_idr e1 = wait_for_idr e). by rewrite (bu_rest _ _ _ Hb1). }
  destruct Hb as [B1 B2 B3 B4 B5 B6], Hb1 as [A1 A2 A3 A4 A5 A6]. split.
  - rewrite B1. change (ready_q e2) with (ready_q e1). by rewrite A1, <- app_assoc.
  - destruct idr; [|by destruct Hq1]. by rewrite Hq1, app_nil_r in A2.
  - by rewrite B2, Hq2.
  - done.
  - done.
  - by rewrite Hl, Hq2.
  - rewrite B5. done.
  - rewrite B6. exact A6.
Qed.

Lemma poll_ok e live :
  eng_ok e live ->
  exists o e', DecodeEngine_PollFrame e = Some (o, e') /\ stamp (dpb e') = stamp (dpb e) /\
    match o with
    | None => ready_q e = [] /\ e' = e
    | Some r => ready_q e = r :: ready_q e' /\ reorder_q e' = reorder_q e /\ eng_ok e' (r :: live)
    end.
Proof.
  intros HT. unfold DecodeEngine_PollFrame. destruct (ready_q e) as [|r l] eqn:Er.
  { exists None, e. done. }
  assert (HT1 : tracks (dpb e) ((DPB_HOLD_READY, r) :: map (pair DPB_HOLD_REORDER) (reorder_q e) ++
            map (pair DPB_HOLD_READY) l ++ at_consumer live)).
  { eapply tracks_perm; [|exact HT]. unfold tags. rewrite Er. simpl. symmetry.
    apply Permutation_middle. }
  destruct (move_hold_ok _ _ DPB_HOLD_CONSUMER _ _ HT1) as (d' & -> & HT2 & Es); [done|]. ostep.
  eexists (Some r), _. split; [reflexivity|]. split; [exact Es|]. split; [done|]. split; [done|].
  eapply tracks_perm; [|exact HT2]. unfold tags, at_consumer. simpl.
  rewrite (Permutation_middle _ _ (DPB_HOLD_CONSUMER, r)).
  by rewrite (Permutation_middle _ _ (DPB_HOLD_CONSUMER, r)).
Qed.

Lemma release_ok e live1 r live2 :
  eng_ok e (live1 ++ r :: live2) ->
  exists e', DecodeEngine_ReleaseFrame e r = Some e' /\ eng_ok e' (live1 ++ live2) /\ stamp (dpb e') = stamp (dpb e) /\
    reorder_q e' = reorder_q e /\ ready_q e' = ready_q e.
Proof.
  intros HT. unfold DecodeEngine_ReleaseFrame.
  assert (HT1 : tracks (dpb e) ((DPB_HOLD_CONSUMER, r) :: tags e (at_consumer (live1 ++ live2)))).
  { eapply tracks_perm; [|exact HT]. unfold tags, at_consumer. rewrite !map_app. simpl.
    by rewrite <- (Permutation_middle (map _ live1)), <- !Permutation_middle. }
  destruct (release_hold_ok' _ _ _ _ HT1) as (d' & -> & HT2 & Es & _). ostep.
  eexists. split; [reflexivity|]. done.
Qed.

Lemma release_queue_ok reason l : forall d T,
  tracks d (map (pair reason) l ++ T) ->
  exists d', release_queue reason l d = Some d' /\ tracks d' T /\ stamp d' = stamp d /\
    length (holds d') = length (holds d).
Proof.
  induction l as [|r l IH]; intros d T HT; [by exists d|]. unfold release_queue. rewrite foldlM_cons.
  destruct (release_hold_ok' _ _ _ _ HT) as (d1 & -> & HT1 & E1 & L1). ostep.
  destruct (IH d1 T HT1) as (d2 & E & HT2 & E2 & L2). exists d2. split; [exact E|]. split; [done|]. split; congruence.
Qed.

Lemma flush_ok e live :
  eng_ok e live ->
  exists e', DecodeEngine_Flush e = Some e' /\ eng_ok e' live /\ reorder_q e' = [] /\ ready_q e' = [] /\
    wait_for_idr e' = true /\ stamp (dpb e') = bumped (stamp (dpb e)) /\
    length (holds (dpb e')) = length (holds (dpb e)).
Proof.
  intros HT. unfold DecodeEngine_Flush, eng_ok, tags in *.
  destruct (release_queue_ok _ _ _ _ HT) as (d1 & -> & HT1 & E1 & L1). ostep.
  destruct (release_queue_ok _ _ _ _ HT1) as (d2 & -> & HT2 & E2 & L2). ostep.
  destruct (law_flush d2 (tr_wf _ _ HT2)) as (d3 & -> & Hw & Hh & E3).
  { intros i h Hi. destruct (held h) eqn:Eh; [|unfold held in Eh; by destruct (pending_reorder h), (pending_ready h)].
    pose proof (tr_only _ _ HT2 i h Hi Eh) as Hin. apply list_elem_of_fmap in Hin as (t & Es & Ht).
    destruct (tr_held _ _ HT2 t Ht) as (k & Ek & Hk). assert (k = i) as -> by lia. rewrite Hi in Hk. injection Hk as ->.
    apply list_elem_of_fmap in Ht as (r & -> & _). done. }
  ostep. eexists. split; [reflexivity|]. split; [|split; [done|]; split; [done|]; split; [done|]; simpl; split; congruence].
  simpl. destruct HT2 as [T1 T2 T3 T4]. split; [done|done| |].
  - intros t Ht. rewrite Hh. by apply T3.
  - intros i h. rewrite Hh. apply T4.
Qed.

(** What the decoding of an access unit does to the queues: nothing; on success
    the slot it leaves was nobody's. *)
Lemma decode_one_ok e T a :
  tracks (dpb e) (tags e T) -> (forall p, au_parsed a = Some p -> wfP p) ->
  exists rc e', DecodeEngine_DecodeOne e a = Some (rc, e') /\ tracks (dpb e') (tags e' T) /\
    stamp (dpb e') = stamp (dpb e) /\ reorder_q e' = reorder_q e /\ ready_q e' = ready_q e /\
    wait_for_idr e' = wait_for_idr e /\ submit_count e' = submit_count e /\
    (rc = 0 -> exists p i, au_parsed a = Some p /\ last_decoded_slot e' = Z.of_nat i /\
       holds (dpb e') !! i = Some (no_hold (stamp (dpb e))) /\ Z.of_nat i ∉ map slot_of (tags e T)).
Proof.
  intros HT Hp. unfold DecodeEngine_DecodeOne. destruct (au_parsed a) as [p|] eqn:Ep.
  2: { exists 1, e. by repeat (split; [done|]). }
  destruct (usable p); simpl negb; cbv iota.
  2: { exists 1, e. by repeat (split; [done|]). }
  destruct (law_select (dpb e) p (tr_wf _ _ HT) (Hp p eq_refl)) as (st & sel & d & -> & Hsel). ostep.
  destruct sel as [i|].
  2: { destruct Hsel as (_ & Hw & Hh & Es). eexists 1, _. split; [reflexivity|]. split; [|by repeat (split; [done|])].
       destruct HT as [T1 T2 T3 T4]. split; [done|done| |].
       - intros t Ht. cbn [dpb set_field]. rewrite Hh. by apply T3.
       - intros j g. cbn [dpb set_field]. rewrite Hh. apply T4. }
  destruct Hsel as (-> & (h & Hi & Hh) & (Hwf & Hhf & Hsf) & d2 & Ed & Hw2 & Hh2 & Hs2).
  pose proof (unheld_unlisted _ _ _ _ HT Hi Hh) as Hni.
  assert (HTf : tracks (OnDecodeFailed d) (tags e T)) by (by eapply restamp_tracks).
  destruct (au_registers a); simpl negb; cbv iota.
  2: { eexists 1, _. split; [reflexivity|]. split; [exact HTf|]. by repeat (split; [done|]). }
  destruct (au_output a); simpl negb; cbv iota.
  2: { eexists 5, _. split; [reflexivity|]. split; [exact HTf|]. by repeat (split; [done|]). }
  rewrite Ed. ostep. eexists 0, _. split; [reflexivity|]. split; [by eapply (restamp_tracks (dpb e) d2)|].
  do 5 (split; [done|]). intros _. exists p, i. do 2 (split; [done|]). split; [|done].
  simpl. rewrite Hh2. apply list_lookup_insert_eq. by eapply lookup_lt_Some.
Qed.

Lemma submit_ok e live a :
  eng_ok e live -> (forall p, au_parsed a = Some p -> wfP p) ->
  exists rc e', DecodeEngine_Submit e a (stamp (dpb e)) = Some (rc, e') /\ eng_ok e' live /\
    stamp (dpb e') = stamp (dpb e) /\
    ((reorder_q e' = reorder_q e /\ ready_q e' = ready_q e /\ wait_for_idr e' = true) \/
     (rc = 0 /\ wait_for_idr e' = false /\ exists p n entry first out,
        au_parsed a = Some p /\ resolve_max_reorder p = Some n /\ r_poc entry = current_poc p /\
        (slot_idx entry ∉ map slot_of (tags e (at_consumer live))) /\
        completes_order e e' entry (Z.min n kMaxReorderPics) (idr_boundary p) first out)).
Proof.
  intros HT Hp. unfold DecodeEngine_Submit. destruct (wait_for_idr e && negb (au_has_irap (au_data a))) eqn:Ew.
  { apply andb_true_iff in Ew as [Ew _]. exists 0, e. split; [done|]. split; [done|]. split; [done|]. by left. }
  set (e0 := e <| wait_for_idr := false |>).
  destruct (decode_one_ok e0 (at_consumer live) a HT Hp) as (rc & e1 & -> & HT1 & Es & Eq & Er & Ewt & Ec & Hrc). ostep.
  destruct (Z.eqb_spec rc 0) as [->|Hne]; simpl negb; cbv iota.
  2: { eexists rc, _. split; [reflexivity|]. split; [exact HT1|]. split; [exact Es|]. left. done. }
  destruct (Hrc eq_refl) as (p & i & Ep & El & Hi & Hni). rewrite Ep. ostep.
  set (entry0 := fun b => Entry (current_poc p) (entry_pts e1 (au_pts a)) (10000000 / 30) (Z.of_nat i) b (stamp (dpb e))).
  assert (Hin : in_pool (Z.of_nat i) = true).
  { apply lookup_lt_Some in Hi. pose proof (law_size _ (tr_wf _ _ HT1)). unfold in_pool, kPoolSize in *.
    apply andb_true_iff. rewrite Z.leb_le, Z.ltb_lt. lia. }
  rewrite El, Hin. destruct (law_reorder p (Hp p Ep)) as (n & En & Hn).
  destruct (add_entry_ok (dpb e1) (tags e1 (at_consumer live)) i _ (entry0 false) HT1 Hi eq_refl eq_refl)
    as (d' & Ed & HT2 & Es2). change (r_epoch (entry0 false)) with (stamp (dpb e)) in Ed. rewrite Ed. ostep.
  rewrite En. ostep. simpl andb. set (b := slot_is_ref d' _).
  change (Entry _ _ _ _ _ _) with (entry0 b).
  set (e2 := e1 <| dpb := d' |> <| submit_count ::= _ |>).
  assert (HT3 : tracks (dpb e2) (tags e2 ((DPB_HOLD_REORDER, entry0 b) :: at_consumer live))).
  { assert (Hb : tracks d' ((DPB_HOLD_REORDER, entry0 b) :: tags e1 (at_consumer live))).
    { destruct HT2 as [T1 T2 T3 T4]. split; [done|exact T2| |exact T4].
      intros t [->|Ht]%elem_of_cons; [|apply T3; by right].
      destruct (T3 (DPB_HOLD_REORDER, entry0 false)) as (k & Ek & Hk); [by left|]. by exists k. }
    eapply tracks_perm; [|exact Hb]. unfold tags. change (reorder_q e2) with (reorder_q e1).
    change (ready_q e2) with (ready_q e1).
    rewrite (Permutation_middle (map (pair DPB_HOLD_REORDER) (reorder_q e1))).
    by rewrite (Permutation_middle (map (pair DPB_HOLD_READY) (ready_q e1))). }
  destruct (on_complete_ok e2 _ _ n (idr_boundary p) HT3 Hn) as (e3 & first & out & E & HT4 & Ewt3 & Ho).
  rewrite E. ostep. exists 0, e3. split; [done|]. split; [exact HT4|].
  assert (Es3 : stamp (dpb e3) = stamp (dpb e)).
  { rewrite (oc_stamp _ _ _ _ _ _ _ Ho). change (dpb e2) with d'. rewrite Es2. exact Es. }
  split; [exact Es3|]. right. split; [done|]. split.
  { rewrite Ewt3. exact Ewt. }
  exists p, n, (entry0 b), first, out. do 3 (split; [done|]). split; [exact Hni|].
  destruct Ho as [O1 O2 O3 O4 O5 O6 O7 _].
  change (reorder_q e2) with (reorder_q e1) in *. change (ready_q e2) with (ready_q e1) in *. rewrite Eq in *. rewrite Er in *.
  split; done.
Qed.
End operations.
