(* ===== verification/Dpb265Facts.v ===== *)
(** * Facts about the HEVC DPB

    The marking by the reference picture set, the valid mask, and the laws towards
    the engine: the epoch of a slot stays zero, whatever the flushes count. *)

From S2P Require Import Prelude Dpb Dpb265 DecodeEngine DpbFacts EngineFacts.

Definition holds_265 (c : H265DpbCtx) : list hold := map hold_265 (slots_265 c).

Record wf_265 (c : H265DpbCtx) : Prop := Wf265 {
  w5_pool : length (slots_265 c) = length (pool_265 c);
  w5_size : (length (slots_265 c) <= Z.to_nat DPB_MAX_SLOTS)%nat;
  w5_idle : current_idx_265 c = None;
  w5_epoch h : h ∈ holds_265 c -> epoch h = 0;
}.
(** The indices the parser hands over are in their arrays. *)
Definition wf_parsed_265 (p : H265ParseResult) : Prop :=
  is_Some (h265_active_strps p) /\ exists n, max_reorder_265 p = Some n /\ 0 <= n.

(** ** Steps that keep the holds *)
Record keeps_265 (c c' : H265DpbCtx) : Prop := Keeps265 {
  k5_holds : holds_265 c' = holds_265 c;
  k5_pool : pool_265 c' = pool_265 c;
  k5_idx : current_idx_265 c' = current_idx_265 c;
}.

Lemma keeps_wf_265 c c' : keeps_265 c c' -> wf_265 c -> wf_265 c'.
Proof.
  intros [K1 K2 K3] [H1 H2 H3 H4]. pose proof (f_equal length K1) as El. unfold holds_265 in El. rewrite !length_map in El.
  split; [by rewrite El, K2|by rewrite El|by rewrite K3|by rewrite K1].
Qed.

Lemma keeps_upd_265 i f c : (forall s, hold_265 (f s) = hold_265 s) -> keeps_265 c (upd_slot_265 i f c).
Proof.
  intros Hf. split; [|done|done]. unfold holds_265. change (slots_265 (upd_slot_265 i f c)) with (alter f i (slots_265 c)).
  apply list_eq. intros j. rewrite !list_lookup_fmap. destruct (decide (j = i)) as [->|].
  - rewrite list_lookup_alter_eq. destruct (slots_265 c !! i); simpl; [by rewrite Hf|done].
  - by rewrite list_lookup_alter_ne.
Qed.

Lemma keeps_map_265 f c :
  (forall s, hold_265 (f s) = hold_265 s) -> keeps_265 c (c <| slots_265 ::= map f |>).
Proof. intros Hf. split; [|done|done]. unfold holds_265. simpl. rewrite map_map. by apply map_ext. Qed.

Lemma keeps_trans_265 a b c : keeps_265 a b -> keeps_265 b c -> keeps_265 a c.
Proof. intros [A1 A2 A3] [B1 B2 B3]. split; congruence. Qed.

Lemma mark_slot_hold needed s : hold_265 (mark_slot needed s) = hold_265 s.
Proof. unfold mark_slot. by destruct (in_use_265 s). Qed.

Lemma marking_keeps p c :
  is_Some (h265_active_strps p) -> exists c', rps_marking p c = Some c' /\ keeps_265 c c'.
Proof.
  intros [r Hr]. unfold rps_marking. destruct (is_idr_265 p).
  - eexists. split; [reflexivity|]. by apply keeps_map_265.
  - rewrite Hr. ostep. eexists. split; [reflexivity|]. apply keeps_map_265. intros s. apply mark_slot_hold.
Qed.

Lemma find_free_265 c i :
  h265_find_free c = Some i -> exists s, slots_265 c !! i = Some s /\ h265_slot_held s = false /\
    (in_use_265 s = true -> is_ref_265 s = false).
Proof.
  unfold h265_find_free. destruct (find_slot_idx _ (slots_265 c)) as [k|] eqn:E.
  - intros [= ->]. apply find_slot_idx_Some in E as (s & Hs & Hb & _). exists s. split; [done|].
    destruct (h265_slot_held s), (in_use_265 s), (is_ref_265 s); done.
  - intros H. apply find_slot_idx_Some in H as (s & Hs & Hb & _). exists s. split; [done|].
    destruct (h265_slot_held s), (in_use_265 s), (is_ref_265 s); done.
Qed.

(** ** Completion *)
Definition idle_265 (c : H265DpbCtx) : H265DpbCtx := c <| current_idx_265 := None |>.

Lemma complete_keeps_265 c cur :
  current_idx_265 c = Some cur -> (cur < length (slots_265 c))%nat ->
  exists c', H265Dpb_OnDecodeComplete c = Some c' /\ keeps_265 (idle_265 c) c'.
Proof.
  intros Hi Hl. unfold H265Dpb_OnDecodeComplete. rewrite Hi. fold (idle_265 c).
  destruct (lookup_lt_is_Some_2 (slots_265 (idle_265 c)) cur) as [s Hs]; [exact Hl|]. rewrite Hs. ostep.
  eexists. split; [reflexivity|]. destruct (is_ref_265 s); [by split|by apply keeps_upd_265].
Qed.

Lemma failed_keeps_265 c : is_Some (current_idx_265 c) -> keeps_265 (idle_265 c) (H265Dpb_OnDecodeFailed c).
Proof. intros [cur Hi]. unfold H265Dpb_OnDecodeFailed. rewrite Hi. by apply (keeps_upd_265 cur _ (idle_265 c)). Qed.

(** ** The promises to the engine *)
Lemma upd_265 (d : H265DpbCtx) i f :
  wf_265 d -> (forall h, epoch (f h) = epoch h) ->
  wf_265 (upd_hold i f d) /\ holds_265 (upd_hold i f d) = alter f i (holds_265 d).
Proof.
  intros [H1 H2 H3 H4] Hf.
  assert (El : slots_265 (upd_hold i f d) = alter (fun s => s <| hold_265 ::= f |>) i (slots_265 d)) by reflexivity.
  assert (Eh : holds_265 (upd_hold i f d) = alter f i (holds_265 d)).
  { unfold holds_265. rewrite El. apply list_eq. intros j. rewrite list_lookup_fmap. destruct (decide (j = i)) as [->|].
    - rewrite !list_lookup_alter_eq, list_lookup_fmap. by destruct (slots_265 d !! i).
    - by rewrite !list_lookup_alter_ne, list_lookup_fmap. }
  split; [|done]. split; rewrite ?El, ?length_alter; try done. intros h. rewrite Eh. intros Hh.
  apply list_elem_of_lookup in Hh as [j Hj]. destruct (decide (j = i)) as [->|].
  - rewrite list_lookup_alter_eq in Hj. apply fmap_Some in Hj as (g & Hg & ->). rewrite Hf.
    apply H4. by eapply list_elem_of_lookup_2.
  - rewrite list_lookup_alter_ne in Hj by done. apply H4. by eapply list_elem_of_lookup_2.
Qed.

Definition claimed (p : H265ParseResult) (i : nat) (c : H265DpbCtx) : H265DpbCtx :=
  upd_slot_265 i (take_slot_265 p) c <| current_idx_265 := Some i |>.

Lemma select_outcome_265 c p :
  wf_265 c -> wf_parsed_265 p ->
  (has_slice_265 p = false /\ H265Dpb_Select c p = Some (DPB_INVALID_INPUT, None, c)) \/
  (has_slice_265 p = true /\ exists c1, rps_marking p c = Some c1 /\ keeps_265 c c1 /\
     match h265_find_free c1 with
     | None => H265Dpb_Select c p = Some (DPB_FULL, None, c1)
     | Some i => exists s out, slots_265 c1 !! i = Some s /\ h265_slot_held s = false /\
         selection_265 p i (claimed p i c1) = Some out /\ current_slot_265 out = i /\
         H265Dpb_Select c p = Some (DPB_OK, Some out, claimed p i c1)
     end).
Proof.
  intros Hw [Hr _]. unfold H265Dpb_Select. destruct (has_slice_265 p); cbn [negb]; [right; split; [done|]|by left].
  destruct (marking_keeps p c Hr) as (c1 & E & K). exists c1. split; [done|]. split; [done|]. rewrite E. ostep.
  destruct (h265_find_free c1) as [i|] eqn:Ef; [|done]. destruct (find_free_265 c1 i Ef) as (s & Hs & Hh & _).
  pose proof (keeps_wf_265 _ _ K Hw) as Hw1. apply lookup_lt_Some in Hs as Hl. rewrite (w5_pool _ Hw1) in Hl.
  destruct (lookup_lt_is_Some_2 (pool_265 c1) i Hl) as [e He]. fold (claimed p i c1).
  assert (Eo : exists out, selection_265 p i (claimed p i c1) = Some out /\ current_slot_265 out = i).
  { unfold selection_265. change (pool_265 (claimed p i c1)) with (pool_265 c1). rewrite He. ostep. eexists. split; reflexivity. }
  destruct Eo as (out & Eo & Ec). exists s, out. split; [done|]. split; [done|]. split; [done|]. split; [done|].
  rewrite Eo. reflexivity.
Qed.

Lemma claimed_idle p i c s :
  wf_265 c -> slots_265 c !! i = Some s -> h265_slot_held s = false ->
  wf_265 (idle_265 (claimed p i c)) /\ holds_265 (idle_265 (claimed p i c)) = <[i := no_hold 0]> (holds_265 c).
Proof.
  intros Hw Hs Hh.
  assert (K : keeps_265 c (idle_265 (claimed p i c))).
  { destruct (keeps_upd_265 i (take_slot_265 p) c) as [K1 K2 K3]; [done|]. split; [exact K1|exact K2|].
    symmetry. apply (w5_idle _ Hw). }
  split; [by eapply keeps_wf_265|]. rewrite (k5_holds _ _ K). symmetry. apply list_insert_id. unfold holds_265.
  rewrite list_lookup_fmap, Hs. simpl. f_equal.
  assert (He : epoch (hold_265 s) = 0).
  { apply (w5_epoch _ Hw). unfold holds_265. apply list_elem_of_fmap_2. by eapply list_elem_of_lookup_2. }
  unfold h265_slot_held, held in Hh. destruct (hold_265 s) as [[] [] [] ep]; try done. simpl in He. by subst.
Qed.

Lemma select_law_265 d p :
  wf_265 d -> wf_parsed_265 p ->
  exists st sel d', select_265 d p = Some (st, sel, d') /\
    match sel with
    | None => st <> DPB_OK /\ wf_265 d' /\ holds_265 d' = holds_265 d
    | Some i =>
        st = DPB_OK /\ (exists h, holds_265 d !! i = Some h /\ held h = false) /\
        let hs := <[i := no_hold 0]> (holds_265 d) in
        (wf_265 (H265Dpb_OnDecodeFailed d') /\ holds_265 (H265Dpb_OnDecodeFailed d') = hs) /\
        exists d'', H265Dpb_OnDecodeComplete d' = Some d'' /\ wf_265 d'' /\ holds_265 d'' = hs
    end.
Proof.
  intros Hw Hp. unfold select_265. destruct (select_outcome_265 d p Hw Hp) as [[_ ->]|(_ & c1 & _ & K & Ho)].
  { ostep. eexists _, None, d. split; [reflexivity|]. done. }
  pose proof (keeps_wf_265 _ _ K Hw) as Hw1. destruct (h265_find_free c1) as [i|].
  2: { rewrite Ho. ostep. eexists _, None, c1. split; [reflexivity|]. split; [done|]. split; [done|]. apply (k5_holds _ _ K). }
  destruct Ho as (s & out & Hs & Hh & _ & Eo & ->). ostep.
  eexists DPB_OK, (Some i), (claimed p i c1). split; [by rewrite <- Eo|]. split; [done|].
  split. { exists (hold_265 s). split; [|done]. rewrite <- (k5_holds _ _ K). unfold holds_265. by rewrite list_lookup_fmap, Hs. }
  destruct (claimed_idle p i c1 s Hw1 Hs Hh) as [Hwi Hhi]. rewrite (k5_holds _ _ K) in Hhi.
  assert (Hfin : forall d'', keeps_265 (idle_265 (claimed p i c1)) d'' -> wf_265 d'' /\
     holds_265 d'' = <[i := no_hold 0]> (holds_265 d)).
  { intros d'' K'. split; [by eapply keeps_wf_265|]. by rewrite (k5_holds _ _ K'). }
  split; [apply Hfin, failed_keeps_265; by exists i|].
  destruct (complete_keeps_265 (claimed p i c1) i) as (d'' & E & K'); [done| |].
  { change (slots_265 (claimed p i c1)) with (alter (take_slot_265 p) i (slots_265 c1)). rewrite length_alter.
    by eapply lookup_lt_Some. }
  exists d''. split; [done|]. by apply Hfin.
Qed.

Definition flushed_265 (s : slot265) : slot265 :=
  if held_by_consumer (hold_265 s) then s <| in_use_265 := false |> <| is_ref_265 := false |> else clear_slot_265 s.
Lemma flushed_hold_265 s : hold_265 (flushed_265 s) = hold_265 s.
Proof. unfold flushed_265. by destruct (held_by_consumer (hold_265 s)). Qed.

Lemma flush_265 c :
  (forall i h, holds_265 c !! i = Some h -> pending_reorder h = false /\ pending_ready h = false) ->
  H265Dpb_Flush c = Some (c <| slots_265 := map flushed_265 (slots_265 c) |> <| current_idx_265 := None |>
                            <| current_epoch_265 ::= fun e => u32 (e + 1) |>).
Proof.
  intros H. unfold H265Dpb_Flush. rewrite (mapM_map _ flushed_265); [done|]. intros s Hs.
  apply list_elem_of_lookup in Hs as [i Hi]. destruct (H i (hold_265 s)) as [E1 E2].
  { unfold holds_265. by rewrite list_lookup_fmap, Hi. }
  unfold flush_slot_265. rewrite verify_true by (by rewrite E1). by rewrite verify_true by (by rewrite E2).
Qed.

#[export] Instance laws_265 : CodecLaws H265DpbCtx H265ParseResult.
Proof.
  refine {| wf := wf_265; wfP := wf_parsed_265; holds := holds_265; stamp := fun _ => 0; bumped := fun e => e |}.
  - intros d Hw. unfold holds_265. rewrite length_map. apply (w5_size _ Hw).
  - intros d i. symmetry. apply list_lookup_fmap.
  - intros d i f Hw Hf. destruct (upd_265 d i f Hw Hf) as [H1 H2]. done.
  - intros d p Hw Hp. destruct (select_law_265 d p Hw Hp) as (st & sel & d' & E & H). exists st, sel, d'.
    split; [exact E|]. destruct sel as [i|]; [|tauto]. destruct H as (H1 & H2 & [H3 H4] & d'' & H5 & H6 & H7). eauto 10.
  - intros d Hw Hh. eexists. split; [exact (flush_265 d Hh)|]. split; [|split; [|done]].
    + destruct Hw as [H1 H2 H3 H4]. split; try done.
      * simpl. by rewrite length_map.
      * simpl. by rewrite length_map.
      * unfold holds_265. simpl. rewrite map_map. intros h Hin. apply H4. unfold holds_265.
        rewrite (map_ext _ hold_265) in Hin; [done|apply flushed_hold_265].
    + unfold holds_265. simpl. rewrite map_map. apply map_ext, flushed_hold_265.
  - intros p Hp. exact (proj2 Hp).
Defined.
