(* ===== verification/Dpb264Facts.v ===== *)
(** * Facts about the H.264 DPB

    What each operation keeps, the sliding window, and the laws towards the engine. *)

From S2P Require Import Prelude Dpb Dpb264 DecodeEngine DpbFacts EngineFacts.

Definition holds_264 (c : DpbCtx) : list hold := map slot_hold (slots c).
Definition ref_used (s : slot264) : Prop := is_ref s = true -> in_use s = true.

(** ** Steps that act on each slot for itself *)
Record keeps (c c' : DpbCtx) : Prop := Keeps {
  ke_holds : holds_264 c' = holds_264 c;
  ke_pool : pool c' = pool c;
  ke_epoch : current_epoch c' = current_epoch c;
  ke_idx : current_idx c' = current_idx c;
  ke_bound : max_num_ref_frames c' = max_num_ref_frames c;
  ke_refs : Forall ref_used (slots c) -> Forall ref_used (slots c');
}.
#[export] Instance keeps_preorder : PreOrder keeps.
Proof.
  split; [by intros c|]. intros a b c [A1 A2 A3 A4 A5 A6] [B1 B2 B3 B4 B5 B6]. split; try congruence. auto.
Qed.

Lemma holds_alter f i c :
  (forall s, slot_hold (f s) = slot_hold s) -> map slot_hold (alter f i (slots c)) = map slot_hold (slots c).
Proof.
  intros Hf. apply list_eq. intros j. rewrite !list_lookup_fmap. destruct (decide (j = i)) as [->|].
  - rewrite list_lookup_alter_eq. destruct (slots c !! i); simpl; [by rewrite Hf|done].
  - by rewrite list_lookup_alter_ne.
Qed.

Lemma keeps_upd i f c :
  (forall s, slot_hold (f s) = slot_hold s) -> (forall s, ref_used s -> ref_used (f s)) -> keeps c (upd_slot i f c).
Proof.
  intros Hf Hr. split; try done; [by apply holds_alter|]. intros Ha. apply Forall_lookup. intros j s.
  change (slots (upd_slot i f c)) with (alter f i (slots c)). destruct (decide (j = i)) as [->|].
  - rewrite list_lookup_alter_eq. intros (t & Ht & ->)%fmap_Some. apply Hr. by eapply Forall_lookup_1.
  - rewrite list_lookup_alter_ne by done. by apply Forall_lookup_1.
Qed.

Lemma keeps_slots (l : list slot264) c :
  map slot_hold l = map slot_hold (slots c) -> (Forall ref_used (slots c) -> Forall ref_used l) ->
  keeps c (c <| slots := l |>).
Proof. intros. by split. Qed.

Lemma keeps_clear i c : keeps c (slot_clear i c).
Proof. by apply keeps_upd. Qed.

Lemma keeps_clear_other cur o c : keeps c (clear_other cur o c).
Proof. destruct o as [i|]; simpl; [|done]. case_bool_decide; [done|apply keeps_clear]. Qed.

Lemma imap_map_hold (f : nat -> slot264 -> slot264) (l : list slot264) :
  (forall i s, slot_hold (f i s) = slot_hold s) -> map slot_hold (imap f l) = map slot_hold l.
Proof.
  intros Hf. apply list_eq. intros i. rewrite !list_lookup_fmap, list_lookup_imap.
  destruct (l !! i); simpl; [by rewrite Hf|done].
Qed.

Lemma keeps_clear_all_but cur Q c : keeps c (clear_all_but cur Q c).
Proof.
  apply (keeps_slots (imap _ (slots c))).
  - apply imap_map_hold. intros i s. by destruct (Q s && negb (bool_decide (i = cur))).
  - intros Ha. apply Forall_lookup. intros i s. rewrite list_lookup_imap. intros (t & Ht & ->)%fmap_Some.
    destruct (Q t && negb (bool_decide (i = cur))); [done|]. by eapply Forall_lookup_1.
Qed.

Lemma keeps_long i m c : keeps c (upd_slot i (make_long_term m) c).
Proof. by apply keeps_upd. Qed.

Lemma keeps_mmco cur c m : keeps c (apply_mmco cur c m).
Proof.
  unfold apply_mmco. destruct (op m =? 1); [apply keeps_clear_other|]. destruct (op m =? 2); [apply keeps_clear_other|].
  destruct (op m =? 3).
  { destruct (lt_idx_rejected c m); [done|]. set (c1 := clear_other _ _ c).
    transitivity c1; [apply keeps_clear_other|]. destruct (find_short_term_by_pic_num _ c1); [apply keeps_long|done]. }
  destruct (op m =? 4).
  { transitivity (c <| max_long_term_frame_idx := i32 (max_long_term_frame_idx_plus1 m) - 1 |>); [by split|].
    apply keeps_clear_all_but. }
  destruct (op m =? 5).
  { transitivity (clear_all_but cur (fun _ => true) c); [apply keeps_clear_all_but|].
    set (c1 := clear_all_but cur (fun _ => true) c). transitivity (c1 <| max_long_term_frame_idx := -1 |>); [by split|].
    by apply keeps_upd. }
  destruct (op m =? 6); [|done]. destruct (lt_idx_rejected c m); [done|].
  transitivity (clear_other cur (find_long_term_by_frame_idx (mmco_long_term_frame_idx m) c) c);
    [apply keeps_clear_other|apply keeps_long].
Qed.

Lemma keeps_mmco_ops cur c : keeps c (apply_mmco_ops cur c).
Proof.
  unfold apply_mmco_ops. generalize (pending_mmco c) as l. intros l. revert c.
  induction l as [|m l IH]; intros c; simpl; [done|]. transitivity (apply_mmco cur c m); [apply keeps_mmco|apply IH].
Qed.

Lemma keeps_evict c : keeps c (evict_oldest_short_term c).
Proof.
  unfold evict_oldest_short_term. destruct (oldest_short_term c) as [i|]; [|done].
  transitivity (c <| last_bumped_poc := from_option top_poc 0 (slots c !! i) |>); [by split|apply keeps_clear].
Qed.

Lemma keeps_idr p c : keeps c (idr_flush p c).
Proof.
  unfold idr_flush. destruct (is_idr p); [|done].
  transitivity (c <| slots ::= map clear_slot |>); [|by split].
  apply (keeps_slots (map clear_slot (slots c))); [by rewrite map_map|].
  intros _. apply Forall_map. by apply Forall_true.
Qed.

(** ** The sliding window *)

(** FrameNumWrap of a slot, relative to the picture just decoded. *)
Definition weight (c : DpbCtx) (s : slot264) : Z :=
  fnw (curr_pic_num c) (if max_frame_num c =? 0 then 16 else max_frame_num c) (frame_num s).

Definition is_oldest (c : DpbCtx) (i : nat) : Prop :=
  exists s, slots c !! i = Some s /\ short_ref s = true /\
    forall j t, slots c !! j = Some t -> short_ref t = true -> weight c s <= weight c t.

Lemma oldest_scan_spec (W : slot264 -> Z) cf mf (HW : forall s, W s = fnw cf mf (frame_num s)) l : forall k best pre,
  length pre = k ->
  match best with
  | None => forall t, t ∈ pre -> short_ref t = false
  | Some (i, w) => (exists s, pre !! i = Some s /\ short_ref s = true /\ W s = w) /\
                   forall t, t ∈ pre -> short_ref t = true -> w <= W t
  end ->
  match oldest_scan cf mf k l best with
  | None => forall t, t ∈ pre ++ l -> short_ref t = false
  | Some (i, w) => (exists s, (pre ++ l) !! i = Some s /\ short_ref s = true /\ W s = w) /\
                   forall t, t ∈ pre ++ l -> short_ref t = true -> w <= W t
  end.
Proof.
  induction l as [|s l IH]; intros k best pre Hk Hb; simpl; [by rewrite app_nil_r|].
  replace (pre ++ s :: l) with ((pre ++ [s]) ++ l) by (by rewrite <- app_assoc).
  assert (Hk' : length (pre ++ [s]) = S k) by (rewrite length_app; simpl; lia).
  assert (Hs : (pre ++ [s]) !! k = Some s) by (rewrite <- Hk; by apply list_lookup_middle).
  assert (Hold : forall i t, pre !! i = Some t -> (pre ++ [s]) !! i = Some t)
    by (intros i t Ht; by apply lookup_app_l_Some).
  destruct (short_ref s) eqn:Es; simpl negb; cbv iota.
  2: { apply IH; [done|]. destruct best as [[i w]|].
       - destruct Hb as [(t & Ht & Et) Hmin]. split; [exists t; split; [by apply Hold|done]|].
         intros t' [Ht'| ->%list_elem_of_singleton]%elem_of_app Et'; [by apply Hmin|congruence].
       - intros t [Ht| ->%list_elem_of_singleton]%elem_of_app; [by apply Hb|done]. }
  destruct best as [[i w]|].
  - destruct Hb as [(t & Ht & Et & Ew) Hmin]. rewrite <- HW. destruct (Z.ltb_spec (W s) w).
    + apply IH; [done|]. split; [by exists s|].
      intros t' [Ht'| ->%list_elem_of_singleton]%elem_of_app Et'; [specialize (Hmin t' Ht' Et'); lia|lia].
    + apply IH; [done|]. split; [exists t; split; [by apply Hold|done]|].
      intros t' [Ht'| ->%list_elem_of_singleton]%elem_of_app Et'; [by apply Hmin|lia].
  - rewrite <- HW. apply IH; [done|]. split; [by exists s|].
    intros t' [Ht'| ->%list_elem_of_singleton]%elem_of_app Et'; [by rewrite Hb in Et'|lia].
Qed.

Lemma oldest_short_term_spec c :
  match oldest_short_term c with
  | None => forall i s, slots c !! i = Some s -> short_ref s = false
  | Some i => is_oldest c i
  end.
Proof.
  unfold oldest_short_term.
  pose proof (oldest_scan_spec (weight c) _ _ (fun s => eq_refl) (slots c) 0 None [] eq_refl) as H.
  destruct (oldest_scan _ _ 0 (slots c) None) as [[i w]|]; simpl in H |- *.
  - destruct H as [(s & Hs & Es & <-) Hmin]; [by intros t ?%elem_of_nil|]. exists s. split; [done|]. split; [done|].
    intros j t Ht. apply Hmin. by eapply list_elem_of_lookup_2.
  - intros i s Hs. apply H; [by intros t ?%elem_of_nil|]. by eapply list_elem_of_lookup_2.
Qed.

Definition clear_set (ev : list nat) (l : list slot264) : list slot264 :=
  imap (fun i s => if bool_decide (i ∈ ev) then clear_slot s else s) l.

Lemma count_short_nil l : filter (fun s => short_ref s = true) (map clear_slot l) = [].
Proof. induction l; [done|]. by rewrite map_cons, filter_cons_False. Qed.

Lemma count_clear i l s :
  l !! i = Some s -> short_ref s = true ->
  (length (filter (fun s => short_ref s = true) l)
   = S (length (filter (fun s => short_ref s = true) (alter clear_slot i l))))%nat.
Proof.
  revert i. induction l as [|t l IH]; intros [|i]; simpl; try done.
  - intros [= ->] Hs. rewrite filter_cons_True by done. by rewrite filter_cons_False.
  - intros Hi Hs. specialize (IH i Hi Hs). destruct (short_ref t) eqn:Et.
    + rewrite !filter_cons_True by done. simpl. by rewrite IH.
    + rewrite !filter_cons_False by (by rewrite Et). done.
Qed.

Lemma clear_set_cons i ev l : clear_set ev (alter clear_slot i l) = clear_set (i :: ev) l.
Proof.
  apply list_eq. intros j. unfold clear_set. rewrite !list_lookup_imap. destruct (decide (j = i)) as [->|Hne].
  - rewrite list_lookup_alter_eq. destruct (l !! i); simpl; [|done]. rewrite (bool_decide_eq_true_2 (i ∈ i :: ev)) by left.
    by destruct (bool_decide (i ∈ ev)).
  - rewrite list_lookup_alter_ne by done. destruct (l !! j); simpl; [|done].
    assert (E : bool_decide (j ∈ i :: ev) = bool_decide (j ∈ ev)).
    { apply bool_decide_ext. rewrite elem_of_cons. naive_solver. }
    by rewrite E.
Qed.

(** [ev] is evicted, in this order. *)
Record slid (c c' : DpbCtx) (ev : list nat) : Prop := Slid {
  sl_slots : slots c' = clear_set ev (slots c);
  sl_short i : i ∈ ev -> exists s, slots c !! i = Some s /\ short_ref s = true;
  sl_nodup : NoDup ev;
  sl_oldest i j s t : i ∈ ev -> j ∉ ev -> slots c !! i = Some s -> slots c !! j = Some t -> short_ref t = true ->
    weight c s <= weight c t;
  sl_numbers : curr_pic_num c' = curr_pic_num c /\ max_frame_num c' = max_frame_num c;
}.

Lemma slid_nil c : slid c c [].
Proof.
  split; [|by intros i ?%elem_of_nil|constructor|by intros i j s t ?%elem_of_nil|done].
  unfold clear_set. apply list_eq. intros i. rewrite list_lookup_imap. by destruct (slots c !! i).
Qed.

Lemma evict_slid c i : oldest_short_term c = Some i -> slots (evict_oldest_short_term c) = alter clear_slot i (slots c).
Proof. unfold evict_oldest_short_term. by intros ->. Qed.

Lemma slid_cons c i c' ev :
  oldest_short_term c = Some i -> slid (evict_oldest_short_term c) c' ev -> slid c c' (i :: ev).
Proof.
  intros Ei [H1 H2 H3 H4 H5]. pose proof (evict_slid c i Ei) as Es. pose proof (oldest_short_term_spec c) as Ho.
  rewrite Ei in Ho. destruct Ho as (s & Hs & Hss & Hmin). rewrite Es in *.
  assert (Hw : forall t, weight (evict_oldest_short_term c) t = weight c t).
  { intros t. unfold weight, evict_oldest_short_term. by rewrite Ei. }
  assert (Hni : i ∉ ev).
  { intros Hi. destruct (H2 i Hi) as (t & Ht & Et). rewrite list_lookup_alter_eq, Hs in Ht. by injection Ht as <-. }
  split.
  - by rewrite H1, clear_set_cons.
  - intros j [->|Hj]%elem_of_cons; [eauto|]. destruct (H2 j Hj) as (t & Ht & Et). exists t. split; [|done].
    rewrite list_lookup_alter_ne in Ht; [done|]. by intros ->.
  - by constructor.
  - intros a b u t [->|Ha]%elem_of_cons Hb Hu Ht Hst; [replace u with s by congruence; eauto|].
    apply not_elem_of_cons in Hb as [Hbi Hb]. rewrite <- !Hw. apply (H4 a b); try done.
    + rewrite list_lookup_alter_ne; [done|]. by intros ->.
    + by rewrite list_lookup_alter_ne.
  - destruct H5 as [-> ->]. unfold evict_oldest_short_term. by rewrite Ei.
Qed.

Lemma slide_ok fuel max : forall c,
  0 <= max -> count_short_refs c <= max + Z.of_nat fuel ->
  exists c' ev, slide fuel max c = Some c' /\ keeps c c' /\ slid c c' ev /\
    count_short_refs c' = Z.min max (count_short_refs c).
Proof.
  induction fuel as [|fuel IH]; intros c Hm Hc; simpl.
  - destruct (Z.leb_spec (count_short_refs c) max); [|lia]. exists c, []. split; [done|]. split; [done|].
    split; [apply slid_nil|lia].
  - destruct (Z.leb_spec (count_short_refs c) max).
    { exists c, []. split; [done|]. split; [done|]. split; [apply slid_nil|lia]. }
    pose proof (oldest_short_term_spec c) as Ho. destruct (oldest_short_term c) as [i|] eqn:Ei.
    2: { exfalso. unfold count_short_refs in *. destruct (filter _ (slots c)) as [|s l] eqn:E; [simpl in *; lia|].
         assert (Hs : s ∈ filter (fun s => short_ref s = true) (slots c)) by (rewrite E; left).
         apply list_elem_of_filter in Hs as [Hs Hin]. apply list_elem_of_lookup in Hin as [j Hj].
         rewrite (Ho j s Hj) in Hs. done. }
    destruct Ho as (s & Hs & Hss & _).
    assert (Hcnt : count_short_refs c = count_short_refs (evict_oldest_short_term c) + 1).
    { unfold count_short_refs. rewrite (evict_slid c i Ei), (count_clear i _ s Hs Hss). lia. }
    destruct (IH (evict_oldest_short_term c) Hm) as (c' & ev & E & K & Hsl & Hcn); [lia|].
    exists c', (i :: ev). split; [done|]. split; [transitivity (evict_oldest_short_term c); [apply keeps_evict|done]|].
    split; [by apply slid_cons|]. lia.
Qed.

(** ** Between pictures *)
Record wf_264 (c : DpbCtx) : Prop := Wf264 {
  w4_pool : length (slots c) = length (pool c);
  w4_size : (length (slots c) <= Z.to_nat DPB_MAX_SLOTS)%nat;
  w4_idle : current_idx c = None;
  w4_refs : Forall ref_used (slots c);
  w4_bound : 0 <= max_num_ref_frames c;
}.
Definition wf_parsed_264 (p : H264ParseResult) : Prop := 0 <= sps_max_num_ref_frames p.

Lemma keeps_length c c' : keeps c c' -> length (slots c') = length (slots c).
Proof. intros H. pose proof (f_equal length (ke_holds _ _ H)) as E. unfold holds_264 in E. by rewrite !length_map in E. Qed.

Lemma keeps_wf c c' : keeps c c' -> wf_264 c -> wf_264 c'.
Proof.
  intros K [H1 H2 H3 H4 H5]. pose proof (keeps_length _ _ K) as El. destruct K as [K1 K2 K3 K4 K5 K6].
  split; [by rewrite El, K2|by rewrite El|by rewrite K4|auto|by rewrite K5].
Qed.

Lemma active_refs_index cur c x : x ∈ active_refs cur c -> slots c !! x.1 = Some x.2 /\ x.1 <> cur /\ in_use x.2 = true /\ is_ref x.2 = true.
Proof.
  unfold active_refs. intros [Hx Hin]%list_elem_of_filter. apply list_elem_of_lookup in Hin as [i Hi].
  rewrite list_lookup_imap in Hi. apply fmap_Some in Hi as (s & Hs & ->). simpl in *.
  rewrite !andb_true_iff in Hx. destruct Hx as [[Hne Hu] Hr]. apply negb_true_iff, bool_decide_eq_false in Hne. done.
Qed.

Lemma compact_refs_perm p cur c : compact_refs p cur c ≡ₚ active_refs cur c.
Proof. apply insertion_sort_perm. Qed.

Lemma ref_slots_pool p cur c i :
  (cur < length (slots c))%nat -> i ∈ ref_slots cur (compact_refs p cur c) -> (i < length (slots c))%nat.
Proof.
  intros Hc. assert (Hall : forall x, x ∈ compact_refs p cur c -> (x.1 < length (slots c))%nat).
  { intros x Hx. rewrite compact_refs_perm in Hx. apply active_refs_index in Hx as [Hx _]. by eapply lookup_lt_Some. }
  unfold ref_slots, pad. intros [Hi|Hi]%elem_of_app.
  - apply elem_of_take in Hi as (k & Hk & _). rewrite list_lookup_fmap in Hk. apply fmap_Some in Hk as (x & Hx & ->).
    apply Hall. by eapply list_elem_of_lookup_2.
  - apply elem_of_replicate in Hi as [-> _]. destruct (last (compact_refs p cur c)) as [x|] eqn:E; simpl; [|done].
    apply Hall. by eapply last_Some_elem_of.
Qed.

Lemma selection_ok p cur c :
  length (slots c) = length (pool c) -> (cur < length (slots c))%nat ->
  exists out, selection p cur c = Some out /\ current_slot out = cur.
Proof.
  intros Hl Hc. unfold selection. destruct (lookup_lt_is_Some_2 (pool c) cur) as [e He]; [by rewrite <- Hl|].
  rewrite He. ostep. destruct (mapM (fun i => pool c !! i) (ref_slots cur (compact_refs p cur c))) as [ps|] eqn:E.
  - ostep. eexists. split; [reflexivity|]. done.
  - exfalso. apply mapM_None in E. apply Exists_exists in E as (i & Hi & Hn).
    apply lookup_ge_None in Hn. pose proof (ref_slots_pool p cur c i Hc Hi). lia.
Qed.

(** ** Selection *)
Lemma pick_slot_keeps c : keeps c (pick_slot c).2.
Proof. unfold pick_slot. destruct (find_free c); [done|apply keeps_evict]. Qed.

Lemma pick_slot_free c i c' :
  pick_slot c = (Some i, c') -> exists s, slots c' !! i = Some s /\ in_use s = false /\ slot_held s = false.
Proof.
  assert (H : forall c i, find_free c = Some i -> exists s, slots c !! i = Some s /\ in_use s = false /\ slot_held s = false).
  { intros d k Hk. apply find_slot_idx_Some in Hk as (s & Hs & E & _). apply andb_true_iff in E as [E1 E2].
    apply negb_true_iff in E1, E2. eauto. }
  unfold pick_slot. destruct (find_free c) as [k|] eqn:E; [intros [= -> ->]; eauto|].
  injection 1 as Ei <-. by apply H.
Qed.

Lemma taken_slots p i c : slots (taken p i c) = alter (take_slot p (current_epoch c)) i (slots c).
Proof. reflexivity. Qed.
Lemma taken_pool p i c : pool (taken p i c) = pool c.
Proof. reflexivity. Qed.

Lemma selection_taken p i c :
  wf_264 c -> (i < length (slots c))%nat -> exists out, selection p i (taken p i c) = Some out /\ current_slot out = i.
Proof.
  intros Hw Hi. apply selection_ok; rewrite taken_slots, length_alter; [|done]. rewrite taken_pool. apply (w4_pool _ Hw).
Qed.

Lemma select_free_264 c p i c1 s out :
  has_slice p = true -> pick_slot (idr_flush p c) = (Some i, c1) -> slots c1 !! i = Some s ->
  in_use s = false -> slot_held s = false -> is_ref s = false -> current_idx c1 = None ->
  selection p i (taken p i c1) = Some out -> Dpb_Select c p = Some (DPB_OK, Some out, taken p i c1).
Proof.
  intros Hp Hc Hs Hu Hh Hr Hi Ho. unfold Dpb_Select. rewrite Hp, Hc. cbn [negb]. rewrite Hs. ostep.
  rewrite verify_true by (by rewrite Hu, Hh, Hr). rewrite verify_true by (by rewrite Hi). rewrite Ho. reflexivity.
Qed.

Lemma select_outcome_264 c p :
  wf_264 c ->
  (has_slice p = false /\ Dpb_Select c p = Some (DPB_INVALID_INPUT, None, c)) \/
  (has_slice p = true /\ exists o c1, pick_slot (idr_flush p c) = (o, c1) /\ keeps c c1 /\
     match o with
     | None => Dpb_Select c p = Some (DPB_FULL, None, c1)
     | Some i => exists s out, slots c1 !! i = Some s /\ in_use s = false /\ slot_held s = false /\
         selection p i (taken p i c1) = Some out /\ current_slot out = i /\
         Dpb_Select c p = Some (DPB_OK, Some out, taken p i c1)
     end).
Proof.
  intros Hw. destruct (has_slice p) eqn:Hp; [right; split; [done|]|left; unfold Dpb_Select; by rewrite Hp].
  pose proof (pick_slot_keeps (idr_flush p c)) as K. destruct (pick_slot (idr_flush p c)) as [o c1] eqn:Ep. simpl in K.
  assert (K1 : keeps c c1) by (transitivity (idr_flush p c); [apply keeps_idr|exact K]).
  exists o, c1. split; [done|]. split; [done|]. destruct o as [i|].
  2: { unfold Dpb_Select. rewrite Hp. simpl negb. cbv iota zeta. by rewrite Ep. }
  destruct (pick_slot_free _ _ _ Ep) as (s & Hs & Hu & Hh). pose proof (keeps_wf _ _ K1 Hw) as Hw1.
  assert (Hr : is_ref s = false).
  { pose proof (Forall_lookup_1 _ _ _ _ (w4_refs _ Hw1) Hs) as H. unfold ref_used in H. destruct (is_ref s); [|done].
    by rewrite H in Hu. }
  destruct (selection_taken p i c1 Hw1) as (out & E & Eo); [by eapply lookup_lt_Some|].
  exists s, out. do 5 (split; [assumption|]).
  exact (select_free_264 c p i c1 s out Hp Ep Hs Hu Hh Hr (w4_idle _ Hw1) E).
Qed.

(** ** Completion *)
Definition idle (c : DpbCtx) : DpbCtx := c <| current_idx := None |>.

Lemma keeps_drop c : keeps c (drop_pending c).
Proof. by split. Qed.
Lemma keeps_bumped z c : keeps c (c <| last_bumped_poc := z |>).
Proof. by split. Qed.

Definition window (c : DpbCtx) : Z := if max_num_ref_frames c =? 0 then 1 else max_num_ref_frames c.

Lemma slide_total c :
  0 <= max_num_ref_frames c ->
  exists c' ev, slide (length (slots c)) (window c) c = Some c' /\ keeps c c' /\ slid c c' ev /\
    count_short_refs c' = Z.min (window c) (count_short_refs c).
Proof.
  intros Hb. unfold window. destruct (Z.eqb_spec (max_num_ref_frames c) 0); apply slide_ok; try lia; unfold count_short_refs;
    pose proof (length_filter (fun s => short_ref s = true) (slots c)); lia.
Qed.

Lemma complete_keeps c cur :
  current_idx c = Some cur -> (cur < length (slots c))%nat -> 0 <= max_num_ref_frames c ->
  exists c', Dpb_OnDecodeComplete c = Some c' /\ keeps (idle c) c'.
Proof.
  intros Hi Hl Hb. unfold Dpb_OnDecodeComplete.
  set (c0 := c <| last_bumped_poc := INT32_MIN |>). change (current_idx c0) with (current_idx c). rewrite Hi.
  set (c1 := c0 <| current_idx := None |>).
  assert (K : keeps (idle c) c1) by (exact (keeps_bumped INT32_MIN (idle c))).
  destruct (lookup_lt_is_Some_2 (slots c1) cur) as [s Hs]; [exact Hl|]. rewrite Hs. ostep. destruct (is_ref s); cbn [negb].
  - destruct (pending_adaptive c1).
    + ostep. eexists. split; [reflexivity|]. etransitivity; [exact K|]. etransitivity; [apply keeps_mmco_ops|apply keeps_drop].
    + destruct (slide_total c1 Hb) as (c' & ev & E & K' & _). unfold window in E. rewrite E. ostep.
      eexists. split; [reflexivity|]. etransitivity; [exact K|]. etransitivity; [exact K'|apply keeps_drop].
  - eexists. split; [reflexivity|]. etransitivity; [exact K|]. etransitivity; [apply keeps_clear|apply keeps_drop].
Qed.

Lemma failed_keeps c : is_Some (current_idx c) -> keeps (idle c) (Dpb_OnDecodeFailed c).
Proof.
  intros [cur Hi]. unfold Dpb_OnDecodeFailed. set (c0 := c <| last_bumped_poc := INT32_MIN |>).
  change (current_idx c0) with (current_idx c). rewrite Hi. etransitivity; [|apply keeps_drop].
  etransitivity; [|apply keeps_clear]. exact (keeps_bumped INT32_MIN (idle c)).
Qed.

Lemma taken_idle p i c s :
  wf_264 c -> wf_parsed_264 p -> slots c !! i = Some s -> slot_held s = false ->
  wf_264 (idle (taken p i c)) /\ holds_264 (idle (taken p i c)) = <[i := no_hold (current_epoch c)]> (holds_264 c).
Proof.
  intros [H1 H2 H3 H4 H5] Hp Hs Hh. split.
  - split; change (slots (idle (taken p i c))) with (alter (take_slot p (current_epoch c)) i (slots c)).
    + by rewrite length_alter.
    + by rewrite length_alter.
    + reflexivity.
    + apply Forall_lookup. intros j t. destruct (decide (j = i)) as [->|].
      * rewrite list_lookup_alter_eq, Hs. intros [= <-]. by intros _.
      * rewrite list_lookup_alter_ne by done. by apply Forall_lookup_1.
    + change (0 <= if sps_max_num_ref_frames p =? 0 then 1 else sps_max_num_ref_frames p).
      unfold wf_parsed_264 in Hp. destruct (_ =? 0); lia.
  - unfold holds_264. change (slots (idle (taken p i c))) with (alter (take_slot p (current_epoch c)) i (slots c)).
    rewrite (alter_to_insert _ _ _ _ Hs), list_fmap_insert. f_equal. unfold slot_held, held in Hh. simpl.
    destruct (slot_hold s) as [[] [] [] ep]; done.
Qed.

(** ** Flush *)
Definition flushed (s : slot264) : slot264 :=
  if held_by_consumer (slot_hold s) then s <| in_use := false |> <| is_ref := false |> <| long_term := false |>
  else clear_slot s.

Lemma flush_slots (l : list slot264) :
  (forall s, s ∈ l -> pending_reorder (slot_hold s) = false /\ pending_ready (slot_hold s) = false) ->
  mapM flush_slot l = Some (map flushed l).
Proof.
  intros H. apply mapM_map. intros s Hs.
  destruct (H s Hs) as [E1 E2]. unfold flush_slot. rewrite verify_true by (by rewrite E1). by rewrite verify_true by (by rewrite E2).
Qed.

Lemma flush_264 c :
  wf_264 c -> (forall i h, holds_264 c !! i = Some h -> pending_reorder h = false /\ pending_ready h = false) ->
  Dpb_Flush c = Some (c <| slots := map flushed (slots c) |> <| current_idx := None |>
                        <| current_epoch ::= fun e => u32 (e + 1) |>).
Proof.
  intros Hw H. unfold Dpb_Flush. rewrite flush_slots; [done|]. intros s Hs. apply list_elem_of_lookup in Hs as [i Hi].
  apply (H i). unfold holds_264. by rewrite list_lookup_fmap, Hi.
Qed.

Lemma flushed_hold s : slot_hold (flushed s) = slot_hold s.
Proof. unfold flushed. by destruct (held_by_consumer (slot_hold s)). Qed.
Lemma flushed_ref s : is_ref (flushed s) = false.
Proof. unfold flushed. by destruct (held_by_consumer (slot_hold s)). Qed.

(** ** The promises to the engine *)
Lemma upd_264 (d : DpbCtx) i f :
  wf_264 d -> wf_264 (upd_hold i f d) /\ holds_264 (upd_hold i f d) = alter f i (holds_264 d) /\
    current_epoch (upd_hold i f d) = current_epoch d.
Proof.
  intros [H1 H2 H3 H4 H5].
  assert (El : slots (upd_hold i f d) = alter (fun s => s <| slot_hold ::= f |>) i (slots d)) by reflexivity.
  split; [|split; [|done]].
  - split; rewrite ?El, ?length_alter; try done. apply Forall_lookup. intros j s. destruct (decide (j = i)) as [->|].
    + rewrite list_lookup_alter_eq. intros (t & Ht & ->)%fmap_Some. exact (Forall_lookup_1 _ _ _ _ H4 Ht).
    + rewrite list_lookup_alter_ne by done. by apply Forall_lookup_1.
  - unfold holds_264. rewrite El. apply list_eq. intros j. rewrite list_lookup_fmap. destruct (decide (j = i)) as [->|].
    + rewrite !list_lookup_alter_eq, list_lookup_fmap. by destruct (slots d !! i).
    + by rewrite !list_lookup_alter_ne, list_lookup_fmap.
Qed.

Lemma holds_flushed l : map slot_hold (map flushed l) = map slot_hold l.
Proof. rewrite map_map. apply map_ext. apply flushed_hold. Qed.

Lemma select_law_264 d p :
  wf_264 d -> wf_parsed_264 p ->
  exists st sel d', select_264 d p = Some (st, sel, d') /\
    match sel with
    | None => st <> DPB_OK /\ wf_264 d' /\ holds_264 d' = holds_264 d /\ current_epoch d' = current_epoch d
    | Some i =>
        st = DPB_OK /\ (exists h, holds_264 d !! i = Some h /\ held h = false) /\
        let hs := <[i := no_hold (current_epoch d)]> (holds_264 d) in
        (wf_264 (Dpb_OnDecodeFailed d') /\ holds_264 (Dpb_OnDecodeFailed d') = hs /\
         current_epoch (Dpb_OnDecodeFailed d') = current_epoch d) /\
        exists d'', Dpb_OnDecodeComplete d' = Some d'' /\ wf_264 d'' /\ holds_264 d'' = hs /\
          current_epoch d'' = current_epoch d
    end.
Proof.
  intros Hw Hp. unfold select_264. destruct (select_outcome_264 d p Hw) as [[_ ->]|(_ & o & c1 & _ & K & Ho)].
  { ostep. eexists _, None, d. split; [reflexivity|]. done. }
  pose proof (keeps_wf _ _ K Hw) as Hw1. destruct o as [i|].
  2: { rewrite Ho. ostep. eexists _, None, c1. split; [reflexivity|]. split; [done|]. split; [done|].
       split; [apply (ke_holds _ _ K)|apply (ke_epoch _ _ K)]. }
  destruct Ho as (s & out & Hs & Hu & Hh & _ & Eo & ->). ostep.
  eexists DPB_OK, (Some i), (taken p i c1). split; [by rewrite <- Eo|]. split; [done|].
  split. { exists (slot_hold s). split; [|done]. rewrite <- (ke_holds _ _ K). unfold holds_264. by rewrite list_lookup_fmap, Hs. }
  destruct (taken_idle p i c1 s Hw1 Hp Hs Hh) as [Hwi Hhi]. rewrite (ke_epoch _ _ K), (ke_holds _ _ K) in Hhi.
  assert (Hfin : forall d'', keeps (idle (taken p i c1)) d'' -> wf_264 d'' /\
     holds_264 d'' = <[i := no_hold (current_epoch d)]> (holds_264 d) /\ current_epoch d'' = current_epoch d).
  { intros d'' K'. split; [by eapply keeps_wf|]. split; [by rewrite (ke_holds _ _ K')|].
    rewrite (ke_epoch _ _ K'). exact (ke_epoch _ _ K). }
  split; [apply Hfin, failed_keeps; by exists i|].
  destruct (complete_keeps (taken p i c1) i) as (d'' & E & K'); [done| |apply (w4_bound _ Hwi)|].
  { rewrite taken_slots, length_alter. by eapply lookup_lt_Some. }
  exists d''. split; [done|]. by apply Hfin.
Qed.

#[export] Instance laws_264 : CodecLaws DpbCtx H264ParseResult.
Proof.
  refine {| wf := wf_264; wfP := wf_parsed_264; holds := holds_264; stamp := current_epoch;
            bumped := fun e => u32 (e + 1) |}.
  - intros d Hw. unfold holds_264. rewrite length_map. apply (w4_size _ Hw).
  - intros d i. symmetry. apply list_lookup_fmap.
  - intros d i f Hw _. by apply upd_264.
  - apply select_law_264.
  - intros d Hw Hh. eexists. split; [exact (flush_264 d Hw Hh)|]. split; [|split; [|done]].
    + destruct Hw as [H1 H2 H3 H4 H5]. split; try done.
      * simpl. by rewrite length_map.
      * simpl. by rewrite length_map.
      * apply Forall_map. apply Forall_true. intros s. unfold ref_used. by rewrite flushed_ref.
    + apply holds_flushed.
  - intros p Hp. eexists. split; [reflexivity|]. unfold wfP, wf_parsed_264 in Hp. destruct (has_sps p); lia.
Defined.

(** * The reference lists of a selection of H.264

    How the compact view of the references, its three orders and what [Dpb_Select] hands out
    are related. *)

Lemma past_future p l : past_refs p l ++ future_refs p l ≡ₚ indexed l.
Proof.
  unfold past_refs, future_refs. rewrite !insertion_sort_perm. generalize (indexed l) as r. intros r.
  induction r as [|x r IH]; [done|]. destruct (frame_poc x.2 <=? cur_poc p) eqn:E.
  - rewrite filter_cons_True by done. rewrite filter_cons_False by (by rewrite E). simpl. by rewrite IH.
  - rewrite filter_cons_False by (by rewrite E). rewrite filter_cons_True by done. rewrite <- Permutation_middle. by rewrite IH.
Qed.

Lemma active_refs_length cur c : (cur < length (slots c))%nat -> (length (active_refs cur c) < length (slots c))%nat.
Proof.
  intros Hc. rewrite <- (length_imap pair (slots c)). unfold active_refs.
  destruct (lookup_lt_is_Some_2 (slots c) cur Hc) as [s Hs].
  assert (Hi : imap pair (slots c) !! cur = Some (cur, s)) by (by rewrite list_lookup_imap, Hs).
  rewrite <- (take_drop_middle _ _ _ Hi), filter_app, filter_cons_False, length_app.
  2: { simpl. by rewrite bool_decide_eq_true_2. }
  pose proof (length_filter (fun x : nat * slot264 => (negb (bool_decide (x.1 = cur)) && in_use x.2 && is_ref x.2) = true)).
  rewrite length_app. simpl. pose proof (H (take cur (imap pair (slots c)))). pose proof (H (drop (S cur) (imap pair (slots c)))). lia.
Qed.

Definition intra (p : H264ParseResult) : bool :=
  (slice_type p =? V4L2_H264_SLICE_TYPE_I) || (slice_type p =? V4L2_H264_SLICE_TYPE_SI).
Definition list_fnw (p : H264ParseResult) (x : Z * slot264) : Z := fnw (decode_frame_num p) (MaxFrameNum p) (frame_num x.2).

(** The two B lists coincide: the second swaps its first entries. *)
Definition second_list (past future : list (Z * slot264)) : list (Z * slot264) :=
  if (1 <? Z.of_nat (length (past ++ future))) && bool_decide ((past ++ future).*1 = (future ++ past).*1)
  then swap_first (future ++ past) else future ++ past.

Lemma swap_first_map {A B} (f : A -> B) l : map f (swap_first l) = swap_first (map f l).
Proof. by destruct l as [|x [|y l]]. Qed.
Lemma fst_reference l : (map v4l2_reference l).*1 = l.*1.
Proof. induction l as [|x l IH]; [done|]. simpl. by f_equal. Qed.

Lemma ref_lists_inter p l :
  is_idr p = false -> l <> [] -> intra p = false ->
  ref_lists_of p l = map (map v4l2_reference)
    [listP p l; past_refs p l ++ future_refs p l; second_list (past_refs p l) (future_refs p l)].
Proof.
  intros Hi Hl Hs. unfold ref_lists_of. rewrite Hi. destruct (Z.eqb_spec (Z.of_nat (length l)) 0); [by destruct l|]. simpl orb. cbv iota.
  unfold intra in Hs. rewrite Hs. cbn [map]. f_equal. f_equal. f_equal. unfold second_list.
  rewrite !fst_reference, length_map. destruct (_ && _); [|done]. by rewrite swap_first_map.
Qed.

Lemma selection_fields p cur c out :
  selection p cur c = Some out ->
  current_slot out = cur /\ dpb_entries out = pad (Z.to_nat DPB_MAX_SLOTS) zero_entry (map (fun x => entry_of x.2) (compact_refs p cur c)) /\
  ref_lists out = map (pad 32 (0, 0)) (ref_lists_of p (compact_refs p cur c)).
Proof.
  unfold selection. destruct (pool c !! cur) as [e|]; [|done]. ostep.
  destruct (mapM _ _) as [ps|]; [|done]. ostep. intros [= <-]. done.
Qed.

(** What a selection hands out, by its compact view of the references. *)
Lemma select_compact c p out c' : wf_264 c -> Dpb_Select c p = Some (DPB_OK, Some out, c') ->
  let L := compact_refs p (current_slot out) c' in
  (length L < 16)%nat /\ L ≡ₚ active_refs (current_slot out) c' /\
  dpb_entries out = map (fun x => entry_of x.2) L ++ replicate (16 - length L) zero_entry /\
  ref_lists out = map (pad 32 (0, 0)) (ref_lists_of p L).
Proof.
  intros Hw Hsel. destruct (select_outcome_264 c p Hw) as [[_ E]|(_ & o & c1 & _ & K & Ho)]; [congruence|].
  destruct o as [i|]; [|congruence]. destruct Ho as (s & out' & Hs & _ & _ & Eo & Ec & E).
  rewrite Hsel in E. injection E as <- ->. destruct (selection_fields _ _ _ _ Eo) as (_ & Ee & El). cbv zeta. rewrite Ec.
  set (d := taken p i c1) in *. set (L := compact_refs p i d) in *.
  assert (Hlen : (length L < 16)%nat).
  { unfold L. rewrite compact_refs_perm. unfold d. apply lookup_lt_Some in Hs. pose proof (w4_size _ (keeps_wf _ _ K Hw)) as Hz.
    pose proof (active_refs_length i (taken p i c1)) as Ha. rewrite taken_slots, length_alter in Ha. specialize (Ha Hs).
    unfold DPB_MAX_SLOTS in Hz. lia. }
  split; [done|]. split; [apply compact_refs_perm|]. split; [|exact El].
  rewrite Ee. unfold pad. change (Z.to_nat DPB_MAX_SLOTS) with 16%nat. rewrite length_map, take_ge; [done|]. rewrite length_map. lia.
Qed.
(** No selection of an IDR picture or without references has lists. *)
Lemma ref_lists_none p l : is_idr p = true \/ l = [] -> ref_lists_of p l = [[]; []; []].
Proof. intros H. unfold ref_lists_of. destruct H as [-> | ->]; [done|]. by rewrite orb_true_r. Qed.
Lemma ref_lists_intra p l : is_idr p = false -> l <> [] -> intra p = true -> ref_lists_of p l = [map v4l2_reference (listP p l); []; []].
Proof.
  intros Hi Hl Hs. unfold ref_lists_of. rewrite Hi. destruct (Z.eqb_spec (Z.of_nat (length l)) 0); [by destruct l|]. simpl orb. cbv iota.
  unfold intra in Hs. by rewrite Hs.
Qed.
