(* ===== verification/DpbProps.v ===== *)
(** * Properties of the two DPBs

    The sliding window of H.264, the reference lists handed to the register builder,
    and the marking of HEVC by the reference picture set. *)

From S2P Require Import Prelude Dpb Dpb264 Dpb265 DecodeEngine DpbFacts EngineFacts Dpb264Facts Dpb265Facts.

(** ** Completion of an H.264 picture *)

(** C28: the completion of an H.264 picture without memory management commands: a
    picture that is no reference gives its slot up; after a reference the window
    keeps [max(1, max_num_ref_frames)] short-term references at most, clearing exactly
    the oldest by FrameNumWrap and no other slot; the eviction loop ends within as
    many rounds as there are slots, and no hold, no long-term reference and no picture
    outside the window changes. *)
Theorem sliding_window_exact c cur s :
  current_idx c = Some cur -> slots c !! cur = Some s -> pending_adaptive c = false -> 0 <= max_num_ref_frames c ->
  exists c' ev, Dpb_OnDecodeComplete c = Some c' /\ current_idx c' = None /\ holds_264 c' = holds_264 c /\
    slots c' = clear_set ev (slots c) /\
    (is_ref s = false -> ev = [cur]) /\
    (is_ref s = true ->
       count_short_refs c' = Z.min (window c) (count_short_refs c) /\
       (forall i, i ∈ ev -> exists t, slots c !! i = Some t /\ short_ref t = true) /\
       forall i j x y, i ∈ ev -> j ∉ ev -> slots c !! i = Some x -> slots c !! j = Some y -> short_ref y = true ->
         weight c x <= weight c y).
Proof.
  intros Hi Hs Ha Hb. unfold Dpb_OnDecodeComplete. set (c0 := c <| last_bumped_poc := INT32_MIN |>).
  change (current_idx c0) with (current_idx c). rewrite Hi. set (c1 := c0 <| current_idx := None |>).
  change (slots c1) with (slots c). rewrite Hs. ostep. destruct (is_ref s) eqn:Er; cbn [negb].
  - change (pending_adaptive c1) with (pending_adaptive c). rewrite Ha.
    destruct (slide_total c1 Hb) as (c' & ev & E & K & [S1 S2 S3 S4 S5] & Hc). unfold window in E.
    change (slots c1) with (slots c) in E. rewrite E. ostep. exists (drop_pending c'), ev. split; [done|]. split; [apply (ke_idx _ _ K)|].
    split; [exact (ke_holds _ _ K)|]. split; [exact S1|]. split; [done|]. intros _. split; [exact Hc|]. split; [exact S2|]. exact S4.
  - exists (drop_pending (slot_clear cur c1)), [cur]. split; [done|]. split; [done|].
    split; [exact (ke_holds _ _ (keeps_clear cur c1))|]. split; [|done].
    rewrite <- clear_set_cons. change (slots (drop_pending (slot_clear cur c1))) with (alter clear_slot cur (slots c)).
    unfold clear_set. apply list_eq. intros j. rewrite list_lookup_imap. by destruct (alter clear_slot cur (slots c) !! j).
Qed.

Definition ref_slot (fn : Z) : slot264 := Slot264 true true false 3 fn fn fn 0 (no_hold 0).
(** Three references around a wrap of frame_num, a window of two. *)
Definition wrapped : DpbCtx :=
  Dpb264Ctx (replicate 4 (PoolEntry 0x1000 0x2000)) (Some 2%nat) 0 2 16 1 (-1) false [] 1 0
    [ref_slot 0; ref_slot 15; ref_slot 1; zero_slot].

Lemma sliding_window_exact_witness :
  exists c' ev, Dpb_OnDecodeComplete wrapped = Some c' /\ slots c' = clear_set ev (slots wrapped) /\
    count_short_refs c' = 2.
Proof.
  destruct (sliding_window_exact wrapped 2 (ref_slot 1)) as (c' & ev & E & _ & _ & Es & _ & H); [done..|].
  exists c', ev. split; [exact E|]. split; [exact Es|]. exact (proj1 (H eq_refl)).
Defined.

(** ** The reference lists *)
Lemma indexed_length l : length (indexed l) = length l.
Proof. unfold indexed. by rewrite length_imap. Qed.

Section ordering.
Context {A : Type} (key : A -> Z).

End ordering.





(** ** HEVC marking *)
Lemma testbit_shift1 a j : Z.testbit (Z.shiftl 1 (Z.of_nat a)) (Z.of_nat j) = bool_decide (j = a).
Proof.
  rewrite Z.shiftl_1_l, Z.pow2_bits_eqb by lia. case_bool_decide; [subst; by rewrite Z.eqb_refl|].
  apply Z.eqb_neq. lia.
Qed.

Lemma testbit_mask {A} (l : list A) : forall (f : nat -> A -> bool) (k j : nat),
  Z.testbit (foldr Z.lor 0 (imap (fun i s => if f i s then Z.shiftl 1 (Z.of_nat (k + i)) else 0) l)) (Z.of_nat j)
  = (k <=? j)%nat && from_option (f (j - k)%nat) false (l !! (j - k)%nat).
Proof.
  induction l as [|s l IH]; intros f k j; simpl; [by rewrite andb_false_r, Z.bits_0|].
  rewrite Z.lor_spec. specialize (IH (fun i => f (S i)) (S k) j).
  assert (E : imap ((fun i s => if f i s then Z.shiftl 1 (Z.of_nat (k + i)) else 0) ∘ S) l
              = imap (fun i s => if f (S i) s then Z.shiftl 1 (Z.of_nat (S k + i)) else 0) l).
  { apply imap_ext. intros i x _. unfold compose. by replace (k + S i)%nat with (S k + i)%nat by lia. }
  rewrite E, IH, Nat.add_0_r. clear E IH.
  assert (Eh : Z.testbit (if f 0%nat s then Z.shiftl 1 (Z.of_nat k) else 0) (Z.of_nat j) = bool_decide (j = k) && f 0%nat s).
  { destruct (f 0%nat s); [by rewrite testbit_shift1, andb_true_r|by rewrite Z.bits_0, andb_false_r]. }
  rewrite Eh. destruct (Nat.lt_trichotomy j k) as [Hjk|[->|Hjk]].
  - rewrite bool_decide_eq_false_2, !(proj2 (Nat.leb_gt _ _)) by lia. done.
  - rewrite bool_decide_eq_true_2, Nat.sub_diag, Nat.leb_refl, (proj2 (Nat.leb_gt _ _)) by lia. simpl. by rewrite orb_false_r.
  - rewrite bool_decide_eq_false_2, !(proj2 (Nat.leb_le _ _)) by lia.
    assert (Ej : (j - k = S (j - S k))%nat) by lia. by rewrite Ej.
Qed.

Lemma valid_mask_spec cur c j :
  Z.testbit (valid_mask cur c) (Z.of_nat j) = from_option (active_ref_265 cur j) false (slots_265 c !! j).
Proof.
  unfold valid_mask. pose proof (testbit_mask (slots_265 c) (active_ref_265 cur) 0 j) as H. rewrite Nat.sub_0_r in H. exact H.
Qed.

Lemma ref_fill_lookup {A} (z : A) f cur c j e s :
  pool_265 c !! j = Some e -> slots_265 c !! j = Some s ->
  ref_fill z f cur c !! j = Some (if active_ref_265 cur j s then f e s else z).
Proof.
  intros He Hs. unfold ref_fill.
  assert (Hz : zip (pool_265 c) (slots_265 c) !! j = Some (e, s)) by (by rewrite lookup_zip_with_Some; eauto).
  rewrite lookup_app_l; [by rewrite list_lookup_imap, Hz|]. rewrite length_imap. by eapply lookup_lt_Some.
Qed.

(** What the marking leaves of a slot that was not selected. *)
Definition marked (p : H265ParseResult) (needed : list Z) (s : slot265) : slot265 :=
  if is_idr_265 p then clear_slot_265 s else mark_slot needed s.

(** C30: the selection of an HEVC picture: every slot but the chosen one is marked by
    the reference picture set - an IDR clears it, else it is a reference exactly when
    its picture is in the set - and is announced to the hardware with its address,
    its POC and its bit of the valid mask exactly when it is a reference; the chosen
    slot was held by nobody and had dropped out of the references. *)
Theorem rps_marking_exact c p r out c' j s :
  wf_265 c -> wf_parsed_265 p -> h265_active_strps p = Some r ->
  H265Dpb_Select c p = Some (DPB_OK, Some out, c') -> slots_265 c !! j = Some s ->
  let m := marked p (needed_pocs p r) s in
  let ref := in_use_265 m && is_ref_265 m in
  if bool_decide (j = current_slot_265 out)
  then slots_265 c' !! j = Some (take_slot_265 p m) /\ h265_slot_held s = false /\ ref = false /\
       Z.testbit (ref_valid_mask out) (Z.of_nat j) = false
  else slots_265 c' !! j = Some m /\ Z.testbit (ref_valid_mask out) (Z.of_nat j) = ref /\
       ref_pocs out !! j = Some (if ref then poc m else H265_DPB_REF_POC_SENTINEL) /\
       refs_265 out !! j = Some (if ref then from_option output_frame 0 (pool_265 c !! j) else 0) /\
       ref_colmv_265 out !! j = Some (if ref then from_option colmv 0 (pool_265 c !! j) else 0).
Proof.
  intros Hw Hp Hr Hsel Hj m ref.
  destruct (select_outcome_265 c p Hw Hp) as [[_ E]|(_ & c1 & Em & K & Ho)]; [congruence|].
  assert (Hm : slots_265 c1 = map (marked p (needed_pocs p r)) (slots_265 c)).
  { unfold rps_marking in Em. unfold marked. destruct (is_idr_265 p); [by injection Em as <-|].
    rewrite Hr in Em. by injection Em as <-. }
  assert (Hj1 : slots_265 c1 !! j = Some m) by (by rewrite Hm, list_lookup_fmap, Hj).
  assert (Hhold : hold_265 m = hold_265 s).
  { unfold m, marked. destruct (is_idr_265 p); [done|apply mark_slot_hold]. }
  destruct (h265_find_free c1) as [i|] eqn:Ef; [|congruence]. destruct Ho as (t & out' & Ht & Hh & Eo & Ec & E).
  rewrite Hsel in E. injection E as <- ->. rewrite Ec.
  destruct (find_free_265 c1 i Ef) as (t' & Ht' & _ & Hdrop). replace t' with t in * by congruence.
  unfold selection_265 in Eo. change (pool_265 (claimed p i c1)) with (pool_265 c1) in Eo. rewrite (k5_pool _ _ K) in Eo.
  destruct (pool_265 c !! i) as [e|]; [|done]. simpl in Eo. injection Eo as <-. cbn [ref_valid_mask ref_pocs refs_265 ref_colmv_265].
  assert (Es : slots_265 (claimed p i c1) = alter (take_slot_265 p) i (slots_265 c1)) by reflexivity.
  rewrite valid_mask_spec, Es. case_bool_decide as Hji.
  - subst i. rewrite list_lookup_alter_eq, Hj1. simpl. replace t with m in * by congruence.
    split; [done|]. split; [unfold h265_slot_held in *; by rewrite <- Hhold|]. split.
    { unfold ref. destruct (in_use_265 m); [by apply Hdrop|done]. }
    unfold active_ref_265. by rewrite bool_decide_eq_true_2.
  - rewrite list_lookup_alter_ne, Hj1 by done. simpl.
    assert (Ea : active_ref_265 i j m = ref) by (unfold active_ref_265; by rewrite bool_decide_eq_false_2).
    destruct (lookup_lt_is_Some_2 (pool_265 c) j) as [ej Hej].
    { rewrite <- (w5_pool _ Hw). by eapply lookup_lt_Some. }
    assert (Hsl : slots_265 (claimed p i c1) !! j = Some m) by (by rewrite Es, list_lookup_alter_ne).
    assert (Hpl : pool_265 (claimed p i c1) !! j = Some ej) by (change (pool_265 c1 !! j = Some ej); by rewrite (k5_pool _ _ K)).
    rewrite !(ref_fill_lookup _ _ _ _ _ _ _ Hpl Hsl), Ea, Hej. done.
Qed.

(** A picture whose set names one of the two pictures kept. *)
Definition kept_265 : H265DpbCtx :=
  Dpb265Ctx (replicate 3 (PoolEntry 0x1000 0x2000)) None 0
    [Slot265 true true 0 (no_hold 0); Slot265 true true 4 (no_hold 0); zero_slot_265].
Definition trail_265 : H265ParseResult :=
  Parsed265 true false true 8 false 0 (ShortTermRPS 1 0 [-4]) 0 0 [Sps265 true 0 [] 0 [4; 0; 0; 0; 0; 0; 0]].

Lemma rps_marking_exact_witness :
  exists out c', H265Dpb_Select kept_265 trail_265 = Some (DPB_OK, Some out, c') /\
    slots_265 c' !! 1%nat = Some (Slot265 true true 4 (no_hold 0)) /\
    Z.testbit (ref_valid_mask out) (Z.of_nat 1) = true /\ current_slot_265 out = 0%nat.
Proof.
  destruct (H265Dpb_Select kept_265 trail_265) as [[[st [out|]] c']|] eqn:E; [|vm_compute in E; discriminate E..].
  assert (Est : st = DPB_OK) by (vm_compute in E; by injection E). subst st.
  assert (Ec : current_slot_265 out = 0%nat) by (vm_compute in E; by injection E as <- <-).
  assert (H : wf_265 kept_265).
  { split; [done|vm_compute; lia|done|]. apply Forall_forall. by repeat constructor. }
  assert (Hp : wf_parsed_265 trail_265) by (split; [eexists; reflexivity|]; exists 4; split; [reflexivity|lia]).
  pose proof (rps_marking_exact kept_265 trail_265 _ out c' 1 _ H Hp eq_refl E eq_refl) as Hx. rewrite Ec in Hx.
  destruct Hx as (H1 & H2 & _). exists out, c'. exact (conj eq_refl (conj H1 (conj H2 Ec))).
Defined.
