(* ===== verification/DecodeSession.v ===== *)
(** * A decoding session (mft/dll/decoder_mft.cpp over the engine)

    How the transform drives its engine: ProcessInput with its backpressure,
    ProcessOutput that polls a frame and gives it back, the drain, and the flush that
    counts the stream epoch. *)

From S2P Require Import Prelude Dpb Dpb264 Dpb265 DecodeEngine.

(** The engine with what the transform keeps beside it.  [live] are the frames it has
    polled and not given back; [shown] and [decoded] are the history of the frames
    polled and of the POCs decoded. *)
Record session {D : Type} := Session {
  eng : engine D; stream_epoch : Z; live : list ReorderEntry; shown : list ReorderEntry; decoded : list Z }.
Arguments session : clear implicits.
Arguments Session {D} _ _ _ _ _.

Inductive session_op {P : Type} :=
  | ProcessInput (a : access_unit P)
  | PollOutput
  | ReleaseOutput (k : nat)
  | CommandDrain
  | CommandFlush.
Arguments session_op : clear implicits.
Arguments ProcessInput {P} a.
Arguments PollOutput {P}.
Arguments ReleaseOutput {P} k.
Arguments CommandDrain {P}.
Arguments CommandFlush {P}.

Section session.
Context {D P : Type} `{!Codec D P}.

(** The POC a submission queued. *)
Definition queued (e : engine D) (a : access_unit P) (rc : Z) : list Z :=
  if (rc =? 0) && negb (wait_for_idr e) then map current_poc (option_list (au_parsed a)) else [].

(** A full queue refuses the sample. *)
Definition process_input (s : session D) (a : access_unit P) : option (session D) :=
  if DecodeEngine_InputQueueCapacity (eng s) <=? DecodeEngine_QueueDepth (eng s) then Some s else
  '(rc, e) ← DecodeEngine_Submit (eng s) a (stream_epoch s);
  Some (Session e (stream_epoch s) (live s) (shown s) (decoded s ++ queued e a rc)).

Definition poll_output (s : session D) : option (session D) :=
  '(o, e) ← DecodeEngine_PollFrame (eng s);
  Some (Session e (stream_epoch s) (option_list o ++ live s) (shown s ++ option_list o) (decoded s)).

Definition release_output (s : session D) (k : nat) : option (session D) :=
  match live s !! k with
  | None => Some s
  | Some f =>
      e ← DecodeEngine_ReleaseFrame (eng s) f;
      Some (Session e (stream_epoch s) (delete k (live s)) (shown s) (decoded s))
  end.

Definition command_drain (s : session D) : option (session D) :=
  e ← DecodeEngine_Drain (eng s);
  Some (Session e (stream_epoch s) (live s) (shown s) (decoded s)).

Definition command_flush (s : session D) : option (session D) :=
  e ← DecodeEngine_Flush (eng s);
  Some (Session e (u32 (stream_epoch s + 1)) (live s) (shown s) (decoded s)).

Definition session_step (s : session D) (o : session_op P) : option (session D) :=
  match o with
  | ProcessInput a => process_input s a
  | PollOutput => poll_output s
  | ReleaseOutput k => release_output s k
  | CommandDrain => command_drain s
  | CommandFlush => command_flush s
  end.
Definition session_run (s : session D) (l : list (session_op P)) : option (session D) := foldlM session_step s l.

Definition session_start (d : D) (epoch : Z) : session D := Session (DecodeEngine_Init d) epoch [] [] [].
End session.
