(* ===== verification/SessionFacts.v ===== *)
(** * Facts about a session

    Every operation of a session keeps the engine's invariant; the frames of a
    sequence whose reordering fits the window leave in display order. *)

From S2P Require Import Prelude Dpb Dpb264 Dpb265 DecodeEngine DpbFacts EngineFacts DecodeSession.

Section session_facts.
Context {D P : Type} `{CodecLaws D P}.

Record session_ok (s : session D) : Prop := SessionOk {
  so_eng : eng_ok (eng s) (live s);
  so_epoch : stamp (dpb (eng s)) = stream_epoch s;
}.

(** The parser's result is in range; a flush counts the DPB's epoch as the transform does. *)
Definition op_ok (o : session_op P) : Prop :=
  match o with
  | ProcessInput a => forall p, au_parsed a = Some p -> wfP p
  | CommandFlush => forall ep, bumped ep = u32 (ep + 1)
  | _ => True
  end.

Lemma process_input_ok s a :
  session_ok s -> op_ok (ProcessInput a) ->
  exists s', process_input s a = Some s' /\ session_ok s' /\ live s' = live s /\ shown s' = shown s /\
    ((decoded s' = decoded s /\ reorder_q (eng s') = reorder_q (eng s) /\ ready_q (eng s') = ready_q (eng s)) \/
     exists p n entry first out, au_parsed a = Some p /\ resolve_max_reorder p = Some n /\
       decoded s' = decoded s ++ [r_poc entry] /\ r_poc entry = current_poc p /\
       completes_order (eng s) (eng s') entry (Z.min n kMaxReorderPics) (idr_boundary p) first out).
Proof.
  intros [H1 H2] Ha. unfold process_input. destruct (_ <=? _).
  { exists s. repeat (split; [done|]). by left. }
  rewrite <- H2. destruct (submit_ok (eng s) (live s) a H1 Ha) as (rc & e' & -> & H3 & H4 & Hq). ostep.
  eexists. split; [reflexivity|]. split; [by split|]. split; [done|]. split; [done|]. unfold queued. simpl.
  destruct Hq as [(E1 & E2 & ->)|(-> & -> & p & n & entry & first & out & Ep & En & Ec & _ & Ho)].
  - left. rewrite andb_false_r, app_nil_r. done.
  - right. exists p, n, entry, first, out. rewrite Ep. simpl. by rewrite Ec.
Qed.

Lemma poll_output_ok s :
  session_ok s -> exists s', poll_output s = Some s' /\ session_ok s' /\ decoded s' = decoded s /\
    reorder_q (eng s') = reorder_q (eng s) /\ shown s' ++ ready_q (eng s') = shown s ++ ready_q (eng s).
Proof.
  intros [H1 H2]. unfold poll_output. destruct (poll_ok (eng s) (live s) H1) as (o & e' & -> & Es & Ho). ostep.
  eexists. split; [reflexivity|]. destruct o as [r|]; simpl.
  - destruct Ho as (-> & -> & Hok). split; [split; [exact Hok|simpl; congruence]|]. by rewrite <- app_assoc.
  - destruct Ho as (Er & ->). split; [by split|]. rewrite Er, !app_nil_r. done.
Qed.

Lemma release_output_ok s k :
  session_ok s -> exists s', release_output s k = Some s' /\ session_ok s' /\ decoded s' = decoded s /\
    shown s' = shown s /\ reorder_q (eng s') = reorder_q (eng s) /\ ready_q (eng s') = ready_q (eng s).
Proof.
  intros [H1 H2]. unfold release_output. destruct (live s !! k) as [f|] eqn:Ef; [|by exists s].
  rewrite <- (take_drop_middle _ _ _ Ef) in H1.
  destruct (release_ok _ _ _ _ H1) as (e' & -> & Hok & Es & Eq & Er). ostep.
  eexists. split; [reflexivity|]. split; [|done]. split; [|simpl; congruence]. simpl. by rewrite delete_take_drop.
Qed.

Lemma command_drain_ok s :
  session_ok s -> exists s' out, command_drain s = Some s' /\ session_ok s' /\ decoded s' = decoded s /\
    shown s' = shown s /\ bumps (eng s) (eng s') out /\ reorder_q (eng s') = [].
Proof.
  intros [H1 H2]. unfold command_drain. destruct (drain_tracks (eng s) _ H1) as (e' & out & -> & HT & Hb & Hq). ostep.
  eexists _, out. split; [reflexivity|]. split; [|done]. split; [exact HT|]. simpl. by rewrite (bu_stamp _ _ _ Hb).
Qed.

Lemma command_flush_ok s :
  session_ok s -> op_ok CommandFlush -> exists s', command_flush s = Some s' /\ session_ok s'.
Proof.
  intros [H1 H2] Hb. unfold command_flush. destruct (flush_ok _ _ H1) as (e' & -> & Hok & _ & _ & _ & Es & _). ostep.
  eexists. split; [reflexivity|]. split; [done|]. simpl. by rewrite Es, Hb, H2.
Qed.

Lemma session_step_ok s o : session_ok s -> op_ok o -> exists s', session_step s o = Some s' /\ session_ok s'.
Proof.
  intros Hs Ho. destruct o as [a| |k| |]; simpl.
  - destruct (process_input_ok s a Hs Ho) as (s' & E & Hs' & _). eauto.
  - destruct (poll_output_ok s Hs) as (s' & E & Hs' & _). eauto.
  - destruct (release_output_ok s k Hs) as (s' & E & Hs' & _). eauto.
  - destruct (command_drain_ok s Hs) as (s' & out & E & Hs' & _). eauto.
  - by apply command_flush_ok.
Qed.

Lemma session_run_ok l : forall s,
  session_ok s -> (forall o, o ∈ l -> op_ok o) -> exists s', session_run s l = Some s' /\ session_ok s'.
Proof.
  induction l as [|o l IH]; intros s Hs Hl; [by exists s|]. unfold session_run. rewrite foldlM_cons.
  destruct (session_step_ok s o Hs) as (s1 & -> & Hs1); [apply Hl; left|]. ostep.
  apply IH; [done|]. intros o' Ho'. apply Hl. by right.
Qed.

Lemma session_start_ok d ep :
  stamp d = ep -> wf d -> (forall i h, holds d !! i = Some h -> held h = false) -> session_ok (session_start d ep).
Proof.
  intros He Hw Hh. split; [|done]. split; [exact Hw|constructor|by intros t ?%elem_of_nil|].
  intros i h Hi Eh. by rewrite (Hh i h Hi) in Eh.
Qed.

(** ** Display order *)

(** At most [m] pictures precede a picture in decoding order and follow it in
    display order. *)
Definition fits (m : Z) (pocs : list Z) : Prop :=
  forall i x, pocs !! i = Some x -> Z.of_nat (length (filter (fun y => x < y) (take i pocs))) <= m.

(** The frames out since [base], against the POCs decoded. *)
Record ordered (m : Z) (base : list ReorderEntry) (out : list ReorderEntry) (s : session D) : Prop := Ordered {
  or_ok : session_ok s;
  or_out : shown s ++ ready_q (eng s) = base ++ out;
  or_perm : map r_poc (out ++ reorder_q (eng s)) ≡ₚ decoded s;
  or_size : Z.of_nat (length (reorder_q (eng s))) <= m;
  or_sorted : StronglySorted poc_le out;
  or_least x y : x ∈ out -> y ∈ reorder_q (eng s) -> poc_le x y;
  or_count x : x ∈ out -> m < Z.of_nat (length (filter (fun y => r_poc x <= y) (decoded s)));
}.

Lemma fits_prefix m l1 l2 : fits m (l1 ++ l2) -> fits m l1.
Proof.
  intros Hf i x Hi. pose proof (lookup_lt_Some _ _ _ Hi). rewrite <- (take_app_le l1 l2 i) by lia.
  apply Hf. by apply lookup_app_l_Some.
Qed.

Lemma filter_length_mono (Q R : Z -> Prop) `{!forall x, Decision (Q x)} `{!forall x, Decision (R x)} (l : list Z) :
  (forall x, Q x -> R x) -> (length (filter Q l) <= length (filter R l))%nat.
Proof.
  intros HQR. induction l as [|x l IH]; [done|]. destruct (decide (Q x)) as [HQ|HQ].
  - rewrite !filter_cons_True by auto. simpl. lia.
  - rewrite filter_cons_False by done. destruct (decide (R x)).
    + rewrite filter_cons_True by done. simpl. lia.
    + by rewrite filter_cons_False.
Qed.

Lemma filter_all (Q : Z -> Prop) `{!forall x, Decision (Q x)} (l : list Z) : (forall x, x ∈ l -> Q x) -> filter Q l = l.
Proof.
  induction l as [|x l IH]; intros Hl; [done|]. rewrite filter_cons_True by (apply Hl; left). f_equal.
  apply IH. intros y Hy. apply Hl. by right.
Qed.

Lemma sorted_snoc (l : list ReorderEntry) x :
  StronglySorted poc_le l -> (forall y, y ∈ l -> poc_le y x) -> StronglySorted poc_le (l ++ [x]).
Proof.
  induction 1 as [|y l Hs IH Hy]; intros Hx; simpl; [by repeat constructor|]. constructor.
  - apply IH. intros z Hz. apply Hx. by right.
  - apply Forall_app. split; [done|]. repeat constructor. apply Hx. left.
Qed.

Lemma sorted_app (l1 l2 : list ReorderEntry) :
  StronglySorted poc_le l1 -> StronglySorted poc_le l2 -> (forall x y, x ∈ l1 -> y ∈ l2 -> poc_le x y) ->
  StronglySorted poc_le (l1 ++ l2).
Proof.
  intros H1 H2. induction H1 as [|y l Hs IH Hy]; intros Hx; simpl; [done|]. constructor.
  - apply IH. intros u z Hu Hz. apply Hx; [by right|done].
  - apply Forall_app. split; [done|]. rewrite Forall_forall. intros z Hz. apply Hx; [by left|done].
Qed.

(** The new picture is not before one that is out: else that one and the queue it
    left behind would all follow it. *)
Lemma ordered_new m base out s e :
  ordered m base out s -> fits m (decoded s ++ [r_poc e]) -> forall x, x ∈ out -> poc_le x e.
Proof.
  intros Ho Hf x Hx. unfold poc_le. destruct (Z.le_gt_cases (r_poc x) (r_poc e)) as [|Hlt]; [done|]. exfalso.
  pose proof (Hf (length (decoded s)) (r_poc e) (list_lookup_middle _ [] _ _ eq_refl)) as Hc.
  rewrite take_app_length in Hc. pose proof (or_count _ _ _ _ Ho x Hx) as Hx2.
  pose proof (filter_length_mono (fun y => r_poc x <= y) (fun y => r_poc e < y) (decoded s)) as Hm.
  specialize (Hm (fun y Hy => Z.lt_le_trans _ _ _ Hlt Hy)). lia.
Qed.

(** One picture more. *)
Lemma ordered_push m base out s s' e first out1 :
  ordered m base out s -> 0 <= m -> fits m (decoded s ++ [r_poc e]) -> session_ok s' ->
  completes_order (eng s) (eng s') e m false first out1 -> shown s' = shown s -> decoded s' = decoded s ++ [r_poc e] ->
  ordered m base (out ++ out1) s'.
Proof.
  intros Ho Hm Hf Hs' [O1 O2 O3 [_ O4] O5 O6 _ _] Esh Ed. subst first. simpl in *.
  pose proof (ordered_new m base out s e Ho Hf) as Hnew. pose proof (or_size _ _ _ _ Ho) as Hsz.
  assert (Hin : forall y, y ∈ out1 ++ reorder_q (eng s') -> y ∈ reorder_q (eng s) \/ y = e).
  { intros y. rewrite O3, elem_of_app, list_elem_of_singleton. done. }
  assert (Hle : forall x y, x ∈ out -> y ∈ out1 ++ reorder_q (eng s') -> poc_le x y).
  { intros x y Hx [Hy| ->]%Hin; [exact (or_least _ _ _ _ Ho x y Hx Hy)|by apply Hnew]. }
  assert (Hp : map r_poc ((out ++ out1) ++ reorder_q (eng s')) ≡ₚ decoded s').
  { rewrite Ed, <- (or_perm _ _ _ _ Ho), <- app_assoc, !map_app, <- app_assoc. apply Permutation_app_head.
    rewrite <- !map_app, O3, map_app. done. }
  split; [done| |exact Hp| | | |].
  - rewrite Esh, O1. rewrite (app_assoc base), <- (or_out _ _ _ _ Ho), <- app_assoc. done.
  - lia.
  - apply sorted_app; [apply (or_sorted _ _ _ _ Ho)|done|]. intros x y Hx Hy. apply Hle; [done|]. apply elem_of_app. by left.
  - intros x y [Hx|Hx]%elem_of_app Hy; [|by apply O5]. apply Hle; [done|]. apply elem_of_app. by right.
  - intros x [Hx|Hx]%elem_of_app.
    + pose proof (or_count _ _ _ _ Ho x Hx) as Hc. rewrite Ed, filter_app, length_app. lia.
    + assert (Hall : forall y, y ∈ map r_poc (x :: reorder_q (eng s')) -> r_poc x <= y).
      { intros y (z & -> & Hz)%list_elem_of_fmap. apply elem_of_cons in Hz as [->|Hz]; [lia|by apply O5]. }
      assert (Hsub : exists l1, decoded s' ≡ₚ map r_poc (x :: reorder_q (eng s')) ++ l1).
      { apply list_elem_of_split in Hx as (u & v & ->). exists (map r_poc (out ++ u ++ v)). rewrite <- Hp, <- map_app.
        apply Permutation_map. solve_Permutation. }
      destruct Hsub as [l1 Hl1]. rewrite Hl1, filter_app, (filter_all _ _ Hall), length_app, length_map. simpl.
      assert (length out1 <> 0%nat) by (destruct out1; [by apply elem_of_nil in Hx|done]).
      apply Permutation_length in O3. rewrite !length_app in O3. simpl in O3. rewrite length_app in O6. simpl in O6. lia.
Qed.

(** An operation of a coded video sequence: no drain, no flush; every picture has
    the window [m], and only the first may be a boundary. *)
Definition in_sequence (m : Z) (first : bool) (o : session_op P) : Prop :=
  match o with
  | ProcessInput a => forall p n, au_parsed a = Some p ->
      wfP p /\ (resolve_max_reorder p = Some n -> Z.min n kMaxReorderPics = m) /\
      (idr_boundary p = true -> first = true)
  | PollOutput | ReleaseOutput _ => True
  | CommandDrain | CommandFlush => False
  end.

Lemma ordered_step m base s o fst_op :
  session_ok s -> 0 <= m -> in_sequence m fst_op o -> (fst_op = true -> reorder_q (eng s) = []) ->
  exists s' d, session_step s o = Some s' /\ session_ok s' /\ decoded s' = decoded s ++ d /\
    (fits m (decoded s') -> forall out, ordered m base out s -> exists out', ordered m base out' s').
Proof.
  intros Hs Hm Ho Hempty. destruct o as [a| |k| |]; simpl in Ho |- *; try done.
  - destruct (process_input_ok s a Hs) as (s' & E & Hs' & _ & Esh & Hq).
    { intros p Hp. exact (proj1 (Ho p 0 Hp)). }
    destruct Hq as [(Ed & Eq & Er)|(p & n & e & first & out1 & Hp & Hn & Ed & _ & Hc)].
    + exists s', []. rewrite app_nil_r. do 3 (split; [done|]). intros _ out [R1 R2 R3 R4 R5 R6 R7]. exists out.
      split; rewrite ?Ed, ?Eq, ?Er, ?Esh; done.
    + exists s', [r_poc e]. do 3 (split; [done|]). intros Hf out Hord. rewrite Ed in Hf. exists (out ++ out1).
      destruct (Ho p n Hp) as (_ & Hw & Hb). rewrite (Hw Hn) in Hc.
      destruct (idr_boundary p); [|exact (ordered_push m base out s s' e first out1 Hord Hm Hf Hs' Hc Esh Ed)].
      specialize (Hempty (Hb eq_refl)) as Hq0. clear Hb. rename Hq0 into Hb. destruct Hc as [O1 O2 O3 O4 O5 O6 O7 O8].
      apply (ordered_push m base out s s' e first out1 Hord Hm Hf Hs'); [|done|done].
      rewrite Hb in O2. apply Permutation_nil_r in O2. split; rewrite ?Hb; done.
  - destruct (poll_output_ok s Hs) as (s' & E & Hs' & Ed & Eq & Eo). exists s', []. rewrite app_nil_r.
    do 3 (split; [done|]). intros _ out [R1 R2 R3 R4 R5 R6 R7]. exists out. split; rewrite ?Ed, ?Eq, ?Eo; done.
  - destruct (release_output_ok s k Hs) as (s' & E & Hs' & Ed & Esh & Eq & Er). exists s', []. rewrite app_nil_r.
    do 3 (split; [done|]). intros _ out [R1 R2 R3 R4 R5 R6 R7]. exists out.
    split; rewrite ?Ed, ?Eq, ?Er, ?Esh; done.
Qed.

Lemma ordered_run m base l : forall s,
  0 <= m -> session_ok s -> (forall o, o ∈ l -> in_sequence m false o) ->
  exists s' d, session_run s l = Some s' /\ session_ok s' /\ decoded s' = decoded s ++ d /\
    (fits m (decoded s') -> forall out, ordered m base out s -> exists out', ordered m base out' s').
Proof.
  induction l as [|o l IH]; intros s Hm Hs Hl; unfold session_run.
  { exists s, []. rewrite app_nil_r. split; [done|]. split; [done|]. split; [done|]. eauto. }
  rewrite foldlM_cons. destruct (ordered_step m base s o false Hs Hm) as (s1 & d1 & -> & Hs1 & Ed1 & Hf1); [apply Hl; left|done|].
  ostep. destruct (IH s1 Hm Hs1) as (s2 & d2 & E & Hs2 & Ed2 & Hf2); [intros; apply Hl; by right|].
  exists s2, (d1 ++ d2). split; [exact E|]. split; [done|]. split; [by rewrite Ed2, Ed1, <- app_assoc|].
  intros Hf out Ho. destruct (Hf1 (fits_prefix m _ d2 (eq_ind _ (fits m) Hf _ Ed2)) out Ho) as [out1 Ho1]. eauto.
Qed.
End session_facts.
