(* ===== verification/EngineProps.v ===== *)
(** * Properties of the decode engine

    Sessions never trap on a hold, the HEVC session that does, and the display
    order. *)

From S2P Require Import Prelude Dpb Dpb264 Dpb265 DecodeEngine DpbFacts EngineFacts Dpb264Facts Dpb265Facts DecodeSession SessionFacts.

(** ** Fresh engines *)
Lemma lookup_map_replicate {A B} (f : A -> B) n x i y : map f (replicate n x) !! i = Some y -> y = f x.
Proof.
  intros H. apply list_lookup_fmap_Some in H as (z & -> & Hz). by apply lookup_replicate in Hz as [-> _].
Qed.

Lemma Dpb_Init_ok p d :
  Dpb_Init p = Some d -> d = Dpb264Ctx p None 0 0 0 0 (-1) false [] 0 0 (replicate (length p) zero_slot) /\
    (0 < length p <= Z.to_nat DPB_MAX_SLOTS)%nat.
Proof.
  unfold Dpb_Init, DPB_MAX_SLOTS. destruct (Z.eqb_spec (Z.of_nat (length p)) 0); [done|].
  destruct (Z.ltb_spec 16 (Z.of_nat (length p))); [done|]. simpl. destruct (existsb _ p); [done|].
  intros [= <-]. split; [done|lia].
Qed.

Lemma H265Dpb_Init_ok p d :
  H265Dpb_Init p = Some d -> d = Dpb265Ctx p None 0 (replicate (length p) zero_slot_265) /\
    (0 < length p <= Z.to_nat DPB_MAX_SLOTS)%nat.
Proof.
  unfold H265Dpb_Init, DPB_MAX_SLOTS. destruct (Z.eqb_spec (Z.of_nat (length p)) 0); [done|].
  destruct (Z.ltb_spec 16 (Z.of_nat (length p))); [done|]. simpl. destruct (existsb _ p); [done|].
  intros [= <-]. split; [done|lia].
Qed.

Lemma fresh_264 p d : Dpb_Init p = Some d -> session_ok (session_start d 0).
Proof.
  intros H. apply Dpb_Init_ok in H as [-> Hl]. apply session_start_ok; [done| |].
  - split; simpl; [apply length_replicate|rewrite length_replicate; lia|done| |lia].
    apply Forall_replicate. by unfold ref_used.
  - intros i h Hi. by apply lookup_map_replicate in Hi as ->.
Qed.

Lemma fresh_265 p d : H265Dpb_Init p = Some d -> session_ok (session_start d 0).
Proof.
  intros H. apply H265Dpb_Init_ok in H as [-> Hl]. apply session_start_ok; [done| |].
  - split; simpl; [apply length_replicate|rewrite length_replicate; lia|done|].
    intros h Hh. apply list_elem_of_lookup in Hh as [i Hi]. by apply lookup_map_replicate in Hi as ->.
  - intros i h Hi. by apply lookup_map_replicate in Hi as ->.
Qed.

(** ** Sessions are safe *)


Definition frames (n : nat) : list DpbPoolEntry := replicate n (PoolEntry 0x1000 0x2000).
(** A picture of H.264: IDR or not, a reference or not, its numbers. *)
Definition pic_264 (idr ref : bool) (fn poc : Z) : H264ParseResult :=
  Parsed264 true true (if idr then 1 else 0) (if ref then 1 else 0) fn poc poc 0 2 0 false false [].
Definition au_264 (idr ref : bool) (fn poc : Z) : access_unit H264ParseResult :=
  AccessUnit [0; 0; 1; if idr then 0x65 else 0x41] (Some (pic_264 idr ref fn poc)) true true (-1).
Definition sps_265 : H265Sps := Sps265 true 0 [] 0 [4; 0; 0; 0; 0; 0; 0].
Definition pic_265 (idr : bool) (poc : Z) : H265ParseResult :=
  Parsed265 true idr true poc false 0 (ShortTermRPS 0 0 []) 0 0 [sps_265].
Definition au_265 (idr : bool) (poc : Z) : access_unit H265ParseResult :=
  AccessUnit [0; 0; 0; 1; if idr then 0x26 else 0x02] (Some (pic_265 idr poc)) true true (-1).
Definition session_264 : list (session_op H264ParseResult) :=
  [ProcessInput (au_264 true true 0 0); ProcessInput (au_264 false true 1 8); ProcessInput (au_264 false false 2 4);
   PollOutput; CommandFlush; ProcessInput (au_264 true true 0 0); ReleaseOutput 0; CommandDrain; PollOutput].


Lemma pic_265_ok b z : wf_parsed_265 (pic_265 b z).
Proof. split; [eexists; reflexivity|]. exists 4. split; [reflexivity|lia]. Defined.

(** ** The epoch of the HEVC slots *)







(** ** Display order *)

(** C12: from an empty reorder queue, the pictures of a coded video sequence leave the
    engine in display order: however submissions (failed and refused ones too), polls
    and releases interleave, after the final drain the frames out are the pictures
    decoded, by increasing POC, provided that no picture has more earlier pictures
    after it in display order than the window lets wait. *)
Theorem display_order {D P} `{CodecLaws D P} (s : session D) (o : session_op P) (l : list (session_op P)) (m : Z) :
  0 <= m -> session_ok s -> reorder_q (eng s) = [] -> decoded s = [] ->
  in_sequence m true o -> (forall o', o' ∈ l -> in_sequence m false o') ->
  exists s', session_run s ((o :: l) ++ [CommandDrain]) = Some s' /\ session_ok s' /\ reorder_q (eng s') = [] /\
    (fits m (decoded s') ->
     exists out, shown s' ++ ready_q (eng s') = (shown s ++ ready_q (eng s)) ++ out /\
       map r_poc out ≡ₚ decoded s' /\ StronglySorted poc_le out).
Proof.
  intros Hm Hs Hq Hd Ho Hl. set (base := shown s ++ ready_q (eng s)).
  assert (Hord : ordered m base [] s).
  { split; rewrite ?Hq, ?Hd; simpl; try done; [by rewrite app_nil_r|constructor|by intros ? ? ?%elem_of_nil|by intros ? ?%elem_of_nil]. }
  destruct (ordered_step m base s o true Hs Hm Ho (fun _ => Hq)) as (s1 & d1 & E1 & Hs1 & Ed1 & Hf1).
  destruct (ordered_run m base l s1 Hm Hs1 Hl) as (s2 & d2 & E2 & Hs2 & Ed2 & Hf2).
  destruct (command_drain_ok s2 Hs2) as (s3 & out3 & E3 & Hs3 & Ed3 & Esh & Hb & Hq3).
  exists s3. split.
  { simpl. unfold session_run. rewrite foldlM_cons, E1. ostep. rewrite foldlM_app. fold (session_run s1 l). rewrite E2. ostep.
    rewrite foldlM_cons. simpl. rewrite E3. reflexivity. }
  split; [done|]. split; [done|]. intros Hf. rewrite Ed3 in Hf.
  assert (Hf' : fits m (decoded s1)) by (rewrite Ed2 in Hf; by eapply fits_prefix).
  destruct (Hf1 Hf' [] Hord) as [out1 Hord1]. destruct (Hf2 Hf out1 Hord1) as [out2 [R1 R2 R3 R4 R5 R6 R7]].
  exists (out2 ++ out3). split; [|split].
  - rewrite Esh, (bu_ready _ _ _ Hb), (app_assoc (shown s2)), R2, <- app_assoc. done.
  - rewrite Ed3, <- R3. apply Permutation_map. apply Permutation_app_head. rewrite <- (bu_perm _ _ _ Hb), Hq3. by rewrite app_nil_r.
  - apply sorted_app; [done|apply (bu_sorted _ _ _ Hb)|]. intros x y Hx Hy. apply R6; [done|]. rewrite <- (bu_perm _ _ _ Hb).
    apply elem_of_app. by left.
Qed.

(** A sequence with pictures between their references, in decoding order. *)
Definition pyramid : list (session_op H264ParseResult) :=
  [ProcessInput (au_264 false true 1 8); ProcessInput (au_264 false true 2 4); PollOutput;
   ProcessInput (au_264 false false 3 2); PollOutput; ReleaseOutput 0; ProcessInput (au_264 false false 3 6)].

Lemma display_order_witness :
  exists s0 s' out, session_run s0 ((ProcessInput (au_264 true true 0 0) :: pyramid) ++ [CommandDrain]) = Some s' /\
    decoded s' = [0; 8; 4; 2; 6] /\ shown s' ++ ready_q (eng s') = out /\ map r_poc out ≡ₚ decoded s' /\
    StronglySorted poc_le out.
Proof.
  set (s0 := session_start (Dpb264Ctx (frames 5) None 0 0 0 0 (-1) false [] 0 0 (replicate 5 zero_slot)) 0).
  assert (Hin : forall b idr r fn z, (idr = true -> b = true) -> in_sequence 2 b (ProcessInput (au_264 idr r fn z))).
  { intros b idr r fn z Hb q n [= <-]. split; [by vm_compute|]. split; [by intros [= <-]|]. destruct idr; [auto|done]. }
  assert (H1 : session_ok s0) by exact (fresh_264 (frames 5) _ eq_refl).
  assert (H2 : forall o, o ∈ pyramid -> in_sequence 2 false o).
  { apply Forall_forall. unfold pyramid. repeat (constructor; [first [exact I|by apply Hin]|]). constructor. }
  destruct (display_order s0 _ pyramid 2 (ltac:(lia)) H1 eq_refl eq_refl (Hin true true true 0 0 (fun e => e)) H2)
    as (s' & E & _ & _ & Hf).
  exists s0, s'. vm_compute in E. injection E as <-. destruct Hf as (out & E1 & E2 & E3).
  { intros [|[|[|[|[|i]]]]] x Hx; [vm_compute in Hx; injection Hx as <-; by vm_compute..|done]. }
  exists out. split; [vm_compute; reflexivity|]. split; [reflexivity|]. split; [exact E1|]. by split.
Defined.

(** ** Where a new sequence begins *)

(** An H.264 IDR finds the queue of the sequence before it emptied, in display
    order, and waits alone; an HEVC IDR does not: when the window is full of pictures
    of higher POC, as the end of a sequence leaves it, the IDR is handed out at once,
    before all of them. *)
Theorem idr_boundary_order (s : session DpbCtx) a p (s5 : session H265DpbCtx) a5 p5 n :
  session_ok s -> au_parsed a = Some p -> wf_parsed_264 p -> is_idr p = true ->
  session_ok s5 -> au_parsed a5 = Some p5 -> wf_parsed_265 p5 -> max_reorder_265 p5 = Some n ->
  Z.of_nat (length (reorder_q (eng s5))) = Z.min n kMaxReorderPics ->
  (forall x, x ∈ reorder_q (eng s5) -> parsed_poc p5 < r_poc x) ->
  (exists s', process_input s a = Some s' /\
     (decoded s' = decoded s \/
      exists first out e, ready_q (eng s') = ready_q (eng s) ++ first ++ out /\ first ≡ₚ reorder_q (eng s) /\
        StronglySorted poc_le first /\ r_poc e = current_poc p /\ out ++ reorder_q (eng s') = [e])) /\
  (exists s', process_input s5 a5 = Some s' /\
     (decoded s' = decoded s5 \/
      exists e, ready_q (eng s') = ready_q (eng s5) ++ [e] /\ r_poc e = parsed_poc p5 /\
        reorder_q (eng s') ≡ₚ reorder_q (eng s5))).
Proof.
  intros Hs Ha Hp Hidr Hs5 Ha5 Hp5 Hn Hfull Hlow. split.
  - destruct (process_input_ok s a Hs) as (s' & E & _ & _ & _ & Hq); [intros q Hq; by replace q with p by congruence|].
    exists s'. split; [done|]. destruct Hq as [[Ed _]|(q & k & e & first & out & Hq & _ & _ & Ee & [O1 O2 O3 [O4 _] _ _ _ _])]; [by left|].
    right. replace q with p in * by congruence. change (idr_boundary p) with (is_idr p) in *. rewrite Hidr in *.
    exists first, out, e. do 4 (split; [done|]). by apply Permutation_singleton_r in O3.
  - destruct (process_input_ok s5 a5 Hs5) as (s' & E & _ & _ & _ & Hq); [intros q Hq; by replace q with p5 by congruence|].
    exists s'. split; [done|]. destruct Hq as [[Ed _]|(q & k & e & first & out & Hq & Hk & _ & Ee & [O1 -> O3 _ O5 O6 _ _])]; [by left|].
    right. replace q with p5 in * by congruence. simpl in Hk, O3, O6, Ee, O1. replace k with n in * by congruence.
    exists e. pose proof (Permutation_length O3) as Hl. rewrite !length_app in Hl. rewrite length_app in O6. simpl in Hl, O6.
    destruct out as [|x [|]]; simpl in Hl; [lia| |lia]. assert (Hx : x = e).
    { assert (Hin : x ∈ reorder_q (eng s5) ++ [e]) by (rewrite <- O3; left).
      apply elem_of_app in Hin as [Hin|Hin]; [|by apply list_elem_of_singleton in Hin].
      assert (He : e ∈ [x] ++ reorder_q (eng s')) by (rewrite O3; apply elem_of_app; right; left).
      apply elem_of_app in He as [He|He]; [by apply list_elem_of_singleton in He|].
      specialize (O5 x e (ltac:(left)) He). specialize (Hlow x Hin). unfold poc_le in O5. lia. }
    subst x. split; [exact O1|]. split; [done|]. apply (Permutation_cons_inv (a := e)). etransitivity; [exact O3|].
    symmetry. apply Permutation_cons_append.
Qed.

Definition tail_265 : list (session_op H265ParseResult) :=
  [ProcessInput (au_265 true 0); ProcessInput (au_265 false 5); ProcessInput (au_265 false 6); ProcessInput (au_265 false 7);
   ProcessInput (au_265 false 8); PollOutput; ReleaseOutput 0].

Lemma idr_boundary_order_witness :
  exists s s5,
  (exists s', process_input s (au_264 true true 0 0) = Some s' /\
     (decoded s' = decoded s \/
      exists first out e, ready_q (eng s') = ready_q (eng s) ++ first ++ out /\ first ≡ₚ reorder_q (eng s) /\
        StronglySorted poc_le first /\ r_poc e = 0 /\ out ++ reorder_q (eng s') = [e])) /\
  (exists s', process_input s5 (au_265 true 0) = Some s' /\
     (decoded s' = decoded s5 \/
      exists e, ready_q (eng s') = ready_q (eng s5) ++ [e] /\ r_poc e = 0 /\
        reorder_q (eng s') ≡ₚ reorder_q (eng s5))).
Proof.
  destruct (session_run_ok (take 3 session_264) (session_start (Dpb264Ctx (frames 5) None 0 0 0 0 (-1) false [] 0 0 (replicate 5 zero_slot)) 0))
    as (s & E & Hs).
  { exact (fresh_264 (frames 5) _ eq_refl). }
  { apply Forall_forall. repeat constructor; by intros q [= <-]; vm_compute. }
  destruct (session_run_ok tail_265 (session_start (Dpb265Ctx (frames 8) None 0 (replicate 8 zero_slot_265)) 0))
    as (s5 & E5 & Hs5).
  { exact (fresh_265 (frames 8) _ eq_refl). }
  { apply Forall_forall. unfold tail_265. repeat (constructor; [first [exact I|intros q [= <-]; apply pic_265_ok]|]). constructor. }
  exists s, s5.
  assert (Hq : map r_poc (reorder_q (eng s5)) = [5; 6; 7; 8]) by (vm_compute in E5; by injection E5 as <-).
  refine (idr_boundary_order s (au_264 true true 0 0) (pic_264 true true 0 0) s5 (au_265 true 0) (pic_265 true 0) 4 Hs eq_refl _ eq_refl Hs5 eq_refl
            (pic_265_ok true 0) eq_refl _ _).
  - by vm_compute.
  - rewrite <- (length_map r_poc), Hq. reflexivity.
  - intros x Hx. apply (list_elem_of_fmap_2 r_poc) in Hx. change (r_poc <$> reorder_q (eng s5)) with (map r_poc (reorder_q (eng s5))) in Hx.
    rewrite Hq in Hx. simpl. rewrite !elem_of_cons, elem_of_nil in Hx. lia.
Defined.
