(* ===== verification/Bits.v ===== *)
(** * Bit strings: a byte buffer read from its most significant bit

    [to_bits] is the bit string of a buffer and [window l n] the number its next [n]
    bits spell, with zeros past the end: the views in which the bit readers of the
    parsers and the VP9 bool decoder are specified. *)

From S2P Require Import Prelude.

(** A byte, and a buffer of them. *)
Definition is_byte (b : Z) : Prop := 0 <= b < 256.

Definition byte_bits (b : Z) : list bool := map (Z.testbit b) [7; 6; 5; 4; 3; 2; 1; 0].
Fixpoint to_bits (buf : list Z) : list bool :=
  match buf with
  | [] => []
  | b :: buf => byte_bits b ++ to_bits buf
  end.

Fixpoint window (l : list bool) (n : nat) : Z :=
  match n, l with
  | O, _ | _, [] => 0
  | S n, b :: l => Z.b2z b * 2 ^ Z.of_nat n + window l n
  end.

(** A C [int]: [None] on signed overflow. *)
Definition int32 (x : Z) : option Z := if (- 2 ^ 31 <=? x) && (x <? 2 ^ 31) then Some x else None.

Lemma int32_ok x : - 2 ^ 31 <= x < 2 ^ 31 -> int32 x = Some x.
Proof. intros H. unfold int32. by rewrite (proj2 (Z.leb_le _ _)), (proj2 (Z.ltb_lt _ _)) by lia. Qed.

(** ** The bit string of a buffer *)

Lemma length_to_bits buf : length (to_bits buf) = (8 * length buf)%nat.
Proof. induction buf as [|b buf IH]; [done|]. cbn [to_bits]. rewrite length_app, IH. simpl. lia. Qed.

Lemma to_bits_app b1 b2 : to_bits (b1 ++ b2) = to_bits b1 ++ to_bits b2.
Proof. induction b1 as [|b b1 IH]; [done|]. cbn [to_bits app]. by rewrite IH, app_assoc. Qed.

Lemma to_bits_drop buf : forall n, to_bits (drop n buf) = drop (8 * n) (to_bits buf).
Proof.
  induction buf as [|b buf IH]; intros [|n]; [done|by rewrite !drop_nil|done|].
  rewrite skipn_cons, IH. replace (8 * S n)%nat with (8 + 8 * n)%nat by lia.
  by rewrite <- drop_drop.
Qed.

(** ** Windows *)

Lemma window_0 l : window l 0 = 0.
Proof. by destruct l. Qed.
Lemma window_nil n : window [] n = 0.
Proof. by destruct n. Qed.

Lemma window_range l : forall n, 0 <= window l n < 2 ^ Z.of_nat n.
Proof.
  induction l as [|b l IH]; intros [|n].
  - rewrite window_0. simpl. lia.
  - rewrite window_nil. pose proof (Z.pow_pos_nonneg 2 (Z.of_nat (S n))). lia.
  - rewrite window_0. simpl. lia.
  - simpl window. rewrite Nat2Z.inj_succ, Z.pow_succ_r by lia. specialize (IH n). destruct b; simpl Z.b2z; lia.
Qed.

Lemma window_add l : forall a b, window l (a + b) = window l a * 2 ^ Z.of_nat b + window (drop a l) b.
Proof.
  induction l as [|x l IH]; intros a b; [by rewrite drop_nil, !window_nil|].
  destruct a as [|a]; [by rewrite window_0|]. simpl. rewrite IH, Nat2Z.inj_add, Z.pow_add_r by lia. ring.
Qed.

Lemma window_app l1 l2 n : n = length l1 -> window (l1 ++ l2) n = window l1 n.
Proof.
  intros ->. induction l1 as [|b l1 IH]; [simpl; apply window_0|]. simpl. by rewrite IH.
Qed.

Lemma window_short l n m : (length l <= n)%nat -> window l (n + m) = window l n * 2 ^ Z.of_nat m.
Proof. intros H. rewrite window_add, drop_ge, window_nil by done. lia. Qed.

Lemma window_byte b l : is_byte b -> window (byte_bits b ++ l) 8 = b.
Proof.
  intros Hb. rewrite window_app by done. unfold is_byte in Hb.
  assert (Forall (fun b => window (byte_bits b) 8 = b) (map Z.of_nat (seq 0 256))) as H.
  { repeat constructor. }
  rewrite Forall_forall in H. apply H.
  rewrite <- (Z2Nat.id b) by lia. apply list_elem_of_fmap_2, list_elem_of_In, in_seq. lia.
Qed.

Lemma byte_lookup buf i b : Forall is_byte buf -> buf !! i = Some b -> is_byte b.
Proof. intros H Hi. rewrite Forall_forall in H. eapply H, list_elem_of_lookup_2, Hi. Qed.

(** The byte at index [i] is the window of 8 bits there. *)
Lemma window_lookup buf i b :
  Forall is_byte buf -> buf !! i = Some b -> window (drop (8 * i) (to_bits buf)) 8 = b.
Proof.
  intros H Hi. rewrite <- to_bits_drop. rewrite (drop_S _ _ _ Hi). apply window_byte. by eapply byte_lookup.
Qed.

(** ** Disjoint fields *)

Lemma testbit_above b n k : 0 <= b < 2 ^ n -> 0 <= n <= k -> Z.testbit b k = false.
Proof. intros Hb Hk. rewrite <- (Z.mod_small b (2 ^ n)) by done. apply Z.mod_pow2_bits_high. lia. Qed.

(** A word with a field put in its low zeros. *)
Lemma lor_high_low a b n : 0 <= n -> 0 <= b < 2 ^ n -> Z.lor (a * 2 ^ n) b = a * 2 ^ n + b.
Proof.
  intros Hn Hb. rewrite <- Z.add_lor_land. assert (Z.land (a * 2 ^ n) b = 0) as ->; [|lia].
  apply Z.bits_inj'. intros k Hk. rewrite Z.land_spec, Z.bits_0.
  destruct (Z.ltb_spec k n); [by rewrite Z.mul_pow2_bits_low|].
  rewrite (testbit_above b n k), andb_false_r by lia. done.
Qed.

(** ** Writing a field *)

(** The [n] low bits of [v], most significant first. *)
Fixpoint put (n : nat) (v : Z) : list bool :=
  match n with
  | O => []
  | S n => Z.testbit v (Z.of_nat n) :: put n v
  end.

Lemma length_put n v : length (put n v) = n.
Proof. induction n as [|n IH]; simpl; [done|]. by rewrite IH. Qed.

Lemma window_put n : forall v l, window (put n v ++ l) n = v mod 2 ^ Z.of_nat n.
Proof.
  induction n as [|n IH]; intros v l.
  - rewrite window_0. simpl. by rewrite Z.mod_1_r.
  - cbn [put app window]. rewrite IH, Nat2Z.inj_succ, Z.pow_succ_r by lia.
    rewrite Z.testbit_spec' by lia. rewrite (Z.mul_comm 2), Z.rem_mul_r by (try apply Z.pow_nonzero; lia). lia.
Qed.

Lemma drop_put n v l : drop n (put n v ++ l) = l.
Proof. rewrite <- (length_put n v) at 1. apply drop_app_length. Qed.

Lemma put_window n v l : 0 <= v < 2 ^ Z.of_nat n -> window (put n v ++ l) n = v.
Proof. intros H. by rewrite window_put, Z.mod_small. Qed.

(** ** Bytes from bits *)

(** The bytes of a bit string, the last one padded with zeros. *)
Fixpoint of_bits_fuel (fuel : nat) (l : list bool) : list Z :=
  match fuel, l with
  | S fuel, _ :: _ => window l 8 :: of_bits_fuel fuel (drop 8 l)
  | _, _ => []
  end.
Definition of_bits (l : list bool) : list Z := of_bits_fuel (length l) l.

Lemma byte_bits_window l : (8 <= length l)%nat -> byte_bits (window l 8) = take 8 l.
Proof.
  intros H. do 8 (destruct l as [|? l]; [simpl in H; lia|]). clear H.
  destruct b, b0, b1, b2, b3, b4, b5, b6; by destruct l.
Qed.

Lemma to_of_bits_fuel n : forall l fuel, length l = (8 * n)%nat -> (n <= fuel)%nat -> to_bits (of_bits_fuel fuel l) = l.
Proof.
  induction n as [|n IH]; intros l fuel Hl Hf; [destruct l; [by destruct fuel|done]|].
  destruct fuel as [|fuel]; [lia|]. destruct l as [|b l]; [done|]. cbn [of_bits_fuel to_bits].
  rewrite byte_bits_window, IH by (rewrite ?length_drop; lia). apply take_drop.
Qed.
Lemma to_of_bits l : (length l mod 8 = 0)%nat -> to_bits (of_bits l) = l.
Proof.
  intros H. apply (to_of_bits_fuel (length l / 8)); [|apply Nat.Div0.div_le_upper_bound; lia].
  pose proof (Nat.div_mod_eq (length l) 8). lia.
Qed.

Lemma of_bits_bytes l : Forall is_byte (of_bits l).
Proof.
  unfold of_bits. generalize (length l) as fuel. intros fuel. revert l. induction fuel as [|fuel IH]; intros [|b l]; [done..|].
  cbn [of_bits_fuel]. constructor; [exact (window_range _ 8)|apply IH].
Qed.

Lemma put_ext n v w : (forall k, 0 <= k < Z.of_nat n -> Z.testbit v k = Z.testbit w k) -> put n v = put n w.
Proof.
  induction n as [|n IH]; intros H; [done|]. simpl. f_equal; [apply H; lia|]. apply IH. intros. apply H. lia.
Qed.

(** Writing back what was read. *)
Lemma put_of_window n : forall l, (n <= length l)%nat -> put n (window l n) = take n l.
Proof.
  induction n as [|n IH]; intros [|b l] Hl; try done; [simpl in Hl; lia|].
  cbn [put window]. simpl in Hl. pose proof (window_range l n) as Hw. rewrite firstn_cons. f_equal.
  - rewrite <- lor_high_low by lia. rewrite Z.lor_spec, (testbit_above (window l n) (Z.of_nat n)), orb_false_r by lia.
    rewrite Z.mul_pow2_bits, Z.sub_diag by lia. by destruct b.
  - rewrite <- IH by lia. apply put_ext. intros k Hk. rewrite <- lor_high_low by lia.
    by rewrite Z.lor_spec, Z.mul_pow2_bits_low by lia.
Qed.
