(* ===== verification/Vp9Bool.v ===== *)
(** * The VP9 bool decoder (mft/vp9_bool_decoder.cpp)

    [BoolDecoder]: a 24-bit register with 16 bits of lookahead, refilled two bytes at
    a time, its range renormalised by a table at the start of the next read.  The
    reference decoder of the VP9 specification (9.2), which the code cites, reads one
    bit at a time and renormalises at the end of each read; [Vp9Bool] relates
    the two.  Reading [buf[i]] outside the buffer and overflowing the [int]
    [bits_left_] are [None]. *)

From S2P Require Import Prelude Bits.

(** ** The interface of a bool decoder to the header parser *)
Class BoolReader (D : Type) := {
  read_bool : D -> Z -> option (Z * D);
  reader_ok : D -> bool;
}.

(** [sz_] is the length of [buf_]. *)
Record BoolDecoder := MkBoolDecoder {
  buf_ : list Z; pos_ : nat; value_ : Z; range_ : Z; bits_left_ : Z; error_ : bool }.
#[export] Instance eta_BoolDecoder : Eta BoolDecoder := fun d =>
  MkBoolDecoder (buf_ d) (pos_ d) (value_ d) (range_ d) (bits_left_ d) (error_ d).
Definition sz_ (d : BoolDecoder) : nat := length (buf_ d).

Definition kNormShift : list Z :=
  [ 0; 7; 6; 6; 5; 5; 5; 5; 4; 4; 4; 4; 4; 4; 4; 4; 3; 3; 3; 3; 3; 3; 3; 3; 3; 3; 3; 3; 3; 3; 3; 3;
  2; 2; 2; 2; 2; 2; 2; 2; 2; 2; 2; 2; 2; 2; 2; 2; 2; 2; 2; 2; 2; 2; 2; 2; 2; 2; 2; 2; 2; 2; 2; 2;
  1; 1; 1; 1; 1; 1; 1; 1; 1; 1; 1; 1; 1; 1; 1; 1; 1; 1; 1; 1; 1; 1; 1; 1; 1; 1; 1; 1; 1; 1; 1; 1;
  1; 1; 1; 1; 1; 1; 1; 1; 1; 1; 1; 1; 1; 1; 1; 1; 1; 1; 1; 1; 1; 1; 1; 1; 1; 1; 1; 1; 1; 1; 1; 1;
  0; 0; 0; 0; 0; 0; 0; 0; 0; 0; 0; 0; 0; 0; 0; 0; 0; 0; 0; 0; 0; 0; 0; 0; 0; 0; 0; 0; 0; 0; 0; 0;
  0; 0; 0; 0; 0; 0; 0; 0; 0; 0; 0; 0; 0; 0; 0; 0; 0; 0; 0; 0; 0; 0; 0; 0; 0; 0; 0; 0; 0; 0; 0; 0;
  0; 0; 0; 0; 0; 0; 0; 0; 0; 0; 0; 0; 0; 0; 0; 0; 0; 0; 0; 0; 0; 0; 0; 0; 0; 0; 0; 0; 0; 0; 0; 0;
  0; 0; 0; 0; 0; 0; 0; 0; 0; 0; 0; 0; 0; 0; 0; 0; 0; 0; 0; 0; 0; 0; 0; 0; 0; 0; 0; 0; 0; 0; 0; 0 ].

(** [if (c) v |= p[i] << sh] *)
Definition byte_if (c : bool) (p : list Z) (i : nat) (sh : Z) : option Z :=
  if c then b ← p !! i; Some (Z.shiftl b sh) else Some 0.

Definition rb24 (p : list Z) (avail : nat) : option Z :=
  b0 ← byte_if (bool_decide (1 <= avail)%nat) p 0 16;
  b1 ← byte_if (bool_decide (2 <= avail)%nat) p 1 8;
  b2 ← byte_if (bool_decide (3 <= avail)%nat) p 2 0;
  Some (Z.lor (Z.lor b0 b1) b2).

Definition rb16 (p : list Z) (avail : nat) : option Z :=
  b0 ← byte_if (bool_decide (1 <= avail)%nat) p 0 8;
  b1 ← byte_if (bool_decide (2 <= avail)%nat) p 1 0;
  Some (Z.lor b0 b1).

(** Renormalise the range to [128, 255]. *)
Definition renormalize (d : BoolDecoder) : option BoolDecoder :=
  shift ← kNormShift !! Z.to_nat (Z.land (range_ d) 0xFF);
  bits_left ← int32 (bits_left_ d + shift);
  Some (d <| range_ := u32 (Z.shiftl (range_ d) shift) |>
          <| value_ := u32 (Z.shiftl (value_ d) shift) |>
          <| bits_left_ := bits_left |>).

(** Refill when [bits_left_] has caught up. *)
Definition refill (d : BoolDecoder) : option BoolDecoder :=
  if (0 <=? bits_left_ d) && bool_decide (pos_ d < sz_ d)%nat then
    let avail := (sz_ d - pos_ d)%nat in
    loaded ← rb16 (drop (pos_ d) (buf_ d)) avail;
    Some (d <| pos_ ::= fun p => (p + if bool_decide (2 <= avail) then 2 else avail)%nat |>
            <| value_ := Z.lor (value_ d) (u32 (Z.shiftl loaded (bits_left_ d))) |>
            <| bits_left_ := bits_left_ d - 16 |>)
  else Some d.

Definition split_of (range prob : Z) : Z := u32 (1 + Z.shiftr (u32 (u32 (range - 1) * prob)) 8).

Definition decode_bool (d : BoolDecoder) (prob : Z) : option (Z * BoolDecoder) :=
  if error_ d then Some (0, d) else
  d ← renormalize d;
  d ← refill d;
  let split := split_of (range_ d) prob in
  let low_shift := u32 (Z.shiftl split 16) in
  Some (if low_shift <=? value_ d
        then (1, d <| range_ := u32 (range_ d - split) |> <| value_ := u32 (value_ d - low_shift) |>)
        else (0, d <| range_ := split |>)).

#[export] Instance BoolDecoder_reader : BoolReader BoolDecoder :=
  {| read_bool := decode_bool; reader_ok := fun d => negb (error_ d) |}.

Definition ok (d : BoolDecoder) : bool := negb (error_ d).

(** [init(buf, sz)], up to the marker bit. *)
Definition preload (buf : list Z) : option BoolDecoder :=
  let sz := length buf in
  if bool_decide (sz < 3)%nat then
    b0 ← byte_if (bool_decide (1 <= sz)%nat) buf 0 16;
    b1 ← byte_if (bool_decide (2 <= sz)%nat) buf 1 8;
    Some (MkBoolDecoder buf sz (Z.lor b0 b1) 255 (-16) true)
  else
    v ← rb24 buf sz;
    Some (MkBoolDecoder buf 3 v 255 (-16) false).

(** Consume the mandatory marker bit. *)
Definition init (buf : list Z) : option BoolDecoder :=
  d ← preload buf;
  '(marker, d) ← decode_bool d 128;
  Some (if negb (marker =? 0) then d <| error_ := true |> else d).

(** [pos_ * 8 - max(bits_left_, 0)], in [size_t]. *)
Definition bit_pos (d : BoolDecoder) : Z :=
  u64 (Z.of_nat (pos_ d) * 8 - if 0 <=? bits_left_ d then bits_left_ d else 0).

(** ** Literals, for any bool decoder *)
Section literal.
Context {D : Type} `{!BoolReader D}.

(** [v << 1] of an [int]. *)
Fixpoint literal_loop (bits : nat) (v : Z) (d : D) : option (Z * D) :=
  match bits with
  | O => Some (v, d)
  | S bits =>
      '(b, d) ← read_bool d 128;
      v ← int32 (2 * v);
      literal_loop bits (Z.lor v b) d
  end.
Definition decode_literal (bits : nat) (d : D) : option (Z * D) := literal_loop bits 0 d.

(** Reads with a list of probabilities. *)
Fixpoint read_bools (d : D) (probs : list Z) : option (list Z * D) :=
  match probs with
  | [] => Some ([], d)
  | p :: probs =>
      '(b, d) ← read_bool d p;
      '(bs, d) ← read_bools d probs;
      Some (b :: bs, d)
  end.
End literal.

(** ** The reference decoder (VP9 specification, 9.2)

    [init_bool(sz)], [read_bool(p)] with its renormalisation one bit at a time, and
    the padding with zero bits once [BoolMaxBits] is used up. *)
Record RefBool := MkRefBool {
  BoolValue : Z; BoolRange : Z; BoolMaxBits : Z; bitstream : list bool; marker_ok : bool }.
#[export] Instance eta_RefBool : Eta RefBool := fun r =>
  MkRefBool (BoolValue r) (BoolRange r) (BoolMaxBits r) (bitstream r) (marker_ok r).

(** [newBit = BoolMaxBits ? f(1) : 0] *)
Definition ref_new_bit (r : RefBool) : Z * RefBool :=
  if BoolMaxBits r =? 0 then (0, r)
  else match bitstream r with
       | [] => (0, r)
       | b :: l => (Z.b2z b, r <| bitstream := l |> <| BoolMaxBits ::= Z.pred |>)
       end.

Fixpoint ref_renorm (fuel : nat) (r : RefBool) : RefBool :=
  match fuel with
  | O => r
  | S fuel =>
      if BoolRange r <? 128 then
        let '(b, r) := ref_new_bit r in
        ref_renorm fuel (r <| BoolRange ::= Z.mul 2 |> <| BoolValue ::= fun v => 2 * v + b |>)
      else r
  end.

Definition ref_read_bool (r : RefBool) (p : Z) : Z * RefBool :=
  let split := 1 + ((BoolRange r - 1) * p) / 256 in
  if BoolValue r <? split
  then (0, ref_renorm 8 (r <| BoolRange := split |>))
  else (1, ref_renorm 8 (r <| BoolRange := BoolRange r - split |> <| BoolValue := BoolValue r - split |>)).

#[export] Instance RefBool_reader : BoolReader RefBool :=
  {| read_bool := fun r p => Some (ref_read_bool r p); reader_ok := marker_ok |}.

(** The marker bit must be zero. *)
Definition ref_init (buf : list Z) : RefBool :=
  let l := to_bits buf in
  let r := MkRefBool (window l 8) 255 (8 * Z.of_nat (length buf) - 8) (drop 8 l) true in
  let '(marker, r) := ref_read_bool r 128 in
  r <| marker_ok := marker =? 0 |>.

(** * The VP9 bool decoder refines the bit-by-bit decoder

    [tracks d l W]: the register of the decoder is the window value [W] of the
    reference decoder over a lookahead of the bits [l] that follow the window, before
    the renormalisation that the code postpones to the next read. *)

(** ** Tables and words *)

Lemma norm_shift range :
  1 <= range <= 255 ->
  exists s : nat, kNormShift !! Z.to_nat (Z.land range 0xFF) = Some (Z.of_nat s) /\ (s <= 7)%nat /\
    128 <= range * 2 ^ Z.of_nat s <= 255.
Proof.
  intros H.
  assert (forallb (fun x => match kNormShift !! Z.to_nat (Z.land x 0xFF) with
     | Some s => (0 <=? s) && (s <=? 7) && (128 <=? x * 2 ^ s) && (x * 2 ^ s <=? 255)
     | None => false end) (map Z.of_nat (seq 1 255)) = true) as Hall by reflexivity.
  rewrite forallb_forall in Hall.
  assert (In range (map Z.of_nat (seq 1 255))) as Hin.
  { rewrite <- (Z2Nat.id range) by lia. apply in_map, in_seq. lia. }
  specialize (Hall _ Hin). destruct (kNormShift !! Z.to_nat (Z.land range 0xFF)) as [s|]; [|done].
  exists (Z.to_nat s). rewrite !andb_true_iff, !Z.leb_le in Hall. rewrite Z2Nat.id by lia. split; [done|lia].
Qed.

(** ** Byte loads *)

Lemma byte_if_window (c : bool) p i sh :
  Forall is_byte p -> c = bool_decide (S i <= length p)%nat ->
  byte_if c p i sh = Some (Z.shiftl (window (drop (8 * i) (to_bits p)) 8) sh).
Proof.
  intros Hp ->. unfold byte_if. case_bool_decide as H.
  - destruct (lookup_lt_is_Some_2 p i) as [b Hb]; [lia|]. rewrite Hb. ostep. by rewrite (window_lookup _ _ _ Hp Hb).
  - rewrite drop_ge by (rewrite length_to_bits; lia). by rewrite window_nil, Z.shiftl_0_l.
Qed.

(** Two bytes, or one and zeros, are a window of 16 bits. *)
Lemma rb16_window p : Forall is_byte p -> rb16 p (length p) = Some (window (to_bits p) 16).
Proof.
  intros Hp. unfold rb16. rewrite (byte_if_window _ _ 0), (byte_if_window _ _ 1) by done. ostep.
  rewrite Z.shiftl_0_r, Z.shiftl_mul_pow2 by lia.
  pose proof (window_range (drop (8 * 1) (to_bits p)) 8) as Hr. rewrite lor_high_low by lia.
  symmetry. apply f_equal, (window_add (to_bits p) 8 8).
Qed.

Lemma rb24_window p : Forall is_byte p -> rb24 p (length p) = Some (window (to_bits p) 24).
Proof.
  intros Hp. unfold rb24. rewrite (byte_if_window _ _ 0), (byte_if_window _ _ 1), (byte_if_window _ _ 2) by done.
  ostep. rewrite Z.shiftl_0_r, !Z.shiftl_mul_pow2 by lia.
  pose proof (window_range (drop (8 * 1) (to_bits p)) 8) as H1.
  pose proof (window_range (drop (8 * 2) (to_bits p)) 8) as H2.
  change 24%nat with (8 + (8 + 8))%nat. rewrite (window_add (to_bits p) 8 (8 + 8)), (window_add (drop 8 (to_bits p)) 8 8), drop_drop.
  change (8 * 0)%nat with 0%nat. change (drop 0 (to_bits p)) with (to_bits p) in *.
  change (8 * 1)%nat with 8%nat in *. change (8 * 2)%nat with (8 + 8)%nat in *. change (Z.of_nat 8) with 8 in *.
  change (Z.of_nat (8 + 8)) with 16 in *.
  set (a := window _ 8). set (b := window (drop 8 _) 8) in *. set (c := window (drop (8 + 8) _) 8) in *.
  replace (Z.lor (a * 2 ^ 16) (b * 2 ^ 8)) with ((a * 2 ^ 8 + b) * 2 ^ 8).
  - rewrite lor_high_low by lia. f_equal. lia.
  - replace (a * 2 ^ 16) with (a * 2 ^ 8 * 2 ^ 8) by lia.
    rewrite <- !(Z.shiftl_mul_pow2 _ 8), <- Z.shiftl_lor, !Z.shiftl_mul_pow2 by lia. rewrite lor_high_low by lia. done.
Qed.

(** ** The register *)

(** How many bits of the stream the register holds below its window. *)
Definition lookahead (d : BoolDecoder) : nat := Z.to_nat (- bits_left_ d).

Record tracks (d : BoolDecoder) (l : list bool) (W : Z) : Prop := {
  tr_bytes : Forall is_byte (buf_ d);
  tr_pos : (pos_ d <= sz_ d)%nat;
  tr_look : (lookahead d <= 16)%nat;
  tr_value : value_ d = W * 2 ^ 16 + window l (lookahead d) * 2 ^ (16 - Z.of_nat (lookahead d));
  tr_rest : drop (lookahead d) l = to_bits (drop (pos_ d) (buf_ d));
}.
(** Between reads: refilled, and the window within the range (below it, after the
    marker bit). *)
Record settled (d : BoolDecoder) (l : list bool) (W : Z) : Prop := {
  se_tracks :> tracks d l W;
  se_error : error_ d = false;
  se_range : (0 <= W <= range_ d) /\ 1 <= range_ d <= 255;
  se_fill : (pos_ d < sz_ d)%nat -> bits_left_ d < 0;
}.

Lemma pow2_split a b : (b <= a)%nat -> 2 ^ Z.of_nat a = 2 ^ (Z.of_nat a - Z.of_nat b) * 2 ^ Z.of_nat b.
Proof. intros H. rewrite <- Z.pow_add_r by lia. f_equal. lia. Qed.
Lemma pow2_16 n : (n <= 16)%nat -> 2 ^ 16 = 2 ^ (16 - Z.of_nat n) * 2 ^ Z.of_nat n.
Proof. apply (pow2_split 16). Qed.

Lemma tracks_value d l W : tracks d l W -> W * 2 ^ 16 <= value_ d < (W + 1) * 2 ^ 16.
Proof.
  intros []. pose proof (window_range l (lookahead d)). pose proof (pow2_16 (lookahead d)) as E.
  specialize (E tr_look0). rewrite tr_value0.
  pose proof (Z.pow_pos_nonneg 2 (16 - Z.of_nat (lookahead d))). nia.
Qed.

(** Shift [s] bits out of the lookahead into the window. *)
Definition shifted (s : nat) (d : BoolDecoder) : BoolDecoder :=
  d <| range_ := range_ d * 2 ^ Z.of_nat s |> <| value_ := value_ d * 2 ^ Z.of_nat s |>
    <| bits_left_ := bits_left_ d + Z.of_nat s |>.

Lemma renormalize_ok d l W s :
  settled d l W -> kNormShift !! Z.to_nat (Z.land (range_ d) 0xFF) = Some (Z.of_nat s) ->
  range_ d * 2 ^ Z.of_nat s <= 255 -> - 2 ^ 31 <= bits_left_ d + Z.of_nat s < 2 ^ 31 ->
  renormalize d = Some (shifted s d).
Proof.
  intros [Ht _ [Hr Hr'] _] Hs Hrs Hb. unfold renormalize. rewrite Hs. ostep. rewrite int32_ok by done. ostep.
  pose proof (tracks_value _ _ _ Ht). pose proof (Z.pow_pos_nonneg 2 (Z.of_nat s)).
  rewrite !Z.shiftl_mul_pow2, !u32_small by (nia || lia). done.
Qed.

Section shift.
Variables (d : BoolDecoder) (l : list bool) (W : Z) (s : nat).
Hypothesis Ht : tracks d l W.
Hypothesis Hs : (s <= 7)%nat.
Let L := lookahead d.
Let W' := W * 2 ^ Z.of_nat s + window l s.

Lemma lookahead_shifted : lookahead (shifted s d) = Z.to_nat (- (bits_left_ d + Z.of_nat s)).
Proof. done. Qed.

(** The lookahead lasts. *)
Lemma shift_kept : bits_left_ d + Z.of_nat s < 0 -> tracks (shifted s d) (drop s l) W'.
Proof.
  intros Hb. destruct Ht. assert (lookahead (shifted s d) = L - s)%nat as HL by (rewrite lookahead_shifted; unfold L, lookahead; lia).
  assert (s <= L)%nat as HsL by (unfold L, lookahead; lia).
  split; [done|done|lia| |].
  - rewrite HL. change (value_ (shifted s d)) with (value_ d * 2 ^ Z.of_nat s). rewrite tr_value0. fold L.
    replace (window l L) with (window l (s + (L - s))) by (f_equal; lia). rewrite window_add. unfold W'.
    rewrite (pow2_16 L) by done. rewrite Nat2Z.inj_sub by lia.
    replace (16 - (Z.of_nat L - Z.of_nat s)) with (16 - Z.of_nat L + Z.of_nat s) by lia. rewrite Z.pow_add_r by lia.
    rewrite (pow2_split L s) by lia. ring.
  - rewrite HL, drop_drop. replace (s + (L - s))%nat with L by lia. done.
Qed.

(** The buffer has ended: zeros come in. *)
Lemma shift_padded : pos_ d = sz_ d -> 0 <= bits_left_ d + Z.of_nat s -> tracks (shifted s d) (drop s l) W'.
Proof.
  intros Hp Hb. destruct Ht. assert (lookahead (shifted s d) = 0)%nat as HL by (rewrite lookahead_shifted; lia).
  assert (L <= s)%nat as HsL by (unfold L, lookahead; lia).
  rewrite Hp, (drop_ge (buf_ d)) in tr_rest0 by done.
  split; [done|done|lia| |].
  - rewrite HL. change (value_ (shifted s d)) with (value_ d * 2 ^ Z.of_nat s). rewrite tr_value0. fold L.
    unfold W'. replace (window l s) with (window l (L + (s - L))) by (f_equal; lia).
    rewrite window_add. fold L in tr_rest0. rewrite tr_rest0, window_nil, window_0.
    rewrite (pow2_16 L), (pow2_split s L), Nat2Z.inj_sub by lia. ring.
  - change (pos_ (shifted s d)) with (pos_ d). change (buf_ (shifted s d)) with (buf_ d).
    rewrite HL, drop_0, Hp, (drop_ge (buf_ d)) by done.
    replace s with (L + (s - L))%nat by lia. rewrite <- drop_drop. fold L in tr_rest0. rewrite tr_rest0. apply drop_nil.
Qed.

(** Two more bytes, or the last one. *)
Definition loaded (d : BoolDecoder) : BoolDecoder :=
  d <| pos_ ::= fun p => (p + if bool_decide (2 <= sz_ d - p)%nat then 2 else (sz_ d - p))%nat |>
    <| value_ ::= Z.add (window (to_bits (drop (pos_ d) (buf_ d))) 16 * 2 ^ bits_left_ d) |>
    <| bits_left_ := bits_left_ d - 16 |>.

Lemma shift_loaded :
  (pos_ d < sz_ d)%nat -> bits_left_ d < 0 -> 0 <= bits_left_ d + Z.of_nat s ->
  tracks (loaded (shifted s d)) (drop s l) W'.
Proof.
  intros Hp Hn Hb. destruct Ht. set (b := (s - L)%nat).
  assert (s = L + b)%nat as Es by (unfold b, L, lookahead; lia).
  assert (bits_left_ d + Z.of_nat s = Z.of_nat b) as Eb by (unfold b, L, lookahead; lia).
  assert (lookahead (loaded (shifted s d)) = 16 - b)%nat as HL by (change (lookahead (loaded (shifted s d))) with (Z.to_nat (- (bits_left_ d + Z.of_nat s - 16))); lia).
  fold L in tr_look0, tr_value0, tr_rest0.
  split; [done| |lia| |].
  - unfold sz_, loaded, shifted, sz_ in *. simpl. case_bool_decide; lia.
  - rewrite HL. change (value_ (loaded (shifted s d))) with
      (window (to_bits (drop (pos_ d) (buf_ d))) 16 * 2 ^ (bits_left_ d + Z.of_nat s) + value_ d * 2 ^ Z.of_nat s).
    rewrite <- tr_rest0, tr_value0, Eb. replace 16%nat with (b + (16 - b))%nat at 1 by lia.
    rewrite window_add, drop_drop. unfold W'. rewrite Es, window_add, (pow2_16 L), Nat2Z.inj_add, Z.pow_add_r by lia.
    rewrite Nat2Z.inj_sub by lia. change (Z.of_nat 16) with 16. replace (16 - (16 - Z.of_nat b)) with (Z.of_nat b) by lia.
    rewrite Z.mul_add_distr_r, <- Z.mul_assoc, <- (pow2_16 b), (pow2_16 L) by lia. ring.
  - rewrite HL, drop_drop. replace (s + (16 - b))%nat with (L + 16)%nat by lia.
    rewrite <- drop_drop, tr_rest0, <- (to_bits_drop _ 2), drop_drop.
    change (to_bits (drop (pos_ d + 2) (buf_ d)) = to_bits (drop (pos_ d + if bool_decide (2 <= sz_ d - pos_ d)%nat
      then 2 else (sz_ d - pos_ d))%nat (buf_ d))).
    case_bool_decide; [done|]. unfold sz_ in *. by rewrite !drop_ge by lia.
Qed.

(** The new bits go where the register has zeros. *)
Lemma load_lor :
  bits_left_ d < 0 -> 0 <= bits_left_ d + Z.of_nat s ->
  Z.lor (value_ (shifted s d)) (u32 (Z.shiftl (window (to_bits (drop (pos_ d) (buf_ d))) 16) (bits_left_ d + Z.of_nat s)))
    = value_ (loaded (shifted s d)).
Proof.
  intros Hn Hb. destruct Ht. set (b := (s - L)%nat).
  assert (bits_left_ d + Z.of_nat s = Z.of_nat b) as Eb by (unfold b, L, lookahead; lia).
  assert (s = L + b)%nat as Es by (unfold b, L, lookahead; lia).
  change (value_ (loaded (shifted s d))) with
    (window (to_bits (drop (pos_ d) (buf_ d))) 16 * 2 ^ (bits_left_ d + Z.of_nat s) + value_ d * 2 ^ Z.of_nat s).
  change (value_ (shifted s d)) with (value_ d * 2 ^ Z.of_nat s). rewrite tr_value0, Eb. fold L in tr_look0 |- *.
  pose proof (window_range (to_bits (drop (pos_ d) (buf_ d))) 16) as Hw. set (w := window (to_bits _) 16) in *.
  assert (2 ^ Z.of_nat b <= 2 ^ 7) by (apply Z.pow_le_mono_r; lia).
  pose proof (Z.pow_pos_nonneg 2 (Z.of_nat b)). change (2 ^ Z.of_nat 16) with 65536 in Hw.
  rewrite Z.shiftl_mul_pow2, u32_small by nia.
  replace ((W * 2 ^ 16 + window l L * 2 ^ (16 - Z.of_nat L)) * 2 ^ Z.of_nat s) with
    ((W * 2 ^ Z.of_nat L + window l L) * 2 ^ (16 + Z.of_nat b)).
  - rewrite lor_high_low; [lia|lia|]. rewrite Z.pow_add_r by lia. nia.
  - rewrite Es, Nat2Z.inj_add, !Z.pow_add_r, (pow2_16 L) by lia. ring.
Qed.
End shift.

(** A whole renormalisation with its refill. *)
Lemma refill_ok d l W s :
  settled d l W -> (s <= 7)%nat -> range_ d * 2 ^ Z.of_nat s <= 255 ->
  exists d', refill (shifted s d) = Some d' /\ tracks d' (drop s l) (W * 2 ^ Z.of_nat s + window l s) /\
    range_ d' = range_ d * 2 ^ Z.of_nat s /\ error_ d' = false /\
    ((pos_ d' < sz_ d')%nat -> bits_left_ d' < 0) /\ bits_left_ d' <= bits_left_ d + Z.of_nat s /\ buf_ d' = buf_ d.
Proof.
  intros [Ht He _ Hf] Hs Hrs. unfold refill.
  change (bits_left_ (shifted s d)) with (bits_left_ d + Z.of_nat s).
  change (sz_ (shifted s d)) with (sz_ d). change (pos_ (shifted s d)) with (pos_ d).
  change (buf_ (shifted s d)) with (buf_ d).
  destruct (Z.leb_spec 0 (bits_left_ d + Z.of_nat s)) as [Hb|Hb]; simpl andb; cycle 1.
  { exists (shifted s d). split; [done|]. split; [by apply shift_kept|]. simpl. split_and!; (done || lia). }
  case_bool_decide as Hp; cycle 1.
  { exists (shifted s d). split; [done|]. pose proof (tr_pos _ _ _ Ht).
    split; [apply shift_padded; (done || lia)|]. simpl. split_and!; (done || lia). }
  pose proof (tr_bytes _ _ _ Ht) as Hby. specialize (Hf Hp).
  assert (length (drop (pos_ d) (buf_ d)) = sz_ d - pos_ d)%nat as Hlen by apply length_drop.
  pose proof (rb16_window (drop (pos_ d) (buf_ d)) (Forall_drop _ _ _ Hby)) as Hrb. rewrite Hlen in Hrb.
  cbv zeta. rewrite Hrb. ostep.
  eexists. split; [reflexivity|].
  rewrite load_lor with (l := l) (W := W) by done.
  split; [exact (shift_loaded d l W s Ht Hs Hp Hf Hb)|]. simpl. split_and!; (done || lia).
Qed.

(** ** The reference decoder *)

Lemma ref_renorm_ok s : forall fuel r,
  (s <= fuel)%nat -> 128 <= BoolRange r * 2 ^ Z.of_nat s <= 255 -> BoolMaxBits r = Z.of_nat (length (bitstream r)) ->
  ref_renorm fuel r = MkRefBool (BoolValue r * 2 ^ Z.of_nat s + window (bitstream r) s) (BoolRange r * 2 ^ Z.of_nat s)
    (Z.of_nat (length (drop s (bitstream r)))) (drop s (bitstream r)) (marker_ok r).
Proof.
  induction s as [|s IH]; intros fuel r Hf Hr Hm; destruct r as [V R M l m]; simpl in Hr, Hm; subst M.
  - rewrite window_0. change (2 ^ Z.of_nat 0) with 1 in *. rewrite !Z.mul_1_r, Z.add_0_r in *.
    destruct fuel; [done|]. simpl. destruct (Z.ltb_spec R 128); [lia|done].
  - destruct fuel as [|fuel]; [lia|]. cbn [ref_renorm BoolRange].
    rewrite Nat2Z.inj_succ, Z.pow_succ_r in Hr by lia. pose proof (Z.pow_pos_nonneg 2 (Z.of_nat s)).
    destruct (Z.ltb_spec R 128); [|nia]. unfold ref_new_bit. cbn [BoolMaxBits bitstream].
    destruct l as [|b l]; cbn -[Z.pow Z.mul Z.of_nat ref_renorm window].
    + change (Z.of_nat 0 =? 0) with true. cbv iota. rewrite IH; [|lia|simpl; lia|done]. cbn -[Z.pow Z.mul Z.of_nat window].
      rewrite drop_nil, !window_nil, Nat2Z.inj_succ, Z.pow_succ_r by lia. f_equal; ring.
    + rewrite (proj2 (Z.eqb_neq _ 0)) by (rewrite Nat2Z.inj_succ; lia).
      rewrite IH; [|lia|simpl; lia|cbn -[Z.of_nat]; lia]. cbn -[Z.pow Z.mul Z.of_nat].
      rewrite Nat2Z.inj_succ, Z.pow_succ_r by lia. f_equal; ring.
Qed.

(** The reference state is the eager normalisation of the register. *)
Definition eager (d : BoolDecoder) (l : list bool) (W : Z) : RefBool :=
  ref_renorm 8 (MkRefBool W (range_ d) (Z.of_nat (length l)) l true).

Lemma split_bounds R p : 128 <= R <= 255 -> 0 <= p <= 255 ->
  split_of R p = 1 + ((R - 1) * p) / 256 /\ 1 <= split_of R p < R.
Proof.
  intros HR Hp. unfold split_of. assert (0 <= (R - 1) * p <= (R - 1) * 255) by nia.
  rewrite (u32_small (R - 1)), (u32_small ((R - 1) * p)), Z.shiftr_div_pow2 by lia. change (2 ^ 8) with 256.
  assert (0 <= (R - 1) * p / 256 < R - 1) by (split; [apply Z.div_pos; lia|apply Z.div_lt_upper_bound; lia]).
  rewrite u32_small by lia. lia.
Qed.

Lemma decode_bool_eager d l W p :
  settled d l W -> 0 <= p <= 255 -> -16 <= bits_left_ d < 2 ^ 31 - 7 ->
  exists bit d' l' W', decode_bool d p = Some (bit, d') /\ ref_read_bool (eager d l W) p = (bit, eager d' l' W') /\
    (W < range_ d \/ bit = 0 -> settled d' l' W' /\ W' < range_ d') /\
    -16 <= bits_left_ d' <= bits_left_ d + 7 /\ 0 <= bit <= 1.
Proof.
  intros Hse Hp Hb. pose proof Hse as [Ht He [Hr Hr'] Hf].
  destruct (norm_shift (range_ d)) as (s & Hs & Hs7 & Hrs); [lia|].
  destruct (refill_ok d l W s) as (d' & Hd & Ht' & Hrange & He' & Hf' & Hb' & _); [done|done|lia|].
  assert (Hstep : forall R V l', R = range_ d * 2 ^ Z.of_nat s -> V = W * 2 ^ Z.of_nat s + window l s -> l' = drop s l ->
    eager d l W = MkRefBool V R (Z.of_nat (length l')) l' true).
  { intros R V l' -> -> ->. unfold eager. rewrite (ref_renorm_ok s); [done|lia|simpl; lia|done]. }
  unfold decode_bool. rewrite He, (renormalize_ok d l W s) by (done || lia). ostep. rewrite Hd. ostep.
  destruct (split_bounds (range_ d') p) as [Hsp Hspb]; [lia|done|].
  rewrite (Hstep _ _ _ Hrange eq_refl eq_refl). unfold ref_read_bool. cbn [BoolRange BoolValue].
  rewrite <- Hsp. set (sp := split_of (range_ d') p) in *. set (W' := W * 2 ^ Z.of_nat s + window l s) in *.
  rewrite Z.shiftl_mul_pow2, (u32_small (sp * 2 ^ 16)) by lia. pose proof (tracks_value _ _ _ Ht') as Hv.
  pose proof (window_range l s). assert (0 <= W' /\ (W < range_ d -> W' < range_ d')) as [HW0 HW] by (unfold W'; split; nia).
  assert (-16 <= bits_left_ d' <= bits_left_ d + 7) as Hbb by (pose proof (tr_look _ _ _ Ht'); unfold lookahead in *; lia).
  destruct (Z.ltb_spec W' sp), (Z.leb_spec (sp * 2 ^ 16) (value_ d')); try lia.
  - eexists 0, (d' <| range_ := sp |>), (drop s l), W'. split; [done|]. split; [done|].
    split; [intros _|split; [exact Hbb|lia]]. split; [|simpl; lia].
    split; [destruct Ht'; by split|done|simpl; lia|exact Hf'].
  - eexists 1, (d' <| range_ := range_ d' - sp |> <| value_ := value_ d' - sp * 2 ^ 16 |>), (drop s l), (W' - sp).
    assert (2 ^ Z.of_nat s <= 2 ^ 7) by (apply Z.pow_le_mono_r; lia). assert (W' < 1024) by (unfold W'; nia).
    rewrite !u32_small by lia. split; [done|]. split; [done|].
    split; [intros [HWr|]; [|done]|split; [exact Hbb|lia]]. specialize (HW HWr). split; [|simpl; lia].
    split; [|done|simpl; lia|exact Hf']. destruct Ht'. split; [done|done|done| |done].
    change (value_ d' - sp * 2 ^ 16 = (W' - sp) * 2 ^ 16 + window (drop s l) (lookahead d') * 2 ^ (16 - Z.of_nat (lookahead d'))).
    lia.
Qed.

(** ** The simulation

    [n] bounds how far [bits_left_], an [int], has run past the end of the buffer. *)
Definition sim (n : Z) (d : BoolDecoder) (r : RefBool) : Prop :=
  error_ d = negb (marker_ok r) /\
  (marker_ok r = true -> exists l W, settled d l W /\ W < range_ d /\ -16 <= bits_left_ d <= n /\ r = eager d l W).

Lemma eager_marker d l W : settled d l W -> marker_ok (eager d l W) = true.
Proof.
  intros Hse. destruct (norm_shift (range_ d)) as (s & _ & ? & ?); [destruct Hse; lia|].
  unfold eager. rewrite (ref_renorm_ok s); [done|lia|simpl; lia|done].
Qed.
Lemma eager_marker_set d l W : settled d l W -> (eager d l W) <| marker_ok := true |> = eager d l W.
Proof. intros Hse. apply eager_marker in Hse. destruct (eager d l W). simpl in Hse. by subst. Qed.

Lemma sim_read n d r p :
  sim n d r -> reader_ok r = true -> 0 <= p <= 255 -> n < 2 ^ 31 - 7 ->
  exists bit d' r', read_bool d p = Some (bit, d') /\ read_bool r p = Some (bit, r') /\
    sim (n + 7) d' r' /\ reader_ok r' = true /\ 0 <= bit <= 1.
Proof.
  intros [He Hs] Hok Hp Hn. destruct (Hs Hok) as (l & W & Hse & HW & Hb & ->).
  destruct (decode_bool_eager d l W p) as (bit & d' & l' & W' & Hd & Hr & Hse' & Hb' & Hbit); [done|done|lia|].
  destruct Hse' as [Hse' HW']; [by left|].
  exists bit, d', (eager d' l' W'). split; [exact Hd|]. split; [cbn [read_bool RefBool_reader]; by rewrite Hr|].
  pose proof (eager_marker _ _ _ Hse') as Hm.
  split; [|done]. split; [by rewrite Hm, (se_error _ _ _ Hse')|]. intros _. exists l', W'. split_and!; (done || lia).
Qed.

Lemma sim_ok n d r : sim n d r -> reader_ok d = reader_ok r.
Proof. intros [He _]. cbn [reader_ok BoolDecoder_reader RefBool_reader]. rewrite He. apply negb_involutive. Qed.

Lemma preload_settled buf :
  Forall is_byte buf -> (3 <= length buf)%nat ->
  exists d, preload buf = Some d /\ settled d (drop 8 (to_bits buf)) (window (to_bits buf) 8) /\
    bits_left_ d = -16 /\ range_ d = 255.
Proof.
  intros Hb Hl. unfold preload. rewrite bool_decide_eq_false_2 by lia. rewrite rb24_window by done. ostep.
  eexists. split; [reflexivity|]. split; [|done]. pose proof (window_range (to_bits buf) 8) as Hw.
  change (2 ^ Z.of_nat 8) with 256 in Hw. split; [|done|cbn [range_]; lia|done]. split; [done|exact Hl|done| |].
  - change (window (to_bits buf) 24 = window (to_bits buf) 8 * 2 ^ 16 + window (drop 8 (to_bits buf)) 16 * 2 ^ 0).
    pose proof (window_add (to_bits buf) 8 16) as E. change (8 + 16)%nat with 24%nat in E. rewrite E. simpl Z.of_nat. lia.
  - change (drop 16 (drop 8 (to_bits buf)) = to_bits (drop 3 buf)). by rewrite to_bits_drop, drop_drop.
Qed.

Lemma init_sim buf :
  Forall is_byte buf -> (3 <= length buf)%nat -> exists d, init buf = Some d /\ sim 0 d (ref_init buf).
Proof.
  intros Hb Hl. destruct (preload_settled buf) as (d & Hd & Hse & Hbl & Hra); [done..|].
  destruct (decode_bool_eager _ _ _ 128 Hse) as (bit & d' & l' & W' & Hr & Href & Hse' & Hb' & Hbit); [lia|lia|].
  unfold init. rewrite Hd. ostep. rewrite Hr. ostep. eexists. split; [reflexivity|].
  assert (ref_init buf = (eager d' l' W') <| marker_ok := bit =? 0 |>) as ->.
  { unfold ref_init. replace (MkRefBool _ _ _ _ _) with (eager d (drop 8 (to_bits buf)) (window (to_bits buf) 8)).
    - by rewrite Href.
    - unfold eager. rewrite Hra, (ref_renorm_ok 0); [|lia|simpl; lia|done]. cbn [BoolValue BoolRange bitstream marker_ok].
      rewrite window_0, drop_0, length_drop, length_to_bits. change (2 ^ Z.of_nat 0) with 1. f_equal; lia. }
  destruct (Z.eqb_spec bit 0) as [->|Hne]; simpl negb; cbv iota; cycle 1.
  { by split. }
  destruct Hse' as [Hse' HW']; [by right|].
  rewrite (eager_marker_set _ _ _ Hse').
  pose proof (eager_marker _ _ _ Hse') as Hm.
  split; [by rewrite Hm, (se_error _ _ _ Hse')|]. intros _. exists l', W'. split_and!; (done || lia).
Qed.

(** Fewer than three bytes: the decoder is in error from the start. *)
Lemma init_short buf :
  (length buf < 3)%nat -> exists d, init buf = Some d /\ ok d = false.
Proof.
  intros Hl. unfold init, preload. rewrite bool_decide_eq_true_2 by done.
  destruct buf as [|b0 [|b1 [|b2 buf]]]; simpl in Hl; try lia; by eexists.
Qed.

(** In error, every read is a zero. *)
Lemma read_bools_error d probs : error_ d = true -> read_bools d probs = Some (replicate (length probs) 0, d).
Proof.
  intros He. induction probs as [|p probs IH]; [done|]. cbn [read_bools read_bool BoolDecoder_reader].
  unfold decode_bool. rewrite He. ostep. rewrite IH. done.
Qed.
