(* ===== verification/Vp9Parser.v ===== *)
(** * The VP9 header parser (mft/vp9_parser.cpp, mft/vp9_types.h)

    The bit reader with its 64-bit shift register, the uncompressed header (6.2), the
    compressed header (6.3) over any bool decoder, the superframe index (Annex B, cited
    as 6.1.1) and the sticky parser state.  A parse function is a state transformer of
    the reader; the early returns of the code are [on_ok].  A cast of an n-bit read to
    a type of n bits or more is the identity and is not written. *)

From S2P Require Import Prelude Bits Vp9Bool.

(** ** The bit reader *)

(** [br_rest]: the bytes from [buf] to [end]; [br_fetched]: [buf - start]. *)
Record BitReader := MkBitReader {
  br_rest : list Z; br_fetched : nat; br_state : Z; br_bits_left : Z; br_error : bool; br_used_bits : Z }.
#[export] Instance eta_BitReader : Eta BitReader := fun r =>
  MkBitReader (br_rest r) (br_fetched r) (br_state r) (br_bits_left r) (br_error r) (br_used_bits r).

Definition reader (p : list Z) : BitReader := MkBitReader p 0 0 0 false 0.

Definition Parse (A : Type) : Type := BitReader -> A * BitReader.
#[export] Instance Parse_ret : MRet Parse := fun A a r => (a, r).
#[export] Instance Parse_bind : MBind Parse := fun A B k m r => let '(a, r) := m r in k a r.

(** Refill so that at least [n] bits are available. *)
Fixpoint refill_loop (n : Z) (rest : list Z) (r : BitReader) : BitReader :=
  if br_bits_left r <? n then
    match rest with
    | [] => r <| br_error := true |>
    | b :: rest =>
        refill_loop n rest
          (r <| br_state := u64 (Z.lor (br_state r) (Z.shiftl b (56 - br_bits_left r))) |>
             <| br_rest := rest |> <| br_fetched ::= S |> <| br_bits_left ::= Z.add 8 |>)
    end
  else r.
Definition br_refill (n : Z) (r : BitReader) : BitReader := refill_loop n (br_rest r) r.

(** [n] is from 1 to 32. *)
Definition br_u (n : Z) : Parse Z := fun r =>
  let r := if br_bits_left r <? n then br_refill n r else r in
  if br_error r then (0, r) else
  let v := u32 (Z.shiftr (br_state r) (64 - n)) in
  let v := if n <? 32 then Z.land v (Z.ones n) else v in
  (v, r <| br_state := u64 (Z.shiftl (br_state r) n) |> <| br_bits_left := br_bits_left r - n |>
        <| br_used_bits := u32 (br_used_bits r + n) |>).

Definition br_bit : Parse Z := br_u 1.

(** Magnitude, then sign. *)
Definition br_su (n : Z) : Parse Z :=
  mag ← br_u n;
  sign ← br_bit;
  mret (if negb (sign =? 0) then - mag else mag).

Definition br_failed : Parse bool := fun r => (br_error r, r).

Definition br_byte_align : Parse () := fun r =>
  let rem := Z.land (br_bits_left r) 7 in
  ((), if negb (rem =? 0)
       then r <| br_state := u64 (Z.shiftl (br_state r) rem) |> <| br_bits_left := br_bits_left r - rem |>
       else r).

Definition br_byte_pos : Parse Z := fun r =>
  let fetched := Z.of_nat (br_fetched r) in
  let pending := br_bits_left r / 8 in
  (if pending <=? fetched then u32 (fetched - pending) else 0, r).

(** ** Parameters *)
Definition kNumRefFrames : nat := 8.
Definition kRefsPerFrame : nat := 3.
Definition kMaxSegments : nat := 8.

Record SegmentParams := MkSegmentParams {
  seg_enabled : Z; seg_update_map : Z; seg_temporal_update : Z; seg_update_data : Z; seg_abs_delta : Z;
  tree_probs : list Z; pred_probs : list Z; feature_data : list (list Z); feature_mask : list Z }.
#[export] Instance eta_SegmentParams : Eta SegmentParams := fun s =>
  MkSegmentParams (seg_enabled s) (seg_update_map s) (seg_temporal_update s) (seg_update_data s) (seg_abs_delta s)
    (tree_probs s) (pred_probs s) (feature_data s) (feature_mask s).

Record LoopFilterParams := MkLoopFilterParams {
  lf_level : Z; lf_sharpness : Z; mode_ref_delta_enabled : Z; mode_ref_delta_update : Z;
  ref_deltas : list Z; mode_deltas : list Z }.
#[export] Instance eta_LoopFilterParams : Eta LoopFilterParams := fun l =>
  MkLoopFilterParams (lf_level l) (lf_sharpness l) (mode_ref_delta_enabled l) (mode_ref_delta_update l)
    (ref_deltas l) (mode_deltas l).

Record RefFrameDesc := MkRefFrameDesc { ref_index : Z; sign_bias : Z }.

Record PicParams := MkPicParams {
  profile : Z; bit_depth : Z; color_space : Z; color_range : Z; subsampling_x : Z; subsampling_y : Z;
  frame_type : Z; show_frame : Z; show_existing_frame : Z; show_existing_frame_idx : Z;
  error_resilient_mode : Z; intra_only : Z; allow_high_precision_mv : Z; refresh_frame_context : Z;
  frame_parallel_decoding_mode : Z; reset_frame_context : Z; frame_context_idx : Z;
  width : Z; height : Z; render_width : Z; render_height : Z;
  ref_frame_map : list RefFrameDesc; frame_refs : list RefFrameDesc; refresh_frame_flags : Z;
  interp_filter : Z; txmode : Z; reference_mode : Z; lf : LoopFilterParams; seg : SegmentParams;
  base_qindex : Z; y_dc_delta_q : Z; uv_dc_delta_q : Z; uv_ac_delta_q : Z; lossless : Z;
  tile_cols_log2 : Z; tile_rows_log2 : Z; header_size : Z; uncompressed_header_size : Z; frame_size : Z }.
#[export] Instance eta_PicParams : Eta PicParams := fun p =>
  MkPicParams (profile p) (bit_depth p) (color_space p) (color_range p) (subsampling_x p) (subsampling_y p)
    (frame_type p) (show_frame p) (show_existing_frame p) (show_existing_frame_idx p)
    (error_resilient_mode p) (intra_only p) (allow_high_precision_mv p) (refresh_frame_context p)
    (frame_parallel_decoding_mode p) (reset_frame_context p) (frame_context_idx p)
    (width p) (height p) (render_width p) (render_height p)
    (ref_frame_map p) (frame_refs p) (refresh_frame_flags p)
    (interp_filter p) (txmode p) (reference_mode p) (lf p) (seg p)
    (base_qindex p) (y_dc_delta_q p) (uv_dc_delta_q p) (uv_ac_delta_q p) (lossless p)
    (tile_cols_log2 p) (tile_rows_log2 p) (header_size p) (uncompressed_header_size p) (frame_size p).

(** [memset] to zero. *)
Definition zero_seg : SegmentParams :=
  MkSegmentParams 0 0 0 0 0 (replicate 7 0) (replicate 3 0) (replicate kMaxSegments (replicate 4 0)) (replicate kMaxSegments 0).
Definition zero_lf : LoopFilterParams := MkLoopFilterParams 0 0 0 0 (replicate 4 0) (replicate 2 0).
Definition zero_ref : RefFrameDesc := MkRefFrameDesc 0 0.
Definition zero_params : PicParams :=
  MkPicParams 0 0 0 0 0 0 0 0 0 0 0 0 0 0 0 0 0 0 0 0 0 (replicate kNumRefFrames zero_ref) (replicate kRefsPerFrame zero_ref)
    0 0 0 0 zero_lf zero_seg 0 0 0 0 0 0 0 0 0 0.

(** [valid], [ref_state]: one entry per reference slot. *)
Record ParserState := MkParserState {
  ref_state : list PicParams; prev_lf : LoopFilterParams; prev_seg : SegmentParams; valid : list Z;
  last_width : Z; last_height : Z; last_profile : Z; last_bit_depth : Z }.
#[export] Instance eta_ParserState : Eta ParserState := fun s =>
  MkParserState (ref_state s) (prev_lf s) (prev_seg s) (valid s) (last_width s) (last_height s) (last_profile s)
    (last_bit_depth s).
Definition initial_state : ParserState :=
  MkParserState (replicate kNumRefFrames zero_params) zero_lf zero_seg (replicate kNumRefFrames 0) 0 0 0 8.

Inductive ParseResult := Ok | NeedMoreData | Error.
#[export] Instance ParseResult_eq_dec : EqDecision ParseResult.
Proof. solve_decision. Defined.

(** [if (res != Ok) return res] *)
Definition on_ok {A} (m : Parse (ParseResult * A)) (k : A -> Parse (ParseResult * A)) : Parse (ParseResult * A) :=
  '(res, a) ← m;
  match res with Ok => k a | _ => mret (res, a) end.

(** [if (r.error) return NeedMoreData] *)
Definition check_error {A} (a : A) (k : Parse (ParseResult * A)) : Parse (ParseResult * A) :=
  e ← br_failed;
  if e : bool then mret (NeedMoreData, a) else k.

Definition truth (x : Z) : bool := negb (x =? 0).
Definition b2z (b : bool) : Z := if b then 1 else 0.

(** ** Sections of the uncompressed header *)

Definition read_color_config (profile : Z) (pp : PicParams) : Parse PicParams :=
  depth ← (if 2 <=? profile then t ← br_bit; mret (if truth t then 12 else 10) else mret 8);
  space ← br_u 3;
  let pp := pp <| bit_depth := depth |> <| color_space := space |> in
  let odd := (profile =? 1) || (profile =? 3) in
  if negb (space =? 7) then
    range ← br_bit;
    let pp := pp <| color_range := range |> in
    if odd then
      sx ← br_bit;
      sy ← br_bit;
      reserved ← br_bit;
      mret (pp <| subsampling_x := sx |> <| subsampling_y := sy |>)
    else mret (pp <| subsampling_x := 1 |> <| subsampling_y := 1 |>)
  else
    let pp := pp <| color_range := 1 |> in
    if odd then
      reserved ← br_bit;
      mret (pp <| subsampling_x := 0 |> <| subsampling_y := 0 |>)
    else mret pp.

Definition read_frame_size (pp : PicParams) : Parse PicParams :=
  w ← br_u 16;
  h ← br_u 16;
  mret (pp <| width := w + 1 |> <| height := h + 1 |>).

Definition read_render_size (pp : PicParams) : Parse PicParams :=
  different ← br_bit;
  if truth different then
    w ← br_u 16;
    h ← br_u 16;
    mret (pp <| render_width := w + 1 |> <| render_height := h + 1 |>)
  else mret (pp <| render_width := width pp |> <| render_height := height pp |>).

(** The reference named by [use_ref], when its slot is valid. *)
Definition copy_ref_size (st : ParserState) (slot : Z) (pp : PicParams) : option PicParams :=
  if (slot <? Z.of_nat kNumRefFrames) && truth (default 0 (valid st !! Z.to_nat slot)) then
    rs ← ref_state st !! Z.to_nat slot;
    Some (pp <| width := width rs |> <| height := height rs |>)
  else None.

(** The loop over the references: the copied size if [found]. *)
Fixpoint find_ref_size (st : ParserState) (refs : list RefFrameDesc) (pp : PicParams) : Parse (option PicParams) :=
  match refs with
  | [] => mret None
  | d :: refs =>
      use_ref ← br_bit;
      if truth use_ref then mret (copy_ref_size st (ref_index d) pp)
      else find_ref_size st refs pp
  end.

Definition read_frame_size_with_refs (st : ParserState) (pp : PicParams) : Parse PicParams :=
  found ← find_ref_size st (frame_refs pp) pp;
  pp ← match found with Some pp => mret pp | None => read_frame_size pp end;
  read_render_size pp.

Definition default_lf : LoopFilterParams := MkLoopFilterParams 0 0 1 0 [1; 0; -1; -1] [0; 0].

(** [if (br_bit(r)) delta = br_su(r, 6)] *)
Definition read_delta (old : Z) : Parse Z :=
  c ← br_bit;
  if truth c then br_su 6 else mret old.

Definition read_loop_filter_params (st : ParserState) (is_key_or_intra : bool) (pp : PicParams) : Parse PicParams :=
  let lf0 := if is_key_or_intra then default_lf else prev_lf st in
  level ← br_u 6;
  sharpness ← br_u 3;
  enabled ← br_bit;
  let lf1 := lf0 <| lf_level := level |> <| lf_sharpness := sharpness |> <| mode_ref_delta_enabled := enabled |> in
  if truth enabled then
    update ← br_bit;
    let lf1 := lf1 <| mode_ref_delta_update := update |> in
    if truth update then
      refs ← mapM read_delta (ref_deltas lf1);
      modes ← mapM read_delta (mode_deltas lf1);
      mret (pp <| lf := lf1 <| ref_deltas := refs |> <| mode_deltas := modes |> |>)
    else mret (pp <| lf := lf1 |>)
  else mret (pp <| lf := lf1 |>).

Definition read_delta_q : Parse Z :=
  c ← br_bit;
  if truth c then br_su 4 else mret 0.

Definition read_quantization_params (pp : PicParams) : Parse PicParams :=
  base ← br_u 8;
  y_dc ← read_delta_q;
  uv_dc ← read_delta_q;
  uv_ac ← read_delta_q;
  mret (pp <| base_qindex := base |> <| y_dc_delta_q := y_dc |> <| uv_dc_delta_q := uv_dc |>
           <| uv_ac_delta_q := uv_ac |>
           <| lossless := b2z ((base =? 0) && (y_dc =? 0) && (uv_dc =? 0) && (uv_ac =? 0)) |>).

(** ALT_Q, ALT_LF, REF_FRAME, SKIP: width and signedness. *)
Definition kSegFeatures : list (Z * bool) := [(8, true); (6, true); (2, false); (0, false)].

Definition read_prob : Parse Z :=
  c ← br_bit;
  if truth c then br_u 8 else mret 255.

(** Enabled, and its data. *)
Definition read_feature (f : Z * bool) : Parse (bool * Z) :=
  e ← br_bit;
  if truth e then
    if 0 <? f.1 then
      v ← (if f.2 then br_su f.1 else br_u f.1);
      mret (true, v)
    else mret (true, 0)
  else mret (false, 0).

(** [feature_mask[i] |= 1 << j] *)
Definition mask_of (l : list bool) : Z := foldr (fun b m => Z.lor (b2z b) (Z.shiftl m 1)) 0 l.

(** [update_map] and the probabilities; without it they are inherited. *)
Definition read_seg_map (st : ParserState) (sg : SegmentParams) : Parse SegmentParams :=
  update_map ← br_bit;
  let sg := sg <| seg_update_map := update_map |> in
  if truth update_map then
    tree ← mapM (fun _ => read_prob) (seq 0 7);
    temporal ← br_bit;
    pred ← (if truth temporal then mapM (fun _ => read_prob) (seq 0 3) else mret (replicate 3 255));
    mret (sg <| tree_probs := tree |> <| seg_temporal_update := temporal |> <| pred_probs := pred |>)
  else
    mret (sg <| tree_probs := tree_probs (prev_seg st) |> <| seg_temporal_update := 0 |>
             <| pred_probs := pred_probs (prev_seg st) |>).

(** [update_data] and the features; without it they are inherited. *)
Definition read_seg_data (st : ParserState) (sg : SegmentParams) : Parse SegmentParams :=
  update_data ← br_bit;
  let sg := sg <| seg_update_data := update_data |> in
  if truth update_data then
    abs ← br_bit;
    feats ← mapM (fun _ => mapM read_feature kSegFeatures) (seq 0 kMaxSegments);
    mret (sg <| seg_abs_delta := abs |> <| feature_mask := map (fun f => mask_of (map fst f)) feats |>
             <| feature_data := map (map snd) feats |>)
  else
    mret (sg <| feature_mask := feature_mask (prev_seg st) |> <| feature_data := feature_data (prev_seg st) |>
             <| seg_abs_delta := seg_abs_delta (prev_seg st) |>).

Definition read_segmentation_params (st : ParserState) (pp : PicParams) : Parse PicParams :=
  enabled ← br_bit;
  if negb (truth enabled) then mret (pp <| seg := zero_seg <| pred_probs := replicate 3 255 |> |>) else
  sg ← read_seg_map st ((seg pp) <| seg_enabled := enabled |>);
  sg ← read_seg_data st sg;
  mret (pp <| seg := sg |>).

(** ** Tiles *)

(** [while ((sb_cols >> k) > 64) k++]; a shift of 32 ends it for every 32-bit word. *)
Fixpoint min_log2_loop (fuel : nat) (sb_cols k : Z) : Z :=
  match fuel with
  | O => k
  | S fuel => if 64 <? Z.shiftr sb_cols k then min_log2_loop fuel sb_cols (k + 1) else k
  end.
Definition min_log2_tile_cols (sb_cols : Z) : Z := min_log2_loop 32 sb_cols 0.

(** [while (sb_cols >> (k + 1) >= 4) k++] *)
Fixpoint max_log2_loop (fuel : nat) (sb_cols k : Z) : Z :=
  match fuel with
  | O => k
  | S fuel => if 4 <=? Z.shiftr sb_cols (k + 1) then max_log2_loop fuel sb_cols (k + 1) else k
  end.
Definition max_log2_tile_cols (sb_cols : Z) : Z := max_log2_loop 32 sb_cols 0.

(** [while (log2_cols < max_col) { if (!br_bit(r)) break; log2_cols++; }] *)
Fixpoint tile_cols_loop (room : nat) (log2_cols : Z) : Parse Z :=
  match room with
  | O => mret log2_cols
  | S room =>
      b ← br_bit;
      if truth b then tile_cols_loop room (log2_cols + 1) else mret log2_cols
  end.

Definition read_tile_info (pp : PicParams) : Parse PicParams :=
  let sb_cols := Z.shiftr (u32 (width pp + 63)) 6 in
  let min_col := min_log2_tile_cols sb_cols in
  let max_col := max_log2_tile_cols sb_cols in
  cols ← tile_cols_loop (Z.to_nat (max_col - min_col)) min_col;
  rows ← br_bit;
  rows ← (if truth rows then b ← br_bit; mret (rows + b) else mret rows);
  mret (pp <| tile_cols_log2 := cols |> <| tile_rows_log2 := rows |>).

(** ** The uncompressed header *)

Definition kSyncCode : Z := 0x498342.

(** [frame_sync_code] *)
Definition read_sync (pp : PicParams) : Parse (ParseResult * PicParams) :=
  sync ← br_u 24;
  check_error pp (mret (if negb (sync =? kSyncCode) then (Error, pp) else (Ok, pp))).

Definition colour_or_error (pp : PicParams) : Parse (ParseResult * PicParams) :=
  pp ← read_color_config (profile pp) pp;
  mret (if bit_depth pp =? 12 then (Error, pp) else (Ok, pp)).

Definition read_sizes (pp : PicParams) : Parse (ParseResult * PicParams) :=
  pp ← read_frame_size pp;
  pp ← read_render_size pp;
  mret (Ok, pp).

Definition read_key_frame (pp : PicParams) : Parse (ParseResult * PicParams) :=
  on_ok (read_sync pp) (fun pp =>
  on_ok (colour_or_error pp) (fun pp =>
  on_ok (read_sizes pp) (fun pp =>
  mret (Ok, pp <| refresh_frame_flags := 0xFF |>)))).

(** Profile 0 implies 8-bit 4:2:0. *)
Definition intra_only_colour (pp : PicParams) : Parse (ParseResult * PicParams) :=
  if 0 <? profile pp then colour_or_error pp
  else mret (Ok, pp <| bit_depth := 8 |> <| color_space := 1 |> <| color_range := 1 |>
                    <| subsampling_x := 1 |> <| subsampling_y := 1 |>).

Definition read_intra_only_frame (pp : PicParams) : Parse (ParseResult * PicParams) :=
  on_ok (read_sync pp) (fun pp =>
  on_ok (intra_only_colour pp) (fun pp =>
  flags ← br_u 8;
  read_sizes (pp <| refresh_frame_flags := flags |>))).

Definition read_ref : Parse RefFrameDesc :=
  index ← br_u 3;
  bias ← br_bit;
  mret (MkRefFrameDesc index bias).

Definition read_inter_frame (st : ParserState) (pp : PicParams) : Parse (ParseResult * PicParams) :=
  flags ← br_u 8;
  refs ← mapM (fun _ => read_ref) (seq 0 kRefsPerFrame);
  pp ← read_frame_size_with_refs st (pp <| refresh_frame_flags := flags |> <| frame_refs := refs |>);
  hp ← br_bit;
  switchable ← br_bit;
  filter ← (if truth switchable then mret 4 else br_u 2);
  mret (Ok, pp <| allow_high_precision_mv := hp |> <| interp_filter := filter |>).

(** [intra_only] is read when the frame is not shown. *)
Definition read_non_key_frame (st : ParserState) (pp : PicParams) : Parse (ParseResult * PicParams) :=
  intra ← (if negb (truth (show_frame pp)) then br_bit else mret 0);
  reset ← (if negb (truth (error_resilient_mode pp)) then br_u 2 else mret 0);
  let pp := pp <| intra_only := intra |> <| reset_frame_context := reset |> in
  if truth intra then read_intra_only_frame pp else read_inter_frame st pp.

Definition read_frame_header (st : ParserState) (pp : PicParams) : Parse (ParseResult * PicParams) :=
  type ← br_bit;
  show ← br_bit;
  resilient ← br_bit;
  let pp := pp <| frame_type := type |> <| show_frame := show |> <| error_resilient_mode := resilient |> in
  if type =? 0 then read_key_frame pp else read_non_key_frame st pp.

(** The sections after the frame kind. *)
Definition read_common (st : ParserState) (pp : PicParams) : Parse PicParams :=
  refresh ← (if negb (truth (error_resilient_mode pp)) then br_bit else mret 0);
  parallel ← (if negb (truth (error_resilient_mode pp)) then br_bit else mret 1);
  ctx ← br_u 2;
  let pp := pp <| refresh_frame_context := refresh |> <| frame_parallel_decoding_mode := parallel |>
               <| frame_context_idx := ctx |> in
  pp ← read_loop_filter_params st ((frame_type pp =? 0) || truth (intra_only pp)) pp;
  pp ← read_quantization_params pp;
  pp ← read_segmentation_params st pp;
  read_tile_info pp.

(** [header_size_in_bytes], the alignment and the position. *)
Definition read_header_size (len : nat) (pp : PicParams) : Parse (ParseResult * PicParams) :=
  check_error pp (
  size ← br_u 16;
  let pp := pp <| header_size := size |> in
  check_error pp (
  aligned ← br_byte_align;
  pos ← br_byte_pos;
  let pp := pp <| uncompressed_header_size := pos |> <| frame_size := u32 (Z.of_nat len) |> in
  e ← br_failed;
  mret (if e : bool then NeedMoreData else Ok, pp))).

(** [show_existing_frame] ends the header. *)
Definition read_show_existing (pp : PicParams) : Parse (ParseResult * PicParams) :=
  idx ← br_u 3;
  let pp := pp <| show_existing_frame_idx := idx |> in
  check_error pp (
  pos ← br_byte_pos;
  e ← br_failed;
  mret (if e : bool then NeedMoreData else Ok, pp <| uncompressed_header_size := pos |> <| header_size := 0 |>)).

(** The frame marker and the profile; profile 3 is refused. *)
Definition read_profile (st : ParserState) : Parse (ParseResult * PicParams) :=
  marker ← br_u 2;
  check_error zero_params (
  if negb (marker =? 2) then mret (Error, zero_params) else
  let pp := zero_params <| bit_depth := if truth (last_bit_depth st) then last_bit_depth st else 8 |> in
  low ← br_bit;
  high ← br_bit;
  let pp := pp <| profile := Z.lor low (Z.shiftl high 1) |> in
  if profile pp =? 3 then
    reserved ← br_bit;
    check_error pp (mret (Error, pp))
  else mret (Ok, pp)).

(** The fields up to the size of the compressed header. *)
Definition read_fields (st : ParserState) (pp : PicParams) : Parse (ParseResult * PicParams) :=
  on_ok (read_frame_header st pp) (fun pp =>
  check_error pp (
  pp ← read_common st pp;
  mret (Ok, pp))).

Definition uncompressed_header (st : ParserState) (len : nat) : Parse (ParseResult * PicParams) :=
  on_ok (read_profile st) (fun pp =>
  existing ← br_bit;
  let pp := pp <| show_existing_frame := existing |> in
  if truth existing then read_show_existing pp else
  on_ok (read_fields st pp) (read_header_size len)).

Definition parse_uncompressed_header (frame : list Z) (st : ParserState) (pp : PicParams) : ParseResult * PicParams :=
  match frame with
  | [] => (NeedMoreData, pp)
  | _ => (uncompressed_header st (length frame) (reader frame)).1
  end.

(** ** The compressed header, over any bool decoder *)

(** A probability delta: its [_flag] byte and its value. *)
Definition delta : Type := Z * Z.
Definition no_delta : delta := (0, 0).

(** The [_present] bytes and the arrays of [ProbUpdates]; a value array and its
    [_flag] array are one array of deltas.  [coef] is indexed tx, plane, ref, band,
    ctx, i, the order of the loops; the code stores it with ref before plane. *)
Record ProbUpdates := MkProbUpdates {
  tx_mode_present : Z; tx_mode : Z; tx_probs_present : Z;
  tx_size_8x8 : list (list delta); tx_size_16x16 : list (list delta); tx_size_32x32 : list (list delta);
  coef_present : list Z; coef : list (list (list (list (list (list delta)))));
  skip_present : Z; skip : list delta;
  inter_mode_present : Z; inter_mode : list (list delta);
  interp_filter_present : Z; interp_filter_probs : list (list delta);
  is_inter_present : Z; is_inter : list delta;
  ref_mode_present : Z; pu_reference_mode : Z;
  comp_mode_present : Z; comp_mode : list delta;
  single_ref_present : Z; single_ref : list (list delta);
  comp_ref_present : Z; comp_ref : list delta;
  y_mode_present : Z; y_mode : list (list delta);
  partition_present : Z; partition : list (list delta);
  mv_present : Z; mv_joints : list delta;
  mv_comps : list (delta * list delta * delta * list delta);
  mv_fracs : list (list (list delta) * list delta);
  mv_hps : list (delta * delta) }.
#[export] Instance eta_ProbUpdates : Eta ProbUpdates := fun p =>
  MkProbUpdates (tx_mode_present p) (tx_mode p) (tx_probs_present p) (tx_size_8x8 p) (tx_size_16x16 p) (tx_size_32x32 p)
    (coef_present p) (coef p) (skip_present p) (skip p) (inter_mode_present p) (inter_mode p)
    (interp_filter_present p) (interp_filter_probs p) (is_inter_present p) (is_inter p)
    (ref_mode_present p) (pu_reference_mode p) (comp_mode_present p) (comp_mode p)
    (single_ref_present p) (single_ref p) (comp_ref_present p) (comp_ref p) (y_mode_present p) (y_mode p)
    (partition_present p) (partition p) (mv_present p) (mv_joints p) (mv_comps p) (mv_fracs p) (mv_hps p).

Definition deltas2 (m n : nat) : list (list delta) := replicate m (replicate n no_delta).
(** Band 0 has three contexts, the others six. *)
Definition kBandContexts : list nat := [3; 6; 6; 6; 6; 6]%nat.
Definition zero_coefs : list (list (list (list (list delta)))) :=
  replicate 2 (replicate 2 (map (fun n => replicate n (replicate 3 no_delta)) kBandContexts)).
Definition zero_updates : ProbUpdates :=
  MkProbUpdates 0 0 0 (deltas2 2 1) (deltas2 2 2) (deltas2 2 3) (replicate 4 0) (replicate 4 zero_coefs)
    0 (replicate 3 no_delta) 0 (deltas2 7 3) 0 (deltas2 4 2) 0 (replicate 4 no_delta) 0 0 0 (replicate 5 no_delta)
    0 (deltas2 5 2) 0 (replicate 5 no_delta) 0 (deltas2 4 9) 0 (deltas2 16 3) 0 (replicate 3 no_delta)
    (replicate 2 (no_delta, replicate 10 no_delta, no_delta, replicate 10 no_delta))
    (replicate 2 (deltas2 2 3, replicate 3 no_delta)) (replicate 2 (no_delta, no_delta)).

Definition Dec (D A : Type) : Type := D -> option (A * D).
#[export] Instance Dec_ret D : MRet (Dec D) := fun A a d => Some (a, d).
#[export] Instance Dec_bind D : MBind (Dec D) := fun A B k m d =>
  match m d with Some (a, d) => k a d | None => None end.

Section compressed.
Context {D : Type} `{!BoolReader D}.

Definition bool_bit (p : Z) : Dec D Z := fun d => read_bool d p.
Definition literal (n : nat) : Dec D Z := decode_literal n.

(** [if (!bd.ok()) goto bail]: what has been read so far is kept. *)
Definition or_bail {A} (a : A) (k : Dec D A) : Dec D A := fun d => if reader_ok d then k d else Some (a, d).

Definition decode_term_subexp : Dec D Z :=
  b ← bool_bit 128;
  if b =? 0 then literal 4 else
  b ← bool_bit 128;
  if b =? 0 then v ← literal 4; mret (v + 16) else
  b ← bool_bit 128;
  if b =? 0 then v ← literal 5; mret (v + 32) else
  v ← literal 7;
  if v <? 65 then mret (v + 64) else
  b ← literal 1;
  mret ((2 * v - 1 + b) mod 256).

Definition prob_diff_update : Dec D delta :=
  u ← bool_bit 252;
  if truth u then v ← decode_term_subexp; mret (1, v) else mret no_delta.

Definition mv_prob_update : Dec D delta :=
  u ← bool_bit 252;
  if truth u then v ← literal 7; mret (1, Z.lor (2 * v) 1) else mret no_delta.

Definition tx_mode_to_max_tx_size (tx_mode : Z) : Z := if tx_mode =? 4 then 3 else tx_mode.

Definition diffs (n : nat) : Dec D (list delta) := mapM (fun _ => prob_diff_update) (seq 0 n).
Definition diffs2 (m n : nat) : Dec D (list (list delta)) := mapM (fun _ => diffs n) (seq 0 m).
Definition mv_diffs (n : nat) : Dec D (list delta) := mapM (fun _ => mv_prob_update) (seq 0 n).

Definition read_tx_mode (lossless : Z) : Dec D Z :=
  if truth lossless then mret 0 else
  m ← literal 2;
  if m =? 3 then b ← bool_bit 128; mret (m + b) else mret m.

Definition read_tx_mode_probs (pu : ProbUpdates) : Dec D ProbUpdates :=
  a ← diffs2 2 1;
  b ← diffs2 2 2;
  c ← diffs2 2 3;
  mret (pu <| tx_size_8x8 := a |> <| tx_size_16x16 := b |> <| tx_size_32x32 := c |>).

(** One transform size: the update bit, and the deltas when it is set. *)
Definition read_coef_block : Dec D (list (list (list (list (list delta))))) :=
  mapM (fun _ => mapM (fun _ => mapM (fun ctxs => mapM (fun _ => diffs 3) (seq 0 ctxs)) kBandContexts) (seq 0 2)) (seq 0 2).

Fixpoint read_coef_probs (n : nat) (tx : nat) (pu : ProbUpdates) : Dec D ProbUpdates :=
  match n with
  | O => mret pu
  | S n =>
      update ← bool_bit 128;
      or_bail pu (
      pu ← (if truth update then
              c ← read_coef_block;
              mret (pu <| coef_present ::= <[tx := 1]> |> <| coef ::= <[tx := c]> |>)
            else mret pu);
      read_coef_probs n (S tx) pu)
  end.

Definition compound_allowed (pp : PicParams) : bool :=
  let sb i := default 0 (sign_bias <$> frame_refs pp !! i) in
  negb (sb 0%nat =? sb 1%nat) || negb (sb 0%nat =? sb 2%nat).

Definition read_frame_reference_mode (pp : PicParams) : Dec D Z :=
  if compound_allowed pp then
    non_single ← bool_bit 128;
    if truth non_single then
      ref_select ← bool_bit 128;
      mret (if truth ref_select then 2 else 1)
    else mret 0
  else mret 0.

Definition read_reference_probs (mode : Z) (pu : ProbUpdates) : Dec D ProbUpdates :=
  pu ← (if mode =? 2 then c ← diffs 5; mret (pu <| comp_mode_present := 1 |> <| comp_mode := c |>) else mret pu);
  or_bail pu (
  pu ← (if negb (mode =? 1) then s ← diffs2 5 2; mret (pu <| single_ref_present := 1 |> <| single_ref := s |>)
        else mret pu);
  or_bail pu (
  if negb (mode =? 0) then c ← diffs 5; mret (pu <| comp_ref_present := 1 |> <| comp_ref := c |>) else mret pu)).

Definition read_mv_component : Dec D (delta * list delta * delta * list delta) :=
  sign ← mv_prob_update;
  classes ← mv_diffs 10;
  class0 ← mv_prob_update;
  bits ← mv_diffs 10;
  mret (sign, classes, class0, bits).

Definition read_mv_fraction : Dec D (list (list delta) * list delta) :=
  class0_fp ← mapM (fun _ => mv_diffs 3) (seq 0 2);
  fp ← mv_diffs 3;
  mret (class0_fp, fp).

Definition read_mv_hp : Dec D (delta * delta) :=
  class0_hp ← mv_prob_update;
  hp ← mv_prob_update;
  mret (class0_hp, hp).

Definition read_mv_probs (pp : PicParams) (pu : ProbUpdates) : Dec D ProbUpdates :=
  joints ← mv_diffs 3;
  let pu := pu <| mv_present := 1 |> <| mv_joints := joints |> in
  or_bail pu (
  comps ← mapM (fun _ => read_mv_component) (seq 0 2);
  let pu := pu <| mv_comps := comps |> in
  or_bail pu (
  fracs ← mapM (fun _ => read_mv_fraction) (seq 0 2);
  let pu := pu <| mv_fracs := fracs |> in
  or_bail pu (
  if truth (allow_high_precision_mv pp) then
    hps ← mapM (fun _ => read_mv_hp) (seq 0 2);
    mret (pu <| mv_hps := hps |>)
  else mret pu))).

(** The inter-only sections. *)
Definition read_inter_probs (pp : PicParams) (pu : ProbUpdates) : Dec D ProbUpdates :=
  im ← diffs2 7 3;
  let pu := pu <| inter_mode_present := 1 |> <| inter_mode := im |> in
  or_bail pu (
  pu ← (if interp_filter pp =? 4 then
          f ← diffs2 4 2;
          mret (pu <| interp_filter_present := 1 |> <| interp_filter_probs := f |>)
        else mret pu);
  or_bail pu (
  ii ← diffs 4;
  let pu := pu <| is_inter_present := 1 |> <| is_inter := ii |> in
  or_bail pu (
  mode ← read_frame_reference_mode pp;
  or_bail pu (
  pu ← read_reference_probs mode (pu <| ref_mode_present := 1 |> <| pu_reference_mode := mode |>);
  or_bail pu (
  ym ← diffs2 4 9;
  let pu := pu <| y_mode_present := 1 |> <| y_mode := ym |> in
  or_bail pu (
  pa ← diffs2 16 3;
  let pu := pu <| partition_present := 1 |> <| partition := pa |> in
  or_bail pu (
  read_mv_probs pp pu))))))).

Definition compressed_header (pp : PicParams) (pu : ProbUpdates) : Dec D ProbUpdates :=
  or_bail pu (
  mode ← read_tx_mode (lossless pp);
  or_bail pu (
  let pu := pu <| tx_mode_present := 1 |> <| tx_mode := mode |> in
  pu ← (if mode =? 4 then
          pu ← read_tx_mode_probs pu;
          or_bail pu (mret (pu <| tx_probs_present := 1 |>))
        else mret pu);
  or_bail pu (
  pu ← read_coef_probs (S (Z.to_nat (tx_mode_to_max_tx_size mode))) 0 pu;
  or_bail pu (
  sk ← diffs 3;
  let pu := pu <| skip_present := 1 |> <| skip := sk |> in
  or_bail pu (
  if negb (frame_type pp =? 0) && negb (truth (intra_only pp)) then read_inter_probs pp pu else mret pu))))).
End compressed.

(** [init] on the bytes of the compressed header. *)
Definition parse_compressed_header (buf : list Z) (pp : PicParams) (pu : ProbUpdates) : option ProbUpdates :=
  d ← init buf;
  '(pu, _) ← compressed_header pp pu d;
  Some pu.

(** ** The public functions *)

(** The bytes of the compressed header: clamped to the frame. *)
Definition compressed_bytes (frame : list Z) (pp : PicParams) : list Z :=
  let off := Z.to_nat (uncompressed_header_size pp) in
  take (Z.to_nat (header_size pp)) (drop off frame).

Definition mirror_updates (pp : PicParams) (pu : ProbUpdates) : PicParams :=
  let pp := if truth (tx_mode_present pu) then pp <| txmode := tx_mode pu |> else pp in
  if truth (ref_mode_present pu) then pp <| reference_mode := pu_reference_mode pu |> else pp.

Definition Vp9Parser_Parse (frame : list Z) (st : ParserState) (pp0 : PicParams) :
    option (ParseResult * PicParams * ProbUpdates) :=
  let '(res, pp) := parse_uncompressed_header frame st pp0 in
  match res with
  | Ok =>
      if truth (show_existing_frame pp) || (header_size pp =? 0) then Some (Ok, pp, zero_updates) else
      match compressed_bytes frame pp with
      | [] => Some (Ok, pp, zero_updates)
      | bytes =>
          pu ← parse_compressed_header bytes pp zero_updates;
          Some (Ok, mirror_updates pp pu, pu)
      end
  | _ => Some (res, pp, zero_updates)
  end.

Definition Vp9Parser_ApplyDpbUpdate (st : ParserState) (pp : PicParams) : ParserState :=
  let refreshed {A} (x : A) (l : list A) :=
    imap (fun i y => if Z.testbit (refresh_frame_flags pp) (Z.of_nat i) then x else y) l in
  st <| ref_state ::= refreshed pp |> <| valid ::= refreshed 1 |>
     <| last_width := width pp |> <| last_height := height pp |> <| last_profile := profile pp |>
     <| last_bit_depth := if truth (bit_depth pp) then bit_depth pp else 8 |>
     <| prev_lf := lf pp |> <| prev_seg := seg pp |>.

(** ** Superframes *)

(** [for (b = 0; b < bytes_per_sz; b++) sz |= *p++ << (b * 8)]: the size and the rest
    of the index. *)
Fixpoint read_le (n : nat) (shift : Z) (p : list Z) : option (Z * list Z) :=
  match n with
  | O => Some (0, p)
  | S n =>
      match p with
      | [] => None
      | b :: p => '(v, p) ← read_le n (shift + 8) p; Some (Z.lor (u32 (Z.shiftl b shift)) v, p)
      end
  end.

(** The loop over the frames: [data] and [remain], then the sizes. *)
Fixpoint split_loop (n bytes_per_sz : nat) (p : list Z) (data remain : Z) : option (option (list (Z * Z))) :=
  match n with
  | O => Some (Some [])
  | S n =>
      '(sz, p) ← read_le bytes_per_sz 0 p;
      if (sz =? 0) || (remain <? sz) then Some None else
      r ← split_loop n bytes_per_sz p (data + sz) (remain - sz);
      Some (l ← r; Some ((data, sz) :: l))
  end.

(** The frames, as offsets and sizes in [buf]; [Some None] is the return of -1. *)
Definition Vp9Parser_SuperframeSplit (buf : list Z) (max_frames : Z) : option (option (list (Z * Z))) :=
  let len := Z.of_nat (length buf) in
  if (len =? 0) || (max_frames <? 1) then Some None else
  last ← buf !! Z.to_nat (len - 1);
  if negb (Z.land last 0xE0 =? 0xC0) then Some (Some [(0, len)]) else
  let bytes_per_sz := Z.land (Z.shiftr last 3) 0x3 + 1 in
  let num_frames := Z.land last 0x7 + 1 in
  if max_frames <? num_frames then Some None else
  let index_sz := 2 + num_frames * bytes_per_sz in
  if len <? index_sz then Some None else
  let index_start := drop (Z.to_nat (len - index_sz)) buf in
  first ← index_start !! 0%nat;
  end_ ← index_start !! Z.to_nat (index_sz - 1);
  if negb (first =? last) || negb (end_ =? last) then Some None else
  split_loop (Z.to_nat num_frames) (Z.to_nat bytes_per_sz) (drop 1 index_start) 0 (len - index_sz).
