(* ===== verification/Vp9Syntax.v ===== *)
(** * The uncompressed header of VP9 as a syntax (VP9 specification, 6.2)

    [header] is the parse tree of an uncompressed header, [write_header] the bits the
    syntax tables of the specification give it, and [header_params] the parameters
    that it sets, written without reference to bits.  [Vp9ParserFacts] shows that the
    parser maps the one to the other. *)

From S2P Require Import Prelude Bits Vp9Bool Vp9Parser.

(** An n-bit field holds [v]. *)
Definition fits (n : nat) (v : Z) : Prop := 0 <= v < 2 ^ Z.of_nat n.
(** Magnitude and sign, with one representation of zero. *)
Definition fits_su (n : nat) (v : Z) : Prop := Z.abs v < 2 ^ Z.of_nat n.
Definition put_su (n : nat) (v : Z) : list bool := put n (Z.abs v) ++ [v <? 0].

(** An optional field: its presence bit, then the field. *)
Definition put_opt {A} (w : A -> list bool) (o : option A) : list bool :=
  match o with Some x => true :: w x | None => [false] end.
Definition ok_opt {A} (ok : A -> Prop) (o : option A) : Prop :=
  match o with Some x => ok x | None => True end.

(** ** Colour, sizes *)
Record color := Color { c_twelve : bool; c_space : Z; c_range : bool; c_ssx : bool; c_ssy : bool }.
Definition odd_profile (p : Z) : bool := (p =? 1) || (p =? 3).
Definition write_color (p : Z) (c : color) : list bool :=
  (if 2 <=? p then [c_twelve c] else []) ++ put 3 (c_space c) ++
  (if c_space c =? 7 then (if odd_profile p then [false] else [])
   else c_range c :: (if odd_profile p then [c_ssx c; c_ssy c; false] else [])).
(** Profile 2 is 10-bit; 12-bit streams are refused. *)
Definition color_ok (c : color) : Prop := fits 3 (c_space c) /\ c_twelve c = false.
Definition color_params (p : Z) (c : color) (pp : PicParams) : PicParams :=
  let pp := pp <| bit_depth := if 2 <=? p then 10 else 8 |> <| color_space := c_space c |> in
  if c_space c =? 7 then
    let pp := pp <| color_range := 1 |> in
    if odd_profile p then pp <| subsampling_x := 0 |> <| subsampling_y := 0 |> else pp
  else
    let pp := pp <| color_range := b2z (c_range c) |> in
    if odd_profile p then pp <| subsampling_x := b2z (c_ssx c) |> <| subsampling_y := b2z (c_ssy c) |>
    else pp <| subsampling_x := 1 |> <| subsampling_y := 1 |>.

(** Dimensions are coded minus one. *)
Definition dims : Type := Z * Z.
Definition dims_ok (d : dims) : Prop := fits 16 (d.1 - 1) /\ fits 16 (d.2 - 1).
Definition write_dims (d : dims) : list bool := put 16 (d.1 - 1) ++ put 16 (d.2 - 1).
Definition size_params (d : dims) (pp : PicParams) : PicParams := pp <| width := d.1 |> <| height := d.2 |>.
Definition render_params (o : option dims) (pp : PicParams) : PicParams :=
  match o with
  | Some d => pp <| render_width := d.1 |> <| render_height := d.2 |>
  | None => pp <| render_width := width pp |> <| render_height := height pp |>
  end.

(** ** Loop filter, quantiser *)
Record lf_syntax := LfSyntax {
  s_level : Z; s_sharpness : Z; s_enabled : bool; s_update : option (list (option Z) * list (option Z)) }.
Definition write_deltas (u : list (option Z) * list (option Z)) : list bool :=
  flat_map (put_opt (put_su 6)) u.1 ++ flat_map (put_opt (put_su 6)) u.2.
Definition write_lf (s : lf_syntax) : list bool :=
  put 6 (s_level s) ++ put 3 (s_sharpness s) ++
  (if s_enabled s then true :: put_opt write_deltas (s_update s) else [false]).
Definition deltas_ok (u : list (option Z) * list (option Z)) : Prop :=
  length u.1 = 4%nat /\ length u.2 = 2%nat /\ Forall (ok_opt (fits_su 6)) u.1 /\ Forall (ok_opt (fits_su 6)) u.2.
Definition lf_ok (s : lf_syntax) : Prop :=
  fits 6 (s_level s) /\ fits 3 (s_sharpness s) /\ ok_opt deltas_ok (s_update s).
(** A delta that is not coded keeps its value. *)
Definition update_deltas (new : list (option Z)) (old : list Z) : list Z := zip_with (fun n o => default o n) new old.
Definition lf_params (st : ParserState) (reset : bool) (s : lf_syntax) (pp : PicParams) : PicParams :=
  let l := (if reset then default_lf else prev_lf st)
             <| lf_level := s_level s |> <| lf_sharpness := s_sharpness s |>
             <| mode_ref_delta_enabled := b2z (s_enabled s) |> in
  if s_enabled s then
    match s_update s with
    | Some u =>
        let l := l <| mode_ref_delta_update := 1 |> in
        pp <| lf := l <| ref_deltas := update_deltas u.1 (ref_deltas l) |>
                      <| mode_deltas := update_deltas u.2 (mode_deltas l) |> |>
    | None => pp <| lf := l <| mode_ref_delta_update := 0 |> |>
    end
  else pp <| lf := l |>.

Record quant := Quant { q_base : Z; q_ydc : option Z; q_uvdc : option Z; q_uvac : option Z }.
Definition write_quant (q : quant) : list bool :=
  put 8 (q_base q) ++ put_opt (put_su 4) (q_ydc q) ++ put_opt (put_su 4) (q_uvdc q) ++ put_opt (put_su 4) (q_uvac q).
Definition quant_ok (q : quant) : Prop :=
  fits 8 (q_base q) /\ ok_opt (fits_su 4) (q_ydc q) /\ ok_opt (fits_su 4) (q_uvdc q) /\ ok_opt (fits_su 4) (q_uvac q).
Definition quant_params (q : quant) (pp : PicParams) : PicParams :=
  let y := default 0 (q_ydc q) in let d := default 0 (q_uvdc q) in let a := default 0 (q_uvac q) in
  pp <| base_qindex := q_base q |> <| y_dc_delta_q := y |> <| uv_dc_delta_q := d |> <| uv_ac_delta_q := a |>
     <| lossless := b2z ((q_base q =? 0) && (y =? 0) && (d =? 0) && (a =? 0)) |>.

(** ** Segmentation *)
Record seg_syntax := SegSyntax {
  s_map : option (list (option Z) * option (list (option Z)));
  s_data : option (bool * list (list (option Z))) }.
Definition write_map (m : list (option Z) * option (list (option Z))) : list bool :=
  flat_map (put_opt (put 8)) m.1 ++ put_opt (flat_map (put_opt (put 8))) m.2.
Definition put_feature (f : Z * bool) (v : Z) : list bool :=
  if 0 <? f.1 then (if f.2 then put_su (Z.to_nat f.1) v else put (Z.to_nat f.1) v) else [].
Definition write_features (l : list (option Z)) : list bool :=
  concat (zip_with (fun f o => put_opt (put_feature f) o) kSegFeatures l).
Definition write_data (d : bool * list (list (option Z))) : list bool := d.1 :: flat_map write_features d.2.
Definition write_seg (o : option seg_syntax) : list bool :=
  match o with
  | Some s => true :: put_opt write_map (s_map s) ++ put_opt write_data (s_data s)
  | None => [false]
  end.
Definition probs_ok (n : nat) (l : list (option Z)) : Prop := length l = n /\ Forall (ok_opt (fits 8)) l.
Definition feature_ok (f : Z * bool) (o : option Z) : Prop :=
  ok_opt (fun v => if 0 <? f.1 then (if f.2 then fits_su (Z.to_nat f.1) v else fits (Z.to_nat f.1) v) else v = 0) o.
Definition seg_ok (s : seg_syntax) : Prop :=
  ok_opt (fun m => probs_ok 7 m.1 /\ ok_opt (probs_ok 3) m.2) (s_map s) /\
  ok_opt (fun d => length d.2 = kMaxSegments /\ Forall (Forall2 feature_ok kSegFeatures) d.2) (s_data s).
Definition seg_map_params (st : ParserState) (o : option (list (option Z) * option (list (option Z)))) (sg : SegmentParams) :
    SegmentParams :=
  match o with
  | Some m => sg <| seg_update_map := 1 |> <| tree_probs := map (default 255) m.1 |>
                 <| seg_temporal_update := b2z (bool_decide (is_Some m.2)) |>
                 <| pred_probs := from_option (map (default 255)) (replicate 3 255) m.2 |>
  | None => sg <| seg_update_map := 0 |> <| tree_probs := tree_probs (prev_seg st) |> <| seg_temporal_update := 0 |>
               <| pred_probs := pred_probs (prev_seg st) |>
  end.
Definition seg_data_params (st : ParserState) (o : option (bool * list (list (option Z)))) (sg : SegmentParams) : SegmentParams :=
  match o with
  | Some d => sg <| seg_update_data := 1 |> <| seg_abs_delta := b2z d.1 |>
                 <| feature_mask := map (fun l => mask_of (map (fun o => bool_decide (is_Some o)) l)) d.2 |>
                 <| feature_data := map (map (default 0)) d.2 |>
  | None => sg <| seg_update_data := 0 |> <| feature_mask := feature_mask (prev_seg st) |>
               <| feature_data := feature_data (prev_seg st) |> <| seg_abs_delta := seg_abs_delta (prev_seg st) |>
  end.
Definition seg_params (st : ParserState) (o : option seg_syntax) (pp : PicParams) : PicParams :=
  match o with
  | None => pp <| seg := zero_seg <| pred_probs := replicate 3 255 |> |>
  | Some s => pp <| seg := seg_data_params st (s_data s) (seg_map_params st (s_map s) ((seg pp) <| seg_enabled := 1 |>)) |>
  end.

(** ** Tiles

    [cols_log2] is sent in unary above its minimum, with a stop bit below the maximum. *)
Definition tile_bounds (pp : PicParams) : Z * Z :=
  let sb := (width pp + 63) / 64 in (min_log2_tile_cols sb, max_log2_tile_cols sb).
Definition write_tiles (pp : PicParams) (t : Z * Z) : list bool :=
  let '(lo, hi) := tile_bounds pp in
  replicate (Z.to_nat (t.1 - lo)) true ++ (if t.1 <? hi then [false] else []) ++
  (if t.2 =? 0 then [false] else [true; negb (t.2 =? 1)]).
Definition tiles_ok (pp : PicParams) (t : Z * Z) : Prop :=
  let '(lo, hi) := tile_bounds pp in lo <= t.1 /\ (t.1 <= hi \/ t.1 = lo) /\ 0 <= t.2 <= 2.
Definition tile_params (t : Z * Z) (pp : PicParams) : PicParams :=
  pp <| tile_cols_log2 := t.1 |> <| tile_rows_log2 := t.2 |>.

(** ** Frames *)
Inductive size_syntax := ExplicitSize (d : dims) | RefSize (i : nat).
Inductive frame_syntax :=
  | KeyFrame (c : color) (d : dims) (render : option dims)
  | IntraOnlyFrame (c : color) (flags : Z) (d : dims) (render : option dims)
  | InterFrame (flags : Z) (refs : list RefFrameDesc) (size : size_syntax) (render : option dims) (hp : bool)
      (filter : option Z).

(** [None]: switchable. *)
Definition write_filter (o : option Z) : list bool :=
  match o with None => [true] | Some f => false :: put 2 f end.
Definition write_refs (l : list RefFrameDesc) : list bool :=
  flat_map (fun d => put 3 (ref_index d) ++ put 1 (sign_bias d)) l.
(** The presence bits of the references up to the chosen one. *)
Definition write_size (s : size_syntax) : list bool :=
  match s with
  | ExplicitSize d => replicate kRefsPerFrame false ++ write_dims d
  | RefSize i => replicate i false ++ [true]
  end.

Record header := Header {
  h_profile : Z; h_show : bool; h_resilient : bool; h_reset : Z; h_frame : frame_syntax;
  h_refresh_ctx : bool; h_parallel : bool; h_ctx_idx : Z;
  h_lf : lf_syntax; h_quant : quant; h_seg : option seg_syntax; h_tiles : Z * Z; h_size : Z }.

Definition is_key (f : frame_syntax) : bool := match f with KeyFrame _ _ _ => true | _ => false end.
Definition is_intra_only (f : frame_syntax) : bool := match f with IntraOnlyFrame _ _ _ _ => true | _ => false end.

Definition write_sync : list bool := put 24 kSyncCode.
Definition write_frame (p : Z) (f : frame_syntax) : list bool :=
  match f with
  | KeyFrame c d r => write_sync ++ write_color p c ++ write_dims d ++ put_opt write_dims r
  | IntraOnlyFrame c flags d r =>
      write_sync ++ (if 0 <? p then write_color p c else []) ++ put 8 flags ++ write_dims d ++ put_opt write_dims r
  | InterFrame flags refs s r hp filter =>
      put 8 flags ++ write_refs refs ++ write_size s ++ put_opt write_dims r ++ [hp] ++ write_filter filter
  end.

(** The bits between the error-resilience bit and the frame: [intra_only] when the
    frame is hidden, [reset_frame_context] when it is not error resilient. *)
Definition write_intro (h : header) : list bool :=
  if is_key (h_frame h) then [] else
  (if h_show h then [] else [is_intra_only (h_frame h)]) ++ (if h_resilient h then [] else put 2 (h_reset h)).

Definition ref_of (st : ParserState) (refs : list RefFrameDesc) (i : nat) : option PicParams :=
  d ← refs !! i;
  v ← valid st !! Z.to_nat (ref_index d);
  if truth v then ref_state st !! Z.to_nat (ref_index d) else None.

(** The size of an inter frame. *)
Definition inter_size (st : ParserState) (refs : list RefFrameDesc) (s : size_syntax) (pp : PicParams) : PicParams :=
  match s with
  | ExplicitSize d => size_params d pp
  | RefSize i => from_option (fun rs => size_params (width rs, height rs) pp) pp (ref_of st refs i)
  end.

Definition frame_params (st : ParserState) (p : Z) (f : frame_syntax) (pp : PicParams) : PicParams :=
  match f with
  | KeyFrame c d r => (render_params r (size_params d (color_params p c pp))) <| refresh_frame_flags := 0xFF |>
  | IntraOnlyFrame c flags d r =>
      let pp := if 0 <? p then color_params p c pp
                else pp <| bit_depth := 8 |> <| color_space := 1 |> <| color_range := 1 |>
                        <| subsampling_x := 1 |> <| subsampling_y := 1 |> in
      render_params r (size_params d (pp <| refresh_frame_flags := flags |>))
  | InterFrame flags refs s r hp filter =>
      let pp := pp <| refresh_frame_flags := flags |> <| frame_refs := refs |> in
      (render_params r (inter_size st refs s pp)) <| allow_high_precision_mv := b2z hp |> <| interp_filter := default 4 filter |>
  end.

Definition write_ctx (h : header) : list bool :=
  (if h_resilient h then [] else [h_refresh_ctx h; h_parallel h]) ++ put 2 (h_ctx_idx h).

(** The parameters before the frame kind. *)
Definition first_params (st : ParserState) (h : header) : PicParams :=
  zero_params <| bit_depth := if truth (last_bit_depth st) then last_bit_depth st else 8 |>
              <| profile := h_profile h |> <| show_existing_frame := 0 |>
              <| frame_type := b2z (negb (is_key (h_frame h))) |> <| show_frame := b2z (h_show h) |>
              <| error_resilient_mode := b2z (h_resilient h) |>.
Definition frame_header_params (st : ParserState) (h : header) : PicParams :=
  let pp := first_params st h in
  let pp := if is_key (h_frame h) then pp
            else pp <| intra_only := b2z (is_intra_only (h_frame h)) |>
                    <| reset_frame_context := if h_resilient h then 0 else h_reset h |> in
  frame_params st (h_profile h) (h_frame h) pp.
Definition ctx_params (h : header) (pp : PicParams) : PicParams :=
  pp <| refresh_frame_context := if h_resilient h then 0 else b2z (h_refresh_ctx h) |>
     <| frame_parallel_decoding_mode := if h_resilient h then 1 else b2z (h_parallel h) |>
     <| frame_context_idx := h_ctx_idx h |>.
Definition resets_lf (h : header) : bool := is_key (h_frame h) || is_intra_only (h_frame h).
(** Everything but the sizes in bytes. *)
Definition syntax_params (st : ParserState) (h : header) : PicParams :=
  tile_params (h_tiles h) (seg_params st (h_seg h) (quant_params (h_quant h)
    (lf_params st (resets_lf h) (h_lf h) (ctx_params h (frame_header_params st h))))).

Definition write_fields (st : ParserState) (h : header) : list bool :=
  [negb (is_key (h_frame h)); h_show h; h_resilient h] ++ write_intro h ++ write_frame (h_profile h) (h_frame h) ++
  write_ctx h ++ write_lf (h_lf h) ++ write_quant (h_quant h) ++ write_seg (h_seg h) ++
  write_tiles (syntax_params st h) (h_tiles h).
(** Frame marker, profile, [show_existing_frame]. *)
Definition write_start (p : Z) (existing : bool) : list bool :=
  put 2 2 ++ [Z.testbit p 0; Z.testbit p 1] ++ [existing].
Definition write_header (st : ParserState) (h : header) : list bool :=
  write_start (h_profile h) false ++ write_fields st h ++ put 16 (h_size h).

(** The parse of a header that takes [bits] of a frame of [len] bytes. *)
Definition header_params (st : ParserState) (h : header) (bits len : nat) : PicParams :=
  (syntax_params st h) <| header_size := h_size h |>
    <| uncompressed_header_size := (Z.of_nat bits + 7) / 8 |> <| frame_size := u32 (Z.of_nat len) |>.

(** ** Well-formed headers *)
Definition frame_ok (st : ParserState) (f : frame_syntax) : Prop :=
  match f with
  | KeyFrame c d r => color_ok c /\ dims_ok d /\ ok_opt dims_ok r
  | IntraOnlyFrame c flags d r => color_ok c /\ fits 8 flags /\ dims_ok d /\ ok_opt dims_ok r
  | InterFrame flags refs s r hp filter =>
      fits 8 flags /\ length refs = kRefsPerFrame /\ Forall (fun d => fits 3 (ref_index d) /\ fits 1 (sign_bias d)) refs /\
      match s with ExplicitSize d => dims_ok d | RefSize i => is_Some (ref_of st refs i) end /\
      ok_opt dims_ok r /\ ok_opt (fits 2) filter
  end.

(** What the parser carries from frame to frame. *)
Definition state_ok (st : ParserState) : Prop :=
  length (ref_deltas (prev_lf st)) = 4%nat /\ length (mode_deltas (prev_lf st)) = 2%nat /\
  Forall (fun rs => 0 < width rs <= 65536) (ref_state st).

Record header_ok (st : ParserState) (h : header) : Prop := {
  ok_profile : 0 <= h_profile h <= 2;
  ok_intra : is_intra_only (h_frame h) = true -> h_show h = false;
  ok_reset : fits 2 (h_reset h);
  ok_frame : frame_ok st (h_frame h);
  ok_ctx : fits 2 (h_ctx_idx h);
  ok_lf : lf_ok (h_lf h);
  ok_quant : quant_ok (h_quant h);
  ok_seg : ok_opt seg_ok (h_seg h);
  ok_tiles : tiles_ok (syntax_params st h) (h_tiles h);
  ok_size : fits 16 (h_size h);
}.
