(* ===== verification/Vp9ParserFacts.v ===== *)
(** * Facts of the VP9 header parser

    The shift register reads the bit string of the frame ([reads_at]); past its end
    every read fails and the error sticks; each section of the header parses what the
    syntax writes ([parses]). *)

From S2P Require Import Prelude Bits Vp9Bool Vp9Parser Vp9Syntax.

(** ** The bit reader *)

(** [r] has [l] left to read of a frame of [len] bytes; [p] is in the register. *)
Record reads_with (len : nat) (r : BitReader) (p : list bool) (l : list bool) : Prop := {
  rw_error : br_error r = false;
  rw_unread : l = p ++ to_bits (br_rest r);
  rw_left : br_bits_left r = Z.of_nat (length p);
  rw_state : br_state r = window p (length p) * 2 ^ (64 - Z.of_nat (length p));
  rw_bytes : Forall is_byte (br_rest r);
  rw_len : (br_fetched r + length (br_rest r) = len)%nat;
}.
(** Between reads less than a byte is in the register. *)
Definition reads_at (len : nat) (r : BitReader) (l : list bool) : Prop :=
  exists p, reads_with len r p l /\ (length p < 8)%nat.

Lemma reader_reads frame : Forall is_byte frame -> reads_at (length frame) (reader frame) (to_bits frame).
Proof. intros H. exists []. split; [|simpl; lia]. by split. Qed.

(** A byte put below the [k] bits of the register. *)
Lemma append_byte w k b :
  0 <= k <= 56 -> 0 <= w < 2 ^ k -> is_byte b ->
  u64 (Z.lor (w * 2 ^ (64 - k)) (Z.shiftl b (56 - k))) = (w * 256 + b) * 2 ^ (56 - k).
Proof.
  intros Hk Hw Hb. unfold is_byte in Hb. rewrite Z.shiftl_mul_pow2 by lia.
  replace (64 - k) with (8 + (56 - k)) by lia. assert (2 ^ 64 = 2 ^ k * (2 ^ 8 * 2 ^ (56 - k))) as E.
  { rewrite <- !Z.pow_add_r by lia. f_equal. lia. }
  pose proof (Z.pow_pos_nonneg 2 (56 - k)). rewrite lor_high_low; [|lia|rewrite Z.pow_add_r by lia; nia].
  rewrite Z.pow_add_r by lia. change (2 ^ 8) with 256 in *. rewrite u64_small; [ring|]. rewrite E. nia.
Qed.

Lemma refill_enough n : forall rest r p l len,
  0 <= n <= 32 -> br_rest r = rest -> reads_with len r p l -> (length p < 40)%nat -> n <= Z.of_nat (length l) ->
  exists p', reads_with len (refill_loop n rest r) p' l /\ n <= Z.of_nat (length p') /\
    (Z.of_nat (length p') < Z.max (n + 8) (Z.of_nat (length p) + 1)).
Proof.
  induction rest as [|b rest IH]; intros r p l len Hn Hrest Hr Hp Hl; pose proof Hr as [He Hu Hbl Hst Hby Hle].
  - simpl. rewrite Hrest in Hu. simpl in Hu. rewrite app_nil_r in Hu. subst l. destruct (Z.ltb_spec (br_bits_left r) n); [lia|].
    exists p. split; [done|lia].
  - cbn [refill_loop]. destruct (Z.ltb_spec (br_bits_left r) n) as [Hlt|]; [|exists p; split; [done|lia]].
    rewrite Hrest in Hby. apply Forall_cons in Hby as [Hb Hby].
    destruct (IH (r <| br_state := u64 (Z.lor (br_state r) (Z.shiftl b (56 - br_bits_left r))) |>
      <| br_rest := rest |> <| br_fetched ::= S |> <| br_bits_left ::= Z.add 8 |>) (p ++ byte_bits b) l len)
      as (p' & Hr' & Hp'); [done|done| | |done|].
    + split; [done| | | |done|].
      * simpl br_rest. rewrite <- app_assoc. by rewrite Hu, Hrest.
      * change (8 + br_bits_left r = Z.of_nat (length (p ++ byte_bits b))). rewrite length_app. simpl length. lia.
      * change (u64 (Z.lor (br_state r) (Z.shiftl b (56 - br_bits_left r))) =
          window (p ++ byte_bits b) (length (p ++ byte_bits b)) * 2 ^ (64 - Z.of_nat (length (p ++ byte_bits b)))).
        rewrite length_app. change (length (byte_bits b)) with 8%nat.
        rewrite window_add, drop_app_length, (window_app p) by done.
        pose proof (window_byte b [] Hb) as Hw. rewrite app_nil_r in Hw. rewrite Hw.
        rewrite Hst, Hbl, append_byte; [|lia|apply window_range|done].
        change (Z.of_nat 8) with 8. f_equal. f_equal. lia.
      * simpl. rewrite Hrest in Hle. simpl in Hle. lia.
    + rewrite length_app. simpl. lia.
    + exists p'. split; [done|]. rewrite length_app in Hp'. simpl in Hp'. lia.
Qed.

Lemma refill_short n : forall rest r,
  br_bits_left r + 8 * Z.of_nat (length rest) < n -> br_error (refill_loop n rest r) = true.
Proof.
  induction rest as [|b rest IH]; intros r Hl; cbn [refill_loop length] in *.
  - by destruct (Z.ltb_spec (br_bits_left r) n); [|lia].
  - destruct (Z.ltb_spec (br_bits_left r) n); [|lia]. apply IH.
    change (br_bits_left _) with (8 + br_bits_left r). lia.
Qed.

Lemma refill_error n : forall rest r, br_error r = true -> br_error (refill_loop n rest r) = true.
Proof.
  induction rest as [|b rest IH]; intros r He; cbn [refill_loop]; destruct (br_bits_left r <? n); try done. by apply IH.
Qed.

(** Taking [n] bits off the register. *)
Lemma take_register p n : (1 <= n <= length p)%nat -> (length p <= 64)%nat -> (n <= 32)%nat ->
  let st := window p (length p) * 2 ^ (64 - Z.of_nat (length p)) in
  u32 (Z.shiftr st (64 - Z.of_nat n)) = window p n /\
  u64 (Z.shiftl st (Z.of_nat n)) = window (drop n p) (length (drop n p)) * 2 ^ (64 - Z.of_nat (length (drop n p))).
Proof.
  intros Hn H64 H32 st. pose proof (window_range p n) as Hw. pose proof (window_range (drop n p) (length (drop n p))) as Hd.
  rewrite length_drop in *. set (m := (length p - n)%nat) in *.
  assert (st = window p n * 2 ^ (64 - Z.of_nat n) + window (drop n p) m * 2 ^ (64 - Z.of_nat n - Z.of_nat m)) as Est.
  { unfold st. replace (length p) with (n + m)%nat at 1 by lia. rewrite window_add.
    replace (64 - Z.of_nat (length p)) with (64 - Z.of_nat n - Z.of_nat m) by lia.
    replace (64 - Z.of_nat n) with (Z.of_nat m + (64 - Z.of_nat n - Z.of_nat m)) at 2 by lia.
    rewrite (Z.pow_add_r 2 (Z.of_nat m) (64 - Z.of_nat n - Z.of_nat m)) by lia. ring. }
  assert (2 ^ (64 - Z.of_nat n) = 2 ^ Z.of_nat m * 2 ^ (64 - Z.of_nat n - Z.of_nat m)) as Em
    by (rewrite <- Z.pow_add_r by lia; f_equal; lia).
  pose proof (Z.pow_pos_nonneg 2 (64 - Z.of_nat n - Z.of_nat m)) as Hq.
  assert (2 ^ Z.of_nat n <= 2 ^ 32) as Hn32 by (apply Z.pow_le_mono_r; lia).
  split.
  - rewrite Est, Z.shiftr_div_pow2, Z.add_comm, Z.div_add, Z.div_small by (try apply Z.pow_nonzero; nia || lia).
    apply u32_small. lia.
  - rewrite Z.shiftl_mul_pow2, Est, Z.mul_add_distr_r, <- Z.mul_assoc, <- Z.pow_add_r by lia.
    replace (64 - Z.of_nat n + Z.of_nat n) with 64 by lia. unfold u64. rewrite Z.add_comm, Z.mod_add by done.
    rewrite <- Z.mul_assoc, <- Z.pow_add_r by lia. replace (64 - Z.of_nat n - Z.of_nat m + Z.of_nat n) with (64 - Z.of_nat m) by lia.
    apply Z.mod_small. split; [nia|].
    replace (2 ^ 64) with (2 ^ Z.of_nat m * 2 ^ (64 - Z.of_nat m)) by (rewrite <- Z.pow_add_r by lia; f_equal; lia).
    pose proof (Z.pow_pos_nonneg 2 (64 - Z.of_nat m)). nia.
Qed.

Lemma br_u_ok len r l n :
  reads_at len r l -> (1 <= n <= 32)%nat -> (n <= length l)%nat ->
  exists r', br_u (Z.of_nat n) r = (window l n, r') /\ reads_at len r' (drop n l).
Proof.
  intros [p [Hr Hp8]] Hn Hl.
  assert (exists p', reads_with len (if br_bits_left r <? Z.of_nat n then br_refill (Z.of_nat n) r else r) p' l /\
    (n <= length p')%nat /\ (length p' < n + 8)%nat) as (p' & [He Hu Hbl Hst Hby Hle] & Hpn & Hp').
  { destruct (Z.ltb_spec (br_bits_left r) (Z.of_nat n)) as [Hlt|Hge].
    - destruct (refill_enough (Z.of_nat n) (br_rest r) r p l len) as (p' & H & ? & ?); [lia|done|done|lia|lia|].
      exists p'. split; [exact H|]. lia.
    - exists p. split; [done|]. destruct Hr. lia. }
  unfold br_u. set (r1 := if br_bits_left r <? Z.of_nat n then _ else r) in *. rewrite He.
  destruct (take_register p' n) as [Hv Hst']; [lia..|]. rewrite <- Hst in Hv, Hst'.
  eexists. split; [f_equal|].
  - rewrite Hv, Hu. assert (window (p' ++ to_bits (br_rest r1)) n = window p' n) as ->.
    { replace p' with (take n p' ++ drop n p') at 1 by apply take_drop.
      rewrite <- app_assoc, window_app by (rewrite length_take; lia).
      rewrite <- (take_drop n p') at 2. by rewrite window_app by (rewrite length_take; lia). }
    pose proof (window_range p' n). destruct (Z.of_nat n <? 32); [|done].
    rewrite Z.land_ones, Z.mod_small by lia. done.
  - exists (drop n p'). split; [|rewrite length_drop; lia]. split; try done; simpl.
    + rewrite Hu. apply drop_app_le. lia.
    + rewrite length_drop. lia.
Qed.

Lemma br_u_fail len r l n :
  reads_at len r l -> (length l < n)%nat -> exists r', br_u (Z.of_nat n) r = (0, r') /\ br_error r' = true.
Proof.
  intros [p [[He Hu Hbl _ _ _] _]] Hl. assert (length l = length p + 8 * length (br_rest r))%nat as E.
  { by rewrite Hu, length_app, length_to_bits. }
  unfold br_u. destruct (Z.ltb_spec (br_bits_left r) (Z.of_nat n)); [|lia].
  unfold br_refill. rewrite refill_short by lia. eexists. split; [done|]. apply refill_short. lia.
Qed.

Lemma br_u_sticky n r : br_error r = true -> exists r', br_u n r = (0, r') /\ br_error r' = true.
Proof.
  intros He. unfold br_u. destruct (br_bits_left r <? n).
  - unfold br_refill. rewrite refill_error by done. eexists. split; [done|]. by apply refill_error.
  - rewrite He. by eexists.
Qed.

(** ** Parsing what was written *)

(** On a reader whose unread bits start with [bits], [m] returns [a] and leaves the rest. *)
Definition parses {A} (m : Parse A) (bits : list bool) (a : A) : Prop :=
  forall len r l, reads_at len r (bits ++ l) -> exists r', m r = (a, r') /\ reads_at len r' l.

Lemma parses_ret {A} (a : A) : parses (mret a) [] a.
Proof. intros len r l H. by exists r. Qed.

Lemma parses_bind {A B} (m : Parse A) (k : A -> Parse B) b1 b2 a b :
  parses m b1 a -> parses (k a) b2 b -> parses (m ≫= k) (b1 ++ b2) b.
Proof.
  intros Hm Hk len r l Hr. rewrite <- app_assoc in Hr. destruct (Hm _ _ _ Hr) as (r1 & E1 & H1).
  destruct (Hk _ _ _ H1) as (r2 & E2 & H2). exists r2. split; [|done].
  unfold mbind, Parse_bind. by rewrite E1.
Qed.

(** A read whose value makes the rest of the parse what is wanted. *)
Lemma parses_step {A B} (m : Parse A) (k : A -> Parse B) b1 b2 a b bits :
  parses m b1 a -> bits = b1 ++ b2 -> parses (k a) b2 b -> parses (m ≫= k) bits b.
Proof. intros Hm -> Hk. by eapply parses_bind. Qed.

Lemma parses_last {A B} (m : Parse A) (k : A -> Parse B) bits a b :
  parses m bits a -> parses (k a) [] b -> parses (m ≫= k) bits b.
Proof. intros Hm Hk. eapply parses_step; [exact Hm|symmetry; apply app_nil_r|exact Hk]. Qed.

Lemma parses_u n v : (1 <= n <= 32)%nat -> fits n v -> parses (br_u (Z.of_nat n)) (put n v) v.
Proof.
  intros Hn Hv len r l Hr. destruct (br_u_ok _ _ _ n Hr) as (r' & E & Hr'); [done|rewrite length_app, length_put; lia|].
  rewrite put_window in E by done. rewrite drop_put in Hr'. by exists r'.
Qed.

Lemma parses_bit b : parses br_bit [b] (b2z b).
Proof.
  assert ([b] = put 1 (b2z b)) as -> by by destruct b. apply (parses_u 1); [lia|]. destruct b; unfold fits; simpl; lia.
Qed.

Lemma truth_b2z b : truth (b2z b) = b.
Proof. by destruct b. Qed.

Lemma parses_su n v : (1 <= n <= 32)%nat -> fits_su n v -> parses (br_su (Z.of_nat n)) (put_su n v) v.
Proof.
  intros Hn Hv. eapply parses_bind.
  - apply parses_u; [done|]. unfold fits, fits_su in *. lia.
  - eapply parses_last; [apply parses_bit|]. assert ((if negb (b2z (v <? 0) =? 0) then - Z.abs v else Z.abs v) = v) as ->.
    { destruct (Z.ltb_spec v 0); simpl; lia. }
    apply parses_ret.
Qed.

(** A presence bit. *)
Lemma parses_opt {A} (m : Parse A) (w : A -> list bool) (d : A) (o : option A) (ok : A -> Prop) :
  (forall x, ok x -> parses m (w x) x) -> ok_opt ok o ->
  parses (c ← br_bit; if truth c then m else mret d) (put_opt w o) (default d o).
Proof.
  intros Hm Ho. destruct o as [x|]; simpl.
  - eapply (parses_step _ _ [true]); [apply (parses_bit true)|done|]. by apply Hm.
  - eapply (parses_step _ _ [false]); [apply (parses_bit false)|done|]. apply parses_ret.
Qed.

(** A loop: the i-th round parses the i-th field. *)
Lemma parses_mapM {X A B} (f : X -> Parse B) (w : A -> list bool) (g : X -> A -> B) (ok : X -> A -> Prop) :
  (forall x a, ok x a -> parses (f x) (w a) (g x a)) ->
  forall xs ys, Forall2 ok xs ys -> parses (mapM f xs) (flat_map w ys) (zip_with g xs ys).
Proof.
  intros Hf. induction 1 as [|x a xs ys Hok H IH]; [apply parses_ret|].
  cbn [flat_map zip_with mapM]. eapply parses_bind; [by apply Hf|]. eapply parses_last; [exact IH|]. apply parses_ret.
Qed.

(** The same when the body ignores the index. *)
Lemma parses_repeat {X A B} (m : Parse B) (w : A -> list bool) (g : A -> B) (ok : A -> Prop) (xs : list X) ys :
  (forall a, ok a -> parses m (w a) (g a)) -> length xs = length ys -> Forall ok ys ->
  parses (mapM (fun _ => m) xs) (flat_map w ys) (map g ys).
Proof.
  intros Hm Hl Hok. assert (map g ys = zip_with (fun _ => g) xs ys) as ->.
  { clear Hok. revert ys Hl. induction xs as [|x xs IH]; intros [|y ys] Hl; try done. simpl in *. f_equal. apply IH. lia. }
  apply parses_mapM with (ok := fun _ => ok); [intros; by apply Hm|].
  revert ys Hl Hok. induction xs as [|x xs IH]; intros [|y ys] Hl Hok; try done.
  apply Forall_cons in Hok as [? ?]. constructor; [done|]. apply IH; [by injection Hl|done].
Qed.

(** One parse after another, each named by what it is. *)
Ltac pstep H := eapply parses_step; [eapply H|rewrite <- ?app_assoc; reflexivity|].
Ltac pbit := eapply (parses_step _ _ [_]); [apply parses_bit|reflexivity|]; rewrite ?truth_b2z.
Ltac pdone := eapply parses_ret.

(** ** The sections *)

Lemma parses_delta old o : ok_opt (fits_su 6) o -> parses (read_delta old) (put_opt (put_su 6) o) (default old o).
Proof. intros Ho. eapply parses_opt; [|exact Ho]. intros x Hx. by apply (parses_su 6); [lia|]. Qed.
Lemma parses_delta_q o : ok_opt (fits_su 4) o -> parses read_delta_q (put_opt (put_su 4) o) (default 0 o).
Proof. intros Ho. eapply parses_opt; [|exact Ho]. intros x Hx. by apply (parses_su 4); [lia|]. Qed.
Lemma parses_prob o : ok_opt (fits 8) o -> parses read_prob (put_opt (put 8) o) (default 255 o).
Proof. intros Ho. eapply parses_opt; [|exact Ho]. intros x Hx. by apply (parses_u 8); [lia|]. Qed.

Lemma parses_deltas old new :
  length old = length new -> Forall (ok_opt (fits_su 6)) new ->
  parses (mapM read_delta old) (flat_map (put_opt (put_su 6)) new) (update_deltas new old).
Proof.
  intros Hl Hok. assert (update_deltas new old = zip_with (fun o n => default o n) old new) as ->.
  { unfold update_deltas. apply zip_with_flip. }
  apply parses_mapM with (ok := fun _ => ok_opt (fits_su 6)); [intros; by apply parses_delta|].
  revert old Hl. induction Hok as [|n new ? ? IH]; intros [|o old] Hl; try done. constructor; [done|]. apply IH. by injection Hl.
Qed.

Lemma parses_quant q pp : quant_ok q -> parses (read_quantization_params pp) (write_quant q) (quant_params q pp).
Proof.
  intros (Hb & Hy & Hd & Ha). unfold read_quantization_params, write_quant.
  pstep (parses_u 8); [lia|done|]. pstep parses_delta_q; [done|]. pstep parses_delta_q; [done|].
  eapply parses_last; [by apply parses_delta_q|]. pdone.
Qed.

Lemma parses_lf st reset s pp :
  lf_ok s -> length (ref_deltas (prev_lf st)) = 4%nat -> length (mode_deltas (prev_lf st)) = 2%nat ->
  parses (read_loop_filter_params st reset pp) (write_lf s) (lf_params st reset s pp).
Proof.
  intros (Hl & Hs & Hu) Hr Hm. unfold read_loop_filter_params, write_lf, lf_params.
  set (lf0 := if reset then default_lf else prev_lf st).
  assert (length (ref_deltas lf0) = 4%nat /\ length (mode_deltas lf0) = 2%nat) as [Hr0 Hm0] by by destruct reset.
  pstep (parses_u 6); [lia|done|]. pstep (parses_u 3); [lia|done|].
  destruct (s_enabled s).
  - pbit. destruct (s_update s) as [u|]; cbn [put_opt].
    + pbit. destruct Hu as (? & ? & ? & ?). unfold write_deltas.
      eapply parses_step; [apply (parses_deltas _ u.1); [change (length (ref_deltas lf0) = length u.1); congruence|done]|reflexivity|].
      eapply parses_last; [apply (parses_deltas _ u.2); [change (length (mode_deltas lf0) = length u.2); congruence|done]|]. pdone.
    + pbit. pdone.
  - pbit. pdone.
Qed.

Lemma parses_feature f o :
  In f kSegFeatures -> feature_ok f o ->
  parses (read_feature f) (put_opt (put_feature f) o) (bool_decide (is_Some o), default 0 o).
Proof.
  intros Hf Ho. unfold read_feature, feature_ok, put_feature in *.
  destruct o as [v|]; [|by pbit; pdone]. cbn [put_opt ok_opt] in *. pbit.
  destruct Hf as [<-|[<-|[<-|[<-|[]]]]]; simpl in *.
  - eapply parses_last; [apply (parses_su 8); [lia|done]|]. pdone.
  - eapply parses_last; [apply (parses_su 6); [lia|done]|]. pdone.
  - eapply parses_last; [apply (parses_u 2); [lia|done]|]. pdone.
  - subst v. pdone.
Qed.

Lemma parses_feature_list fs l :
  Forall (fun f => In f kSegFeatures) fs -> Forall2 feature_ok fs l ->
  parses (mapM read_feature fs) (concat (zip_with (fun f o => put_opt (put_feature f) o) fs l))
    (map (fun o => (bool_decide (is_Some o), default 0 o)) l).
Proof.
  intros Hin H. revert Hin. induction H as [|f o fs l Hok H IH]; intros Hin; [apply parses_ret|].
  apply Forall_cons in Hin as [Hf Hin].
  cbn [zip_with concat map mapM]. eapply parses_bind; [by apply parses_feature|].
  eapply parses_last; [by apply IH|]. pdone.
Qed.

Lemma parses_features l :
  Forall2 feature_ok kSegFeatures l ->
  parses (mapM read_feature kSegFeatures) (write_features l)
    (map (fun o => (bool_decide (is_Some o), default 0 o)) l).
Proof. apply parses_feature_list. apply Forall_forall. intros f Hf. by apply list_elem_of_In. Qed.

Lemma parses_probs n l : probs_ok n l ->
  parses (mapM (fun _ => read_prob) (seq 0 n)) (flat_map (put_opt (put 8)) l) (map (default 255) l).
Proof.
  intros [Hl Hok]. apply (parses_repeat _ _ _ _ _ _ parses_prob); [by rewrite length_seq|done].
Qed.

Lemma parses_seg_map st o sg :
  ok_opt (fun m => probs_ok 7 m.1 /\ ok_opt (probs_ok 3) m.2) o ->
  parses (read_seg_map st sg) (put_opt write_map o) (seg_map_params st o sg).
Proof.
  intros Ho. unfold read_seg_map. destruct o as [[tree pred]|]; cbn [put_opt ok_opt seg_map_params fst snd] in *; pbit; [|pdone].
  destruct Ho as [Ht Hp]. unfold write_map. pstep (parses_probs 7); [done|].
  destruct pred as [l|]; cbn [put_opt fst snd from_option]; pbit; [|eapply (parses_bind _ _ [] []); pdone].
  eapply parses_last; [by apply (parses_probs 3)|]. pdone.
Qed.

Lemma parses_seg_data st o sg :
  ok_opt (fun d => length d.2 = kMaxSegments /\ Forall (Forall2 feature_ok kSegFeatures) d.2) o ->
  parses (read_seg_data st sg) (put_opt write_data o) (seg_data_params st o sg).
Proof.
  intros Ho. unfold read_seg_data. destruct o as [[abs feats]|]; cbn [put_opt ok_opt seg_data_params fst snd] in *; pbit; [|pdone].
  destruct Ho as [Hl Hf]. unfold write_data. cbn [fst snd]. pbit.
  eapply parses_last; [apply (parses_repeat _ _ _ _ _ _ parses_features); [by rewrite length_seq|done]|].
  set (pair := fun o : option Z => (bool_decide (is_Some o), default 0 o)).
  assert (map (fun f => mask_of (map fst f)) (map (map pair) feats) =
    map (fun l => mask_of (map (fun o => bool_decide (is_Some o)) l)) feats) as ->.
  { rewrite map_map. apply map_ext. intros l. by rewrite map_map. }
  assert (map (map snd) (map (map pair) feats) = map (map (default 0)) feats) as ->.
  { rewrite map_map. apply map_ext. intros l. by rewrite map_map. }
  pdone.
Qed.

Lemma parses_seg st o pp : ok_opt seg_ok o -> parses (read_segmentation_params st pp) (write_seg o) (seg_params st o pp).
Proof.
  intros Ho. unfold read_segmentation_params. destruct o as [s|]; cbn [write_seg seg_params]; [|by pbit; pdone].
  destruct Ho as [Hm Hd]. pbit. cbn [negb]. eapply parses_bind; [by apply parses_seg_map|].
  eapply parses_last; [by apply parses_seg_data|]. pdone.
Qed.

(** ** Tiles *)

Lemma parses_tile_cols lo n : forall room, (n <= room)%nat ->
  parses (tile_cols_loop room lo) (replicate n true ++ (if bool_decide (n < room)%nat then [false] else [])) (lo + Z.of_nat n).
Proof.
  revert lo. induction n as [|n IH]; intros lo room Hn; destruct room as [|room]; try lia.
  - rewrite Z.add_0_r. pdone.
  - rewrite bool_decide_eq_true_2 by lia. simpl. pbit. rewrite Z.add_0_r. pdone.
  - simpl. pbit. assert (bool_decide (S n < S room)%nat = bool_decide (n < room)%nat) as -> by (apply bool_decide_ext; lia).
    replace (lo + Z.of_nat (S n)) with (lo + 1 + Z.of_nat n) by lia. apply IH. lia.
Qed.

Lemma tile_bounds_code pp : 0 <= width pp <= 2 ^ 31 ->
  (min_log2_tile_cols (Z.shiftr (u32 (width pp + 63)) 6), max_log2_tile_cols (Z.shiftr (u32 (width pp + 63)) 6)) = tile_bounds pp.
Proof. intros H. unfold tile_bounds. by rewrite u32_small, Z.shiftr_div_pow2 by lia. Qed.

Lemma parses_tiles pp t :
  0 <= width pp <= 2 ^ 31 -> tiles_ok pp t -> parses (read_tile_info pp) (write_tiles pp t) (tile_params t pp).
Proof.
  intros Hw Ht. unfold read_tile_info, write_tiles, tiles_ok in *. pose proof (tile_bounds_code pp Hw) as E.
  destruct (tile_bounds pp) as [lo hi]. injection E as -> ->. destruct Ht as (Hlo & Hhi & Hr). destruct t as [c r]. simpl in *.
  assert (parses (tile_cols_loop (Z.to_nat (hi - lo)) lo)
    (replicate (Z.to_nat (c - lo)) true ++ (if c <? hi then [false] else [])) c) as Hc.
  { pose proof (parses_tile_cols lo (Z.to_nat (c - lo)) (Z.to_nat (hi - lo))) as H.
    replace (lo + Z.of_nat (Z.to_nat (c - lo))) with c in H by lia.
    assert ((if c <? hi then [false] else []) = (if bool_decide (Z.to_nat (c - lo) < Z.to_nat (hi - lo))%nat then [false] else [])) as ->.
    { case_bool_decide; destruct (Z.ltb_spec c hi); (done || lia). }
    apply H. lia. }
  rewrite app_assoc. eapply parses_bind; [exact Hc|].
  assert (r = 0 \/ r = 1 \/ r = 2) as [-> | [-> | -> ] ] by lia; simpl; pbit.
  - eapply (parses_bind _ _ [] []); pdone.
  - eapply parses_last; [eapply parses_last; [apply parses_bit|pdone]|]. pdone.
  - eapply parses_last; [eapply parses_last; [apply parses_bit|pdone]|]. pdone.
Qed.

(** ** Early returns *)

Lemma parses_on_ok {A} (m : Parse (ParseResult * A)) k b1 b2 a x bits :
  parses m b1 (Ok, a) -> bits = b1 ++ b2 -> parses (k a) b2 x -> parses (on_ok m k) bits x.
Proof. intros Hm -> Hk. eapply parses_bind; [exact Hm|exact Hk]. Qed.

Lemma parses_check {A} (a : A) k bits x : parses k bits x -> parses (check_error a k) bits x.
Proof.
  intros Hk len r l Hr. unfold check_error, br_failed, mbind, Parse_bind.
  destruct Hr as [p [Hr Hp]]. rewrite (rw_error _ _ _ _ Hr). apply Hk. by exists p.
Qed.
Ltac pok H := eapply parses_on_ok; [eapply H|rewrite <- ?app_assoc; reflexivity|].

(** ** Colour and sizes *)

Lemma parses_color p c pp :
  0 <= p <= 2 -> color_ok c -> parses (read_color_config p pp) (write_color p c) (color_params p c pp).
Proof.
  intros Hp [Hs H12]. unfold read_color_config, write_color, color_params, odd_profile. rewrite H12.
  assert (parses (if 2 <=? p then t ← br_bit; mret (if truth t then 12 else 10) else mret 8)
    (if 2 <=? p then [false] else []) (if 2 <=? p then 10 else 8)) as Hd.
  { destruct (2 <=? p); [pbit|]; pdone. }
  pstep Hd. clear Hd. pstep (parses_u 3); [lia|done|].
  destruct (c_space c =? 7) eqn:E7; cbn [negb].
  - destruct ((p =? 1) || (p =? 3)); [pbit|]; pdone.
  - pbit. destruct ((p =? 1) || (p =? 3)); [do 3 pbit|]; pdone.
Qed.

Lemma parses_dims d pp : dims_ok d -> parses (read_frame_size pp) (write_dims d) (size_params d pp).
Proof.
  intros [Hw Hh]. unfold read_frame_size, write_dims, size_params. pstep (parses_u 16); [lia|done|].
  eapply parses_last; [by apply (parses_u 16); [lia|]|]. rewrite !Z.sub_add. pdone.
Qed.

Lemma parses_render o pp : ok_opt dims_ok o -> parses (read_render_size pp) (put_opt write_dims o) (render_params o pp).
Proof.
  intros Ho. unfold read_render_size. destruct o as [d|]; cbn [put_opt render_params]; pbit; [|pdone].
  destruct Ho as [Hw Hh]. unfold write_dims. pstep (parses_u 16); [lia|done|].
  eapply parses_last; [by apply (parses_u 16); [lia|]|]. rewrite !Z.sub_add. pdone.
Qed.

Lemma parses_sizes d o pp :
  dims_ok d -> ok_opt dims_ok o ->
  parses (read_sizes pp) (write_dims d ++ put_opt write_dims o) (Ok, render_params o (size_params d pp)).
Proof.
  intros Hd Ho. unfold read_sizes. pstep parses_dims; [done|]. eapply parses_last; [by apply parses_render|]. pdone.
Qed.

Lemma parses_sync pp : parses (read_sync pp) write_sync (Ok, pp).
Proof.
  unfold read_sync, write_sync. eapply parses_last; [apply (parses_u 24); [lia|]|].
  - unfold fits. split; [done|]. by vm_compute.
  - apply parses_check. pdone.
Qed.

(** ** References *)

Lemma find_ref_size_explicit st : forall refs pp,
  parses (find_ref_size st refs pp) (replicate (length refs) false) None.
Proof. induction refs as [|d refs IH]; intros pp; [pdone|]. simpl. pbit. apply IH. Qed.

Lemma find_ref_size_ref st : forall i refs d pp,
  refs !! i = Some d -> parses (find_ref_size st refs pp) (replicate i false ++ [true]) (copy_ref_size st (ref_index d) pp).
Proof.
  induction i as [|i IH]; intros [|d' refs] d pp Hi; try done; simpl.
  - injection Hi as ->. pbit. pdone.
  - pbit. by apply IH.
Qed.

Lemma copy_ref_size_of st refs i d pp rs :
  refs !! i = Some d -> fits 3 (ref_index d) -> ref_of st refs i = Some rs ->
  copy_ref_size st (ref_index d) pp = Some (size_params (width rs, height rs) pp).
Proof.
  intros Hi Hd Hr. unfold ref_of in Hr. rewrite Hi in Hr. simpl in Hr. unfold copy_ref_size.
  destruct (valid st !! Z.to_nat (ref_index d)) as [v|] eqn:Hv; [|done]. simpl in *.
  destruct (truth v); [|done]. unfold fits in Hd. simpl in Hd.
  destruct (Z.ltb_spec (ref_index d) (Z.of_nat kNumRefFrames)) as [?|Hge]; [|unfold kNumRefFrames in Hge; lia].
  rewrite Hr. done.
Qed.

Lemma parses_refs refs :
  length refs = kRefsPerFrame -> Forall (fun d => fits 3 (ref_index d) /\ fits 1 (sign_bias d)) refs ->
  parses (mapM (fun _ => read_ref) (seq 0 kRefsPerFrame)) (write_refs refs) refs.
Proof.
  intros Hl Hok. rewrite <- (map_id refs) at 2.
  eapply (parses_repeat _ _ (fun d => d)); [|rewrite length_seq; by symmetry|exact Hok].
  intros [i b] [Hi Hb]. unfold read_ref. pstep (parses_u 3); [lia|done|].
  eapply parses_last; [apply (parses_u 1); [lia|exact Hb]|]. pdone.
Qed.

Lemma parses_size_with_refs st s r pp :
  length (frame_refs pp) = kRefsPerFrame -> Forall (fun d => fits 3 (ref_index d) /\ fits 1 (sign_bias d)) (frame_refs pp) ->
  match s with ExplicitSize d => dims_ok d | RefSize i => is_Some (ref_of st (frame_refs pp) i) end ->
  ok_opt dims_ok r ->
  parses (read_frame_size_with_refs st pp) (write_size s ++ put_opt write_dims r)
    (render_params r (inter_size st (frame_refs pp) s pp)).
Proof.
  intros Hl Hok Hs Hr. unfold read_frame_size_with_refs. destruct s as [d|i]; cbn [write_size inter_size].
  - rewrite <- Hl. pstep (find_ref_size_explicit st (frame_refs pp)). pstep parses_dims; [done|]. by apply parses_render.
  - destruct Hs as [rs Hrs]. rewrite Hrs. cbn [from_option].
    destruct (frame_refs pp !! i) as [d|] eqn:Hi; [|unfold ref_of in Hrs; by rewrite Hi in Hrs].
    rewrite Forall_forall in Hok. destruct (Hok d) as [Hd _]; [by eapply list_elem_of_lookup_2|].
    pstep (find_ref_size_ref st i (frame_refs pp) d); [done|].
    rewrite (copy_ref_size_of st (frame_refs pp) i d pp rs) by done.
    eapply (parses_bind _ _ []); [pdone|]. by apply parses_render.
Qed.

(** ** Frames *)

Lemma parses_colour_or_error p c pp :
  0 <= p <= 2 -> profile pp = p -> color_ok c ->
  parses (colour_or_error pp) (write_color p c) (Ok, color_params p c pp).
Proof.
  intros Hp Hpp Hc. unfold colour_or_error. rewrite Hpp. eapply parses_last; [by apply parses_color|].
  assert ((bit_depth (color_params p c pp) =? 12) = false) as ->; [|pdone].
  unfold color_params. destruct (c_space c =? 7), (odd_profile p); simpl; by destruct (2 <=? p).
Qed.

Lemma parses_key p c d r pp :
  0 <= p <= 2 -> profile pp = p -> color_ok c -> dims_ok d -> ok_opt dims_ok r ->
  parses (read_key_frame pp) (write_sync ++ write_color p c ++ write_dims d ++ put_opt write_dims r)
    (Ok, (render_params r (size_params d (color_params p c pp))) <| refresh_frame_flags := 0xFF |>).
Proof.
  intros Hp Hpp Hc Hd Hr. unfold read_key_frame. pok parses_sync. pok (parses_colour_or_error p); [done..|].
  eapply parses_on_ok; [by apply parses_sizes|symmetry; apply app_nil_r|]. pdone.
Qed.

Lemma parses_intra_colour p c pp :
  0 <= p <= 2 -> profile pp = p -> color_ok c ->
  parses (intra_only_colour pp) (if 0 <? p then write_color p c else [])
    (Ok, if 0 <? p then color_params p c pp
         else pp <| bit_depth := 8 |> <| color_space := 1 |> <| color_range := 1 |>
                 <| subsampling_x := 1 |> <| subsampling_y := 1 |>).
Proof.
  intros Hp Hpp Hc. unfold intra_only_colour. rewrite Hpp.
  destruct (0 <? p); [by apply parses_colour_or_error|pdone].
Qed.

Lemma parses_intra_only p c flags d r pp :
  0 <= p <= 2 -> profile pp = p -> color_ok c -> fits 8 flags -> dims_ok d -> ok_opt dims_ok r ->
  parses (read_intra_only_frame pp)
    (write_sync ++ (if 0 <? p then write_color p c else []) ++ put 8 flags ++ write_dims d ++ put_opt write_dims r)
    (Ok, render_params r (size_params d ((if 0 <? p then color_params p c pp
         else pp <| bit_depth := 8 |> <| color_space := 1 |> <| color_range := 1 |>
                 <| subsampling_x := 1 |> <| subsampling_y := 1 |>) <| refresh_frame_flags := flags |>))).
Proof.
  intros Hp Hpp Hc Hf Hd Hr. unfold read_intra_only_frame. pok parses_sync. pok (parses_intra_colour p c); [done..|].
  pstep (parses_u 8); [lia|done|]. by apply parses_sizes.
Qed.

Lemma parses_filter o : ok_opt (fits 2) o ->
  parses (switchable ← br_bit; if truth switchable then mret 4 else br_u 2) (write_filter o) (default 4 o).
Proof.
  intros Ho. destruct o as [f|]; simpl; pbit; [|pdone]. by apply (parses_u 2); [lia|].
Qed.

Lemma parses_inter st flags refs s r hp filter pp :
  frame_ok st (InterFrame flags refs s r hp filter) ->
  parses (read_inter_frame st pp)
    (put 8 flags ++ write_refs refs ++ write_size s ++ put_opt write_dims r ++ [hp] ++ write_filter filter)
    (Ok, (render_params r (inter_size st refs s (pp <| refresh_frame_flags := flags |> <| frame_refs := refs |>)))
           <| allow_high_precision_mv := b2z hp |> <| interp_filter := default 4 filter |>).
Proof.
  intros (Hf & Hl & Hok & Hs & Hr & Hfi). unfold read_inter_frame.
  pstep (parses_u 8); [lia|done|]. pstep parses_refs; [done..|].
  rewrite (app_assoc (write_size s)).
  eapply parses_bind; [apply parses_size_with_refs; done|]. pbit.
  destruct filter as [f|]; simpl; pbit.
  - eapply parses_last; [apply (parses_u 2); [lia|exact Hfi]|]. pdone.
  - eapply (parses_bind _ _ [] []); pdone.
Qed.

Lemma parses_frame_header st h pp :
  header_ok st h -> profile pp = h_profile h ->
  let pp1 := pp <| frame_type := b2z (negb (is_key (h_frame h))) |> <| show_frame := b2z (h_show h) |>
                <| error_resilient_mode := b2z (h_resilient h) |> in
  let pp2 := if is_key (h_frame h) then pp1
             else pp1 <| intra_only := b2z (is_intra_only (h_frame h)) |>
                      <| reset_frame_context := if h_resilient h then 0 else h_reset h |> in
  parses (read_frame_header st pp)
    ([negb (is_key (h_frame h)); h_show h; h_resilient h] ++ write_intro h ++ write_frame (h_profile h) (h_frame h))
    (Ok, frame_params st (h_profile h) (h_frame h) pp2).
Proof.
  intros [Hp Hi Hre Hf _ _ _ _ _ _] Hpp pp1 pp2. unfold read_frame_header, write_intro.
  eapply (parses_step _ _ [_]); [apply parses_bit|reflexivity|].
  eapply (parses_step _ _ [_]); [apply parses_bit|reflexivity|].
  eapply (parses_step _ _ [_]); [apply parses_bit|reflexivity|]. fold pp1.
  destruct (is_key (h_frame h)) eqn:Hk; simpl negb; simpl b2z; cbv iota.
  - destruct (h_frame h) as [c d r| |] eqn:Ef; try done. destruct Hf as (? & ? & ?).
    simpl app. by apply parses_key.
  - change (b2z true =? 0) with false. cbv iota. unfold read_non_key_frame.
    change (show_frame pp1) with (b2z (h_show h)). change (error_resilient_mode pp1) with (b2z (h_resilient h)).
    rewrite !truth_b2z.
    assert (parses (if negb (h_show h) then br_bit else mret 0)
      (if h_show h then [] else [is_intra_only (h_frame h)]) (b2z (is_intra_only (h_frame h)))) as Hintra.
    { destruct (h_show h); simpl; [|apply parses_bit]. destruct (is_intra_only (h_frame h)); [by specialize (Hi eq_refl)|pdone]. }
    assert (parses (if negb (h_resilient h) then br_u 2 else mret 0)
      (if h_resilient h then [] else put 2 (h_reset h)) (if h_resilient h then 0 else h_reset h)) as Hreset.
    { destruct (h_resilient h); simpl; [pdone|]. by apply (parses_u 2); [lia|]. }
    pstep Hintra. pstep Hreset. rewrite truth_b2z. fold pp2.
    destruct (h_frame h) as [|c flags d r|flags refs s r hp filter] eqn:Ef; try done; simpl is_intra_only; cbv iota.
    + destruct Hf as (? & ? & ? & ?). by apply parses_intra_only.
    + by apply parses_inter.
Qed.

(** ** The whole header *)

(** What the frame sections leave alone. *)
Lemma color_params_keep p c pp :
  frame_type (color_params p c pp) = frame_type pp /\ intra_only (color_params p c pp) = intra_only pp /\
  error_resilient_mode (color_params p c pp) = error_resilient_mode pp.
Proof. unfold color_params. by destruct (c_space c =? 7), (odd_profile p). Qed.

Lemma frame_params_keep st p f pp :
  frame_type (frame_params st p f pp) = frame_type pp /\ intra_only (frame_params st p f pp) = intra_only pp /\
  error_resilient_mode (frame_params st p f pp) = error_resilient_mode pp.
Proof.
  destruct f as [c d r|c flags d r|flags refs s r hp filter]; simpl.
  - pose proof (color_params_keep p c pp). destruct r; simpl; done.
  - pose proof (color_params_keep p c pp). destruct r; simpl; by destruct (0 <? p).
  - unfold inter_size. destruct r, s; simpl; try done; by destruct (ref_of st refs _).
Qed.

Lemma frame_params_width st p f pp :
  frame_ok st f -> state_ok st -> 0 <= width (frame_params st p f pp) <= 2 ^ 31.
Proof.
  intros Hf (_ & _ & Hw). rewrite Forall_forall in Hw. unfold frame_params.
  destruct f as [c d r|c flags d r|flags refs s r hp filter]; simpl in Hf; unfold dims_ok, fits in *.
  - destruct r; simpl; lia.
  - destruct r; simpl; lia.
  - destruct Hf as (_ & _ & _ & Hs & _).
    assert (0 <= width (inter_size st refs s (pp <| refresh_frame_flags := flags |> <| frame_refs := refs |>)) <= 2 ^ 31) as H.
    { destruct s as [d|i]; simpl; [lia|]. destruct Hs as [rs Hrs]. rewrite Hrs. simpl.
      unfold ref_of in Hrs. destruct (refs !! i); simpl in Hrs; [|done]. destruct (valid st !! _); simpl in Hrs; [|done].
      destruct (truth _); [|done]. apply list_elem_of_lookup_2, Hw in Hrs. lia. }
    by destruct r.
Qed.

Lemma seg_params_width st o pp : width (seg_params st o pp) = width pp.
Proof. by destruct o. Qed.
Lemma lf_params_width st b s pp : width (lf_params st b s pp) = width pp.
Proof. unfold lf_params. by destruct (s_enabled s), (s_update s). Qed.

Lemma parses_common st h pp :
  header_ok st h -> state_ok st -> pp = frame_header_params st h ->
  parses (read_common st pp)
    (write_ctx h ++ write_lf (h_lf h) ++ write_quant (h_quant h) ++ write_seg (h_seg h) ++
     write_tiles (syntax_params st h) (h_tiles h))
    (syntax_params st h).
Proof.
  intros [Hp Hi _ Hf Hctx Hlf Hq Hs Ht _] Hst ->. unfold read_common, write_ctx.
  set (pp0 := first_params st h).
  set (pp1 := if is_key (h_frame h) then pp0
            else pp0 <| intra_only := b2z (is_intra_only (h_frame h)) |>
                    <| reset_frame_context := if h_resilient h then 0 else h_reset h |>).
  change (frame_header_params st h) with (frame_params st (h_profile h) (h_frame h) pp1) in *.
  destruct (frame_params_keep st (h_profile h) (h_frame h) pp1) as (Ety & Ein & Eer).
  pose proof (frame_params_width st (h_profile h) (h_frame h) pp1 Hf Hst) as Hw.
  assert (error_resilient_mode pp1 = b2z (h_resilient h)) as Eer1 by (unfold pp1; by destruct (is_key (h_frame h))).
  assert ((frame_type pp1 =? 0) || truth (intra_only pp1) = resets_lf h) as Ereset.
  { unfold resets_lf, pp1, pp0, first_params. destruct (is_key (h_frame h)); [done|]. simpl. by rewrite truth_b2z. }
  rewrite Eer, Eer1, truth_b2z.
  assert (parses (if negb (h_resilient h) then br_bit else mret 0) (if h_resilient h then [] else [h_refresh_ctx h])
    (if h_resilient h then 0 else b2z (h_refresh_ctx h))) as H1.
  { destruct (h_resilient h); simpl; [pdone|apply parses_bit]. }
  assert (parses (if negb (h_resilient h) then br_bit else mret 1) (if h_resilient h then [] else [h_parallel h])
    (if h_resilient h then 1 else b2z (h_parallel h))) as H2.
  { destruct (h_resilient h); simpl; [pdone|apply parses_bit]. }
  replace (if h_resilient h then [] else [h_refresh_ctx h; h_parallel h]) with
    ((if h_resilient h then [] else [h_refresh_ctx h]) ++ (if h_resilient h then [] else [h_parallel h])) by by destruct (h_resilient h).
  pstep H1. pstep H2. pstep (parses_u 2); [lia|done|].
  fold (ctx_params h (frame_params st (h_profile h) (h_frame h) pp1)).
  match goal with |- context [read_loop_filter_params st ?b] =>
    replace b with (resets_lf h) by (rewrite <- Ereset, <- Ety, <- Ein; reflexivity) end.
  pstep parses_lf; [done|by destruct Hst as (? & _)|by destruct Hst as (_ & ? & _)|].
  pstep parses_quant; [done|]. pstep parses_seg; [done|].
  set (pre := seg_params st _ _).
  change (parses (read_tile_info pre) (write_tiles pre (h_tiles h)) (tile_params (h_tiles h) pre)).
  apply parses_tiles; [|exact Ht]. unfold pre. rewrite seg_params_width.
  change (0 <= width (lf_params st (resets_lf h) (h_lf h) (ctx_params h (frame_params st (h_profile h) (h_frame h) pp1))) <= 2 ^ 31).
  rewrite lf_params_width. exact Hw.
Qed.

(** The size field, the alignment and the position. *)
Lemma header_size_ok len r pp v l :
  reads_at len r (put 16 v ++ l) -> fits 16 v -> Z.of_nat len < 2 ^ 32 ->
  (read_header_size len pp r).1 =
    (Ok, pp <| header_size := v |> <| uncompressed_header_size := Z.of_nat len - Z.of_nat (length l) / 8 |>
            <| frame_size := u32 (Z.of_nat len) |>).
Proof.
  intros Hr Hv Hlen. destruct (parses_u 16 v ltac:(lia) Hv len r l Hr) as (r1 & E1 & p & Hr1 & Hp).
  pose proof Hr as (p0 & Hr0 & _). unfold read_header_size, check_error, br_failed, mbind, Parse_bind.
  rewrite (rw_error _ _ _ _ Hr0). change 16 with (Z.of_nat 16). rewrite E1. cbv zeta.
  pose proof Hr1 as [He Hu Hbl _ _ Hle]. rewrite He. unfold br_byte_align, br_byte_pos. cbv zeta.
  assert (length l = length p + 8 * length (br_rest r1))%nat as El by by rewrite Hu, length_app, length_to_bits.
  change 7 with (Z.ones 3). rewrite Z.land_ones by lia. change (2 ^ 3) with 8. rewrite Hbl, Z.mod_small by lia.
  assert (Z.of_nat (length l) / 8 = Z.of_nat (length (br_rest r1))) as Ediv by zdm.
  set (r2 := if negb (Z.of_nat (length p) =? 0) then _ else r1).
  assert (br_fetched r2 = br_fetched r1 /\ br_bits_left r2 = 0 /\ br_error r2 = false) as (Ef & Eb & Ee).
  { unfold r2. destruct (Z.eqb_spec (Z.of_nat (length p)) 0); simpl; split_and!; (done || lia). }
  rewrite Ef, Eb, Ee, Ediv. change (0 / 8) with 0. destruct (Z.leb_spec 0 (Z.of_nat (br_fetched r1))); [|lia].
  rewrite (u32_small (Z.of_nat (br_fetched r1) - 0)) by lia. simpl fst.
  replace (Z.of_nat len - Z.of_nat (length (br_rest r1))) with (Z.of_nat (br_fetched r1) - 0) by lia. done.
Qed.

Lemma parses_profile st p :
  0 <= p <= 2 ->
  parses (read_profile st) (put 2 2 ++ [Z.testbit p 0; Z.testbit p 1])
    (Ok, zero_params <| bit_depth := if truth (last_bit_depth st) then last_bit_depth st else 8 |> <| profile := p |>).
Proof.
  intros Hp. unfold read_profile. pstep (parses_u 2); [lia|by unfold fits|]. apply parses_check. simpl negb. cbv iota.
  eapply (parses_step _ _ [_]); [apply parses_bit|reflexivity|].
  eapply (parses_step _ _ [_]); [apply parses_bit|reflexivity|].
  assert (p = 0 \/ p = 1 \/ p = 2) as [-> | [-> | -> ] ] by lia; pdone.
Qed.

(** The parameters when the fields start. *)
Definition start_params (st : ParserState) (p : Z) (existing : bool) : PicParams :=
  zero_params <| bit_depth := if truth (last_bit_depth st) then last_bit_depth st else 8 |>
              <| profile := p |> <| show_existing_frame := b2z existing |>.

Lemma parses_fields st h :
  header_ok st h -> state_ok st ->
  parses (read_fields st (start_params st (h_profile h) false)) (write_fields st h) (Ok, syntax_params st h).
Proof.
  intros Hh Hst. unfold read_fields, write_fields.
  eapply parses_on_ok; [by apply (parses_frame_header st h)|by rewrite <- !app_assoc|].
  apply parses_check. eapply parses_last; [by apply (parses_common st h)|]. pdone.
Qed.

Lemma run_step {A} (m : Parse A) b a len r l l0 :
  reads_at len r l0 -> parses m b a -> l0 = b ++ l -> exists r', m r = (a, r') /\ reads_at len r' l.
Proof. intros Hr Hm ->. by apply Hm. Qed.

Lemma run_check {A} (a : A) k len r l : reads_at len r l -> check_error a k r = k r.
Proof. intros (p & Hr & _). unfold check_error, br_failed, mbind, Parse_bind. by rewrite (rw_error _ _ _ _ Hr). Qed.

Lemma uncompressed_start st p existing len r l :
  0 <= p <= 2 -> reads_at len r (write_start p existing ++ l) ->
  exists r', reads_at len r' l /\
    uncompressed_header st len r =
      (if existing then read_show_existing (start_params st p existing) r'
       else on_ok (read_fields st (start_params st p existing)) (read_header_size len) r').
Proof.
  intros Hp Hr. unfold write_start in Hr. rewrite <- !app_assoc in Hr.
  unfold uncompressed_header. unfold on_ok at 1. unfold mbind, Parse_bind.
  edestruct (run_step (read_profile st)) as (r1 & -> & H1); [exact Hr|by apply (parses_profile st p)|by rewrite <- app_assoc|].
  edestruct (run_step br_bit) as (r2 & E2 & H2); [exact H1|apply (parses_bit existing)|reflexivity|].
  cbv beta iota. rewrite E2, truth_b2z. exists r2. split; [done|]. by destruct existing.
Qed.

Lemma header_parsed st h frame rest pp0 :
  header_ok st h -> state_ok st -> Forall is_byte frame -> Z.of_nat (length frame) < 2 ^ 32 ->
  to_bits frame = write_header st h ++ rest ->
  parse_uncompressed_header frame st pp0 = (Ok, header_params st h (length (write_header st h)) (length frame)).
Proof.
  intros Hh Hst Hby Hlen Hbits. pose proof (reader_reads frame Hby) as Hr. rewrite Hbits in Hr.
  assert (8 * length frame = length (write_header st h) + length rest)%nat as Hl
    by (rewrite <- length_to_bits, Hbits; apply length_app).
  assert (parse_uncompressed_header frame st pp0 = (uncompressed_header st (length frame) (reader frame)).1) as ->.
  { destruct frame; [|done]. exfalso. unfold write_header, write_start in Hl. rewrite !length_app, length_put in Hl. simpl in Hl. lia. }
  unfold write_header in Hr. rewrite <- !app_assoc in Hr. pose proof (ok_profile _ _ Hh) as Hp.
  destruct (uncompressed_start st _ false _ _ _ Hp Hr) as (r2 & H2 & ->).
  unfold on_ok, mbind, Parse_bind.
  edestruct (run_step (read_fields st (start_params st (h_profile h) false))) as (r4 & -> & H4);
    [exact H2|by apply parses_fields|reflexivity|].
  cbv beta iota. rewrite (header_size_ok _ _ _ _ _ H4) by (by apply Hh || done).
  unfold header_params. replace ((Z.of_nat (length (write_header st h)) + 7) / 8) with
    (Z.of_nat (length frame) - Z.of_nat (length rest) / 8) by zdm. done.
Qed.

(** show_existing_frame: one byte. *)
Lemma show_existing_parsed st p idx frame rest pp0 :
  0 <= p <= 2 -> fits 3 idx -> Forall is_byte frame -> to_bits frame = write_start p true ++ put 3 idx ++ rest ->
  parse_uncompressed_header frame st pp0 =
    (Ok, (start_params st p true) <| show_existing_frame_idx := idx |> <| uncompressed_header_size := 1 |>
           <| header_size := 0 |>).
Proof.
  intros Hp Hi Hby Hbits. pose proof (reader_reads frame Hby) as Hr. rewrite Hbits in Hr.
  assert (8 * length frame = 8 + length rest)%nat as Hl.
  { rewrite <- length_to_bits, Hbits. unfold write_start. by rewrite !length_app, !length_put. }
  assert (parse_uncompressed_header frame st pp0 = (uncompressed_header st (length frame) (reader frame)).1) as ->.
  { by destruct frame. }
  destruct (uncompressed_start st p true _ _ _ Hp Hr) as (r2 & H2 & ->).
  unfold read_show_existing, mbind, Parse_bind.
  edestruct (run_step (br_u (Z.of_nat 3))) as (r4 & E4 & H4); [exact H2|by apply (parses_u 3); [lia|]|reflexivity|].
  change (br_u 3 r2) with (br_u (Z.of_nat 3) r2). rewrite E4. cbv beta iota zeta. rewrite (run_check _ _ _ _ _ H4).
  destruct H4 as (p4 & [He Hu Hbl _ _ Hle] & Hp4). unfold br_byte_pos, br_failed. cbv zeta. rewrite He. 
  assert (length rest = length p4 + 8 * length (br_rest r4))%nat as El by by rewrite Hu, length_app, length_to_bits.
  assert (length p4 = 0)%nat as Ep by lia. rewrite Hbl, Ep. change (Z.of_nat 0 / 8) with 0.
  replace (br_fetched r4) with 1%nat by lia. done.
Qed.
