(* ===== verification/Vp9ParserLocal.v ===== *)
(** * The VP9 header parser reads real bits only

    [local m]: once the reader has failed it stays failed; a parse that does not fail
    has consumed bits of the frame, and gives the same result on any reader that
    starts with these bits.  So a header that is cut off is never accepted, and an
    accepted header lies inside the frame. *)

From S2P Require Import Prelude Bits Vp9Bool Vp9Parser Vp9Syntax Vp9ParserFacts.

Definition local {A} (m : Parse A) : Prop :=
  (forall r, br_error r = true -> br_error (m r).2 = true) /\
  (forall len r l, reads_at len r l ->
    br_error (m r).2 = true \/
    exists c l', l = c ++ l' /\ reads_at len (m r).2 l' /\ parses m c (m r).1).

Lemma local_ret {A} (a : A) : local (mret a).
Proof. split; [done|]. intros len r l Hr. right. exists [], l. split; [done|]. split; [done|]. apply parses_ret. Qed.

Lemma local_bind {A B} (m : Parse A) (k : A -> Parse B) :
  local m -> (forall a, local (k a)) -> local (m ≫= k).
Proof.
  intros [Hs Hm] Hk. assert (forall r, ((m ≫= k) r).2 = (k (m r).1 (m r).2).2) as E2.
  { intros r. unfold mbind, Parse_bind. by destruct (m r). }
  assert (forall r, ((m ≫= k) r).1 = (k (m r).1 (m r).2).1) as E1.
  { intros r. unfold mbind, Parse_bind. by destruct (m r). }
  split.
  - intros r He. rewrite E2. by apply (Hk (m r).1), Hs.
  - intros len r l Hr. rewrite E1, E2. destruct (Hm _ _ _ Hr) as [He|(c & l' & -> & Hr' & Hp)].
    + left. by apply (Hk (m r).1).
    + destruct (proj2 (Hk (m r).1) _ _ _ Hr') as [He|(c' & l'' & -> & Hr'' & Hp')]; [by left|].
      right. exists (c ++ c'), l''. split; [by rewrite app_assoc|]. split; [done|]. by eapply parses_bind.
Qed.

Lemma local_u n : (1 <= n <= 32)%nat -> local (br_u (Z.of_nat n)).
Proof.
  intros Hn. split.
  - intros r He. by destruct (br_u_sticky (Z.of_nat n) r He) as (r' & -> & ?).
  - intros len r l Hr. destruct (decide (n <= length l)%nat) as [Hl|Hl].
    + right. destruct (br_u_ok _ _ _ n Hr) as (r' & E & Hr'); [done|done|]. rewrite E.
      exists (take n l), (drop n l). split; [by rewrite take_drop|]. split; [done|]. simpl.
      intros len2 r2 l2 Hr2. destruct (br_u_ok _ _ _ n Hr2) as (r2' & E2 & Hr2').
      { done. } { rewrite length_app, length_take. lia. }
      exists r2'. split.
      * rewrite E2. f_equal. rewrite window_app by (rewrite length_take; lia).
        rewrite <- (take_drop n l) at 2. by rewrite window_app by (rewrite length_take; lia).
      * rewrite drop_app_le in Hr2' by (rewrite length_take; lia).
        by rewrite drop_ge in Hr2' by (rewrite length_take; lia).
    + left. destruct (br_u_fail _ _ _ n Hr) as (r' & -> & ?); [lia|done].
Qed.
Lemma local_bit : local br_bit.
Proof. apply (local_u 1). lia. Qed.

Lemma local_mapM {X B} (f : X -> Parse B) xs : (forall x, local (f x)) -> local (mapM f xs).
Proof.
  intros Hf. induction xs as [|x xs IH]; [apply local_ret|]. apply local_bind; [done|]. intros y.
  apply local_bind; [done|]. intros ys. apply local_ret.
Qed.

Create HintDb local discriminated.
#[export] Hint Resolve local_ret local_bit : local.
Ltac loc :=
  repeat (cbv zeta;
    match goal with
    | |- local _ => solve [auto with local]
    | |- local (if ?b then _ else _) => destruct b
    | |- local (match ?x with _ => _ end) => destruct x
    | |- local (br_u 2) => apply (local_u 2); lia
    | |- local (br_u 3) => apply (local_u 3); lia
    | |- local (br_u 4) => apply (local_u 4); lia
    | |- local (br_u 6) => apply (local_u 6); lia
    | |- local (br_u 8) => apply (local_u 8); lia
    | |- local (br_u 16) => apply (local_u 16); lia
    | |- local (br_u 24) => apply (local_u 24); lia
    | |- local (mbind (M := Parse) _ _) => apply local_bind; [|intros ?]
    | |- local (mapM _ _) => apply local_mapM; intros ?
    end).

Lemma local_su n : (1 <= n <= 32)%nat -> local (br_su (Z.of_nat n)).
Proof. intros Hn. unfold br_su. apply local_bind; [by apply local_u|]. intros. loc. Qed.
Lemma local_su6 : local (br_su 6).
Proof. apply (local_su 6). lia. Qed.
Lemma local_su4 : local (br_su 4).
Proof. apply (local_su 4). lia. Qed.
Lemma local_su8 : local (br_su 8).
Proof. apply (local_su 8). lia. Qed.
#[export] Hint Resolve local_su8 local_su6 local_su4 : local.

Lemma local_on_ok {A} (m : Parse (ParseResult * A)) k :
  local m -> (forall a, local (k a)) -> local (on_ok m k).
Proof. intros Hm Hk. unfold on_ok. apply local_bind; [done|]. intros [[] a]; [apply Hk|apply local_ret..]. Qed.

Lemma local_check {A} (a : A) k : local k -> local (check_error a k).
Proof.
  intros [Hs Hk]. unfold check_error, br_failed. split.
  - intros r He. unfold mbind, Parse_bind. by rewrite He.
  - intros len r l Hr. pose proof (run_check a k _ _ _ Hr) as E. unfold check_error, br_failed in E. rewrite E.
    destruct (Hk _ _ _ Hr) as [He|(c & l' & -> & Hr' & Hp)]; [by left|]. right. exists c, l'.
    split; [done|]. split; [done|]. by apply (parses_check a).
Qed.
#[export] Hint Resolve local_on_ok local_check : local.

Lemma local_color p pp : local (read_color_config p pp).
Proof. unfold read_color_config. loc. Qed.
Lemma local_frame_size pp : local (read_frame_size pp).
Proof. unfold read_frame_size. loc. Qed.
Lemma local_render_size pp : local (read_render_size pp).
Proof. unfold read_render_size. loc. Qed.
Lemma local_find_ref st : forall refs pp, local (find_ref_size st refs pp).
Proof. induction refs as [|d refs IH]; intros pp; simpl; loc. Qed.
#[export] Hint Resolve local_color local_frame_size local_render_size local_find_ref : local.
Lemma local_size_refs st pp : local (read_frame_size_with_refs st pp).
Proof. unfold read_frame_size_with_refs. loc. Qed.
Lemma local_lf st b pp : local (read_loop_filter_params st b pp).
Proof. unfold read_loop_filter_params, read_delta. loc. Qed.
Lemma local_quant pp : local (read_quantization_params pp).
Proof. unfold read_quantization_params, read_delta_q. loc. Qed.
Lemma local_feature f : In f kSegFeatures -> local (read_feature f).
Proof.
  intros Hf. destruct Hf as [<- | [<- | [<- | [<- | [] ] ] ] ]; unfold read_feature; simpl; loc.
Qed.
Lemma local_features : local (mapM read_feature kSegFeatures).
Proof.
  assert (Forall (fun f => local (read_feature f)) kSegFeatures) as H.
  { apply Forall_forall. intros f Hf. by apply local_feature, list_elem_of_In. }
  induction H as [|f fs Hf H IH]; [apply local_ret|]. apply local_bind; [done|]. intros. loc.
Qed.
#[export] Hint Resolve local_size_refs local_lf local_quant local_features : local.
Lemma local_seg st pp : local (read_segmentation_params st pp).
Proof.
  unfold read_segmentation_params, read_seg_map, read_seg_data, read_prob.
  loc.
Qed.
Lemma local_tile_cols : forall room c, local (tile_cols_loop room c).
Proof. induction room as [|room IH]; intros c; simpl; loc. Qed.
#[export] Hint Resolve local_seg local_tile_cols : local.
Lemma local_tiles pp : local (read_tile_info pp).
Proof. unfold read_tile_info. loc. Qed.
#[export] Hint Resolve local_tiles : local.

Lemma local_sync pp : local (read_sync pp).
Proof. unfold read_sync. loc. Qed.
Lemma local_colour_or_error pp : local (colour_or_error pp).
Proof. unfold colour_or_error. loc. Qed.
Lemma local_sizes pp : local (read_sizes pp).
Proof. unfold read_sizes. loc. Qed.
#[export] Hint Resolve local_sync local_colour_or_error local_sizes : local.

Lemma local_frame_header st pp : local (read_frame_header st pp).
Proof.
  unfold read_frame_header, read_key_frame, read_non_key_frame, read_intra_only_frame, intra_only_colour,
    read_inter_frame, read_ref.
  loc; repeat (apply local_on_ok; [|intros ?]; loc).
Qed.
Lemma local_common st pp : local (read_common st pp).
Proof. unfold read_common. loc. Qed.
Lemma local_fields st pp : local (read_fields st pp).
Proof.
  unfold read_fields. apply local_on_ok; [apply local_frame_header|]. intros a. apply local_check.
  apply local_bind; [apply local_common|]. intros. apply local_ret.
Qed.
Lemma local_profile st : local (read_profile st).
Proof. unfold read_profile. loc; apply local_check; loc. Qed.

(** ** Consequences for the whole header *)

(** Every bit string has a reader. *)
Lemma reader_of l : exists len r, reads_at len r l.
Proof.
  set (q := (length l mod 8)%nat). assert (q < 8)%nat as Hq by (apply Nat.mod_upper_bound; lia).
  assert (q <= length l)%nat as Hql by (apply Nat.Div0.mod_le).
  exists (length (of_bits (drop q l))), (MkBitReader (of_bits (drop q l)) 0
    (window (take q l) q * 2 ^ (64 - Z.of_nat q)) (Z.of_nat q) false 0), (take q l).
  assert (length (take q l) = q) as Ht by (rewrite length_take; lia).
  split; [|by rewrite Ht]. split; simpl; rewrite ?Ht; try done; [|apply of_bits_bytes].
  rewrite to_of_bits; [by rewrite take_drop|]. rewrite length_drop.
  pose proof (Nat.div_mod_eq (length l) 8) as E. fold q in E. replace (length l - q)%nat with (length l / 8 * 8)%nat by lia.
  apply Nat.Div0.mod_mul.
Qed.

(** Two parses of the same reader consume the same bits. *)
Lemma parses_unique {A} (m : Parse A) b1 b2 a1 a2 l1 l2 :
  parses m b1 a1 -> parses m b2 a2 -> b1 ++ l1 = b2 ++ l2 -> length b1 = length b2 /\ a1 = a2.
Proof.
  intros H1 H2 E. destruct (reader_of (b1 ++ l1)) as (len & r & Hr).
  destruct (H1 _ _ _ Hr) as (r1 & E1 & Hr1). rewrite E in Hr. destruct (H2 _ _ _ Hr) as (r2 & E2 & Hr2).
  rewrite E1 in E2. injection E2 as <- <-. split; [|done].
  destruct Hr1 as (p1 & [_ Hu1 Hb1 _ _ _] & _), Hr2 as (p2 & [_ Hu2 Hb2 _ _ _] & _).
  assert (length l1 = length l2) as El.
  { rewrite Hu1, Hu2, !length_app. rewrite Hb1 in Hb2. lia. }
  apply (f_equal length) in E. rewrite !length_app in E. lia.
Qed.

Lemma read_header_size_error len pp r : br_error r = true -> (read_header_size len pp r).1 = (NeedMoreData, pp).
Proof. intros He. unfold read_header_size, check_error, br_failed, mbind, Parse_bind. by rewrite He. Qed.

Lemma read_header_size_short len pp r l :
  reads_at len r l -> (length l < 16)%nat -> (read_header_size len pp r).1.1 = NeedMoreData.
Proof.
  intros Hr Hl. destruct (br_u_fail _ _ _ 16 Hr Hl) as (r' & E & He).
  unfold read_header_size, check_error, br_failed, mbind, Parse_bind. destruct Hr as (p & [Hne _ _ _ _ _] & _). rewrite Hne.
  change 16 with (Z.of_nat 16). rewrite E. by rewrite He.
Qed.

(** A header cut off anywhere is not accepted. *)
Lemma header_cut st h frame more pp0 :
  header_ok st h -> state_ok st -> Forall is_byte frame -> more <> [] ->
  write_header st h = to_bits frame ++ more -> (parse_uncompressed_header frame st pp0).1 <> Ok.
Proof.
  intros Hh Hst Hby Hmore Hbits. destruct frame as [|b frame]; [done|].
  change (parse_uncompressed_header (b :: frame) st pp0) with (uncompressed_header st (length (b :: frame)) (reader (b :: frame))).1.
  pose proof (reader_reads (b :: frame) Hby) as Hr. set (bits := to_bits (b :: frame)) in *.
  assert (8 <= length bits)%nat as H8 by (unfold bits; rewrite length_to_bits; simpl; lia).
  assert (length (write_start (h_profile h) false) = 5%nat) as Hstart by (unfold write_start; by rewrite !length_app, length_put).
  unfold write_header in Hbits. assert (bits = write_start (h_profile h) false ++ drop 5 bits) as Eb.
  { rewrite <- (take_drop 5 bits) at 1. f_equal. apply (f_equal (take 5)) in Hbits.
    rewrite <- Hstart in Hbits at 1. rewrite take_app_length in Hbits. rewrite take_app_le in Hbits by lia. done. }
  rewrite Eb in Hr. destruct (uncompressed_start st _ false _ _ _ (ok_profile _ _ Hh) Hr) as (r2 & H2 & ->).
  assert (write_fields st h ++ put 16 (h_size h) = drop 5 bits ++ more) as Hf.
  { rewrite Eb in Hbits. rewrite <- app_assoc in Hbits. by apply app_inv_head in Hbits. }
  unfold on_ok, mbind, Parse_bind.
  destruct (proj2 (local_fields st (start_params st (h_profile h) false)) _ _ _ H2) as [He|(c & l' & El & Hr' & Hp)].
  - destruct (read_fields st (start_params st (h_profile h) false) r2) as [[[] a] r3]; [|done|done].
    by rewrite read_header_size_error.
  - destruct (parses_unique _ _ _ _ _ (l' ++ more) (put 16 (h_size h)) Hp (parses_fields st h Hh Hst)) as [Hlc Hres].
    { by rewrite Hf, El, <- app_assoc. }
    destruct (read_fields st (start_params st (h_profile h) false) r2) as [res r3]. simpl in Hres, Hr'. rewrite Hres.
    rewrite (read_header_size_short _ _ _ _ Hr'); [done|].
    apply (f_equal length) in Hf. rewrite El, (length_app (write_fields st h)), length_put, !(length_app _ more), (length_app c) in Hf.
    assert (0 < length more)%nat by (destruct more; [done|simpl; lia]). lia.
Qed.

(** The position of a reader that has not failed is inside the frame. *)
Lemma byte_pos_inside len r l : reads_at len r l -> Z.of_nat len < 2 ^ 32 -> 0 <= (br_byte_pos r).1 <= Z.of_nat len.
Proof.
  intros (p & [_ _ Hbl _ _ Hle] & Hp) Hlen. unfold br_byte_pos. simpl.
  rewrite Hbl, Z.div_small by lia. destruct (Z.leb_spec 0 (Z.of_nat (br_fetched r))); [|lia].
  rewrite u32_small; lia.
Qed.

Definition inside (len : nat) (x : ParseResult * PicParams) : Prop :=
  x.1 = Ok -> 0 <= uncompressed_header_size x.2 <= Z.of_nat len.

Lemma header_size_inside len r pp l :
  reads_at len r l -> Z.of_nat len < 2 ^ 32 -> inside len (read_header_size len pp r).1.
Proof.
  intros Hr Hlen. destruct (decide (length l < 16)%nat) as [Hl|Hl].
  - intros Hok. by rewrite (read_header_size_short _ _ _ _ Hr Hl) in Hok.
  - intros _. assert (fits 16 (window l 16)) as Hw by (exact (window_range l 16)).
    assert (l = put 16 (window l 16) ++ drop 16 l) as El by by rewrite put_of_window, take_drop by lia.
    pose proof Hr as (p & [_ Hu _ _ _ Hle] & Hp). apply (f_equal length) in Hu. rewrite length_app, length_to_bits in Hu.
    rewrite El in Hr. rewrite (header_size_ok _ _ _ _ _ Hr Hw Hlen). simpl. rewrite length_drop. zdm.
Qed.

(** A parse of a frame of [len] bytes that is not accepted once the reader has failed,
    and otherwise ends inside. *)
Definition checked (len : nat) (m : Parse (ParseResult * PicParams)) : Prop :=
  (forall r, br_error r = true -> (m r).1.1 <> Ok) /\
  (forall r l, reads_at len r l -> inside len (m r).1).

Lemma checked_bind {A} len (m : Parse A) k : local m -> (forall a, checked len (k a)) -> checked len (m ≫= k).
Proof.
  intros [Hs Hm] Hk. assert (forall r, ((m ≫= k) r).1 = (k (m r).1 (m r).2).1) as E.
  { intros r. unfold mbind, Parse_bind. by destruct (m r). }
  split.
  - intros r He. rewrite E. by apply Hk, Hs.
  - intros r l Hr. rewrite E. destruct (Hm _ _ _ Hr) as [He|(c & l' & _ & Hr' & _)].
    + intros Hok. by apply Hk in Hok.
    + by eapply Hk.
Qed.
Lemma checked_on_ok len (m : Parse (ParseResult * PicParams)) k :
  local m -> (forall a, checked len (k a)) -> checked len (on_ok m k).
Proof. intros Hm Hk. apply checked_bind; [done|]. intros [[] a]; [apply Hk|by split..]. Qed.

Lemma checked_show_existing len pp : Z.of_nat len < 2 ^ 32 -> checked len (read_show_existing pp).
Proof.
  intros Hlen. apply checked_bind; [apply (local_u 3); lia|]. intros idx. unfold check_error, br_failed, mbind, Parse_bind. split.
  - intros r He. by rewrite He.
  - intros r l Hr Hok. pose proof Hr as (p & [He _ _ _ _ _] & _). rewrite He in *. cbv beta iota zeta in *.
    pose proof (byte_pos_inside len r l Hr Hlen) as Hpos. destruct (br_byte_pos r) as [pos r'] eqn:E. exact Hpos.
Qed.

Lemma checked_header_size len pp : Z.of_nat len < 2 ^ 32 -> checked len (read_header_size len pp).
Proof.
  intros Hlen. split; [intros r He; by rewrite read_header_size_error|]. intros r l Hr. by eapply header_size_inside.
Qed.

Lemma checked_header st len : Z.of_nat len < 2 ^ 32 -> checked len (uncompressed_header st len).
Proof.
  intros Hlen. apply checked_on_ok; [apply local_profile|]. intros pp. apply checked_bind; [apply local_bit|]. intros e. cbv zeta.
  destruct (truth e); [by apply checked_show_existing|].
  apply checked_on_ok; [apply local_fields|]. intros a. by apply checked_header_size.
Qed.

Lemma accepted_inside st frame pp0 pp :
  Forall is_byte frame -> Z.of_nat (length frame) < 2 ^ 32 -> parse_uncompressed_header frame st pp0 = (Ok, pp) ->
  0 <= uncompressed_header_size pp <= Z.of_nat (length frame).
Proof.
  intros Hby Hlen Hok. destruct frame as [|b frame]; [done|].
  destruct (checked_header st _ Hlen) as [_ Hin]. specialize (Hin _ _ (reader_reads _ Hby)).
  change (uncompressed_header st (length (b :: frame)) (reader (b :: frame))).1 with
    (parse_uncompressed_header (b :: frame) st pp0) in Hin. rewrite Hok in Hin. by apply Hin.
Qed.

(** * The compressed header over either bool decoder

    [msim k P m m']: over the code's bool decoder and over the reference decoder, a
    parse of at most [k] bools gives the same value, which satisfies [P]. *)

Definition msim {A} (k : N) (P : A -> Prop) (m : Dec BoolDecoder A) (m' : Dec RefBool A) : Prop :=
  forall n d r, sim n d r -> reader_ok r = true -> n + 7 * Z.of_N k < 2 ^ 31 ->
    exists a d' r', m d = Some (a, d') /\ m' r = Some (a, r') /\ P a /\
      sim (n + 7 * Z.of_N k) d' r' /\ reader_ok r' = true.

Lemma sim_mono n n' d r : n <= n' -> sim n d r -> sim n' d r.
Proof.
  intros Hn [He Hs]. split; [done|]. intros Hm. destruct (Hs Hm) as (l & W & ? & ? & ? & ?).
  exists l, W. split_and!; (done || lia).
Qed.

Section msim.
Context {A B : Type}.

Lemma msim_weaken k k' (P Q : A -> Prop) m m' : msim k P m m' -> (k <= k')%N -> (forall a, P a -> Q a) -> msim k' Q m m'.
Proof.
  intros H Hk HPQ n d r Hs Ho Hn. destruct (H n d r Hs Ho) as (a & d' & r' & ? & ? & ? & Hs' & ?); [lia|].
  exists a, d', r'. split_and!; [done|done|by apply HPQ|eapply sim_mono, Hs'; lia|done].
Qed.

Lemma msim_ret (P : A -> Prop) (a : A) : P a -> msim 0 P (mret a) (mret a).
Proof. intros HP n d r Hs Ho _. exists a, d, r. by rewrite Z.add_0_r. Qed.

Lemma msim_bind k1 k2 (P : A -> Prop) (Q : B -> Prop) m m' (f : A -> Dec BoolDecoder B) (f' : A -> Dec RefBool B) :
  msim k1 P m m' -> (forall a, P a -> msim k2 Q (f a) (f' a)) -> msim (k1 + k2) Q (m ≫= f) (m' ≫= f').
Proof.
  intros Hm Hf n d r Hs Ho Hn.
  destruct (Hm n d r Hs Ho) as (a & d1 & r1 & E & E' & HP & Hs1 & Ho1); [lia|].
  destruct (Hf a HP _ _ _ Hs1 Ho1) as (b & d2 & r2 & E2 & E2' & HQ & Hs2 & Ho2); [lia|].
  exists b, d2, r2. unfold mbind, Dec_bind. rewrite E, E'. split_and!; try done.
  eapply sim_mono, Hs2. lia.
Qed.

Lemma msim_if k1 k2 (P : A -> Prop) (b : bool) m1 m1' m2 m2' :
  msim k1 P m1 m1' -> msim k2 P m2 m2' -> msim (k1 + k2) P (if b then m1 else m2) (if b then m1' else m2').
Proof. intros H1 H2. destruct b; eapply msim_weaken; try done; lia. Qed.

Lemma msim_bail k (P : A -> Prop) a m m' : msim k P m m' -> msim k P (or_bail a m) (or_bail a m').
Proof.
  intros Hm n d r Hs Ho Hn. destruct (Hm n d r Hs Ho Hn) as (b & d' & r' & E & E' & H).
  exists b, d', r'. unfold or_bail. by rewrite (sim_ok _ _ _ Hs), Ho.
Qed.
End msim.

Lemma msim_mapM {X A} k (f : X -> Dec BoolDecoder A) (f' : X -> Dec RefBool A) (xs : list X) :
  (forall x, In x xs -> msim k (fun _ => True) (f x) (f' x)) ->
  msim (k * N.of_nat (length xs)) (fun _ => True) (mapM f xs) (mapM f' xs).
Proof.
  intros Hf. induction xs as [|x xs IH]; [apply (msim_weaken 0 _ (fun _ => True) (fun _ => True)); [by apply msim_ret|lia|done]|].
  apply (msim_weaken (k + (k * N.of_nat (length xs) + 0)) _ (fun _ => True) (fun _ => True)); [|cbn [length]; lia|done].
  apply (msim_bind _ _ (fun _ => True)); [apply Hf; by left|]. intros y _.
  apply (msim_bind _ _ (fun _ => True)); [apply IH; intros z Hz; apply Hf; by right|]. intros ys _. by apply msim_ret.
Qed.

Lemma msim_bit p : 0 <= p <= 255 -> msim 1 (fun b => 0 <= b <= 1) (bool_bit p) (bool_bit p).
Proof.
  intros Hp n d r Hs Ho Hn. destruct (sim_read n d r p Hs Ho Hp) as (b & d' & r' & ? & ? & ? & ? & ?); [lia|].
  exists b, d', r'. split_and!; try done; lia.
Qed.

(** A literal of [j] bits so far and [n] to come. *)
Lemma msim_literal_loop n : forall j v, (n + j <= 31)%nat -> 0 <= v < 2 ^ Z.of_nat j ->
  msim (N.of_nat n) (fun x => 0 <= x < 2 ^ Z.of_nat (n + j)) (literal_loop n v) (literal_loop n v).
Proof.
  induction n as [|n IH]; intros j v Hj Hv; [by apply msim_ret|].
  intros c d r Hs Ho Hn. destruct (msim_bit 128 ltac:(lia) c d r Hs Ho) as (b & d' & r' & E & E' & Hb & Hs' & Ho'); [lia|].
  unfold bool_bit in E, E'. cbn [literal_loop]. rewrite E, E'. ostep.
  assert (2 ^ Z.of_nat j <= 2 ^ 30) by (apply Z.pow_le_mono_r; lia). rewrite int32_ok by lia. ostep.
  assert (Z.lor (2 * v) b = 2 * v + b) as ->.
  { rewrite (Z.mul_comm 2). apply (lor_high_low v b 1); lia. }
  pose proof (IH (S j) (2 * v + b)) as IH'.
  rewrite Nat2Z.inj_succ, Z.pow_succ_r in IH' by lia. specialize (IH' ltac:(lia) ltac:(lia)).
  destruct (IH' (c + 7 * Z.of_N 1) d' r') as (x & d2 & r2 & E2 & E2' & Hx & Hs2 & Ho2); [done|done|lia|].
  exists x, d2, r2. replace (S n + j)%nat with (n + S j)%nat by lia. split; [done|]. split; [done|]. split; [done|].
  split; [|done]. eapply sim_mono, Hs2. lia.
Qed.
Lemma msim_literal n : (n <= 31)%nat -> msim (N.of_nat n) (fun x => 0 <= x < 2 ^ Z.of_nat n) (literal n) (literal n).
Proof. intros Hn. pose proof (msim_literal_loop n 0 0) as H. rewrite Nat.add_0_r in H. apply H; [done|simpl; lia]. Qed.

(** Follow the structure of a parse. *)
Ltac msim :=
  repeat (cbv zeta;
    match goal with
    | |- forall _, _ => intros
    | |- msim _ _ (@mret _ _ _ _) _ => by apply msim_ret
    | |- msim _ _ (bool_bit _) _ => eapply msim_weaken; [apply msim_bit; lia|reflexivity|done]
    | |- msim _ _ (literal _) _ => eapply msim_weaken; [apply msim_literal; lia|reflexivity|done]
    | |- msim _ _ (or_bail _ _) _ => apply msim_bail
    | |- msim _ _ (@mbind _ _ _ _ _ _) _ => eapply (msim_bind _ _ (fun _ => True)); [|intros ? _]
    | |- msim _ _ (if _ then _ else _) _ => apply msim_if
    | |- msim _ _ (@mapM _ _ _ _ _ _ _) _ => eapply (msim_mapM _ _ _ _); intros
    | |- msim _ _ _ _ => solve [eauto with msim]
    end).
Ltac msim_budget := eapply (msim_weaken _ _ (fun _ => True) (fun _ => True)); [msim| |done].

Create HintDb msim discriminated.

Lemma msim_term_subexp : msim 40 (fun _ => True) decode_term_subexp decode_term_subexp.
Proof. unfold decode_term_subexp. msim_budget. lia. Qed.
#[export] Hint Resolve msim_term_subexp : msim.
Lemma msim_diff : msim 50 (fun _ => True) prob_diff_update prob_diff_update.
Proof. unfold prob_diff_update. msim_budget. lia. Qed.
Lemma msim_mv_diff : msim 10 (fun _ => True) mv_prob_update mv_prob_update.
Proof. unfold mv_prob_update. msim_budget. lia. Qed.
#[export] Hint Resolve msim_diff msim_mv_diff : msim.
Lemma msim_diffs n : msim (50 * N.of_nat n) (fun _ => True) (diffs n) (diffs n).
Proof. unfold diffs. msim_budget. rewrite length_seq. lia. Qed.
Lemma msim_mv_diffs n : msim (10 * N.of_nat n) (fun _ => True) (mv_diffs n) (mv_diffs n).
Proof. unfold mv_diffs. msim_budget. rewrite length_seq. lia. Qed.
#[export] Hint Resolve msim_diffs msim_mv_diffs : msim.
Lemma msim_diffs2 m n : msim (50 * N.of_nat n * N.of_nat m) (fun _ => True) (diffs2 m n) (diffs2 m n).
Proof. unfold diffs2. msim_budget. rewrite length_seq. lia. Qed.
#[export] Hint Resolve msim_diffs2 : msim.

Lemma msim_tx_mode l : msim 5 (fun m => 0 <= m <= 4) (read_tx_mode l) (read_tx_mode l).
Proof.
  unfold read_tx_mode. apply (msim_if 0 5); [by apply msim_ret|].
  apply (msim_bind 2 3 (fun m => 0 <= m < 4)); [by apply (msim_literal 2); lia|]. intros m Hm.
  apply (msim_if 2 1).
  - apply (msim_bind 1 1 (fun b => 0 <= b <= 1)); [by apply msim_bit|]. intros b Hb.
    apply (msim_weaken 0 _ (fun m => 0 <= m <= 4) (fun m => 0 <= m <= 4)); [apply msim_ret; lia|lia|done].
  - apply (msim_weaken 0 _ (fun m => 0 <= m <= 4) (fun m => 0 <= m <= 4)); [apply msim_ret; lia|lia|done].
Qed.

Lemma msim_coef_block : msim 30000 (fun _ => True) read_coef_block read_coef_block.
Proof.
  unfold read_coef_block. assert (forall c, In c kBandContexts -> msim 900 (fun _ => True)
    (mapM (fun _ => diffs 3) (seq 0 c)) (mapM (fun _ => diffs 3) (seq 0 c))) as H.
  { intros c Hc. eapply (msim_weaken _ _ (fun _ => True) (fun _ => True)); [msim|rewrite length_seq|done].
    assert (c <= 6)%nat by (simpl in Hc; lia). lia. }
  eapply (msim_weaken _ _ (fun _ => True) (fun _ => True)); [| |done].
  - eapply (msim_mapM _ _ _ _). intros ? _. eapply (msim_mapM _ _ _ _). intros ? _. apply (msim_mapM 900). exact H.
  - by vm_compute.
Qed.
#[export] Hint Resolve msim_coef_block : msim.

Lemma msim_coefs : forall n tx pu,
  msim (30010 * N.of_nat n) (fun _ => True) (read_coef_probs n tx pu) (read_coef_probs n tx pu).
Proof.
  induction n as [|n IH]; intros tx pu; [by apply msim_ret|].
  eapply (msim_weaken _ _ (fun _ => True) (fun _ => True)); [cbn [read_coef_probs]; msim| |done].
  lia.
Qed.

Lemma msim_tx_probs pu : msim 1000 (fun _ => True) (read_tx_mode_probs pu) (read_tx_mode_probs pu).
Proof. unfold read_tx_mode_probs. msim_budget. lia. Qed.
Lemma msim_reference_mode pp : msim 10 (fun _ => True) (read_frame_reference_mode pp) (read_frame_reference_mode pp).
Proof. unfold read_frame_reference_mode. msim_budget. lia. Qed.
Lemma msim_reference_probs mode pu : msim 2000 (fun _ => True) (read_reference_probs mode pu) (read_reference_probs mode pu).
Proof. unfold read_reference_probs. msim_budget. lia. Qed.
Lemma msim_mv_probs pp pu : msim 2000 (fun _ => True) (read_mv_probs pp pu) (read_mv_probs pp pu).
Proof. unfold read_mv_probs, read_mv_component, read_mv_fraction, read_mv_hp. msim_budget. cbn [length seq]. lia. Qed.
#[export] Hint Resolve msim_tx_probs msim_reference_mode msim_reference_probs msim_mv_probs : msim.
Lemma msim_inter_probs pp pu : msim 20000 (fun _ => True) (read_inter_probs pp pu) (read_inter_probs pp pu).
Proof. unfold read_inter_probs. msim_budget. lia. Qed.
#[export] Hint Resolve msim_inter_probs : msim.

Lemma msim_compressed pp pu : msim 200000 (fun _ => True) (compressed_header pp pu) (compressed_header pp pu).
Proof.
  unfold compressed_header. apply msim_bail.
  apply (msim_weaken (5 + 190000) _ (fun _ => True) (fun _ => True)); [|lia|done].
  apply (msim_bind _ _ (fun m => 0 <= m <= 4)); [apply msim_tx_mode|]. intros mode Hmode.
  eapply (msim_weaken _ _ (fun _ => True) (fun _ => True)); [msim; apply msim_coefs| |done].
  assert (Z.to_nat (tx_mode_to_max_tx_size mode) <= 3)%nat.
  { unfold tx_mode_to_max_tx_size. destruct (Z.eqb_spec mode 4); lia. }
  lia.
Qed.
