(* ===== verification/Vp9Engine.v ===== *)
(** * The VP9 reference map and engine (mft/vp9_dpb.cpp, mft/engine/decode_engine_vp9.cpp)

    [DpbCtx] with its two operations and the synchronous engine around it.  The
    answers of the register builder and of the backend come with the call; of the
    register bank the model keeps what depends on the state: the output buffer, the
    references (reg164 to 166), the probability buffer (reg162, reg172), the POC
    (reg65).  Pixels are left out: [has_yuv] says whether the frame carries them. *)

From S2P Require Import Prelude Bits Vp9Bool Vp9Parser Vp9Syntax Vp9ParserFacts Vp9ParserLocal.

(** ** The reference map *)
Record DpbSlot := MkDpbSlot {
  slot_valid : bool; frame_handle : Z; colmv_handle : Z; slot_width : Z; slot_height : Z;
  slot_bit_depth : Z; slot_poc : Z }.
Definition zero_dpb_slot : DpbSlot := MkDpbSlot false 0 0 0 0 0 0.

Record DpbCtx := MkDpbCtx { slots : list DpbSlot; next_poc : Z }.
#[export] Instance eta_DpbCtx : Eta DpbCtx := fun d => MkDpbCtx (slots d) (next_poc d).
Definition initial_dpb : DpbCtx := MkDpbCtx (replicate kNumRefFrames zero_dpb_slot) 0.

(** [POC]s are unbounded here; the code's are [int32]. *)
Definition Vp9Dpb_Update (dpb : DpbCtx) (pp : PicParams) (cur_frame cur_colmv cur_width cur_height cur_bit_depth : Z) : DpbCtx :=
  let s := MkDpbSlot true cur_frame cur_colmv cur_width cur_height cur_bit_depth (next_poc dpb + 1) in
  dpb <| slots ::= imap (fun i old => if Z.testbit (refresh_frame_flags pp) (Z.of_nat i) then s else old) |>
      <| next_poc ::= Z.succ |>.

(** 0 when the slot is out of range or invalid. *)
Definition Vp9Dpb_ShowExisting (dpb : DpbCtx) (pp : PicParams) : Z :=
  let idx := show_existing_frame_idx pp in
  if Z.of_nat kNumRefFrames <=? idx then 0 else
  match slots dpb !! Z.to_nat idx with
  | Some s => if slot_valid s then frame_handle s else 0
  | None => 0
  end.

(** ** The engine *)
Definition vp9_kPoolSize : nat := 16.

Record Vp9Engine := MkVp9Engine {
  parser_state : ParserState; dpb : DpbCtx;
  pool_output : list Z; pool_colmv : list Z; pool_in_use : list bool; bitstream_size : Z;
  prob_loop : list Z; prob_default : Z;
  last_tx_mode : Z; last_ref_mode : Z; last_intra_only : Z; last_show_frame : Z; last_segmentation_enabled : Z;
  last_widthheight_eqcur : Z; last_color_space : Z; last_mode_deltas : list Z; last_lf_ref_deltas : list Z;
  col_ref_poc : Z; segid_ref_poc : Z; prob_ref_poc : list Z; segid_phase : Z; prob_ctx_valid : list Z;
  wait_for_keyframe : bool; header_size_override : Z }.
#[export] Instance eta_Vp9Engine : Eta Vp9Engine := fun e =>
  MkVp9Engine (parser_state e) (dpb e) (pool_output e) (pool_colmv e) (pool_in_use e) (bitstream_size e)
    (prob_loop e) (prob_default e) (last_tx_mode e) (last_ref_mode e) (last_intra_only e) (last_show_frame e)
    (last_segmentation_enabled e) (last_widthheight_eqcur e) (last_color_space e) (last_mode_deltas e)
    (last_lf_ref_deltas e) (col_ref_poc e) (segid_ref_poc e) (prob_ref_poc e) (segid_phase e) (prob_ctx_valid e)
    (wait_for_keyframe e) (header_size_override e).

(** A session over buffers already allocated. *)
Definition vp9_engine (outputs colmvs probs : list Z) (default bitstream : Z) : Vp9Engine :=
  MkVp9Engine initial_state initial_dpb outputs colmvs (replicate vp9_kPoolSize false) bitstream probs default
    4 0 0 0 0 0 0 [0; 0] [0; 0; 0; 0] 0 0 [0; 0; 0; 0] 0 [0; 0; 0; 0] false 0.

Record Vp9DecodedFrame := MkVp9DecodedFrame {
  out_pts : Z; out_width : Z; out_height : Z; out_slot : Z; out_show : bool; out_bit_depth : Z; has_yuv : bool }.
#[export] Instance eta_Vp9DecodedFrame : Eta Vp9DecodedFrame := fun f =>
  MkVp9DecodedFrame (out_pts f) (out_width f) (out_height f) (out_slot f) (out_show f) (out_bit_depth f) (has_yuv f).
Definition new_frame : Vp9DecodedFrame := MkVp9DecodedFrame 0 0 0 (-1) true 8 false.

(** What a kick tells the hardware. *)
Record vp9_kick := MkKick {
  k_intra : bool; k_decout : Z; k_refs : list Z; k_last_prob : Z; k_prob_writeback : Z; k_poc : Z }.

(** Neither the consumer nor the reference map holds the buffer. *)
Definition in_dpb (e : Vp9Engine) (h : Z) : bool :=
  existsb (fun s => slot_valid s && (frame_handle s =? h)) (slots (dpb e)).
Definition pool_free (e : Vp9Engine) (i : nat) : bool :=
  match pool_in_use e !! i, pool_output e !! i with
  | Some false, Some h => negb (in_dpb e h)
  | _, _ => false
  end.
Definition free_pool_slot (e : Vp9Engine) : option nat :=
  list_find (fun i => pool_free e i = true) (seq 0 vp9_kPoolSize) ≫= fun p => Some p.1.

(** The pool slot that owns a buffer. *)
Definition slot_of_handle (e : Vp9Engine) (h : Z) : option nat :=
  list_find (fun h' => h' = h) (pool_output e) ≫= fun p => Some p.1.

Definition is_intra (pp : PicParams) : bool := (frame_type pp =? 0) || truth (intra_only pp).

(** reg164 to reg166 *)
Definition ref_handle (e : Vp9Engine) (pp : PicParams) (decout : Z) (d : RefFrameDesc) : Z :=
  if is_intra pp then decout else
  match slots (dpb e) !! Z.to_nat (ref_index d) with
  | Some s => if slot_valid s then frame_handle s else decout
  | None => decout
  end.

Definition fcx_of (pp : PicParams) : nat := Z.to_nat (Z.land (frame_context_idx pp) 0x3).

(** reg162, reg172: the probabilities start from the context when it is valid. *)
Definition ctx_valid (e : Vp9Engine) (pp : PicParams) : bool :=
  truth (default 0 (prob_ctx_valid e !! fcx_of pp)) && negb (truth (error_resilient_mode pp)) && negb (is_intra pp).

Definition build_kick (e : Vp9Engine) (pp : PicParams) (slot : nat) : vp9_kick :=
  let decout := default 0 (pool_output e !! slot) in
  let loop := default 0 (prob_loop e !! fcx_of pp) in
  MkKick (is_intra pp) decout (map (ref_handle e pp decout) (frame_refs pp))
    (if ctx_valid e pp then loop else prob_default e) loop (next_poc (dpb e) + 1).

(** The outcome of a call: return value, frame, engine, and the kick if there was one. *)
Definition outcome : Type := Z * Vp9DecodedFrame * Vp9Engine * option vp9_kick.

Definition depth_or_8 (d : Z) : Z := if truth d then d else 8.

(** show_existing_frame: the cached slot. *)
Definition show_existing (e : Vp9Engine) (pp : PicParams) (pts : Z) (out : Vp9DecodedFrame) : outcome :=
  let idx := show_existing_frame_idx pp in
  match (if Z.of_nat kNumRefFrames <=? idx then None else slots (dpb e) !! Z.to_nat idx) with
  | Some s =>
      if slot_valid s then
        match slot_of_handle e (frame_handle s) with
        | Some slot =>
            (0, out <| out_pts := pts |> <| out_width := slot_width s |> <| out_height := slot_height s |>
                    <| out_slot := Z.of_nat slot |> <| out_show := true |>
                    <| out_bit_depth := depth_or_8 (slot_bit_depth s) |> <| has_yuv := true |>,
             e <| pool_in_use ::= <[slot := true]> |>, None)
        | None => (-1, out, e, None)
        end
      else (-1, out, e, None)
  | None => (-1, out, e, None)
  end.

(** A kick that failed: the context is dropped and the firebreak armed. *)
Definition submit_failed (e : Vp9Engine) (pp : PicParams) : Vp9Engine :=
  let e := if truth (refresh_frame_context pp) then e <| prob_ctx_valid ::= <[fcx_of pp := 0]> |> else e in
  e <| wait_for_keyframe := true |>.

Definition seg_id_update_now (pp : PicParams) : bool :=
  is_intra pp || truth (error_resilient_mode pp) || (truth (seg_enabled (seg pp)) && truth (seg_update_map (seg pp))).

(** The sticky state after a kick. *)
Definition update_sticky (e : Vp9Engine) (pp : PicParams) : Vp9Engine :=
  let new_poc := next_poc (dpb e) in
  let e := e <| last_intra_only := b2z (is_intra pp) |> <| last_tx_mode := txmode pp |>
             <| last_ref_mode := reference_mode pp |> <| last_show_frame := show_frame pp |>
             <| last_segmentation_enabled := seg_enabled (seg pp) |> <| last_widthheight_eqcur := 1 |>
             <| last_color_space := Z.land (color_space pp) 0x7 |> <| last_mode_deltas := mode_deltas (lf pp) |>
             <| last_lf_ref_deltas := ref_deltas (lf pp) |> in
  let e := if truth (show_frame pp) && negb (truth (show_existing_frame pp)) then e <| col_ref_poc := new_poc |> else e in
  let e := if seg_id_update_now pp then e <| segid_ref_poc := new_poc |> else e in
  let e := if truth (refresh_frame_context pp)
           then e <| prob_ref_poc ::= <[fcx_of pp := new_poc]> |> <| prob_ctx_valid ::= <[fcx_of pp := 1]> |> else e in
  if seg_id_update_now pp then e <| segid_phase ::= fun p => Z.lxor p 1 |> else e.

(** A kick that succeeded. *)
Definition submit_done (e : Vp9Engine) (pp : PicParams) (slot : nat) (pts : Z) (out : Vp9DecodedFrame) :
    Vp9DecodedFrame * Vp9Engine :=
  let e := if is_intra pp then e <| wait_for_keyframe := false |> else e in
  let depth := depth_or_8 (bit_depth pp) in
  let out := out <| out_pts := pts |> <| out_width := width pp |> <| out_height := height pp |>
                 <| out_slot := Z.of_nat slot |> <| out_show := truth (show_frame pp) |>
                 <| out_bit_depth := depth |> <| has_yuv := true |> in
  let e := e <| pool_in_use ::= <[slot := true]> |> in
  let e := e <| dpb := Vp9Dpb_Update (dpb e) pp (default 0 (pool_output e !! slot)) (default 0 (pool_colmv e !! slot))
                         (width pp) (height pp) depth |>
             <| parser_state ::= fun st => Vp9Parser_ApplyDpbUpdate st pp |> in
  (out, update_sticky e pp).

(** The harness can override the size of the compressed header. *)
Definition overridden (e : Vp9Engine) (pp : PicParams) : PicParams :=
  if truth (header_size_override e) then pp <| header_size := header_size_override e |> else pp.

(** After the parser: the gate, the cached frame, or a kick.  [built] and [submitted]
    are the answers of the register builder and of the backend. *)
Definition decode_parsed (built submitted : bool) (e : Vp9Engine) (pp : PicParams) (len pts : Z) (out : Vp9DecodedFrame) : outcome :=
  if wait_for_keyframe e && negb (is_intra pp) then
    (0, out <| out_pts := pts |> <| out_show := false |> <| out_slot := -1 |> <| has_yuv := false |>, e, None) else
  if truth (show_existing_frame pp) then show_existing e pp pts out else
  match free_pool_slot e with
  | None => (-2, out, e, None)
  | Some slot =>
      if bitstream_size e <? len then (-1, out, e, None) else
      let pp := overridden e pp in
      if negb built then (-3, out, e <| wait_for_keyframe := true |>, None) else
      let kick := build_kick e pp slot in
      if negb submitted then (-3, out, submit_failed e pp, Some kick) else
      let '(out, e) := submit_done e pp slot pts out in
      (0, out, e, Some kick)
  end.

Definition Vp9DecodeEngine_DecodeOne (built submitted : bool) (e : Vp9Engine) (frame : list Z) (pts : Z)
    (out : Vp9DecodedFrame) : option outcome :=
  if Z.of_nat (length frame) =? 0 then Some (-1, out, e, None) else
  '(res, pp, _) ← Vp9Parser_Parse frame (parser_state e) zero_params;
  Some (match res with
        | Ok => decode_parsed built submitted e pp (Z.of_nat (length frame)) pts out
        | _ => (-1, out, e, None)
        end).

Definition Vp9DecodeEngine_ReleaseFrame (e : Vp9Engine) (f : Vp9DecodedFrame) : Vp9Engine * Vp9DecodedFrame :=
  if out_slot f <? 0 then (e, f) else
  let e := if out_slot f <? Z.of_nat vp9_kPoolSize
           then e <| pool_in_use ::= <[Z.to_nat (out_slot f) := false]> |> else e in
  (e, f <| out_slot := -1 |> <| has_yuv := false |>).

Definition Vp9DecodeEngine_Flush (e : Vp9Engine) : Vp9Engine :=
  e <| wait_for_keyframe := true |> <| prob_ctx_valid := [0; 0; 0; 0] |>
    <| last_intra_only := 0 |> <| last_show_frame := 0 |> <| last_segmentation_enabled := 0 |>
    <| last_widthheight_eqcur := 0 |> <| last_color_space := 0 |> <| last_tx_mode := 4 |> <| last_ref_mode := 0 |>
    <| last_mode_deltas := [0; 0] |> <| last_lf_ref_deltas := [0; 0; 0; 0] |>
    <| col_ref_poc := 0 |> <| segid_ref_poc := 0 |> <| prob_ref_poc := [0; 0; 0; 0] |> <| segid_phase := 0 |>.

(** ** The transform's loop over the frames of a superframe

    [ProcessInput] of the VP9 path: each frame is decoded, queued when shown, and
    released at once.  [answers i] are what the builder and the backend say to frame [i]. *)
Record vp9_session := MkVp9Session {
  vs_engine : Vp9Engine; vp9_out_queue : list Vp9DecodedFrame; vs_kicks : list vp9_kick; decode_errors : Z }.
#[export] Instance eta_vp9_session : Eta vp9_session := fun s =>
  MkVp9Session (vs_engine s) (vp9_out_queue s) (vs_kicks s) (decode_errors s).

Definition vp9_input_frame (answers : bool * bool) (pts : Z) (s : vp9_session) (frame : list Z) : option vp9_session :=
  '(rc, df, e, kick) ← Vp9DecodeEngine_DecodeOne answers.1 answers.2 (vs_engine s) frame pts new_frame;
  let s := s <| vs_engine := e |> <| vs_kicks ::= fun l => l ++ option_list kick |> in
  if negb (rc =? 0) then Some (s <| decode_errors ::= Z.succ |>) else
  let s := if out_show df && has_yuv df then s <| vp9_out_queue ::= fun q => q ++ [df] |> else s in
  Some (s <| vs_engine := (Vp9DecodeEngine_ReleaseFrame e df).1 |>).

(** The sub-buffer of a frame of the split. *)
Definition sub_frame (buf : list Z) (f : Z * Z) : list Z := take (Z.to_nat f.2) (drop (Z.to_nat f.1) buf).

Definition vp9_process_input (answers : nat -> bool * bool) (buf : list Z) (pts : Z) (s : vp9_session) : option vp9_session :=
  r ← Vp9Parser_SuperframeSplit buf 8;
  match r with
  | None => Some (s <| decode_errors ::= Z.succ |>)
  | Some frames =>
      foldlM (fun s (a : nat * (Z * Z)) => vp9_input_frame (answers a.1) pts s (sub_frame buf a.2)) s (imap pair frames)
  end.

(** * Facts of the superframe split, the VP9 reference map and the engine *)

(** ** Superframes *)

(** Consecutive non-empty frames from offset [data], within [remain] bytes. *)
Fixpoint frames_from (data remain : Z) (l : list (Z * Z)) : Prop :=
  match l with
  | [] => 0 <= remain
  | f :: l => f.1 = data /\ 0 < f.2 /\ frames_from (data + f.2) (remain - f.2) l
  end.

Lemma read_le_total : forall n shift p, (n <= length p)%nat -> Forall is_byte p -> 0 <= shift ->
  exists v, read_le n shift p = Some (v, drop n p) /\ 0 <= v.
Proof.
  induction n as [|n IH]; intros shift p Hn Hp Hs; [by exists 0|].
  destruct p as [|b p]; [simpl in Hn; lia|]. apply Forall_cons in Hp as [Hb Hp]. simpl in Hn.
  destruct (IH (shift + 8) p) as (v & E & Hv); [lia|done|lia|]. cbn [read_le]. rewrite E. ostep.
  exists (Z.lor (u32 (Z.shiftl b shift)) v). split; [done|]. apply Z.lor_nonneg. pose proof (u32_range (Z.shiftl b shift)). lia.
Qed.

Lemma split_loop_total bps : forall n p data remain, (n * bps <= length p)%nat -> Forall is_byte p -> 0 <= remain ->
  exists r, split_loop n bps p data remain = Some r /\
    forall l, r = Some l -> length l = n /\ frames_from data remain l.
Proof.
  induction n as [|n IH]; intros p data remain Hn Hp Hr; [eexists; split; [done|]; by intros ? [= <-]|].
  destruct (read_le_total bps 0 p) as (sz & E & Hsz); [simpl in Hn; lia|done|done|]. cbn [split_loop]. rewrite E. ostep.
  destruct (Z.eqb_spec sz 0); [by eexists|]. destruct (Z.ltb_spec remain sz); [by eexists|]. simpl orb. cbv iota.
  destruct (IH (drop bps p) (data + sz) (remain - sz)) as (r & Er & Hl);
    [rewrite length_drop; simpl in Hn; lia|by apply Forall_drop|lia|].
  rewrite Er. ostep. eexists. split; [done|]. intros l El. destruct r as [l'|]; [|done]. injection El as <-.
  destruct (Hl l' eq_refl) as [<- ?]. split; [done|]. simpl. split_and!; (done || lia).
Qed.

Lemma frames_from_mono l : forall data r r', frames_from data r l -> r <= r' -> frames_from data r' l.
Proof.
  induction l as [|f l IH]; intros data r r' H Hr; simpl in *; [lia|]. destruct H as (? & ? & H).
  split_and!; [done|done|]. eapply IH; [exact H|lia].
Qed.

Lemma split_total buf max :
  Forall is_byte buf -> exists r, Vp9Parser_SuperframeSplit buf max = Some r /\
    forall l, r = Some l -> (0 < length l)%nat /\ Z.of_nat (length l) <= Z.max 1 max /\ frames_from 0 (Z.of_nat (length buf)) l.
Proof.
  intros Hb. unfold Vp9Parser_SuperframeSplit. set (len := Z.of_nat (length buf)).
  destruct (Z.eqb_spec len 0); [by eexists|]. destruct (Z.ltb_spec max 1); [by eexists|]. simpl orb. cbv iota.
  destruct (lookup_lt_is_Some_2 buf (Z.to_nat (len - 1))) as [last Hlast]; [lia|]. rewrite Hlast. ostep.
  destruct (negb _). { eexists. split; [done|]. intros l [= <-]. simpl. lia. }
  change (Z.land (Z.shiftr last 3) 0x3) with (Z.land (Z.shiftr last 3) (Z.ones 2)).
  change (Z.land last 0x7) with (Z.land last (Z.ones 3)). rewrite !Z.land_ones by lia.
  set (bps := Z.shiftr last 3 mod 2 ^ 2 + 1). set (nf := last mod 2 ^ 3 + 1).
  pose proof (Z.mod_pos_bound (Z.shiftr last 3) (2 ^ 2) ltac:(lia)) as H1.
  pose proof (Z.mod_pos_bound last (2 ^ 3) ltac:(lia)) as H2.
  destruct (Z.ltb_spec max nf); [by eexists|]. destruct (Z.ltb_spec len (2 + nf * bps)) as [?|Hi]; [by eexists|].
  set (index := drop _ buf). assert (0 <= nf * bps) as Hnb by (unfold nf, bps; nia).
  assert (Z.of_nat (length index) = 2 + nf * bps) as Hli by (unfold index; rewrite length_drop; lia).
  destruct (lookup_lt_is_Some_2 index 0) as [b0 E0]; [lia|]. rewrite E0. ostep.
  destruct (lookup_lt_is_Some_2 index (Z.to_nat (2 + nf * bps - 1))) as [b1 E1]; [lia|]. rewrite E1. ostep.
  destruct (_ || _); [by eexists|].
  destruct (split_loop_total (Z.to_nat bps) (Z.to_nat nf) (drop 1 index) 0 (len - (2 + nf * bps))) as (r & E & Hr).
  - rewrite length_drop. rewrite <- Z2Nat.inj_mul by (unfold nf, bps; lia). lia.
  - by apply Forall_drop, Forall_drop.
  - lia.
  - exists r. split; [done|]. intros l Hl. destruct (Hr l Hl) as [Hlen Hf]. split_and!; [unfold nf in *; lia|lia|].
    eapply frames_from_mono; [exact Hf|lia].
Qed.

(** The index of a superframe, written as the specification has it. *)
Fixpoint put_le (n : nat) (v : Z) : list Z :=
  match n with
  | O => []
  | S n => v mod 256 :: put_le n (v / 256)
  end.
Definition superframe_marker (bytes nf : nat) : Z := 0xC0 + (Z.of_nat bytes - 1) * 8 + (Z.of_nat nf - 1).
Definition write_superframe (bytes : nat) (frames : list (list Z)) : list Z :=
  let m := superframe_marker bytes (length frames) in
  concat frames ++ [m] ++ concat (map (fun f => put_le bytes (Z.of_nat (length f))) frames) ++ [m].

Lemma length_put_le n v : length (put_le n v) = n.
Proof. revert v. induction n as [|n IH]; intros v; simpl; [done|by rewrite IH]. Qed.

Lemma read_put_le : forall n shift v p,
  0 <= v < 2 ^ (8 * Z.of_nat n) -> 0 <= shift -> shift + 8 * Z.of_nat n <= 32 ->
  read_le n shift (put_le n v ++ p) = Some (v * 2 ^ shift, p).
Proof.
  induction n as [|n IH]; intros shift v p Hv Hs Hb; [simpl in *; do 2 f_equal; lia|].
  cbn [put_le app read_le]. pose proof (Z.div_mod v 256 ltac:(lia)) as Ev. pose proof (Z.mod_pos_bound v 256 ltac:(lia)) as Hm.
  assert (2 ^ (8 * Z.of_nat (S n)) = 256 * 2 ^ (8 * Z.of_nat n)) as E8
    by (replace (8 * Z.of_nat (S n)) with (8 + 8 * Z.of_nat n) by lia; rewrite Z.pow_add_r by lia; done).
  rewrite IH; [|split; [apply Z.div_pos; lia|apply Z.div_lt_upper_bound; lia]|lia|lia]. ostep. f_equal. f_equal.
  rewrite Z.shiftl_mul_pow2 by lia. pose proof (Z.pow_pos_nonneg 2 shift ltac:(lia) Hs).
  assert (2 ^ (shift + 8) <= 2 ^ 32) by (apply Z.pow_le_mono_r; lia). rewrite Z.pow_add_r in * by lia. change (2 ^ 8) with 256 in *.
  rewrite u32_small by nia. rewrite Z.lor_comm, (Z.mul_comm (2 ^ shift)), Z.mul_assoc.
  replace (v / 256 * 256 * 2 ^ shift) with (v / 256 * 2 ^ (8 + shift)) by (rewrite Z.pow_add_r by lia; change (2 ^ 8) with 256; ring).
  rewrite lor_high_low; [|lia|rewrite Z.pow_add_r by lia; change (2 ^ 8) with 256; nia].
  rewrite Z.pow_add_r by lia. change (2 ^ 8) with 256. rewrite Ev at 3. ring.
Qed.

(** The offsets and sizes of the frames. *)
Fixpoint frame_table (data : Z) (frames : list (list Z)) : list (Z * Z) :=
  match frames with
  | [] => []
  | f :: frames => (data, Z.of_nat (length f)) :: frame_table (data + Z.of_nat (length f)) frames
  end.

Lemma split_loop_table bps frames : forall p data,
  (1 <= bps <= 4)%nat -> Forall (fun f => f <> [] /\ Z.of_nat (length f) < 2 ^ (8 * Z.of_nat bps)) frames ->
  split_loop (length frames) bps (concat (map (fun f => put_le bps (Z.of_nat (length f))) frames) ++ p) data
    (Z.of_nat (length (concat frames))) = Some (Some (frame_table data frames)).
Proof.
  intros p data Hb H. revert data. induction H as [|f frames [Hne Hlt] H IH]; intros data; [done|].
  cbn [length split_loop map concat]. rewrite <- app_assoc, read_put_le by lia. ostep.
  rewrite length_app. change (2 ^ 0) with 1. rewrite Z.mul_1_r.
  destruct (Z.eqb_spec (Z.of_nat (length f)) 0) as [E|_]; [destruct f; [done|simpl in E; lia]|].
  destruct (Z.ltb_spec (Z.of_nat (length f + length (concat frames))) (Z.of_nat (length f))); [lia|]. simpl orb. cbv iota.
  replace (Z.of_nat (length f + length (concat frames)) - Z.of_nat (length f)) with (Z.of_nat (length (concat frames))) by lia.
  rewrite IH. done.
Qed.

(** A frame cut out of the buffer. *)
Lemma sub_frames frames : forall pre suf,
  map (sub_frame (pre ++ concat frames ++ suf)) (frame_table (Z.of_nat (length pre)) frames) = frames.
Proof.
  induction frames as [|f frames IH]; intros pre suf; [done|]. cbn [frame_table map concat]. f_equal.
  - unfold sub_frame. cbn [fst snd]. rewrite !Nat2Z.id, drop_app_length, <- app_assoc. apply take_app_length.
  - rewrite <- Nat2Z.inj_add, <- length_app. specialize (IH (pre ++ f) suf).
    rewrite <- !app_assoc in IH. rewrite <- app_assoc. exact IH.
Qed.

Lemma marker_fields b n : (1 <= b <= 4)%nat -> (1 <= n <= 8)%nat ->
  let m := superframe_marker b n in
  Z.land m 0xE0 = 0xC0 /\ Z.land (Z.shiftr m 3) 0x3 + 1 = Z.of_nat b /\ Z.land m 0x7 + 1 = Z.of_nat n.
Proof.
  intros Hb Hn m.
  assert (forallb (fun b => forallb (fun n => let m := superframe_marker b n in
    (Z.land m 0xE0 =? 0xC0) && (Z.land (Z.shiftr m 3) 0x3 + 1 =? Z.of_nat b) && (Z.land m 0x7 + 1 =? Z.of_nat n))
    (seq 1 8)) (seq 1 4) = true) as H by reflexivity.
  rewrite forallb_forall in H. specialize (H b ltac:(apply in_seq; lia)).
  rewrite forallb_forall in H. specialize (H n ltac:(apply in_seq; lia)).
  rewrite !andb_true_iff, !Z.eqb_eq in H. fold m in H. tauto.
Qed.

Lemma length_index bps frames : length (concat (map (fun f : list Z => put_le bps (Z.of_nat (length f))) frames)) = (length frames * bps)%nat.
Proof. induction frames as [|f frames IH]; [done|]. cbn [map concat length]. rewrite length_app, length_put_le, IH. lia. Qed.

Lemma split_written bps frames :
  (1 <= bps <= 4)%nat -> (1 <= length frames <= 8)%nat ->
  Forall (fun f => f <> [] /\ Z.of_nat (length f) < 2 ^ (8 * Z.of_nat bps)) frames ->
  Vp9Parser_SuperframeSplit (write_superframe bps frames) 8 = Some (Some (frame_table 0 frames)).
Proof.
  intros Hb Hn Hf. destruct (marker_fields bps (length frames)) as (Hm1 & Hm2 & Hm3); [done|done|].
  unfold write_superframe. set (m := superframe_marker bps (length frames)) in *.
  set (index := concat (map _ frames)). pose proof (length_index bps frames) as Hi. fold index in Hi.
  set (data := concat frames). unfold Vp9Parser_SuperframeSplit. set (buf := data ++ [m] ++ index ++ [m]).
  assert (length buf = length data + 2 + length index)%nat as Hlen
    by (unfold buf; rewrite !length_app; cbn [length]; lia).
  destruct (Z.eqb_spec (Z.of_nat (length buf)) 0); [lia|]. simpl orb. cbv iota.
  assert (buf !! Z.to_nat (Z.of_nat (length buf) - 1) = Some m) as ->.
  { unfold buf. rewrite app_assoc, app_assoc. rewrite lookup_app_r by (rewrite !length_app; cbn [length]; lia).
    rewrite !length_app. cbn [length].
    replace (Z.to_nat _ - _)%nat with 0%nat by lia. done. }
  ostep. rewrite Hm1, Hm2, Hm3. change (0xC0 =? 0xC0) with true. cbn [negb]. cbv iota.
  destruct (Z.ltb_spec 8 (Z.of_nat (length frames))); [lia|].
  rewrite <- Nat2Z.inj_mul, <- Hi. destruct (Z.ltb_spec (Z.of_nat (length buf)) (2 + Z.of_nat (length index))); [lia|].
  assert (drop (Z.to_nat (Z.of_nat (length buf) - (2 + Z.of_nat (length index)))) buf = m :: index ++ [m]) as ->.
  { replace (Z.to_nat _) with (length data) by lia. apply drop_app_length. }
  change (8 <? 1) with false. cbv iota. change ((m :: index ++ [m]) !! 0%nat) with (Some m). ostep.
  assert ((m :: index ++ [m]) !! Z.to_nat (2 + Z.of_nat (length index) - 1) = Some m) as ->.
  { replace (Z.to_nat _) with (S (length index)) by lia. simpl. rewrite lookup_app_r by lia. by rewrite Nat.sub_diag. }
  ostep. rewrite Z.eqb_refl. cbn [negb orb]. cbv iota. rewrite !Nat2Z.id. rewrite skipn_cons, drop_0.
  replace (Z.of_nat (length buf) - (2 + Z.of_nat (length index))) with (Z.of_nat (length data)) by lia.
  by apply split_loop_table.
Qed.

(** ** The parser never traps *)

(** The bytes of the compressed header are read as the reference decoder reads them. *)
Lemma compressed_reference buf pp pu :
  Forall is_byte buf -> (3 <= length buf)%nat ->
  parse_compressed_header buf pp pu = ('(pu', _) ← compressed_header pp pu (ref_init buf); Some pu').
Proof.
  intros Hb Hl. destruct (init_sim buf Hb Hl) as (d & E & Hs). unfold parse_compressed_header. rewrite E. ostep.
  destruct (reader_ok (ref_init buf)) eqn:Ho.
  - destruct (msim_compressed pp pu 0 d _ Hs Ho) as (a & d' & r' & -> & -> & _); [lia|done].
  - assert (reader_ok d = false) as Hd by by rewrite (sim_ok _ _ _ Hs).
    unfold compressed_header, or_bail. by rewrite Ho, Hd.
Qed.

Lemma compressed_short buf pp pu : (length buf < 3)%nat -> parse_compressed_header buf pp pu = Some pu.
Proof.
  intros Hl. destruct (init_short buf Hl) as (d & E & Ho). unfold parse_compressed_header. rewrite E. ostep.
  unfold compressed_header, or_bail. change (reader_ok d) with (ok d). by rewrite Ho.
Qed.

Lemma compressed_total buf pp pu : Forall is_byte buf -> is_Some (parse_compressed_header buf pp pu).
Proof.
  intros Hb. destruct (decide (length buf < 3)%nat) as [Hl|Hl]; [rewrite compressed_short by done; by eexists|].
  rewrite compressed_reference by (done || lia). destruct (init_sim buf Hb) as (d & _ & Hs); [lia|].
  destruct (reader_ok (ref_init buf)) eqn:Ho.
  - destruct (msim_compressed pp pu 0 d _ Hs Ho) as (a & d' & r' & _ & -> & _); [lia|by eexists].
  - unfold compressed_header, or_bail. rewrite Ho. by eexists.
Qed.

Lemma Parse_header frame st pp0 :
  Forall is_byte frame -> exists pu, let x := parse_uncompressed_header frame st pp0 in
    Vp9Parser_Parse frame st pp0 = Some (x.1, if bool_decide (x.1 = Ok) then mirror_updates x.2 pu else x.2, pu).
Proof.
  intros Hb. unfold Vp9Parser_Parse. destruct (parse_uncompressed_header frame st pp0) as [res pp]. simpl.
  destruct res; [|by exists zero_updates..].
  rewrite bool_decide_eq_true_2 by done.
  destruct (_ || _); [by exists zero_updates|].
  assert (Forall is_byte (compressed_bytes frame pp)) as Hc by by apply Forall_take, Forall_drop.
  destruct (compressed_bytes frame pp) as [|b l] eqn:E; [by exists zero_updates|].
  destruct (compressed_total (b :: l) pp zero_updates Hc) as [pu ->]. by exists pu.
Qed.

(** ** One call of the engine, as a step *)

(** Return value, frame, engine after, kick. *)
Inductive vp9_step (e : Vp9Engine) (pp : PicParams) : Z -> Vp9DecodedFrame -> Vp9Engine -> option vp9_kick -> Prop :=
  | step_dropped out :
      wait_for_keyframe e = true -> is_intra pp = false -> out_slot out = -1 -> has_yuv out = false ->
      vp9_step e pp 0 out e None
  | step_refused rc out : rc <> 0 -> rc <> -3 -> (free_pool_slot e <> None -> rc <> -2) -> vp9_step e pp rc out e None
  | step_existing slot h out :
      pool_output e !! slot = Some h -> in_dpb e h = true -> truth (show_existing_frame pp) = true ->
      out_slot out = Z.of_nat slot -> has_yuv out = true ->
      vp9_step e pp 0 out (e <| pool_in_use ::= <[slot := true]> |>) None
  | step_unbuilt out : vp9_step e pp (-3) out (e <| wait_for_keyframe := true |>) None
  | step_failed slot out :
      pool_free e slot = true -> (wait_for_keyframe e = true -> is_intra pp = true) ->
      vp9_step e pp (-3) out (submit_failed e (overridden e pp)) (Some (build_kick e pp slot))
  | step_done slot pts out :
      pool_free e slot = true -> (wait_for_keyframe e = true -> is_intra pp = true) ->
      vp9_step e pp 0 (submit_done e (overridden e pp) slot pts out).1
        (submit_done e (overridden e pp) slot pts out).2 (Some (build_kick e pp slot)).

Lemma overridden_kick e pp slot : build_kick e (overridden e pp) slot = build_kick e pp slot.
Proof. unfold overridden. by destruct (truth _). Qed.

Lemma free_pool_slot_spec e slot : free_pool_slot e = Some slot -> pool_free e slot = true /\ (slot < vp9_kPoolSize)%nat.
Proof.
  unfold free_pool_slot. destruct (list_find _ _) as [[i x]|] eqn:E; [|done]. intros [= ->].
  apply list_find_Some in E as (Hi & Hf & _). apply lookup_seq in Hi as [-> ?]. split; [exact Hf|lia].
Qed.

Lemma decode_parsed_step built submitted e pp len pts out rc out' e' kick :
  decode_parsed built submitted e pp len pts out = (rc, out', e', kick) -> vp9_step e pp rc out' e' kick.
Proof.
  unfold decode_parsed. destruct (wait_for_keyframe e && negb (is_intra pp)) eqn:Hg.
  { apply andb_true_iff in Hg as [Hw Hi]. apply negb_true_iff in Hi. intros [= <- <- <- <-]. by apply step_dropped. }
  assert (wait_for_keyframe e = true -> is_intra pp = true) as Hgate.
  { intros Hw. rewrite Hw in Hg. simpl in Hg. by apply negb_false_iff in Hg. }
  destruct (truth (show_existing_frame pp)) eqn:Hse.
  { unfold show_existing. destruct (Z.of_nat kNumRefFrames <=? _); [by intros [= <- <- <- <-]; apply step_refused|].
    destruct (slots (dpb e) !! _) as [s|] eqn:Es; [|by intros [= <- <- <- <-]; apply step_refused].
    destruct (slot_valid s) eqn:Hv; [|by intros [= <- <- <- <-]; apply step_refused].
    unfold slot_of_handle. destruct (list_find _ _) as [[i h]|] eqn:Ef; [|by intros [= <- <- <- <-]; apply step_refused].
    apply list_find_Some in Ef as (Hi & -> & _). intros [= <- <- <- <-]. eapply step_existing; [done| |done..].
    unfold in_dpb. apply existsb_exists. exists s. split; [by eapply list_elem_of_In, list_elem_of_lookup_2|].
    by rewrite Hv, Z.eqb_refl. }
  destruct (free_pool_slot e) as [slot|] eqn:Hs; [|by intros [= <- <- <- <-]; apply step_refused].
  apply free_pool_slot_spec in Hs as [Hs _].
  destruct (bitstream_size e <? len); [by intros [= <- <- <- <-]; apply step_refused|].
  destruct built; simpl negb; cbv iota; [|by intros [= <- <- <- <-]; apply step_unbuilt].
  cbv zeta. rewrite overridden_kick.
  destruct submitted; simpl negb; cbv iota; [|by intros [= <- <- <- <-]; apply step_failed].
  destruct (submit_done _ _ _ _ _) as [out1 e1] eqn:Ed. intros [= <- <- <- <-].
  pose proof (step_done e pp slot pts out Hs Hgate) as H. by rewrite Ed in H.
Qed.

(** ** The invariant of the engine *)
Record vp9_ok (e : Vp9Engine) : Prop := {
  vo_out : length (pool_output e) = vp9_kPoolSize;
  vo_nodup : NoDup (pool_output e);
  vo_use : length (pool_in_use e) = vp9_kPoolSize;
  vo_slots : length (slots (dpb e)) = kNumRefFrames;
  vo_valid : length (valid (parser_state e)) = kNumRefFrames;
  vo_states : length (ref_state (parser_state e)) = kNumRefFrames;
  vo_refs : forall s, s ∈ slots (dpb e) -> slot_valid s = true -> frame_handle s ∈ pool_output e;
  vo_sync : forall i s v rs, slots (dpb e) !! i = Some s -> valid (parser_state e) !! i = Some v ->
    ref_state (parser_state e) !! i = Some rs ->
    slot_valid s = truth v /\ (slot_valid s = true -> slot_width s = width rs /\ slot_height s = height rs);
}.

Lemma lookup_refresh {A} (flags : Z) (x : A) l i :
  imap (fun i y => if Z.testbit flags (Z.of_nat i) then x else y) l !! i =
    (fun y => if Z.testbit flags (Z.of_nat i) then x else y) <$> l !! i.
Proof. rewrite list_lookup_imap. done. Qed.

(** What the sticky update leaves alone. *)
Lemma update_sticky_keep e pp :
  let e' := update_sticky e pp in
  pool_output e' = pool_output e /\ pool_in_use e' = pool_in_use e /\ dpb e' = dpb e /\ parser_state e' = parser_state e /\
  wait_for_keyframe e' = wait_for_keyframe e.
Proof.
  unfold update_sticky. cbv zeta.
  destruct (truth (show_frame pp) && _), (seg_id_update_now pp), (truth (refresh_frame_context pp)); done.
Qed.

Lemma submit_done_fields e pp slot pts out :
  let e' := (submit_done e pp slot pts out).2 in
  pool_output e' = pool_output e /\ pool_in_use e' = <[slot := true]> (pool_in_use e) /\
  dpb e' = Vp9Dpb_Update (dpb e) pp (default 0 (pool_output e !! slot)) (default 0 (pool_colmv e !! slot))
                         (width pp) (height pp) (depth_or_8 (bit_depth pp)) /\
  parser_state e' = Vp9Parser_ApplyDpbUpdate (parser_state e) pp /\
  wait_for_keyframe e' = (if is_intra pp then false else wait_for_keyframe e).
Proof.
  unfold submit_done. cbn [snd]. set (e1 := if is_intra pp then e <| wait_for_keyframe := false |> else e).
  assert (pool_output e1 = pool_output e /\ pool_in_use e1 = pool_in_use e /\ dpb e1 = dpb e /\ pool_colmv e1 = pool_colmv e /\
    parser_state e1 = parser_state e /\ wait_for_keyframe e1 = (if is_intra pp then false else wait_for_keyframe e))
    as (Eo & Eu & Ed & Ec & Ep & Ew) by (unfold e1; by destruct (is_intra pp)).
  match goal with |- context [update_sticky ?x pp] => destruct (update_sticky_keep x pp) as (-> & -> & -> & -> & ->) end.
  rewrite <- Eo, <- Eu, <- Ed, <- Ec, <- Ep, <- Ew. done.
Qed.

Lemma vp9_ok_in_use e slot b : vp9_ok e -> vp9_ok (e <| pool_in_use ::= <[slot := b]> |>).
Proof. intros []. split; try done. simpl. by rewrite length_insert. Qed.
Lemma vp9_ok_wait e b : vp9_ok e -> vp9_ok (e <| wait_for_keyframe := b |>).
Proof. intros []. by split. Qed.
Lemma vp9_ok_ctx e l : vp9_ok e -> vp9_ok (e <| prob_ctx_valid := l |>).
Proof. intros []. by split. Qed.

Lemma submit_failed_ok e pp : vp9_ok e -> vp9_ok (submit_failed e pp).
Proof. intros []. unfold submit_failed. destruct (truth _); by split. Qed.

Lemma pool_free_spec e slot : pool_free e slot = true ->
  exists h, pool_output e !! slot = Some h /\ pool_in_use e !! slot = Some false /\ in_dpb e h = false.
Proof.
  unfold pool_free. destruct (pool_in_use e !! slot) as [[]|]; [done| |done].
  destruct (pool_output e !! slot) as [h|]; [|done]. intros H. exists h. split_and!; try done. by apply negb_true_iff.
Qed.

Lemma submit_done_ok e pp slot pts out :
  vp9_ok e -> pool_free e slot = true -> vp9_ok (submit_done e pp slot pts out).2.
Proof.
  intros Hok Hfree. apply pool_free_spec in Hfree as (h & Hh & _ & _). destruct Hok.
  destruct (submit_done_fields e pp slot pts out) as (Eo & Eu & Ed & Ep & _). split.
  - by rewrite Eo.
  - by rewrite Eo.
  - by rewrite Eu, length_insert.
  - rewrite Ed. simpl. by rewrite length_imap.
  - rewrite Ep. simpl. by rewrite length_imap.
  - rewrite Ep. simpl. by rewrite length_imap.
  - rewrite Ed, Eo. simpl. intros s Hs Hv. apply list_elem_of_lookup in Hs as [i Hi].
    rewrite lookup_refresh in Hi. destruct (slots (dpb e) !! i) as [old|] eqn:Ei; [|done]. simpl in Hi.
    destruct (Z.testbit _ _); injection Hi as <-; simpl.
    + rewrite Hh. simpl. by eapply list_elem_of_lookup_2.
    + eapply vo_refs0; [by eapply list_elem_of_lookup_2|done].
  - rewrite Ed, Ep. simpl. intros i s v rs Hs Hv Hr.
    rewrite lookup_refresh in Hs. rewrite lookup_refresh in Hv. rewrite lookup_refresh in Hr.
    destruct (slots (dpb e) !! i) as [s0|] eqn:Es; [|done]. destruct (valid (parser_state e) !! i) as [v0|] eqn:Ev; [|done].
    destruct (ref_state (parser_state e) !! i) as [r0|] eqn:Er; [|done]. simpl in *.
    destruct (Z.testbit _ _); injection Hs as <-; injection Hv as <-; injection Hr as <-; [by split|].
    by eapply vo_sync0.
Qed.

Lemma step_ok e pp rc out e' kick : vp9_ok e -> vp9_step e pp rc out e' kick -> vp9_ok e'.
Proof.
  intros Hok Hs. destruct Hs; try done.
  - by apply vp9_ok_in_use.
  - by apply vp9_ok_wait.
  - by apply submit_failed_ok.
  - by apply submit_done_ok.
Qed.

(** ** What a kick may touch *)

Lemma in_dpb_spec e h s : in_dpb e h = false -> s ∈ slots (dpb e) -> slot_valid s = true -> frame_handle s <> h.
Proof.
  intros Hf Hs Hv Heq. apply not_true_iff_false in Hf. apply Hf, existsb_exists. exists s.
  split; [by apply list_elem_of_In|]. by rewrite Hv, Heq, Z.eqb_refl.
Qed.

(** The output buffer of a kick is a pool buffer that nobody holds. *)
Definition kick_safe (e : Vp9Engine) (k : vp9_kick) : Prop :=
  (exists slot, pool_output e !! slot = Some (k_decout k) /\ pool_in_use e !! slot = Some false) /\
  (forall s, s ∈ slots (dpb e) -> slot_valid s = true -> frame_handle s <> k_decout k) /\
  (forall h, h ∈ k_refs k -> h = k_decout k \/ exists s, s ∈ slots (dpb e) /\ slot_valid s = true /\ frame_handle s = h).

Lemma build_kick_safe e pp slot : pool_free e slot = true -> kick_safe e (build_kick e pp slot).
Proof.
  intros Hf. apply pool_free_spec in Hf as (h & Hh & Hu & Hd). unfold kick_safe, build_kick. cbn [k_decout k_refs].
  rewrite Hh. cbn [default from_option id]. split; [by exists slot|]. split; [intros s; by apply in_dpb_spec|].
  intros r Hr. apply list_elem_of_In, in_map_iff in Hr as (d & <- & _). unfold ref_handle.
  destruct (is_intra pp); [by left|]. destruct (slots (dpb e) !! _) as [s|] eqn:Es; [|by left].
  destruct (slot_valid s) eqn:Hv; [|by left]. right. exists s. split; [by eapply list_elem_of_lookup_2|done].
Qed.

Lemma step_kick_safe e pp rc out e' k : vp9_step e pp rc out e' (Some k) -> kick_safe e k.
Proof. inversion 1; subst; by apply build_kick_safe. Qed.

(** ** The firebreak *)

(** While it is armed only a key or intra-only frame is kicked, and only one that
    succeeds disarms it; a failure arms it. *)
Lemma step_firebreak e pp rc out e' kick :
  vp9_step e pp rc out e' kick ->
  (wait_for_keyframe e = true -> forall k, kick = Some k -> k_intra k = true) /\
  (wait_for_keyframe e = true -> wait_for_keyframe e' = false -> rc = 0 /\ exists k, kick = Some k /\ k_intra k = true) /\
  (rc = -3 -> wait_for_keyframe e' = true).
Proof.
  intros H. destruct H as [out Hw Hi _ _|rc out Hrc Hrc3 _|slot h out Hh Hd Hs _ _|out|slot out Hf Hg|slot pts out Hf Hg].
  - split_and!; (done || congruence).
  - split_and!; (done || congruence).
  - split_and!; try done. intros Hw Hw'. change (wait_for_keyframe e = false) in Hw'. congruence.
  - split_and!; try done.
  - assert (wait_for_keyframe (submit_failed e (overridden e pp)) = true) as Hw by done.
    split_and!; [|congruence|done]. intros Hwe k [= <-]. by apply Hg.
  - split_and!; [intros Hwe k [= <-]; by apply Hg| |done].
    intros Hwe _. split; [done|]. eexists. split; [done|]. by apply Hg.
Qed.

(** ** The pool of the transform *)

Lemma free_slot_exists e :
  vp9_ok e -> pool_in_use e = replicate vp9_kPoolSize false -> exists slot, free_pool_slot e = Some slot.
Proof.
  intros [] Hu. destruct (free_pool_slot e) as [slot|] eqn:E; [by exists slot|]. exfalso.
  unfold free_pool_slot in E. destruct (list_find _ _) as [[]|] eqn:Ef; [done|].
  apply list_find_None in Ef. rewrite Forall_forall in Ef.
  assert (forall h, h ∈ pool_output e -> h ∈ map frame_handle (slots (dpb e))) as Hin.
  { intros h Hh. apply list_elem_of_lookup in Hh as [i Hi]. pose proof (lookup_lt_Some _ _ _ Hi) as Hlt.
    specialize (Ef i). assert (i ∈ seq 0 vp9_kPoolSize) as Hseq by (apply elem_of_seq; lia). specialize (Ef Hseq).
    unfold pool_free in Ef. rewrite Hu, lookup_replicate_2, Hi in Ef by lia.
    destruct (in_dpb e h) eqn:Hd; [|done]. unfold in_dpb in Hd. apply existsb_exists in Hd as (s & Hs & Hc).
    apply andb_true_iff in Hc as [_ Hc]. apply Z.eqb_eq in Hc. subst h. by apply list_elem_of_fmap_2, list_elem_of_In. }
  apply NoDup_submseteq, submseteq_length in Hin; [|done]. rewrite vo_out0, length_map, vo_slots0 in Hin.
  unfold vp9_kPoolSize, kNumRefFrames in Hin. lia.
Qed.

(** Releasing the frame of a call restores the marks. *)
Lemma step_release e pp out e' kick :
  vp9_ok e -> pool_in_use e = replicate vp9_kPoolSize false -> vp9_step e pp 0 out e' kick ->
  pool_in_use (Vp9DecodeEngine_ReleaseFrame e' out).1 = replicate vp9_kPoolSize false.
Proof.
  intros Hok Hu Hs.
  assert (forall slot e1, pool_in_use e1 = <[slot := true]> (pool_in_use e) -> (slot < vp9_kPoolSize)%nat ->
    out_slot out = Z.of_nat slot -> pool_in_use (Vp9DecodeEngine_ReleaseFrame e1 out).1 = replicate vp9_kPoolSize false) as Hset.
  { intros slot e1 E1 Hlt Eo. unfold Vp9DecodeEngine_ReleaseFrame. rewrite Eo.
    destruct (Z.ltb_spec (Z.of_nat slot) 0); [lia|]. destruct (Z.ltb_spec (Z.of_nat slot) (Z.of_nat vp9_kPoolSize)); [|lia].
    change (<[Z.to_nat (Z.of_nat slot) := false]> (pool_in_use e1) = replicate vp9_kPoolSize false).
    rewrite E1, Nat2Z.id, list_insert_insert_eq, Hu. apply list_insert_id. by apply lookup_replicate_2. }
  inversion Hs as [? Hw Hi Ho Hy|rc ? Hrc Hrc3 _|slot h ? Hh Hd Hse Ho Hy|?|slot ? Hf Hg|slot pts out0 Hf Hg]; subst; try done.
  - unfold Vp9DecodeEngine_ReleaseFrame. by rewrite Ho.
  - eapply (Hset slot); [done| |done]. apply lookup_lt_Some in Hh. by rewrite (vo_out _ Hok) in Hh.
  - destruct (submit_done_fields e (overridden e pp) slot pts out0) as (_ & Eu & _).
    apply pool_free_spec in Hf as (h & Hh & _). apply (Hset slot); [done| |done].
    apply lookup_lt_Some in Hh. by rewrite (vo_out _ Hok) in Hh.
Qed.

(** The buffers themselves never change. *)
Lemma step_outputs e pp rc out e' kick :
  vp9_step e pp rc out e' kick -> pool_output e' = pool_output e /\
    forall f, pool_output (Vp9DecodeEngine_ReleaseFrame e' f).1 = pool_output e.
Proof.
  intros Hs. assert (pool_output e' = pool_output e) as E.
  { destruct Hs as [| | | |slot out Hf Hg|slot pts out Hf Hg]; try done.
    - unfold submit_failed. by destruct (truth _).
    - apply (submit_done_fields e (overridden e pp) slot pts out). }
  split; [done|]. intros f. unfold Vp9DecodeEngine_ReleaseFrame.
  destruct (out_slot f <? 0); [done|]. by destruct (out_slot f <? Z.of_nat vp9_kPoolSize).
Qed.
