(* ===== verification/Vp9Props.v ===== *)
(** * Properties of the VP9 path

    The bool decoder and the compressed header against the reference decoder, the
    uncompressed header against its syntax, superframes, and the engine: its buffers,
    its firebreak, its probability contexts. *)

From S2P Require Import Prelude Bits Vp9Bool Vp9Parser Vp9Syntax Vp9ParserFacts Vp9ParserLocal.
From S2P Require Import Vp9ParserLocal Vp9Engine.

(** ** The bool decoder *)

Lemma read_bools_sim probs : forall n d r,
  sim n d r -> reader_ok r = true -> Forall (fun p => 0 <= p <= 255) probs -> n + 7 * Z.of_nat (length probs) < 2 ^ 31 ->
  exists bs d' r', read_bools d probs = Some (bs, d') /\ read_bools r probs = Some (bs, r') /\ reader_ok d' = true.
Proof.
  induction probs as [|p probs IH]; intros n d r Hs Ho Hp Hn.
  - exists [], d, r. split; [done|]. split; [done|]. by rewrite (sim_ok _ _ _ Hs).
  - apply Forall_cons in Hp as [Hp Hps]. cbn [length] in Hn.
    destruct (sim_read n d r p Hs Ho Hp) as (b & d1 & r1 & E & E' & Hs1 & Ho1 & _); [lia|].
    destruct (IH (n + 7) d1 r1) as (bs & d2 & r2 & E2 & E2' & Ho2); [done|done|done|lia|].
    exists (b :: bs), d2, r2. cbn [read_bools]. rewrite E, E'. ostep. rewrite E2, E2'. done.
Qed.

(** C3: For every buffer of at least three bytes the decoder, with its register of 24
    bits refilled two bytes at a time and its table, gives bit for bit the outputs of
    the specification's decoder, which reads and renormalises one bit at a time and
    reads zeros past the end of the partition; it never reads outside the buffer.  A
    marker bit of one, and a buffer of fewer than three bytes, put it in error, and then
    every read is a zero.  The compressed header over it has the value it has over the
    specification's decoder. *)
Theorem bool_decoder_equivalence (buf probs : list Z) (pp : PicParams) (pu : ProbUpdates) :
  Forall is_byte buf -> Forall (fun p => 0 <= p <= 255) probs -> Z.of_nat (length probs) <= 300000000 ->
  exists d bs d', init buf = Some d /\ read_bools d probs = Some (bs, d') /\ ok d' = ok d /\
    ok d = (bool_decide (3 <= length buf)%nat && marker_ok (ref_init buf)) /\
    (if ok d then exists r', read_bools (ref_init buf) probs = Some (bs, r') else bs = replicate (length probs) 0) /\
    parse_compressed_header buf pp pu =
      (if ok d then '(pu', _) ← compressed_header pp pu (ref_init buf); Some pu' else Some pu).
Proof.
  intros Hb Hp Hn. destruct (decide (3 <= length buf)%nat) as [Hl|Hl].
  - rewrite bool_decide_eq_true_2 by done. destruct (init_sim buf Hb Hl) as (d & E & Hs).
    assert (ok d = marker_ok (ref_init buf)) as Hok by (apply (sim_ok _ _ _ Hs)).
    rewrite compressed_reference by done. destruct (marker_ok (ref_init buf)) eqn:Hm.
    + destruct (read_bools_sim probs 0 d (ref_init buf)) as (bs & d' & r' & Ed & Er & Ho); [done|done|done|lia|].
      exists d, bs, d'. rewrite Hok. split_and!; try done. by exists r'.
    + assert (error_ d = true) as He by (by apply negb_false_iff). exists d, (replicate (length probs) 0), d.
      rewrite read_bools_error by done. rewrite Hok. split_and!; try done.
      unfold compressed_header, or_bail. cbn [reader_ok RefBool_reader]. by rewrite Hm.
  - rewrite bool_decide_eq_false_2 by done. destruct (init_short buf) as (d & E & Hok); [lia|].
    assert (error_ d = true) as He by (by apply negb_false_iff). exists d, (replicate (length probs) 0), d.
    rewrite read_bools_error by done. rewrite compressed_short, Hok by lia. done.
Qed.

Lemma bool_decoder_equivalence_witness :
  exists d bs d', init [0x12; 0x34; 0x56; 0x78; 0x9a] = Some d /\ read_bools d (replicate 60 100) = Some (bs, d') /\
    ok d = true /\ bs = [0; 0; 1; 1; 1; 1; 1; 0; 1; 0; 1; 0; 1; 1; 1; 1; 1; 1; 1; 1; 0; 0; 1;
        0; 1; 1; 0; 1; 1; 0; 1; 1; 0; 1; 0; 1; 1; 1; 0; 1; 1; 1; 0; 1; 0; 1;
        0; 1; 0; 1; 0; 1; 0; 1; 0; 0; 1; 1; 0; 1].
Proof.
  destruct (bool_decoder_equivalence [0x12; 0x34; 0x56; 0x78; 0x9a] (replicate 60 100) zero_params zero_updates)
    as (d & bs & d' & E & Er & _).
  - repeat constructor; done.
  - apply Forall_replicate. lia.
  - vm_compute. discriminate.
  - exists d, bs, d'. split; [done|]. split; [done|]. vm_compute in E. injection E as <-. split; [done|].
    vm_compute in Er. by injection Er as <- _.
Defined.

(** ** The uncompressed header *)


(** Sample headers: a key frame of 64x48, and an inter frame of the size of reference 1
    with segmentation, in frame context 1. *)
Definition sample_key : header :=
  Header 0 true false 0 (KeyFrame (Color false 1 false false false) (64, 48) None) true false 0
    (LfSyntax 10 3 true None) (Quant 60 None (Some (-3)) None) None (0, 0) 40.
Definition sample_inter : header :=
  Header 0 true false 0
    (InterFrame 1 [MkRefFrameDesc 0 0; MkRefFrameDesc 3 0; MkRefFrameDesc 7 1] (RefSize 1) None true (Some 2)) true true 1
    (LfSyntax 9 0 true (Some ([Some 5; None; Some (-7); None], [None; Some 1]))) (Quant 61 (Some 2) None None)
    (Some (SegSyntax (Some (replicate 7 (Some 128), Some (replicate 3 None)))
                     (Some (true, replicate 8 [Some (-20); None; Some 2; Some 0])))) (0, 1) 33.
(** A header and the bytes of its compressed part. *)
Definition frame_of (st : ParserState) (h : header) (rest : list Z) : list Z := of_bits (write_header st h) ++ rest.
Definition sample_state : ParserState :=
  Vp9Parser_ApplyDpbUpdate initial_state (header_params initial_state sample_key 0 0).

Ltac in_range := unfold fits, fits_su in *; try (vm_compute; done); try (left; vm_compute; done); try (vm_compute; lia).
Ltac check_ok := repeat (first [apply Forall_nil_2 | apply Forall_cons_2 | apply Forall2_nil_2 | apply Forall2_cons_2 | split]); in_range.

Lemma sample_key_ok st : header_ok st sample_key.
Proof. split; check_ok. Qed.

Lemma sample_inter_ok : header_ok sample_state sample_inter.
Proof. split; check_ok. vm_compute; eexists; reflexivity. Qed.

Lemma sample_state_ok : state_ok sample_state.
Proof. check_ok. Qed.


(** The parser is safe on every buffer of bytes.  It never reads outside, its result
    is decided by the uncompressed header alone, a header it accepts ends inside the
    frame, and a frame cut anywhere inside its uncompressed header is refused. *)
Theorem vp9_header_safe (st : ParserState) (frame : list Z) (pp0 : PicParams) :
  Forall is_byte frame -> Z.of_nat (length frame) < 2 ^ 32 ->
  (exists res pp pu, Vp9Parser_Parse frame st pp0 = Some (res, pp, pu) /\ res = (parse_uncompressed_header frame st pp0).1 /\
     (res = Ok -> 0 <= uncompressed_header_size pp <= Z.of_nat (length frame))) /\
  forall h more, header_ok st h -> state_ok st -> more <> [] -> write_header st h = to_bits frame ++ more ->
    forall res pp pu, Vp9Parser_Parse frame st pp0 = Some (res, pp, pu) -> res <> Ok.
Proof.
  intros Hby Hlen. destruct (Parse_header frame st pp0 Hby) as (pu & E). cbv zeta in E.
  destruct (parse_uncompressed_header frame st pp0) as [res pp] eqn:Eh. cbn [fst snd] in *. split.
  - exists res, (if bool_decide (res = Ok) then mirror_updates pp pu else pp), pu. split; [done|]. split; [done|]. intros ->.
    pose proof (accepted_inside st frame pp0 pp Hby Hlen Eh) as H. rewrite bool_decide_eq_true_2 by done.
    unfold mirror_updates. by destruct (truth (tx_mode_present pu)), (truth (ref_mode_present pu)).
  - intros h more Hh Hst Hmore Hw res' pp' pu' E'. rewrite E in E'. injection E' as <- <- <-.
    pose proof (header_cut st h frame more pp0 Hh Hst Hby Hmore Hw) as H. by rewrite Eh in H.
Qed.

Lemma vp9_header_safe_witness :
  header_ok sample_state sample_inter /\
  match Vp9Parser_Parse (take 37 (frame_of sample_state sample_inter [])) sample_state zero_params with
  | Some (res, _, _) => res <> Ok
  | None => False
  end.
Proof.
  split; [exact sample_inter_ok|].
  destruct (vp9_header_safe sample_state (take 37 (frame_of sample_state sample_inter [])) zero_params) as [(res & pp & pu & E & _) H].
  - vm_compute. repeat constructor; done.
  - vm_compute. done.
  - rewrite E. eapply (H sample_inter (drop 296 (write_header sample_state sample_inter))).
    + exact sample_inter_ok.
    + exact sample_state_ok.
    + vm_compute. done.
    + vm_compute. done.
    + exact E.
Defined.

(** ** Superframes *)

(** The index written for up to eight non-empty frames is split back into exactly
    those frames; and on any buffer of bytes the split reads inside the buffer and
    returns at most [max_frames] non-empty frames that follow each other from the start
    of the buffer and end inside it. *)
Theorem superframe_split (bps : nat) (frames : list (list Z)) (buf : list Z) (max_frames : Z) :
  (1 <= bps <= 4)%nat -> (1 <= length frames <= 8)%nat ->
  Forall (fun f => f <> [] /\ Z.of_nat (length f) < 2 ^ (8 * Z.of_nat bps)) frames ->
  Forall is_byte buf ->
  (exists table, Vp9Parser_SuperframeSplit (write_superframe bps frames) 8 = Some (Some table) /\
     map (sub_frame (write_superframe bps frames)) table = frames) /\
  (exists r, Vp9Parser_SuperframeSplit buf max_frames = Some r /\
     forall l, r = Some l -> (0 < length l)%nat /\ Z.of_nat (length l) <= Z.max 1 max_frames /\
       frames_from 0 (Z.of_nat (length buf)) l).
Proof.
  intros Hb Hn Hf Hby. split; [|by apply split_total].
  exists (frame_table 0 frames). split; [by apply split_written|]. exact (sub_frames frames [] _).
Qed.

Lemma superframe_split_witness :
  Vp9Parser_SuperframeSplit (write_superframe 2 [[1; 2; 3]; [4]; [5; 6]]) 8 = Some (Some [(0, 3); (3, 1); (4, 2)]) /\
  map (sub_frame (write_superframe 2 [[1; 2; 3]; [4]; [5; 6]])) [(0, 3); (3, 1); (4, 2)] = [[1; 2; 3]; [4]; [5; 6]].
Proof.
  destruct (superframe_split 2 [[1; 2; 3]; [4]; [5; 6]] [1; 2; 0xC1] 8) as [(table & E & Em) _].
  - lia.
  - simpl. lia.
  - repeat constructor; done.
  - repeat constructor; done.
  - vm_compute in E. injection E as <-. split; [by vm_compute|exact Em].
Defined.

(** ** The engine under the transform *)

(** The engines of a session: every frame goes through the transform's loop, whatever the
    builder and the backend answer, and a flush may come between any two. *)
Inductive vp9_reach (e0 : Vp9Engine) : Vp9Engine -> Prop :=
  | reach_start : vp9_reach e0 e0
  | reach_frame answers pts s frame s' :
      vp9_reach e0 (vs_engine s) -> Forall is_byte frame ->
      vp9_input_frame answers pts s frame = Some s' -> vp9_reach e0 (vs_engine s')
  | reach_flush e : vp9_reach e0 e -> vp9_reach e0 (Vp9DecodeEngine_Flush e).

(** The invariant between two frames: every buffer has been given back. *)
Definition vp9_idle (e : Vp9Engine) : Prop := vp9_ok e /\ pool_in_use e = replicate vp9_kPoolSize false.

Lemma vp9_fresh_idle outputs colmvs probs default bitstream :
  length outputs = vp9_kPoolSize -> NoDup outputs -> vp9_idle (vp9_engine outputs colmvs probs default bitstream).
Proof.
  intros Hl Hn. split; [|done]. split; try done.
  - intros s Hs Hv. simpl in Hs. unfold kNumRefFrames in Hs. repeat (apply elem_of_cons in Hs as [->|Hs]; [done|]). by apply elem_of_nil in Hs.
  - intros i s v rs Hs Hv Hr. apply lookup_replicate_1 in Hs as [-> ?], Hv as [-> ?]. done.
Qed.

Lemma vp9_flush_idle e : vp9_idle e -> vp9_idle (Vp9DecodeEngine_Flush e).
Proof. intros [[] Hu]. split; [by split|done]. Qed.

Lemma released_ok e out : vp9_ok e -> vp9_ok (Vp9DecodeEngine_ReleaseFrame e out).1.
Proof.
  intros Hok. unfold Vp9DecodeEngine_ReleaseFrame. destruct (out_slot out <? 0); [done|].
  destruct (out_slot out <? Z.of_nat vp9_kPoolSize); [by apply vp9_ok_in_use|done].
Qed.

(** [DecodeOne] on bytes always returns, and does one step or refuses. *)
Lemma decode_one_step built submitted e frame pts out :
  Forall is_byte frame -> exists pp rc out' e' kick,
    Vp9DecodeEngine_DecodeOne built submitted e frame pts out = Some (rc, out', e', kick) /\ vp9_step e pp rc out' e' kick.
Proof.
  intros Hby. unfold Vp9DecodeEngine_DecodeOne.
  destruct (_ =? 0); [exists zero_params; do 4 eexists; split; [done|by apply step_refused]|].
  destruct (Parse_header frame (parser_state e) zero_params Hby) as (pu & E). cbv zeta in E. rewrite E. ostep.
  set (pp := if bool_decide _ then _ else _). destruct (parse_uncompressed_header _ _ _).1;
    [|exists zero_params; do 4 eexists; split; [done|by apply step_refused]..].
  destruct (decode_parsed _ _ _ _ _ _ _) as [[[rc out'] e'] kick] eqn:Ed. exists pp, rc, out', e', kick. split; [done|].
  by eapply decode_parsed_step.
Qed.

(** One frame of the loop: a step, then the release when it succeeded. *)
Lemma input_frame_step answers pts s frame :
  Forall is_byte frame -> exists pp rc out e kick s',
    vp9_input_frame answers pts s frame = Some s' /\ vp9_step (vs_engine s) pp rc out e kick /\
    vs_kicks s' = vs_kicks s ++ option_list kick /\
    vs_engine s' = (if rc =? 0 then (Vp9DecodeEngine_ReleaseFrame e out).1 else e) /\
    decode_errors s' = decode_errors s + (if rc =? 0 then 0 else 1).
Proof.
  intros Hby. destruct (decode_one_step answers.1 answers.2 (vs_engine s) frame pts new_frame Hby)
    as (pp & rc & out & e & kick & E & Hs).
  exists pp, rc, out, e, kick. unfold vp9_input_frame. rewrite E. ostep.
  destruct (Z.eqb_spec rc 0) as [->|Hrc]; simpl negb; cbv iota; (eexists; split; [done|]); split; try done.
  destruct (out_show out && has_yuv out); simpl; split_and!; (done || lia).
Qed.

Lemma input_frame_idle answers pts s frame s' :
  vp9_idle (vs_engine s) -> Forall is_byte frame -> vp9_input_frame answers pts s frame = Some s' -> vp9_idle (vs_engine s').
Proof.
  intros [Hok Hu] Hby E. destruct (input_frame_step answers pts s frame Hby) as (pp & rc & out & e & kick & s1 & E1 & Hs & _ & He & _).
  rewrite E in E1. injection E1 as <-. rewrite He. pose proof (step_ok _ _ _ _ _ _ Hok Hs) as Hok'.
  destruct (Z.eqb_spec rc 0) as [->|Hrc].
  - split; [by apply released_ok|]. exact (step_release _ _ _ _ _ Hok Hu Hs).
  - split; [done|]. destruct Hs; try done. unfold submit_failed. by destruct (truth _).
Qed.

Lemma vp9_reach_idle e0 e : vp9_idle e0 -> vp9_reach e0 e -> vp9_idle e.
Proof.
  intros H0. induction 1 as [|answers pts s frame s' _ IH Hby E|e _ IH]; [done|by eapply input_frame_idle|by apply vp9_flush_idle].
Qed.

(** A whole buffer, superframe or not, is worked through. *)
Lemma process_input_idle answers buf pts s :
  vp9_idle (vs_engine s) -> Forall is_byte buf ->
  exists s', vp9_process_input answers buf pts s = Some s' /\ vp9_idle (vs_engine s').
Proof.
  intros Hi Hby. unfold vp9_process_input. destruct (split_total buf 8 Hby) as (r & E & _). rewrite E. ostep.
  destruct r as [frames|]; [|by eexists]. generalize (imap pair frames). intros l. clear E frames.
  revert s Hi. induction l as [|a l IH]; intros s Hi; [by exists s|]. rewrite foldlM_cons.
  assert (Forall is_byte (sub_frame buf a.2)) as Hsub by (by apply Forall_take, Forall_drop).
  destruct (input_frame_step (answers a.1) pts s _ Hsub) as (pp & rc & out & e & kick & s1 & E1 & _).
  rewrite E1. ostep. apply IH. exact (input_frame_idle _ _ _ _ _ Hi Hsub E1).
Qed.

(** C18: Whatever bytes arrive and whatever the builder and the backend answer, the
    engine of a session keeps its invariant: the pool has its sixteen distinct buffers,
    every valid slot of the reference map holds one of them and agrees with the parser's
    copy on validity and size, and between frames nothing is on loan.  Every call
    returns; the pool is never exhausted; each kick writes to a pool buffer that
    neither the consumer nor the reference map holds, and reads from that one or from a
    valid slot; and a failed kick loses no buffer. *)
Theorem vp9_engine_safe (outputs colmvs probs : list Z) (default bitstream : Z) (e : Vp9Engine) :
  length outputs = vp9_kPoolSize -> NoDup outputs ->
  vp9_reach (vp9_engine outputs colmvs probs default bitstream) e ->
  vp9_ok e /\ pool_in_use e = replicate vp9_kPoolSize false /\ pool_output e = outputs /\
  (forall built submitted frame pts, Forall is_byte frame ->
    exists rc out e' kick, Vp9DecodeEngine_DecodeOne built submitted e frame pts new_frame = Some (rc, out, e', kick) /\
      rc <> -2 /\ (forall k, kick = Some k -> kick_safe e k)) /\
  (forall answers buf pts queue kicks errors, Forall is_byte buf ->
    exists s', vp9_process_input answers buf pts (MkVp9Session e queue kicks errors) = Some s' /\ vp9_idle (vs_engine s')).
Proof.
  intros Hl Hn Hr. pose proof (vp9_reach_idle _ _ (vp9_fresh_idle outputs colmvs probs default bitstream Hl Hn) Hr) as [Hok Hu].
  split; [done|]. split; [done|]. split.
  - clear Hok Hu. induction Hr as [|answers pts s frame s' _ IH Hby E|e _ IH]; [done| |exact IH].
    destruct (input_frame_step answers pts s frame Hby) as (pp & rc & out & e & kick & s1 & E1 & Hs & _ & He & _).
    rewrite E in E1. injection E1 as <-. rewrite He, <- IH. apply step_outputs in Hs as [Ee Er]. by destruct (rc =? 0).
  - split; [|intros; by apply process_input_idle].
    intros built submitted frame pts Hby.
    destruct (decode_one_step built submitted e frame pts new_frame Hby) as (pp & rc & out & e' & kick & E & Hs).
    exists rc, out, e', kick. split; [done|]. split.
    + destruct (free_slot_exists e Hok Hu) as [slot Hf]. destruct Hs; (done || lia || idtac). apply H1. by rewrite Hf.
    + intros k ->. by eapply step_kick_safe.
Qed.

(** A sample session: sixteen buffers, and the bytes of the two sample frames. *)
Definition sample_engine : Vp9Engine :=
  vp9_engine (map Z.of_nat (seq 1 vp9_kPoolSize)) (map Z.of_nat (seq 101 vp9_kPoolSize)) [201; 202; 203; 204] 200 1048576.
Definition key_bytes : list Z := frame_of initial_state sample_key (replicate 40 85).
Definition inter_bytes : list Z := frame_of sample_state sample_inter (replicate 33 17).
Definition sample_run (e : Vp9Engine) (frames : list (list Z)) : option vp9_session :=
  foldlM (vp9_input_frame (true, true) 0) (MkVp9Session e [] [] 0) frames.

Lemma sample_key_reach s' :
  vp9_input_frame (true, true) 0 (MkVp9Session sample_engine [] [] 0) key_bytes = Some s' -> vp9_reach sample_engine (vs_engine s').
Proof.
  intros E. refine (reach_frame _ _ _ _ _ _ _ _ E); [apply reach_start|]. vm_compute. repeat constructor; done.
Qed.

Lemma vp9_engine_safe_witness :
  exists s', vp9_input_frame (true, true) 0 (MkVp9Session sample_engine [] [] 0) key_bytes = Some s' /\ vp9_ok (vs_engine s') /\
    next_poc (dpb (vs_engine s')) = 1.
Proof.
  eexists. split; [by vm_compute|]. split; [|by vm_compute].
  match goal with |- vp9_ok ?e =>
    destruct (vp9_engine_safe (map Z.of_nat (seq 1 vp9_kPoolSize)) (map Z.of_nat (seq 101 vp9_kPoolSize)) [201; 202; 203; 204]
      200 1048576 e) as [H _]
  end.
  - by vm_compute.
  - by apply (bool_decide_unpack (NoDup (map Z.of_nat (seq 1 vp9_kPoolSize)))); vm_compute.
  - apply (sample_key_reach). by vm_compute.
  - exact H.
Defined.

Lemma release_wait e f : wait_for_keyframe (Vp9DecodeEngine_ReleaseFrame e f).1 = wait_for_keyframe e.
Proof.
  unfold Vp9DecodeEngine_ReleaseFrame. destruct (out_slot f <? 0); [done|]. by destruct (out_slot f <? Z.of_nat vp9_kPoolSize).
Qed.

(** A kick that the backend fails arms the firebreak. *)
Lemma failed_kick_arms built pts s frame s' :
  vp9_input_frame (built, false) pts s frame = Some s' -> vs_kicks s' <> vs_kicks s ->
  wait_for_keyframe (vs_engine s') = true.
Proof.
  unfold vp9_input_frame. cbn [fst snd].
  destruct (Vp9DecodeEngine_DecodeOne _ _ _ _ _ _) as [[[[rc out] e] kick]|] eqn:Ed; [|done]. ostep.
  destruct kick as [k|]; cycle 1.
  { destruct (negb (rc =? 0)), (out_show out && has_yuv out); intros [= <-] Hk; exfalso; apply Hk; simpl; apply app_nil_r. }
  assert (rc = -3 /\ wait_for_keyframe e = true) as [-> Hw].
  { unfold Vp9DecodeEngine_DecodeOne in Ed. destruct (_ =? 0); [done|].
    destruct (Vp9Parser_Parse _ _ _) as [[[res pp] pu]|]; [|done]. simpl in Ed. destruct res; [|done|done].
    injection Ed as Ed. unfold decode_parsed in Ed. destruct (_ && _); [done|].
    destruct (truth (show_existing_frame pp)).
    - unfold show_existing in Ed. repeat (case_match; simplify_eq).
    - destruct (free_pool_slot _); [|done]. destruct (_ <? _); [done|]. destruct built; [|done]. simpl in Ed.
      injection Ed as <- <- <- _. done. }
  simpl. intros [= <-] _. exact Hw.
Qed.

(** The firebreak.  While it is armed only key and intra-only frames reach the
    hardware, and only such a frame that succeeds disarms it; a flush or a failed kick
    arms it.  But a show_existing_frame passes, since the parser leaves its frame type at
    zero, the type of a key frame: after a flush the code outputs a picture decoded
    before it. *)
Theorem vp9_firebreak (answers : bool * bool) (pts : Z) (s s' : vp9_session) (frame : list Z) :
  Forall is_byte frame -> vp9_input_frame answers pts s frame = Some s' ->
  (exists kick, vs_kicks s' = vs_kicks s ++ option_list kick /\
     (wait_for_keyframe (vs_engine s) = true -> forall k, kick = Some k -> k_intra k = true) /\
     (wait_for_keyframe (vs_engine s) = true -> wait_for_keyframe (vs_engine s') = false ->
        decode_errors s' = decode_errors s /\ exists k, kick = Some k /\ k_intra k = true)) /\
  (answers.2 = false -> vs_kicks s' <> vs_kicks s -> wait_for_keyframe (vs_engine s') = true) /\
  (forall e, wait_for_keyframe (Vp9DecodeEngine_Flush e) = true) /\
  exists s1 s2, sample_run sample_engine [key_bytes] = Some s1 /\
    sample_run (Vp9DecodeEngine_Flush (vs_engine s1)) [[0x8c]] = Some s2 /\
    vp9_out_queue s2 = [MkVp9DecodedFrame 0 64 48 0 true 8 true] /\ vs_kicks s2 = [] /\
    wait_for_keyframe (vs_engine s2) = true.
Proof.
  intros Hby E. destruct (input_frame_step answers pts s frame Hby) as (pp & rc & out & e & kick & s1 & E1 & Hs & Hk & He & Hd).
  rewrite E in E1. injection E1 as <-. pose proof (step_firebreak _ _ _ _ _ _ Hs) as (H1 & H2 & H3).
  assert (wait_for_keyframe (vs_engine s') = wait_for_keyframe e) as Hw.
  { rewrite He. destruct (rc =? 0); [apply release_wait|done]. }
  split; [exists kick|split; [|split; [done|]]].
  - split; [done|]. split; [done|]. rewrite Hw. intros Ha Hb. destruct (H2 Ha Hb) as [-> Hx]. split; [|done].
    rewrite Hd. simpl. lia.
  - intros Ha. destruct answers as [built ?]. simpl in Ha. subst. by eapply failed_kick_arms.
  - do 2 eexists. split; [by vm_compute|]. split; [by vm_compute|]. by vm_compute.
Qed.

Definition sample_session : vp9_session := default (MkVp9Session sample_engine [] [] 0) (sample_run sample_engine [key_bytes]).
Definition sample_failed : vp9_session :=
  default sample_session (vp9_input_frame (true, false) 0 sample_session inter_bytes).

Lemma vp9_firebreak_witness :
  vp9_input_frame (true, false) 0 sample_session inter_bytes = Some sample_failed /\
  vs_kicks sample_failed <> vs_kicks sample_session /\ wait_for_keyframe (vs_engine sample_failed) = true.
Proof.
  assert (Forall is_byte inter_bytes) as Hb by (vm_compute; repeat constructor; done).
  assert (vp9_input_frame (true, false) 0 sample_session inter_bytes = Some sample_failed) as E by (by vm_compute).
  assert (vs_kicks sample_failed <> vs_kicks sample_session) as Hk by (by vm_compute).
  split; [exact E|]. split; [exact Hk|].
  destruct (vp9_firebreak (true, false) 0 sample_session sample_failed inter_bytes) as (_ & H & _).
  - exact Hb.
  - exact E.
  - exact (H eq_refl Hk).
Defined.

(** ** The reference map *)

(** A decoded frame: its header, its buffers and its depth. *)
Definition vp9_decoded : Type := PicParams * Z * Z * Z.
Definition vp9_update (a : DpbCtx * ParserState) (x : vp9_decoded) : DpbCtx * ParserState :=
  let '(pp, frame, colmv, depth) := x in
  (Vp9Dpb_Update a.1 pp frame colmv (width pp) (height pp) depth, Vp9Parser_ApplyDpbUpdate a.2 pp).

(** The reference: the last frame of the history that refreshes slot [i], with its
    number; [k] is the number of the first. *)
Fixpoint last_refresh (i : nat) (k : Z) (hist : list vp9_decoded) : option (Z * vp9_decoded) :=
  match hist with
  | [] => None
  | x :: hist =>
      match last_refresh i (k + 1) hist with
      | Some r => Some r
      | None => if Z.testbit (refresh_frame_flags x.1.1.1) (Z.of_nat i) then Some (k, x) else None
      end
  end.
Definition refreshed_slot (r : Z * vp9_decoded) : DpbSlot :=
  let '(k, (pp, frame, colmv, depth)) := r in MkDpbSlot true frame colmv (width pp) (height pp) depth k.

Lemma vp9_history hist : forall d st i, (i < length (slots d))%nat ->
  let a := foldl vp9_update (d, st) hist in
  next_poc a.1 = next_poc d + Z.of_nat (length hist) /\
  match last_refresh i (next_poc d + 1) hist with
  | Some r => slots a.1 !! i = Some (refreshed_slot r)
  | None => slots a.1 !! i = slots d !! i
  end /\
  ref_state a.2 !! i =
    (fun rs => match last_refresh i (next_poc d + 1) hist with Some r => r.2.1.1.1 | None => rs end) <$> ref_state st !! i.
Proof.
  induction hist as [|[[[pp f] c] dep] hist IH]; intros d st i Hi.
  - simpl. split_and!; [lia|done|]. by destruct (ref_state st !! i).
  - cbn [foldl]. specialize (IH (vp9_update (d, st) (pp, f, c, dep)).1 (vp9_update (d, st) (pp, f, c, dep)).2 i).
    simpl in IH. rewrite length_imap in IH. specialize (IH Hi) as (IHn & IHs & IHr). cbv zeta.
    split; [etrans; [exact IHn|simpl length; lia]|]. cbn [last_refresh fst].
    rewrite !lookup_refresh in IHr. rewrite lookup_refresh in IHs.
    replace (Z.succ (next_poc d) + 1) with (next_poc d + 1 + 1) in IHs, IHr by lia.
    destruct (last_refresh i (next_poc d + 1 + 1) hist) as [r|].
    + split; [exact IHs|]. etrans; [exact IHr|]. by destruct (ref_state st !! i).
    + split.
      * destruct (lookup_lt_is_Some_2 (slots d) i Hi) as [s0 Es]. rewrite Es in *. simpl in IHs.
        destruct (Z.testbit (refresh_frame_flags pp) (Z.of_nat i)); exact IHs.
      * etrans; [exact IHr|]. destruct (ref_state st !! i); [|done]. simpl. by destruct (Z.testbit _ _).
Qed.

(** After any history of decoded frames, slot [i] of the reference map holds the
    buffers, size and depth of the last frame that refreshed it, and its number in the
    history as its POC, so that two slots with one POC hold the same frame; the parser's copy
    of the slot is that frame's header; a slot never refreshed is invalid, and
    show_existing_frame answers with the slot's buffer, or 0. *)
Theorem vp9_reference_map (hist : list vp9_decoded) (i : nat) :
  (i < kNumRefFrames)%nat ->
  let '(d, st) := foldl vp9_update (initial_dpb, initial_state) hist in
  next_poc d = Z.of_nat (length hist) /\
  slots d !! i = Some (from_option refreshed_slot zero_dpb_slot (last_refresh i 1 hist)) /\
  ref_state st !! i = Some (from_option (fun r => r.2.1.1.1) zero_params (last_refresh i 1 hist)) /\
  (forall pp, show_existing_frame_idx pp = Z.of_nat i ->
     Vp9Dpb_ShowExisting d pp = from_option (fun r => r.2.1.1.2) 0 (last_refresh i 1 hist)).
Proof.
  intros Hi. pose proof (vp9_history hist initial_dpb initial_state i Hi) as (Hn & Hs & Hr).
  destruct (foldl vp9_update _ hist) as [d st]. cbn [fst snd] in *.
  change (next_poc initial_dpb + 1) with 1 in Hs, Hr.
  assert (slots d !! i = Some (from_option refreshed_slot zero_dpb_slot (last_refresh i 1 hist))) as Es.
  { destruct (last_refresh i 1 hist); [exact Hs|]. rewrite Hs. by apply lookup_replicate_2. }
  split; [exact Hn|]. split; [exact Es|]. split.
  - assert (ref_state initial_state !! i = Some zero_params) as E0 by (by apply lookup_replicate_2). rewrite Hr, E0.
    by destruct (last_refresh i 1 hist).
  - intros pp Hpp. unfold Vp9Dpb_ShowExisting. rewrite Hpp, Nat2Z.id, Es.
    destruct (Z.leb_spec (Z.of_nat kNumRefFrames) (Z.of_nat i)); [lia|].
    by destruct (last_refresh i 1 hist) as [[k [[[? ?] ?] ?]]|].
Qed.

Lemma vp9_reference_map_witness :
  slots (foldl vp9_update (initial_dpb, initial_state)
    [(zero_params <| refresh_frame_flags := 0xFF |>, 1, 101, 8); (zero_params <| refresh_frame_flags := 4 |>, 2, 102, 8)]).1 !! 2%nat =
    Some (MkDpbSlot true 2 102 0 0 8 2).
Proof.
  destruct (vp9_reference_map
    [(zero_params <| refresh_frame_flags := 0xFF |>, 1, 101, 8); (zero_params <| refresh_frame_flags := 4 |>, 2, 102, 8)] 2)
    as (_ & H & _); [unfold kNumRefFrames; lia|]. exact H.
Defined.

(** ** Probability contexts *)

(** A frame starts from the saved probabilities of its context only when it is an
    inter frame, not error resilient, of a context marked valid, and a frame whose kick
    failed leaves its context unmarked; but a key frame does not unmark the contexts.  Of
    the sample session of a key frame and an inter frame in context 1, played twice, the
    second inter frame starts from what the first left in context 1, although the key
    frame between them resets every context. *)
Theorem vp9_stale_context (e : Vp9Engine) (pp : PicParams) (slot : nat) :
  k_last_prob (build_kick e pp slot) =
    (if bool_decide (prob_ctx_valid e !! fcx_of pp = Some 0 \/ prob_ctx_valid e !! fcx_of pp = None) ||
        truth (error_resilient_mode pp) || is_intra pp
     then prob_default e else k_prob_writeback (build_kick e pp slot)) /\
  (truth (refresh_frame_context pp) = true -> (fcx_of pp < length (prob_ctx_valid e))%nat ->
     prob_ctx_valid (submit_failed e pp) !! fcx_of pp = Some 0) /\
  exists s, sample_run sample_engine [key_bytes; inter_bytes; key_bytes; inter_bytes] = Some s /\
    map k_intra (vs_kicks s) = [true; false; true; false] /\ decode_errors s = 0 /\
    map k_last_prob (vs_kicks s) = [200; 200; 200; 202] /\ map k_prob_writeback (vs_kicks s) = [201; 202; 201; 202].
Proof.
  split; [|split].
  - unfold build_kick, ctx_valid, truth. cbn [k_last_prob k_prob_writeback].
    destruct (prob_ctx_valid e !! fcx_of pp) as [v|]; cbn -[bool_decide Z.eqb].
    + destruct (Z.eqb_spec v 0) as [->|Hv].
      * by rewrite bool_decide_eq_true_2 by (by left).
      * rewrite bool_decide_eq_false_2 by (intros [[= ?]|[=]]; done). simpl.
        by destruct (error_resilient_mode pp =? 0), (is_intra pp).
    + by rewrite bool_decide_eq_true_2 by (by right).
  - intros Hf Hl. unfold submit_failed. rewrite Hf.
    change (<[fcx_of pp := 0]> (prob_ctx_valid e) !! fcx_of pp = Some 0). by apply list_lookup_insert_eq.
  - eexists. split; [by vm_compute|]. by vm_compute.
Qed.

Lemma vp9_stale_context_witness :
  prob_ctx_valid (submit_failed (vs_engine sample_session) (zero_params <| refresh_frame_context := 1 |>)) !! 0%nat = Some 0.
Proof.
  destruct (vp9_stale_context (vs_engine sample_session) (zero_params <| refresh_frame_context := 1 |>) 0) as (_ & H & _).
  apply H; [done|]. vm_compute. lia.
Defined.
