(* ===== verification/ByteStream.v ===== *)
(** * NAL framing (mft/avcc_to_annexb.cpp, mft/au_iter.cpp)

    The conversion of length-prefixed NAL units to Annex-B, the iterator over the access
    units of an Annex-B stream and the locator of the slice in one of them.  Buffers are
    lists of bytes, offsets are natural numbers; [None] is a read outside the buffer or
    fuel that ran out, which [ByteStream] rules out. *)

From S2P Require Import Prelude Bits.

(** ** Length-prefixed framing *)

Definition kStartCode : list Z := [0; 0; 0; 1].

Definition AVCC_LEN_1 : Z := 1.
Definition AVCC_LEN_2 : Z := 2.
Definition AVCC_LEN_4 : Z := 4.

(** A big-endian length of [n] bytes; 0 for a width the caller excludes. *)
Definition read_be_len (p : list Z) (n : Z) : option Z :=
  if n =? AVCC_LEN_1 then p !! 0%nat
  else if n =? AVCC_LEN_2 then
    a ← p !! 0%nat; b ← p !! 1%nat; Some (Z.lor (Z.shiftl a 8) b)
  else if n =? AVCC_LEN_4 then
    a ← p !! 0%nat; b ← p !! 1%nat; c ← p !! 2%nat; d ← p !! 3%nat;
    Some (Z.lor (Z.lor (Z.lor (Z.shiftl a 24) (Z.shiftl b 16)) (Z.shiftl c 8)) d)
  else Some 0.

(** The loop over the NAL units: [rest] is the input from [in_off], [out] the bytes written
    so far.  [4 + nal_len] is added in 32 bits. *)
Fixpoint avcc_loop (fuel : nat) (n : Z) (rest out : list Z) (out_capacity : Z) : option (bool * list Z) :=
  match fuel with
  | O => None
  | S fuel =>
      match rest with
      | [] => Some (true, out)
      | _ =>
          if Z.of_nat (length rest) <? n then Some (false, out) else
          nal_len ← read_be_len rest n;
          let rest := drop (Z.to_nat n) rest in
          if nal_len =? 0 then Some (false, out) else
          if Z.of_nat (length rest) <? nal_len then Some (false, out) else
          if u64 (out_capacity - Z.of_nat (length out)) <? u32 (4 + nal_len) then Some (false, out) else
          avcc_loop fuel n (drop (Z.to_nat nal_len) rest)
            (out ++ kStartCode ++ take (Z.to_nat nal_len) rest) out_capacity
      end
  end.

(** The return value, and what was written to the output buffer. *)
Definition AvccToAnnexB (input : list Z) (len_size : Z) (out_capacity : Z) : option (Z * list Z) :=
  if negb ((len_size =? AVCC_LEN_1) || (len_size =? AVCC_LEN_2) || (len_size =? AVCC_LEN_4)) then Some (-1, []) else
  '(ok, out) ← avcc_loop (S (length input)) len_size input [] out_capacity;
  Some (if negb ok then (-1, out) else
        if 0x7FFFFFFF <? Z.of_nat (length out) then (-1, out) else (Z.of_nat (length out), out)).

Inductive NalFraming := FRAMING_ANNEXB | FRAMING_AVCC4.

(** [l] starts with the bytes [p]. *)
Definition starts (p l : list Z) : bool := bool_decide (take (length p) l = p).

Definition DetectNalFraming (buf : list Z) : NalFraming :=
  if starts [0; 0; 0; 1] buf then FRAMING_ANNEXB else
  if starts [0; 0; 1] buf then FRAMING_ANNEXB else FRAMING_AVCC4.

(** The conversion in front of the engine ([DecodeEngine_SubmitFramed],
    [DecodeEngine_DecodeOneFramed], [DecodeEngine_FeedExtradata]): into a buffer 64 bytes
    longer than the input.  [Some None] is the failure of the call. *)
Definition framed_au (framing : NalFraming) (len_size : Z) (au : list Z) : option (option (list Z)) :=
  match framing with
  | FRAMING_ANNEXB => Some (Some au)
  | FRAMING_AVCC4 =>
      '(n, out) ← AvccToAnnexB au len_size (Z.of_nat (length au) + 64);
      Some (if n <? 0 then None else Some out)
  end.

(** ** Start codes *)

(** From offset [i] on, where [l] is the rest of the buffer. *)
Fixpoint scan_code (l : list Z) (i : nat) : option nat :=
  match l with
  | [] => None
  | _ :: l' =>
      if starts [0; 0; 1] l then Some (i + 3)%nat else
      if starts [0; 0; 0; 1] l then Some (i + 4)%nat else scan_code l' (S i)
  end.
Definition find_start_code (buf : list Z) (from : nat) : option nat := scan_code (drop from buf) from.

Definition backup_to_4byte_sc (buf : list Z) (sc : nat) : option nat :=
  if (0 <? sc)%nat then
    b ← buf !! (sc - 1)%nat;
    Some (if b =? 0 then (sc - 1)%nat else sc)
  else Some sc.

Definition h264_nal_is_slice (hdr0 : Z) : bool :=
  let t := Z.land hdr0 0x1F in (t =? 1) || (t =? 5).
Definition h265_nal_is_slice (hdr0 : Z) : bool := Z.land (Z.shiftr hdr0 1) 0x3F <? 32.

(** ** The iterator *)

(** The end of the NAL unit whose header is at [nh]. *)
Definition nal_end (buf : list Z) (nh : nat) : option nat :=
  match find_start_code buf (nh + 1) with
  | None => Some (length buf)
  | Some nxt => backup_to_4byte_sc buf (nxt - 3)
  end.

(** The first slice from [nh] on: its header and its end. *)
Fixpoint slice_loop (fuel : nat) (is_slice : Z -> bool) (buf : list Z) (nh : nat) : option (option (nat * nat)) :=
  match fuel with
  | O => None
  | S fuel =>
      if (nh <? length buf)%nat then
        hdr ← buf !! nh;
        if is_slice hdr then end_ ← nal_end buf nh; Some (Some (nh, end_)) else
        match find_start_code buf (nh + 1) with
        | None => Some None
        | Some nxt => slice_loop fuel is_slice buf nxt
        end
      else Some None
  end.

Record access := Access { au_off : nat; au_len : nat; slice_off : nat }.

(** [Some None] is the end of the stream; otherwise the access unit and the new position. *)
Definition au_next_common (is_slice : Z -> bool) (buf : list Z) (pos : nat) : option (option (access * nat)) :=
  if (length buf <=? pos)%nat then Some None else
  match find_start_code buf pos with
  | None => Some None
  | Some first_sc =>
      sc_start ← backup_to_4byte_sc buf (first_sc - 3);
      r ← slice_loop (S (length buf)) is_slice buf first_sc;
      match r with
      | None => Some None
      | Some (slice_nh, end_) =>
          so ← backup_to_4byte_sc buf (slice_nh - 3);
          Some (Some (Access sc_start (end_ - sc_start) so, end_))
      end
  end.
Definition H264AuNext := au_next_common h264_nal_is_slice.
Definition H265AuNext := au_next_common h265_nal_is_slice.

(** Until the iterator says stop. *)
Fixpoint au_walk (fuel : nat) (is_slice : Z -> bool) (buf : list Z) (pos : nat) : option (list access) :=
  match fuel with
  | O => None
  | S fuel =>
      r ← au_next_common is_slice buf pos;
      match r with
      | None => Some []
      | Some (a, pos) => l ← au_walk fuel is_slice buf pos; Some (a :: l)
      end
  end.
Definition au_all (is_slice : Z -> bool) (buf : list Z) : option (list access) :=
  au_walk (S (length buf)) is_slice buf 0.

(** ** The slice of one access unit *)

Fixpoint find_slice_loop (fuel : nat) (is_slice : Z -> bool) (au : list Z) (i : nat) : option (option nat) :=
  match fuel with
  | O => None
  | S fuel =>
      if (i + 4 <? length au)%nat then
        let rest := drop i au in
        let sc3 := starts [0; 0; 1] rest in
        if negb sc3 && negb (starts [0; 0; 0; 1] rest) then find_slice_loop fuel is_slice au (i + 1) else
        let hdr_off := (i + if sc3 then 3 else 4)%nat in
        if (length au <=? hdr_off)%nat then Some None else
        hdr ← au !! hdr_off;
        if is_slice hdr then Some (Some i) else find_slice_loop fuel is_slice au (hdr_off + 1)
      else Some None
  end.
(** Offset and size; [Some None] is the non-zero return. *)
Definition find_slice_nal_common (is_slice : Z -> bool) (au : list Z) : option (option (nat * nat)) :=
  match find_slice_loop (S (length au)) is_slice au 0 with
  | Some (Some i) => Some (Some (i, (length au - i)%nat))
  | Some None => Some None
  | None => None
  end.
Definition H264FindSliceNal := find_slice_nal_common h264_nal_is_slice.
Definition H265FindSliceNal := find_slice_nal_common h265_nal_is_slice.

(** * Facts of the NAL framing: written streams, start codes, access units *)

(** ** Length-prefixed framing *)

Definition annexb_nal (nal : list Z) : list Z := kStartCode ++ nal.
Definition annexb (nals : list (list Z)) : list Z := flat_map annexb_nal nals.

(** [v] in [n] bytes, most significant first. *)
Fixpoint write_be (n : nat) (v : Z) : list Z :=
  match n with
  | O => []
  | S n => (v / 2 ^ (8 * Z.of_nat n)) mod 256 :: write_be n v
  end.
Definition avcc_nal (n : Z) (nal : list Z) : list Z := write_be (Z.to_nat n) (Z.of_nat (length nal)) ++ nal.
Definition write_avcc (n : Z) (nals : list (list Z)) : list Z := flat_map (avcc_nal n) nals.

Definition len_size_ok (n : Z) : Prop := n = 1 \/ n = 2 \/ n = 4.
(** A NAL unit that the length field can hold. *)
Definition avcc_ok (n : Z) (nal : list Z) : Prop := 0 < Z.of_nat (length nal) < 2 ^ (8 * n).

Lemma length_write_be n v : length (write_be n v) = n.
Proof. induction n as [|n IH]; [done|]. simpl. by rewrite IH. Qed.

(** The value of a field. *)
Definition be_val (l : list Z) : Z := foldl (fun v b => v * 256 + b) 0 l.

Lemma foldl_be l : forall v, foldl (fun v b => v * 256 + b) v l = v * 2 ^ (8 * Z.of_nat (length l)) + be_val l.
Proof.
  induction l as [|b l IH]; intros v; [change (v = v * 1 + 0); lia|]. unfold be_val. cbn [foldl length]. rewrite !IH.
  replace (8 * Z.of_nat (S (length l))) with (8 + 8 * Z.of_nat (length l)) by lia. rewrite Z.pow_add_r by lia. lia.
Qed.
Lemma be_val_cons b l : be_val (b :: l) = b * 2 ^ (8 * Z.of_nat (length l)) + be_val l.
Proof. unfold be_val. cbn [foldl]. by rewrite foldl_be. Qed.

Lemma be_val_range l : Forall is_byte l -> 0 <= be_val l < 2 ^ (8 * Z.of_nat (length l)).
Proof.
  induction 1 as [|b l Hb _ IH]; [unfold be_val; simpl; lia|]. rewrite be_val_cons. cbn [length].
  replace (8 * Z.of_nat (S (length l))) with (8 + 8 * Z.of_nat (length l)) by lia. rewrite Z.pow_add_r by lia.
  unfold is_byte in Hb. nia.
Qed.

Lemma be_val_write n : forall v, be_val (write_be n v) = v mod 2 ^ (8 * Z.of_nat n).
Proof.
  induction n as [|n IH]; intros v; [simpl; by rewrite Z.mod_1_r|]. cbn [write_be]. rewrite be_val_cons, IH, length_write_be.
  replace (8 * Z.of_nat (S n)) with (8 * Z.of_nat n + 8) by lia. rewrite Z.pow_add_r by lia.
  rewrite Z.rem_mul_r by lia. change (2 ^ 8) with 256. lia.
Qed.

Lemma write_be_mod n : forall v k, Z.of_nat n <= k -> write_be n (v mod 2 ^ (8 * k)) = write_be n v.
Proof.
  induction n as [|n IH]; intros v k Hk; [done|]. cbn [write_be]. rewrite IH by lia. f_equal.
  replace (8 * k) with (8 * Z.of_nat n + (8 + 8 * (k - Z.of_nat n - 1))) by lia.
  rewrite !Z.pow_add_r by lia. change (2 ^ 8) with 256. rewrite Z.rem_mul_r by lia.
  rewrite Z.add_comm, Z.mul_comm, Z.div_add_l by lia. rewrite (Z.div_small (v mod _)) by (apply Z.mod_pos_bound; lia).
  rewrite Z.add_0_r, Z.mod_mod_divide; [done|]. apply Z.divide_factor_l.
Qed.

Lemma write_be_val l : Forall is_byte l -> write_be (length l) (be_val l) = l.
Proof.
  induction 1 as [|b l Hb Hl IH]; [done|]. cbn [write_be length]. rewrite be_val_cons.
  pose proof (be_val_range l Hl) as Hr. rewrite Z.div_add_l by lia. rewrite (Z.div_small (be_val l)) by done.
  unfold is_byte in Hb. rewrite Z.add_0_r, Z.mod_small by lia. f_equal.
  rewrite <- (write_be_mod _ _ (Z.of_nat (length l))) by lia.
  rewrite Z.add_comm, Z.mod_add by lia. by rewrite Z.mod_small.
Qed.

Lemma bytes_write_be n v : Forall is_byte (write_be n v).
Proof. induction n as [|n IH]; [done|]. cbn [write_be]. constructor; [|done]. apply Z.mod_pos_bound. lia. Qed.

(** The field is read as written. *)
Lemma read_be_val n p : len_size_ok n -> Forall is_byte p -> n <= Z.of_nat (length p) ->
  read_be_len p n = Some (be_val (take (Z.to_nat n) p)).
Proof.
  intros Hn Hp Hl. unfold read_be_len, is_byte in *.
  destruct Hn as [-> | [-> | -> ] ]; simpl Z.eqb; cbv iota.
  - destruct p as [|a p]; [simpl in Hl; lia|]. done.
  - destruct p as [|a [|b p] ]; [simpl in Hl; lia..|]. rewrite !Forall_cons in Hp. destruct Hp as (Ha & Hb & _).
    cbn. f_equal. rewrite Z.shiftl_mul_pow2, lor_high_low by lia. unfold be_val. cbn [take foldl Z.to_nat Pos.to_nat]. simpl. lia.
  - destruct p as [|a [|b [|c [|d p] ] ] ]; [simpl in Hl; lia..|]. rewrite !Forall_cons in Hp. destruct Hp as (Ha & Hb & Hc & Hd & _).
    cbn. f_equal. rewrite !Z.shiftl_mul_pow2 by lia.
    replace (a * 2 ^ 24) with (a * 2 ^ 8 * 2 ^ 16) by lia.
    replace (a * 2 ^ 8 * 2 ^ 16) with (a * 2 ^ 24) by lia. rewrite (lor_high_low a (b * 2 ^ 16) 24) by lia.
    replace (a * 2 ^ 24 + b * 2 ^ 16) with ((a * 2 ^ 8 + b) * 2 ^ 16) by lia. rewrite (lor_high_low _ (c * 2 ^ 8) 16) by lia.
    replace ((a * 2 ^ 8 + b) * 2 ^ 16 + c * 2 ^ 8) with (((a * 2 ^ 8 + b) * 2 ^ 8 + c) * 2 ^ 8) by lia.
    rewrite lor_high_low by lia. unfold be_val. simpl. lia.
Qed.

(** A written unit is read back. *)
Lemma avcc_head n nal more : len_size_ok n -> avcc_ok n nal ->
  let rest := avcc_nal n nal ++ more in
  be_val (take (Z.to_nat n) rest) = Z.of_nat (length nal) /\ drop (Z.to_nat n) rest = nal ++ more.
Proof.
  intros Hn [_ Hok] rest. unfold rest, avcc_nal. rewrite <- app_assoc.
  pose proof (length_write_be (Z.to_nat n) (Z.of_nat (length nal))) as El.
  assert (0 <= n) as Hn0 by (destruct Hn as [-> | [-> | -> ] ]; lia).
  rewrite take_app_le, drop_app_le by lia. rewrite take_ge, drop_ge by lia. rewrite be_val_write, Z2Nat.id by lia.
  split; [apply Z.mod_small; lia|done].
Qed.

(** What is read is a written unit. *)
Lemma avcc_split n rest : len_size_ok n -> Forall is_byte rest -> n <= Z.of_nat (length rest) ->
  let v := be_val (take (Z.to_nat n) rest) in let body := drop (Z.to_nat n) rest in
  v <> 0 -> v <= Z.of_nat (length body) ->
  avcc_ok n (take (Z.to_nat v) body) /\ rest = avcc_nal n (take (Z.to_nat v) body) ++ drop (Z.to_nat v) body.
Proof.
  intros Hn Hb Hl v body Hv Hle. assert (0 <= n) as Hn0 by (destruct Hn as [-> | [-> | -> ] ]; lia).
  assert (Forall is_byte (take (Z.to_nat n) rest)) as Ht by (by apply Forall_take).
  assert (length (take (Z.to_nat n) rest) = Z.to_nat n) as El by (rewrite length_take; lia).
  pose proof (be_val_range _ Ht) as Hr. fold v in Hr. rewrite El, Z2Nat.id in Hr by lia.
  assert (Z.of_nat (length (take (Z.to_nat v) body)) = v) as Ev by (rewrite length_take; lia).
  unfold avcc_ok. rewrite Ev. split; [lia|]. unfold avcc_nal. rewrite Ev.
  assert (write_be (Z.to_nat n) v = take (Z.to_nat n) rest) as Ew by (etrans; [|exact (write_be_val _ Ht)]; by rewrite El).
  rewrite Ew, <- app_assoc. unfold body. by rewrite !take_drop.
Qed.

Lemma length_annexb_cons nal nals : Z.of_nat (length (annexb (nal :: nals))) = 4 + Z.of_nat (length nal) + Z.of_nat (length (annexb nals)).
Proof. unfold annexb. cbn [flat_map]. rewrite length_app. unfold annexb_nal. rewrite length_app. simpl. lia. Qed.

(** One round of the loop, on what is left of the input. *)
Lemma avcc_loop_round fuel n rest out cap : rest <> [] ->
  avcc_loop (S fuel) n rest out cap =
    (if Z.of_nat (length rest) <? n then Some (false, out) else
     nal_len ← read_be_len rest n;
     if nal_len =? 0 then Some (false, out) else
     if Z.of_nat (length (drop (Z.to_nat n) rest)) <? nal_len then Some (false, out) else
     if u64 (cap - Z.of_nat (length out)) <? u32 (4 + nal_len) then Some (false, out) else
     avcc_loop fuel n (drop (Z.to_nat nal_len) (drop (Z.to_nat n) rest))
       (out ++ kStartCode ++ take (Z.to_nat nal_len) (drop (Z.to_nat n) rest)) cap).
Proof. by destruct rest. Qed.

(** What the input says when it is a written one. *)
Lemma written_inv n rest nals : len_size_ok n -> rest <> [] -> Forall (avcc_ok n) nals -> rest = write_avcc n nals ->
  let body := drop (Z.to_nat n) rest in
  n <= Z.of_nat (length rest) /\
  exists nal more, nals = nal :: more /\ avcc_ok n nal /\ Forall (avcc_ok n) more /\
    be_val (take (Z.to_nat n) rest) = Z.of_nat (length nal) /\ body = nal ++ write_avcc n more.
Proof.
  intros Hn Hne Hok Hw body. assert (1 <= n) as Hn0 by (destruct Hn as [-> | [-> | -> ] ]; lia).
  destruct nals as [|nal more]; [by subst|]. apply Forall_cons in Hok as [Hk Hm].
  destruct (avcc_head n nal (write_avcc n more) Hn Hk) as [E1 E2]. unfold body. rewrite Hw. split.
  - unfold write_avcc, avcc_nal. cbn [flat_map]. rewrite !length_app, length_write_be. lia.
  - by exists nal, more.
Qed.

Lemma avcc_loop_spec n cap : len_size_ok n -> 0 <= cap < 2 ^ 64 -> forall fuel rest out,
  Forall is_byte rest -> (length rest < fuel)%nat -> Z.of_nat (length rest) < 2 ^ 32 - 4 -> Z.of_nat (length out) <= cap ->
  exists ok out', avcc_loop fuel n rest out cap = Some (ok, out') /\ Z.of_nat (length out') <= cap /\
    (ok = true -> exists nals, Forall (avcc_ok n) nals /\ rest = write_avcc n nals /\ out' = out ++ annexb nals) /\
    (ok = false -> forall nals, Forall (avcc_ok n) nals -> rest = write_avcc n nals ->
       cap < Z.of_nat (length out) + Z.of_nat (length (annexb nals))).
Proof.
  intros Hn Hcap. assert (1 <= n) as Hn0 by (destruct Hn as [-> | [-> | -> ] ]; lia).
  induction fuel as [|fuel IH]; intros rest out Hb Hf Hsmall Ho; [lia|].
  destruct (decide (rest = [])) as [->|Hne].
  { exists true, out. split_and!; [done|done| |done]. intros _. exists []. split_and!; [done|done|by rewrite app_nil_r]. }
  pose proof (fun nals => written_inv n rest nals Hn Hne) as Hinv. cbv zeta in Hinv.
  rewrite avcc_loop_round, u64_small by (done || lia).
  destruct (Z.ltb_spec (Z.of_nat (length rest)) n) as [Hlt|Hge].
  { exists false, out. split_and!; [done|done|done|]. intros _ nals Hok Hw. destruct (Hinv _ Hok Hw). lia. }
  rewrite (read_be_val n rest Hn Hb) by lia. ostep. set (v := be_val _) in *. set (body := drop _ rest) in *.
  assert ((v = 0 \/ Z.of_nat (length body) < v) -> forall nals, Forall (avcc_ok n) nals -> rest = write_avcc n nals -> False) as Hbad.
  { intros Hc nals Hok Hw. destruct (Hinv _ Hok Hw) as (_ & nal & more & -> & Hk & _ & E & Eb).
    destruct Hk. apply (f_equal length) in Eb. rewrite length_app in Eb. lia. }
  destruct (Z.eqb_spec v 0) as [Hv|Hv].
  { exists false, out. split_and!; [done|done|done|]. intros _ nals Hok Hw. exfalso. apply (Hbad (or_introl Hv) nals Hok Hw). }
  destruct (Z.ltb_spec (Z.of_nat (length body)) v) as [Hlt|Hle].
  { exists false, out. split_and!; [done|done|done|]. intros _ nals Hok Hw. exfalso. apply (Hbad (or_intror Hlt) nals Hok Hw). }
  destruct (avcc_split n rest Hn Hb Hge Hv Hle) as [Hk Ew]. fold v body in Hk, Ew.
  assert (Z.of_nat (length body) <= Z.of_nat (length rest) - n) as Hbl by (unfold body; rewrite length_drop; lia).
  assert (Z.of_nat (length (take (Z.to_nat v) body)) = v) as Ev by (destruct Hk as [Hk _]; rewrite length_take in *; lia).
  rewrite u32_small by (destruct Hk; lia).
  destruct (Z.ltb_spec (cap - Z.of_nat (length out)) (4 + v)) as [Hc|Hc].
  { exists false, out. split_and!; [done|done|done|]. intros _ nals Hok Hw.
    destruct (Hinv _ Hok Hw) as (_ & nal & more & -> & _ & _ & E & _). rewrite length_annexb_cons. lia. }
  destruct (IH (drop (Z.to_nat v) body) (out ++ kStartCode ++ take (Z.to_nat v) body)) as (ok & out' & E & Hlen & Ht & Hf').
  1: by apply Forall_drop, Forall_drop.
  1-2: rewrite length_drop; lia.
  1: rewrite !length_app; change (length kStartCode) with 4%nat; lia.
  exists ok, out'. split; [exact E|]. split; [exact Hlen|]. split.
  - intros Hok. destruct (Ht Hok) as (nals & Hn1 & Hn2 & ->). exists (take (Z.to_nat v) body :: nals). split; [by constructor|].
    split; [etrans; [exact Ew|]; unfold write_avcc; cbn [flat_map]; f_equal; exact Hn2|].
    unfold annexb. cbn [flat_map]. unfold annexb_nal. by rewrite <- !app_assoc.
  - intros Hok nals Hall Hw. destruct (Hinv _ Hall Hw) as (_ & nal & more & -> & _ & Hm & E1 & Eb).
    assert (drop (Z.to_nat v) body = write_avcc n more) as Ed by (rewrite Eb, E1, Nat2Z.id; apply drop_app_length).
    specialize (Hf' Hok more Hm Ed). rewrite length_annexb_cons. rewrite !length_app in Hf'. change (length kStartCode) with 4%nat in Hf'. lia.
Qed.

(** ** Start codes *)

Lemma starts_app p l : starts p (p ++ l) = true.
Proof. apply bool_decide_eq_true_2. apply take_app_length. Qed.
Lemma starts_true p l : starts p l = true -> l = p ++ drop (length p) l.
Proof. intros H. apply bool_decide_eq_true_1 in H. rewrite <- H at 1. by rewrite take_drop. Qed.
Lemma starts_lookup p l i x : starts p l = true -> p !! i = Some x -> l !! i = Some x.
Proof. intros H Hi. rewrite (starts_true _ _ H). by apply lookup_app_l_Some. Qed.

(** What a code found says of the buffer. *)
Lemma scan_code_some l : forall i k, scan_code l i = Some k ->
  (i + 3 <= k <= i + length l)%nat /\ l !! (k - i - 2)%nat = Some 0 /\
  ((k - i - 3 = 0)%nat -> starts [0; 0; 1] l = true).
Proof.
  induction l as [|a l IH]; intros i k; [done|]. cbn [scan_code].
  destruct (starts [0; 0; 1] (a :: l)) eqn:H3.
  { intros [= <-]. pose proof (starts_lookup _ _ 2 1 H3 eq_refl) as H2. pose proof (starts_lookup _ _ 1 0 H3 eq_refl) as H0.
    apply lookup_lt_Some in H2. replace (i + 3 - i - 2)%nat with 1%nat by lia. split_and!; [lia|lia|done|done]. }
  destruct (starts [0; 0; 0; 1] (a :: l)) eqn:H4.
  { intros [= <-]. pose proof (starts_lookup _ _ 3 1 H4 eq_refl) as H2. pose proof (starts_lookup _ _ 2 0 H4 eq_refl) as H0.
    apply lookup_lt_Some in H2. replace (i + 4 - i - 2)%nat with 2%nat by lia. split_and!; [lia|lia|done|lia]. }
  intros H. destruct (IH _ _ H) as ([H1 H2] & Hl & _). cbn [length].
  replace (k - i - 2)%nat with (S (k - S i - 2)) by lia. split_and!; [lia|lia|done|lia].
Qed.

Lemma find_some buf from k : find_start_code buf from = Some k ->
  (from + 3 <= k <= length buf)%nat /\ buf !! (k - 2)%nat = Some 0 /\
  (k = (from + 3)%nat -> starts [0; 0; 1] (drop from buf) = true).
Proof.
  intros H. apply scan_code_some in H as ([H1 H2] & Hl & Hs). rewrite length_drop in H2.
  rewrite lookup_drop in Hl. replace (from + (k - from - 2))%nat with (k - 2)%nat in Hl by lia.
  assert (from <= length buf)%nat by (apply lookup_lt_Some in Hl; lia).
  split_and!; [lia|lia|done|]. intros ->. apply Hs. lia.
Qed.

Lemma backup_some buf sc : (sc <= length buf)%nat -> exists r, backup_to_4byte_sc buf sc = Some r /\ (r <= sc <= r + 1)%nat /\
  (r = sc -> sc = 0%nat \/ exists b, buf !! (sc - 1)%nat = Some b /\ b <> 0) /\ ((r < sc)%nat -> buf !! r = Some 0).
Proof.
  intros Hsc. unfold backup_to_4byte_sc. destruct (Nat.ltb_spec 0 sc) as [Hp|Hp].
  - destruct (lookup_lt_is_Some_2 buf (sc - 1)) as [b Hb]; [lia|]. rewrite Hb. ostep.
    destruct (Z.eqb_spec b 0) as [->|Hne]; eexists; (split; [done|]); split_and!; (lia || done || idtac).
    intros _. right. by exists b.
  - exists sc. split; [done|]. split_and!; [lia|lia| |lia]. intros _. left. lia.
Qed.

(** Where an access unit may begin: its predecessor's bytes are not its own. *)
Definition boundary (buf : list Z) (pos : nat) : Prop :=
  pos = 0%nat \/ pos = length buf \/ (exists b, buf !! (pos - 1)%nat = Some b /\ b <> 0) \/
  (exists a, buf !! (pos + 2)%nat = Some a /\ a <> 1).

Lemma nal_end_spec buf nh : (nh < length buf)%nat -> exists e, nal_end buf nh = Some e /\ (nh <= e <= length buf)%nat /\ boundary buf e.
Proof.
  intros Hnh. unfold nal_end. destruct (find_start_code buf (nh + 1)) as [nxt|] eqn:E.
  - apply find_some in E as (Hk & Hz & _). destruct (backup_some buf (nxt - 3)) as (r & -> & Hr & Hno & Hyes); [lia|].
    exists r. split; [done|]. split; [lia|]. unfold boundary.
    destruct (decide (r = nxt - 3)%nat) as [->|Hne].
    + destruct (Hno eq_refl) as [->|Hb]; [by left|by right; right; left].
    + right; right; right. exists 0. split; [|done]. by replace (r + 2)%nat with (nxt - 2)%nat by lia.
  - exists (length buf). split; [done|]. split; [lia|]. by right; left.
Qed.

(** ** The iterator on any buffer *)

Lemma slice_loop_total is_slice buf : forall fuel nh, (nh <= length buf < fuel + nh)%nat ->
  exists r, slice_loop fuel is_slice buf nh = Some r /\
    forall sn e, r = Some (sn, e) -> (nh <= sn <= e /\ sn < length buf /\ e <= length buf)%nat /\ (sn = nh \/ nh + 3 < sn)%nat /\ boundary buf e.
Proof.
  induction fuel as [|fuel IH]; intros nh Hf; [lia|].
  cbn [slice_loop]. destruct (Nat.ltb_spec nh (length buf)) as [Hlt|Hge]; [|by exists None].
  destruct (lookup_lt_is_Some_2 buf nh Hlt) as [hdr ->]. ostep.
  destruct (is_slice hdr).
  - destruct (nal_end_spec buf nh Hlt) as (e & -> & He & Hb). ostep. eexists. split; [done|].
    intros sn e' [= <- <-]. split; [lia|]. split; [by left|done].
  - destruct (find_start_code buf (nh + 1)) as [nxt|] eqn:E; [|by exists None].
    apply find_some in E as (Hk & _ & _). destruct (IH nxt) as (r & -> & Hr); [lia|].
    exists r. split; [done|]. intros sn e Hre. destruct (Hr sn e Hre) as ((H1 & H2 & H4) & H5 & Hb).
    split; [lia|]. split; [right; lia|done].
Qed.

(** The next access unit: non-empty, behind [pos], inside the buffer, its slice inside it. *)
Lemma au_next_total is_slice buf pos : boundary buf pos ->
  exists r, au_next_common is_slice buf pos = Some r /\
    forall a pos', r = Some (a, pos') ->
      (pos <= au_off a /\ 0 < au_len a /\ au_off a + au_len a = pos' /\ pos < pos' <= length buf)%nat /\
      (au_off a <= slice_off a < pos')%nat /\ boundary buf pos'.
Proof.
  intros Hb. unfold au_next_common. destruct (Nat.leb_spec (length buf) pos) as [Hge|Hlt]; [by exists None|].
  destruct (find_start_code buf pos) as [sc|] eqn:E; [|by exists None].
  apply find_some in E as (Hk & Hz & H3). destruct (backup_some buf (sc - 3)) as (r0 & E0 & Hr0 & Hno & Hyes); [lia|]. rewrite E0. ostep.
  destruct (slice_loop_total is_slice buf (S (length buf)) sc) as (r & -> & Hr); [lia|]. ostep.
  destruct r as [[sn e]|]; [|by exists None]. destruct (Hr sn e eq_refl) as ((H1 & H2 & H4) & H5 & Hbe).
  destruct (backup_some buf (sn - 3)) as (so & Eso & Hso & Hno' & Hyes'); [lia|]. rewrite Eso. ostep.
  eexists. split; [done|]. intros a pos' [= <- <-]. cbn [au_off au_len slice_off].
  assert (pos <= r0)%nat as Hpos.
  { destruct (decide (r0 = sc - 3)%nat) as [->|Hne]; [lia|]. destruct (decide (sc = pos + 3)%nat) as [->|Hne2]; [|lia]. exfalso.
    assert (buf !! r0 = Some 0) as Hz0 by (apply Hyes; lia). specialize (H3 eq_refl).
    destruct Hb as [->|[->|[(b & Hb & Hbne)|(a & Ha & Hane)]]]; [lia|lia| |].
    - replace (pos - 1)%nat with r0 in Hb by lia. congruence.
    - pose proof (starts_lookup _ _ 2 1 H3 eq_refl) as H. rewrite lookup_drop in H. congruence. }
  assert (r0 <= so)%nat as Hrs.
  { destruct H5 as [->|H5]; [|lia]. rewrite E0 in Eso. injection Eso as <-. lia. }
  split_and!; (lia || done).
Qed.

(** The units of a walk: in order, disjoint, each around its slice. *)
Fixpoint units_from (pos len : nat) (l : list access) : Prop :=
  match l with
  | [] => (pos <= len)%nat
  | a :: l => (pos <= au_off a /\ 0 < au_len a /\ au_off a <= slice_off a < au_off a + au_len a)%nat /\
              units_from (au_off a + au_len a) len l
  end.

Lemma au_walk_total is_slice buf : forall fuel pos, boundary buf pos -> (pos <= length buf < fuel + pos)%nat ->
  exists l, au_walk fuel is_slice buf pos = Some l /\ units_from pos (length buf) l.
Proof.
  induction fuel as [|fuel IH]; intros pos Hb Hf; [lia|]. cbn [au_walk].
  destruct (au_next_total is_slice buf pos Hb) as (r & -> & Hr). ostep. destruct r as [[a pos']|]; cycle 1.
  { exists []. split; [done|]. simpl. lia. }
  destruct (Hr a pos' eq_refl) as ((H1 & H2 & H3 & H4) & H5 & Hb'). destruct (IH pos' Hb') as (l & -> & Hl); [lia|]. ostep.
  exists (a :: l). split; [done|]. cbn [units_from]. rewrite H3. split; [lia|done].
Qed.

(** ** Written streams *)

(** A unit with the width of its start code; as emulation prevention leaves it: no start
    code inside, no zero at the end. *)
Abbreviation item := (bool * list Z)%type.
Definition code (four : bool) : list Z := if four then [0; 0; 0; 1] else [0; 0; 1].
Fixpoint clean (l : list Z) : bool :=
  match l with
  | [] => true
  | _ :: l' => negb (starts [0; 0; 1] l) && negb (starts [0; 0; 0; 1] l) && clean l'
  end.
Definition nal_ok (l : list Z) : Prop := clean l = true /\ exists b, last l = Some b /\ b <> 0.
Definition item_bytes (x : item) : list Z := code x.1 ++ x.2.
Definition stream (items : list item) : list Z := flat_map item_bytes items.

(** The units of a stream: each ends with a slice; what follows the last slice is no unit. *)
Fixpoint units (is_slice : Z -> bool) (acc items : list item) : list (list item) :=
  match items with
  | [] => []
  | x :: t =>
      if from_option is_slice false (head x.2) then (acc ++ [x]) :: units is_slice [] t
      else units is_slice (acc ++ [x]) t
  end.
(** The next unit and what is left. *)
Fixpoint take_unit (is_slice : Z -> bool) (items : list item) : option (list item * item * list item) :=
  match items with
  | [] => None
  | x :: t =>
      if from_option is_slice false (head x.2) then Some ([], x, t)
      else '(u, s, r) ← take_unit is_slice t; Some (x :: u, s, r)
  end.

Lemma take_unit_cons is_slice x t :
  take_unit is_slice (x :: t) =
    if from_option is_slice false (head x.2) then Some ([], x, t) else '(u, s, r) ← take_unit is_slice t; Some (x :: u, s, r).
Proof. done. Qed.

Lemma units_take is_slice items : forall acc,
  units is_slice acc items =
    match take_unit is_slice items with None => [] | Some (u, s, r) => (acc ++ u ++ [s]) :: units is_slice [] r end.
Proof.
  induction items as [|x t IH]; intros acc; [done|]. cbn [units take_unit].
  destruct (from_option is_slice false (head x.2)); [done|]. rewrite IH.
  destruct (take_unit is_slice t) as [[[u s] r]|]; [|done]. ostep. by rewrite <- !app_assoc.
Qed.

Lemma starts_false_byte p l i a b : p !! i = Some a -> l !! i = Some b -> a <> b -> starts p l = false.
Proof. intros Hp Hl Hne. apply not_true_iff_false. intros H. pose proof (starts_lookup _ _ _ _ H Hp). congruence. Qed.
Lemma starts_far p l l' : (length p <= length l)%nat -> starts p (l ++ l') = starts p l.
Proof. intros H. unfold starts. by rewrite take_app_le. Qed.

(** Inside a clean unit nothing starts, whatever follows. *)
Lemma starts_inside four l l' : negb (starts (code four) l) = true -> (exists b, last l = Some b /\ b <> 0) -> starts (code four) (l ++ l') = false.
Proof.
  intros Hs (b & Hb & Hne). apply negb_true_iff in Hs.
  destruct (decide (length (code four) <= length l)%nat) as [Hl|Hl]; [by rewrite starts_far|].
  rewrite last_lookup in Hb. pose proof (lookup_lt_Some _ _ _ Hb) as Hlt.
  apply (starts_false_byte _ _ (pred (length l)) 0 b).
  - destruct four; simpl in Hl |- *; destruct l as [|x [|y [|z [|? ?]]]]; simpl in *; (lia || done).
  - by rewrite lookup_app_l by lia.
  - done.
Qed.

Lemma scan_nal nal rest : nal_ok nal -> forall i, scan_code (nal ++ rest) i = scan_code rest (i + length nal).
Proof.
  intros [Hc Hl]. induction nal as [|x nal IH]; intros i; [by rewrite Nat.add_0_r|]. cbn [clean] in Hc.
  apply andb_true_iff in Hc as [Hc Hc3]. apply andb_true_iff in Hc as [H3 H4].
  pose proof (starts_inside false _ rest H3 Hl) as E3. pose proof (starts_inside true _ rest H4 Hl) as E4. cbn [code] in E3, E4.
  cbn [app] in *. cbn [scan_code]. rewrite E3, E4. destruct nal as [|y nal].
  - cbn [app length]. by rewrite Nat.add_1_r.
  - rewrite IH by done. f_equal. simpl. lia.
Qed.

Lemma scan_at_code four rest i : scan_code (code four ++ rest) i = Some (i + length (code four))%nat.
Proof.
  destruct four; cbn [code app scan_code length].
  - rewrite (starts_false_byte [0; 0; 1] _ 2 1 0) by done.
    assert (starts [0; 0; 0; 1] (0 :: 0 :: 0 :: 1 :: rest) = true) as -> by apply (starts_app [0; 0; 0; 1] rest). done.
  - assert (starts [0; 0; 1] (0 :: 0 :: 1 :: rest) = true) as -> by apply (starts_app [0; 0; 1] rest). done.
Qed.

(** A buffer at the end of whose first part a code may stand. *)
Definition ends_ok (pre : list Z) : Prop := pre = [] \/ exists b, last pre = Some b /\ b <> 0.

Lemma find_here pre four rest : find_start_code (pre ++ code four ++ rest) (length pre) = Some (length pre + length (code four))%nat.
Proof. unfold find_start_code. by rewrite drop_app_length, scan_at_code. Qed.

(** From behind the header of a unit: the code of the next one. *)
Lemma find_next pre h nal items : nal_ok (h :: nal) ->
  find_start_code (pre ++ (h :: nal) ++ stream items) (length pre + 1) =
    match items with [] => None | x :: _ => Some (length pre + length (h :: nal) + length (code x.1))%nat end.
Proof.
  intros Hok. unfold find_start_code. rewrite <- drop_drop, drop_app_length. cbn [app]. rewrite skipn_cons, drop_0.
  assert (scan_code (nal ++ stream items) (length pre + 1) = scan_code (stream items) (length pre + length (h :: nal))) as ->.
  { destruct nal as [|x nal]; [cbn [app length]; f_equal; lia|]. destruct Hok as [Hc Hl]. cbn [clean] in Hc.
    apply andb_true_iff in Hc as [_ Hc]. rewrite scan_nal by (by split). f_equal. simpl. lia. }
  destruct items as [|x t]; [done|]. unfold stream. cbn [flat_map]. unfold item_bytes at 1. rewrite <- app_assoc. by rewrite scan_at_code.
Qed.

Lemma backup_code pre four rest : ends_ok pre ->
  backup_to_4byte_sc (pre ++ code four ++ rest) (length pre + length (code four) - 3) = Some (length pre).
Proof.
  intros Hp. unfold backup_to_4byte_sc. destruct four; cbn [code length].
  - replace (length pre + 4 - 3)%nat with (S (length pre)) by lia. replace (S (length pre) - 1)%nat with (length pre) by lia.
    cbn [Nat.ltb Nat.leb]. rewrite lookup_app_r, Nat.sub_diag by lia. cbn. done.
  - replace (length pre + 3 - 3)%nat with (length pre) by lia. destruct Hp as [->|(b & Hb & Hne)]; [done|].
    rewrite last_lookup in Hb. pose proof (lookup_lt_Some _ _ _ Hb). destruct (Nat.ltb_spec 0 (length pre)); [|lia].
    rewrite lookup_app_l by lia. replace (length pre - 1)%nat with (pred (length pre)) by lia. rewrite Hb. ostep.
    by destruct (Z.eqb_spec b 0).
Qed.

Lemma stream_app l1 l2 : stream (l1 ++ l2) = stream l1 ++ stream l2.
Proof. apply flat_map_app. Qed.
Lemma stream_cons x l : stream (x :: l) = code x.1 ++ x.2 ++ stream l.
Proof. unfold stream at 1. cbn [flat_map]. unfold item_bytes. by rewrite <- app_assoc. Qed.

Lemma stream_step pre x items : pre ++ stream (x :: items) = (pre ++ code x.1 ++ x.2) ++ stream items.
Proof. by rewrite stream_cons, <- !app_assoc. Qed.

Lemma ends_nal pre x : nal_ok x.2 -> ends_ok (pre ++ code x.1 ++ x.2).
Proof.
  intros [_ (b & Hb & Hne)]. right. exists b. split; [|done]. rewrite !last_app, Hb. done.
Qed.

Lemma next_code pre (x : item) items : nal_ok x.2 ->
  find_start_code (pre ++ stream (x :: items)) (length pre + length (code x.1) + 1) =
    match items with [] => None | y :: _ => Some (length (pre ++ code x.1 ++ x.2) + length (code y.1))%nat end.
Proof.
  intros Hok. destruct x as [f [|h nal]]; [by destruct Hok as [_ (b & ? & _)]|].
  pose proof (find_next (pre ++ code f) h nal items Hok) as E. rewrite length_app, <- app_assoc in E.
  rewrite stream_cons. etrans; [exact E|]. destruct items; [done|]. cbn [fst snd]. rewrite !length_app. f_equal. lia.
Qed.

Lemma end_of_nal pre (x : item) items : nal_ok x.2 ->
  nal_end (pre ++ stream (x :: items)) (length pre + length (code x.1)) = Some (length (pre ++ code x.1 ++ x.2)).
Proof.
  intros Hok. unfold nal_end. rewrite next_code by done. destruct items as [|y items].
  - f_equal. rewrite stream_cons. unfold stream. cbn [flat_map]. by rewrite app_nil_r.
  - rewrite stream_step, stream_cons. apply backup_code. by apply ends_nal.
Qed.

Lemma head_at pre (x : item) items : nal_ok x.2 ->
  exists h, (pre ++ stream (x :: items)) !! (length pre + length (code x.1))%nat = Some h /\ head x.2 = Some h.
Proof.
  intros Hok. destruct x as [f [|h nal]]; [by destruct Hok as [_ (b & ? & _)]|]. exists h. split; [|done].
  rewrite stream_cons, app_assoc, <- length_app. by rewrite lookup_app_r, Nat.sub_diag by lia.
Qed.

(** One round of the loop at a unit. *)
Lemma slice_round is_slice fuel pre (x : item) items : nal_ok x.2 ->
  slice_loop (S fuel) is_slice (pre ++ stream (x :: items)) (length pre + length (code x.1)) =
    if from_option is_slice false (head x.2)
    then Some (Some (length pre + length (code x.1), length (pre ++ code x.1 ++ x.2))%nat)
    else match items with
         | [] => Some None
         | y :: t => slice_loop fuel is_slice ((pre ++ code x.1 ++ x.2) ++ stream (y :: t))
                       (length (pre ++ code x.1 ++ x.2) + length (code y.1))
         end.
Proof.
  intros Hok. cbn [slice_loop]. destruct (head_at pre x items Hok) as (h & Eh & Ehd).
  pose proof (lookup_lt_Some _ _ _ Eh) as Hlt. apply Nat.ltb_lt in Hlt. rewrite Hlt, Eh. ostep. rewrite Ehd. cbn [from_option].
  destruct (is_slice h); [by rewrite end_of_nal|]. rewrite next_code by done. destruct items; [done|]. by rewrite <- stream_step.
Qed.

(** The loop over the units finds the first slice, and its end. *)
Lemma slice_loop_stream is_slice : forall (items : list item) (x : item) pre fuel,
  Forall (fun y => nal_ok y.2) (x :: items) -> (length items < fuel)%nat ->
  slice_loop fuel is_slice (pre ++ stream (x :: items)) (length pre + length (code x.1)) =
    Some ('(u, s, r) ← take_unit is_slice (x :: items);
          Some (length pre + length (stream u) + length (code s.1), length pre + length (stream (u ++ [s])))%nat).
Proof.
  induction items as [|y items IH]; intros x pre fuel Hok Hf; (destruct fuel as [|fuel]; [simpl in Hf; lia|]);
    apply Forall_cons in Hok as [Hx Hok]; rewrite slice_round by done;
    rewrite take_unit_cons; (destruct (from_option is_slice false (head x.2));
      [ostep; cbn [app]; rewrite stream_cons, !length_app; cbn [stream flat_map length]; do 3 f_equal; lia|]).
  { done. }
  rewrite IH by (done || simpl in Hf; lia). destruct (take_unit is_slice (y :: items)) as [[[u s] r]|]; [|done]. ostep.
  rewrite <- app_comm_cons, !stream_cons, !length_app. do 3 f_equal; lia.
Qed.

Lemma take_unit_app is_slice items : forall u s r, take_unit is_slice items = Some (u, s, r) -> items = u ++ s :: r.
Proof.
  induction items as [|x t IH]; intros u s r; [done|]. cbn [take_unit]. destruct (from_option _ _ _); [by intros [= <- <- <-]|].
  destruct (take_unit is_slice t) as [[[u' s'] r']|]; [|done]. intros [= <- <- <-]. cbn [app]. f_equal. by apply IH.
Qed.

Lemma length_stream (items : list item) : (length items <= length (stream items))%nat.
Proof.
  induction items as [|x t IH]; [done|]. rewrite stream_cons, !length_app. cbn [length].
  assert (3 <= length (code x.1))%nat by (destruct (x.1); simpl; lia). lia.
Qed.

(** One call: the next unit, with its slice. *)
Lemma au_next_stream is_slice pre (items : list item) : ends_ok pre -> Forall (fun y => nal_ok y.2) items ->
  au_next_common is_slice (pre ++ stream items) (length pre) =
    Some ('(u, s, r) ← take_unit is_slice items;
          Some (Access (length pre) (length (stream (u ++ [s]))) (length pre + length (stream u)),
                length pre + length (stream (u ++ [s])))%nat).
Proof.
  intros Hp Hok. unfold au_next_common. rewrite length_app. destruct items as [|x items].
  { cbn [stream flat_map length]. destruct (Nat.leb_spec (length pre + 0) (length pre)); [done|lia]. }
  pose proof (length_stream (x :: items)) as Hl. cbn [length] in Hl.
  destruct (Nat.leb_spec (length pre + length (stream (x :: items))) (length pre)) as [H|_]; [lia|].
  rewrite stream_cons, find_here, (backup_code _ _ _ Hp). ostep. rewrite <- stream_cons.
  rewrite slice_loop_stream by (done || lia). ostep.
  destruct (take_unit is_slice (x :: items)) as [[[u s] r]|] eqn:Et; [|done]. ostep.
  pose proof (take_unit_app _ _ _ _ _ Et) as Ei. rewrite Ei in Hok |- *.
  assert (ends_ok (pre ++ stream u)) as Hu.
  { destruct (decide (u = [])) as [->|Hne]; [by rewrite app_nil_r|].
    destruct (exists_last Hne) as (u' & z & ->). rewrite stream_app, app_assoc, stream_cons. cbn [stream flat_map]. rewrite app_nil_r.
    apply ends_nal. rewrite <- app_assoc in Hok. apply Forall_app in Hok as [_ Hok]. by apply Forall_inv in Hok. }
  pose proof (backup_code (pre ++ stream u) s.1 (s.2 ++ stream r) Hu) as E.
  rewrite length_app, <- app_assoc, <- stream_cons, <- stream_app in E. rewrite E. ostep.
  f_equal. f_equal. f_equal. f_equal. by rewrite Nat.add_comm, Nat.add_sub.
Qed.

(** The table of the units of a stream. *)
Fixpoint unit_table (pos : nat) (us : list (list item)) : list access :=
  match us with
  | [] => []
  | u :: us => Access pos (length (stream u)) (pos + length (stream (removelast u))) :: unit_table (pos + length (stream u)) us
  end.

Lemma au_walk_stream is_slice : forall fuel pre (items : list item),
  ends_ok pre -> Forall (fun y => nal_ok y.2) items -> (length items < fuel)%nat ->
  au_walk fuel is_slice (pre ++ stream items) (length pre) = Some (unit_table (length pre) (units is_slice [] items)).
Proof.
  induction fuel as [|fuel IH]; intros pre items Hp Hok Hf; [lia|]. cbn [au_walk].
  rewrite au_next_stream by done. ostep. rewrite units_take. destruct (take_unit is_slice items) as [[[u s] r]|] eqn:Et; [|done].
  ostep. pose proof (take_unit_app _ _ _ _ _ Et) as ->. cbn [app].
  assert (pre ++ stream (u ++ s :: r) = (pre ++ stream (u ++ [s])) ++ stream r) as ->.
  { rewrite !stream_app, stream_cons. cbn [stream flat_map]. unfold item_bytes. by rewrite app_nil_r, <- !app_assoc. }
  apply Forall_app in Hok as [Hu Hsr]. apply Forall_cons in Hsr as [Hs Hr].
  pose proof (IH (pre ++ stream (u ++ [s])) r) as E. rewrite length_app in E. rewrite E; [| |done|rewrite length_app in Hf; simpl in Hf; lia].
  - ostep. cbn [unit_table]. by rewrite removelast_last.
  - rewrite stream_app, stream_cons. cbn [stream flat_map]. rewrite app_nil_r, app_assoc. by apply ends_nal.
Qed.

(** The bytes of a unit of the table. *)
Lemma unit_bytes us : forall pre suf,
  map (fun a => take (au_len a) (drop (au_off a) (pre ++ stream (concat us) ++ suf))) (unit_table (length pre) us) = map stream us.
Proof.
  induction us as [|u us IH]; intros pre suf; [done|]. cbn [unit_table map concat]. rewrite stream_app. f_equal.
  - cbn [au_len au_off]. rewrite drop_app_length, <- app_assoc. apply take_app_length.
  - specialize (IH (pre ++ stream u) suf). rewrite length_app in IH. rewrite <- !app_assoc in IH |- *. exact IH.
Qed.

Lemma concat_units is_slice items : forall acc, exists tail, acc ++ items = concat (units is_slice acc items) ++ tail.
Proof.
  induction items as [|x t IH]; intros acc; [by exists acc; rewrite app_nil_r|]. cbn [units].
  destruct (from_option is_slice false (head x.2)).
  - destruct (IH []) as [tail E]. exists tail. cbn [concat]. rewrite <- app_assoc, <- E. by rewrite <- !app_assoc.
  - destruct (IH (acc ++ [x])) as [tail E]. exists tail. by rewrite <- E, <- app_assoc.
Qed.

(** ** The locator *)

Lemma skip_tail is_slice l : clean l = true -> ends_ok l -> forall pre rest fuel, (5 <= length rest)%nat ->
  find_slice_loop (length l + fuel) is_slice (pre ++ l ++ rest) (length pre) =
    find_slice_loop fuel is_slice (pre ++ l ++ rest) (length pre + length l).
Proof.
  induction l as [|x l IH]; intros Hc Hl pre rest fuel Hr; [by rewrite Nat.add_0_r|].
  cbn [length Nat.add find_slice_loop]. rewrite !length_app. cbn [length].
  destruct (Nat.ltb_spec (length pre + 4) (length pre + (S (length l) + length rest))) as [_|H]; [|lia].
  rewrite drop_app_length. cbn [clean] in Hc. apply andb_true_iff in Hc as [Hc Hc3]. apply andb_true_iff in Hc as [H3 H4].
  assert (exists b, last (x :: l) = Some b /\ b <> 0) as Hl' by (by destruct Hl as [?|?]).
  pose proof (starts_inside false _ rest H3 Hl') as E3. pose proof (starts_inside true _ rest H4 Hl') as E4. cbn [code] in E3, E4.
  rewrite E3, E4. cbn [negb andb].
  specialize (IH Hc3). specialize (fun H => IH H (pre ++ [x]) rest fuel Hr).
  rewrite <- !app_assoc, length_app in IH. cbn [app length] in IH. cbn [app].
  replace (length pre + S (length l))%nat with (length pre + 1 + length l)%nat by lia.
  apply IH. destruct l as [|y l]; [by left|]. right. by destruct Hl as [?|?].
Qed.

(** One round of the locator at a unit. *)
Lemma locator_round is_slice (x : item) t pre fuel : nal_ok x.2 -> (5 <= length (stream (x :: t)))%nat ->
  find_slice_loop (S fuel) is_slice (pre ++ stream (x :: t)) (length pre) =
  if from_option is_slice false (head x.2) then Some (Some (length pre)) else
  find_slice_loop fuel is_slice (pre ++ stream (x :: t)) (length pre + length (code x.1) + 1).
Proof.
  intros Hx H5'. cbn [find_slice_loop]. rewrite length_app.
  destruct (Nat.ltb_spec (length pre + 4) (length pre + length (stream (x :: t)))) as [_|H]; [|lia].
  rewrite drop_app_length. destruct (head_at pre x t Hx) as (h & Eh & Ehd).
  assert (starts [0; 0; 1] (stream (x :: t)) = negb (x.1)) as ->.
  { rewrite stream_cons. destruct x as [[] nal]; cbn [fst code negb]; [by apply (starts_false_byte _ _ 2 1 0)|apply starts_app]. }
  assert (negb (negb (x.1)) && negb (starts [0; 0; 0; 1] (stream (x :: t))) = false) as ->.
  { rewrite stream_cons. destruct (x.1); cbn [fst code negb andb]; [by rewrite starts_app|done]. }
  replace (length pre + (if negb (x.1) then 3 else 4))%nat with (length pre + length (code x.1))%nat by (by destruct (x.1)).
  pose proof (lookup_lt_Some _ _ _ Eh) as Hlt. rewrite length_app in Hlt.
  destruct (Nat.leb_spec (length pre + length (stream (x :: t))) (length pre + length (code x.1))) as [H|_]; [lia|].
  rewrite Eh. ostep. by rewrite Ehd.
Qed.

Lemma find_slice_stream is_slice (s : item) : nal_ok s.2 -> from_option is_slice false (head s.2) = true -> (5 <= length (item_bytes s))%nat ->
  forall (u : list item) pre fuel, Forall (fun y => nal_ok y.2 /\ from_option is_slice false (head y.2) = false) u ->
  (length (stream (u ++ [s])) <= fuel)%nat ->
  find_slice_loop fuel is_slice (pre ++ stream (u ++ [s])) (length pre) = Some (Some (length pre + length (stream u)))%nat.
Proof.
  intros Hs Hsl H5.
  induction u as [|x u IH]; intros pre fuel Hu Hf.
  - cbn [app] in *. assert (length (stream [s]) = length (item_bytes s)) as El by (unfold stream; cbn [flat_map]; by rewrite app_nil_r).
    destruct fuel as [|fuel]; [lia|]. rewrite locator_round by (done || lia). rewrite Hsl. cbn [stream flat_map length]. by rewrite Nat.add_0_r.
  - apply Forall_cons in Hu as [[Hx Hns] Hu]. cbn [app] in *.
    assert (5 <= length (stream (u ++ [s])))%nat as H5u.
    { rewrite stream_app, length_app. unfold stream at 2. cbn [flat_map]. rewrite app_nil_r. lia. }
    destruct fuel as [|fuel]; [rewrite stream_cons, !length_app in Hf; lia|].
    rewrite locator_round; [|done|rewrite stream_cons, !length_app; lia]. rewrite Hns.
    destruct x as [f [|h nal]]; [by destruct Hx as [_ (b & ? & _)]|]. rewrite stream_cons in Hf |- *. cbn [fst snd] in *.
    replace fuel with (length nal + (fuel - length nal))%nat by (rewrite !length_app in Hf; simpl in Hf; lia).
    destruct Hx as [Hc Hl]. cbn [clean] in Hc. apply andb_true_iff in Hc as [_ Hc].
    assert (ends_ok nal) as He by (destruct nal; [by left|by right]).
    pose proof (skip_tail is_slice nal Hc He (pre ++ code f ++ [h]) (stream (u ++ [s])) (fuel - length nal) H5u) as E.
    rewrite !length_app, <- !app_assoc in E. cbn [length app] in E. rewrite Nat.add_assoc in E. cbn [app]. etrans; [exact E|].
    specialize (IH (pre ++ code f ++ h :: nal) (fuel - length nal)%nat Hu). rewrite !length_app, <- !app_assoc in IH. cbn [length app] in IH.
    replace (length pre + length (code f) + 1 + length nal)%nat with (length pre + (length (code f) + S (length nal)))%nat by lia.
    rewrite IH by (rewrite !length_app in Hf; simpl in Hf; destruct f; simpl in Hf; lia).
    f_equal. f_equal. rewrite stream_cons, !length_app. cbn [fst snd length]. lia.
Qed.

(** ** The shape of the units *)
Definition is_unit (is_slice : Z -> bool) (us : list item) : Prop :=
  exists u s, us = u ++ [s] /\ nal_ok s.2 /\ from_option is_slice false (head s.2) = true /\
    Forall (fun y => nal_ok y.2 /\ from_option is_slice false (head y.2) = false) u.

Lemma units_shape is_slice items : forall acc,
  Forall (fun y => nal_ok y.2 /\ from_option is_slice false (head y.2) = false) acc -> Forall (fun y : item => nal_ok y.2) items ->
  Forall (is_unit is_slice) (units is_slice acc items).
Proof.
  induction items as [|x t IH]; intros acc Hacc Hok; [done|]. apply Forall_cons in Hok as [Hx Ht]. cbn [units].
  destruct (from_option is_slice false (head x.2)) eqn:Es.
  - constructor; [by exists acc, x|]. by apply IH.
  - apply IH; [|done]. apply Forall_app. split; [done|]. by constructor.
Qed.

Lemma locate_unit is_slice (u : list item) (s : item) :
  is_unit is_slice (u ++ [s]) -> (5 <= length (item_bytes s))%nat ->
  find_slice_nal_common is_slice (stream (u ++ [s])) = Some (Some (length (stream u), length (item_bytes s))).
Proof.
  intros (u' & s' & E & Hs & Hsl & Hu) H5. apply app_inj_tail in E as [<- <-]. unfold find_slice_nal_common.
  pose proof (find_slice_stream is_slice s Hs Hsl H5 u [] (S (length (stream (u ++ [s])))) Hu) as E.
  cbn [app length Nat.add] in E. rewrite E by lia. f_equal. f_equal. f_equal.
  rewrite stream_app, length_app. unfold stream at 2. cbn [flat_map]. rewrite app_nil_r. lia.
Qed.

Lemma annexb_stream nals : annexb nals = stream (map (pair true) nals).
Proof. induction nals as [|nal nals IH]; [done|]. cbn [map]. rewrite stream_cons, <- IH. done. Qed.

Lemma write_avcc_inj n : len_size_ok n -> forall nals nals', Forall (avcc_ok n) nals -> Forall (avcc_ok n) nals' ->
  write_avcc n nals = write_avcc n nals' -> nals = nals'.
Proof.
  intros Hn. induction nals as [|nal nals IH]; intros nals' Hok Hok' E.
  - destruct nals' as [|nal' nals']; [done|]. apply Forall_cons in Hok' as [[Hk _] _]. exfalso.
    unfold write_avcc, avcc_nal in E. cbn [flat_map] in E. apply (f_equal length) in E. rewrite !length_app in E. simpl in E. lia.
  - assert (write_avcc n (nal :: nals) <> []) as Hne.
    { apply Forall_cons in Hok as [[Hk _] _]. intros H. apply (f_equal length) in H.
      unfold write_avcc, avcc_nal in H. cbn [flat_map] in H. rewrite !length_app in H. simpl in H. lia. }
    destruct (written_inv n _ _ Hn Hne Hok eq_refl) as (_ & x & m & [= <- <-] & _ & Hm & Ev & Eb).
    destruct (written_inv n _ _ Hn Hne Hok' E) as (_ & y & m' & -> & _ & Hm' & Ev' & Eb').
    rewrite Eb in Eb'. assert (length nal = length y) as El by lia.
    apply app_inj_1 in Eb' as [-> E']; [|done]. f_equal. by apply IH.
Qed.

Lemma length_written n nals : 0 <= n ->
  Z.of_nat (length (annexb nals)) = Z.of_nat (length (write_avcc n nals)) + (4 - n) * Z.of_nat (length nals).
Proof.
  intros Hn. induction nals as [|nal nals IH]; [simpl; lia|]. rewrite length_annexb_cons, IH.
  change (write_avcc n (nal :: nals)) with ((write_be (Z.to_nat n) (Z.of_nat (length nal)) ++ nal) ++ write_avcc n nals).
  rewrite !length_app, length_write_be. cbn [length]. lia.
Qed.
