(* ===== verification/ByteStreamProps.v ===== *)
(** * Properties of the NAL framing *)

From S2P Require Import Prelude Bits ByteStream.

(** Accepted with the Annex-B form, or refused for a reason. *)
Lemma avcc_outcome (input : list Z) (n cap : Z) :
  Forall is_byte input -> Z.of_nat (length input) < 2 ^ 32 - 4 -> 0 <= cap < 2 ^ 64 ->
  exists rc out, AvccToAnnexB input n cap = Some (rc, out) /\ Z.of_nat (length out) <= cap /\
    ((exists nals, len_size_ok n /\ Forall (avcc_ok n) nals /\ input = write_avcc n nals /\
        out = annexb nals /\ rc = Z.of_nat (length out) /\ rc <= 0x7FFFFFFF) \/
     (rc = -1 /\ forall nals, len_size_ok n -> Forall (avcc_ok n) nals -> input = write_avcc n nals ->
        cap < Z.of_nat (length (annexb nals)) \/ 0x7FFFFFFF < Z.of_nat (length (annexb nals)))).
Proof.
  intros Hb Hl Hcap. unfold AvccToAnnexB.
  destruct ((n =? AVCC_LEN_1) || (n =? AVCC_LEN_2) || (n =? AVCC_LEN_4)) eqn:Hn; simpl negb; cbv iota; cycle 1.
  { exists (-1), []. split; [done|]. split; [simpl; lia|]. right. split; [done|]. intros nals Hn'.
    unfold AVCC_LEN_1, AVCC_LEN_2, AVCC_LEN_4 in Hn. destruct Hn' as [-> | [-> | -> ] ]; done. }
  assert (len_size_ok n) as Hn'.
  { unfold len_size_ok, AVCC_LEN_1, AVCC_LEN_2, AVCC_LEN_4 in *. rewrite !orb_true_iff, !Z.eqb_eq in Hn. tauto. }
  destruct (avcc_loop_spec n cap Hn' Hcap (S (length input)) input []) as (ok & out & -> & Ho & Ht & Hf); [done|lia|done|simpl; lia|].
  ostep. destruct ok; simpl negb; cbv iota.
  - destruct (Ht eq_refl) as (nals & Hok & Hw & ->). cbn [app] in *.
    destruct (Z.ltb_spec 0x7FFFFFFF (Z.of_nat (length (annexb nals)))) as [Hbig|Hsm].
    + exists (-1), (annexb nals). split; [done|]. split; [done|]. right. split; [done|]. intros nals' _ Hok' Hw'.
      rewrite Hw in Hw'. rewrite <- (write_avcc_inj n Hn' _ _ Hok Hok' Hw'). by right.
    + eexists _, _. split; [done|]. split; [done|]. left. by exists nals.
  - exists (-1), out. split; [done|]. split; [done|]. right. split; [done|]. intros nals _ Hok Hw. left.
    exact (Hf eq_refl nals Hok Hw).
Qed.

(** C38: [AvccToAnnexB] on every input: it writes within its capacity, and returns the
    length of the Annex-B form exactly when the input is a sequence of length-prefixed,
    non-empty NAL units whose Annex-B form fits; every other input is refused.  In front of
    the engine the capacity is the input's length and 64, so that units with length
    fields of one or two bytes are refused from the 22nd or 33rd on. *)
Theorem avcc_exact (input : list Z) (n cap : Z) :
  Forall is_byte input -> Z.of_nat (length input) < 2 ^ 32 - 4 -> 0 <= cap < 2 ^ 64 ->
  (exists rc out, AvccToAnnexB input n cap = Some (rc, out) /\ Z.of_nat (length out) <= cap /\
    ((exists nals, len_size_ok n /\ Forall (avcc_ok n) nals /\ input = write_avcc n nals /\
        out = annexb nals /\ rc = Z.of_nat (length out) /\ rc <= 0x7FFFFFFF) \/
     (rc = -1 /\ forall nals, len_size_ok n -> Forall (avcc_ok n) nals -> input = write_avcc n nals ->
        cap < Z.of_nat (length (annexb nals)) \/ 0x7FFFFFFF < Z.of_nat (length (annexb nals))))) /\
  forall nals, len_size_ok n -> Forall (avcc_ok n) nals -> input = write_avcc n nals ->
    Z.of_nat (length (annexb nals)) <= 0x7FFFFFFF ->
    framed_au FRAMING_AVCC4 n input = Some (if (4 - n) * Z.of_nat (length nals) <=? 64 then Some (annexb nals) else None).
Proof.
  intros Hb Hl Hcap. pose proof (fun cap => avcc_outcome input n cap Hb Hl) as Hex.
  split; [by apply Hex|]. intros nals Hn Hok Hw Hmax. unfold framed_au.
  destruct (Hex (Z.of_nat (length input) + 64)) as (rc & out & -> & Ho & Hc); [lia|]. ostep.
  pose proof (length_written n nals) as El. rewrite <- Hw in El.
  assert (0 <= n) as Hn0 by (destruct Hn as [-> | [-> | -> ] ]; lia). specialize (El Hn0).
  destruct Hc as [(nals' & _ & Hok' & Hw' & -> & -> & _)|[-> Hno]].
  - rewrite Hw in Hw'. rewrite <- (write_avcc_inj n Hn _ _ Hok Hok' Hw') in *.
    destruct (Z.ltb_spec (Z.of_nat (length (annexb nals))) 0); [lia|]. destruct (Z.leb_spec ((4 - n) * Z.of_nat (length nals)) 64); [done|lia].
  - destruct (Hno nals Hn Hok Hw); [|lia]. simpl. destruct (Z.leb_spec ((4 - n) * Z.of_nat (length nals)) 64); [lia|done].
Qed.

Lemma avcc_exact_witness :
  AvccToAnnexB [0; 2; 0x65; 1; 0; 1; 0x41] 2 71 = Some (11, [0; 0; 0; 1; 0x65; 1; 0; 0; 0; 1; 0x41]) /\
  framed_au FRAMING_AVCC4 1 (write_avcc 1 (replicate 22 [0x41])) = Some None.
Proof.
  split.
  - destruct (avcc_exact [0; 2; 0x65; 1; 0; 1; 0x41] 2 71) as [(rc & out & E & _) _]; [repeat constructor; done|simpl; lia|lia|].
    rewrite E. vm_compute in E. by injection E as <- <-.
  - destruct (avcc_exact (write_avcc 1 (replicate 22 [0x41])) 1 0) as [_ H]; [|vm_compute; done|lia|].
    + vm_compute. repeat constructor; done.
    + etrans; [apply (H (replicate 22 [0x41])); [by left| |done|by vm_compute]|by vm_compute].
      apply Forall_replicate. by vm_compute.
Defined.

(** On every buffer the iterator over access units terminates, reads inside it, and its
    units are in order, disjoint, non-empty, each around its slice.  On a stream of units
    as emulation prevention leaves them, with start codes of three or four bytes, they are
    exactly the runs of NAL units up to each slice, and the locator finds the slice of
    each.  The output of [AvccToAnnexB] is such a stream. *)
Theorem au_iteration (is_slice : Z -> bool) (buf : list Z) (items : list item) (nals : list (list Z)) :
  Forall (fun y => nal_ok y.2) items ->
  (exists l, au_all is_slice buf = Some l /\ units_from 0 (length buf) l) /\
  (exists l, au_all is_slice (stream items) = Some l /\
     map (fun a => take (au_len a) (drop (au_off a) (stream items))) l = map stream (units is_slice [] items) /\
     l = unit_table 0 (units is_slice [] items)) /\
  (forall u s, In (u ++ [s]) (units is_slice [] items) -> (5 <= length (item_bytes s))%nat ->
     find_slice_nal_common is_slice (stream (u ++ [s])) = Some (Some (length (stream u), length (item_bytes s)))) /\
  annexb nals = stream (map (pair true) nals).
Proof.
  intros Hok. split; [|split; [|split; [|apply annexb_stream]]].
  - apply au_walk_total; [by left|lia].
  - exists (unit_table 0 (units is_slice [] items)). split; [|split; [|done]].
    + pose proof (length_stream items). apply (au_walk_stream is_slice _ []); [by left|done|lia].
    + destruct (concat_units is_slice items []) as [tail E]. cbn [app] in E.
      pose proof (unit_bytes (units is_slice [] items) [] (stream tail)) as H. cbn [app length] in H.
      rewrite <- stream_app, <- E in H. exact H.
  - intros u s Hin H5. apply locate_unit; [|done].
    pose proof (units_shape is_slice items [] (Forall_nil_2 _) Hok) as Hs. rewrite Forall_forall in Hs.
    by apply Hs, list_elem_of_In.
Qed.

Lemma au_iteration_witness :
  let items := [(true, [0x67; 1]); (false, [0x65; 2; 3]); (false, [0x41; 4]); (true, [0x68; 5])] in
  Forall (fun y => nal_ok y.2) items /\
  au_all h264_nal_is_slice (stream items) = Some [Access 0 12 6; Access 12 5 12] /\
  H264FindSliceNal (stream (take 2 items)) = Some (Some (6, 6)%nat).
Proof.
  intros items. assert (Forall (fun y => nal_ok y.2) items) as Hok.
  { repeat constructor; (eexists; split; [done|done]). }
  destruct (au_iteration h264_nal_is_slice [] items [] Hok) as (_ & (l & E & _ & El) & Hloc & _).
  split; [exact Hok|]. split; [rewrite E, El; by vm_compute|].
  apply (Hloc [(true, [0x67; 1])] (false, [0x65; 2; 3])); [by left|by vm_compute; lia].
Defined.
