(* ===== verification/Rbsp.v ===== *)
(** * The bit reader of the H.264 and HEVC parsers (mft/parser_glue.cpp, mft/parser_glue_h265.cpp)

    Both files keep their own copy of the reader, of the start code search and of the
    removal of emulation prevention; they are the same code, modelled once.  Parsers
    run in a monad over the reader and the result structure they fill in: they can
    return early with a status, and [None] is undefined behaviour (a shift by the width
    or more, a signed overflow, a write outside an array). *)

From S2P Require Import Prelude Bits ByteStream.

(** ** The reader *)
Record BitReader := MkBitReader { data : list Z; bit_pos : nat; failed : bool }.
#[export] Instance eta_BitReader : Eta BitReader := fun r => MkBitReader (data r) (bit_pos r) (failed r).

Definition br_init (d : list Z) : BitReader := MkBitReader d 0 false.

Definition br_eof (r : BitReader) : bool := (8 * length (data r) <=? bit_pos r)%nat.

(** The bit at a position, most significant first; 0 outside, where it is never asked. *)
Definition bit_at (d : list Z) (pos : nat) : bool :=
  Z.testbit (default 0 (d !! (pos / 8)%nat)) (7 - Z.of_nat (pos mod 8)).

(** [for (pos...; pos < len * 8; pos++)]: is a bit set? *)
Fixpoint any_set (n : nat) (d : list Z) (pos : nat) : bool :=
  match n with
  | O => false
  | S n => if bit_at d pos then true else any_set n d (S pos)
  end.
Definition br_more_rbsp_data (r : BitReader) : bool :=
  if br_eof r then false else
  if negb (bit_at (data r) (bit_pos r)) then true else
  any_set (8 * length (data r) - S (bit_pos r)) (data r) (S (bit_pos r)).

(** [n] bits into 32, most significant first; what there is of them at the end. *)
Fixpoint br_u_loop (n : nat) (v : Z) (r : BitReader) : Z * BitReader :=
  match n with
  | O => (v, r)
  | S n =>
      if br_eof r then (v, r) else
      br_u_loop n (u32 (v * 2 + Z.b2z (bit_at (data r) (bit_pos r)))) (r <| bit_pos ::= S |>)
  end.
Definition br_u (n : nat) (r : BitReader) : Z * BitReader := br_u_loop n 0 r.

(** [while (!br_eof(br) && br_u1(br) == 0) zeros++;] *)
Fixpoint count_zeros (fuel : nat) (zeros : nat) (r : BitReader) : nat * BitReader :=
  match fuel with
  | O => (zeros, r)
  | S fuel =>
      if br_eof r then (zeros, r) else
      let '(b, r) := br_u 1 r in
      if b =? 0 then count_zeros fuel (S zeros) r else (zeros, r)
  end.
Definition br_ue (r : BitReader) : Z * BitReader :=
  let '(zeros, r) := count_zeros (S (8 * length (data r))) 0 r in
  if br_eof r && (0 <? zeros)%nat then (0, r <| failed := true |>) else
  if (31 <? zeros)%nat then (0, r <| failed := true |>) else
  let '(suffix, r) := br_u zeros r in
  (u32 (2 ^ Z.of_nat zeros - 1 + suffix), r).
Definition br_se (r : BitReader) : Z * BitReader :=
  let '(k, r) := br_ue r in
  (if Z.odd k then Z.shiftr (k + 1) 1 else - Z.shiftr k 1, r).

(** ** NAL units *)

(** The offset behind the next start code and the start of the code itself; the length
    twice when there is none. *)
Fixpoint next_code (l : list Z) (i : nat) : nat * nat :=
  match l with
  | [] => (i, i)
  | a :: l' =>
      if starts [0; 0; 1] l then ((i + 3)%nat, i) else
      if starts [0; 0; 0; 1] l then ((i + 4)%nat, i) else next_code l' (S i)
  end.
Definition nal_find_start_code (buf : list Z) (from : nat) : nat * nat := next_code (drop from buf) from.

(** The payload without emulation prevention; [None] when it does not fit. *)
Fixpoint unescape (src : list Z) (zeros : nat) (cap : nat) : option (list Z) :=
  match src with
  | [] => Some []
  | b :: src =>
      if (2 <=? zeros)%nat && (b =? 0x03) then unescape src 0 cap else
      match cap with
      | O => None
      | S cap => l ← unescape src (if b =? 0 then S zeros else 0) cap; Some (b :: l)
      end
  end.
(** The bytes written, none when the code returns 0. *)
Definition ebsp_to_rbsp (src : list Z) (dst_cap : nat) : list Z := default [] (unescape src 0 dst_cap).

(** ** The units of an access unit *)

(** [H264_PARSE_INVALID] and [H265_PARSE_INVALID] *)
Definition PARSE_INVALID : Z := 2.

(** Both access unit parsers walk the units alike; [parse] is what they do with one, from
    its bytes without emulation prevention, on the result structure and the staged picture
    order count state.  [None] is undefined behaviour, [inr] an early return. *)
Section nal_units.
Context {R St : Type} (parse : list Z -> R -> St -> option (R * (St + Z))).

(** [while (pos < len)]; [None] also when the fuel is out. *)
Fixpoint nal_loop (fuel : nat) (buf : list Z) (scratch_size : nat) (scratch_off pos : nat) (o : R) (st : St) : option (R * (St + Z)) :=
  match fuel with
  | 0%nat => None
  | S fuel =>
      if negb (pos <? length buf)%nat then Some (o, inl st) else
      let '(nal_start, _) := nal_find_start_code buf pos in
      if (length buf <=? nal_start)%nat then Some (o, inl st) else
      let '(_, next_sc) := nal_find_start_code buf nal_start in
      let nal_end := if (nal_start <? next_sc)%nat then next_sc else length buf in
      let this_size := (nal_end - nal_start)%nat in
      if (scratch_size <? scratch_off + this_size)%nat then Some (o, inr PARSE_INVALID) else
      let rbsp := ebsp_to_rbsp (take this_size (drop nal_start buf)) (scratch_size - scratch_off) in
      '(o, r) ← parse rbsp o st;
      match r with
      | inr e => Some (o, inr e)
      | inl st => nal_loop fuel buf scratch_size (scratch_off + length rbsp) nal_end o st
      end
  end.
End nal_units.

(** ** The monad *)

(** Integers of the result structures. *)
Definition u8 (x : Z) : Z := x mod 256.
Definition u16 (x : Z) : Z := x mod 65536.
Definition i8 (x : Z) : Z := (x + 128) mod 256 - 128.
Definition i16 (x : Z) : Z := (x + 32768) mod 65536 - 32768.
(** A conversion to [int]. *)
Definition to_int (x : Z) : Z := (x + 2 ^ 31) mod 2 ^ 32 - 2 ^ 31.

(** A parser that fills in a [T]: the value, or the status of an early return. *)
Definition Rd (T A : Type) : Type := BitReader * T -> option (BitReader * T * (A + Z)).
#[export] Instance Rd_ret {T} : MRet (Rd T) := fun A a s => Some (s, inl a).
#[export] Instance Rd_bind {T} : MBind (Rd T) := fun A B k m s =>
  match m s with
  | Some (s, inl a) => k a s
  | Some (s, inr e) => Some (s, inr e)
  | None => None
  end.

Definition stop {T A} (status : Z) : Rd T A := fun s => Some (s, inr status).
Definition need {T A} (o : option A) : Rd T A := fun s => a ← o; Some (s, inl a).
Definition get {T} : Rd T T := fun s => Some (s, inl s.2).
Definition upd {T} (f : T -> T) : Rd T unit := fun s => Some ((s.1, f s.2), inl tt).
Definition reader {T A} (f : BitReader -> A * BitReader) : Rd T A := fun s =>
  let '(a, r) := f s.1 in Some ((r, s.2), inl a).
Definition rd_u {T} (n : nat) : Rd T Z := reader (br_u n).
Definition rd_u1 {T} : Rd T Z := rd_u 1.
Definition rd_ue {T} : Rd T Z := reader br_ue.
Definition rd_se {T} : Rd T Z := reader br_se.
Definition rd_eof {T} : Rd T bool := reader (fun r => (br_eof r, r)).
Definition rd_more {T} : Rd T bool := reader (fun r => (br_more_rbsp_data r, r)).
Definition rd_failed {T} : Rd T bool := reader (fun r => (failed r, r)).
Definition rd_pos {T} : Rd T nat := reader (fun r => (bit_pos r, r)).
(** [br->failed = true] *)
Definition rd_fail {T} : Rd T unit := reader (fun r => (tt, r <| failed := true |>)).

Definition skip {T A} (m : Rd T A) : Rd T unit := m ≫= fun _ => mret tt.
Definition when {T} (b : bool) (m : Rd T unit) : Rd T unit := if b then m else mret tt.
Fixpoint times {T} (n : nat) (m : Rd T unit) : Rd T unit :=
  match n with O => mret tt | S n => m ≫= fun _ => times n m end.
(** [for (i = i0; n times; i++) l += m(i)] *)
Fixpoint collect {T A} (n : nat) (i : nat) (m : nat -> Rd T A) : Rd T (list A) :=
  match n with
  | O => mret []
  | S n => m i ≫= fun a => collect n (S i) m ≫= fun l => mret (a :: l)
  end.

(** More iterations than a reader has bits. *)
Definition loop_fuel {T} : Rd T nat := reader (fun r => (8 * length (data r) + 2, r)%nat).

(** A flag of a structure. *)
Definition truth (x : Z) : bool := negb (x =? 0).
(** [if (br_u1(br)) flags |= f;] *)
Definition flag_if (b : bool) (f : Z) : Z := if b then f else 0.

(** [1 << n] for an [int]. *)
Definition shl1 (n : Z) : option Z := if n <? 32 then Some (to_int (2 ^ n)) else None.

(** The most significant part of a picture order count (H.264 8.2.1.1, HEVC 8.3.1). *)
Definition poc_msb_of (max_lsb lsb prev_lsb prev_msb : Z) : option Z :=
  if (lsb <? prev_lsb) && (max_lsb / 2 <=? prev_lsb - lsb) then int32 (prev_msb + max_lsb)
  else if (prev_lsb <? lsb) && (max_lsb / 2 <? lsb - prev_lsb) then int32 (prev_msb - max_lsb)
  else Some prev_msb.
