(* ===== verification/RbspFacts.v ===== *)
(** * Facts on the bit reader and the parser monad

    The reader in front of a bit string ([reader_at]), Exp-Golomb codes, emulation
    prevention, and two judgements on parsers: [parses], a run that reads a prefix of
    the bits and does not fail, with which headers are read back from the syntax that
    was written, and [keeps], what holds after any run on any bits. *)

From S2P Require Import Prelude Bits ByteStream Rbsp.

(** ** The reader in front of a bit string *)

Definition reader_at (d : list Z) (l : list bool) : BitReader := MkBitReader d (8 * length d - length l) false.

Lemma to_bits_lookup d : forall p, (p < 8 * length d)%nat -> to_bits d !! p = Some (bit_at d p).
Proof.
  induction d as [|b d IH]; intros p Hp; [simpl in Hp; lia|]. cbn [to_bits]. unfold bit_at.
  destruct (decide (p < 8)%nat) as [Hs|Hs].
  - rewrite lookup_app_l by (simpl; lia). rewrite Nat.div_small, Nat.mod_small by done.
    do 8 (destruct p as [|p]; [done|]). lia.
  - rewrite lookup_app_r by (simpl; lia). change (length (byte_bits b)) with 8%nat.
    replace p with (8 + (p - 8))%nat at 2 3 by lia. simpl in Hp. rewrite IH by lia. unfold bit_at.
    replace ((8 + (p - 8)) / 8)%nat with (S ((p - 8) / 8)) by (rewrite <- (Nat.div_add_l 1 8) by done; f_equal; lia).
    replace ((8 + (p - 8)) mod 8)%nat with ((p - 8) mod 8)%nat; [done|].
    rewrite <- (Nat.Div0.mod_add (p - 8) 1 8). f_equal. lia.
Qed.

Lemma bit_at_to_bits d p b l : drop p (to_bits d) = b :: l -> (p < 8 * length d)%nat /\ bit_at d p = b.
Proof.
  intros H. assert (to_bits d !! p = Some b) as Hp by (rewrite <- (Nat.add_0_r p), <- lookup_drop, H; done).
  pose proof (lookup_lt_Some _ _ _ Hp) as Hl. rewrite length_to_bits in Hl. split; [done|].
  rewrite to_bits_lookup in Hp by done. by injection Hp.
Qed.

Section at_bits.
Context (d : list Z).

(** [l] is what is left of the buffer. *)
Definition tail (l : list bool) : Prop := l `suffix_of` to_bits d.

Lemma tail_drop l : tail l -> l = drop (8 * length d - length l) (to_bits d).
Proof.
  intros [x Hx]. rewrite <- length_to_bits, Hx, length_app. replace (length x + length l - length l)%nat with (length x) by lia.
  by rewrite drop_app_length.
Qed.
Lemma tail_length l : tail l -> (length l <= 8 * length d)%nat.
Proof. intros H. apply suffix_length in H. by rewrite length_to_bits in H. Qed.
Lemma tail_app x l : tail (x ++ l) -> tail l.
Proof. intros [y Hy]. exists (y ++ x). by rewrite <- app_assoc. Qed.
Lemma tail_cons b l : tail (b :: l) -> tail l.
Proof. apply (tail_app [b]). Qed.

Lemma at_nil_eof : br_eof (reader_at d []) = true.
Proof. unfold br_eof, reader_at. simpl. apply Nat.leb_le. lia. Qed.
Lemma at_cons_eof b l : tail (b :: l) -> br_eof (reader_at d (b :: l)) = false.
Proof. intros H%tail_length. simpl in H. unfold br_eof, reader_at. simpl. apply Nat.leb_gt. lia. Qed.

Lemma at_bit b l : tail (b :: l) -> bit_at d (bit_pos (reader_at d (b :: l))) = b.
Proof. intros H%tail_drop. symmetry in H. apply bit_at_to_bits in H. apply H. Qed.

Lemma at_next b l : tail (b :: l) -> (reader_at d (b :: l)) <| bit_pos ::= S |> = reader_at d l.
Proof.
  intros H%tail_length. simpl in H.
  change (MkBitReader d (S (8 * length d - length (b :: l))) false = MkBitReader d (8 * length d - length l) false).
  f_equal. simpl. lia.
Qed.

Lemma u_loop_at x : forall n v l, n = length x -> tail (x ++ l) -> 0 <= v < 2 ^ (32 - Z.of_nat n) -> (n <= 32)%nat ->
  br_u_loop n v (reader_at d (x ++ l)) = (v * 2 ^ Z.of_nat n + window x n, reader_at d l).
Proof.
  induction x as [|b x IH]; intros n v l -> Ht Hv Hn.
  - simpl. f_equal. lia.
  - cbn [app] in *. cbn [br_u_loop length]. rewrite at_cons_eof by done.
    change (data (reader_at d (b :: x ++ l))) with d. rewrite at_bit, at_next by done.
    simpl length in *. rewrite Nat2Z.inj_succ in *.
    assert (0 <= Z.b2z b < 2) as Hb by (destruct b; simpl; lia).
    assert (2 ^ (32 - Z.of_nat (length x)) = 2 * 2 ^ (32 - Z.succ (Z.of_nat (length x)))) as Hp
      by (rewrite <- Z.pow_succ_r by lia; f_equal; lia).
    rewrite u32_small.
    + rewrite IH; [|done|by eapply tail_cons|lia|lia]. f_equal. cbn [window]. rewrite Z.pow_succ_r by lia. ring.
    + assert (2 ^ (32 - Z.of_nat (length x)) <= 2 ^ 32) by (apply Z.pow_le_mono_r; lia). lia.
Qed.
Lemma u_at n x l : length x = n -> (n <= 32)%nat -> tail (x ++ l) -> br_u n (reader_at d (x ++ l)) = (window x n, reader_at d l).
Proof.
  intros <- Hn Ht. unfold br_u. rewrite u_loop_at; [f_equal; lia|done..| |done].
  assert (0 < 2 ^ (32 - Z.of_nat (length x))) by (apply Z.pow_pos_nonneg; lia). lia.
Qed.
Lemma u1_at b l : tail (b :: l) -> br_u 1 (reader_at d (b :: l)) = (Z.b2z b, reader_at d l).
Proof. intros H. etrans; [exact (u_at 1 [b] l eq_refl ltac:(lia) H)|]. by destruct b. Qed.

Lemma zeros_at k : forall fuel z l, (k < fuel)%nat -> tail (replicate k false ++ true :: l) ->
  count_zeros fuel z (reader_at d (replicate k false ++ true :: l)) = ((z + k)%nat, reader_at d l).
Proof.
  induction k as [|k IH]; intros [|fuel] z l Hf Ht; try lia; cbn [replicate app count_zeros] in *;
    rewrite at_cons_eof, u1_at by done.
  - simpl. f_equal. lia.
  - cbn [Z.b2z Z.eqb]. rewrite IH; [f_equal; lia|lia|by eapply tail_cons].
Qed.

(** What [more_rbsp_data] answers. *)
Definition more_bits (l : list bool) : bool :=
  match l with [] => false | false :: _ => true | true :: l => existsb id l end.
Lemma any_set_at l : forall n p, drop p (to_bits d) = l -> n = length l -> any_set n d p = existsb id l.
Proof.
  induction l as [|b l IH]; intros n p Hd ->; [done|]. cbn [length any_set existsb]. destruct (bit_at_to_bits d p b l Hd) as [_ ->].
  assert (drop (S p) (to_bits d) = l) as Hd2 by (replace (S p) with (p + 1)%nat by lia; by rewrite <- drop_drop, Hd).
  destruct b; [done|]. by rewrite (IH _ (S p)).
Qed.
Lemma more_at l : tail l -> br_more_rbsp_data (reader_at d l) = more_bits l.
Proof.
  intros Ht. unfold br_more_rbsp_data. destruct l as [|b l]; [by rewrite at_nil_eof|]. rewrite at_cons_eof by done.
  change (data (reader_at d (b :: l))) with d. rewrite at_bit by done. destruct b; [|done]. cbn [negb more_bits].
  pose proof (tail_length _ Ht) as Hl. cbn [length] in Hl.
  apply any_set_at; cbn [reader_at bit_pos length]; [|lia].
  replace (S (8 * length d - S (length l))) with (8 * length d - length l)%nat by lia. symmetry. apply tail_drop. by eapply tail_cons.
Qed.
Lemma more_before x r : x <> [] -> more_bits (x ++ true :: r) = true.
Proof.
  destruct x as [|[] x]; [done| |done]. intros _. cbn [app more_bits]. by rewrite existsb_app, orb_true_r.
Qed.
Lemma more_trailing n : more_bits (true :: replicate n false) = false.
Proof. cbn [more_bits]. by induction n. Qed.
End at_bits.

(** ** Exp-Golomb codes *)

Definition ue_bits (v : Z) : list bool :=
  let k := Z.to_nat (Z.log2 (v + 1)) in replicate k false ++ put (S k) (v + 1).
Definition se_bits (v : Z) : list bool := ue_bits (if 0 <? v then 2 * v - 1 else - 2 * v).

Lemma put_top k v : 2 ^ Z.of_nat k <= v < 2 ^ Z.of_nat (S k) -> put (S k) v = true :: put k v.
Proof.
  intros H. cbn [put]. f_equal. rewrite Nat2Z.inj_succ, Z.pow_succ_r in H by lia.
  replace (Z.of_nat k) with (Z.log2 v); [apply Z.bit_log2; lia|].
  apply Z.log2_unique; [lia|]. rewrite Z.pow_succ_r; lia.
Qed.

Lemma br_ue_at d v l : 0 <= v < 2 ^ 32 - 1 -> tail d (ue_bits v ++ l) -> br_ue (reader_at d (ue_bits v ++ l)) = (v, reader_at d l).
Proof.
  intros Hv. unfold ue_bits. set (k := Z.to_nat (Z.log2 (v + 1))).
  assert (2 ^ Z.of_nat k <= v + 1 < 2 ^ Z.of_nat (S k)) as Hk.
  { unfold k. rewrite Nat2Z.inj_succ, Z2Nat.id by apply Z.log2_nonneg. apply Z.log2_spec. lia. }
  assert (Z.of_nat k < 32) as Hk32.
  { unfold k. rewrite Z2Nat.id by apply Z.log2_nonneg. apply Z.log2_lt_pow2; lia. }
  rewrite put_top by done. rewrite <- app_assoc. cbn [app]. intros Ht.
  assert (tail d (put k (v + 1) ++ l)) as Ht2 by (apply tail_app in Ht; by eapply tail_cons).
  pose proof (tail_length _ _ Ht) as Hlen. rewrite length_app, length_replicate in Hlen.
  unfold br_ue. change (data (reader_at d _)) with d. rewrite zeros_at by (simpl in *; lia || done). cbv beta iota.
  rewrite Nat.add_0_l.
  assert (br_eof (reader_at d (put k (v + 1) ++ l)) && (0 <? k)%nat = false) as ->.
  { destruct k as [|k']; [apply andb_false_r|]. cbn [put app] in *. by rewrite at_cons_eof. }
  assert ((31 <? k)%nat = false) as -> by (apply Nat.ltb_ge; lia).
  rewrite (u_at d k) by (rewrite ?length_put; done || lia). f_equal.
  rewrite <- (app_nil_r (put k (v + 1))), window_put.
  rewrite Nat2Z.inj_succ, Z.pow_succ_r in Hk by lia.
  assert ((v + 1) mod 2 ^ Z.of_nat k = v + 1 - 2 ^ Z.of_nat k) as -> by (symmetry; apply (Z.mod_unique _ _ 1); lia).
  apply eq_trans with (u32 v); [f_equal; lia|apply u32_small; lia].
Qed.

Lemma br_se_at d v l : - 2 ^ 31 < v < 2 ^ 31 -> tail d (se_bits v ++ l) -> br_se (reader_at d (se_bits v ++ l)) = (v, reader_at d l).
Proof.
  intros Hv Ht. unfold br_se, se_bits in *. destruct (Z.ltb_spec 0 v).
  - rewrite br_ue_at by (done || lia). rewrite Z.odd_sub, Z.odd_mul. simpl.
    rewrite Z.sub_add, Z.shiftr_div_pow2 by lia. f_equal. change (2 ^ 1) with 2. rewrite Z.mul_comm. by apply Z.div_mul.
  - rewrite br_ue_at by (done || lia). rewrite Z.odd_mul. simpl. rewrite Z.shiftr_div_pow2 by lia. f_equal. change (2 ^ 1) with 2.
    replace (-2 * v) with (- v * 2) by ring. rewrite Z.div_mul; lia.
Qed.

(** ** Emulation prevention *)

(** What an encoder writes behind [zeros] zeros. *)
Fixpoint escape (zeros : nat) (l : list Z) : list Z :=
  match l with
  | [] => []
  | b :: l =>
      if (2 <=? zeros)%nat && (b <=? 3) then 3 :: b :: escape (if b =? 0 then 1 else 0) l
      else b :: escape (if b =? 0 then S zeros else 0) l
  end.

Lemma unescape_escape l : forall zeros cap, Forall is_byte l -> (length l <= cap)%nat -> unescape (escape zeros l) zeros cap = Some l.
Proof.
  induction l as [|b l IH]; intros zeros cap Hb Hc; [done|]. apply Forall_cons in Hb as [Hb0 Hb]. simpl in Hc.
  destruct cap as [|cap]; [lia|]. cbn [escape]. destruct ((2 <=? zeros)%nat && (b <=? 3)) eqn:E.
  - apply andb_true_iff in E as [Ez _]. cbn [unescape]. rewrite Ez. cbn [Z.eqb andb Pos.eqb Nat.leb].
    rewrite IH by (done || lia). done.
  - cbn [unescape]. assert ((2 <=? zeros)%nat && (b =? 3) = false) as ->.
    { destruct (2 <=? zeros)%nat; [|done]. simpl in *. destruct (Z.eqb_spec b 3); [|done]. by apply Z.leb_gt in E; lia. }
    rewrite IH by (done || lia). done.
Qed.
Lemma ebsp_escape l cap : Forall is_byte l -> (length l <= cap)%nat -> ebsp_to_rbsp (escape 0 l) cap = l.
Proof. intros Hb Hc. unfold ebsp_to_rbsp. by rewrite unescape_escape. Qed.

Lemma starts_cons a p b l : starts (a :: p) (b :: l) = (b =? a) && starts p l.
Proof.
  unfold starts. cbn [length firstn]. destruct (Z.eqb_spec b a) as [->|Hne]; cbn [andb].
  - apply bool_decide_ext. split; [by intros [=]|by intros ->].
  - apply bool_decide_eq_false_2. by intros [=].
Qed.
Lemma starts_any l : starts [] l = true.
Proof. done. Qed.
Lemma starts_short a p : starts (a :: p) [] = false.
Proof. done. Qed.

Lemma escape_starts l : forall zeros,
  ((1 <= zeros)%nat -> starts [0; 1] (escape zeros l) = false) /\ ((2 <= zeros)%nat -> starts [1] (escape zeros l) = false).
Proof.
  induction l as [|b l IH]; intros zeros; [by split|]. cbn [escape].
  destruct ((2 <=? zeros)%nat && (b <=? 3)) eqn:E; [by rewrite !starts_cons|]. rewrite !starts_cons.
  split; intros Hz.
  - destruct (Z.eqb_spec b 0); [|done]. cbn [andb]. apply IH. lia.
  - rewrite starts_any, andb_true_r. apply Z.eqb_neq. intros ->. rewrite (proj2 (Nat.leb_le _ _)) in E by done. done.
Qed.
Lemma clean_cons b m : clean m = true -> (b = 0 -> starts [0; 1] m = false) -> clean (b :: m) = true.
Proof.
  intros Hc Hs. cbn [clean]. rewrite !(starts_cons 0 _ b m), Hc, andb_true_r. destruct (Z.eqb_spec b 0) as [Hb|]; [|done].
  rewrite Hs by done. cbn [andb negb]. apply negb_true_iff. destruct m as [|c m]; [done|]. cbn [clean] in Hc.
  by apply andb_true_iff in Hc as [[?%negb_true_iff _]%andb_true_iff _].
Qed.
Lemma escape_clean l : forall zeros, clean (escape zeros l) = true.
Proof.
  induction l as [|b l IH]; intros zeros; [done|]. cbn [escape].
  assert (forall z, (b = 0 -> (1 <= z)%nat) -> clean (b :: escape z l) = true) as H.
  { intros z Hz. apply clean_cons; [apply IH|]. intros Hb. apply escape_starts. by apply Hz. }
  destruct ((2 <=? zeros)%nat && (b <=? 3)).
  - apply clean_cons; [|done]. apply H. by intros ->.
  - apply H. intros ->. simpl. lia.
Qed.
Lemma escape_last l : forall zeros b, last l = Some b -> last (escape zeros l) = Some b.
Proof.
  assert (forall (c : Z) m b, last m = Some b -> last (c :: m) = Some b) as Hc by (intros c [|? m] b; [done|]; by intros H).
  induction l as [|c l IH]; intros zeros b Hl; [done|]. cbn [escape]. destruct l as [|e l].
  - simpl in Hl. injection Hl as ->. by destruct ((2 <=? zeros)%nat && (b <=? 3)).
  - change (last (e :: l) = Some b) in Hl. destruct ((2 <=? zeros)%nat && (c <=? 3)); repeat apply Hc; by apply IH.
Qed.
(** An escaped unit that ends in a nonzero byte: what [stream] frames. *)
Lemma escape_nal l b : last l = Some b -> b <> 0 -> nal_ok (escape 0 l).
Proof. intros Hl Hb. split; [apply escape_clean|]. exists b. split; [by apply escape_last|done]. Qed.
Lemma length_escape l : forall zeros, (length l <= length (escape zeros l))%nat.
Proof.
  induction l as [|b l IH]; intros zeros; [done|]. cbn [escape]. pose proof (IH 0%nat). pose proof (IH 1%nat). pose proof (IH (S zeros)).
  destruct (_ && _), (b =? 0); cbn [length]; lia.
Qed.

(** ** Finding the units of a stream *)

Lemma next_code_nal nal rest : nal_ok nal -> forall i, next_code (nal ++ rest) i = next_code rest (i + length nal).
Proof.
  intros [Hc Hl]. induction nal as [|x nal IH]; intros i; [by rewrite Nat.add_0_r|]. cbn [clean] in Hc.
  apply andb_true_iff in Hc as [Hc Hc3]. apply andb_true_iff in Hc as [H3 H4].
  pose proof (starts_inside false _ rest H3 Hl) as E3. pose proof (starts_inside true _ rest H4 Hl) as E4. cbn [code] in E3, E4.
  cbn [app] in *. cbn [Rbsp.next_code]. rewrite E3, E4. destruct nal as [|y nal].
  - cbn [app length]. by rewrite Nat.add_1_r.
  - rewrite IH by done. f_equal. simpl. lia.
Qed.
Lemma next_code_stream (items : list item) i :
  Rbsp.next_code (stream items) i = match items with [] => (i, i) | x :: _ => ((i + length (code x.1))%nat, i) end.
Proof.
  destruct items as [|x items]; [done|]. rewrite stream_cons. destruct x as [four nal]. cbn [fst snd].
  destruct four; cbn [code app Rbsp.next_code length].
  - rewrite (starts_false_byte [0; 0; 1] _ 2 1 0) by done.
    assert (starts [0; 0; 0; 1] (0 :: 0 :: 0 :: 1 :: nal ++ stream items) = true) as -> by apply (starts_app [0; 0; 0; 1]). done.
  - assert (starts [0; 0; 1] (0 :: 0 :: 1 :: nal ++ stream items) = true) as -> by apply (starts_app [0; 0; 1]). done.
Qed.

(** From a start code to its unit, and from the unit to the next code. *)
Lemma find_unit pre (x : item) items :
  nal_find_start_code (pre ++ stream (x :: items)) (length pre) = ((length pre + length (code x.1))%nat, length pre).
Proof. unfold nal_find_start_code. by rewrite drop_app_length, next_code_stream. Qed.
Lemma find_unit_end pre (x : item) items : nal_ok x.2 ->
  snd (nal_find_start_code (pre ++ stream (x :: items)) (length pre + length (code x.1))) = (length pre + length (code x.1) + length x.2)%nat.
Proof.
  intros Hok. unfold nal_find_start_code. rewrite stream_cons, app_assoc, <- length_app, drop_app_length, next_code_nal, next_code_stream by done.
  by destruct items.
Qed.
Lemma take_unit_bytes pre (x : item) items :
  take (length x.2) (drop (length pre + length (code x.1)) (pre ++ stream (x :: items))) = x.2.
Proof. rewrite stream_cons, app_assoc, <- length_app, drop_app_length. apply take_app_length. Qed.

(** ** Reading back what was written *)

(** From the bits [l] and the structure [t], the parser returns [a] with [l'] left and
    [t'] filled in. *)
Definition parses {T A} (m : Rd T A) (l : list bool) (t : T) (l' : list bool) (t' : T) (a : A) : Prop :=
  (exists x, l = x ++ l') /\ forall d, tail d l -> m (reader_at d l, t) = Some (reader_at d l', t', inl a).

Section parses.
Context {T : Type}.
Implicit Types (t : T) (l : list bool).

Lemma rb_parses_ret {A} (a : A) l t : parses (mret a) l t l t a.
Proof. split; [by exists []|done]. Qed.
Lemma rb_parses_bind {A B} (m : Rd T A) (k : A -> Rd T B) l t l1 t1 a l2 t2 b :
  parses m l t l1 t1 a -> parses (k a) l1 t1 l2 t2 b -> parses (m ≫= k) l t l2 t2 b.
Proof.
  intros [[x ->] Hm] [[y ->] Hk]. split; [exists (x ++ y); by rewrite app_assoc|]. intros d Ht.
  unfold mbind, Rd_bind. rewrite Hm by done. apply Hk. by eapply tail_app.
Qed.
Lemma parses_upd (f : T -> T) l t t' : t' = f t -> parses (upd f) l t l t' tt.
Proof. intros ->. split; [by exists []|done]. Qed.
Lemma parses_get l t : parses get l t l t t.
Proof. split; [by exists []|done]. Qed.
Lemma parses_need {A} (o : option A) a l t : o = Some a -> parses (need o) l t l t a.
Proof. intros ->. split; [by exists []|done]. Qed.
Lemma parses_failed l t : parses rd_failed l t l t false.
Proof. split; [by exists []|done]. Qed.

Lemma rb_parses_u n v l t : 0 <= v < 2 ^ Z.of_nat n -> (n <= 32)%nat -> parses (rd_u n) (put n v ++ l) t l t v.
Proof.
  intros Hv Hn. split; [by eexists|]. intros d Ht. unfold rd_u, reader. cbn [fst snd]. rewrite (u_at d n) by (rewrite ?length_put; done).
  pose proof (put_window n v [] Hv) as E. rewrite app_nil_r in E. by rewrite E.
Qed.
Lemma parses_u1 b l t : parses rd_u1 (b :: l) t l t (Z.b2z b).
Proof. split; [by exists [b]|]. intros d Ht. unfold rd_u1, rd_u, reader. cbn [fst snd]. by rewrite u1_at. Qed.
Lemma parses_ue v l t : 0 <= v < 2 ^ 32 - 1 -> parses rd_ue (ue_bits v ++ l) t l t v.
Proof. intros Hv. split; [by eexists|]. intros d Ht. unfold rd_ue, reader. cbn [fst snd]. by rewrite br_ue_at. Qed.
Lemma parses_se v l t : - 2 ^ 31 < v < 2 ^ 31 -> parses rd_se (se_bits v ++ l) t l t v.
Proof. intros Hv. split; [by eexists|]. intros d Ht. unfold rd_se, reader. cbn [fst snd]. by rewrite br_se_at. Qed.
Lemma parses_eof b l t : parses rd_eof (b :: l) t (b :: l) t false.
Proof. split; [by exists []|]. intros d Ht. unfold rd_eof, reader. cbn [fst snd]. by rewrite at_cons_eof. Qed.

Lemma parses_more l t : parses rd_more l t l t (more_bits l).
Proof. split; [by exists []|]. intros d Ht. unfold rd_more, reader. cbn [fst snd]. by rewrite more_at. Qed.

Lemma parses_skip {A} (m : Rd T A) l t l' t' a : parses m l t l' t' a -> parses (skip m) l t l' t' tt.
Proof. intros H. eapply rb_parses_bind; [exact H|]. apply rb_parses_ret. Qed.
Lemma parses_when (b : bool) (m : Rd T unit) l t l' t' :
  (if b then parses m l t l' t' tt else l' = l /\ t' = t) -> parses (when b m) l t l' t' tt.
Proof. destruct b; [done|]. intros [-> ->]. apply rb_parses_ret. Qed.

(** A loop that reads one item of a list per round. *)
Lemma parses_times {X} (w : X -> list bool) (m : Rd T unit) l t (xs : list X) :
  (forall x, x ∈ xs -> forall l, parses m (w x ++ l) t l t tt) -> parses (times (length xs) m) (flat_map w xs ++ l) t l t tt.
Proof.
  induction xs as [|x xs IH]; intros H; [apply rb_parses_ret|]. cbn [length times flat_map]. rewrite <- app_assoc.
  eapply rb_parses_bind; [apply H; left|]. apply IH. intros y Hy. apply H. by right.
Qed.
End parses.

(** ** What holds after any run *)

Definition wf (r : BitReader) : Prop := (bit_pos r <= 8 * length (data r))%nat.
Definition after (r r' : BitReader) : Prop := data r' = data r /\ (bit_pos r <= bit_pos r')%nat /\ wf r'.

Lemma after_refl r : wf r -> after r r.
Proof. done. Qed.
Lemma after_trans r1 r2 r3 : after r1 r2 -> after r2 r3 -> after r1 r3.
Proof. intros (E1 & L1 & _) (E2 & L2 & W). split_and!; [congruence|lia|done]. Qed.

Lemma u_loop_after n : forall v r, wf r -> after r (br_u_loop n v r).2 /\
  (br_eof r = false -> (0 < n)%nat -> (bit_pos r < bit_pos (br_u_loop n v r).2)%nat).
Proof.
  induction n as [|n IH]; intros v r Hw; [by split; [|lia]|]. cbn [br_u_loop]. destruct (br_eof r) eqn:E; [done|].
  unfold br_eof in E. apply Nat.leb_gt in E.
  set (r1 := r <| bit_pos ::= S |>). assert (wf r1 /\ after r r1) as [Hw1 Ha1].
  { unfold after, wf, r1 in *. destruct r. cbn in *. split_and!; (done || lia). }
  destruct (IH (u32 (v * 2 + Z.b2z (bit_at (data r) (bit_pos r)))) r1 Hw1) as [Ha _]. split; [by eapply after_trans|].
  intros _ _. destruct Ha as (_ & Hp & _). assert (bit_pos r1 = S (bit_pos r)) by by destruct r. lia.
Qed.
Lemma u_loop_range n : forall v r k, (k + n <= 32)%nat -> 0 <= v < 2 ^ Z.of_nat k -> 0 <= (br_u_loop n v r).1 < 2 ^ Z.of_nat (k + n).
Proof.
  induction n as [|n IH]; intros v r k Hk Hv; [by rewrite Nat.add_0_r|]. cbn [br_u_loop].
  assert (2 ^ Z.of_nat (S k) = 2 * 2 ^ Z.of_nat k) as E by (rewrite Nat2Z.inj_succ, Z.pow_succ_r; lia).
  destruct (br_eof r).
  - cbn [fst]. assert (2 ^ Z.of_nat k <= 2 ^ Z.of_nat (k + S n)) by (apply Z.pow_le_mono_r; lia). lia.
  - rewrite <- Nat.add_succ_comm. assert (2 ^ Z.of_nat (S k) <= 2 ^ 32) by (apply Z.pow_le_mono_r; lia).
    destruct (bit_at _ _); cbn [Z.b2z]; rewrite u32_small by lia; apply IH; lia.
Qed.
Lemma u_loop_u32 n : forall v r, 0 <= v < 2 ^ 32 -> 0 <= (br_u_loop n v r).1 < 2 ^ 32.
Proof. induction n as [|n IH]; intros v r Hv; [done|]. cbn [br_u_loop]. destruct (br_eof r); [done|]. apply IH, u32_range. Qed.

Lemma br_u_after n r : wf r -> after r (br_u n r).2 /\ (br_eof r = false -> (0 < n)%nat -> (bit_pos r < bit_pos (br_u n r).2)%nat).
Proof. apply u_loop_after. Qed.
Lemma zeros_after fuel : forall z r, wf r -> after r (count_zeros fuel z r).2 /\
  (br_eof r = false -> (0 < fuel)%nat -> (bit_pos r < bit_pos (count_zeros fuel z r).2)%nat).
Proof.
  induction fuel as [|fuel IH]; intros z r Hw; [by split; [|lia]|]. cbn [count_zeros].
  destruct (br_eof r) eqn:E; [done|]. destruct (br_u_after 1 r Hw) as [Ha Hp]. destruct (br_u 1 r) as [b r1]. cbn [snd] in *.
  specialize (Hp E ltac:(lia)). destruct (b =? 0); [|done]. destruct (IH (S z) r1) as [Ha2 _]; [apply Ha|].
  split; [by eapply after_trans|]. intros _ _. destruct Ha2 as (_ & ? & _). lia.
Qed.
Lemma fail_after r r' : after r r' -> after r (r' <| failed := true |>).
Proof. by destruct r'. Qed.
Lemma br_ue_after r : wf r -> after r (br_ue r).2 /\ 0 <= (br_ue r).1 < 2 ^ 32 - 1 /\
  (br_eof r = false -> (bit_pos r < bit_pos (br_ue r).2)%nat).
Proof.
  intros Hw. unfold br_ue. destruct (zeros_after (S (8 * length (data r))) 0 r Hw) as [Ha Hp].
  destruct (count_zeros _ 0 r) as [zeros r1]. cbn [snd] in *. assert (br_eof r = false -> (bit_pos r < bit_pos r1)%nat) as Hp' by (intros H; apply Hp; [done|lia]).
  destruct (br_eof r1 && (0 <? zeros)%nat); [cbn [fst snd]; split_and!; [by apply fail_after|lia|lia|by destruct r1]|].
  destruct (Nat.ltb_spec 31 zeros); [cbn [fst snd]; split_and!; [by apply fail_after|lia|lia|by destruct r1]|].
  destruct (br_u_after zeros r1) as [Ha2 _]; [apply Ha|]. pose proof (u_loop_range zeros 0 r1 0 ltac:(lia) ltac:(simpl; lia)) as Hr.
  change (br_u_loop zeros 0 r1) with (br_u zeros r1) in Hr. destruct (br_u zeros r1) as [v r2]. cbn [fst snd] in *. rewrite Nat.add_0_l in Hr.
  assert (2 ^ Z.of_nat zeros <= 2 ^ 31) by (apply Z.pow_le_mono_r; lia). assert (0 < 2 ^ Z.of_nat zeros) by (apply Z.pow_pos_nonneg; lia).
  split_and!; [by eapply after_trans|apply u32_range|rewrite u32_small; lia|]. intros He. destruct Ha2 as (_ & ? & _). specialize (Hp' He). lia.
Qed.
Lemma br_se_after r : wf r -> after r (br_se r).2 /\ - 2 ^ 31 < (br_se r).1 < 2 ^ 31 /\
  (br_eof r = false -> (bit_pos r < bit_pos (br_se r).2)%nat).
Proof.
  intros Hw. unfold br_se. destruct (br_ue_after r Hw) as (Ha & Hr & Hp). destruct (br_ue r) as [k r1]. cbn [fst snd] in *.
  assert (- 2 ^ 31 < (if Z.odd k then Z.shiftr (k + 1) 1 else - Z.shiftr k 1) < 2 ^ 31); [|exact (conj Ha (conj H Hp))].
  destruct (Z.odd k) eqn:Eo; rewrite Z.shiftr_div_pow2 by lia; change (2 ^ 1) with 2; [|zdm].
  rewrite <- Z.negb_even, negb_true_iff in Eo. assert (k <> 2 ^ 32 - 2) by (intros ->; done). zdm.
Qed.

Definition is_status (e : Z) : Prop := 1 <= e <= 3.

Section keeps.
Context {T : Type} (trap : Prop) (I : T -> Prop).

(** Any run that starts in [I] ends in [I], with a value in [V] or an error status; it
    is undefined only if [trap] allows it. *)
Definition keeps {A} (m : Rd T A) (V : A -> Prop) : Prop :=
  forall r t, wf r -> I t -> match m (r, t) with
    | None => trap
    | Some (r', t', o) => after r r' /\ I t' /\ match o with inl a => V a | inr e => is_status e end
    end.

Lemma keeps_ret {A} (a : A) (V : A -> Prop) : V a -> keeps (mret a) V.
Proof. intros Ha r t Hw Ht. by split_and!. Qed.
Lemma keeps_bind {A B} (m : Rd T A) (k : A -> Rd T B) V W :
  keeps m V -> (forall a, V a -> keeps (k a) W) -> keeps (m ≫= k) W.
Proof.
  intros Hm Hk r t Hw Ht. unfold mbind, Rd_bind. specialize (Hm r t Hw Ht). destruct (m (r, t)) as [[[r1 t1] [a|e]]|]; [| |done].
  - destruct Hm as (Ha & Ht1 & Hv). specialize (Hk a Hv r1 t1 ltac:(apply Ha) Ht1).
    destruct (k a (r1, t1)) as [[[r2 t2] o]|]; [|done]. destruct Hk as (Ha2 & Hk). split; [by eapply after_trans|done].
  - done.
Qed.
Lemma keeps_conseq {A} (m : Rd T A) (V W : A -> Prop) : keeps m V -> (forall a, V a -> W a) -> keeps m W.
Proof.
  intros Hm H r t Hw Ht. specialize (Hm r t Hw Ht). destruct (m (r, t)) as [[[r1 t1] [a|e]]|]; [|done..].
  destruct Hm as (? & ? & ?). split_and!; auto.
Qed.
Lemma keeps_stop {A} e (V : A -> Prop) : is_status e -> keeps (stop e) V.
Proof. intros He r t Hw Ht. by split_and!. Qed.
Lemma rb_keeps_upd f (V : unit -> Prop) : (forall t, I t -> I (f t)) -> V tt -> keeps (upd f) V.
Proof. intros Hf Hv r t Hw Ht. split_and!; [done|by apply Hf|done]. Qed.
Lemma keeps_get : keeps get I.
Proof. intros r t Hw Ht. by split_and!. Qed.
Lemma keeps_need {A} (o : option A) (V : A -> Prop) : match o with Some a => V a | None => trap end -> keeps (need o) V.
Proof. intros Ho r t Hw Ht. unfold need. destruct o; [|done]. by split_and!. Qed.

Lemma keeps_reader {A} (f : BitReader -> A * BitReader) (V : A -> Prop) :
  (forall r, wf r -> after r (f r).2 /\ V (f r).1) -> keeps (reader f) V.
Proof.
  intros Hf r t Hw Ht. unfold reader. cbn [fst snd]. specialize (Hf r Hw). destruct (f r). cbn [fst snd] in Hf. destruct Hf as [Hf Hv]. exact (conj Hf (conj Ht Hv)).
Qed.
Lemma keeps_u n : (n <= 32)%nat -> keeps (rd_u n) (fun v => 0 <= v < 2 ^ Z.of_nat n).
Proof.
  intros Hn. apply keeps_reader. intros r Hw. split; [by apply br_u_after|].
  exact (u_loop_range n 0 r 0 ltac:(lia) ltac:(simpl; lia)).
Qed.
Lemma keeps_u_any n : keeps (rd_u n) (fun v => 0 <= v < 2 ^ 32).
Proof. apply keeps_reader. intros r Hw. split; [by apply br_u_after|]. apply u_loop_u32. lia. Qed.
Lemma keeps_u1 : keeps rd_u1 (fun v => 0 <= v < 2).
Proof. apply (keeps_u 1). lia. Qed.
Lemma keeps_ue : keeps rd_ue (fun v => 0 <= v < 2 ^ 32 - 1).
Proof. apply keeps_reader. intros r Hw. by destruct (br_ue_after r Hw) as (? & ? & _). Qed.
Lemma keeps_se : keeps rd_se (fun v => - 2 ^ 31 < v < 2 ^ 31).
Proof. apply keeps_reader. intros r Hw. by destruct (br_se_after r Hw) as (? & ? & _). Qed.
Lemma keeps_eof : keeps rd_eof (fun _ => True).
Proof. apply keeps_reader. by intros r Hw. Qed.
Lemma keeps_more : keeps rd_more (fun _ => True).
Proof. apply keeps_reader. by intros r Hw. Qed.
Lemma keeps_failed : keeps rd_failed (fun _ => True).
Proof. apply keeps_reader. by intros r Hw. Qed.

Lemma keeps_skip {A} (m : Rd T A) V : keeps m V -> keeps (skip m) (fun _ => True).
Proof. intros H. eapply keeps_bind; [exact H|]. intros. by apply keeps_ret. Qed.
Lemma keeps_when b m (V : unit -> Prop) : (b = true -> keeps m V) -> V tt -> keeps (when b m) V.
Proof. intros Hm Hv. destruct b; [by apply Hm|by apply keeps_ret]. Qed.
Lemma keeps_times n m V : keeps m V -> keeps (times n m) (fun _ => True).
Proof.
  intros Hm. induction n as [|n IH]; [by apply keeps_ret|]. cbn [times]. eapply keeps_bind; [exact Hm|]. intros. apply IH.
Qed.
Lemma keeps_collect {A} n (m : nat -> Rd T A) (V : nat -> A -> Prop) : forall i, (forall j, (i <= j < i + n)%nat -> keeps (m j) (V j)) ->
  keeps (collect n i m) (fun l => length l = n /\ forall j a, l !! j = Some a -> V (i + j)%nat a).
Proof.
  induction n as [|n IH]; intros i Hm; [by apply keeps_ret|]. cbn [collect].
  eapply keeps_bind; [apply Hm; lia|]. intros a Ha. eapply keeps_bind; [apply (IH (S i)); intros; apply Hm; lia|].
  intros l [Hl Hv]. apply keeps_ret. split; [simpl; lia|]. intros [|j] b Hb.
  - simpl in Hb. injection Hb as <-. by rewrite Nat.add_0_r.
  - rewrite <- Nat.add_succ_comm. by apply Hv.
Qed.
End keeps.

(** * What the two parameter set parsers share

    How syntax is written ([opt_bits], [only], the bytes of a unit [rbsp]), the lemmas that
    read it back, ranges of fields for the parsers on arbitrary bytes, and the loop over
    the units of an access unit, on a written stream and on any. *)

(** ** Writing *)

Definition opt_bits {A} (w : A -> list bool) (o : option A) : list bool :=
  match o with None => [false] | Some a => true :: w a end.

(** A value of [n] bits, an Exp-Golomb value, a signed one, an Exp-Golomb byte. *)
Definition bits_ok (n : Z) (v : Z) : Prop := 0 <= v < 2 ^ n.
Definition ue_ok (v : Z) : Prop := 0 <= v < 2 ^ 32 - 1.
Definition se_ok (v : Z) : Prop := - 2 ^ 31 < v < 2 ^ 31.
Definition opt_ok {A} (P : A -> Prop) (o : option A) : Prop := from_option P True o.


Definition only (b : bool) (l : list bool) : list bool := if b then l else [].

Definition offset_ok (v : Z) : Prop := -128 <= v < 128.

(** ** Tactics *)

Ltac ok := first [done | assumption | unfold bits_ok, ue_ok, se_ok, offset_ok in *; cbn [Z.of_nat Pos.of_succ_nat Pos.succ] in *; lia].
Ltac bits := repeat (progress (rewrite <- ?app_assoc; cbn [app])).
(** One read. *)
Ltac pread :=
  first [ apply parses_u1 | eapply rb_parses_u; [ok|lia] | eapply parses_ue; ok | eapply parses_se; ok
        | apply parses_get | apply parses_failed | apply rb_parses_ret
        | eapply parses_skip; pread | eapply parses_upd; reflexivity ].
(** One read and what follows. *)
Ltac pstep := eapply rb_parses_bind; [pread|cbv beta].

Lemma truth_of_b2z b : truth (Z.b2z b) = b.
Proof. by destruct b. Qed.
Lemma u8_ok v : bits_ok 8 v -> u8 v = v.
Proof. apply Z.mod_small. Qed.
Lemma i8_ok v : offset_ok v -> i8 v = v.
Proof. unfold i8, offset_ok. intros H. rewrite Z.mod_small; lia. Qed.

(** An optional part; what follows may ask whether it was there. *)
Lemma parses_opt_k {T A B} (w : A -> list bool) (o : option A) (m : Rd T unit) (k : Z -> Rd T B) l1 t t1 l2 t2 b :
  (forall a, o = Some a -> parses m (w a ++ l1) t l1 t1 tt) -> (o = None -> t1 = t) ->
  parses (k (Z.b2z (bool_decide (is_Some o)))) l1 t1 l2 t2 b ->
  parses (p ← rd_u1; when (truth p) m;; k p) (opt_bits w o ++ l1) t l2 t2 b.
Proof.
  intros Hm Hn Hk. destruct o as [a|]; cbn [opt_bits app].
  - eapply rb_parses_bind; [apply (parses_u1 true)|]. cbv beta. rewrite truth_of_b2z. eapply rb_parses_bind; [by apply Hm|exact Hk].
  - eapply rb_parses_bind; [apply (parses_u1 false)|]. cbv beta. rewrite truth_of_b2z. eapply rb_parses_bind; [apply rb_parses_ret|].
    rewrite <- (Hn eq_refl). exact Hk.
Qed.
Lemma rb_parses_opt {T A B} (w : A -> list bool) (o : option A) (m : Rd T unit) (k : Rd T B) l1 t t1 l2 t2 b :
  (forall a, o = Some a -> parses m (w a ++ l1) t l1 t1 tt) -> (o = None -> t1 = t) ->
  parses k l1 t1 l2 t2 b -> parses (p ← rd_u1; when (truth p) m;; k) (opt_bits w o ++ l1) t l2 t2 b.
Proof. apply (parses_opt_k w o m (fun _ => k)). Qed.
(** The same at the end of a sequence. *)
Lemma parses_opt_last {T A} (w : A -> list bool) (o : option A) (m : Rd T unit) l1 t t1 :
  (forall a, o = Some a -> parses m (w a ++ l1) t l1 t1 tt) -> (o = None -> t1 = t) ->
  parses (p ← rd_u1; when (truth p) m) (opt_bits w o ++ l1) t l1 t1 tt.
Proof.
  intros Hm Hn. destruct o as [a|]; cbn [opt_bits app]; (eapply rb_parses_bind; [apply parses_u1|]); cbv beta; rewrite truth_of_b2z.
  - by apply Hm.
  - rewrite (Hn eq_refl). apply rb_parses_ret.
Qed.


(** A part of the header that is only there under a condition. *)
Lemma parses_only {T} (c : bool) (m : Rd T unit) x l t t1 :
  (c = true -> parses m (x ++ l) t l t1 tt) -> (c = false -> t1 = t) -> parses (when c m) (only c x ++ l) t l t1 tt.
Proof. intros Ht Hf. apply parses_when. destruct c; [by apply Ht|]. split; [done|by apply Hf]. Qed.


Lemma u16_ok v n : 0 <= n <= 16 -> bits_ok n v -> u16 v = v.
Proof.
  intros Hn Hv. unfold bits_ok in Hv. apply Z.mod_small. assert (2 ^ n <= 2 ^ 16) by (apply Z.pow_le_mono_r; lia). lia.
Qed.

Lemma parses_fuel {T A} (k : nat -> Rd T A) l t l' t' (a : A) :
  (forall n, (length l < n)%nat -> parses (k n) l t l' t' a) -> parses (loop_fuel ≫= k) l t l' t' a.
Proof.
  intros H. split; [by destruct (H (S (length l)) ltac:(lia))|]. intros d Ht. destruct (H (8 * length d + 2)%nat) as [_ Hk].
  - pose proof (tail_length _ _ Ht). lia.
  - exact (Hk d Ht).
Qed.
Lemma ue_bits_cons v : exists b l, ue_bits v = b :: l.
Proof. unfold ue_bits. destruct (Z.to_nat (Z.log2 (v + 1))); by repeat eexists. Qed.
Lemma ue_not_nil v r : ue_bits v ++ r <> [].
Proof. by destruct (ue_bits_cons v) as (b & l & ->). Qed.
Lemma app_not_nil {A} (x y : list A) : y <> [] -> x ++ y <> [].
Proof. destruct x; [done|]. done. Qed.
Lemma parses_not_eof {T} l (t : T) : l <> [] -> parses rd_eof l t l t false.
Proof. destruct l; [done|]. intros _. apply parses_eof. Qed.
Lemma length_ue v : (1 <= length (ue_bits v))%nat.
Proof. destruct (ue_bits_cons v) as (b & l & ->). simpl. lia. Qed.
(** Items of at least a bit each. *)
Lemma length_flat {A} (w : A -> list bool) l : (forall x, 1 <= length (w x))%nat -> (length l <= length (flat_map w l))%nat.
Proof. intros H. induction l as [|x l IH]; [done|]. cbn [flat_map]. rewrite length_app. specialize (H x). simpl. lia. Qed.

(** The bits with the stop bit and the alignment. *)
Definition rbsp (l : list bool) : list Z := of_bits (l ++ true :: replicate (7 - length l mod 8) false).


(** ** Bytes of a bit string *)

Lemma length_rbsp_bits (l : list bool) : ((length (l ++ true :: replicate (7 - length l mod 8) false)) mod 8 = 0)%nat.
Proof.
  rewrite length_app. cbn [length]. rewrite length_replicate. pose proof (Nat.mod_upper_bound (length l) 8 ltac:(lia)).
  pose proof (Nat.div_mod_eq (length l) 8). replace (length l + S (7 - length l mod 8))%nat with (8 * (length l / 8 + 1))%nat by lia.
  rewrite Nat.mul_comm. apply Nat.Div0.mod_mul.
Qed.
Lemma rbsp_bits l : to_bits (rbsp l) = l ++ true :: replicate (7 - length l mod 8) false.
Proof. apply to_of_bits, length_rbsp_bits. Qed.
Lemma rbsp_bytes l : Forall is_byte (rbsp l).
Proof. apply of_bits_bytes. Qed.

(** The last byte holds the stop bit. *)
Lemma to_bits_zero_tail l b : last l = Some b -> b = 0 -> exists x, to_bits l = x ++ replicate 8 false.
Proof.
  intros Hl ->. apply last_Some in Hl as [l' ->]. exists (to_bits l'). by rewrite to_bits_app.
Qed.
Lemma rbsp_last l : exists b, last (rbsp l) = Some b /\ b <> 0.
Proof.
  destruct (last (rbsp l)) as [b|] eqn:E.
  - exists b. split; [done|]. intros Hb. destruct (to_bits_zero_tail _ _ E Hb) as [x Hx]. rewrite rbsp_bits in Hx.
    assert ((l ++ true :: replicate (7 - length l mod 8) false) !! length l = Some true) as H1 by (by rewrite lookup_app_r, Nat.sub_diag by lia).
    assert (length (l ++ true :: replicate (7 - length l mod 8) false) = length (x ++ replicate 8 false)) as HL by by rewrite Hx.
    rewrite Hx in H1. rewrite !length_app in HL. cbn [length] in HL. rewrite !length_replicate in HL.
    pose proof (Nat.mod_upper_bound (length l) 8 ltac:(lia)). rewrite lookup_app_r in H1 by lia.
    apply lookup_replicate_1 in H1. by destruct H1.
  - apply last_None in E. pose proof (rbsp_bits l) as H. rewrite E in H. by destruct l.
Qed.


Lemma run_payload {T A} (m : Rd T A) bits t l' t' a d : parses m bits t l' t' a -> to_bits d = bits ->
  m (br_init d, t) = Some (reader_at d l', t', inl a).
Proof.
  intros [_ H] E. replace (br_init d) with (reader_at d bits); [apply H; unfold tail; rewrite E; by exists []|].
  unfold br_init, reader_at. f_equal. rewrite <- E, length_to_bits. lia.
Qed.

Lemma next_code_range l : forall i, (i <= snd (Rbsp.next_code l i) <= fst (Rbsp.next_code l i))%nat /\ (fst (Rbsp.next_code l i) <= i + length l)%nat /\
  (fst (Rbsp.next_code l i) = i + length l \/ i + 3 <= fst (Rbsp.next_code l i))%nat.
Proof.
  induction l as [|b l IH]; intros i; [simpl; lia|]. cbn [Rbsp.next_code].
  destruct (starts [0; 0; 1] (b :: l)) eqn:E3; [|destruct (starts [0; 0; 0; 1] (b :: l)) eqn:E4].
  - pose proof (starts_lookup _ _ 2 1 E3 eq_refl) as H%lookup_lt_Some. cbn [fst snd]. lia.
  - pose proof (starts_lookup _ _ 3 1 E4 eq_refl) as H%lookup_lt_Some. cbn [fst snd]. lia.
  - destruct (IH (S i)) as (H1 & H2 & H3). cbn [length]. lia.
Qed.


Lemma wf_init d : wf (br_init d).
Proof. unfold wf. simpl. lia. Qed.

Lemma unescape_bytes l : forall z c r, Forall is_byte l -> unescape l z c = Some r -> Forall is_byte r.
Proof.
  induction l as [|b l IH]; intros z c r Hb; [by intros [= <-]|]. apply Forall_cons in Hb as [Hb0 Hb]. cbn [unescape].
  destruct (_ && _); [by apply IH|]. destruct c as [|c]; [done|]. destruct (unescape _ _ _) eqn:E; [|done]. intros [= <-]. constructor; [done|by eapply IH].
Qed.
Lemma ebsp_bytes l c : Forall is_byte l -> Forall is_byte (ebsp_to_rbsp l c).
Proof. intros H. unfold ebsp_to_rbsp. destruct (unescape l 0 c) eqn:E; [by eapply unescape_bytes|constructor]. Qed.

(** ** Ranges of what is read *)

Definition int_ok (v : Z) : Prop := - 2 ^ 31 <= v < 2 ^ 31.
Lemma u8_fits v : bits_ok 8 (u8 v).
Proof. apply Z.mod_pos_bound. lia. Qed.
Lemma u16_fits v : bits_ok 16 (u16 v).
Proof. apply Z.mod_pos_bound. lia. Qed.
Lemma i8_fits v : offset_ok (i8 v).
Proof. unfold offset_ok, i8. zdm. Qed.
Lemma lor_fits n a b : bits_ok n a -> bits_ok n b -> bits_ok n (Z.lor a b).
Proof.
  intros [Ha1 Ha2] [Hb1 Hb2]. split; [by apply Z.lor_nonneg|]. destruct (Z.eq_dec a 0) as [->|Ha]; [by rewrite Z.lor_0_l|].
  destruct (Z.eq_dec b 0) as [->|Hb]; [by rewrite Z.lor_0_r|]. assert (0 <= n) by (destruct (Z.neg_nonneg_cases n) as [H|H]; [rewrite Z.pow_neg_r in Ha2 by lia; lia|done]).
  apply Z.log2_lt_pow2; [pose proof (Z.lor_nonneg a b); assert (Z.lor a b <> 0) by (intros E; apply Z.lor_eq_0_iff in E; lia); lia|].
  rewrite Z.log2_lor by lia. apply Z.log2_lt_pow2 in Ha2; [|lia]. apply Z.log2_lt_pow2 in Hb2; [|lia]. lia.
Qed.
#[export] Hint Resolve u8_fits u16_fits i8_fits : rk.

Section ranges.
Context {T : Type} (trap : Prop) (I : T -> Prop).
#[local] Abbreviation keeps := (keeps trap I).

Lemma keeps_u_bits n (N : Z) : (n <= 32)%nat -> Z.of_nat n = N -> keeps (rd_u n) (bits_ok N).
Proof. intros Hn <-. by apply keeps_u. Qed.
Lemma keeps_u1_bits : keeps rd_u1 (bits_ok 1).
Proof. apply keeps_u1. Qed.
Lemma keeps_any {A} (m : Rd T A) V : keeps m V -> keeps m (fun _ => True).
Proof. intros H. by eapply keeps_conseq. Qed.
Lemma keeps_flagged (m : Rd T unit) : keeps m (fun _ => True) -> keeps (p ← rd_u1; when (truth p) m) (fun _ => True).
Proof. intros Hm. eapply keeps_bind; [apply keeps_u1|]. intros p _. apply keeps_when; [by intros _|done]. Qed.
End ranges.


(** ** Lists written in a scan order *)

Definition last_of (v : Z) (vs : list Z) : Z := List.last vs v.
Fixpoint deltas (last : Z) (vs : list Z) : list bool :=
  match vs with
  | [] => []
  | v :: vs => se_bits (i8 (v - last)) ++ deltas v vs
  end.

Fixpoint position (p : nat) (zz : list nat) : nat :=
  match zz with [] => O | q :: zz => if (q =? p)%nat then O else S (position p zz) end.
(** The values in raster order: at [p] the value of its place in the scan. *)
Definition raster (zz : list nat) (vs : list Z) : list Z :=
  map (fun p => default 0 (vs !! Nat.min (position p zz) (length vs - 1))) (seq 0 (length zz)).
(** What the loop writes: the values at their places, the last one in what remains. *)
Fixpoint fill (zz : list nat) (vs : list Z) (cur : Z) (l : list Z) : list Z :=
  match zz with
  | [] => l
  | p :: zz => match vs with [] => fill zz [] cur (<[p := cur]> l) | v :: vs => fill zz vs v (<[p := v]> l) end
  end.

Lemma last_of_cons cur v vs : last_of cur (v :: vs) = last_of v vs.
Proof.
  unfold last_of. destruct vs as [|a vs]; [done|]. revert a. induction vs as [|b vs IH]; intros a; [done|]. apply (IH b).
Qed.
Lemma fill_other zz p : (p ∉ zz) -> forall vs cur l, fill zz vs cur l !! p = l !! p.
Proof.
  induction zz as [|q zz IH]; intros Hp vs cur l; [done|]. apply not_elem_of_cons in Hp as [Hq Hp].
  destruct vs; cbn [fill]; rewrite IH by done; by apply list_lookup_insert_ne.
Qed.
Lemma length_fill zz : forall vs cur l, length (fill zz vs cur l) = length l.
Proof. induction zz as [|q zz IH]; intros vs cur l; [done|]. destruct vs; cbn [fill]; by rewrite IH, length_insert. Qed.
Lemma fill_lookup zz p : NoDup zz -> p ∈ zz -> forall vs cur l, (p < length l)%nat -> (length vs <= length zz)%nat ->
  fill zz vs cur l !! p = Some (match vs !! position p zz with Some v => v | None => last_of cur vs end).
Proof.
  induction zz as [|q zz IH]; intros Hnd Hp vs cur l Hl Hv; [by apply not_elem_of_nil in Hp|]. apply NoDup_cons in Hnd as [Hq Hnd].
  cbn [position]. destruct (Nat.eqb_spec q p) as [->|Hne].
  - destruct vs as [|v vs]; cbn [fill]; rewrite fill_other by done; rewrite list_lookup_insert_eq by done; done.
  - apply elem_of_cons in Hp as [->|Hp]; [done|]. destruct vs as [|v vs]; cbn [fill].
    + rewrite IH by (rewrite ?length_insert; simpl in *; done || lia). done.
    + rewrite IH by (rewrite ?length_insert; simpl in *; done || lia). cbn [lookup list_lookup].
      by rewrite last_of_cons.
Qed.

Lemma last_of_lookup v vs : vs <> [] -> Some (last_of v vs) = vs !! (length vs - 1)%nat.
Proof.
  unfold last_of. induction vs as [|a vs IH]; [done|]. intros _. destruct vs as [|b vs]; [done|].
  change (List.last (a :: b :: vs) v) with (List.last (b :: vs) v). rewrite IH by done. simpl. by rewrite Nat.sub_0_r.
Qed.

Lemma fill_raster zz vs l : NoDup zz -> (forall p, (p < length zz)%nat -> p ∈ zz) -> length l = length zz ->
  vs <> [] -> (length vs <= length zz)%nat -> fill zz vs 8 l = raster zz vs.
Proof.
  intros Hnd Hall Hl Hne Hv. apply list_eq. intros p. destruct (decide (p < length zz)%nat) as [Hp|Hp].
  - rewrite fill_lookup by (auto; lia). unfold raster. rewrite list_lookup_fmap, lookup_seq_lt by done. cbn [fmap option_fmap option_map].
    f_equal. rewrite Nat.add_0_l. destruct (vs !! position p zz) eqn:E.
    + pose proof (lookup_lt_Some _ _ _ E). rewrite Nat.min_l by lia. by rewrite E.
    + apply lookup_ge_None in E. rewrite Nat.min_r by lia. by rewrite <- (last_of_lookup 8).
  - rewrite !lookup_ge_None_2; [done|unfold raster; rewrite length_map, length_seq; lia|rewrite length_fill; lia].
Qed.

Lemma next_scale last v : 0 <= last <= 255 -> 0 <= v <= 255 -> Z.land (last + i8 (v - last) + 256) 0xff = v.
Proof. intros Hl Hv. change 0xff with (Z.ones 8). rewrite Z.land_ones by done. unfold i8. change (2 ^ 8) with 256. zdm. Qed.
Lemma delta_ok last v : se_ok (i8 (v - last)).
Proof. unfold se_ok, i8. zdm. Qed.

Lemma length_raster zz vs : length (raster zz vs) = length zz.
Proof. unfold raster. by rewrite length_map, length_seq. Qed.

(** ** Picture order counts *)

Lemma shl1_pow n : 0 <= n <= 12 -> shl1 (n + 4) = Some (2 ^ (n + 4)).
Proof.
  intros Hn. unfold shl1. rewrite (proj2 (Z.ltb_lt _ 32)) by lia. f_equal. unfold to_int.
  assert (0 < 2 ^ (n + 4)) by (apply Z.pow_pos_nonneg; lia). assert (2 ^ (n + 4) <= 2 ^ 16) by (apply Z.pow_le_mono_r; lia).
  rewrite Z.mod_small; lia.
Qed.

(** The most significant part is that of the count nearest to the one before. *)
Lemma poc_msb_exact m prev c : 0 < m -> m mod 2 = 0 -> m <= 2 ^ 16 -> Z.abs prev < 2 ^ 28 -> Z.abs c < 2 ^ 28 ->
  - (m / 2) < c - prev <= m / 2 ->
  poc_msb_of m (c mod m) (prev mod m) (prev - prev mod m) = Some (c - c mod m).
Proof.
  intros Hm H2 Hm16 Hp Hc Hw. unfold poc_msb_of.
  pose proof (Z.div_mod prev m ltac:(lia)) as Ep. pose proof (Z.div_mod c m ltac:(lia)) as Ec.
  pose proof (Z.mod_pos_bound prev m Hm) as Rp. pose proof (Z.mod_pos_bound c m Hm) as Rc. pose proof (Z.div_mod m 2 ltac:(lia)).
  assert (c / m = prev / m \/ c / m = prev / m + 1 \/ c / m = prev / m - 1) as Hq.
  { destruct (Z.lt_trichotomy (c / m) (prev / m)) as [Hlt|[Hlt|Hlt]]; [|by left|]; right; [right|left]; nia. }
  assert (m * (c / m) = m * (prev / m) \/ m * (c / m) = m * (prev / m) + m \/ m * (c / m) = m * (prev / m) - m) as Hx
    by (destruct Hq as [->|[->| ->]]; [left|right; left|right; right]; ring).
  clear Hq. revert Ep Ec Hx Rp Rc. generalize (m * (c / m)), (m * (prev / m)), (c mod m), (prev mod m). intros qc qp rc rp. intros.
  destruct (Z.ltb_spec rc rp), (Z.leb_spec (m / 2) (rp - rc)), (Z.ltb_spec rp rc), (Z.ltb_spec (m / 2) (rc - rp)); cbn [andb];
    rewrite ?int32_ok by lia; first [f_equal; lia | exfalso; lia].
Qed.

(** ** The loop over the units *)

(** A written access unit: each unit is written for the state in front of it, parsed as
    it was meant, and does what its [effect] says. *)
Section written_units.
Context {R St N : Type} (parse : list Z -> R -> St -> option (R * (St + Z))).
Context (bytes : R -> N -> list Z) (effect : N -> R -> St -> option (R * St)) (ok : R -> N -> Prop).
Hypothesis Hparse : forall n o st, ok o n -> parse (bytes o n) o st = ('(o', st') ← effect n o st; Some (o', inl st')).
Hypothesis Hbytes : forall n o, ok o n -> Forall is_byte (bytes o n).
Hypothesis Hlast : forall n o, exists b, last (bytes o n) = Some b /\ b <> 0.

Fixpoint write_units (o : R) (st : St) (nals : list (bool * N)) : list item :=
  match nals with
  | [] => []
  | (four, n) :: nals =>
      (four, escape 0 (bytes o n)) ::
      match effect n o st with Some (o, st) => write_units o st nals | None => [] end
  end.
Fixpoint units_effect (o : R) (st : St) (nals : list (bool * N)) : option (R * St) :=
  match nals with
  | [] => Some (o, st)
  | (_, n) :: nals => '(o, st) ← effect n o st; units_effect o st nals
  end.
Fixpoint units_ok (o : R) (st : St) (nals : list (bool * N)) : Prop :=
  match nals with
  | [] => True
  | (_, n) :: nals => ok o n /\ match effect n o st with Some (o, st) => units_ok o st nals | None => False end
  end.

Lemma written_nal_ok n o : nal_ok (escape 0 (bytes o n)).
Proof. destruct (Hlast n o) as (x & Hx & Hne). by apply (escape_nal _ x). Qed.

Lemma nal_loop_written nals : forall pre fuel size off o st, units_ok o st nals ->
  (length (write_units o st nals) < fuel)%nat -> (off + length (stream (write_units o st nals)) <= size)%nat ->
  nal_loop parse fuel (pre ++ stream (write_units o st nals)) size off (length pre) o st
  = ('(o, st) ← units_effect o st nals; Some (o, inl st)).
Proof.
  induction nals as [|[four n] nals IH]; intros pre fuel size off o st Hok Hf Hs; (destruct fuel as [|fuel]; [cbn [write_units length] in Hf; lia|]).
  { cbn [nal_loop write_units units_effect]. unfold stream. cbn [flat_map]. rewrite app_nil_r, (proj2 (Nat.ltb_ge _ _)) by lia. done. }
  cbn [units_ok units_effect write_units] in *. destruct Hok as [Hn Hrest].
  set (x := (four, escape 0 (bytes o n)) : item) in *.
  assert (nal_ok x.2) as Hx by apply written_nal_ok.
  assert (exists items, write_units o st ((four, n) :: nals) = x :: items /\
    items = match effect n o st with Some (o, st) => write_units o st nals | None => [] end) as (items & _ & Ei) by (by eexists).
  rewrite <- Ei in *. cbn [nal_loop].
  assert (0 < length x.2)%nat as Hlx by (destruct Hx as [_ (b & Hb & _)]; destruct (x.2); [done|simpl; lia]).
  assert (length (pre ++ stream (x :: items)) = length pre + length (code x.1) + length x.2 + length (stream items))%nat as Hlen
    by (rewrite stream_cons, !length_app; lia).
  assert (0 < length (code x.1))%nat as Hlc by (destruct x as [[] ?]; simpl; lia).
  rewrite (proj2 (Nat.ltb_lt (length pre) _)) by lia. cbn [negb]. rewrite find_unit. cbv beta iota.
  rewrite (proj2 (Nat.leb_gt _ (length pre + length (code x.1)))) by lia.
  pose proof (find_unit_end pre x items Hx) as He. destruct (nal_find_start_code _ (length pre + length (code x.1))) as [q e]. cbn [snd] in He.
  subst e. rewrite (proj2 (Nat.ltb_lt (length pre + length (code x.1)) _)) by lia.
  replace (length pre + length (code x.1) + length x.2 - (length pre + length (code x.1)))%nat with (length x.2) by lia.
  rewrite stream_cons, !length_app in Hs. rewrite (proj2 (Nat.ltb_ge size _)) by lia. rewrite take_unit_bytes.
  pose proof (length_escape (bytes o n) 0) as Hle. change (escape 0 _) with x.2 in Hle at 1.
  assert (ebsp_to_rbsp x.2 (size - off) = bytes o n) as -> by (apply ebsp_escape; [by apply Hbytes|lia]).
  cbv zeta. rewrite Hparse by done. destruct (effect n o st) as [[o1 st1]|]; [|done]. ostep. cbv beta iota.
  replace (pre ++ stream (x :: items)) with ((pre ++ code x.1 ++ x.2) ++ stream items) by (by rewrite stream_step).
  replace (length pre + length (code x.1) + length x.2)%nat with (length (pre ++ code x.1 ++ x.2)) by (rewrite !length_app; lia).
  rewrite Ei. apply IH; [done|rewrite <- Ei; cbn [length] in Hf; lia|]. rewrite <- Ei. lia.
Qed.
End written_units.

(** The bytes of a unit of a buffer: from behind a start code to the next one. *)
Definition unit_in (buf rbsp : list Z) : Prop := exists pos cap,
  let start := fst (nal_find_start_code buf pos) in
  let stop := snd (nal_find_start_code buf start) in
  (start < length buf)%nat /\
  rbsp = ebsp_to_rbsp (take ((if (start <? stop)%nat then stop else length buf) - start) (drop start buf)) cap.

(** Any buffer: what holds of every unit holds of the loop, and the fuel is enough. *)
Section any_units.
Context {R St : Type} (parse : list Z -> R -> St -> option (R * (St + Z))).
Context (I : R -> Prop) (J : St -> Prop) (trap : list Z -> Prop).
Hypothesis Hparse : forall rbsp o st, Forall is_byte rbsp -> I o -> J st ->
  match parse rbsp o st with
  | None => trap rbsp
  | Some (o', r) => I o' /\ match r with inl st' => J st' | inr e => is_status e end
  end.

Lemma nal_loop_keeps buf size : Forall is_byte buf -> forall fuel off pos o st, I o -> J st -> (pos <= length buf < fuel + pos)%nat ->
  match nal_loop parse fuel buf size off pos o st with
  | None => exists rbsp, unit_in buf rbsp /\ trap rbsp
  | Some (o', r) => I o' /\ match r with inl st' => J st' | inr e => is_status e end
  end.
Proof.
  intros Hb. induction fuel as [|fuel IH]; intros off pos o st Ho Hst Hf; [lia|]. cbn [nal_loop].
  destruct (Nat.ltb_spec pos (length buf)) as [Hp|Hp]; cbn [negb]; [|done].
  assert (forall cap, let start := fst (nal_find_start_code buf pos) in let stop := snd (nal_find_start_code buf start) in (start < length buf)%nat ->
    unit_in buf (ebsp_to_rbsp (take ((if (start <? stop)%nat then stop else length buf) - start) (drop start buf)) cap)) as Hu by (intros; by exists pos, cap).
  unfold nal_find_start_code in Hu. unfold nal_find_start_code at 1. destruct (next_code_range (drop pos buf) pos) as (R1 & R0 & R2). rewrite length_drop in R0, R2.
  destruct (Rbsp.next_code (drop pos buf) pos) as [ns sc]. cbn [fst snd] in *. cbv zeta in Hu.
  destruct (Nat.leb_spec (length buf) ns) as [Hn|Hn]; [done|].
  unfold nal_find_start_code. destruct (next_code_range (drop ns buf) ns) as (R3 & R4 & _). rewrite length_drop in R4.
  destruct (Rbsp.next_code (drop ns buf) ns) as [q nx]. cbn [fst snd] in *.
  set (ne := if (ns <? nx)%nat then nx else length buf). assert (pos < ne <= length buf)%nat as Hne by (unfold ne; destruct (Nat.ltb_spec ns nx); lia).
  destruct (size <? off + (ne - ns))%nat; [by split|]. cbv zeta.
  assert (Forall is_byte (ebsp_to_rbsp (take (ne - ns) (drop ns buf)) (size - off))) as He by (apply ebsp_bytes, Forall_take, Forall_drop, Hb).
  set (rbsp := ebsp_to_rbsp _ _) in *. pose proof (Hparse rbsp o st He Ho Hst) as H.
  destruct (parse rbsp o st) as [[o1 [st1|e]]|]; ostep; cbv beta iota; [|done|exists rbsp; split; [by apply Hu|done]].
  destruct H as [Ho1 Hst1]. apply IH; (done || lia).
Qed.
End any_units.
