(* ===== verification/H264Parser.v ===== *)
(** * The H.264 parser (mft/parser_glue.cpp)

    From an access unit to the parameter sets, the slice header, the marking and list
    modification commands and the picture order count.  The result structure is
    threaded through the parsers, as the code writes into it field by field: what a
    refused unit leaves behind is part of the model. *)

From S2P Require Import Prelude Bits Rbsp.

Definition H264_PARSE_OK : Z := 0.
Definition H264_PARSE_NEED_MORE : Z := 1.
Definition H264_PARSE_INVALID : Z := 2.
Definition H264_PARSE_UNSUPPORTED : Z := 3.

(** ** The structures *)
Record v4l2_ctrl_h264_sps := MkSps {
  profile_idc : Z; constraint_set_flags : Z; level_idc : Z; seq_parameter_set_id : Z; chroma_format_idc : Z;
  bit_depth_luma_minus8 : Z; bit_depth_chroma_minus8 : Z; log2_max_frame_num_minus4 : Z; pic_order_cnt_type : Z;
  log2_max_pic_order_cnt_lsb_minus4 : Z; max_num_ref_frames : Z; num_ref_frames_in_pic_order_cnt_cycle : Z;
  offset_for_ref_frame : list Z; offset_for_non_ref_pic : Z; offset_for_top_to_bottom_field : Z;
  pic_width_in_mbs_minus1 : Z; pic_height_in_map_units_minus1 : Z; sps_flags : Z }.
#[export] Instance eta_sps : Eta v4l2_ctrl_h264_sps := fun s =>
  MkSps (profile_idc s) (constraint_set_flags s) (level_idc s) (seq_parameter_set_id s) (chroma_format_idc s)
    (bit_depth_luma_minus8 s) (bit_depth_chroma_minus8 s) (log2_max_frame_num_minus4 s) (pic_order_cnt_type s)
    (log2_max_pic_order_cnt_lsb_minus4 s) (max_num_ref_frames s) (num_ref_frames_in_pic_order_cnt_cycle s)
    (offset_for_ref_frame s) (offset_for_non_ref_pic s) (offset_for_top_to_bottom_field s)
    (pic_width_in_mbs_minus1 s) (pic_height_in_map_units_minus1 s) (sps_flags s).
Definition zero_sps : v4l2_ctrl_h264_sps := MkSps 0 0 0 0 0 0 0 0 0 0 0 0 (replicate 255 0) 0 0 0 0 0.

Definition V4L2_H264_SPS_FLAG_SEPARATE_COLOUR_PLANE : Z := 0x01.
Definition V4L2_H264_SPS_FLAG_QPPRIME_Y_ZERO_TRANSFORM_BYPASS : Z := 0x02.
Definition V4L2_H264_SPS_FLAG_DELTA_PIC_ORDER_ALWAYS_ZERO : Z := 0x04.
Definition V4L2_H264_SPS_FLAG_GAPS_IN_FRAME_NUM_VALUE_ALLOWED : Z := 0x08.
Definition V4L2_H264_SPS_FLAG_FRAME_MBS_ONLY : Z := 0x10.
Definition V4L2_H264_SPS_FLAG_MB_ADAPTIVE_FRAME_FIELD : Z := 0x20.
Definition V4L2_H264_SPS_FLAG_DIRECT_8X8_INFERENCE : Z := 0x40.

Record v4l2_ctrl_h264_pps := MkPps {
  pic_parameter_set_id : Z; pps_seq_parameter_set_id : Z; num_slice_groups_minus1 : Z;
  num_ref_idx_l0_default_active_minus1 : Z; num_ref_idx_l1_default_active_minus1 : Z; weighted_bipred_idc : Z;
  pic_init_qp_minus26 : Z; pic_init_qs_minus26 : Z; chroma_qp_index_offset : Z; second_chroma_qp_index_offset : Z;
  pps_flags : Z }.
#[export] Instance eta_pps : Eta v4l2_ctrl_h264_pps := fun p =>
  MkPps (pic_parameter_set_id p) (pps_seq_parameter_set_id p) (num_slice_groups_minus1 p)
    (num_ref_idx_l0_default_active_minus1 p) (num_ref_idx_l1_default_active_minus1 p) (weighted_bipred_idc p)
    (pic_init_qp_minus26 p) (pic_init_qs_minus26 p) (chroma_qp_index_offset p) (second_chroma_qp_index_offset p)
    (pps_flags p).
Definition zero_pps : v4l2_ctrl_h264_pps := MkPps 0 0 0 0 0 0 0 0 0 0 0.

Definition V4L2_H264_PPS_FLAG_ENTROPY_CODING_MODE : Z := 0x0001.
Definition V4L2_H264_PPS_FLAG_BOTTOM_FIELD_PIC_ORDER_IN_FRAME_PRESENT : Z := 0x0002.
Definition V4L2_H264_PPS_FLAG_WEIGHTED_PRED : Z := 0x0004.
Definition V4L2_H264_PPS_FLAG_DEBLOCKING_FILTER_CONTROL_PRESENT : Z := 0x0008.
Definition V4L2_H264_PPS_FLAG_CONSTRAINED_INTRA_PRED : Z := 0x0010.
Definition V4L2_H264_PPS_FLAG_REDUNDANT_PIC_CNT_PRESENT : Z := 0x0020.
Definition V4L2_H264_PPS_FLAG_TRANSFORM_8X8_MODE : Z := 0x0040.
Definition V4L2_H264_PPS_FLAG_SCALING_MATRIX_PRESENT : Z := 0x0080.

Record scaling_matrix := MkSm { scaling_list_4x4 : list (list Z); scaling_list_8x8 : list (list Z) }.
#[export] Instance eta_sm : Eta scaling_matrix := fun m => MkSm (scaling_list_4x4 m) (scaling_list_8x8 m).
Definition zero_sm : scaling_matrix := MkSm (replicate 6 (replicate 16 0)) (replicate 6 (replicate 64 0)).

Record slice_params := MkSlice {
  header_bit_size : Z; first_mb_in_slice : Z; slice_type : Z; colour_plane_id : Z; redundant_pic_cnt : Z;
  num_ref_idx_l0_active_minus1 : Z; num_ref_idx_l1_active_minus1 : Z; slice_flags : Z }.
#[export] Instance eta_slice : Eta slice_params := fun s =>
  MkSlice (header_bit_size s) (first_mb_in_slice s) (slice_type s) (colour_plane_id s) (redundant_pic_cnt s)
    (num_ref_idx_l0_active_minus1 s) (num_ref_idx_l1_active_minus1 s) (slice_flags s).
Definition zero_slice : slice_params := MkSlice 0 0 0 0 0 0 0 0.

Definition SLICE_TYPE_P : Z := 0.
Definition SLICE_TYPE_B : Z := 1.
Definition SLICE_TYPE_I : Z := 2.
Definition SLICE_TYPE_SP : Z := 3.
Definition SLICE_TYPE_SI : Z := 4.

Record decode_params := MkDecode {
  nal_ref_idc : Z; frame_num : Z; idr_pic_id : Z; pic_order_cnt_lsb : Z; delta_pic_order_cnt_bottom : Z;
  delta_pic_order_cnt0 : Z; delta_pic_order_cnt1 : Z; top_field_order_cnt : Z; bottom_field_order_cnt : Z; decode_flags : Z }.
#[export] Instance eta_decode : Eta decode_params := fun d =>
  MkDecode (nal_ref_idc d) (frame_num d) (idr_pic_id d) (pic_order_cnt_lsb d) (delta_pic_order_cnt_bottom d)
    (delta_pic_order_cnt0 d) (delta_pic_order_cnt1 d) (top_field_order_cnt d) (bottom_field_order_cnt d) (decode_flags d).
Definition zero_decode : decode_params := MkDecode 0 0 0 0 0 0 0 0 0 0.
Definition DECODE_FLAG_IDR_PIC : Z := 0x01.
Definition DECODE_FLAG_FIELD_PIC : Z := 0x02.
Definition DECODE_FLAG_BOTTOM_FIELD : Z := 0x04.

Record H264Mmco := MkMmco {
  mmco_op : Z; difference_of_pic_nums_minus1 : Z; mmco_long_term_pic_num : Z; long_term_frame_idx : Z;
  max_long_term_frame_idx_plus1 : Z }.
Definition H264_MAX_MMCO_OPS : nat := 16.
Record H264RplmOp := MkRplm { rplm_op : Z; rplm_value : Z }.

(** The colour description and the reorder bound of the VUI. *)
Record vui_info := MkVui {
  has_sps_vui_reorder : Z; sps_vui_max_num_reorder_frames : Z; has_vui_colour : Z; vui_full_range_flag : Z;
  has_vui_colour_desc : Z; vui_colour_primaries : Z; vui_transfer_characteristics : Z; vui_matrix_coefficients : Z }.
#[export] Instance eta_vui : Eta vui_info := fun v =>
  MkVui (has_sps_vui_reorder v) (sps_vui_max_num_reorder_frames v) (has_vui_colour v) (vui_full_range_flag v)
    (has_vui_colour_desc v) (vui_colour_primaries v) (vui_transfer_characteristics v) (vui_matrix_coefficients v).
Definition zero_vui : vui_info := MkVui 0 0 0 0 0 0 0 0.

(** What the POC derivations carry from picture to picture. *)
Record poc_state := MkPoc {
  prev_pic_order_cnt_msb : Z; prev_pic_order_cnt_lsb : Z; prev_frame_num : Z; prev_frame_num_offset : Z }.
#[export] Instance eta_poc : Eta poc_state := fun p =>
  MkPoc (prev_pic_order_cnt_msb p) (prev_pic_order_cnt_lsb p) (prev_frame_num p) (prev_frame_num_offset p).

(** The lists hold the used entries of the arrays and their counts; [slice_data] is what
    the pointer shows. *)
Record H264ParseResult := MkResult {
  sps : v4l2_ctrl_h264_sps; pps : v4l2_ctrl_h264_pps; out_sm : scaling_matrix; slice : slice_params; decode : decode_params;
  has_sps : bool; has_pps : bool; has_scaling_matrix : bool; has_slice : bool; vui : vui_info;
  slice_data : list Z; poc : poc_state;
  adaptive_ref_pic_marking_mode_flag : Z; idr_no_output_of_prior_pics_flag : Z; idr_long_term_reference_flag : Z;
  mmco : list H264Mmco; ref_pic_list_modification_flag_l0 : Z; ref_pic_list_modification_flag_l1 : Z;
  rplm_l0 : list H264RplmOp; rplm_l1 : list H264RplmOp }.
#[export] Instance eta_result : Eta H264ParseResult := fun o =>
  MkResult (sps o) (pps o) (out_sm o) (slice o) (decode o) (has_sps o) (has_pps o) (has_scaling_matrix o) (has_slice o) (vui o)
    (slice_data o) (poc o) (adaptive_ref_pic_marking_mode_flag o) (idr_no_output_of_prior_pics_flag o)
    (idr_long_term_reference_flag o) (mmco o) (ref_pic_list_modification_flag_l0 o) (ref_pic_list_modification_flag_l1 o)
    (rplm_l0 o) (rplm_l1 o).
(** As the caller initialises it. *)
Definition zero_result : H264ParseResult :=
  MkResult zero_sps zero_pps zero_sm zero_slice zero_decode false false false false zero_vui [] (MkPoc 0 0 0 0) 0 0 0 [] 0 0 [] [].

Definition Par := Rd H264ParseResult.
Definition on_sps (f : v4l2_ctrl_h264_sps -> v4l2_ctrl_h264_sps) : Par unit := upd (fun o => o <| sps ::= f |>).
Definition on_pps (f : v4l2_ctrl_h264_pps -> v4l2_ctrl_h264_pps) : Par unit := upd (fun o => o <| pps ::= f |>).
Definition on_slice (f : slice_params -> slice_params) : Par unit := upd (fun o => o <| slice ::= f |>).
Definition on_decode (f : decode_params -> decode_params) : Par unit := upd (fun o => o <| decode ::= f |>).
Definition on_vui (f : vui_info -> vui_info) : Par unit := upd (fun o => o <| vui ::= f |>).
Definition sps_or (b : Z) (m : Z) : Par unit := when (truth b) (on_sps (fun s => s <| sps_flags ::= Z.lor m |>)).
Definition pps_or (b : Z) (m : Z) : Par unit := when (truth b) (on_pps (fun s => s <| pps_flags ::= Z.lor m |>)).

(** ** Scaling lists *)
Definition kH264ZigZag4x4 : list nat := [0; 1; 4; 8; 5; 2; 3; 6; 9; 12; 13; 10; 7; 11; 14; 15]%nat.
Definition kH264ZigZag8x8 : list nat :=
  [0; 1; 8; 16; 9; 2; 3; 10; 17; 24; 32; 25; 18; 11; 4; 5; 12; 19; 26; 33; 40; 48; 41; 34; 27; 20; 13; 6; 7; 14; 21; 28;
   35; 42; 49; 56; 57; 50; 43; 36; 29; 22; 15; 23; 30; 37; 44; 51; 58; 59; 52; 45; 38; 31; 39; 46; 53; 60; 61; 54; 47; 55; 62; 63]%nat.
Definition kH264Default4x4Intra : list Z := [6; 13; 13; 20; 20; 20; 28; 28; 28; 28; 32; 32; 32; 36; 36; 42].
Definition kH264Default4x4Inter : list Z := [10; 14; 14; 20; 20; 20; 24; 24; 24; 24; 27; 27; 27; 30; 30; 34].
Definition kH264Default8x8Intra : list Z :=
  [6; 10; 13; 16; 18; 23; 25; 27; 10; 11; 16; 18; 23; 25; 27; 29; 13; 16; 18; 23; 25; 27; 29; 31; 16; 18; 23; 25; 27; 29; 31; 33;
   18; 23; 25; 27; 29; 31; 33; 36; 23; 25; 27; 29; 31; 33; 36; 38; 25; 27; 29; 31; 33; 36; 38; 40; 27; 29; 31; 33; 36; 38; 40; 42].
Definition kH264Default8x8Inter : list Z :=
  [9; 13; 15; 17; 19; 21; 22; 24; 13; 13; 17; 19; 21; 22; 24; 25; 15; 17; 19; 21; 22; 24; 25; 27; 17; 19; 21; 22; 24; 25; 27; 28;
   19; 21; 22; 24; 25; 27; 28; 30; 21; 22; 24; 25; 27; 28; 30; 32; 22; 24; 25; 27; 28; 30; 32; 33; 24; 25; 27; 28; 30; 32; 33; 35].

(** The loop from position [j] of the scan: the list, and whether the default is asked for. *)
Fixpoint scaling_loop {T} (zz : list nat) (j : nat) (last_scale next_scale last_value : Z) (l : list Z) : Rd T (list Z * bool) :=
  match zz with
  | [] => mret (l, false)
  | p :: zz =>
      next ← (if next_scale =? 0 then mret 0
              else delta ← rd_se; sum ← need (int32 (last_scale + delta + 256)); mret (Z.land sum 0xff));
      if negb (next_scale =? 0) && (j =? 0)%nat && (next =? 0) then mret (l, true) else
      let v := if next =? 0 then last_value else next in
      scaling_loop zz (S j) (if next =? 0 then last_scale else next) next v (<[p := v]> l)
  end.
Definition parse_scaling_list {T} (l : list Z) (size : nat) : Rd T (list Z * bool) :=
  scaling_loop (if (size =? 16)%nat then kH264ZigZag4x4 else kH264ZigZag8x8) 0 8 8 8 l.

(** The list [i] of a matrix: 4x4 below 6, then 8x8. *)
Definition parse_list {T} (i : nat) (m : scaling_matrix) : Rd T (scaling_matrix * bool) :=
  if (i <? 6)%nat then
    '(l, d) ← parse_scaling_list (default [] (scaling_list_4x4 m !! i)) 16;
    mret (m <| scaling_list_4x4 ::= <[i := l]> |>, d)
  else
    '(l, d) ← parse_scaling_list (default [] (scaling_list_8x8 m !! (i - 6)%nat)) 64;
    mret (m <| scaling_list_8x8 ::= <[(i - 6)%nat := l]> |>, d).

(** ** SPS *)
Definition parse_hrd_parameters {T} : Rd T unit :=
  cnt ← rd_ue;
  let cnt := if 31 <? cnt then 31 else cnt in
  skip (rd_u 4);; skip (rd_u 4);;
  times (S (Z.to_nat cnt)) (skip rd_ue;; skip rd_ue;; skip rd_u1);;
  skip (rd_u 5);; skip (rd_u 5);; skip (rd_u 5);; skip (rd_u 5).

Definition vui_aspect {T} : Rd T unit :=
  p ← rd_u1;
  when (truth p) (idc ← rd_u 8; when (idc =? 255) (skip (rd_u 16);; skip (rd_u 16))).
Definition vui_signal : Par unit :=
  p ← rd_u1;
  when (truth p) (
    on_vui (fun v => v <| has_vui_colour := 1 |>);;
    skip (rd_u 3);;
    full_range ← rd_u1;
    on_vui (fun v => v <| vui_full_range_flag := full_range |>);;
    d ← rd_u1;
    when (truth d) (
      cp ← rd_u 8; tc ← rd_u 8; mc ← rd_u 8;
      on_vui (fun v => v <| has_vui_colour_desc := 1 |> <| vui_colour_primaries := cp |>
                         <| vui_transfer_characteristics := tc |> <| vui_matrix_coefficients := mc |>))).
Definition vui_restriction : Par unit :=
  p ← rd_u1;
  when (truth p) (
    skip rd_u1;; skip rd_ue;; skip rd_ue;; skip rd_ue;; skip rd_ue;;
    mr ← rd_ue;
    skip rd_ue;;
    on_vui (fun v => v <| has_sps_vui_reorder := 1 |> <| sps_vui_max_num_reorder_frames := if 16 <? mr then 16 else mr |>)).
Definition parse_vui_parameters : Par unit :=
  on_vui (fun v => v <| has_sps_vui_reorder := 0 |> <| sps_vui_max_num_reorder_frames := 0 |>);;
  vui_aspect;;
  o ← rd_u1; when (truth o) (skip rd_u1);;
  vui_signal;;
  c ← rd_u1; when (truth c) (skip rd_ue;; skip rd_ue);;
  t ← rd_u1; when (truth t) (skip (rd_u 32);; skip (rd_u 32);; skip rd_u1);;
  nal_hrd ← rd_u1; when (truth nal_hrd) parse_hrd_parameters;;
  vcl_hrd ← rd_u1; when (truth vcl_hrd) parse_hrd_parameters;;
  when (truth nal_hrd || truth vcl_hrd) (skip rd_u1);;
  skip rd_u1;;
  vui_restriction.

Definition high_profile (p : Z) : bool := bool_decide (p ∈ [100; 110; 122; 244; 44; 83; 86; 118; 128; 138; 139; 134; 135]).

(** The lists of the SPS; the request for a default is not looked at. *)
Definition sps_list (i : nat) (m : scaling_matrix) : Par scaling_matrix :=
  p ← rd_u1;
  if truth p then md ← parse_list i m; mret md.1 else mret m.
Fixpoint sps_lists (n i : nat) (m : scaling_matrix) : Par scaling_matrix :=
  match n with
  | O => mret m
  | S n =>
      m ← sps_list i m;
      sps_lists n (S i) m
  end.
(** The matrix, if the SPS has one. *)
Definition sps_scaling : Par (option scaling_matrix) :=
  p ← rd_u1;
  if truth p then
    o ← get;
    m ← sps_lists (if chroma_format_idc (sps o) =? 3 then 12 else 8) 0 zero_sm;
    mret (Some m)
  else mret None.

Definition sps_high : Par (option scaling_matrix) :=
  c ← rd_ue; on_sps (fun s => s <| chroma_format_idc := u8 c |>);;
  when (u8 c =? 3) (sep ← rd_u1; sps_or sep V4L2_H264_SPS_FLAG_SEPARATE_COLOUR_PLANE);;
  l ← rd_ue; on_sps (fun s => s <| bit_depth_luma_minus8 := u8 l |>);;
  c ← rd_ue; on_sps (fun s => s <| bit_depth_chroma_minus8 := u8 c |>);;
  q ← rd_u1; sps_or q V4L2_H264_SPS_FLAG_QPPRIME_Y_ZERO_TRANSFORM_BYPASS;;
  sps_scaling.

Definition read_offset (i : nat) : Par unit :=
  v ← rd_se; on_sps (fun s => s <| offset_for_ref_frame ::= <[i := v]> |>).
Definition sps_poc : Par unit :=
  t ← rd_ue; on_sps (fun s => s <| pic_order_cnt_type := u8 t |>);;
  if u8 t =? 0 then v ← rd_ue; on_sps (fun s => s <| log2_max_pic_order_cnt_lsb_minus4 := u8 v |>)
  else if u8 t =? 1 then
    z ← rd_u1; sps_or z V4L2_H264_SPS_FLAG_DELTA_PIC_ORDER_ALWAYS_ZERO;;
    v ← rd_se; on_sps (fun s => s <| offset_for_non_ref_pic := v |>);;
    v ← rd_se; on_sps (fun s => s <| offset_for_top_to_bottom_field := v |>);;
    n ← rd_ue; on_sps (fun s => s <| num_ref_frames_in_pic_order_cnt_cycle := u8 n |>);;
    skip (collect (Z.to_nat (u8 n)) 0 read_offset)
  else mret tt.

Definition kMaxMbs : Z := 511.
Definition sps_size : Par unit :=
  w ← rd_ue; h ← rd_ue;
  if (kMaxMbs <? w) || (kMaxMbs <? h) then stop H264_PARSE_INVALID else
  on_sps (fun s => s <| pic_width_in_mbs_minus1 := u16 w |> <| pic_height_in_map_units_minus1 := u16 h |>).

Definition sps_frame : Par unit :=
  f ← rd_u1; sps_or f V4L2_H264_SPS_FLAG_FRAME_MBS_ONLY;;
  when (negb (truth f)) (a ← rd_u1; sps_or a V4L2_H264_SPS_FLAG_MB_ADAPTIVE_FRAME_FIELD);;
  d ← rd_u1; sps_or d V4L2_H264_SPS_FLAG_DIRECT_8X8_INFERENCE;;
  c ← rd_u1; when (truth c) (skip rd_ue;; skip rd_ue;; skip rd_ue;; skip rd_ue).

Definition invalid_if_failed : Par unit :=
  f ← rd_failed; if (f : bool) then stop H264_PARSE_INVALID else mret tt.

(** The scaling matrix of the SPS, when it has one. *)
Definition parse_sps : Par (option scaling_matrix) :=
  upd (fun o => o <| vui ::= fun v => v <| has_sps_vui_reorder := 0 |> <| sps_vui_max_num_reorder_frames := 0 |> |> <| sps := zero_sps |>);;
  v ← rd_u 8; on_sps (fun s => s <| profile_idc := v |>);;
  c ← rd_u 8; on_sps (fun s => s <| constraint_set_flags := c |>);;
  l ← rd_u 8; on_sps (fun s => s <| level_idc := l |>);;
  i ← rd_ue; on_sps (fun s => s <| seq_parameter_set_id := u8 i |>);;
  m ← (if high_profile v then sps_high
       else on_sps (fun s => s <| chroma_format_idc := 1 |> <| bit_depth_luma_minus8 := 0 |> <| bit_depth_chroma_minus8 := 0 |>);;
            mret None);
  n ← rd_ue; on_sps (fun s => s <| log2_max_frame_num_minus4 := u8 n |>);;
  sps_poc;;
  r ← rd_ue; on_sps (fun s => s <| max_num_ref_frames := u8 r |>);;
  g ← rd_u1; sps_or g V4L2_H264_SPS_FLAG_GAPS_IN_FRAME_NUM_VALUE_ALLOWED;;
  sps_size;;
  sps_frame;;
  p ← rd_u1; when (truth p) parse_vui_parameters;;
  invalid_if_failed;;
  mret m.


(** ** PPS *)
Definition get_4x4 (i : nat) (m : scaling_matrix) : list Z := default [] (scaling_list_4x4 m !! i).

(** The fall-back rule set A of 7.4.2.2. *)
Definition fall_back (i : nat) (m : scaling_matrix) : scaling_matrix :=
  match i with
  | 0 => m <| scaling_list_4x4 ::= <[0 := kH264Default4x4Intra]> |>
  | 3 => m <| scaling_list_4x4 ::= <[3 := kH264Default4x4Inter]> |>
  | 1 | 2 | 4 | 5 => m <| scaling_list_4x4 ::= <[i := get_4x4 (i - 1) m]> |>
  | 6 => m <| scaling_list_8x8 ::= <[0 := kH264Default8x8Intra]> |>
  | 7 => m <| scaling_list_8x8 ::= <[1 := kH264Default8x8Inter]> |>
  | _ => m
  end%nat.

(** Reads the lists; says of each whether it was given. *)
Definition pps_list (i : nat) : Par bool :=
  p ← rd_u1;
  if truth p then
    o ← get;
    md ← parse_list i (out_sm o);
    upd (fun o => o <| out_sm := md.1 |>);;
    mret (negb md.2)
  else mret false.
Fixpoint resolve_lists (given : list bool) (i : nat) (m : scaling_matrix) : scaling_matrix :=
  match given with
  | [] => m
  | g :: given => resolve_lists given (S i) (if g then m else fall_back i m)
  end.

(** The matrix of the PPS: is there one? *)
Definition pps_scaling : Par bool :=
  p ← rd_u1;
  if truth p then
    on_pps (fun p => p <| pps_flags ::= Z.lor V4L2_H264_PPS_FLAG_SCALING_MATRIX_PRESENT |>);;
    upd (fun o => o <| out_sm := zero_sm |>);;
    o ← get;
    given ← collect (if Z.testbit (pps_flags (pps o)) 6 then 8 else 6) 0 pps_list;
    upd (fun o => o <| out_sm ::= resolve_lists given 0 |>);;
    mret true
  else mret false.

Definition same_chroma_offset : Par unit :=
  on_pps (fun p => p <| second_chroma_qp_index_offset := chroma_qp_index_offset p |>).
Definition pps_extension : Par bool :=
  more ← rd_more;
  if (more : bool) then
    t ← rd_u1; pps_or t V4L2_H264_PPS_FLAG_TRANSFORM_8X8_MODE;;
    has_scaling ← pps_scaling;
    more ← rd_more;
    (if (more : bool) then s ← rd_se; on_pps (fun p => p <| second_chroma_qp_index_offset := i8 s |>)
     else same_chroma_offset);;
    mret has_scaling
  else same_chroma_offset;; mret false.

Definition pps_middle : Par unit :=
  l0 ← rd_ue; on_pps (fun p => p <| num_ref_idx_l0_default_active_minus1 := u8 l0 |>);;
  l1 ← rd_ue; on_pps (fun p => p <| num_ref_idx_l1_default_active_minus1 := u8 l1 |>);;
  w ← rd_u1; pps_or w V4L2_H264_PPS_FLAG_WEIGHTED_PRED;;
  b ← rd_u 2; on_pps (fun p => p <| weighted_bipred_idc := b |>);;
  qp ← rd_se; on_pps (fun p => p <| pic_init_qp_minus26 := i8 qp |>);;
  qs ← rd_se; on_pps (fun p => p <| pic_init_qs_minus26 := i8 qs |>);;
  c ← rd_se; on_pps (fun p => p <| chroma_qp_index_offset := i8 c |>);;
  d ← rd_u1; pps_or d V4L2_H264_PPS_FLAG_DEBLOCKING_FILTER_CONTROL_PRESENT;;
  i ← rd_u1; pps_or i V4L2_H264_PPS_FLAG_CONSTRAINED_INTRA_PRED;;
  r ← rd_u1; pps_or r V4L2_H264_PPS_FLAG_REDUNDANT_PIC_CNT_PRESENT.

(** Has it a scaling matrix? *)
Definition parse_pps : Par bool :=
  upd (fun o => o <| pps := zero_pps |>);;
  i ← rd_ue; on_pps (fun p => p <| pic_parameter_set_id := u8 i |>);;
  s ← rd_ue; on_pps (fun p => p <| pps_seq_parameter_set_id := u8 s |>);;
  e ← rd_u1; pps_or e V4L2_H264_PPS_FLAG_ENTROPY_CODING_MODE;;
  b ← rd_u1; pps_or b V4L2_H264_PPS_FLAG_BOTTOM_FIELD_PIC_ORDER_IN_FRAME_PRESENT;;
  g ← rd_ue; on_pps (fun p => p <| num_slice_groups_minus1 := u8 g |>);;
  if negb (u8 g =? 0) then stop H264_PARSE_UNSUPPORTED else
  pps_middle;;
  has_scaling ← pps_extension;
  invalid_if_failed;;
  mret has_scaling.

(** ** Slice header *)
Definition sps_flag (s : v4l2_ctrl_h264_sps) (f : Z) : bool := negb (Z.land (sps_flags s) f =? 0).
Definition pps_flag (p : v4l2_ctrl_h264_pps) (f : Z) : bool := negb (Z.land (pps_flags p) f =? 0).
Definition or_decode (f : Z) : Par unit := on_decode (fun d => d <| decode_flags ::= Z.lor f |>).

(** Up to the field flags: the slice type and whether it is a field. *)
Definition slice_field (sps : v4l2_ctrl_h264_sps) : Par bool :=
  if negb (sps_flag sps V4L2_H264_SPS_FLAG_FRAME_MBS_ONLY) then
    f ← rd_u1;
    when (truth f) (or_decode DECODE_FLAG_FIELD_PIC;; b ← rd_u1; when (truth b) (or_decode DECODE_FLAG_BOTTOM_FIELD));;
    mret (truth f)
  else mret false.
Definition slice_start (sps : v4l2_ctrl_h264_sps) : Par (Z * bool) :=
  first ← rd_ue; on_slice (fun s => s <| first_mb_in_slice := first |>);;
  t ← rd_ue;
  let st := if 5 <=? t then t - 5 else t in
  if 4 <? st then stop H264_PARSE_INVALID else
  on_slice (fun s => s <| slice_type := st |>);;
  skip rd_ue;;
  when (sps_flag sps V4L2_H264_SPS_FLAG_SEPARATE_COLOUR_PLANE)
    (c ← rd_u 2; on_slice (fun s => s <| colour_plane_id := c |>));;
  n ← rd_u (Z.to_nat (log2_max_frame_num_minus4 sps + 4)); on_decode (fun d => d <| frame_num := u16 n |>);;
  field ← slice_field sps;
  mret (st, field).

Definition slice_poc (sps : v4l2_ctrl_h264_sps) (pps : v4l2_ctrl_h264_pps) (field : bool) : Par unit :=
  let bottom := pps_flag pps V4L2_H264_PPS_FLAG_BOTTOM_FIELD_PIC_ORDER_IN_FRAME_PRESENT && negb field in
  if pic_order_cnt_type sps =? 0 then
    l ← rd_u (Z.to_nat (log2_max_pic_order_cnt_lsb_minus4 sps + 4)); on_decode (fun d => d <| pic_order_cnt_lsb := u16 l |>);;
    when bottom (v ← rd_se; on_decode (fun d => d <| delta_pic_order_cnt_bottom := v |>))
  else when ((pic_order_cnt_type sps =? 1) && negb (sps_flag sps V4L2_H264_SPS_FLAG_DELTA_PIC_ORDER_ALWAYS_ZERO)) (
    v ← rd_se; on_decode (fun d => d <| delta_pic_order_cnt0 := v |>);;
    when bottom (v ← rd_se; on_decode (fun d => d <| delta_pic_order_cnt1 := v |>))).

(** [while (1)] over the modifications; [None] when the fuel is out. *)
Fixpoint rplm_loop (fuel : nat) (push : H264RplmOp -> Par unit) : Par unit :=
  match fuel with
  | O => need None
  | S fuel =>
      mod_op ← rd_ue;
      if mod_op =? 3 then mret tt else
      val ← rd_ue;
      push (MkRplm (u8 mod_op) val);;
      eof ← rd_eof;
      if (eof : bool) then mret tt else rplm_loop fuel push
  end.
Definition push_rplm_l0 (m : H264RplmOp) : Par unit :=
  upd (fun o => if (length (rplm_l0 o) <? 32)%nat then o <| rplm_l0 ::= fun l => l ++ [m] |> else o).
Definition push_rplm_l1 (m : H264RplmOp) : Par unit :=
  upd (fun o => if (length (rplm_l1 o) <? 32)%nat then o <| rplm_l1 ::= fun l => l ++ [m] |> else o).
Definition run_rplm (push : H264RplmOp -> Par unit) : Par unit := n ← loop_fuel; rplm_loop n push.

Definition slice_active (pps : v4l2_ctrl_h264_pps) (st : Z) : Par unit :=
  ov ← rd_u1;
  if truth ov then
    a ← rd_ue; on_slice (fun s => s <| num_ref_idx_l0_active_minus1 := u8 a |>);;
    when (st =? SLICE_TYPE_B) (b ← rd_ue; on_slice (fun s => s <| num_ref_idx_l1_active_minus1 := u8 b |>))
  else on_slice (fun s => s <| num_ref_idx_l0_active_minus1 := num_ref_idx_l0_default_active_minus1 pps |>
                            <| num_ref_idx_l1_active_minus1 := num_ref_idx_l1_default_active_minus1 pps |>).
(** The flag of a list and its modifications. *)
Definition read_modification (set_flag : Z -> H264ParseResult -> H264ParseResult) (push : H264RplmOp -> Par unit) : Par unit :=
  f ← rd_u1;
  upd (set_flag f);;
  when (truth f) (run_rplm push).
Definition slice_modification (st : Z) : Par unit :=
  read_modification (fun f o => o <| ref_pic_list_modification_flag_l0 := f |>) push_rplm_l0;;
  when (st =? SLICE_TYPE_B)
    (read_modification (fun f o => o <| ref_pic_list_modification_flag_l1 := f |>) push_rplm_l1).
Definition inter_slice (st : Z) : bool := (st =? SLICE_TYPE_P) || (st =? SLICE_TYPE_SP) || (st =? SLICE_TYPE_B).
Definition slice_refs (pps : v4l2_ctrl_h264_pps) (st : Z) : Par unit :=
  when (st =? SLICE_TYPE_B) (d ← rd_u1; when (truth d) (on_slice (fun s => s <| slice_flags ::= Z.lor 1 |>)));;
  when (inter_slice st) (slice_active pps st;; slice_modification st).

(** The weights are read over. *)
Definition skip_weight (chroma : bool) : Par unit :=
  l ← rd_u1; when (truth l) (skip rd_se;; skip rd_se);;
  when chroma (c ← rd_u1; when (truth c) (skip rd_se;; skip rd_se;; skip rd_se;; skip rd_se)).
Definition weighted (pps : v4l2_ctrl_h264_pps) (st : Z) : bool :=
  (pps_flag pps V4L2_H264_PPS_FLAG_WEIGHTED_PRED && ((st =? SLICE_TYPE_P) || (st =? SLICE_TYPE_SP)))
  || ((weighted_bipred_idc pps =? 1) && (st =? SLICE_TYPE_B)).
Definition slice_weights (sps : v4l2_ctrl_h264_sps) (pps : v4l2_ctrl_h264_pps) (st : Z) : Par unit :=
  when (weighted pps st) (
    let chroma := negb (chroma_format_idc sps =? 0) in
    skip rd_ue;; when chroma (skip rd_ue);;
    o ← get;
    times (S (Z.to_nat (num_ref_idx_l0_active_minus1 (slice o)))) (skip_weight chroma);;
    when (st =? SLICE_TYPE_B) (times (S (Z.to_nat (num_ref_idx_l1_active_minus1 (slice o)))) (skip_weight chroma))).

Definition read_mmco (op : Z) : Par H264Mmco :=
  d ← (if (op =? 1) || (op =? 3) then rd_ue else mret 0);
  n ← (if op =? 2 then rd_ue else mret 0);
  i ← (if (op =? 3) || (op =? 6) then rd_ue else mret 0);
  m ← (if op =? 4 then rd_ue else mret 0);
  mret (MkMmco op d n i m).
Definition push_mmco (m : H264Mmco) : Par unit :=
  upd (fun o => if (length (mmco o) <? H264_MAX_MMCO_OPS)%nat then o <| mmco ::= fun l => l ++ [m] |> else o).
Fixpoint mmco_loop (fuel : nat) : Par unit :=
  match fuel with
  | O => need None
  | S fuel =>
      op ← rd_ue;
      if op =? 0 then mret tt else
      eof ← rd_eof;
      if (6 <? op) || eof then mret tt else
      m ← read_mmco op;
      push_mmco m;;
      mmco_loop fuel
  end.
Definition slice_marking (nal_ref_idc nal_unit_type : Z) : Par unit :=
  when (negb (nal_ref_idc =? 0)) (
    if nal_unit_type =? 5 then
      n ← rd_u1; upd (fun o => o <| idr_no_output_of_prior_pics_flag := n |>);;
      l ← rd_u1; upd (fun o => o <| idr_long_term_reference_flag := l |>)
    else
      a ← rd_u1; upd (fun o => o <| adaptive_ref_pic_marking_mode_flag := a |>);;
      when (truth a) (n ← loop_fuel; mmco_loop n)).

Definition parse_slice_header (ref_idc nal_unit_type : Z) (sps : v4l2_ctrl_h264_sps) (pps : v4l2_ctrl_h264_pps) : Par unit :=
  upd (fun o => o <| slice := zero_slice |> <| decode := zero_decode <| nal_ref_idc := ref_idc |> |>);;
  '(st, field) ← slice_start sps;
  when (nal_unit_type =? 5)
    (or_decode DECODE_FLAG_IDR_PIC;; i ← rd_ue; on_decode (fun d => d <| idr_pic_id := u16 i |>));;
  slice_poc sps pps field;;
  when (pps_flag pps V4L2_H264_PPS_FLAG_REDUNDANT_PIC_CNT_PRESENT)
    (r ← rd_ue; on_slice (fun s => s <| redundant_pic_cnt := u8 r |>));;
  slice_refs pps st;;
  slice_weights sps pps st;;
  slice_marking ref_idc nal_unit_type;;
  invalid_if_failed.
