(* ===== verification/H264Syntax.v ===== *)
(** * The syntax of H.264 parameter sets and slice headers

    The fields in the order of the standard (7.3.2.1, 7.3.2.2, 7.3.3, annex E), how
    they are written, and the structures of [H264Parser] they stand for.  The parser is
    specified against this syntax in [H264ParserFacts]. *)

From S2P Require Import Prelude Bits Rbsp RbspFacts H264Parser.

(** ** Writing *)

(** The word of a set of flags. *)
Definition flags_of (l : list (bool * Z)) : Z := foldr (fun (x : bool * Z) w => if x.1 then Z.lor x.2 w else w) 0 l.

(** ** Scaling lists (7.3.2.1.1.1) *)

(** Absent, the default, or the values in scan order up to the point from which the last
    one is repeated. *)
Inductive list_syntax := NoList | DefaultList | GivenList (vs : list Z).

Definition end_of_list (size : nat) (last : Z) (vs : list Z) : list bool :=
  if (length vs <? size)%nat then se_bits (i8 (0 - last_of last vs)) else [].
Definition list_bits (size : nat) (s : list_syntax) : list bool :=
  match s with
  | NoList => [false]
  | DefaultList => true :: se_bits (-8)
  | GivenList vs => true :: deltas 8 vs ++ end_of_list size 8 vs
  end.
Definition list_ok (size : nat) (s : list_syntax) : Prop :=
  match s with GivenList vs => vs <> [] /\ (length vs <= size)%nat /\ Forall (fun v => 1 <= v <= 255) vs | _ => True end.

Definition list_size (i : nat) : nat := if (i <? 6)%nat then 16 else 64.
Definition scan_of (i : nat) : list nat := if (i <? 6)%nat then kH264ZigZag4x4 else kH264ZigZag8x8.

Definition set_list (i : nat) (l : list Z) (m : scaling_matrix) : scaling_matrix :=
  if (i <? 6)%nat then m <| scaling_list_4x4 ::= <[i := l]> |> else m <| scaling_list_8x8 ::= <[(i - 6)%nat := l]> |>.
(** What a list of the syntax writes into the matrix. *)
Definition put_list (i : nat) (s : list_syntax) (m : scaling_matrix) : scaling_matrix :=
  match s with GivenList vs => set_list i (raster (scan_of i) vs) m | _ => m end.
Fixpoint put_lists (i : nat) (ss : list list_syntax) (m : scaling_matrix) : scaling_matrix :=
  match ss with [] => m | s :: ss => put_lists (S i) ss (put_list i s m) end.
Fixpoint lists_bits (i : nat) (ss : list list_syntax) : list bool :=
  match ss with [] => [] | s :: ss => list_bits (list_size i) s ++ lists_bits (S i) ss end.
Fixpoint lists_ok (i : nat) (ss : list list_syntax) : Prop :=
  match ss with [] => True | s :: ss => list_ok (list_size i) s /\ lists_ok (S i) ss end.
Definition is_given (s : list_syntax) : bool := match s with GivenList _ => true | _ => false end.

(** ** VUI (E.1.1, E.1.2) *)

Record hrd_syntax := MkHrd {
  h_bit_rate_scale : Z; h_cpb_size_scale : Z; h_cpbs : list (Z * Z * bool);
  h_lengths : Z * Z * Z * Z }.
Definition cpb_bits (c : Z * Z * bool) : list bool := ue_bits c.1.1 ++ ue_bits c.1.2 ++ [c.2].
Definition hrd_bits (h : hrd_syntax) : list bool :=
  let '(a, b, c, d) := h_lengths h in
  ue_bits (Z.of_nat (length (h_cpbs h)) - 1) ++ put 4 (h_bit_rate_scale h) ++ put 4 (h_cpb_size_scale h) ++
  flat_map cpb_bits (h_cpbs h) ++ put 5 a ++ put 5 b ++ put 5 c ++ put 5 d.
Definition hrd_ok (h : hrd_syntax) : Prop :=
  let '(a, b, c, d) := h_lengths h in
  (1 <= length (h_cpbs h) <= 32)%nat /\ Forall (fun c => ue_ok c.1.1 /\ ue_ok c.1.2) (h_cpbs h) /\
  bits_ok 4 (h_bit_rate_scale h) /\ bits_ok 4 (h_cpb_size_scale h) /\
  bits_ok 5 a /\ bits_ok 5 b /\ bits_ok 5 c /\ bits_ok 5 d.

Record vui_syntax := MkVuiSyntax {
  y_aspect : option (Z * Z * Z);                         (* idc, and the size when idc is 255 *)
  y_overscan : option bool;
  y_signal : option (Z * bool * option (Z * Z * Z));     (* format, full range, description *)
  y_chroma_loc : option (Z * Z);
  y_timing : option (Z * Z * bool);
  y_nal_hrd : option hrd_syntax; y_vcl_hrd : option hrd_syntax; y_low_delay : bool; y_pic_struct : bool;
  y_restriction : option (bool * (Z * Z * Z * Z) * Z * Z) }.  (* ..., max_num_reorder_frames, max_dec_frame_buffering *)

Definition aspect_bits (a : Z * Z * Z) : list bool :=
  put 8 a.1.1 ++ if a.1.1 =? 255 then put 16 a.1.2 ++ put 16 a.2 else [].
Definition colour_bits (c : Z * Z * Z) : list bool := put 8 c.1.1 ++ put 8 c.1.2 ++ put 8 c.2.
Definition signal_bits (s : Z * bool * option (Z * Z * Z)) : list bool := put 3 s.1.1 ++ s.1.2 :: opt_bits colour_bits s.2.
Definition restriction_bits (r : bool * (Z * Z * Z * Z) * Z * Z) : list bool :=
  let '(mv, (a, b, c, d), n, m) := r in
  mv :: ue_bits a ++ ue_bits b ++ ue_bits c ++ ue_bits d ++ ue_bits n ++ ue_bits m.
Definition vui_bits (v : vui_syntax) : list bool :=
  opt_bits aspect_bits (y_aspect v) ++ opt_bits (fun b => [b]) (y_overscan v) ++ opt_bits signal_bits (y_signal v) ++
  opt_bits (fun c => ue_bits c.1 ++ ue_bits c.2) (y_chroma_loc v) ++
  opt_bits (fun t => put 32 t.1.1 ++ put 32 t.1.2 ++ [t.2]) (y_timing v) ++
  opt_bits hrd_bits (y_nal_hrd v) ++ opt_bits hrd_bits (y_vcl_hrd v) ++
  (if bool_decide (is_Some (y_nal_hrd v)) || bool_decide (is_Some (y_vcl_hrd v)) then [y_low_delay v] else []) ++
  y_pic_struct v :: opt_bits restriction_bits (y_restriction v).
Definition colour_ok (c : Z * Z * Z) : Prop := bits_ok 8 c.1.1 /\ bits_ok 8 c.1.2 /\ bits_ok 8 c.2.
Definition vui_ok (v : vui_syntax) : Prop :=
  opt_ok (fun a => bits_ok 8 a.1.1 /\ bits_ok 16 a.1.2 /\ bits_ok 16 a.2) (y_aspect v) /\
  opt_ok (fun s => bits_ok 3 s.1.1 /\ opt_ok colour_ok s.2) (y_signal v) /\
  opt_ok (fun c => ue_ok c.1 /\ ue_ok c.2) (y_chroma_loc v) /\
  opt_ok (fun t => bits_ok 32 t.1.1 /\ bits_ok 32 t.1.2) (y_timing v) /\
  opt_ok hrd_ok (y_nal_hrd v) /\ opt_ok hrd_ok (y_vcl_hrd v) /\
  opt_ok (fun r : bool * (Z * Z * Z * Z) * Z * Z => let '(_, (a, b, c, d), n, m) := r in
    ue_ok a /\ ue_ok b /\ ue_ok c /\ ue_ok d /\ ue_ok n /\ ue_ok m) (y_restriction v).

(** What the VUI changes: only what it says. *)
Definition colour_of (s : option (Z * bool * option (Z * Z * Z))) (v : vui_info) : vui_info :=
  match s with
  | None => v
  | Some (_, full, None) => v <| has_vui_colour := 1 |> <| vui_full_range_flag := Z.b2z full |>
  | Some (_, full, Some (cp, tc, mc)) =>
      v <| has_vui_colour := 1 |> <| vui_full_range_flag := Z.b2z full |> <| has_vui_colour_desc := 1 |>
        <| vui_colour_primaries := cp |> <| vui_transfer_characteristics := tc |> <| vui_matrix_coefficients := mc |>
  end.
Definition reorder_of (r : option (bool * (Z * Z * Z * Z) * Z * Z)) (v : vui_info) : vui_info :=
  match r with
  | None => v
  | Some (_, _, n, _) => v <| has_sps_vui_reorder := 1 |> <| sps_vui_max_num_reorder_frames := Z.min n 16 |>
  end.
Definition no_reorder (v : vui_info) : vui_info := v <| has_sps_vui_reorder := 0 |> <| sps_vui_max_num_reorder_frames := 0 |>.
Definition vui_of (y : option vui_syntax) (v : vui_info) : vui_info :=
  match y with
  | None => no_reorder v
  | Some y => reorder_of (y_restriction y) (colour_of (y_signal y) (no_reorder v))
  end.

(** ** SPS (7.3.2.1.1) *)

(** The fields of the high profiles. *)
Record high_syntax := MkHigh {
  y_chroma_format : Z; y_separate : bool; y_depth_luma : Z; y_depth_chroma : Z; y_bypass : bool;
  y_sps_lists : option (list list_syntax) }.
Inductive poc_syntax :=
| PocType0 (log2_max_lsb_minus4 : Z)
| PocType1 (always_zero : bool) (non_ref top_bottom : Z) (offsets : list Z)
| PocType2.
Record sps_syntax := MkSpsSyntax {
  y_profile : Z; y_constraints : Z; y_level : Z; y_sps_id : Z; y_high : option high_syntax;
  y_log2_frame_num : Z; y_poc : poc_syntax; y_ref_frames : Z; y_gaps : bool; y_width : Z; y_height : Z;
  y_mbs_only : bool; y_mbaff : bool; y_direct : bool; y_crop : option (Z * Z * Z * Z); y_vui : option vui_syntax }.

Definition sps_lists_bits (ss : list list_syntax) : list bool := lists_bits 0 ss.
Definition high_bits (h : high_syntax) : list bool :=
  ue_bits (y_chroma_format h) ++ (if y_chroma_format h =? 3 then [y_separate h] else []) ++
  ue_bits (y_depth_luma h) ++ ue_bits (y_depth_chroma h) ++ y_bypass h :: opt_bits sps_lists_bits (y_sps_lists h).
Definition poc_bits (p : poc_syntax) : list bool :=
  match p with
  | PocType0 n => ue_bits 0 ++ ue_bits n
  | PocType1 z a b os => ue_bits 1 ++ z :: se_bits a ++ se_bits b ++ ue_bits (Z.of_nat (length os)) ++ flat_map se_bits os
  | PocType2 => ue_bits 2
  end.
Definition crop_bits (c : Z * Z * Z * Z) : list bool := ue_bits c.1.1.1 ++ ue_bits c.1.1.2 ++ ue_bits c.1.2 ++ ue_bits c.2.
Definition sps_bits (y : sps_syntax) : list bool :=
  put 8 (y_profile y) ++ put 8 (y_constraints y) ++ put 8 (y_level y) ++ ue_bits (y_sps_id y) ++
  from_option high_bits [] (y_high y) ++
  ue_bits (y_log2_frame_num y) ++ poc_bits (y_poc y) ++ ue_bits (y_ref_frames y) ++ y_gaps y ::
  ue_bits (y_width y) ++ ue_bits (y_height y) ++ y_mbs_only y :: (if y_mbs_only y then [] else [y_mbaff y]) ++
  y_direct y :: opt_bits crop_bits (y_crop y) ++ opt_bits vui_bits (y_vui y).

Definition high_ok (h : high_syntax) : Prop :=
  bits_ok 8 (y_chroma_format h) /\ bits_ok 8 (y_depth_luma h) /\ bits_ok 8 (y_depth_chroma h) /\
  opt_ok (fun ss => length ss = (if y_chroma_format h =? 3 then 12%nat else 8%nat) /\ lists_ok 0 ss) (y_sps_lists h).
Definition poc_ok (p : poc_syntax) : Prop :=
  match p with
  | PocType0 n => bits_ok 8 n
  | PocType1 _ a b os => se_ok a /\ se_ok b /\ (length os < 256)%nat /\ Forall se_ok os
  | PocType2 => True
  end.
Definition sps_ok (y : sps_syntax) : Prop :=
  bits_ok 8 (y_profile y) /\ bits_ok 8 (y_constraints y) /\ bits_ok 8 (y_level y) /\ bits_ok 8 (y_sps_id y) /\
  bool_decide (is_Some (y_high y)) = high_profile (y_profile y) /\ opt_ok high_ok (y_high y) /\
  bits_ok 8 (y_log2_frame_num y) /\ poc_ok (y_poc y) /\ bits_ok 8 (y_ref_frames y) /\
  0 <= y_width y <= 511 /\ 0 <= y_height y <= 511 /\
  opt_ok (fun c => ue_ok c.1.1.1 /\ ue_ok c.1.1.2 /\ ue_ok c.1.2 /\ ue_ok c.2) (y_crop y) /\ opt_ok vui_ok (y_vui y).

(** The control structure of an SPS. *)
Definition high_flag (f : high_syntax -> bool) (y : sps_syntax) : bool := from_option f false (y_high y).
Definition sps_flags_of (y : sps_syntax) : Z :=
  flags_of [
    (high_flag (fun h => (y_chroma_format h =? 3) && y_separate h) y, V4L2_H264_SPS_FLAG_SEPARATE_COLOUR_PLANE);
    (high_flag y_bypass y, V4L2_H264_SPS_FLAG_QPPRIME_Y_ZERO_TRANSFORM_BYPASS);
    (match y_poc y with PocType1 z _ _ _ => z | _ => false end, V4L2_H264_SPS_FLAG_DELTA_PIC_ORDER_ALWAYS_ZERO);
    (y_gaps y, V4L2_H264_SPS_FLAG_GAPS_IN_FRAME_NUM_VALUE_ALLOWED);
    (y_mbs_only y, V4L2_H264_SPS_FLAG_FRAME_MBS_ONLY);
    (negb (y_mbs_only y) && y_mbaff y, V4L2_H264_SPS_FLAG_MB_ADAPTIVE_FRAME_FIELD);
    (y_direct y, V4L2_H264_SPS_FLAG_DIRECT_8X8_INFERENCE)].
Definition poc_offsets (p : poc_syntax) : list Z := match p with PocType1 _ _ _ os => os | _ => [] end.
Definition sps_of (y : sps_syntax) : v4l2_ctrl_h264_sps :=
  let os := poc_offsets (y_poc y) in
  MkSps (y_profile y) (y_constraints y) (y_level y) (y_sps_id y) (from_option y_chroma_format 1 (y_high y))
    (from_option y_depth_luma 0 (y_high y)) (from_option y_depth_chroma 0 (y_high y)) (y_log2_frame_num y)
    (match y_poc y with PocType0 _ => 0 | PocType1 _ _ _ _ => 1 | PocType2 => 2 end)
    (match y_poc y with PocType0 n => n | _ => 0 end) (y_ref_frames y) (Z.of_nat (length os))
    (os ++ replicate (255 - length os) 0)
    (match y_poc y with PocType1 _ a _ _ => a | _ => 0 end) (match y_poc y with PocType1 _ _ b _ => b | _ => 0 end)
    (y_width y) (y_height y) (sps_flags_of y).
Definition sps_matrix (y : sps_syntax) : option scaling_matrix :=
  h ← y_high y; ss ← y_sps_lists h; Some (put_lists 0 ss zero_sm).

(** ** PPS (7.3.2.2) *)

Record pps_syntax := MkPpsSyntax {
  y_pps_id : Z; y_pps_sps : Z; y_cabac : bool; y_bottom : bool; y_l0 : Z; y_l1 : Z; y_weighted : bool; y_bipred : Z;
  y_qp : Z; y_qs : Z; y_chroma_offset : Z; y_deblocking : bool; y_constrained : bool; y_redundant : bool;
  (* the extension: 8x8 transform, lists, second chroma offset *)
  y_extension : option (bool * option (list list_syntax) * Z) }.
Definition extension_bits (e : bool * option (list list_syntax) * Z) : list bool :=
  e.1.1 :: opt_bits sps_lists_bits e.1.2 ++ se_bits e.2.
Definition pps_bits (y : pps_syntax) : list bool :=
  ue_bits (y_pps_id y) ++ ue_bits (y_pps_sps y) ++ y_cabac y :: y_bottom y :: ue_bits 0 ++
  ue_bits (y_l0 y) ++ ue_bits (y_l1 y) ++ y_weighted y :: put 2 (y_bipred y) ++
  se_bits (y_qp y) ++ se_bits (y_qs y) ++ se_bits (y_chroma_offset y) ++
  y_deblocking y :: y_constrained y :: y_redundant y :: from_option extension_bits [] (y_extension y).
(** The trailing bits: a one, then zeros. *)
Definition trailing (l : list bool) : Prop := exists n, l = true :: replicate n false.

Definition pps_ok (y : pps_syntax) : Prop :=
  bits_ok 8 (y_pps_id y) /\ bits_ok 8 (y_pps_sps y) /\ bits_ok 8 (y_l0 y) /\ bits_ok 8 (y_l1 y) /\ bits_ok 2 (y_bipred y) /\
  offset_ok (y_qp y) /\ offset_ok (y_qs y) /\ offset_ok (y_chroma_offset y) /\
  opt_ok (fun e : bool * option (list list_syntax) * Z => offset_ok e.2 /\ opt_ok (fun ss => length ss = (if e.1.1 then 8%nat else 6%nat) /\ lists_ok 0 ss) e.1.2)
    (y_extension y).

Definition pps_lists (y : pps_syntax) : option (list list_syntax) :=
  match y_extension y with Some (_, ls, _) => ls | None => None end.
Definition pps_of (y : pps_syntax) : v4l2_ctrl_h264_pps :=
  MkPps (y_pps_id y) (y_pps_sps y) 0 (y_l0 y) (y_l1 y) (y_bipred y) (y_qp y) (y_qs y) (y_chroma_offset y)
    (from_option snd (y_chroma_offset y) (y_extension y))
    (flags_of [
      (y_cabac y, V4L2_H264_PPS_FLAG_ENTROPY_CODING_MODE);
      (y_bottom y, V4L2_H264_PPS_FLAG_BOTTOM_FIELD_PIC_ORDER_IN_FRAME_PRESENT);
      (y_weighted y, V4L2_H264_PPS_FLAG_WEIGHTED_PRED);
      (y_deblocking y, V4L2_H264_PPS_FLAG_DEBLOCKING_FILTER_CONTROL_PRESENT);
      (y_constrained y, V4L2_H264_PPS_FLAG_CONSTRAINED_INTRA_PRED);
      (y_redundant y, V4L2_H264_PPS_FLAG_REDUNDANT_PIC_CNT_PRESENT);
      (from_option (fun e : bool * option (list list_syntax) * Z => e.1.1) false (y_extension y), V4L2_H264_PPS_FLAG_TRANSFORM_8X8_MODE);
      (bool_decide (is_Some (pps_lists y)), V4L2_H264_PPS_FLAG_SCALING_MATRIX_PRESENT)]).
(** The lists of a PPS from number [i] on: what is not given is the default at the head
    of a class and the list before it elsewhere (7.4.2.2, rule set A). *)
Fixpoint filled_lists (i : nat) (prev : list Z) (ss : list list_syntax) : list (list Z) :=
  match ss with
  | [] => []
  | s :: ss =>
      let v := match s with
               | GivenList vs => raster (scan_of i) vs
               | _ => match i with
                      | 0 => kH264Default4x4Intra | 3 => kH264Default4x4Inter
                      | 6 => kH264Default8x8Intra | 7 => kH264Default8x8Inter
                      | _ => prev
                      end%nat
               end in
      v :: filled_lists (S i) v ss
  end.
(** The matrix behind a PPS; the one before it when it has none. *)
Definition pps_matrix (y : pps_syntax) (m : scaling_matrix) : scaling_matrix :=
  match pps_lists y with
  | None => m
  | Some ss =>
      let ls := filled_lists 0 [] ss in
      MkSm (take 6 ls) (drop 6 ls ++ replicate (12 - length ss) (replicate 64 0))
  end.

(** ** Slice header (7.3.3) *)

Definition weight_syntax : Type := option (Z * Z) * option (Z * Z * Z * Z).
Record slice_syntax := MkSliceSyntax {
  z_first_mb : Z; z_type : Z; z_all_same : bool; z_pps_id : Z; z_colour_plane : Z; z_frame_num : Z;
  z_field : option bool;                    (* a field: is it the bottom one? *)
  z_idr_pic_id : Z; z_poc_lsb : Z; z_delta_bottom : Z; z_delta0 : Z; z_delta1 : Z; z_redundant : Z; z_direct : bool;
  z_override : option (Z * Z);
  z_modification0 : option (list (Z * Z)); z_modification1 : option (list (Z * Z));
  z_denominators : Z * Z; z_weights0 : list weight_syntax; z_weights1 : list weight_syntax;
  z_no_output : bool; z_long_term : bool; z_mmco : option (list H264Mmco) }.

Section slice.
Context (ref_idc nal_type : Z) (s : v4l2_ctrl_h264_sps) (p : v4l2_ctrl_h264_pps).

(** The parts a header has, by its type, the parameter sets and the NAL unit. *)
Definition has_bottom (z : slice_syntax) : bool :=
  pps_flag p V4L2_H264_PPS_FLAG_BOTTOM_FIELD_PIC_ORDER_IN_FRAME_PRESENT && negb (bool_decide (is_Some (z_field z))).
Definition is_b (z : slice_syntax) : bool := z_type z =? SLICE_TYPE_B.
Definition is_inter (z : slice_syntax) : bool := inter_slice (z_type z).
Definition has_chroma : bool := negb (chroma_format_idc s =? 0).
Definition active0 (z : slice_syntax) : Z :=
  if is_inter z then match z_override z with Some (a, _) => a | None => num_ref_idx_l0_default_active_minus1 p end else 0.
Definition active1 (z : slice_syntax) : Z :=
  if is_inter z then match z_override z with
    | Some (_, b) => if is_b z then b else 0
    | None => num_ref_idx_l1_default_active_minus1 p
    end else 0.

Definition field_bits (z : slice_syntax) : list bool :=
  only (negb (sps_flag s V4L2_H264_SPS_FLAG_FRAME_MBS_ONLY)) (opt_bits (fun b => [b]) (z_field z)).
Definition start_bits (z : slice_syntax) : list bool :=
  ue_bits (z_first_mb z) ++ ue_bits (z_type z + (if z_all_same z then 5 else 0)) ++ ue_bits (z_pps_id z) ++
  only (sps_flag s V4L2_H264_SPS_FLAG_SEPARATE_COLOUR_PLANE) (put 2 (z_colour_plane z)) ++
  put (Z.to_nat (log2_max_frame_num_minus4 s + 4)) (z_frame_num z) ++ field_bits z.
Definition order_bits (z : slice_syntax) : list bool :=
  if pic_order_cnt_type s =? 0 then
    put (Z.to_nat (log2_max_pic_order_cnt_lsb_minus4 s + 4)) (z_poc_lsb z) ++ only (has_bottom z) (se_bits (z_delta_bottom z))
  else only ((pic_order_cnt_type s =? 1) && negb (sps_flag s V4L2_H264_SPS_FLAG_DELTA_PIC_ORDER_ALWAYS_ZERO))
         (se_bits (z_delta0 z) ++ only (has_bottom z) (se_bits (z_delta1 z))).
Definition active_bits (z : slice_syntax) : list bool :=
  opt_bits (fun a => ue_bits a.1 ++ only (is_b z) (ue_bits a.2)) (z_override z).
Definition modification_bits (l : list (Z * Z)) : list bool := flat_map (fun m => ue_bits m.1 ++ ue_bits m.2) l ++ ue_bits 3.
Definition refs_bits (z : slice_syntax) : list bool :=
  only (is_b z) [z_direct z] ++
  only (is_inter z) (active_bits z ++ opt_bits modification_bits (z_modification0 z) ++
                     only (is_b z) (opt_bits modification_bits (z_modification1 z))).
Definition weight_bits (w : weight_syntax) : list bool :=
  opt_bits (fun l => se_bits l.1 ++ se_bits l.2) w.1 ++
  only has_chroma (opt_bits (fun c => se_bits c.1.1.1 ++ se_bits c.1.1.2 ++ se_bits c.1.2 ++ se_bits c.2) w.2).
Definition weights_bits (z : slice_syntax) : list bool :=
  only (weighted p (z_type z))
    (ue_bits (z_denominators z).1 ++ only has_chroma (ue_bits (z_denominators z).2) ++
     flat_map weight_bits (z_weights0 z) ++ only (is_b z) (flat_map weight_bits (z_weights1 z))).
Definition mmco_bits (m : H264Mmco) : list bool :=
  let op := mmco_op m in
  ue_bits op ++ only ((op =? 1) || (op =? 3)) (ue_bits (difference_of_pic_nums_minus1 m)) ++
  only (op =? 2) (ue_bits (mmco_long_term_pic_num m)) ++ only ((op =? 3) || (op =? 6)) (ue_bits (long_term_frame_idx m)) ++
  only (op =? 4) (ue_bits (max_long_term_frame_idx_plus1 m)).
Definition marking_bits (z : slice_syntax) : list bool :=
  only (negb (ref_idc =? 0))
    (if nal_type =? 5 then [z_no_output z; z_long_term z]
     else opt_bits (fun l => flat_map mmco_bits l ++ ue_bits 0) (z_mmco z)).
Definition slice_bits (z : slice_syntax) : list bool :=
  start_bits z ++ only (nal_type =? 5) (ue_bits (z_idr_pic_id z)) ++ order_bits z ++
  only (pps_flag p V4L2_H264_PPS_FLAG_REDUNDANT_PIC_CNT_PRESENT) (ue_bits (z_redundant z)) ++
  refs_bits z ++ weights_bits z ++ marking_bits z.

Definition modification_ok (l : list (Z * Z)) : Prop := Forall (fun m => 0 <= m.1 <= 2 /\ ue_ok m.2) l.
Definition weight_ok (w : weight_syntax) : Prop :=
  opt_ok (fun l => se_ok l.1 /\ se_ok l.2) w.1 /\
  opt_ok (fun c => se_ok c.1.1.1 /\ se_ok c.1.1.2 /\ se_ok c.1.2 /\ se_ok c.2) w.2.
(** An operation with the operands it has. *)
Definition mmco_ok (m : H264Mmco) : Prop :=
  let op := mmco_op m in
  1 <= op <= 6 /\ ue_ok (difference_of_pic_nums_minus1 m) /\ ue_ok (mmco_long_term_pic_num m) /\
  ue_ok (long_term_frame_idx m) /\ ue_ok (max_long_term_frame_idx_plus1 m) /\
  ((op =? 1) || (op =? 3) = false -> difference_of_pic_nums_minus1 m = 0) /\
  ((op =? 2) = false -> mmco_long_term_pic_num m = 0) /\
  ((op =? 3) || (op =? 6) = false -> long_term_frame_idx m = 0) /\
  ((op =? 4) = false -> max_long_term_frame_idx_plus1 m = 0).
Record slice_ok (z : slice_syntax) : Prop := {
  ok_first : ue_ok (z_first_mb z); ok_type : 0 <= z_type z <= 4; ok_pps_id : ue_ok (z_pps_id z);
  ok_colour : bits_ok 2 (z_colour_plane z);
  ok_frame_num : bits_ok (log2_max_frame_num_minus4 s + 4) (z_frame_num z); ok_idr : bits_ok 16 (z_idr_pic_id z);
  ok_lsb : bits_ok (log2_max_pic_order_cnt_lsb_minus4 s + 4) (z_poc_lsb z);
  ok_bottom : se_ok (z_delta_bottom z); ok_delta0 : se_ok (z_delta0 z); ok_delta1 : se_ok (z_delta1 z);
  ok_redundant : bits_ok 8 (z_redundant z);
  ok_override : opt_ok (fun a => bits_ok 8 a.1 /\ bits_ok 8 a.2) (z_override z);
  ok_mod0 : opt_ok modification_ok (z_modification0 z); ok_mod1 : opt_ok modification_ok (z_modification1 z);
  ok_denominators : ue_ok (z_denominators z).1 /\ ue_ok (z_denominators z).2;
  ok_weights0 : Forall weight_ok (z_weights0 z); ok_weights1 : Forall weight_ok (z_weights1 z);
  ok_weights : weighted p (z_type z) = true ->
    Z.of_nat (length (z_weights0 z)) = active0 z + 1 /\ Z.of_nat (length (z_weights1 z)) = active1 z + 1;
  ok_mmco : opt_ok (Forall mmco_ok) (z_mmco z);
  ok_field : sps_flag s V4L2_H264_SPS_FLAG_FRAME_MBS_ONLY = true -> z_field z = None }.
(** The widths the parameter sets ask for are those of the standard. *)
Definition sets_ok : Prop :=
  0 <= log2_max_frame_num_minus4 s <= 12 /\ 0 <= log2_max_pic_order_cnt_lsb_minus4 s <= 12 /\
  bits_ok 8 (num_ref_idx_l0_default_active_minus1 p) /\ bits_ok 8 (num_ref_idx_l1_default_active_minus1 p).

(** What the header says, and nothing else of the result. *)
Definition decode_of (z : slice_syntax) : decode_params :=
  MkDecode ref_idc (z_frame_num z) (if nal_type =? 5 then z_idr_pic_id z else 0)
    (if pic_order_cnt_type s =? 0 then z_poc_lsb z else 0)
    (if (pic_order_cnt_type s =? 0) && has_bottom z then z_delta_bottom z else 0)
    (if (pic_order_cnt_type s =? 1) && negb (sps_flag s V4L2_H264_SPS_FLAG_DELTA_PIC_ORDER_ALWAYS_ZERO) then z_delta0 z else 0)
    (if (pic_order_cnt_type s =? 1) && negb (sps_flag s V4L2_H264_SPS_FLAG_DELTA_PIC_ORDER_ALWAYS_ZERO) && has_bottom z
     then z_delta1 z else 0)
    0 0
    (flags_of [
      (nal_type =? 5, DECODE_FLAG_IDR_PIC);
      (bool_decide (is_Some (z_field z)), DECODE_FLAG_FIELD_PIC);
      (default false (z_field z), DECODE_FLAG_BOTTOM_FIELD)]).
Definition slice_of (z : slice_syntax) : slice_params :=
  MkSlice 0 (z_first_mb z) (z_type z)
    (if sps_flag s V4L2_H264_SPS_FLAG_SEPARATE_COLOUR_PLANE then z_colour_plane z else 0)
    (if pps_flag p V4L2_H264_PPS_FLAG_REDUNDANT_PIC_CNT_PRESENT then z_redundant z else 0)
    (active0 z) (active1 z) (if is_b z && z_direct z then 1 else 0).
Definition modifications (o : option (list (Z * Z))) : list H264RplmOp := map (fun m => MkRplm m.1 m.2) (default [] o).
(** The commands are appended to those of the slices before, up to the room there is. *)
Definition add_rplm (l : list H264RplmOp) (o : option (list (Z * Z))) : list H264RplmOp :=
  l ++ take (32 - length l) (modifications o).
Definition refs_of (z : slice_syntax) (o : H264ParseResult) : H264ParseResult :=
  if is_inter z then
    let o := o <| ref_pic_list_modification_flag_l0 := Z.b2z (bool_decide (is_Some (z_modification0 z))) |>
               <| rplm_l0 ::= fun l => add_rplm l (z_modification0 z) |> in
    if is_b z then o <| ref_pic_list_modification_flag_l1 := Z.b2z (bool_decide (is_Some (z_modification1 z))) |>
                     <| rplm_l1 ::= fun l => add_rplm l (z_modification1 z) |> else o
  else o.
Definition marking_of (z : slice_syntax) (o : H264ParseResult) : H264ParseResult :=
  if ref_idc =? 0 then o
  else if nal_type =? 5 then
    o <| idr_no_output_of_prior_pics_flag := Z.b2z (z_no_output z) |> <| idr_long_term_reference_flag := Z.b2z (z_long_term z) |>
  else o <| adaptive_ref_pic_marking_mode_flag := Z.b2z (bool_decide (is_Some (z_mmco z))) |>
         <| mmco ::= fun l => l ++ take (H264_MAX_MMCO_OPS - length l) (default [] (z_mmco z)) |>.
Definition header_of (z : slice_syntax) (o : H264ParseResult) : H264ParseResult :=
  marking_of z (refs_of z (o <| slice := slice_of z |> <| decode := decode_of z |>)).
End slice.
