(* ===== verification/H264ParserFacts.v ===== *)
(** * The H.264 parser reads back what was written

    Scaling lists, VUI, parameter sets and slice headers, each against its syntax in
    [H264Syntax]. *)

From S2P Require Import Prelude Bits Rbsp RbspFacts H264Parser H264Syntax.

(** ** Scaling lists *)

Section scaling.
Context {T : Type}.
Implicit Types t : T.

(** A list that is read to its end, or repeats its last value. *)
Lemma rb_parses_repeat zz : forall j cur l t r, (0 < j)%nat -> parses (scaling_loop (T := T) zz j cur 0 cur l) r t r t (fill zz [] cur l, false).
Proof.
  induction zz as [|p zz IH]; intros j cur l t r Hj; cbn [scaling_loop fill]; [apply rb_parses_ret|].
  eapply rb_parses_bind; [apply rb_parses_ret|]. cbn [negb Z.eqb andb]. apply IH. lia.
Qed.
Lemma parses_loop zz : forall vs j cur l t r, (vs <> [] \/ (0 < j)%nat) -> (length vs <= length zz)%nat -> 1 <= cur <= 255 ->
  Forall (fun v => 1 <= v <= 255) vs ->
  parses (scaling_loop (T := T) zz j cur cur cur l) (deltas cur vs ++ end_of_list (length zz) cur vs ++ r) t r t (fill zz vs cur l, false).
Proof.
  induction zz as [|p zz IH]; intros vs j cur l t r Hj Hv Hc Hvs; cbn [scaling_loop].
  { destruct vs; [apply rb_parses_ret|simpl in Hv; lia]. }
  rewrite (proj2 (Z.eqb_neq cur 0)) by lia. cbn [negb andb]. destruct vs as [|v vs].
  - cbn [deltas app]. unfold end_of_list. change (last_of cur []) with cur. cbn [length Nat.ltb Nat.leb].
    eapply rb_parses_bind; [eapply rb_parses_bind; [apply parses_se, delta_ok|cbv beta; eapply rb_parses_bind; [apply parses_need, int32_ok; unfold i8; zdm|apply rb_parses_ret]]|].
    rewrite next_scale by lia. cbn [Z.eqb]. rewrite andb_true_r. rewrite (proj2 (Nat.eqb_neq j 0)) by (destruct Hj; done || lia).
    cbn [fill]. apply rb_parses_repeat. lia.
  - cbn [deltas]. apply Forall_cons in Hvs as [Hv0 Hvs]. rewrite <- app_assoc.
    eapply rb_parses_bind; [eapply rb_parses_bind; [apply parses_se, delta_ok|cbv beta; eapply rb_parses_bind; [apply parses_need, int32_ok; unfold i8; zdm|apply rb_parses_ret]]|].
    rewrite next_scale by lia. rewrite (proj2 (Z.eqb_neq v 0)) by lia. rewrite andb_false_r. cbn [fill].
    replace (end_of_list (length (p :: zz)) cur (v :: vs)) with (end_of_list (length zz) v vs).
    + apply IH; simpl in Hv; (done || lia || auto).
    + unfold end_of_list. rewrite last_of_cons. done.
Qed.

Lemma scan_perm i : NoDup (scan_of i) /\ (forall p, (p < length (scan_of i))%nat -> p ∈ scan_of i) /\ length (scan_of i) = list_size i.
Proof.
  unfold scan_of, list_size. destruct (i <? 6)%nat.
  - split_and!; [apply (bool_decide_eq_true_1 (NoDup kH264ZigZag4x4)); vm_compute; reflexivity| |done].
    intros p Hp. assert (Forall (fun p => p ∈ kH264ZigZag4x4) (seq 0 16)) as H by (apply (bool_decide_eq_true_1 (Forall _ _)); vm_compute; reflexivity).
    rewrite Forall_forall in H. apply H. apply elem_of_seq. simpl in Hp. lia.
  - split_and!; [apply (bool_decide_eq_true_1 (NoDup kH264ZigZag8x8)); vm_compute; reflexivity| |done].
    intros p Hp. assert (Forall (fun p => p ∈ kH264ZigZag8x8) (seq 0 64)) as H by (apply (bool_decide_eq_true_1 (Forall _ _)); vm_compute; reflexivity).
    rewrite Forall_forall in H. apply H. apply elem_of_seq. simpl in Hp. lia.
Qed.

(** The list number [i] of a matrix, whose lists have their sizes. *)
Definition nth_list (i : nat) (m : scaling_matrix) : list Z :=
  default [] (if (i <? 6)%nat then scaling_list_4x4 m !! i else scaling_list_8x8 m !! (i - 6)%nat).
Definition sized (m : scaling_matrix) : Prop :=
  length (scaling_list_4x4 m) = 6%nat /\ length (scaling_list_8x8 m) = 6%nat /\ forall i, (i < 12)%nat -> length (nth_list i m) = list_size i.

Lemma length_nth i m : sized m -> (i < 12)%nat -> length (nth_list i m) = list_size i.
Proof. by intros (_ & _ & H) Hi; apply H. Qed.
Lemma set_nth_list i m : sized m -> (i < 12)%nat -> set_list i (nth_list i m) m = m.
Proof.
  intros (H4 & H8 & _) Hi. unfold set_list, nth_list. destruct m as [l4 l8]. cbn in H4, H8. destruct (Nat.ltb_spec i 6).
  - unfold set_field. cbn [scaling_list_4x4 scaling_list_8x8]. f_equal. apply list_insert_id. destruct (lookup_lt_is_Some_2 l4 i) as [x ->]; [lia|done].
  - unfold set_field. cbn [scaling_list_4x4 scaling_list_8x8]. f_equal. apply list_insert_id. destruct (lookup_lt_is_Some_2 l8 (i - 6)) as [x ->]; [lia|done].
Qed.
Lemma nth_set_list i j l m : sized m -> (i < 12)%nat -> (j < 12)%nat -> nth_list j (set_list i l m) = if (i =? j)%nat then l else nth_list j m.
Proof.
  intros (H4 & H8 & _) Hi Hj. unfold nth_list, set_list. destruct m as [l4 l8]. cbn in H4, H8.
  destruct (Nat.ltb_spec i 6), (Nat.ltb_spec j 6); unfold set_field; cbn [scaling_list_4x4 scaling_list_8x8]; destruct (Nat.eqb_spec i j) as [->|]; try lia; try done.
  - by rewrite list_lookup_insert_eq by lia.
  - by rewrite list_lookup_insert_ne by lia.
  - by rewrite list_lookup_insert_eq by lia.
  - by rewrite list_lookup_insert_ne by lia.
Qed.
Lemma sized_set i l m : sized m -> (i < 12)%nat -> length l = list_size i -> sized (set_list i l m).
Proof.
  intros Hm Hi Hl. pose proof Hm as (H4 & H8 & Hn). split_and!.
  - unfold set_list. destruct m. destruct (i <? 6)%nat; [|done]. unfold set_field. cbn. by rewrite length_insert.
  - unfold set_list. destruct m. destruct (i <? 6)%nat; [done|]. unfold set_field. cbn. by rewrite length_insert.
  - intros j Hj. rewrite nth_set_list by done. destruct (Nat.eqb_spec i j) as [<-|]; [done|by apply Hn].
Qed.
Lemma sized_zero : sized zero_sm.
Proof. split_and!; [done|done|]. intros i Hi. by do 12 (destruct i as [|i]; [done|]); lia. Qed.
Lemma sized_put i s m : sized m -> (i < 12)%nat -> sized (put_list i s m).
Proof.
  intros Hm Hi. destruct s; [done..|]. apply sized_set; [done..|]. rewrite length_raster. apply scan_perm.
Qed.

Lemma parses_given i vs m t r : sized m -> (i < 12)%nat -> list_ok (list_size i) (GivenList vs) ->
  parses (parse_list (T := T) i m) (deltas 8 vs ++ end_of_list (list_size i) 8 vs ++ r) t r t (put_list i (GivenList vs) m, false).
Proof.
  intros Hm Hi (Hne & Hl & Hv). destruct (scan_perm i) as (Hnd & Hall & Hsz). cbn [put_list].
  pose proof (length_nth i m Hm Hi) as Hn. rewrite <- Hsz in *.
  rewrite <- (fill_raster (scan_of i) vs (nth_list i m)) by done.
  pose proof (parses_loop (scan_of i) vs 0 8 (nth_list i m) t r (or_introl Hne) Hl ltac:(lia) Hv) as H.
  unfold parse_list, nth_list, set_list, scan_of in *. destruct (i <? 6)%nat; eapply rb_parses_bind; try exact H; apply rb_parses_ret.
Qed.
Lemma parses_default i m t r : sized m -> (i < 12)%nat -> parses (parse_list (T := T) i m) (se_bits (-8) ++ r) t r t (m, true).
Proof.
  intros Hm Hi. pose proof (set_nth_list i m Hm Hi) as E. unfold parse_list, nth_list, set_list in *.
  assert (forall p zz (l : list Z), parses (scaling_loop (T := T) (p :: zz) 0 8 8 8 l) (se_bits (-8) ++ r) t r t (l, true)) as H.
  { intros p zz l. cbn [scaling_loop]. eapply rb_parses_bind; [eapply rb_parses_bind; [apply parses_se; by split|cbv beta; eapply rb_parses_bind; [by apply parses_need|apply rb_parses_ret]]|].
    apply rb_parses_ret. }
  destruct (i <? 6)%nat; (eapply rb_parses_bind; [apply H|]); cbv beta iota; rewrite E; apply rb_parses_ret.
Qed.
End scaling.

(** ** VUI *)

Lemma parses_hrd h r (o : H264ParseResult) : hrd_ok h -> parses parse_hrd_parameters (hrd_bits h ++ r) o r o tt.
Proof.
  unfold hrd_ok, hrd_bits. destruct (h_lengths h) as [[[a b] c] d]. intros (Hl & Hc & H1 & H2 & H3 & H4 & H5 & H6). bits.
  unfold parse_hrd_parameters. eapply rb_parses_bind; [apply parses_ue; unfold ue_ok in *; lia|]. cbv beta.
  assert ((31 <? Z.of_nat (length (h_cpbs h)) - 1) = false) as -> by (apply Z.ltb_ge; lia).
  do 2 pstep. replace (S (Z.to_nat (Z.of_nat (length (h_cpbs h)) - 1))) with (length (h_cpbs h)) by lia.
  eapply rb_parses_bind; [apply (parses_times cpb_bits)|cbv beta; do 3 pstep; pread].
  intros x Hx l. rewrite Forall_forall in Hc. destruct (Hc x Hx). unfold cpb_bits. bits. do 2 pstep. pread.
Qed.

Lemma parses_aspect a r (o : H264ParseResult) :
  opt_ok (fun a => bits_ok 8 a.1.1 /\ bits_ok 16 a.1.2 /\ bits_ok 16 a.2) a -> parses vui_aspect (opt_bits aspect_bits a ++ r) o r o tt.
Proof.
  intros Ha. apply parses_opt_last; [|done]. intros x ->. destruct Ha as (H1 & H2 & H3). unfold aspect_bits. bits. pstep.
  apply parses_when. destruct (x.1.1 =? 255); [|done]. bits. pstep. pread.
Qed.
Lemma parses_signal s r (o : H264ParseResult) : opt_ok (fun s => bits_ok 3 s.1.1 /\ opt_ok colour_ok s.2) s ->
  parses vui_signal (opt_bits signal_bits s ++ r) o r (o <| vui ::= colour_of s |>) tt.
Proof.
  intros Hs. apply parses_opt_last; [|intros ->; by destruct o]. intros [[f full] c] ->. destruct Hs as [Hf Hc]. unfold signal_bits. bits. cbn [fst snd].
  pstep. pstep. pstep. eapply rb_parses_bind; [apply parses_upd; reflexivity|]. cbv beta.
  apply parses_opt_last; [|intros ->; by destruct o]. intros [[cp tc] mc] ->. destruct Hc as (H1 & H2 & H3). unfold colour_bits. bits.
  do 3 pstep. apply parses_upd. by destruct o.
Qed.
Lemma parses_restriction x r (o : H264ParseResult) :
  opt_ok (fun r : bool * (Z * Z * Z * Z) * Z * Z => let '(_, (a, b, c, d), n, m) := r in
    ue_ok a /\ ue_ok b /\ ue_ok c /\ ue_ok d /\ ue_ok n /\ ue_ok m) x ->
  parses vui_restriction (opt_bits restriction_bits x ++ r) o r (o <| vui ::= reorder_of x |>) tt.
Proof.
  intros Hx. apply parses_opt_last; [|intros ->; by destruct o]. intros [[[mv [[[a b] c] d]] n] m] ->.
  destruct Hx as (H1 & H2 & H3 & H4 & H5 & H6). unfold restriction_bits. bits.
  do 7 pstep. apply parses_upd. unfold reorder_of. replace (if 16 <? n then 16 else n) with (Z.min n 16); [done|].
  destruct (Z.ltb_spec 16 n); lia.
Qed.
Lemma parses_vui y r (o : H264ParseResult) : vui_ok y ->
  parses parse_vui_parameters (vui_bits y ++ r) o r (o <| vui ::= vui_of (Some y) |>) tt.
Proof.
  intros (H1 & H2 & H3 & H4 & H5 & H6 & H7). unfold vui_bits. bits. unfold parse_vui_parameters.
  eapply rb_parses_bind; [by apply parses_upd|]. eapply rb_parses_bind; [by apply parses_aspect|].
  eapply (rb_parses_opt (fun b => [b])); [intros a _; cbn [app]; pread|done|].
  eapply rb_parses_bind; [by apply parses_signal|]. cbv beta.
  eapply (rb_parses_opt (fun c => ue_bits c.1 ++ ue_bits c.2)); [intros c E; rewrite E in H3; destruct H3; bits; pstep; pread|done|].
  eapply (rb_parses_opt (fun t : Z * Z * bool => put 32 t.1.1 ++ put 32 t.1.2 ++ [t.2]));
    [intros t E; rewrite E in H4; destruct H4; bits; pstep; pstep; pread|done|].
  eapply parses_opt_k; [intros h E; rewrite E in H5; by apply parses_hrd|done|]. cbv beta.
  eapply parses_opt_k; [intros h E; rewrite E in H6; by apply parses_hrd|done|]. cbv beta.
  rewrite !truth_of_b2z. eapply rb_parses_bind with (l1 := y_pic_struct y :: opt_bits restriction_bits (y_restriction y) ++ r).
  { apply parses_when. destruct (_ || _); [cbn [app]; pread|by split]. }
  cbv beta. pstep. by apply parses_restriction.
Qed.

(** ** SPS *)

(** A result with this SPS. *)
Definition with_sps (o : H264ParseResult) (s : v4l2_ctrl_h264_sps) : H264ParseResult := o <| sps := s |>.
Ltac sps_fields := cbv beta iota delta [set_field profile_idc constraint_set_flags level_idc seq_parameter_set_id chroma_format_idc
  bit_depth_luma_minus8 bit_depth_chroma_minus8 log2_max_frame_num_minus4 pic_order_cnt_type log2_max_pic_order_cnt_lsb_minus4
  max_num_ref_frames num_ref_frames_in_pic_order_cnt_cycle offset_for_ref_frame offset_for_non_ref_pic
  offset_for_top_to_bottom_field pic_width_in_mbs_minus1 pic_height_in_map_units_minus1 sps_flags].

Definition set_flag (b : bool) (m w : Z) : Z := if b then Z.lor m w else w.
Lemma on_sps_at f l o s s' : f s = s' -> parses (on_sps f) l (with_sps o s) l (with_sps o s') tt.
Proof. intros <-. by apply parses_upd. Qed.
Lemma sps_or_at b m l o s s' : s <| sps_flags ::= set_flag b m |> = s' ->
  parses (sps_or (Z.b2z b) m) l (with_sps o s) l (with_sps o s') tt.
Proof. intros <-. unfold sps_or. rewrite truth_of_b2z. apply parses_when. destruct b; [by apply parses_upd|]. split; [done|]. by destruct s. Qed.
(** One read or one assignment; the fields stay explicit. *)
Ltac sps_upd := first [eapply on_sps_at | eapply sps_or_at]; sps_fields; reflexivity.
Ltac sps_step := eapply rb_parses_bind; [sps_upd|cbv beta].

Lemma parses_lists ss : forall i m l r (o : H264ParseResult), sized m -> (i + length ss <= 12)%nat -> lists_ok i ss -> r = lists_bits i ss ++ l ->
  parses (sps_lists (length ss) i m) r o l o (put_lists i ss m).
Proof.
  induction ss as [|s ss IH]; intros i m l r o Hm Hi Hs ->; [apply rb_parses_ret|]. cbn [length sps_lists lists_bits put_lists] in *.
  destruct Hs as [Hs Hss]. bits. eapply rb_parses_bind; [|apply IH; [apply sized_put; [done|lia]|lia|done|reflexivity]].
  unfold sps_list, list_bits. destruct s as [| |vs]; bits.
  - pstep. rewrite (truth_of_b2z false). apply rb_parses_ret.
  - pstep. rewrite (truth_of_b2z true). eapply rb_parses_bind; [apply parses_default; [done|lia]|]. apply rb_parses_ret.
  - pstep. rewrite (truth_of_b2z true). eapply rb_parses_bind; [apply parses_given; [done|lia|done]|]. apply rb_parses_ret.
Qed.

Lemma parses_offsets os : forall pre suf i r o s, i = length pre -> (length os <= length suf)%nat -> Forall se_ok os ->
  offset_for_ref_frame s = pre ++ suf ->
  parses (skip (collect (length os) i read_offset)) (flat_map se_bits os ++ r) (with_sps o s) r
    (with_sps o (s <| offset_for_ref_frame := pre ++ os ++ drop (length os) suf |>)) tt.
Proof.
  intros pre suf i r o s Hi Hl Hos E. apply parses_skip with (a := replicate (length os) tt). revert pre suf i s Hi Hl E.
  induction Hos as [|x os Hx Hos IH]; intros pre suf i s Hi Hl E; cbn [length collect flat_map replicate app].
  - rewrite drop_0. replace (with_sps o (s <| offset_for_ref_frame := pre ++ suf |>)) with (with_sps o s); [apply rb_parses_ret|].
    rewrite <- E. by destruct s.
  - destruct suf as [|y suf]; [simpl in Hl; lia|]. bits. eapply rb_parses_bind; [eapply rb_parses_bind; [apply parses_se, Hx|by apply on_sps_at]|].
    cbv beta. set (s1 := s <| offset_for_ref_frame ::= <[i := x]> |>).
    assert (offset_for_ref_frame s1 = (pre ++ [x]) ++ suf) as E1.
    { unfold s1. change (<[i := x]> (offset_for_ref_frame s) = (pre ++ [x]) ++ suf). rewrite E, Hi, <- app_assoc.
      rewrite <- (Nat.add_0_r (length pre)), insert_app_r. done. }
    eapply rb_parses_bind; [|apply rb_parses_ret].
    replace (with_sps o (s <| offset_for_ref_frame := pre ++ x :: os ++ drop (length (x :: os)) (y :: suf) |>))
      with (with_sps o (s1 <| offset_for_ref_frame := (pre ++ [x]) ++ os ++ drop (length os) suf |>)).
    + apply IH; [rewrite length_app; simpl; lia|simpl in Hl; lia|done].
    + rewrite <- app_assoc. done.
Qed.

(** A flag that is only there under a condition. *)
Lemma sps_when_or (c b : bool) m l o s s' : s <| sps_flags ::= set_flag (c && b) m |> = s' ->
  parses (when c (x ← rd_u1; sps_or x m)) ((if c then [b] else []) ++ l) (with_sps o s) l (with_sps o s') tt.
Proof.
  intros <-. apply parses_when. destruct c; cbn [app andb]; [eapply rb_parses_bind; [apply parses_u1|by apply sps_or_at]|]. split; [done|]. by destruct s.
Qed.
Ltac sps_when := eapply rb_parses_bind; [eapply sps_when_or; sps_fields; reflexivity|cbv beta].

Definition high_fields (h : high_syntax) (s : v4l2_ctrl_h264_sps) : v4l2_ctrl_h264_sps :=
  s <| chroma_format_idc := y_chroma_format h |> <| bit_depth_luma_minus8 := y_depth_luma h |>
    <| bit_depth_chroma_minus8 := y_depth_chroma h |>
    <| sps_flags ::= fun w => set_flag (y_bypass h) V4L2_H264_SPS_FLAG_QPPRIME_Y_ZERO_TRANSFORM_BYPASS
         (set_flag ((y_chroma_format h =? 3) && y_separate h) V4L2_H264_SPS_FLAG_SEPARATE_COLOUR_PLANE w) |>.
Lemma parses_high h r o s : high_ok h ->
  parses sps_high (high_bits h ++ r) (with_sps o s) r (with_sps o (high_fields h s)) (ss ← y_sps_lists h; Some (put_lists 0 ss zero_sm)).
Proof.
  intros (H1 & H2 & H3 & H4). unfold high_bits, sps_high. bits.
  destruct s as [i_profile i_constraints i_level i_id i_chroma i_luma i_depth i_fn i_type i_lsb i_refs i_cycle i_offsets i_nonref i_top i_w i_h i_flags]. pstep. rewrite u8_ok by done. sps_step.
  sps_when. pstep. rewrite u8_ok by done. sps_step. pstep. rewrite u8_ok by done. sps_step. pstep. sps_step.
  unfold sps_scaling. destruct (y_sps_lists h) as [ss|] eqn:El; cbn [opt_bits app]; (eapply rb_parses_bind; [apply parses_u1|cbv beta]).
  - destruct H4 as [Hn Hs]. rewrite (truth_of_b2z true). pstep.
    replace (if chroma_format_idc _ =? 3 then 12%nat else 8%nat) with (length ss) by exact Hn.
    assert (length ss <= 12)%nat by (destruct (_ =? 3); lia).
    eapply rb_parses_bind; [eapply parses_lists; [apply sized_zero|lia|exact Hs|reflexivity]|]. apply rb_parses_ret.
  - rewrite (truth_of_b2z false). apply rb_parses_ret.
Qed.

Definition poc_fields (p : poc_syntax) (s : v4l2_ctrl_h264_sps) : v4l2_ctrl_h264_sps :=
  match p with
  | PocType0 n => s <| pic_order_cnt_type := 0 |> <| log2_max_pic_order_cnt_lsb_minus4 := n |>
  | PocType1 z a b os =>
      s <| pic_order_cnt_type := 1 |>
        <| sps_flags ::= set_flag z V4L2_H264_SPS_FLAG_DELTA_PIC_ORDER_ALWAYS_ZERO |>
        <| offset_for_non_ref_pic := a |> <| offset_for_top_to_bottom_field := b |>
        <| num_ref_frames_in_pic_order_cnt_cycle := Z.of_nat (length os) |>
        <| offset_for_ref_frame := os ++ replicate (255 - length os) 0 |>
  | PocType2 => s <| pic_order_cnt_type := 2 |>
  end.
Lemma parses_poc p r o s : poc_ok p -> offset_for_ref_frame s = replicate 255 0 ->
  parses sps_poc (poc_bits p ++ r) (with_sps o s) r (with_sps o (poc_fields p s)) tt.
Proof.
  intros Hp E. unfold sps_poc.
  destruct s as [i_profile i_constraints i_level i_id i_chroma i_luma i_depth i_fn i_type i_lsb i_refs i_cycle i_offsets i_nonref i_top i_w i_h i_flags]. cbn in E. subst. destruct p as [n|z a b os|]; cbn [poc_bits]; bits; pstep; sps_step.
  - cbn [poc_ok] in Hp. change (u8 0) with 0. cbn [Z.eqb]. pstep. rewrite u8_ok by done. sps_upd.
  - destruct Hp as (Ha & Hb & Hl & Hos). change (u8 1) with 1. cbn [Z.eqb Pos.eqb]. pstep. sps_step. pstep. sps_step. pstep. sps_step.
    eapply rb_parses_bind; [apply parses_ue; unfold ue_ok; lia|]. cbv beta. rewrite u8_ok by (unfold bits_ok; lia). sps_step.
    rewrite Nat2Z.id. pose proof (parses_offsets os [] (replicate 255 0) 0 r o) as H. cbn [app] in H.
    rewrite drop_replicate in H. apply H; [done|rewrite length_replicate; lia|done|done].
  - cbn. apply rb_parses_ret.
Qed.

(** The SPS behind the high profile fields, and behind those of the picture order count. *)
Definition sps_high_of (y : sps_syntax) : v4l2_ctrl_h264_sps :=
  MkSps (y_profile y) (y_constraints y) (y_level y) (y_sps_id y) (from_option y_chroma_format 1 (y_high y))
    (from_option y_depth_luma 0 (y_high y)) (from_option y_depth_chroma 0 (y_high y)) 0 0 0 0 0 (replicate 255 0) 0 0 0 0
    (set_flag (high_flag y_bypass y) V4L2_H264_SPS_FLAG_QPPRIME_Y_ZERO_TRANSFORM_BYPASS
      (set_flag (high_flag (fun h => (y_chroma_format h =? 3) && y_separate h) y) V4L2_H264_SPS_FLAG_SEPARATE_COLOUR_PLANE 0)).
Definition always_zero (p : poc_syntax) : bool := match p with PocType1 z _ _ _ => z | _ => false end.
Definition sps_poc_of (y : sps_syntax) : v4l2_ctrl_h264_sps :=
  (sps_of y) <| max_num_ref_frames := 0 |> <| pic_width_in_mbs_minus1 := 0 |> <| pic_height_in_map_units_minus1 := 0 |>
    <| sps_flags := set_flag (always_zero (y_poc y)) V4L2_H264_SPS_FLAG_DELTA_PIC_ORDER_ALWAYS_ZERO (sps_flags (sps_high_of y)) |>.
Lemma poc_fields_of y : poc_fields (y_poc y) ((sps_high_of y) <| log2_max_frame_num_minus4 := y_log2_frame_num y |>) = sps_poc_of y.
Proof. unfold poc_fields, sps_poc_of, sps_high_of, sps_of. destruct (y_poc y); sps_fields; done. Qed.

Lemma parses_size w h r o s s' : 0 <= w <= 511 -> 0 <= h <= 511 ->
  s <| pic_width_in_mbs_minus1 := w |> <| pic_height_in_map_units_minus1 := h |> = s' ->
  parses sps_size (ue_bits w ++ ue_bits h ++ r) (with_sps o s) r (with_sps o s') tt.
Proof.
  intros Hw Hh <-. unfold sps_size. do 2 pstep. unfold kMaxMbs. rewrite !(proj2 (Z.ltb_ge 511 _)) by lia. cbn [orb].
  apply on_sps_at. unfold u16. by rewrite !Z.mod_small by lia.
Qed.
Lemma parses_frame m f d c r o s s' : opt_ok (fun c => ue_ok c.1.1.1 /\ ue_ok c.1.1.2 /\ ue_ok c.1.2 /\ ue_ok c.2) c ->
  s <| sps_flags ::= fun w => set_flag d V4L2_H264_SPS_FLAG_DIRECT_8X8_INFERENCE
      (set_flag (negb m && f) V4L2_H264_SPS_FLAG_MB_ADAPTIVE_FRAME_FIELD (set_flag m V4L2_H264_SPS_FLAG_FRAME_MBS_ONLY w)) |> = s' ->
  parses sps_frame (m :: (if m then [] else [f]) ++ d :: opt_bits crop_bits c ++ r) (with_sps o s) r (with_sps o s') tt.
Proof.
  intros Hc <-. unfold sps_frame. pstep. eapply rb_parses_bind; [by apply sps_or_at|]. cbv beta. rewrite truth_of_b2z.
  replace (if m then [] else [f]) with (if negb m then [f] else []) by by destruct m.
  eapply rb_parses_bind; [by apply sps_when_or|]. cbv beta. pstep. eapply rb_parses_bind; [by apply sps_or_at|]. cbv beta.
  apply parses_opt_last; [|done]. intros x ->. destruct Hc as (? & ? & ? & ?). unfold crop_bits. bits. do 3 pstep. pread.
Qed.

Lemma sps_flags_eq y :
  set_flag (y_direct y) V4L2_H264_SPS_FLAG_DIRECT_8X8_INFERENCE
    (set_flag (negb (y_mbs_only y) && y_mbaff y) V4L2_H264_SPS_FLAG_MB_ADAPTIVE_FRAME_FIELD
      (set_flag (y_mbs_only y) V4L2_H264_SPS_FLAG_FRAME_MBS_ONLY
        (set_flag (y_gaps y) V4L2_H264_SPS_FLAG_GAPS_IN_FRAME_NUM_VALUE_ALLOWED
          (sps_flags (sps_poc_of y))))) = sps_flags_of y.
Proof.
  unfold sps_poc_of, sps_high_of, sps_flags_of, set_flag, flags_of. sps_fields. cbn [foldr fst snd].
  fold (always_zero (y_poc y)). generalize (high_flag y_bypass y), (high_flag (fun h => (y_chroma_format h =? 3) && y_separate h) y).
  intros b1 b2. by destruct b1, b2, (always_zero _), (y_gaps y), (y_mbs_only y), (y_mbaff y), (y_direct y).
Qed.

Lemma sps_fields_eq y :
  (sps_poc_of y) <| max_num_ref_frames := y_ref_frames y |>
    <| sps_flags ::= set_flag (y_gaps y) V4L2_H264_SPS_FLAG_GAPS_IN_FRAME_NUM_VALUE_ALLOWED |>
    <| pic_width_in_mbs_minus1 := y_width y |> <| pic_height_in_map_units_minus1 := y_height y |>
    <| sps_flags ::= fun w => set_flag (y_direct y) V4L2_H264_SPS_FLAG_DIRECT_8X8_INFERENCE
         (set_flag (negb (y_mbs_only y) && y_mbaff y) V4L2_H264_SPS_FLAG_MB_ADAPTIVE_FRAME_FIELD
           (set_flag (y_mbs_only y) V4L2_H264_SPS_FLAG_FRAME_MBS_ONLY w)) |> = sps_of y.
Proof.
  pose proof (sps_flags_eq y) as E. unfold sps_poc_of at 1. unfold sps_of at 2. rewrite <- E. unfold sps_of. sps_fields. reflexivity.
Qed.
Lemma parses_sps y r o : sps_ok y ->
  parses parse_sps (sps_bits y ++ r) o r (o <| sps := sps_of y |> <| vui ::= vui_of (y_vui y) |>) (sps_matrix y).
Proof.
  intros (H1 & H2 & H3 & H4 & Hp & Hh & H5 & H6 & H7 & H8 & H9 & H10 & H11). unfold sps_bits, parse_sps. bits.
  set (o1 := o <| vui ::= no_reorder |>).
  eapply rb_parses_bind with (t1 := with_sps o1 zero_sps); [by apply parses_upd|]. unfold zero_sps.
  do 3 (pstep; sps_step). pstep. rewrite (u8_ok (y_sps_id y)) by done. sps_step.
  eapply rb_parses_bind with (t1 := with_sps o1 (sps_high_of y)) (a := sps_matrix y).
  { rewrite <- Hp. unfold sps_matrix, sps_high_of, high_flag. destruct (y_high y) as [h|]; cbn [from_option].
    - apply parses_high. exact Hh.
    - sps_step. apply rb_parses_ret. }
  cbv beta. pstep. rewrite (u8_ok (y_log2_frame_num y)) by done. eapply rb_parses_bind; [by apply on_sps_at|]. cbv beta.
  eapply rb_parses_bind; [by apply parses_poc|]. cbv beta. rewrite poc_fields_of. pstep. rewrite (u8_ok (y_ref_frames y)) by done.
  eapply rb_parses_bind; [by apply on_sps_at|]. cbv beta. pstep. eapply rb_parses_bind; [by apply sps_or_at|]. cbv beta.
  eapply rb_parses_bind; [by apply parses_size|]. cbv beta. bits. eapply rb_parses_bind; [by apply parses_frame|]. cbv beta.
  set (s := set_field sps_flags _ _).
  assert (s = sps_of y) as ->.
  { apply sps_fields_eq. }
  set (o2 := o <| sps := sps_of y |> <| vui ::= vui_of (y_vui y) |>).
  eapply (rb_parses_opt vui_bits (y_vui y) _ _ r _ o2).
  - intros v E. rewrite E in H11. replace o2 with ((with_sps o1 (sps_of y)) <| vui ::= vui_of (Some v) |>); [by apply parses_vui|].
    unfold o2, o1, with_sps. rewrite E. unfold vui_of, no_reorder. reflexivity.
  - intros E. unfold o2, o1, with_sps. rewrite E. reflexivity.
  - unfold invalid_if_failed. eapply rb_parses_bind; [pstep; pread|]. apply rb_parses_ret.
Qed.

(** ** PPS *)

(** A result with this matrix and this PPS. *)
Definition with_pps (o : H264ParseResult) (m : scaling_matrix) (p : v4l2_ctrl_h264_pps) : H264ParseResult := o <| out_sm := m |> <| pps := p |>.
Ltac pps_fields := cbv beta iota delta [set_field pic_parameter_set_id pps_seq_parameter_set_id num_slice_groups_minus1
  num_ref_idx_l0_default_active_minus1 num_ref_idx_l1_default_active_minus1 weighted_bipred_idc pic_init_qp_minus26
  pic_init_qs_minus26 chroma_qp_index_offset second_chroma_qp_index_offset pps_flags].
Lemma on_pps_at f l o m p p' : f p = p' -> parses (on_pps f) l (with_pps o m p) l (with_pps o m p') tt.
Proof. intros <-. by apply parses_upd. Qed.
Lemma pps_or_at b k l o m p p' : p <| pps_flags ::= set_flag b k |> = p' ->
  parses (pps_or (Z.b2z b) k) l (with_pps o m p) l (with_pps o m p') tt.
Proof. intros <-. unfold pps_or. rewrite truth_of_b2z. apply parses_when. destruct b; [by apply parses_upd|]. split; [done|]. by destruct p. Qed.
Ltac pps_upd := first [eapply on_pps_at | eapply pps_or_at]; pps_fields; reflexivity.
Ltac pps_step := eapply rb_parses_bind; [pps_upd|cbv beta].

Lemma parses_collect_lists ss : forall i m l r o p, sized m -> (i + length ss <= 12)%nat -> lists_ok i ss -> r = lists_bits i ss ++ l ->
  parses (collect (length ss) i pps_list) r (with_pps o m p) l (with_pps o (put_lists i ss m) p) (map is_given ss).
Proof.
  induction ss as [|s ss IH]; intros i m l r o p Hm Hi Hs ->; [apply rb_parses_ret|]. cbn [length collect lists_bits put_lists map] in *.
  destruct Hs as [Hs Hss]. bits.
  eapply rb_parses_bind with (a := is_given s) (t1 := with_pps o (put_list i s m) p) (l1 := lists_bits (S i) ss ++ l).
  - unfold pps_list, list_bits. destruct s as [| |vs]; bits; pstep.
    + rewrite (truth_of_b2z false). apply rb_parses_ret.
    + rewrite (truth_of_b2z true). pstep. eapply rb_parses_bind; [apply parses_default; [done|lia]|]. cbv beta.
      eapply rb_parses_bind; [by apply (parses_upd _ _ _ (with_pps o m p))|]. apply rb_parses_ret.
    + rewrite (truth_of_b2z true). pstep. eapply rb_parses_bind; [apply parses_given; [done|lia|done]|]. cbv beta.
      eapply rb_parses_bind; [by apply (parses_upd _ _ _ (with_pps o (put_list i (GivenList vs) m) p))|]. apply rb_parses_ret.
  - cbv beta. eapply rb_parses_bind; [apply IH; [apply sized_put; [done|lia]|lia|done|reflexivity]|]. apply rb_parses_ret.
Qed.

(** The fall-back done list by list is the table of [filled_lists]. *)
Lemma mat_ext m1 m2 : length (scaling_list_4x4 m1) = 6%nat -> length (scaling_list_8x8 m1) = 6%nat ->
  length (scaling_list_4x4 m2) = 6%nat -> length (scaling_list_8x8 m2) = 6%nat ->
  (forall j, (j < 12)%nat -> nth_list j m1 = nth_list j m2) -> m1 = m2.
Proof.
  intros A1 B1 A2 B2 H. destruct m1 as [a1 b1], m2 as [a2 b2]. cbn in A1, B1, A2, B2. unfold nth_list in H. cbn [scaling_list_4x4 scaling_list_8x8] in H.
  f_equal; apply list_eq_same_length with (n := 6%nat); try done; intros j x y Hj Hx Hy.
  - specialize (H j ltac:(lia)). rewrite (proj2 (Nat.ltb_lt j 6)) in H by done. rewrite Hx, Hy in H. done.
  - specialize (H (6 + j)%nat ltac:(lia)). rewrite (proj2 (Nat.ltb_ge (6 + j) 6)) in H by lia.
    replace (6 + j - 6)%nat with j in H by lia. rewrite Hx, Hy in H. done.
Qed.

Definition fall_back_value (i : nat) (prev : list Z) : list Z :=
  match i with
  | 0 => kH264Default4x4Intra | 3 => kH264Default4x4Inter | 6 => kH264Default8x8Intra | 7 => kH264Default8x8Inter | _ => prev
  end%nat.
Lemma fall_back_set i m : (i < 8)%nat -> fall_back i m = set_list i (fall_back_value i (nth_list (i - 1) m)) m.
Proof. intros Hi. by do 8 (destruct i as [|i]; [done|]); lia. Qed.
Lemma fall_back_length i prev : (i < 8)%nat -> ((0 < i)%nat -> length prev = list_size (i - 1)) -> length (fall_back_value i prev) = list_size i.
Proof. intros Hi Hp. by do 8 (destruct i as [|i]; [first [done | by apply Hp; lia]|]); lia. Qed.

Lemma length_filled ss : forall i prev, length (filled_lists i prev ss) = length ss.
Proof. induction ss as [|s ss IH]; intros i prev; [done|]. cbn [filled_lists length]. by rewrite IH. Qed.
Lemma nth_put_lists ss : forall i m j, sized m -> (i + length ss <= 12)%nat -> (j < 12)%nat ->
  sized (put_lists i ss m) /\
  nth_list j (put_lists i ss m) =
    match ss !! (j - i)%nat with Some (GivenList vs) => if (i <=? j)%nat then raster (scan_of j) vs else nth_list j m | _ => nth_list j m end.
Proof.
  induction ss as [|s ss IH]; intros i m j Hm Hi Hj; [done|]. cbn [put_lists length] in *.
  destruct (IH (S i) (put_list i s m) j) as [Hs ->]; [apply sized_put; [done|lia]|lia|done|]. split; [done|].
  assert (nth_list j (put_list i s m) = match s with GivenList vs => if (i =? j)%nat then raster (scan_of i) vs else nth_list j m | _ => nth_list j m end) as E.
  { destruct s; [done..|]. cbn [put_list]. rewrite nth_set_list by (done || lia). done. }
  destruct (decide (i < j)%nat).
  - replace (j - i)%nat with (S (j - S i)) by lia. cbn [lookup list_lookup]. rewrite (proj2 (Nat.leb_le (S i) j)), (proj2 (Nat.leb_le i j)) by lia.
    destruct (ss !! (j - S i)%nat) as [[]|]; rewrite ?E; destruct s; rewrite ?(proj2 (Nat.eqb_neq i j)) by lia; done.
  - replace (j - S i)%nat with 0%nat by lia. replace (j - i)%nat with 0%nat by lia. cbn [lookup list_lookup].
    rewrite (proj2 (Nat.leb_gt (S i) j)) by lia. transitivity (nth_list j (put_list i s m)); [by destruct ss as [|[] ?]|].
    rewrite E. destruct s; [done..|]. destruct (Nat.eqb_spec i j) as [->|].
    + by rewrite (proj2 (Nat.leb_le j j)) by lia.
    + by rewrite (proj2 (Nat.leb_gt i j)) by lia.
Qed.

Lemma nth_resolve ss : forall i m prev, sized m -> (i + length ss <= 8)%nat ->
  ((0 < i)%nat -> prev = nth_list (i - 1) m) ->
  (forall k vs, ss !! k = Some (GivenList vs) -> nth_list (i + k) m = raster (scan_of (i + k)) vs) ->
  sized (resolve_lists (map is_given ss) i m) /\
  forall j, (j < 12)%nat -> nth_list j (resolve_lists (map is_given ss) i m) =
    if (i <=? j)%nat then default (nth_list j m) (filled_lists i prev ss !! (j - i)%nat) else nth_list j m.
Proof.
  induction ss as [|s ss IH]; intros i m prev Hm Hi Hp Hg.
  { split; [done|]. intros j Hj. by destruct (_ <=? _)%nat. }
  cbn [map resolve_lists filled_lists length] in *. set (v := match s with GivenList _ => _ | _ => _ end).
  set (m1 := if is_given s then m else fall_back i m).
  assert (m1 = set_list i v m) as E.
  { unfold m1, v. destruct s as [| |vs]; cbn [is_given].
    1-2: rewrite fall_back_set by lia; unfold fall_back_value; destruct i as [|i]; [done|]; by rewrite Hp by lia.
    specialize (Hg 0%nat vs eq_refl). rewrite Nat.add_0_r in Hg. rewrite <- Hg. by rewrite set_nth_list by (done || lia). }
  assert (length v = list_size i) as Hv.
  { unfold v. destruct s; [apply (fall_back_length i prev); [lia|]; intros; rewrite Hp by lia; apply length_nth; (done || lia)..|].
    rewrite length_raster. apply scan_perm. }
  assert (sized m1) as Hm1 by (rewrite E; apply sized_set; (done || lia)).
  destruct (IH (S i) m1 v) as [Hs Hj]; [done|lia| |..].
  { intros _. rewrite E. replace (S i - 1)%nat with i by lia. rewrite nth_set_list by (done || lia). by rewrite Nat.eqb_refl. }
  { intros k vs Hk. rewrite E, nth_set_list by (apply lookup_lt_Some in Hk; done || lia). rewrite (proj2 (Nat.eqb_neq i (S i + k))) by lia.
    replace (S i + k)%nat with (i + S k)%nat by lia. by apply Hg. }
  split; [done|]. intros j Hj12. rewrite Hj by done. rewrite E, nth_set_list by (done || lia).
  destruct (Nat.eqb_spec i j) as [->|Hne].
  - rewrite (proj2 (Nat.leb_gt (S j) j)), (proj2 (Nat.leb_le j j)), Nat.sub_diag by lia. done.
  - destruct (Nat.leb_spec i j).
    + rewrite (proj2 (Nat.leb_le (S i) j)) by lia. replace (j - i)%nat with (S (j - S i)) by lia. done.
    + by rewrite (proj2 (Nat.leb_gt (S i) j)) by lia.
Qed.

Lemma resolve_filled ss : length ss = 6%nat \/ length ss = 8%nat ->
  resolve_lists (map is_given ss) 0 (put_lists 0 ss zero_sm) =
  let ls := filled_lists 0 [] ss in MkSm (take 6 ls) (drop 6 ls ++ replicate (12 - length ss) (replicate 64 0)).
Proof.
  intros Hl. assert (length ss <= 8)%nat by lia.
  pose proof (fun j => nth_put_lists ss 0 zero_sm j sized_zero ltac:(lia)) as Hput.
  destruct (nth_resolve ss 0 (put_lists 0 ss zero_sm) []) as [(A & B & _) Hn]; [by apply (Hput 0%nat); lia|lia|lia| |].
  { intros k vs Hk. cbn [Nat.add]. destruct (Hput k) as [_ ->]; [apply lookup_lt_Some in Hk; lia|]. rewrite Nat.sub_0_r, Hk. done. }
  set (ls := filled_lists 0 [] ss) in *. assert (length ls = length ss) as Hls by apply length_filled. cbv zeta.
  apply mat_ext; [done|done| | |].
  - cbn [scaling_list_4x4]. rewrite length_take. lia.
  - cbn [scaling_list_8x8]. rewrite length_app, length_drop, length_replicate. lia.
  - intros j Hj. rewrite Hn by done. cbn [Nat.leb]. rewrite Nat.sub_0_r. unfold nth_list at 2. cbn [scaling_list_4x4 scaling_list_8x8].
    destruct (Nat.ltb_spec j 6).
    + rewrite lookup_take_lt by done. destruct (lookup_lt_is_Some_2 ls j) as [x ->]; [lia|done].
    + destruct (decide (j < length ss)%nat).
      * rewrite lookup_app_l, lookup_drop by (rewrite length_drop; lia). replace (6 + (j - 6))%nat with j by lia.
        destruct (lookup_lt_is_Some_2 ls j) as [x ->]; [lia|done].
      * rewrite lookup_app_r, lookup_replicate_2 by (rewrite ?length_drop; lia). rewrite lookup_ge_None_2 by lia. cbn [default from_option id].
        destruct (Hput j) as [_ ->]; [lia|]. rewrite Nat.sub_0_r, (lookup_ge_None_2 ss) by lia.
        by do 12 (destruct j as [|j]; [done || lia|]); lia.
Qed.

(** The flags before the extension. *)
Definition pps_base_flags (y : pps_syntax) : Z :=
  set_flag (y_redundant y) V4L2_H264_PPS_FLAG_REDUNDANT_PIC_CNT_PRESENT
    (set_flag (y_constrained y) V4L2_H264_PPS_FLAG_CONSTRAINED_INTRA_PRED
      (set_flag (y_deblocking y) V4L2_H264_PPS_FLAG_DEBLOCKING_FILTER_CONTROL_PRESENT
        (set_flag (y_weighted y) V4L2_H264_PPS_FLAG_WEIGHTED_PRED
          (set_flag (y_bottom y) V4L2_H264_PPS_FLAG_BOTTOM_FIELD_PIC_ORDER_IN_FRAME_PRESENT
            (set_flag (y_cabac y) V4L2_H264_PPS_FLAG_ENTROPY_CODING_MODE 0))))).
(** The PPS with these flags and second offset. *)
Definition pps_base (y : pps_syntax) (second w : Z) : v4l2_ctrl_h264_pps :=
  MkPps (y_pps_id y) (y_pps_sps y) 0 (y_l0 y) (y_l1 y) (y_bipred y) (y_qp y) (y_qs y) (y_chroma_offset y) second w.

Lemma parses_pps_middle y r o m : pps_ok y ->
  parses pps_middle (ue_bits (y_l0 y) ++ ue_bits (y_l1 y) ++ y_weighted y :: put 2 (y_bipred y) ++
      se_bits (y_qp y) ++ se_bits (y_qs y) ++ se_bits (y_chroma_offset y) ++ y_deblocking y :: y_constrained y :: y_redundant y :: r)
    (with_pps o m (MkPps (y_pps_id y) (y_pps_sps y) 0 0 0 0 0 0 0 0
      (set_flag (y_bottom y) V4L2_H264_PPS_FLAG_BOTTOM_FIELD_PIC_ORDER_IN_FRAME_PRESENT (set_flag (y_cabac y) V4L2_H264_PPS_FLAG_ENTROPY_CODING_MODE 0))))
    r (with_pps o m (pps_base y 0 (pps_base_flags y))) tt.
Proof.
  intros (H1 & H2 & H3 & H4 & H5 & H6 & H7 & H8 & H9). unfold pps_middle. bits.
  pstep. rewrite u8_ok by done. pps_step. pstep. rewrite u8_ok by done. pps_step. pstep. pps_step. pstep. pps_step.
  pstep. rewrite i8_ok by done. pps_step. pstep. rewrite i8_ok by done. pps_step. pstep. rewrite i8_ok by done. pps_step.
  pstep. pps_step. pstep. pps_step. pstep. pps_upd.
Qed.

Lemma parses_pps_scaling (t : bool) ls r o m p : Z.testbit (pps_flags p) 6 = t ->
  opt_ok (fun ss => length ss = (if t then 8%nat else 6%nat) /\ lists_ok 0 ss) ls ->
  parses pps_scaling (opt_bits sps_lists_bits ls ++ r) (with_pps o m p) r
    (with_pps o (match ls with None => m | Some ss => let l := filled_lists 0 [] ss in
        MkSm (take 6 l) (drop 6 l ++ replicate (12 - length ss) (replicate 64 0)) end)
      (p <| pps_flags ::= set_flag (bool_decide (is_Some ls)) V4L2_H264_PPS_FLAG_SCALING_MATRIX_PRESENT |>))
    (bool_decide (is_Some ls)).
Proof.
  intros Ht Hls. unfold pps_scaling. destruct ls as [ss|]; cbn [opt_bits app]; pstep.
  - rewrite (truth_of_b2z true). destruct Hls as [Hl Hs]. set (p1 := p <| pps_flags ::= _ |>).
    eapply rb_parses_bind; [by apply (on_pps_at _ _ _ _ p p1)|]. cbv beta.
    eapply rb_parses_bind; [by apply (parses_upd _ _ _ (with_pps o zero_sm p1))|]. cbv beta. pstep.
    replace (if Z.testbit _ 6 then 8%nat else 6%nat) with (length ss).
    2: { rewrite Hl, <- Ht. change (pps_flags (pps (with_pps o zero_sm p1))) with (Z.lor V4L2_H264_PPS_FLAG_SCALING_MATRIX_PRESENT (pps_flags p)).
         by rewrite Z.lor_spec. }
    assert (length ss <= 12)%nat by (destruct t; lia).
    eapply rb_parses_bind; [eapply parses_collect_lists; [apply sized_zero|done|exact Hs|reflexivity]|]. cbv beta.
    eapply rb_parses_bind; [apply parses_upd; reflexivity|]. cbv beta.
    rewrite <- resolve_filled by (destruct t; auto). apply rb_parses_ret.
  - rewrite (truth_of_b2z false). replace (with_pps o m (set_field _ _ _)) with (with_pps o m p); [apply rb_parses_ret|]. by destruct p.
Qed.

Lemma pps_flags_eq y : pps_flags (pps_of y) =
  match y_extension y with
  | None => pps_base_flags y
  | Some (t, ls, _) => set_flag (bool_decide (is_Some ls)) V4L2_H264_PPS_FLAG_SCALING_MATRIX_PRESENT
                         (set_flag t V4L2_H264_PPS_FLAG_TRANSFORM_8X8_MODE (pps_base_flags y))
  end.
Proof.
  unfold pps_of, pps_lists, pps_base_flags, set_flag, flags_of. cbn [pps_flags foldr fst snd].
  destruct (y_extension y) as [[[t ls] so]|]; cbn [from_option fst snd]; [generalize (bool_decide (is_Some ls))|generalize (y_cabac y)]; intros b.
  - by destruct b, t, (y_cabac y), (y_bottom y), (y_weighted y), (y_deblocking y), (y_constrained y), (y_redundant y).
  - by destruct b, (y_bottom y), (y_weighted y), (y_deblocking y), (y_constrained y), (y_redundant y).
Qed.
Lemma pps_transform_bit y t : Z.testbit (set_flag t V4L2_H264_PPS_FLAG_TRANSFORM_8X8_MODE (pps_base_flags y)) 6 = t.
Proof.
  unfold pps_base_flags, set_flag.
  by destruct t, (y_cabac y), (y_bottom y), (y_weighted y), (y_deblocking y), (y_constrained y), (y_redundant y).
Qed.

Lemma parses_pps y r o : pps_ok y -> trailing r ->
  parses parse_pps (pps_bits y ++ r) o r (o <| out_sm ::= pps_matrix y |> <| pps := pps_of y |>) (bool_decide (is_Some (pps_lists y))).
Proof.
  intros Hy [n ->]. pose proof Hy as (H1 & H2 & H3 & H4 & H5 & H6 & H7 & H8 & H9). unfold pps_bits, parse_pps. bits.
  eapply rb_parses_bind with (t1 := with_pps o (out_sm o) zero_pps); [apply parses_upd; by destruct o|]. unfold zero_pps. cbv beta.
  pstep. rewrite (u8_ok (y_pps_id y)) by done. pps_step. pstep. rewrite (u8_ok (y_pps_sps y)) by done. pps_step.
  pstep. pps_step. pstep. pps_step. pstep. change (u8 0) with 0. pps_step. cbn [Z.eqb negb].
  eapply rb_parses_bind; [by apply parses_pps_middle|]. cbv beta.
  eapply rb_parses_bind with (l1 := true :: replicate n false) (a := bool_decide (is_Some (pps_lists y))).
  2: { cbv beta. eapply rb_parses_bind; [unfold invalid_if_failed; pstep; pread|]. apply rb_parses_ret. }
  unfold pps_extension. eapply rb_parses_bind; [apply parses_more|]. cbv beta.
  assert (forall w, with_pps o (pps_matrix y (out_sm o)) (pps_base y (from_option snd (y_chroma_offset y) (y_extension y)) w) =
      o <| out_sm ::= pps_matrix y |> <| pps := pps_base y (from_option snd (y_chroma_offset y) (y_extension y)) w |>) as Ew by done.
  assert (pps_of y = pps_base y (from_option snd (y_chroma_offset y) (y_extension y)) (pps_flags (pps_of y))) as -> by done.
  rewrite <- Ew, pps_flags_eq. unfold pps_matrix, pps_lists.
  destruct (y_extension y) as [[[t ls] so]|]; cbn [from_option snd opt_ok fst] in *.
  - destruct H9 as [Hso Hls]. unfold extension_bits. cbn [fst snd]. bits.
    rewrite (app_assoc (opt_bits sps_lists_bits ls) (se_bits so)).
    change (t :: (opt_bits sps_lists_bits ls ++ se_bits so) ++ true :: replicate n false)
      with ((t :: (opt_bits sps_lists_bits ls ++ se_bits so)) ++ true :: replicate n false). rewrite more_before by done. bits.
    pstep. pps_step. eapply rb_parses_bind; [apply (parses_pps_scaling t); [apply pps_transform_bit|done]|]. cbv beta.
    eapply rb_parses_bind; [apply parses_more|]. cbv beta. rewrite more_before.
    2: { unfold se_bits, ue_bits. destruct (Z.to_nat _); done. }
    eapply rb_parses_bind; [eapply rb_parses_bind; [apply parses_se; ok|by apply on_pps_at]|]. rewrite i8_ok by done. apply rb_parses_ret.
  - cbn [app]. rewrite more_trailing. eapply rb_parses_bind; [by apply on_pps_at|]. apply rb_parses_ret.
Qed.

(** ** Slice header *)

(** A result with this slice and these decode parameters. *)
Definition with_hdr (o : H264ParseResult) (s : slice_params) (d : decode_params) : H264ParseResult := o <| slice := s |> <| decode := d |>.
Ltac hdr_fields := cbv beta iota delta [set_field header_bit_size first_mb_in_slice slice_type colour_plane_id redundant_pic_cnt
  num_ref_idx_l0_active_minus1 num_ref_idx_l1_active_minus1 slice_flags nal_ref_idc frame_num idr_pic_id pic_order_cnt_lsb
  delta_pic_order_cnt_bottom delta_pic_order_cnt0 delta_pic_order_cnt1 top_field_order_cnt bottom_field_order_cnt decode_flags].
Lemma on_slice_at f l o s s' d : f s = s' -> parses (on_slice f) l (with_hdr o s d) l (with_hdr o s' d) tt.
Proof. intros <-. by apply parses_upd. Qed.
Lemma on_decode_at f l o s d d' : f d = d' -> parses (on_decode f) l (with_hdr o s d) l (with_hdr o s d') tt.
Proof. intros <-. by apply parses_upd. Qed.
Ltac hdr_upd := first [eapply on_slice_at | eapply on_decode_at]; hdr_fields; reflexivity.
Ltac hdr_step := eapply rb_parses_bind; [hdr_upd|cbv beta].

Section slice_header.
Context (ref_idc nal_type : Z) (s : v4l2_ctrl_h264_sps) (p : v4l2_ctrl_h264_pps) (Hsets : sets_ok s p).

Lemma parses_field_width n v l (o : H264ParseResult) : 0 <= n <= 12 -> bits_ok (n + 4) v ->
  parses (rd_u (Z.to_nat (n + 4))) (put (Z.to_nat (n + 4)) v ++ l) o l o v.
Proof. intros Hn Hv. apply rb_parses_u; [by rewrite Z2Nat.id by lia|lia]. Qed.

Definition start_slice (z : slice_syntax) (sl : slice_params) : slice_params :=
  sl <| first_mb_in_slice := z_first_mb z |> <| slice_type := z_type z |>
     <| colour_plane_id := if sps_flag s V4L2_H264_SPS_FLAG_SEPARATE_COLOUR_PLANE then z_colour_plane z else colour_plane_id sl |>.
Definition start_decode (z : slice_syntax) (d : decode_params) : decode_params :=
  d <| frame_num := z_frame_num z |>
    <| decode_flags ::= fun w => set_flag (default false (z_field z)) DECODE_FLAG_BOTTOM_FIELD
         (set_flag (bool_decide (is_Some (z_field z))) DECODE_FLAG_FIELD_PIC w) |>.
Lemma parses_slice_field z r o sl d : slice_ok s p z ->
  parses (slice_field s) (field_bits s z ++ r) (with_hdr o sl d) r
    (with_hdr o sl (d <| decode_flags ::= fun w => set_flag (default false (z_field z)) DECODE_FLAG_BOTTOM_FIELD
         (set_flag (bool_decide (is_Some (z_field z))) DECODE_FLAG_FIELD_PIC w) |>)) (bool_decide (is_Some (z_field z))).
Proof.
  intros Hz. unfold slice_field, field_bits, only. pose proof (ok_field s p z Hz) as Hf.
  destruct (sps_flag s V4L2_H264_SPS_FLAG_FRAME_MBS_ONLY); cbn [negb].
  - rewrite Hf by done. replace (d <| decode_flags ::= _ |>) with d by (by destruct d). apply rb_parses_ret.
  - destruct (z_field z) as [b|]; cbn [opt_bits app]; pstep.
    + rewrite (truth_of_b2z true). unfold or_decode. eapply rb_parses_bind; [|apply rb_parses_ret]. cbn [when].
      eapply rb_parses_bind; [by apply on_decode_at|]. cbv beta. pstep. rewrite truth_of_b2z. apply parses_when.
      destruct b; [by apply on_decode_at|]. split; [done|]. by destruct d.
    + rewrite (truth_of_b2z false). eapply rb_parses_bind; [apply rb_parses_ret|]. cbv beta.
      replace (d <| decode_flags ::= _ |>) with d by (by destruct d). apply rb_parses_ret.
Qed.
Lemma parses_start z r o sl d : slice_ok s p z ->
  parses (slice_start s) (start_bits s z ++ r) (with_hdr o sl d) r (with_hdr o (start_slice z sl) (start_decode z d))
    (z_type z, bool_decide (is_Some (z_field z))).
Proof.
  intros Hz. pose proof Hz as [H1 H2 H3 H4 H5 _ _ _ _ _ _ _ _ _ _ _ _ _ _ _]. destruct Hsets as (Hs1 & _).
  unfold slice_start, start_bits. bits. pstep. eapply rb_parses_bind; [by apply on_slice_at|]. cbv beta zeta.
  eapply rb_parses_bind; [apply parses_ue; destruct (z_all_same z); unfold ue_ok; lia|]. cbv beta.
  replace (if 5 <=? z_type z + _ then _ else _) with (z_type z) by (destruct (z_all_same z); case_bool; lia).
  rewrite (proj2 (Z.ltb_ge 4 _)) by lia. eapply rb_parses_bind; [by apply on_slice_at|]. cbv beta. pstep.
  eapply rb_parses_bind.
  { apply parses_only with (t1 := with_hdr o (start_slice z sl) d); intros E.
    - pstep. apply on_slice_at. unfold start_slice. by rewrite E.
    - unfold start_slice. rewrite E. by destruct sl. }
  cbv beta. eapply rb_parses_bind; [by apply parses_field_width|]. cbv beta. rewrite (u16_ok _ (log2_max_frame_num_minus4 s + 4)) by (done || lia).
  eapply rb_parses_bind; [by apply on_decode_at|]. cbv beta. eapply rb_parses_bind; [by apply parses_slice_field|]. apply rb_parses_ret.
Qed.

Definition order_decode (z : slice_syntax) (d : decode_params) : decode_params :=
  let t := pic_order_cnt_type s in
  let one := (t =? 1) && negb (sps_flag s V4L2_H264_SPS_FLAG_DELTA_PIC_ORDER_ALWAYS_ZERO) in
  d <| pic_order_cnt_lsb := if t =? 0 then z_poc_lsb z else pic_order_cnt_lsb d |>
    <| delta_pic_order_cnt_bottom := if (t =? 0) && has_bottom p z then z_delta_bottom z else delta_pic_order_cnt_bottom d |>
    <| delta_pic_order_cnt0 := if one then z_delta0 z else delta_pic_order_cnt0 d |>
    <| delta_pic_order_cnt1 := if one && has_bottom p z then z_delta1 z else delta_pic_order_cnt1 d |>.
Lemma parses_order z r o sl d : slice_ok s p z ->
  parses (slice_poc s p (bool_decide (is_Some (z_field z)))) (order_bits s p z ++ r) (with_hdr o sl d) r (with_hdr o sl (order_decode z d)) tt.
Proof.
  intros [_ _ _ _ _ _ H1 H2 H3 H4 _ _ _ _ _ _ _ _ _ _]. destruct Hsets as (_ & Hs & _).
  unfold slice_poc, order_bits. fold (has_bottom p z). cbv zeta. destruct (Z.eqb_spec (pic_order_cnt_type s) 0) as [E|E]; bits.
  - eapply rb_parses_bind; [by apply parses_field_width|]. cbv beta. rewrite (u16_ok _ (log2_max_pic_order_cnt_lsb_minus4 s + 4)) by (done || lia).
    eapply rb_parses_bind; [by apply on_decode_at|]. cbv beta. unfold order_decode. rewrite E. cbn [Z.eqb andb].
    apply parses_only; intros ->; [pstep; apply on_decode_at; by destruct d|by destruct d].
  - unfold order_decode. rewrite (proj2 (Z.eqb_neq _ 0)) by done. cbn [andb].
    apply parses_only; intros ->; cbn [andb]; [|by destruct d]. bits. pstep. eapply rb_parses_bind; [by apply on_decode_at|]. cbv beta.
    apply parses_only; intros ->; [pstep; apply on_decode_at; by destruct d|by destruct d].
Qed.

(** ** The loops of the header *)

(** Appending up to a bound. *)
Lemma take_snoc {A} n (l : list A) m ms :
  (if (length l <? n)%nat then l ++ [m] else l) ++ take (n - length (if (length l <? n)%nat then l ++ [m] else l)) ms
  = l ++ take (n - length l) (m :: ms).
Proof.
  destruct (Nat.ltb_spec (length l) n) as [H|H].
  - rewrite length_app. replace (n - length l)%nat with (S (n - (length l + length [m]))) by (simpl; lia). by rewrite <- app_assoc.
  - replace (n - length l)%nat with 0%nat by lia. done.
Qed.

Lemma parses_rplm (push : H264RplmOp -> Par unit) (f : list H264RplmOp -> H264ParseResult) ms : forall fuel l r,
  (forall m l b, parses (push m) b (f l) b (f (if (length l <? 32)%nat then l ++ [m] else l)) tt) ->
  Forall (fun m => 0 <= m.1 <= 2 /\ ue_ok m.2) ms -> (length ms < fuel)%nat ->
  parses (rplm_loop fuel push) (modification_bits ms ++ r) (f l) r (f (add_rplm l (Some ms))) tt.
Proof.
  induction ms as [|m ms IH]; intros fuel l r Hp Hm Hf; (destruct fuel as [|fuel]; [simpl in Hf; lia|]); cbn [rplm_loop]; unfold modification_bits.
  - cbn [flat_map app]. pstep. unfold add_rplm, modifications. cbn [default from_option map]. rewrite firstn_nil, app_nil_r. apply rb_parses_ret.
  - apply Forall_cons in Hm as [[Hop Hv] Hm]. cbn [flat_map]. bits.
    eapply rb_parses_bind; [apply parses_ue; unfold ue_ok; lia|]. cbv beta. rewrite (proj2 (Z.eqb_neq _ 3)) by lia. pstep.
    eapply rb_parses_bind; [apply Hp|]. cbv beta.
    eapply rb_parses_bind; [apply parses_not_eof, app_not_nil, ue_not_nil|].
    cbv beta iota. rewrite app_assoc. specialize (IH fuel (if (length l <? 32)%nat then l ++ [MkRplm (u8 m.1) m.2] else l) r Hp Hm ltac:(simpl in Hf; lia)).
    replace (add_rplm l (Some (m :: ms))) with (add_rplm (if (length l <? 32)%nat then l ++ [MkRplm (u8 m.1) m.2] else l) (Some ms)); [exact IH|].
    unfold add_rplm, modifications. cbn [default from_option map]. rewrite u8_ok by (unfold bits_ok; lia). apply take_snoc.
Qed.
Lemma parses_modification (push : H264RplmOp -> Par unit) (f : list H264RplmOp -> H264ParseResult) ms l r :
  (forall m l b, parses (push m) b (f l) b (f (if (length l <? 32)%nat then l ++ [m] else l)) tt) -> modification_ok ms ->
  parses (run_rplm push) (modification_bits ms ++ r) (f l) r (f (add_rplm l (Some ms))) tt.
Proof.
  intros Hp Hm. apply parses_fuel. intros n Hn. apply parses_rplm; [done..|].
  unfold modification_bits in Hn. rewrite !length_app in Hn. assert (length ms <= length (flat_map (fun m => ue_bits m.1 ++ ue_bits m.2) ms))%nat.
  { apply length_flat. intros x. rewrite length_app. pose proof (length_ue x.1). lia. }
  lia.
Qed.

Lemma parses_arg (c : bool) v l (o : H264ParseResult) : (c = false -> v = 0) -> ue_ok v ->
  parses (if c then rd_ue else mret 0) (only c (ue_bits v) ++ l) o l o v.
Proof. intros Hc Hv. destruct c; cbn [only]; [by apply parses_ue|]. rewrite Hc by done. apply rb_parses_ret. Qed.
Definition mmco_args (m : H264Mmco) : list bool :=
  let op := mmco_op m in
  only ((op =? 1) || (op =? 3)) (ue_bits (difference_of_pic_nums_minus1 m)) ++
  only (op =? 2) (ue_bits (mmco_long_term_pic_num m)) ++ only ((op =? 3) || (op =? 6)) (ue_bits (long_term_frame_idx m)) ++
  only (op =? 4) (ue_bits (max_long_term_frame_idx_plus1 m)).
Lemma parses_read_mmco m r o : mmco_ok m -> parses (read_mmco (mmco_op m)) (mmco_args m ++ r) o r o m.
Proof.
  intros (H1 & H2 & H3 & H4 & H5 & E2 & E3 & E4 & E5). unfold read_mmco, mmco_args. cbv zeta. bits.
  do 4 (eapply rb_parses_bind; [by apply parses_arg|cbv beta]). destruct m. apply rb_parses_ret.
Qed.
Definition add_mmco (ms l : list H264Mmco) : list H264Mmco := l ++ take (H264_MAX_MMCO_OPS - length l) ms.
Lemma upd_mmco_ext f g (o : H264ParseResult) : f (mmco o) = g (mmco o) -> o <| mmco ::= f |> = o <| mmco ::= g |>.
Proof. unfold set_field. by intros ->. Qed.
Lemma upd_mmco_id f (o : H264ParseResult) : f (mmco o) = mmco o -> o <| mmco ::= f |> = o.
Proof. intros E. rewrite (upd_mmco_ext _ (fun l => l)) by done. by destruct o. Qed.
Lemma parses_mmco ms : forall fuel o r, Forall mmco_ok ms -> (length ms < fuel)%nat ->
  parses (mmco_loop fuel) (flat_map mmco_bits ms ++ ue_bits 0 ++ r) o r (o <| mmco ::= add_mmco ms |>) tt.
Proof.
  induction ms as [|m ms IH]; intros fuel o r Hm Hf; (destruct fuel as [|fuel]; [simpl in Hf; lia|]); cbn [mmco_loop flat_map app].
  - pstep. replace (o <| mmco ::= add_mmco [] |>) with o; [apply rb_parses_ret|].
    symmetry. apply upd_mmco_id. unfold add_mmco. by rewrite firstn_nil, app_nil_r.
  - apply Forall_cons in Hm as [Hm Hms]. pose proof Hm as (H1 & _). unfold mmco_bits at 1. fold (mmco_args m). bits.
    eapply rb_parses_bind; [apply parses_ue; unfold ue_ok; lia|]. cbv beta. rewrite (proj2 (Z.eqb_neq _ 0)) by lia.
    eapply rb_parses_bind; [apply parses_not_eof; repeat first [apply ue_not_nil|apply app_not_nil]|]. cbv beta.
    rewrite (proj2 (Z.ltb_ge 6 _)) by lia. cbn [orb]. eapply rb_parses_bind; [by apply parses_read_mmco|]. cbv beta.
    eapply rb_parses_bind; [apply parses_upd; reflexivity|]. cbv beta.
    replace (o <| mmco ::= add_mmco (m :: ms) |>) with
      ((if (length (mmco o) <? H264_MAX_MMCO_OPS)%nat then o <| mmco ::= fun l => l ++ [m] |> else o) <| mmco ::= add_mmco ms |>).
    + apply IH; [done|]. simpl in Hf. lia.
    + pose proof (take_snoc H264_MAX_MMCO_OPS (mmco o) m ms) as E. destruct (length (mmco o) <? H264_MAX_MMCO_OPS)%nat.
      * etrans; [|exact (upd_mmco_ext (fun l => add_mmco ms (l ++ [m])) (add_mmco (m :: ms)) o E)]. by destruct o.
      * by apply upd_mmco_ext.
Qed.

(** ** The rest of the header *)

Lemma parses_marking z r o : slice_ok s p z ->
  parses (slice_marking ref_idc nal_type) (marking_bits ref_idc nal_type z ++ r) o r (marking_of ref_idc nal_type z o) tt.
Proof.
  intros Hz. pose proof (ok_mmco s p z Hz) as Hm. unfold slice_marking, marking_bits, marking_of.
  destruct (Z.eqb_spec ref_idc 0); cbn [negb]; [by apply parses_only|]. cbn [only when].
  destruct (nal_type =? 5); bits.
  - pstep. eapply rb_parses_bind; [apply parses_upd; reflexivity|]. cbv beta. pstep. apply parses_upd. reflexivity.
  - destruct (z_mmco z) as [l|]; cbn [opt_bits app]; bits; pstep; (eapply rb_parses_bind; [apply parses_upd; reflexivity|]); cbv beta; rewrite truth_of_b2z; cbn [when].
    + apply parses_fuel. intros k Hk. apply parses_mmco; [done|]. rewrite !length_app in Hk. assert (length l <= length (flat_map mmco_bits l))%nat; [|lia].
      apply length_flat. intros x. unfold mmco_bits. rewrite length_app. pose proof (length_ue (mmco_op x)). lia.
    + replace (set_field mmco _ _) with (o <| adaptive_ref_pic_marking_mode_flag := 0 |>); [apply rb_parses_ret|].
      symmetry. apply (upd_mmco_id (add_mmco [])). unfold add_mmco. by rewrite firstn_nil, app_nil_r.
Qed.

Lemma parses_weight w r o : weight_ok w -> parses (skip_weight (has_chroma s)) (weight_bits s w ++ r) o r o tt.
Proof.
  intros [Hl Hc]. unfold skip_weight, weight_bits. bits. apply rb_parses_opt with (t1 := o).
  - intros x E. rewrite E in Hl. destruct Hl. bits. pstep. pread.
  - done.
  - apply parses_only; [|done]. intros _. apply parses_opt_last; [|done]. intros x E. rewrite E in Hc. destruct Hc as (? & ? & ? & ?). bits. do 3 pstep. pread.
Qed.
Lemma active_range z : slice_ok s p z -> bits_ok 8 (active0 p z) /\ bits_ok 8 (active1 p z).
Proof.
  intros Hz. pose proof (ok_override s p z Hz) as Ho. destruct Hsets as (_ & _ & H0 & H1). unfold active0, active1.
  destruct (is_inter z); [|by split]. destruct (z_override z) as [[a b]|]; [|done]. destruct Ho as [Ha Hb]. cbn in Ha, Hb. by destruct (is_b z).
Qed.
Lemma parses_weights z r o : slice_ok s p z -> num_ref_idx_l0_active_minus1 (slice o) = active0 p z -> num_ref_idx_l1_active_minus1 (slice o) = active1 p z ->
  parses (slice_weights s p (z_type z)) (weights_bits s p z ++ r) o r o tt.
Proof.
  intros Hz H0 H1. unfold slice_weights, weights_bits. apply parses_only; [|done]. intros Hw.
  destruct (active_range z Hz) as [[R0 _] [R1 _]], (ok_weights s p z Hz Hw) as [L0 L1], (ok_denominators s p z Hz) as [D0 D1]. cbv zeta. fold (has_chroma s). bits. pstep.
  eapply rb_parses_bind; [apply parses_only; [|done]; intros _; pread|]. cbv beta. pstep. rewrite H0, H1.
  replace (S (Z.to_nat (active0 p z))) with (length (z_weights0 z)) by lia. replace (S (Z.to_nat (active1 p z))) with (length (z_weights1 z)) by lia.
  eapply rb_parses_bind.
  - apply parses_times. intros w Hw2 l. apply parses_weight. pose proof (ok_weights0 s p z Hz) as Ha. rewrite Forall_forall in Ha. by apply Ha.
  - cbv beta. apply parses_only; [|done]. intros _. apply parses_times. intros w Hw2 l. apply parses_weight.
    pose proof (ok_weights1 s p z Hz) as Ha. rewrite Forall_forall in Ha. by apply Ha.
Qed.

Definition refs_slice (z : slice_syntax) (sl : slice_params) : slice_params :=
  sl <| slice_flags ::= set_flag (is_b z && z_direct z) 1 |>
     <| num_ref_idx_l0_active_minus1 := if is_inter z then active0 p z else num_ref_idx_l0_active_minus1 sl |>
     <| num_ref_idx_l1_active_minus1 := if is_inter z then
          match z_override z with
          | Some (_, b) => if is_b z then b else num_ref_idx_l1_active_minus1 sl
          | None => num_ref_idx_l1_default_active_minus1 p
          end else num_ref_idx_l1_active_minus1 sl |>.
Lemma parses_active z r o sl d : slice_ok s p z -> is_inter z = true ->
  parses (slice_active p (z_type z)) (active_bits z ++ r) (with_hdr o sl d) r
    (with_hdr o (sl <| num_ref_idx_l0_active_minus1 := active0 p z |>
                    <| num_ref_idx_l1_active_minus1 :=
                         match z_override z with
                         | Some (_, b) => if is_b z then b else num_ref_idx_l1_active_minus1 sl
                         | None => num_ref_idx_l1_default_active_minus1 p
                         end |>) d) tt.
Proof.
  intros Hz Hi. pose proof (ok_override s p z Hz) as Ho. unfold slice_active, active_bits, active0. rewrite Hi.
  destruct (z_override z) as [[a b]|]; cbn [opt_bits app fst snd opt_ok from_option] in *; pstep; rewrite truth_of_b2z.
  - destruct Ho as [Ha Hb]. bits. pstep. rewrite u8_ok by done. eapply rb_parses_bind; [by apply on_slice_at|]. cbv beta.
    apply parses_only; fold (is_b z); intros E; rewrite E; [pstep; rewrite u8_ok by done; by apply on_slice_at|by destruct sl].
  - by apply on_slice_at.
Qed.

Definition mods (z : slice_syntax) (o : H264ParseResult) : H264ParseResult :=
  let o := o <| ref_pic_list_modification_flag_l0 := Z.b2z (bool_decide (is_Some (z_modification0 z))) |>
             <| rplm_l0 ::= fun l => add_rplm l (z_modification0 z) |> in
  if is_b z then o <| ref_pic_list_modification_flag_l1 := Z.b2z (bool_decide (is_Some (z_modification1 z))) |>
                   <| rplm_l1 ::= fun l => add_rplm l (z_modification1 z) |> else o.
Lemma add_rplm_none l : add_rplm l None = l.
Proof. unfold add_rplm, modifications. cbn [default from_option map]. by rewrite firstn_nil, app_nil_r. Qed.
(** The modifications of one list, in a result [G] of its flag and its commands. *)
Lemma parses_mods (G : Z -> list H264RplmOp -> H264ParseResult) (set : Z -> H264ParseResult -> H264ParseResult) push l0 m r o :
  (forall v, set v o = G v l0) ->
  (forall v x l b, parses (push x) b (G v l) b (G v (if (length l <? 32)%nat then l ++ [x] else l)) tt) -> opt_ok modification_ok m ->
  parses (read_modification set push) (opt_bits modification_bits m ++ r) o r
    (G (Z.b2z (bool_decide (is_Some m))) (add_rplm l0 m)) tt.
Proof.
  intros Hs Hp Hm. destruct m as [l|]; cbn [opt_bits app]; (eapply rb_parses_bind; [apply parses_u1|]); cbv beta;
    (eapply rb_parses_bind; [apply parses_upd; symmetry; apply Hs|]); cbv beta; rewrite truth_of_b2z.
  - apply (parses_modification push (G 1)); [apply Hp|done].
  - rewrite add_rplm_none. apply rb_parses_ret.
Qed.
Lemma parses_modifications z r o : slice_ok s p z ->
  parses (slice_modification (z_type z))
    (opt_bits modification_bits (z_modification0 z) ++ only (is_b z) (opt_bits modification_bits (z_modification1 z)) ++ r) o r (mods z o) tt.
Proof.
  intros Hz. unfold slice_modification, mods. cbv zeta.
  set (G0 := fun v l => o <| ref_pic_list_modification_flag_l0 := v |> <| rplm_l0 := l |>).
  set (o1 := G0 (Z.b2z (bool_decide (is_Some (z_modification0 z)))) (add_rplm (rplm_l0 o) (z_modification0 z))).
  set (G1 := fun v l => o1 <| ref_pic_list_modification_flag_l1 := v |> <| rplm_l1 := l |>).
  set (o2 := G1 (Z.b2z (bool_decide (is_Some (z_modification1 z)))) (add_rplm (rplm_l1 o1) (z_modification1 z))).
  fold (is_b z). eapply rb_parses_bind with (t1 := o1).
  - unfold o1. apply parses_mods; [by destruct o| |apply (ok_mod0 s p z Hz)].
    intros v x l b. apply parses_upd. transitivity (if (length l <? 32)%nat then G0 v (l ++ [x]) else G0 v l); [by destruct (_ <? _)%nat|done].
  - cbv beta. change (parses (when (is_b z) (read_modification (fun f o => o <| ref_pic_list_modification_flag_l1 := f |>) push_rplm_l1))
      (only (is_b z) (opt_bits modification_bits (z_modification1 z)) ++ r) o1 r (if is_b z then o2 else o1) tt).
    apply parses_only; intros E; rewrite E; [|done]. unfold o2. apply parses_mods; [by destruct o| |apply (ok_mod1 s p z Hz)].
    intros v x l b. apply parses_upd. transitivity (if (length l <? 32)%nat then G1 v (l ++ [x]) else G1 v l); [by destruct (_ <? _)%nat|done].
Qed.

Lemma rb_parses_refs z r o sl d : slice_ok s p z ->
  parses (slice_refs p (z_type z)) (refs_bits z ++ r) (with_hdr o sl d) r
    (if is_inter z then mods z (with_hdr o (refs_slice z sl) d) else with_hdr o (refs_slice z sl) d) tt.
Proof.
  intros Hz. unfold slice_refs, refs_bits. bits. fold (is_b z). fold (is_inter z).
  set (sl1 := sl <| slice_flags ::= set_flag (is_b z && z_direct z) 1 |>).
  eapply rb_parses_bind with (t1 := with_hdr o sl1 d).
  { apply parses_only; intros E; unfold sl1; rewrite E; [|by destruct sl]. cbn [app andb]. pstep. rewrite truth_of_b2z. apply parses_when.
    destruct (z_direct z); [by apply on_slice_at|]. split; [done|by destruct sl]. }
  cbv beta. apply parses_only; intros E; rewrite E.
  - bits. eapply rb_parses_bind; [by apply parses_active|]. cbv beta. unfold refs_slice. rewrite E. fold sl1. apply parses_modifications. exact Hz.
  - unfold refs_slice, sl1. rewrite E. by destruct sl.
Qed.

(** The header fields after all parts are those the syntax says. *)
Definition slice_before_refs (z : slice_syntax) : slice_params :=
  (start_slice z zero_slice) <| redundant_pic_cnt := if pps_flag p V4L2_H264_PPS_FLAG_REDUNDANT_PIC_CNT_PRESENT then z_redundant z else 0 |>.
Lemma slice_eq z : refs_slice z (slice_before_refs z) = slice_of s p z.
Proof.
  unfold refs_slice, slice_before_refs, start_slice, slice_of, zero_slice, set_flag, active0, active1. hdr_fields.
  destruct (is_inter z), (z_override z) as [[a b]|], (is_b z), (z_direct z); reflexivity.
Qed.
Definition decode_start (z : slice_syntax) : decode_params :=
  (start_decode z (zero_decode <| nal_ref_idc := ref_idc |>))
    <| decode_flags ::= set_flag (nal_type =? 5) DECODE_FLAG_IDR_PIC |> <| idr_pic_id := if nal_type =? 5 then z_idr_pic_id z else 0 |>.
Lemma decode_eq z : order_decode z (decode_start z) = decode_of ref_idc nal_type s p z.
Proof.
  unfold order_decode, decode_start, start_decode, decode_of, zero_decode, set_flag, flags_of. hdr_fields. cbn [foldr fst snd].
  destruct (nal_type =? 5), (z_field z) as [[]|]; reflexivity.
Qed.

Lemma header_refs z o sl d : with_hdr o (refs_slice z sl) d = o <| slice := refs_slice z sl |> <| decode := d |>.
Proof. done. Qed.
Lemma mods_eq z o : refs_of z o = if is_inter z then mods z o else o.
Proof. done. Qed.
Lemma slice_mods z o : slice (mods z o) = slice o.
Proof. unfold mods. cbv zeta. by destruct (is_b z). Qed.

Lemma parses_slice z r o : slice_ok s p z ->
  parses (parse_slice_header ref_idc nal_type s p) (slice_bits ref_idc nal_type s p z ++ r) o r (header_of ref_idc nal_type s p z o) tt.
Proof.
  intros Hz. unfold parse_slice_header, slice_bits, header_of. bits.
  eapply rb_parses_bind with (t1 := with_hdr o zero_slice (zero_decode <| nal_ref_idc := ref_idc |>)); [by apply parses_upd|]. cbv beta.
  eapply rb_parses_bind; [by apply parses_start|]. cbv beta iota.
  eapply rb_parses_bind with (t1 := with_hdr o (start_slice z zero_slice) (decode_start z)).
  { apply parses_only; intros E; unfold decode_start; rewrite E; [|unfold start_decode; by hdr_fields].
    unfold or_decode. eapply rb_parses_bind; [by apply on_decode_at|]. cbv beta.
    eapply rb_parses_bind; [apply parses_ue; pose proof (ok_idr s p z Hz); ok|]. cbv beta. rewrite (u16_ok _ 16) by (apply (ok_idr s p z Hz) || lia). by apply on_decode_at. }
  cbv beta. eapply rb_parses_bind; [by apply parses_order|]. cbv beta. rewrite decode_eq.
  eapply rb_parses_bind with (t1 := with_hdr o (slice_before_refs z) (decode_of ref_idc nal_type s p z)).
  { apply parses_only; intros E; unfold slice_before_refs; rewrite E; [|by unfold start_slice; hdr_fields].
    pose proof (ok_redundant s p z Hz). pstep. rewrite u8_ok by done. by apply on_slice_at. }
  cbv beta. eapply rb_parses_bind; [by apply rb_parses_refs|]. cbv beta. rewrite slice_eq.
  rewrite <- mods_eq. set (o1 := refs_of z _).
  assert (slice o1 = slice_of s p z) as E1 by (unfold o1; rewrite mods_eq; destruct (is_inter z); [by rewrite slice_mods|done]).
  eapply rb_parses_bind; [apply parses_weights; [done|by rewrite E1..]|]. cbv beta.
  eapply rb_parses_bind; [by apply parses_marking|]. cbv beta. unfold invalid_if_failed. pstep. apply rb_parses_ret.
Qed.
End slice_header.
