(* ===== verification/H264Unit.v ===== *)
(** * The H.264 picture order count and access unit loop (mft/parser_glue.cpp)

    The three derivations of the picture order count in [int] arithmetic and
    [H264ParseAccessUnit]: the NAL units of one access unit fill in the result in turn,
    the state of the picture order count is staged and committed at the end. *)

From S2P Require Import Prelude Bits Rbsp H264Parser ByteStream RbspFacts H264Syntax H264ParserFacts.

(** ** Picture order count *)

(** The counts of the picture and the state behind it. *)
Definition h264_compute_poc_type0 (sps : v4l2_ctrl_h264_sps) (d : decode_params) (is_idr : bool) (ref_idc : Z)
    (st : poc_state) : option (decode_params * poc_state) :=
  MaxPicOrderCntLsb ← shl1 (log2_max_pic_order_cnt_lsb_minus4 sps + 4);
  let poc_lsb := pic_order_cnt_lsb d in
  let prev_msb := if is_idr then 0 else prev_pic_order_cnt_msb st in
  let prev_lsb := if is_idr then 0 else prev_pic_order_cnt_lsb st in
  poc_msb ← poc_msb_of MaxPicOrderCntLsb poc_lsb prev_lsb prev_msb;
  top ← int32 (poc_msb + poc_lsb);
  bottom ← int32 (top + delta_pic_order_cnt_bottom d);
  Some (d <| top_field_order_cnt := top |> <| bottom_field_order_cnt := bottom |>,
        if ref_idc =? 0 then st else st <| prev_pic_order_cnt_msb := poc_msb |> <| prev_pic_order_cnt_lsb := poc_lsb |>).

(** [FrameNumOffset] of types 1 and 2. *)
Definition frame_num_offset (sps : v4l2_ctrl_h264_sps) (d : decode_params) (is_idr : bool) (st : poc_state) : option Z :=
  MaxFrameNum ← shl1 (log2_max_frame_num_minus4 sps + 4);
  if is_idr then Some 0 else
  if frame_num d <? prev_frame_num st then int32 (prev_frame_num_offset st + MaxFrameNum) else Some (prev_frame_num_offset st).

(** [acc += offset_for_ref_frame[i]] for the first [n]. *)
Fixpoint add_offsets (l : list Z) (n : nat) (acc : Z) : option Z :=
  match n, l with
  | O, _ | _, [] => Some acc
  | S n, o :: l => acc ← int32 (acc + o); add_offsets l n acc
  end.
Definition expected_poc (sps : v4l2_ctrl_h264_sps) (abs_frame_num : Z) : option Z :=
  if 0 <? abs_frame_num then
    let n := num_ref_frames_in_pic_order_cnt_cycle sps in
    poc_cycle_len ← add_offsets (offset_for_ref_frame sps) (Z.to_nat n) 0;
    expected ← int32 (Z.quot (abs_frame_num - 1) n * poc_cycle_len);
    add_offsets (offset_for_ref_frame sps) (S (Z.to_nat (Z.rem (abs_frame_num - 1) n))) expected
  else Some 0.
Definition h264_compute_poc_type1 (sps : v4l2_ctrl_h264_sps) (d : decode_params) (is_idr : bool) (ref_idc : Z)
    (st : poc_state) : option (decode_params * poc_state) :=
  offset ← frame_num_offset sps d is_idr st;
  abs_frame_num ← (if negb (num_ref_frames_in_pic_order_cnt_cycle sps =? 0) then int32 (offset + frame_num d) else Some 0);
  let abs_frame_num := if (ref_idc =? 0) && (0 <? abs_frame_num) then abs_frame_num - 1 else abs_frame_num in
  expected ← expected_poc sps abs_frame_num;
  expected ← (if ref_idc =? 0 then int32 (expected + offset_for_non_ref_pic sps) else Some expected);
  top ← int32 (expected + delta_pic_order_cnt0 d);
  b ← int32 (top + offset_for_top_to_bottom_field sps);
  bottom ← int32 (b + delta_pic_order_cnt1 d);
  Some (d <| top_field_order_cnt := top |> <| bottom_field_order_cnt := bottom |>,
        st <| prev_frame_num := frame_num d |> <| prev_frame_num_offset := offset |>).

Definition h264_compute_poc_type2 (sps : v4l2_ctrl_h264_sps) (d : decode_params) (is_idr : bool) (ref_idc : Z)
    (st : poc_state) : option (decode_params * poc_state) :=
  offset ← frame_num_offset sps d is_idr st;
  poc ← (if is_idr then Some 0 else
         s ← int32 (offset + frame_num d); t ← int32 (2 * s);
         if ref_idc =? 0 then int32 (t - 1) else Some t);
  Some (d <| top_field_order_cnt := poc |> <| bottom_field_order_cnt := poc |>,
        st <| prev_frame_num := frame_num d |> <| prev_frame_num_offset := offset |>).

Definition compute_poc (sps : v4l2_ctrl_h264_sps) : decode_params -> bool -> Z -> poc_state -> option (decode_params * poc_state) :=
  if pic_order_cnt_type sps =? 0 then h264_compute_poc_type0 sps
  else if pic_order_cnt_type sps =? 1 then h264_compute_poc_type1 sps
  else h264_compute_poc_type2 sps.

(** ** The access unit *)

(** What is reset for every access unit. *)
Definition reset_unit (o : H264ParseResult) : H264ParseResult :=
  o <| decode := zero_decode |> <| slice := zero_slice |> <| has_slice := false |> <| slice_data := [] |>
    <| adaptive_ref_pic_marking_mode_flag := 0 |> <| idr_no_output_of_prior_pics_flag := 0 |>
    <| idr_long_term_reference_flag := 0 |> <| mmco := [] |>
    <| ref_pic_list_modification_flag_l0 := 0 |> <| ref_pic_list_modification_flag_l1 := 0 |>
    <| rplm_l0 := [] |> <| rplm_l1 := [] |>.

Definition use_matrix (p : v4l2_ctrl_h264_pps) : v4l2_ctrl_h264_pps :=
  p <| pps_flags ::= Z.lor V4L2_H264_PPS_FLAG_SCALING_MATRIX_PRESENT |>.
Definition take_sps (m : option scaling_matrix) (o : H264ParseResult) : H264ParseResult :=
  let o := o <| has_sps := true |> in
  match m with
  | Some m =>
      let o := o <| out_sm := m |> <| has_scaling_matrix := true |> in
      if has_pps o then o <| pps ::= use_matrix |> else o
  | None => o
  end.
Definition take_pps (has_scaling : bool) (o : H264ParseResult) : H264ParseResult :=
  let o := o <| has_pps := true |> in
  if has_scaling then o <| has_scaling_matrix := true |>
  else if has_scaling_matrix o then o <| pps ::= use_matrix |> else o.

(** The outcome of a unit: [None] is undefined behaviour, [inr] an early return. *)
Definition Unit : Type := option (H264ParseResult * (poc_state + Z)).

(** What follows the header of a slice: picture order count and slice data. *)
Definition finish_slice (payload : list Z) (ref_idc : Z) (br : BitReader) (o : H264ParseResult) (st : poc_state) : Unit :=
  let o := o <| has_slice := true |> in
  '(d, st) ← compute_poc (sps o) (decode o) (Z.testbit (decode_flags (decode o)) 0) ref_idc st;
  let o := o <| decode := d |> <| slice ::= fun s => s <| header_bit_size := u32 (Z.of_nat (bit_pos br)) |> |> in
  let data_off := ((bit_pos br + 7) / 8)%nat in
  if (length payload <? data_off)%nat then Some (o, inr H264_PARSE_INVALID) else
  Some (o <| slice_data := drop data_off payload |>, inl st).

(** One NAL unit: its first byte and its payload. *)
Definition parse_nal (nal_header : Z) (payload : list Z) (o : H264ParseResult) (st : poc_state) : Unit :=
  let ref_idc := Z.land (Z.shiftr nal_header 5) 3 in
  let nal_unit_type := Z.land nal_header 0x1f in
  if nal_unit_type =? 7 then
    '(_, o, r) ← parse_sps (br_init payload, o);
    match r with inl m => Some (take_sps m o, inl st) | inr e => Some (o, inr e) end
  else if nal_unit_type =? 8 then
    '(_, o, r) ← parse_pps (br_init payload, o);
    match r with inl b => Some (take_pps b o, inl st) | inr e => Some (o, inr e) end
  else if (nal_unit_type =? 1) || (nal_unit_type =? 5) then
    if negb (has_sps o) || negb (has_pps o) then Some (o, inr H264_PARSE_INVALID) else
    '(br, o, r) ← parse_slice_header ref_idc nal_unit_type (sps o) (pps o) (br_init payload, o);
    match r with inl _ => finish_slice payload ref_idc br o st | inr e => Some (o, inr e) end
  else Some (o, inl st).

(** A unit from its bytes; none are left when there is no room. *)
Definition parse_unit (rbsp : list Z) (o : H264ParseResult) (st : poc_state) : Unit :=
  match rbsp with
  | [] => Some (o, inr H264_PARSE_INVALID)
  | nal_header :: payload => parse_nal nal_header payload o st
  end.

Definition H264ParseAccessUnit (buf : list Z) (scratch_size : nat) (o : H264ParseResult) : option (H264ParseResult * Z) :=
  let o := reset_unit o in
  '(o, r) ← nal_loop parse_unit (S (length buf)) buf scratch_size 0 0 o (poc o);
  match r with
  | inr e => Some (o, e)
  | inl st =>
      if negb (has_slice o) then Some (o, if has_sps o && has_pps o then H264_PARSE_NEED_MORE else H264_PARSE_INVALID)
      else Some (o <| poc := st |>, H264_PARSE_OK)
  end.

(** * Access units and picture order counts of H.264

    A written access unit is parsed unit by unit ([unit_parsed]); the three derivations
    of the picture order count return the counts the encoder meant. *)

(** ** Written units *)

Inductive nal_syntax :=
| NalSps (y : sps_syntax)
| NalPps (y : pps_syntax)
| NalSlice (idr : bool) (ref_idc : Z) (z : slice_syntax) (data : list bool)
| NalOther (ref_idc nal_type : Z) (bits : list bool).

Definition slice_nal_type (idr : bool) : Z := if idr then 5 else 1.
(** The first byte and the payload; a slice is written with the parameter sets in force. *)
Definition nal_head (n : nal_syntax) : Z :=
  match n with
  | NalSps _ => 0x67 | NalPps _ => 0x68
  | NalSlice idr ref_idc _ _ => 32 * ref_idc + slice_nal_type idr
  | NalOther ref_idc t _ => 32 * ref_idc + t
  end.
Definition nal_payload (s : v4l2_ctrl_h264_sps) (p : v4l2_ctrl_h264_pps) (n : nal_syntax) : list Z :=
  rbsp match n with
       | NalSps y => sps_bits y
       | NalPps y => pps_bits y
       | NalSlice idr ref_idc z data => slice_bits ref_idc (slice_nal_type idr) s p z ++ data
       | NalOther _ _ bits => bits
       end.
Definition nal_syntax_ok (o : H264ParseResult) (n : nal_syntax) : Prop :=
  match n with
  | NalSps y => sps_ok y
  | NalPps y => pps_ok y
  | NalSlice idr ref_idc z _ =>
      0 <= ref_idc <= 3 /\ has_sps o = true /\ has_pps o = true /\ sets_ok (sps o) (pps o) /\ slice_ok (sps o) (pps o) z
  | NalOther ref_idc t _ => 0 <= ref_idc <= 3 /\ 0 <= t < 32 /\ t ∉ [1; 5; 7; 8]
  end.

(** What a unit does to the result and the staged picture order count state. *)
Definition nal_effect (n : nal_syntax) (o : H264ParseResult) (st : poc_state) : option (H264ParseResult * poc_state) :=
  match n with
  | NalSps y => Some (take_sps (sps_matrix y) (o <| sps := sps_of y |> <| vui ::= vui_of (y_vui y) |>), st)
  | NalPps y => Some (take_pps (bool_decide (is_Some (pps_lists y))) (o <| out_sm ::= pps_matrix y |> <| pps := pps_of y |>), st)
  | NalSlice idr ref_idc z data =>
      let bits := slice_bits ref_idc (slice_nal_type idr) (sps o) (pps o) z in
      let payload := nal_payload (sps o) (pps o) n in
      let o := (header_of ref_idc (slice_nal_type idr) (sps o) (pps o) z o) <| has_slice := true |> in
      '(d, st) ← compute_poc (sps o) (decode o) idr ref_idc st;
      Some (o <| decode := d |> <| slice ::= fun s => s <| header_bit_size := u32 (Z.of_nat (length bits)) |> |>
              <| slice_data := drop ((length bits + 7) / 8) payload |>, st)
  | NalOther _ _ _ => Some (o, st)
  end.

Lemma land_header r t : 0 <= r <= 3 -> 0 <= t < 32 -> Z.land (Z.shiftr (32 * r + t) 5) 3 = r /\ Z.land (32 * r + t) 0x1f = t.
Proof.
  intros Hr Ht. rewrite (Z.land_ones _ 2), (Z.land_ones _ 5), Z.shiftr_div_pow2 by lia. change (2 ^ 5) with 32. change (2 ^ 2) with 4. zdm.
Qed.

(** ** One unit *)

Lemma idr_flag ref_idc idr s p z : Z.testbit (decode_flags (decode_of ref_idc (slice_nal_type idr) s p z)) 0 = idr.
Proof. unfold decode_of, flags_of. cbn [decode_flags foldr fst snd]. by destruct idr, (z_field z) as [[]|]. Qed.
Lemma decode_header ref_idc t s p z o : decode (header_of ref_idc t s p z o) = decode_of ref_idc t s p z.
Proof.
  unfold header_of, marking_of, refs_of. cbv zeta. by destruct (ref_idc =? 0), (t =? 5), (is_inter z), (is_b z).
Qed.
Lemma sps_header ref_idc t s p z o : sps (header_of ref_idc t s p z o) = sps o /\ pps (header_of ref_idc t s p z o) = pps o.
Proof.
  unfold header_of, marking_of, refs_of. cbv zeta. by destruct (ref_idc =? 0), (t =? 5), (is_inter z), (is_b z).
Qed.

Lemma header_decode ref_idc t s p z o : decode ((header_of ref_idc t s p z o) <| has_slice := true |>) = decode_of ref_idc t s p z.
Proof. apply decode_header. Qed.
Lemma header_poc ref_idc t s p z o : compute_poc (sps ((header_of ref_idc t s p z o) <| has_slice := true |>)) = compute_poc (sps o).
Proof. f_equal. apply sps_header. Qed.

Lemma parse_nal_written n o st : nal_syntax_ok o n ->
  parse_unit (nal_head n :: nal_payload (sps o) (pps o) n) o st = ('(o', st') ← nal_effect n o st; Some (o', inl st')).
Proof.
  intros Hn. unfold parse_unit, parse_nal. destruct n as [y|y|idr ref_idc z data|ref_idc t bits]; unfold nal_payload; cbn [nal_syntax_ok nal_head nal_effect] in *.
  - change (Z.land 0x67 0x1f) with 7. cbv zeta. cbn [Z.eqb Pos.eqb].
    rewrite (run_payload _ _ _ _ _ _ _ (parses_sps y _ o Hn) (rbsp_bits _)). reflexivity.
  - change (Z.land 0x68 0x1f) with 8. cbv zeta. cbn [Z.eqb Pos.eqb].
    rewrite (run_payload _ _ _ _ _ _ _ (parses_pps y _ o Hn (ex_intro _ _ eq_refl)) (rbsp_bits _)). reflexivity.
  - destruct Hn as (Hr & Hs & Hp & Hsets & Hz). set (bits := slice_bits ref_idc (slice_nal_type idr) (sps o) (pps o) z).
    destruct (land_header ref_idc (slice_nal_type idr) Hr ltac:(destruct idr; cbn; lia)) as [-> ->].
    replace (slice_nal_type idr =? 7) with false by by destruct idr. replace (slice_nal_type idr =? 8) with false by by destruct idr.
    replace ((slice_nal_type idr =? 1) || (slice_nal_type idr =? 5)) with true by by destruct idr. rewrite Hs, Hp. cbn [negb orb].
    set (d := rbsp (bits ++ data)). pose proof (rbsp_bits (bits ++ data)) as Ed. rewrite <- app_assoc in Ed. fold d in Ed.
    rewrite (run_payload _ _ _ _ _ _ _ (parses_slice ref_idc (slice_nal_type idr) (sps o) (pps o) Hsets z _ o Hz) Ed). ostep. cbv beta iota.
    unfold finish_slice. cbv zeta.
    rewrite !header_poc, !header_decode, idr_flag.
    destruct (compute_poc (sps o) _ idr ref_idc st) as [[d' st']|]; [|done]. ostep. cbv beta iota.
    assert (8 * length d = length bits + length (data ++ true :: replicate (7 - length (bits ++ data) mod 8) false))%nat as Hl.
    { rewrite <- length_to_bits, Ed. apply length_app. }
    match goal with |- context [reader_at d ?x] => change (bit_pos (reader_at d x)) with (8 * length d - length x)%nat; replace (8 * length d - length x)%nat with (length bits) by lia end.
    destruct (Nat.ltb_spec (length d) ((length bits + 7) / 8)) as [H|H]; [|done]. exfalso.
    assert ((length bits + 7) / 8 <= length d)%nat; [|lia]. rewrite length_app in Hl. cbn [length] in Hl.
    pose proof (Nat.div_mod_eq (length bits + 7) 8). lia.
  - destruct Hn as (Hr & Ht & Hn). destruct (land_header ref_idc t Hr Ht) as [_ ->].
    assert (t <> 7 /\ t <> 8 /\ t <> 1 /\ t <> 5) as (H1 & H2 & H3 & H4) by set_solver.
    rewrite !(proj2 (Z.eqb_neq t _)) by done. reflexivity.
Qed.

(** ** The access unit *)

Definition nal_bytes (o : H264ParseResult) (n : nal_syntax) : list Z := nal_head n :: nal_payload (sps o) (pps o) n.
(** Each unit is written for the parameter sets before it. *)
Definition write_unit := write_units nal_bytes nal_effect.
Definition unit_effect := units_effect nal_effect.
Definition unit_ok := units_ok nal_effect nal_syntax_ok.

Lemma nal_bytes_ok n o : nal_syntax_ok o n -> Forall is_byte (nal_bytes o n).
Proof.
  intros Hn. constructor; [|apply rbsp_bytes]. unfold is_byte. destruct n as [?|?|[] r z ?|r t ?]; cbn [nal_syntax_ok nal_head slice_nal_type] in *; lia.
Qed.
Lemma nal_bytes_last n o : exists b, last (nal_bytes o n) = Some b /\ b <> 0.
Proof.
  unfold nal_bytes, nal_payload. match goal with |- context [rbsp ?b] => destruct (rbsp_last b) as (x & Hx & Hne) end.
  exists x. split; [|done]. destruct (rbsp _); [done|exact Hx].
Qed.

Lemma unit_written o nals size : let o0 := reset_unit o in
  unit_ok o0 (poc o) nals -> (length (stream (write_unit o0 (poc o) nals)) <= size)%nat ->
  H264ParseAccessUnit (stream (write_unit o0 (poc o) nals)) size o =
    ('(o', st) ← unit_effect o0 (poc o) nals;
     Some (if has_slice o' then (o' <| poc := st |>, H264_PARSE_OK)
           else (o', if has_sps o' && has_pps o' then H264_PARSE_NEED_MORE else H264_PARSE_INVALID))).
Proof.
  intros o0 Hok Hs. unfold H264ParseAccessUnit. cbv zeta. fold o0. change (poc o0) with (poc o).
  pose proof (nal_loop_written parse_unit nal_bytes nal_effect nal_syntax_ok parse_nal_written nal_bytes_ok nal_bytes_last
    nals [] (S (length (stream (write_unit o0 (poc o) nals)))) size 0 o0 (poc o) Hok) as E.
  cbn [app length] in E. unfold write_unit, unit_effect in *. rewrite E; [|pose proof (length_stream (write_units nal_bytes nal_effect o0 (poc o) nals)); lia|lia].
  destruct (units_effect nal_effect o0 (poc o) nals) as [[o' st]|]; [|done]. ostep. cbv beta iota. by destruct (has_slice o').
Qed.

(** ** Picture order counts *)

(** A picture as the encoder knows it: for type 0 its picture order count, for the other
    types its number since the last IDR picture, counted without wrapping. *)
Record picture := MkPicture { p_idr : bool; p_ref : Z; p_count : Z; p_delta0 : Z; p_delta1 : Z }.

Definition max_lsb (s : v4l2_ctrl_h264_sps) : Z := 2 ^ (log2_max_pic_order_cnt_lsb_minus4 s + 4).
Definition max_frame_num (s : v4l2_ctrl_h264_sps) : Z := 2 ^ (log2_max_frame_num_minus4 s + 4).
(** What its slice header says. *)
Definition sent (s : v4l2_ctrl_h264_sps) (x : picture) : decode_params :=
  zero_decode <| frame_num := p_count x mod max_frame_num s |> <| pic_order_cnt_lsb := p_count x mod max_lsb s |>
    <| delta_pic_order_cnt_bottom := p_delta1 x |> <| delta_pic_order_cnt0 := p_delta0 x |> <| delta_pic_order_cnt1 := p_delta1 x |>.
(** The counts the decoder finds for a sequence of pictures. *)
Fixpoint decoded_counts (s : v4l2_ctrl_h264_sps) (st : poc_state) (l : list picture) : option (list (Z * Z)) :=
  match l with
  | [] => Some []
  | x :: l =>
      '(d, st) ← compute_poc s (sent s x) (p_idr x) (p_ref x) st;
      r ← decoded_counts s st l;
      Some ((top_field_order_cnt d, bottom_field_order_cnt d) :: r)
  end.

(** The sum of the first [n] offsets of the repeated cycle. *)
Fixpoint cycle_sum (os : list Z) (n : nat) : Z :=
  match n with O => 0 | S n => cycle_sum os n + default 0 (os !! (n mod length os)%nat) end.
Definition cycle (s : v4l2_ctrl_h264_sps) : list Z := take (Z.to_nat (num_ref_frames_in_pic_order_cnt_cycle s)) (offset_for_ref_frame s).
(** The counts it has. *)
Definition true_counts (s : v4l2_ctrl_h264_sps) (x : picture) : Z * Z :=
  let non_ref := p_ref x =? 0 in
  if pic_order_cnt_type s =? 0 then (p_count x, p_count x + p_delta1 x)
  else if pic_order_cnt_type s =? 1 then
    let n := if num_ref_frames_in_pic_order_cnt_cycle s =? 0 then 0%nat else Z.to_nat (p_count x - Z.b2z non_ref) in
    let top := cycle_sum (cycle s) n + (if non_ref then offset_for_non_ref_pic s else 0) + p_delta0 x in
    (top, top + offset_for_top_to_bottom_field s + p_delta1 x)
  else let c := if p_idr x then 0 else 2 * p_count x - Z.b2z non_ref in (c, c).

(** Each picture within the reach of the one before it: half the range of the sent bits
    for type 0 (from the last reference picture), less than the range of [frame_num] for
    the others. *)
Fixpoint in_reach (s : v4l2_ctrl_h264_sps) (prev : Z) (l : list picture) : Prop :=
  match l with
  | [] => True
  | x :: l =>
      let prev0 := if p_idr x then 0 else prev in
      Z.abs (p_delta0 x) < 2 ^ 28 /\ Z.abs (p_delta1 x) < 2 ^ 28 /\
      if pic_order_cnt_type s =? 0 then
        - (max_lsb s / 2) < p_count x - prev0 <= max_lsb s / 2 /\ Z.abs (p_count x) < 2 ^ 28 /\
        in_reach s (if p_ref x =? 0 then prev else p_count x) l
      else
        (if p_idr x then p_count x = 0 /\ p_ref x <> 0 else prev <= p_count x < prev + max_frame_num s) /\
        0 <= p_count x < 2 ^ 20 /\ in_reach s (p_count x) l
  end.
Record poc_sps_ok (s : v4l2_ctrl_h264_sps) : Prop := {
  poc_ok_lsb : 0 <= log2_max_pic_order_cnt_lsb_minus4 s <= 12;
  poc_ok_frame : 0 <= log2_max_frame_num_minus4 s <= 12;
  poc_ok_type : 0 <= pic_order_cnt_type s;
  poc_ok_cycle : 0 <= num_ref_frames_in_pic_order_cnt_cycle s <= Z.of_nat (length (offset_for_ref_frame s));
  poc_ok_cycle_len : num_ref_frames_in_pic_order_cnt_cycle s <= 255;
  poc_ok_offsets : Forall (fun o => Z.abs o < 2 ^ 10) (offset_for_ref_frame s);
  poc_ok_nonref : Z.abs (offset_for_non_ref_pic s) < 2 ^ 28; poc_ok_bottom : Z.abs (offset_for_top_to_bottom_field s) < 2 ^ 28 }.
(** The state behind a picture [prev]. *)
Definition poc_at (s : v4l2_ctrl_h264_sps) (prev : Z) (st : poc_state) : Prop :=
  if pic_order_cnt_type s =? 0 then
    prev_pic_order_cnt_lsb st = prev mod max_lsb s /\ prev_pic_order_cnt_msb st = prev - prev mod max_lsb s
  else prev_frame_num st = prev mod max_frame_num s /\ prev_frame_num_offset st = prev - prev mod max_frame_num s.

(** The wrapped part of a number at most one wrap ahead. *)
Lemma offset_exact s d (idr : bool) st prev c : poc_sps_ok s -> (pic_order_cnt_type s =? 0) = false -> poc_at s prev st ->
  frame_num d = c mod max_frame_num s -> (if idr then c = 0 else prev <= c < prev + max_frame_num s) -> 0 <= c < 2 ^ 20 -> 0 <= prev ->
  frame_num_offset s d idr st = Some (c - c mod max_frame_num s).
Proof.
  intros Hs Ht Hst Hd Hc Hr Hp. unfold poc_at in Hst. rewrite Ht in Hst. destruct Hst as [H1 H2]. unfold frame_num_offset.
  rewrite shl1_pow by apply Hs. ostep. fold (max_frame_num s). rewrite Hd, H1, H2.
  assert (0 < max_frame_num s) as Hm by (apply Z.pow_pos_nonneg; [lia|pose proof (poc_ok_frame s Hs); lia]). set (m := max_frame_num s) in *.
  destruct idr; [subst c; f_equal; rewrite Z.mod_0_l; lia|].
  pose proof (Z.div_mod prev m ltac:(lia)) as Ep. pose proof (Z.div_mod c m ltac:(lia)) as Ec.
  pose proof (Z.mod_pos_bound prev m Hm) as Rp. pose proof (Z.mod_pos_bound c m Hm) as Rc.
  assert (c / m = prev / m \/ c / m = prev / m + 1) as Hq.
  { destruct (Z.lt_trichotomy (c / m) (prev / m)) as [Hlt|[Hlt|Hlt]]; [exfalso; nia|by left|right; nia]. }
  assert (m * (c / m) = m * (prev / m) \/ m * (c / m) = m * (prev / m) + m) as Hx by (destruct Hq as [->| ->]; [left|right]; ring).
  clear Hq. assert (0 <= m * (prev / m)) as H0 by (apply Z.mul_nonneg_nonneg; [lia|apply Z.div_pos; lia]).
  revert Ep Ec Hx Rp Rc H0. generalize (m * (c / m)), (m * (prev / m)), (c mod m), (prev mod m). intros qc qp rc rp. intros.
  destruct (Z.ltb_spec rc rp); rewrite ?int32_ok by lia; f_equal; lia.
Qed.

Fixpoint suml (l : list Z) : Z := match l with [] => 0 | o :: l => o + suml l end.
Lemma suml_bound l : Forall (fun o => Z.abs o < 2 ^ 10) l -> Z.abs (suml l) <= 2 ^ 10 * Z.of_nat (length l).
Proof. induction 1 as [|o l Ho Hl IH]; cbn [suml length]; lia. Qed.
Lemma add_offsets_sum l : forall k acc, Forall (fun o => Z.abs o < 2 ^ 10) l -> Z.abs acc + 2 ^ 10 * Z.of_nat k < 2 ^ 31 ->
  add_offsets l k acc = Some (acc + suml (take k l)).
Proof.
  induction l as [|o l IH]; intros [|k] acc Hl Hb; cbn [add_offsets take suml firstn]; try (f_equal; lia).
  apply Forall_cons in Hl as [Ho Hl]. rewrite int32_ok by lia. ostep. rewrite IH by (done || lia). f_equal. lia.
Qed.
Lemma suml_snoc l k : (k < length l)%nat -> suml (take (S k) l) = suml (take k l) + default 0 (l !! k).
Proof.
  revert k. induction l as [|o l IH]; intros k Hk; [simpl in Hk; lia|]. destruct k as [|k]; [by rewrite (firstn_cons 0), !firstn_O; cbn; rewrite Z.add_0_r|].
  simpl in Hk. rewrite (firstn_cons (S k)), (firstn_cons k). cbn [suml]. rewrite IH by lia. change ((o :: l) !! S k) with (l !! k). lia.
Qed.
Lemma cycle_sum_split os : (0 < length os)%nat -> forall q k, (k <= length os)%nat ->
  cycle_sum os (q * length os + k) = Z.of_nat q * suml os + suml (take k os).
Proof.
  intros Hl. assert (forall q k, (k <= length os)%nat -> cycle_sum os (q * length os) = Z.of_nat q * suml os ->
    cycle_sum os (q * length os + k) = Z.of_nat q * suml os + suml (take k os)) as Hk.
  { intros q k Hk Hq. induction k as [|k IH]; [rewrite Nat.add_0_r, Hq; simpl; lia|]. rewrite Nat.add_succ_r. cbn [cycle_sum].
    rewrite IH, suml_snoc by lia. replace ((q * length os + k) mod length os)%nat with k; [lia|].
    rewrite Nat.add_comm, Nat.Div0.mod_add. symmetry. apply Nat.mod_small. lia. }
  assert (forall q, cycle_sum os (q * length os) = Z.of_nat q * suml os) as Hq; [|intros q k H; by apply Hk].
  induction q as [|q IH]; [done|]. replace (S q * length os)%nat with (q * length os + length os)%nat by lia.
  rewrite (Hk q (length os)) by (done || lia). rewrite firstn_all. lia.
Qed.

Lemma expected_exact s n : poc_sps_ok s -> num_ref_frames_in_pic_order_cnt_cycle s <> 0 -> (Z.of_nat n < 2 ^ 20) ->
  expected_poc s (Z.of_nat n) = Some (cycle_sum (cycle s) n) /\ Z.abs (cycle_sum (cycle s) n) < 2 ^ 30.
Proof.
  intros Hs Hn Hb. destruct Hs as [_ _ _ Hc Hc2 Ho _ _]. unfold expected_poc. set (N := num_ref_frames_in_pic_order_cnt_cycle s) in *.
  assert (length (cycle s) = Z.to_nat N) as Hl by (unfold cycle; rewrite length_take; fold N; lia).
  assert (Forall (fun o => Z.abs o < 2 ^ 10) (cycle s)) as Hco by by apply Forall_take.
  destruct (Z.ltb_spec 0 (Z.of_nat n)) as [H0|H0]; [|replace n with 0%nat by lia; split; [done|cbn; lia]].
  rewrite Z.quot_div_nonneg, Z.rem_mod_nonneg by lia. set (q := (Z.of_nat n - 1) / N). set (r := (Z.of_nat n - 1) mod N).
  pose proof (Z.div_mod (Z.of_nat n - 1) N ltac:(lia)) as E. fold q r in E. pose proof (Z.mod_pos_bound (Z.of_nat n - 1) N ltac:(lia)) as Hr. fold r in Hr.
  assert (0 <= q) as Hq by (apply Z.div_pos; lia).
  assert (n = Z.to_nat q * length (cycle s) + S (Z.to_nat r))%nat as En by (rewrite Hl; nia).
  rewrite En. rewrite cycle_sum_split by lia.
  assert (suml (take (S (Z.to_nat r)) (cycle s)) = suml (take (S (Z.to_nat r)) (offset_for_ref_frame s))) as Et.
  { unfold cycle. fold N. rewrite take_take, Nat.min_l by lia. done. }
  pose proof (suml_bound _ Hco) as B1. rewrite Hl in B1.
  pose proof (suml_bound (take (S (Z.to_nat r)) (cycle s)) ltac:(by apply Forall_take)) as B2. rewrite length_take, Hl, Nat.min_l in B2 by lia.
  assert (Z.abs (q * suml (cycle s)) <= 2 ^ 10 * (q * N)) as B3 by (rewrite Z.abs_mul, (Z.abs_eq q) by lia; nia).
  assert (q * N + r < 2 ^ 20) as B4 by lia.
  rewrite add_offsets_sum by (done || lia). ostep. change (take (Z.to_nat N) (offset_for_ref_frame s)) with (cycle s). rewrite Z.add_0_l.
  rewrite int32_ok by lia. ostep. rewrite add_offsets_sum by (done || lia). rewrite Et, (Z2Nat.id q) by lia. split; [done|]. rewrite <- Et. lia.
Qed.

(** One picture: its counts, and the state for the next. *)
Definition step_exact (s : v4l2_ctrl_h264_sps) (x : picture) (st : poc_state) (next : Z) : Prop :=
  exists d st', compute_poc s (sent s x) (p_idr x) (p_ref x) st = Some (d, st') /\
    (top_field_order_cnt d, bottom_field_order_cnt d) = true_counts s x /\ poc_at s next st'.

Lemma max_lsb_range s : poc_sps_ok s -> 0 < max_lsb s <= 2 ^ 16 /\ max_lsb s mod 2 = 0.
Proof.
  intros [H _ _ _ _ _ _ _]. unfold max_lsb. split; [split; [apply Z.pow_pos_nonneg; lia|apply Z.pow_le_mono_r; lia]|].
  replace (log2_max_pic_order_cnt_lsb_minus4 s + 4) with (Z.succ (log2_max_pic_order_cnt_lsb_minus4 s + 3)) by lia.
  rewrite Z.pow_succ_r, Z.mul_comm by lia. apply Z.mod_mul. lia.
Qed.
Lemma step_type0 s x st prev : poc_sps_ok s -> pic_order_cnt_type s = 0 -> poc_at s prev st -> Z.abs prev < 2 ^ 28 ->
  Z.abs (p_delta1 x) < 2 ^ 28 -> Z.abs (p_count x) < 2 ^ 28 ->
  - (max_lsb s / 2) < p_count x - (if p_idr x then 0 else prev) <= max_lsb s / 2 ->
  step_exact s x st (if p_ref x =? 0 then prev else p_count x).
Proof.
  intros Hs Ht Hst Hp Hd Hc Hw. unfold step_exact, compute_poc, poc_at, true_counts in *. rewrite Ht in *. cbn [Z.eqb] in *.
  destruct (max_lsb_range s Hs) as [[Hm Hm16] Hm2]. unfold h264_compute_poc_type0. rewrite shl1_pow by apply Hs. ostep. fold (max_lsb s).
  change (pic_order_cnt_lsb (sent s x)) with (p_count x mod max_lsb s). change (delta_pic_order_cnt_bottom (sent s x)) with (p_delta1 x).
  destruct Hst as [H1 H2].
  assert (poc_msb_of (max_lsb s) (p_count x mod max_lsb s) (if p_idr x then 0 else prev_pic_order_cnt_lsb st) (if p_idr x then 0 else prev_pic_order_cnt_msb st)
    = Some (p_count x - p_count x mod max_lsb s)) as ->.
  { rewrite H1, H2. pose proof (poc_msb_exact (max_lsb s) (if p_idr x then 0 else prev) (p_count x) Hm Hm2 Hm16) as E.
    destruct (p_idr x); [rewrite Z.mod_0_l in E by lia|]; apply E; lia. }
  ostep. rewrite Z.sub_add. do 2 (rewrite int32_ok by lia; ostep). eexists _, _. split; [done|]. split; [done|].
  destruct (p_ref x =? 0); [by split|done].
Qed.

Lemma step_count s x st prev : poc_sps_ok s -> (pic_order_cnt_type s =? 0) = false -> poc_at s prev st -> 0 <= prev ->
  Z.abs (p_delta0 x) < 2 ^ 28 -> Z.abs (p_delta1 x) < 2 ^ 28 -> 0 <= p_count x < 2 ^ 20 ->
  (if p_idr x then p_count x = 0 /\ p_ref x <> 0 else prev <= p_count x < prev + max_frame_num s) ->
  step_exact s x st (p_count x).
Proof.
  intros Hs Ht Hst Hp Hd0 Hd1 Hc Hw. unfold step_exact, compute_poc, true_counts. rewrite Ht.
  pose proof (offset_exact s (sent s x) (p_idr x) st prev (p_count x) Hs Ht Hst eq_refl ltac:(destruct (p_idr x); lia) Hc Hp) as Eo.
  assert (poc_at s (p_count x) (st <| prev_frame_num := frame_num (sent s x) |> <| prev_frame_num_offset := p_count x - p_count x mod max_frame_num s |>)) as Hat
    by (unfold poc_at; by rewrite Ht).
  pose proof (poc_ok_nonref s Hs). pose proof (poc_ok_bottom s Hs). assert (0 <= Z.b2z (p_ref x =? 0) <= 1) by (destruct (p_ref x =? 0); simpl; lia).
  destruct (Z.eqb_spec (pic_order_cnt_type s) 1) as [E1|E1].
  - unfold h264_compute_poc_type1. rewrite Eo. ostep. change (frame_num (sent s x)) with (p_count x mod max_frame_num s). rewrite Z.sub_add.
    set (n := if num_ref_frames_in_pic_order_cnt_cycle s =? 0 then 0%nat else Z.to_nat (p_count x - Z.b2z (p_ref x =? 0))).
    assert (exists e, (a ← (if negb (num_ref_frames_in_pic_order_cnt_cycle s =? 0) then int32 (p_count x) else Some 0);
        let a := if (p_ref x =? 0) && (0 <? a) then a - 1 else a in expected_poc s a) = Some e /\ e = cycle_sum (cycle s) n /\ Z.abs e < 2 ^ 30) as (e & E & -> & Hb).
    { unfold n. destruct (Z.eqb_spec (num_ref_frames_in_pic_order_cnt_cycle s) 0) as [En|En]; cbn [negb].
      - exists 0. ostep. rewrite andb_false_r. by split.
      - rewrite int32_ok by lia. ostep. destruct (expected_exact s (Z.to_nat (p_count x - Z.b2z (p_ref x =? 0))) Hs En) as [He Hb]; [lia|].
        eexists. split; [|by split]. rewrite <- He. f_equal. destruct (p_ref x =? 0); cbn [andb Z.b2z]; [|lia].
        destruct (Z.ltb_spec 0 (p_count x)); lia. }
    destruct (if negb _ then int32 (p_count x) else Some 0) as [a|]; [|done]. ostep. cbv zeta in E. cbn [mbind option_bind] in E. rewrite E. ostep.
    assert ((if p_ref x =? 0 then int32 (cycle_sum (cycle s) n + offset_for_non_ref_pic s) else Some (cycle_sum (cycle s) n))
      = Some (cycle_sum (cycle s) n + (if p_ref x =? 0 then offset_for_non_ref_pic s else 0))) as ->.
    { destruct (p_ref x =? 0); [rewrite int32_ok by lia; done|f_equal; lia]. }
    ostep. change (delta_pic_order_cnt0 (sent s x)) with (p_delta0 x). change (delta_pic_order_cnt1 (sent s x)) with (p_delta1 x).
    assert (Z.abs (if p_ref x =? 0 then offset_for_non_ref_pic s else 0) < 2 ^ 28) by (destruct (p_ref x =? 0); lia).
    do 3 (rewrite int32_ok by lia; ostep). eexists _, _. split; [done|]. split; [done|]. exact Hat.
  - unfold h264_compute_poc_type2. rewrite Eo. ostep. change (frame_num (sent s x)) with (p_count x mod max_frame_num s) at 1. rewrite Z.sub_add.
    assert ((if p_idr x then Some 0 else t ← (s0 ← int32 (p_count x); int32 (2 * s0)); if p_ref x =? 0 then int32 (t - 1) else Some t)
      = Some (if p_idr x then 0 else 2 * p_count x - Z.b2z (p_ref x =? 0))) as E.
    { destruct (p_idr x); [done|]. rewrite int32_ok by lia. ostep. rewrite int32_ok by lia. ostep.
      destruct (p_ref x =? 0); [rewrite int32_ok by (cbn [Z.b2z]; lia); done|cbn [Z.b2z]; f_equal; lia]. }
    assert (forall f : Z -> option (decode_params * poc_state), (poc ← (if p_idr x then Some 0 else
       s0 ← int32 (p_count x); t ← int32 (2 * s0); if p_ref x =? 0 then int32 (t - 1) else Some t); f poc) = f (if p_idr x then 0 else 2 * p_count x - Z.b2z (p_ref x =? 0))) as ->.
    { intros f. replace (s0 ← int32 (p_count x); t ← int32 (2 * s0); if p_ref x =? 0 then int32 (t - 1) else Some t)
        with (t ← (s0 ← int32 (p_count x); int32 (2 * s0)); if p_ref x =? 0 then int32 (t - 1) else Some t) by by destruct (int32 (p_count x)).
      by rewrite E. }
    eexists _, _. split; [done|]. split; [done|]. exact Hat.
Qed.

Lemma counts_exact s l : poc_sps_ok s -> forall prev st, poc_at s prev st -> Z.abs prev < 2 ^ 28 ->
  ((pic_order_cnt_type s =? 0) = false -> 0 <= prev) -> in_reach s prev l ->
  decoded_counts s st l = Some (map (true_counts s) l).
Proof.
  intros Hs. induction l as [|x l IH]; intros prev st Hst Hp Hp0 Hr; [done|]. cbn [in_reach decoded_counts map] in *.
  destruct Hr as (Hd0 & Hd1 & Hr).
  assert (exists next, step_exact s x st next /\ Z.abs next < 2 ^ 28 /\ ((pic_order_cnt_type s =? 0) = false -> 0 <= next) /\ in_reach s next l) as (next & (d & st' & E & Ec & Hst') & Hn & Hn0 & Hl).
  { destruct (pic_order_cnt_type s =? 0) eqn:Et.
    - destruct Hr as (Hw & Hc & Hl). eexists. split; [apply step_type0; try done; by apply Z.eqb_eq|].
      split; [destruct (p_ref x =? 0); lia|]. by split.
    - destruct Hr as (Hw & Hc & Hl). exists (p_count x). split; [by apply (step_count s x st prev); auto|]. split; [lia|]. split; [lia|done]. }
  rewrite E. ostep. cbv beta iota. rewrite (IH next st') by done. ostep. by rewrite Ec.
Qed.
