(* ===== verification/H264Safe.v ===== *)
(** * The H.264 parser on arbitrary bytes

    Whatever the bytes are, every field of the result stays within the width of its C
    type, tables keep their sizes, the picture order count state changes only on
    success, and the loops end.  Undefined behaviour is left in two places: the sum of
    a scaling list delta, and the arithmetic of the picture order count. *)

From S2P Require Import Prelude Bits ByteStream Rbsp RbspFacts H264Parser H264Syntax H264ParserFacts H264Unit.

(** ** The types of the result *)

Record fits_sps (s : v4l2_ctrl_h264_sps) : Prop := {
  fs_profile : bits_ok 8 (profile_idc s); fs_constraints : bits_ok 8 (constraint_set_flags s); fs_level : bits_ok 8 (level_idc s);
  fs_id : bits_ok 8 (seq_parameter_set_id s); fs_chroma : bits_ok 8 (chroma_format_idc s);
  fs_luma : bits_ok 8 (bit_depth_luma_minus8 s); fs_depth : bits_ok 8 (bit_depth_chroma_minus8 s);
  fs_frame_num : bits_ok 8 (log2_max_frame_num_minus4 s); fs_type : bits_ok 8 (pic_order_cnt_type s);
  fs_lsb : bits_ok 8 (log2_max_pic_order_cnt_lsb_minus4 s); fs_refs : bits_ok 8 (max_num_ref_frames s);
  fs_cycle : bits_ok 8 (num_ref_frames_in_pic_order_cnt_cycle s);
  fs_offsets : length (offset_for_ref_frame s) = 255%nat /\ Forall int_ok (offset_for_ref_frame s);
  fs_non_ref : int_ok (offset_for_non_ref_pic s); fs_top : int_ok (offset_for_top_to_bottom_field s);
  fs_width : 0 <= pic_width_in_mbs_minus1 s <= 511; fs_height : 0 <= pic_height_in_map_units_minus1 s <= 511;
  fs_flags : bits_ok 7 (sps_flags s) }.
Record fits_pps (p : v4l2_ctrl_h264_pps) : Prop := {
  fp_id : bits_ok 8 (pic_parameter_set_id p); fp_sps : bits_ok 8 (pps_seq_parameter_set_id p);
  fp_groups : bits_ok 8 (num_slice_groups_minus1 p); fp_l0 : bits_ok 8 (num_ref_idx_l0_default_active_minus1 p);
  fp_l1 : bits_ok 8 (num_ref_idx_l1_default_active_minus1 p); fp_bipred : bits_ok 2 (weighted_bipred_idc p);
  fp_qp : offset_ok (pic_init_qp_minus26 p); fp_qs : offset_ok (pic_init_qs_minus26 p);
  fp_chroma : offset_ok (chroma_qp_index_offset p); fp_second : offset_ok (second_chroma_qp_index_offset p);
  fp_flags : bits_ok 8 (pps_flags p) }.
Definition fits_sm (m : scaling_matrix) : Prop :=
  sized m /\ Forall (Forall is_byte) (scaling_list_4x4 m) /\ Forall (Forall is_byte) (scaling_list_8x8 m).
Record fits_slice (s : slice_params) : Prop := {
  fl_header : bits_ok 32 (header_bit_size s); fl_first : bits_ok 32 (first_mb_in_slice s); fl_type : 0 <= slice_type s <= 4;
  fl_colour : bits_ok 2 (colour_plane_id s); fl_redundant : bits_ok 8 (redundant_pic_cnt s);
  fl_l0 : bits_ok 8 (num_ref_idx_l0_active_minus1 s); fl_l1 : bits_ok 8 (num_ref_idx_l1_active_minus1 s);
  fl_flags : bits_ok 1 (slice_flags s) }.
Record fits_decode (d : decode_params) : Prop := {
  fd_ref : bits_ok 2 (nal_ref_idc d); fd_frame_num : bits_ok 16 (frame_num d); fd_idr : bits_ok 16 (idr_pic_id d);
  fd_lsb : bits_ok 16 (pic_order_cnt_lsb d); fd_bottom : int_ok (delta_pic_order_cnt_bottom d);
  fd_delta0 : int_ok (delta_pic_order_cnt0 d); fd_delta1 : int_ok (delta_pic_order_cnt1 d);
  fd_top_count : int_ok (top_field_order_cnt d); fd_bottom_count : int_ok (bottom_field_order_cnt d);
  fd_flags : bits_ok 3 (decode_flags d) }.
Record fits_vui (v : vui_info) : Prop := {
  fv_reorder : bits_ok 1 (has_sps_vui_reorder v); fv_frames : 0 <= sps_vui_max_num_reorder_frames v <= 16;
  fv_colour : bits_ok 1 (has_vui_colour v); fv_range : bits_ok 1 (vui_full_range_flag v);
  fv_desc : bits_ok 1 (has_vui_colour_desc v); fv_primaries : bits_ok 8 (vui_colour_primaries v);
  fv_transfer : bits_ok 8 (vui_transfer_characteristics v); fv_matrix : bits_ok 8 (vui_matrix_coefficients v) }.
Definition fits_mmco (m : H264Mmco) : Prop :=
  1 <= mmco_op m <= 6 /\ bits_ok 32 (difference_of_pic_nums_minus1 m) /\ bits_ok 32 (mmco_long_term_pic_num m) /\
  bits_ok 32 (long_term_frame_idx m) /\ bits_ok 32 (max_long_term_frame_idx_plus1 m).
Definition fits_rplm (m : H264RplmOp) : Prop := bits_ok 8 (rplm_op m) /\ bits_ok 32 (rplm_value m).
Record fits (o : H264ParseResult) : Prop := {
  f_sps : fits_sps (sps o); f_pps : fits_pps (pps o); f_sm : fits_sm (out_sm o); f_slice : fits_slice (slice o);
  f_decode : fits_decode (decode o); f_vui : fits_vui (vui o); f_data : Forall is_byte (slice_data o);
  f_adaptive : bits_ok 1 (adaptive_ref_pic_marking_mode_flag o); f_no_output : bits_ok 1 (idr_no_output_of_prior_pics_flag o);
  f_long : bits_ok 1 (idr_long_term_reference_flag o);
  f_mmco : (length (mmco o) <= H264_MAX_MMCO_OPS)%nat /\ Forall fits_mmco (mmco o);
  f_flag0 : bits_ok 1 (ref_pic_list_modification_flag_l0 o); f_flag1 : bits_ok 1 (ref_pic_list_modification_flag_l1 o);
  f_rplm0 : (length (rplm_l0 o) <= 32)%nat /\ Forall fits_rplm (rplm_l0 o);
  f_rplm1 : (length (rplm_l1 o) <= 32)%nat /\ Forall fits_rplm (rplm_l1 o) }.

Ltac fit := first [assumption | by auto with rk | apply lor_fits; [by split|assumption] | by split | unfold bits_ok, int_ok, offset_ok in *; lia | case_bool; lia].


Lemma fits_zero_sps : fits_sps zero_sps.
Proof.
  assert (length (replicate 255 0) = 255%nat /\ Forall int_ok (replicate 255 0)) as H by (split; [done|apply Forall_replicate; by split]).
  unfold zero_sps. constructor; sps_fields; first [exact H | by split].
Qed.
Lemma fits_zero_pps : fits_pps zero_pps.
Proof. unfold zero_pps. constructor; pps_fields; by split. Qed.
Lemma fits_zero_slice : fits_slice zero_slice.
Proof. unfold zero_slice. constructor; hdr_fields; by split. Qed.
Lemma fits_zero_decode : fits_decode zero_decode.
Proof. unfold zero_decode. constructor; hdr_fields; by split. Qed.

(** ** Runs *)

Section runs.
Context (p0 : poc_state).
(** What every step keeps: the types, and the picture order count state. *)
Definition kept (o : H264ParseResult) : Prop := fits o /\ poc o = p0.
Context (trap : Prop).
#[local] Abbreviation keeps := (keeps trap kept).

Lemma kept_upd f (V : unit -> Prop) : (forall o, fits o -> fits (f o) /\ poc (f o) = poc o) -> V tt -> keeps (upd f) V.
Proof. intros Hf Hv. apply rb_keeps_upd; [|done]. intros o [Ho Hp]. destruct (Hf o Ho). split; [done|congruence]. Qed.
Lemma keeps_on_sps f : (forall s, fits_sps s -> fits_sps (f s)) -> keeps (on_sps f) (fun _ => True).
Proof. intros Hf. apply kept_upd; [|done]. intros o []. split; [|done]. constructor; try assumption. by apply Hf. Qed.
Lemma keeps_on_pps f : (forall s, fits_pps s -> fits_pps (f s)) -> keeps (on_pps f) (fun _ => True).
Proof. intros Hf. apply kept_upd; [|done]. intros o []. split; [|done]. constructor; try assumption. by apply Hf. Qed.
Lemma keeps_on_slice f : (forall s, fits_slice s -> fits_slice (f s)) -> keeps (on_slice f) (fun _ => True).
Proof. intros Hf. apply kept_upd; [|done]. intros o []. split; [|done]. constructor; try assumption. by apply Hf. Qed.
Lemma keeps_on_decode f : (forall s, fits_decode s -> fits_decode (f s)) -> keeps (on_decode f) (fun _ => True).
Proof. intros Hf. apply kept_upd; [|done]. intros o []. split; [|done]. constructor; try assumption. by apply Hf. Qed.
Lemma keeps_on_vui f : (forall s, fits_vui s -> fits_vui (f s)) -> keeps (on_vui f) (fun _ => True).
Proof. intros Hf. apply kept_upd; [|done]. intros o []. split; [|done]. constructor; try assumption. by apply Hf. Qed.

Ltac upd_sps := apply keeps_on_sps; intros ? []; constructor; sps_fields; fit.
Ltac upd_pps := apply keeps_on_pps; intros ? []; constructor; pps_fields; fit.
Ltac upd_hdr := first [apply keeps_on_slice | apply keeps_on_decode]; intros ? []; constructor; hdr_fields; fit.
Ltac upd_vui := apply keeps_on_vui; intros ? []; constructor;
  cbv beta iota delta [set_field has_sps_vui_reorder sps_vui_max_num_reorder_frames has_vui_colour vui_full_range_flag
    has_vui_colour_desc vui_colour_primaries vui_transfer_characteristics vui_matrix_coefficients]; fit.
Lemma keeps_sps_or b m : bits_ok 7 m -> keeps (sps_or b m) (fun _ => True).
Proof. intros Hm. apply keeps_when; [|done]. intros _. apply keeps_on_sps. intros ? []. constructor; sps_fields; first [assumption|by apply lor_fits]. Qed.
Lemma keeps_pps_or b m : bits_ok 8 m -> keeps (pps_or b m) (fun _ => True).
Proof. intros Hm. apply keeps_when; [|done]. intros _. apply keeps_on_pps. intros ? []. constructor; pps_fields; first [assumption|by apply lor_fits]. Qed.

(** A read of the monad. *)
Ltac kread := first [apply keeps_u1_bits | apply keeps_ue | apply keeps_se | (eapply keeps_u_bits; [lia|reflexivity]) | apply keeps_eof
  | apply keeps_more | apply keeps_failed | apply keeps_get | eapply keeps_skip; kread].
Ltac kstep := eapply keeps_bind; [first [kread | (apply keeps_sps_or; by split) | (apply keeps_pps_or; by split) | upd_sps | upd_pps | upd_hdr | upd_vui]|intros; cbv beta zeta in *].
Ltac kdone := first [kread | (apply keeps_sps_or; by split) | (apply keeps_pps_or; by split) | upd_sps | upd_pps | upd_hdr | upd_vui | by apply keeps_ret].
Ltac kcase := match goal with |- RbspFacts.keeps _ _ (if ?b then _ else _) _ => destruct b end.
(** Forget what is known of a value. *)
Lemma keeps_invalid : keeps invalid_if_failed (fun _ => True).
Proof. unfold invalid_if_failed. kstep. destruct a; [by apply keeps_stop|by apply keeps_ret]. Qed.

(** *** Scaling lists *)
Lemma keeps_loop zz : forall j ls ns lv l, trap -> 0 <= ls < 256 -> 0 <= ns < 256 -> is_byte lv -> Forall is_byte l ->
  keeps (scaling_loop zz j ls ns lv l) (fun r => Forall is_byte r.1 /\ length r.1 = length l).
Proof.
  induction zz as [|q zz IH]; intros j ls ns lv l Ht Hls Hns Hlv Hl; [by apply keeps_ret|]. cbn [scaling_loop].
  eapply keeps_bind with (V := fun v => 0 <= v < 256).
  { destruct (ns =? 0); [apply keeps_ret; lia|]. kstep. eapply keeps_bind with (V := fun _ => True).
    - apply keeps_need. by destruct (int32 _).
    - intros v _. apply keeps_ret. change 0xff with (Z.ones 8). rewrite Z.land_ones by done. apply Z.mod_pos_bound. done. }
  intros v Hv. destruct (_ && _); [by apply keeps_ret|]. assert (is_byte (if v =? 0 then lv else v)) as Hb by by destruct (v =? 0).
  eapply keeps_conseq; [apply IH; [done|by destruct (v =? 0)|done|done|]|].
  - by apply Forall_insert.
  - intros r [Hr1 Hr2]. split; [done|]. by rewrite Hr2, length_insert.
Qed.
Lemma fits_set_list i l m : fits_sm m -> (i < 12)%nat -> length l = list_size i -> Forall is_byte l -> fits_sm (set_list i l m).
Proof.
  intros (Hs & H4 & H8) Hi Hl Hb. split; [by apply sized_set|]. unfold set_list. destruct (i <? 6)%nat; split; try done; by apply Forall_insert.
Qed.
Lemma fits_nth i m : fits_sm m -> (i < 12)%nat -> Forall is_byte (nth_list i m).
Proof.
  intros (Hs & H4 & H8) Hi. unfold nth_list. rewrite Forall_forall in H4, H8.
  destruct (i <? 6)%nat; [destruct (scaling_list_4x4 m !! i) eqn:E|destruct (scaling_list_8x8 m !! (i - 6)%nat) eqn:E];
    cbn; try apply Forall_nil_2; [apply H4|apply H8]; by eapply list_elem_of_lookup_2.
Qed.
Lemma keeps_parse_list i m : trap -> fits_sm m -> (i < 12)%nat -> keeps (parse_list i m) (fun r => fits_sm r.1).
Proof.
  intros Ht Hm Hi. pose proof (length_nth i m (proj1 Hm) Hi) as Hl. pose proof (fits_nth i m Hm Hi) as Hb.
  unfold parse_list, nth_list, list_size, parse_scaling_list in *.
  assert (forall l d, Forall is_byte l -> length l = list_size i -> fits_sm (set_list i l m, d : bool).1) as Hset by (intros; by apply fits_set_list).
  unfold set_list, list_size in Hset.
  destruct (i <? 6)%nat; (eapply keeps_bind; [apply keeps_loop; (done || lia || by unfold is_byte)|]); intros [l d] [H1 H2]; cbn [fst] in H1, H2; apply keeps_ret; (apply (Hset l d); [done|congruence]).
Qed.

(** *** Parameter sets *)
Lemma keeps_hrd : keeps parse_hrd_parameters (fun _ => True).
Proof.
  unfold parse_hrd_parameters. kstep. kstep. kstep. eapply keeps_bind; [eapply keeps_times; kstep; kstep; kdone|]. intros. do 3 kstep. kdone.
Qed.
Lemma keeps_vui : keeps parse_vui_parameters (fun _ => True).
Proof.
  unfold parse_vui_parameters. kstep.
  eapply keeps_bind; [apply keeps_flagged; kstep; apply keeps_when; [intros _; kstep; kdone|done]|intros _ _].
  kstep. eapply keeps_bind; [apply keeps_when; [intros _; kdone|done]|intros _ _].
  eapply keeps_bind; [apply keeps_flagged; kstep; kstep; kstep; kstep; apply keeps_flagged; kstep; kstep; kstep; kdone|intros _ _].
  kstep. eapply keeps_bind; [apply keeps_when; [intros _; kstep; kdone|done]|intros _ _].
  kstep. eapply keeps_bind; [apply keeps_when; [intros _; kstep; kstep; kdone|done]|intros _ _].
  do 2 (kstep; eapply keeps_bind; [apply keeps_when; [intros _; apply keeps_hrd|done]|intros _ _]).
  eapply keeps_bind; [apply keeps_when; [intros _; kdone|done]|intros _ _]. kstep.
  apply keeps_flagged. do 7 kstep. upd_vui.
Qed.

Lemma keeps_zero_sps : keeps (upd (fun o => o <| vui ::= fun v => v <| has_sps_vui_reorder := 0 |> <| sps_vui_max_num_reorder_frames := 0 |> |> <| sps := zero_sps |>)) (fun _ => True).
Proof.
  apply kept_upd; [|done]. intros o []. split; [|done]. constructor; try assumption.
  - apply fits_zero_sps.
  - destruct f_vui0. constructor; try assumption; by split.
Qed.
Lemma keeps_sps_lists n : forall i m, trap -> fits_sm m -> (i + n <= 12)%nat -> keeps (sps_lists n i m) fits_sm.
Proof.
  induction n as [|n IH]; intros i m Ht Hm Hi; [by apply keeps_ret|]. cbn [sps_lists].
  eapply keeps_bind with (V := fits_sm); [|intros; apply IH; (done || lia)]. unfold sps_list. kstep. destruct (truth a); [|by apply keeps_ret].
  eapply keeps_bind; [apply keeps_parse_list; (done || lia)|]. intros. by apply keeps_ret.
Qed.
Lemma fits_zero_sm : fits_sm zero_sm.
Proof. split; [apply sized_zero|]. split; apply Forall_replicate, Forall_replicate; by unfold is_byte. Qed.
Definition fits_matrix (m : option scaling_matrix) : Prop := from_option fits_sm True m.
Lemma keeps_sps_high : trap -> keeps sps_high fits_matrix.
Proof.
  intros Ht. unfold sps_high. kstep. kstep. eapply keeps_bind; [apply keeps_when; [intros _; kstep; kdone|done]|intros _ _].
  do 6 kstep. unfold sps_scaling. kstep. destruct (truth _); [|by apply keeps_ret]. kstep.
  eapply keeps_bind; [apply keeps_sps_lists; [done|apply fits_zero_sm|destruct (_ =? 3); lia]|]. intros. by apply keeps_ret.
Qed.
Lemma keeps_sps_poc : keeps sps_poc (fun _ => True).
Proof.
  unfold sps_poc. kstep. kstep. destruct (_ =? 0); [kstep; kdone|]. destruct (_ =? 1); [|by apply keeps_ret].
  do 8 kstep. eapply keeps_skip. apply (keeps_collect _ _ _ _ (fun _ _ => True)). intros j Hj. unfold read_offset. kstep.
  apply keeps_on_sps. intros ? []. constructor; sps_fields; try fit. destruct fs_offsets0. split; [by rewrite length_insert|].
  apply Forall_insert; [done|fit].
Qed.
Lemma keeps_sps_size : keeps sps_size (fun _ => True).
Proof.
  unfold sps_size. kstep. kstep. unfold kMaxMbs. destruct (Z.ltb_spec 511 a), (Z.ltb_spec 511 a0); cbn [orb]; try by apply keeps_stop.
  apply keeps_on_sps. intros ? []. constructor; sps_fields; try fit; unfold u16; rewrite Z.mod_small; lia.
Qed.
Lemma keeps_sps_frame : keeps sps_frame (fun _ => True).
Proof.
  unfold sps_frame. kstep. kstep. eapply keeps_bind; [apply keeps_when; [intros _; kstep; kdone|done]|intros _ _].
  kstep. kstep. apply keeps_flagged. do 3 kstep. kdone.
Qed.
Lemma keeps_sps : trap -> keeps parse_sps fits_matrix.
Proof.
  intros Ht. unfold parse_sps. eapply keeps_bind; [apply keeps_zero_sps|intros _ _]. do 8 kstep.
  eapply keeps_bind with (V := fits_matrix).
  { destruct (high_profile _); [by apply keeps_sps_high|]. kstep. by apply keeps_ret. }
  intros m Hm. kstep. kstep. eapply keeps_bind; [apply keeps_sps_poc|intros _ _]. do 4 kstep.
  eapply keeps_bind; [apply keeps_sps_size|intros _ _]. eapply keeps_bind; [apply keeps_sps_frame|intros _ _].
  kstep. eapply keeps_bind; [apply keeps_when; [intros _; apply keeps_vui|done]|intros _ _].
  eapply keeps_bind; [apply keeps_invalid|intros _ _]. by apply keeps_ret.
Qed.

Lemma fits_resolve given : forall i m, fits_sm m -> (i + length given <= 8)%nat -> fits_sm (resolve_lists given i m).
Proof.
  induction given as [|g given IH]; intros i m Hm Hi; [done|]. cbn [resolve_lists length] in *. apply IH; [|lia].
  destruct g; [done|]. rewrite fall_back_set by lia. apply fits_set_list; [done|lia| |].
  - apply fall_back_length; [lia|]. intros. apply length_nth; [apply Hm|lia].
  - unfold fall_back_value. do 8 (destruct i as [|i]; [first [apply fits_nth; (done || lia) | repeat constructor; unfold is_byte; lia]|]). lia.
Qed.
Lemma keeps_pps_scaling : trap -> keeps pps_scaling (fun _ => True).
Proof.
  intros Ht. unfold pps_scaling. kstep. destruct (truth _); [|by apply keeps_ret]. kstep.
  eapply keeps_bind; [apply (kept_upd _ (fun _ => True)); [|done]; intros o []; split; [|done]; constructor; try assumption; apply fits_zero_sm|intros _ _].
  kstep. eapply keeps_bind.
  { apply (keeps_collect _ _ _ _ (fun _ _ => True)). intros j Hj. unfold pps_list. kstep. destruct (truth _); [|by apply keeps_ret].
    eapply keeps_bind; [apply keeps_get|]. intros o [Ho _].
    eapply keeps_bind; [apply keeps_parse_list; [done|apply Ho|destruct (Z.testbit _ 6); lia]|]. intros md Hmd.
    eapply keeps_bind; [apply (kept_upd _ (fun _ => True)); [|done]; intros o2 []; split; [|done]; constructor; try assumption; exact Hmd|intros _ _]. by apply keeps_ret. }
  intros given [Hg _]. eapply keeps_bind; [|intros; by apply keeps_ret].
  apply (kept_upd _ (fun _ => True)); [|done]. intros o2 []. split; [|done]. constructor; try assumption. apply fits_resolve; [done|]. rewrite Hg. destruct (Z.testbit _ 6); lia.
Qed.
Lemma keeps_pps : trap -> keeps parse_pps (fun _ => True).
Proof.
  intros Ht. unfold parse_pps. eapply keeps_bind; [apply (kept_upd _ (fun _ => True)); [|done]; intros o []; split; [|done]; constructor; try assumption; apply fits_zero_pps|intros _ _].
  do 10 kstep. destruct (negb _); [by apply keeps_stop|]. eapply keeps_bind; [unfold pps_middle; do 19 kstep; kdone|intros _ _].
  eapply keeps_bind with (V := fun _ => True); [|intros b _; eapply keeps_bind; [apply keeps_invalid|intros _ _]; by apply keeps_ret].
  unfold pps_extension, same_chroma_offset. kstep. kcase; [|kstep; by apply keeps_ret]. kstep. kstep.
  eapply keeps_bind; [by apply keeps_pps_scaling|]. intros h _. kstep. eapply keeps_bind; [kcase; [kstep; kdone|kdone]|]. intros _ _. by apply keeps_ret.
Qed.

(** *** Slice header: nothing in it is undefined *)
Lemma remaining_after r r' : after r r' -> (8 * length (data r') - bit_pos r' <= 8 * length (data r) - bit_pos r)%nat.
Proof. intros (-> & H & _). lia. Qed.

Lemma keeps_rplm push : (forall m, fits_rplm m -> keeps (push m) (fun _ => True)) -> forall fuel r t, wf r -> kept t ->
  (8 * length (data r) - bit_pos r < fuel)%nat ->
  match rplm_loop fuel push (r, t) with
  | None => trap | Some (r', t', o) => after r r' /\ kept t' /\ match o with inl _ => True | inr e => is_status e end
  end.
Proof.
  intros Hp. induction fuel as [|fuel IH]; intros r t Hw Ht Hf; [lia|]. cbn [rplm_loop]. unfold mbind, Rd_bind, rd_ue, reader. cbn [fst snd].
  destruct (br_ue_after r Hw) as (Ha & Hv & Hn). destruct (br_ue r) as [op r1]. cbn [fst snd] in *.
  destruct (op =? 3); [by split_and!|]. cbn [fst snd]. destruct (br_ue_after r1 (proj2 (proj2 Ha))) as (Ha1 & Hv1 & _).
  destruct (br_ue r1) as [val r2]. cbn [fst snd] in *. pose proof (after_trans _ _ _ Ha Ha1) as Ha2.
  specialize (Hp (MkRplm (u8 op) val) ltac:(split; [apply u8_fits|unfold bits_ok; cbn; lia]) r2 t (proj2 (proj2 Ha2)) Ht).
  destruct (push _ _) as [[[r3 t3] [[]|e]]|]; [| |exact Hp]; destruct Hp as (Ha3 & Ht3 & He); pose proof (after_trans _ _ _ Ha2 Ha3) as Ha4; [|by split_and!].
  cbn [rd_eof reader fst snd]. destruct (br_eof r3) eqn:E; [by split_and!|].
  assert (br_eof r = false) as Er.
  { unfold br_eof in *. apply Nat.leb_gt in E. apply Nat.leb_gt. destruct Ha4 as (E4 & L4 & _). rewrite E4 in E. lia. }
  specialize (Hn Er). pose proof (remaining_after _ _ (after_trans _ _ _ Ha1 Ha3)) as Hrem. destruct Ha as (Ed & _ & Hw1).
  unfold wf in Hw1. specialize (IH r3 t3 (proj2 (proj2 Ha4)) Ht3). unfold br_eof in Er. apply Nat.leb_gt in Er. rewrite Ed in *.
  specialize (IH ltac:(lia)). destruct (rplm_loop fuel push (r3, t3)) as [[[r4 t4] o]|]; [|done]. destruct IH as (Ha5 & ? & ?). split; [by eapply after_trans|done].
Qed.
Lemma keeps_run_rplm push : (forall m, fits_rplm m -> keeps (push m) (fun _ => True)) -> keeps (run_rplm push) (fun _ => True).
Proof. intros Hp r t Hw Ht. apply (keeps_rplm push Hp); [done..|]. cbn [fst]. unfold wf in Hw. lia. Qed.

Lemma keeps_push_mmco m : fits_mmco m -> keeps (push_mmco m) (fun _ => True).
Proof.
  intros Hm. apply kept_upd; [|done]. intros o Ho. destruct (Nat.ltb_spec (length (mmco o)) H264_MAX_MMCO_OPS) as [H|H]; [|done].
  destruct Ho. split; [|done]. constructor; try assumption. destruct f_mmco0 as [_ Hf]. split.
  - change (length (mmco o ++ [m]) <= H264_MAX_MMCO_OPS)%nat. rewrite length_app. cbn [length]. lia.
  - apply Forall_app. by split; [|constructor].
Qed.
Lemma keeps_read_mmco op : 1 <= op <= 6 -> keeps (read_mmco op) fits_mmco.
Proof.
  intros Hop. unfold read_mmco.
  assert (forall b : bool, keeps (if b then rd_ue else mret 0) (bits_ok 32)) as H.
  { intros []; [|by apply keeps_ret]. eapply keeps_conseq; [apply keeps_ue|]. unfold bits_ok. intros. lia. }
  do 4 (eapply keeps_bind; [apply H|intros ? ?]). apply keeps_ret. split; [exact Hop|]. do 3 (split; [assumption|]). assumption.
Qed.
Lemma keeps_mmco_reads : forall fuel r t, wf r -> kept t -> (8 * length (data r) - bit_pos r < fuel)%nat ->
  match mmco_loop fuel (r, t) with
  | None => trap | Some (r', t', o) => after r r' /\ kept t' /\ match o with inl _ => True | inr e => is_status e end
  end.
Proof.
  induction fuel as [|fuel IH]; intros r t Hw Ht Hf; [lia|]. cbn [mmco_loop]. unfold mbind, Rd_bind, rd_ue, rd_eof, reader. cbn [fst snd].
  destruct (br_ue_after r Hw) as (Ha & Hv & Hn). destruct (br_ue r) as [op r1]. cbn [fst snd] in *.
  destruct (Z.eqb_spec op 0); [exact (conj Ha (conj Ht I))|]. cbn [fst snd]. destruct (Z.ltb_spec 6 op); cbn [orb]; [exact (conj Ha (conj Ht I))|].
  destruct (br_eof r1) eqn:E; [exact (conj Ha (conj Ht I))|].
  assert (br_eof r = false) as Er.
  { unfold br_eof in *. apply Nat.leb_gt in E. apply Nat.leb_gt. destruct Ha as (E4 & L4 & _). rewrite E4 in E. lia. }
  specialize (Hn Er).
  pose proof (keeps_bind trap kept (read_mmco op) push_mmco _ _ (keeps_read_mmco op ltac:(lia)) keeps_push_mmco r1 t (proj2 (proj2 Ha)) Ht) as Hb.
  unfold mbind, Rd_bind in Hb. destruct (read_mmco op (r1, t)) as [[[r2 t2] [m|e]]|]; [| |exact Hb].
  2: { destruct Hb as (? & ? & ?). split; [by eapply after_trans|done]. }
  destruct (push_mmco m (r2, t2)) as [[[r3 t3] [[]|e]]|]; [| |exact Hb]; destruct Hb as (Ha3 & Ht3 & He); pose proof (after_trans _ _ _ Ha Ha3) as Ha4; [|by split_and!].
  pose proof (remaining_after _ _ Ha3) as Hrem. destruct Ha as (Ed & _ & Hw1). unfold wf in Hw1. unfold br_eof in Er. apply Nat.leb_gt in Er. rewrite Ed in *.
  specialize (IH r3 t3 (proj2 (proj2 Ha4)) Ht3 ltac:(lia)). destruct (mmco_loop fuel (r3, t3)) as [[[r4 t4] o]|]; [|done].
  destruct IH as (Ha5 & ? & ?). split; [by eapply after_trans|done].
Qed.

Lemma keeps_push_rplm0 m : fits_rplm m -> keeps (push_rplm_l0 m) (fun _ => True).
Proof.
  intros Hm. apply kept_upd; [|done]. intros o Ho. destruct (Nat.ltb_spec (length (rplm_l0 o)) 32) as [H|H]; [|done].
  pose proof (f_rplm0 o Ho) as [_ Hf]. destruct Ho. split; [|done]. constructor; try assumption. split.
  - change (length (rplm_l0 o ++ [m]) <= 32)%nat. rewrite length_app. cbn [length]. lia.
  - apply Forall_app. by split; [|constructor].
Qed.
Lemma keeps_push_rplm1 m : fits_rplm m -> keeps (push_rplm_l1 m) (fun _ => True).
Proof.
  intros Hm. apply kept_upd; [|done]. intros o Ho. destruct (Nat.ltb_spec (length (rplm_l1 o)) 32) as [H|H]; [|done].
  pose proof (f_rplm1 o Ho) as [_ Hf]. destruct Ho. split; [|done]. constructor; try assumption. split.
  - change (length (rplm_l1 o ++ [m]) <= 32)%nat. rewrite length_app. cbn [length]. lia.
  - apply Forall_app. by split; [|constructor].
Qed.

Lemma keeps_slice_refs p st : fits_pps p -> keeps (slice_refs p st) (fun _ => True).
Proof.
  intros Hp. destruct Hp. unfold slice_refs. eapply keeps_bind with (V := fun _ => True).
  { apply keeps_when; [intros _|done]. kstep. apply keeps_when; [intros _|done]. upd_hdr. }
  intros _ _. apply keeps_when; [intros _|done]. eapply keeps_bind with (V := fun _ => True).
  - unfold slice_active. kstep. kcase.
    + kstep. kstep. apply keeps_when; [intros _; kstep; kdone|done].
    + upd_hdr.
  - intros _ _. unfold slice_modification, read_modification.
    assert (forall f o, bits_ok 1 f -> fits o -> fits (o <| ref_pic_list_modification_flag_l0 := f |>) /\ poc (o <| ref_pic_list_modification_flag_l0 := f |>) = poc o) as H0
      by (intros f o Hf []; split; [by constructor|done]).
    assert (forall f o, bits_ok 1 f -> fits o -> fits (o <| ref_pic_list_modification_flag_l1 := f |>) /\ poc (o <| ref_pic_list_modification_flag_l1 := f |>) = poc o) as H1
      by (intros f o Hf []; split; [by constructor|done]).
    eapply keeps_bind with (V := fun _ => True); [|intros _ _; apply keeps_when; [intros _|done]]; kstep;
      (eapply keeps_bind; [apply (kept_upd _ (fun _ => True)); [|done]; intros; by (apply H0 || apply H1)|intros _ _]); (apply keeps_when; [intros _|done]).
    + apply keeps_run_rplm, keeps_push_rplm0.
    + apply keeps_run_rplm, keeps_push_rplm1.
Qed.
Lemma keeps_slice_weights s p st : keeps (slice_weights s p st) (fun _ => True).
Proof.
  unfold slice_weights. apply keeps_when; [intros _|done]. cbv zeta. kstep. eapply keeps_bind; [apply keeps_when; [intros _; kdone|done]|intros _ _].
  kstep. assert (forall c, keeps (skip_weight c) (fun _ => True)) as Hsk.
  { intros c. unfold skip_weight. kstep. eapply keeps_bind; [apply keeps_when; [intros _; kstep; kdone|done]|intros _ _].
    apply keeps_when; [intros _|done]. apply keeps_flagged. do 3 kstep. kdone. }
  eapply keeps_bind; [eapply keeps_times; apply Hsk|intros _ _]. apply keeps_when; [intros _|done]. eapply keeps_times; apply Hsk.
Qed.
Lemma keeps_slice_marking r t : keeps (slice_marking r t) (fun _ => True).
Proof.
  unfold slice_marking. apply keeps_when; [intros _|done]. kcase.
  - kstep. eapply keeps_bind; [apply (kept_upd _ (fun _ => True)); [|done]; intros o []; split; [by constructor|done]|intros _ _]. kstep.
    apply kept_upd; [|done]. intros o []; split; [by constructor|done].
  - kstep. eapply keeps_bind; [apply (kept_upd _ (fun _ => True)); [|done]; intros o []; split; [by constructor|done]|intros _ _].
    apply keeps_when; [intros _|done]. intros b o Hw Ho. apply keeps_mmco_reads; [done..|]. cbn [fst]. unfold wf in Hw. lia.
Qed.

Lemma keeps_slice ref_idc t s p : bits_ok 2 ref_idc -> fits_pps p -> keeps (parse_slice_header ref_idc t s p) (fun _ => True).
Proof.
  intros Hr Hp. unfold parse_slice_header.
  assert (fits_decode (zero_decode <| nal_ref_idc := ref_idc |>)) as Hd by (destruct fits_zero_decode; constructor; hdr_fields; assumption).
  eapply keeps_bind; [apply (kept_upd _ (fun _ => True)); [|done]; intros o []; split; [constructor; try assumption; apply fits_zero_slice|done]|intros _ _].
  eapply keeps_bind with (V := fun _ => True).
  { unfold slice_start. kstep. kstep. kstep. destruct (Z.ltb_spec 4 (if 5 <=? a1 then a1 - 5 else a1)); [by apply keeps_stop|].
    eapply keeps_bind; [apply keeps_on_slice; intros ? []; constructor; hdr_fields; try fit; destruct (Z.leb_spec 5 a1); lia|intros _ _].
    kstep. eapply keeps_bind; [apply keeps_when; [intros _; kstep; kdone|done]|intros _ _].
    eapply keeps_bind; [apply keeps_u_any|intros n Hn]. kstep.
    eapply keeps_bind with (V := fun _ => True); [|intros; by apply keeps_ret].
    unfold slice_field. kcase; [|by apply keeps_ret]. kstep. eapply keeps_bind; [|intros; by apply keeps_ret].
    unfold or_decode. apply (keeps_when _ _ _ _ (fun _ => True)); [intros _|done]. kstep. kstep. apply keeps_when; [intros _|done]. upd_hdr. }
  intros [st field] _. eapply keeps_bind; [apply keeps_when; [intros _; unfold or_decode; kstep; kstep; kdone|done]|intros _ _].
  eapply keeps_bind with (V := fun _ => True).
  { unfold slice_poc. cbv zeta. kcase.
    - eapply keeps_bind; [apply keeps_u_any|intros n Hn]. kstep. apply keeps_when; [intros _; kstep; kdone|done].
    - apply keeps_when; [intros _|done]. kstep. kstep. apply keeps_when; [intros _; kstep; kdone|done]. }
  intros _ _. eapply keeps_bind; [apply keeps_when; [intros _; kstep; kdone|done]|intros _ _].
  eapply keeps_bind; [by apply keeps_slice_refs|intros _ _]. eapply keeps_bind; [apply keeps_slice_weights|intros _ _].
  eapply keeps_bind; [apply keeps_slice_marking|intros _ _]. apply keeps_invalid.
Qed.
End runs.

(** ** Units *)

Definition int_poc (st : poc_state) : Prop :=
  int_ok (prev_pic_order_cnt_msb st) /\ int_ok (prev_pic_order_cnt_lsb st) /\ int_ok (prev_frame_num st) /\ int_ok (prev_frame_num_offset st).

Lemma int32_range x y : int32 x = Some y -> int_ok y.
Proof.
  unfold int32. destruct (Z.leb_spec (-2 ^ 31) x), (Z.ltb_spec x (2 ^ 31)); cbn [andb]; intros [=<-] || done. by split.
Qed.
Lemma poc_fits s d idr r st d' st' : fits_decode d -> int_poc st -> compute_poc s d idr r st = Some (d', st') -> fits_decode d' /\ int_poc st'.
Proof.
  intros Hd (I1 & I2 & I3 & I4) E.
  assert (forall t b, int_ok t -> int_ok b -> fits_decode (d <| top_field_order_cnt := t |> <| bottom_field_order_cnt := b |>)) as Hf
    by (intros t b Ht Hb; destruct Hd; constructor; hdr_fields; assumption).
  assert (int_ok (pic_order_cnt_lsb d)) as Hl by (destruct Hd; unfold int_ok, bits_ok in *; lia).
  assert (int_ok (frame_num d)) as Hn by (destruct Hd; unfold int_ok, bits_ok in *; lia).
  assert (forall o, frame_num_offset s d idr st = Some o -> int_ok o) as Ho.
  { intros o. unfold frame_num_offset. destruct (shl1 _); [|done]. ostep. destruct idr; [intros [= <-]; by split|].
    destruct (_ <? _); [apply int32_range|by intros [= <-]]. }
  unfold compute_poc in E. destruct (_ =? 0); [|destruct (_ =? 1)].
  - unfold h264_compute_poc_type0 in E. inv_opt. subst. pose proof (int32_range _ _ E2). pose proof (int32_range _ _ E3). split; [by apply Hf|].
    assert (int_ok x0) as Hx0.
    { unfold poc_msb_of in E1. destruct (_ && _); [by apply int32_range in E1|]. destruct (_ && _); [by apply int32_range in E1|].
      injection E1 as <-. by destruct idr. }
    destruct (r =? 0); [done|]. by split_and!.
  - unfold h264_compute_poc_type1 in E. inv_opt. subst. split; [apply Hf; by eapply int32_range|]. apply Ho in E0. by split_and!.
  - unfold h264_compute_poc_type2 in E. inv_opt. subst. apply Ho in E0.
    assert (int_ok x0) as Hx0.
    { destruct idr; [injection E1 as <-; by split|]. inv_opt. destruct (r =? 0); [by eapply int32_range|]. injection E1 as <-. by eapply int32_range. }
    split; [by apply Hf|by split_and!].
Qed.

(** The types hold and the picture order count state is the one before. *)
Definition still_fits (o o' : H264ParseResult) : Prop :=
  fits o' /\ poc o' = poc o.
Lemma fits_take_sps m o : fits o -> fits_matrix m -> still_fits o (take_sps m o).
Proof.
  intros Ho Hm. destruct Ho. unfold take_sps. destruct m as [m|]; [|by split; [constructor|]].
  assert (fits_pps (use_matrix (pps o))) as Hp by (unfold use_matrix; destruct f_pps0; constructor; pps_fields; fit).
  cbv zeta. destruct (has_pps _); (split; [constructor; assumption|done]).
Qed.
Lemma fits_take_pps b o : fits o -> still_fits o (take_pps b o).
Proof.
  intros []. unfold take_pps. cbv zeta. assert (fits_pps (use_matrix (pps o))) as Hp by (unfold use_matrix; destruct f_pps0; constructor; pps_fields; fit).
  destruct b; [split; [constructor; assumption|done]|]. destruct (has_scaling_matrix _); (split; [constructor; assumption|done]).
Qed.

(** Where a unit may be undefined: the scaling lists of a parameter set, and the picture
    order count of a slice. *)
Definition undefined_at (hdr : Z) (o : H264ParseResult) (st : poc_state) : Prop :=
  Z.land hdr 0x1f = 7 \/ Z.land hdr 0x1f = 8 \/ (Z.land hdr 0x1f = 1 \/ Z.land hdr 0x1f = 5) /\
  exists o' ref_idc, fits_decode (decode o') /\ compute_poc (sps o') (decode o') (Z.testbit (decode_flags (decode o')) 0) ref_idc st = None.

Lemma nal_safe hdr payload o st : is_byte hdr -> Forall is_byte payload -> fits o -> int_poc st ->
  match parse_nal hdr payload o st with
  | None => undefined_at hdr o st
  | Some (o', r) => still_fits o o' /\ match r with inl st' => int_poc st' | inr e => is_status e end
  end.
Proof.
  intros Hh Hp Ho Hst. unfold parse_nal, undefined_at. cbv zeta.
  destruct (Z.eqb_spec (Z.land hdr 0x1f) 7) as [E7|_]; [|destruct (Z.eqb_spec (Z.land hdr 0x1f) 8) as [E8|_]].
  - pose proof (keeps_sps (poc o) True I (br_init payload) o (wf_init _) (conj Ho eq_refl)) as H.
    destruct (parse_sps _) as [[[r o'] [m|e]]|]; [| |by left]; destruct H as (_ & [Ho' Hpoc] & Hm); ostep; cbv beta iota.
    + destruct (fits_take_sps m o' Ho' Hm). split; [|done]. split; [done|congruence].
    + by split.
  - pose proof (keeps_pps (poc o) True I (br_init payload) o (wf_init _) (conj Ho eq_refl)) as H.
    destruct (parse_pps _) as [[[r o'] [m|e]]|]; [| |by right; left]; destruct H as (_ & [Ho' Hpoc] & Hm); ostep; cbv beta iota.
    + destruct (fits_take_pps m o' Ho'). split; [|done]. split; [done|congruence].
    + by split.
  - destruct (_ || _) eqn:Et; [|by split; [split|]]. destruct (negb (has_sps o) || negb (has_pps o)); [by split; [split|]|].
    assert (bits_ok 2 (Z.land (Z.shiftr hdr 5) 3)) as Hr by (change 3 with (Z.ones 2); rewrite Z.land_ones by done; by apply Z.mod_pos_bound).
    pose proof (keeps_slice (poc o) False (Z.land (Z.shiftr hdr 5) 3) (Z.land hdr 0x1f) (sps o) (pps o) Hr (f_pps o Ho) (br_init payload) o (wf_init _) (conj Ho eq_refl)) as H.
    destruct (parse_slice_header _ _ _ _ _) as [[[r o'] [[]|e]]|]; [| |done]; destruct H as (_ & [Ho' Hpoc] & Hm); ostep; cbv beta iota; [|by split].
    unfold finish_slice. cbv zeta. set (o1 := o' <| has_slice := true |>). change (decode o1) with (decode o').
    assert (fits o1) as Ho1 by (destruct Ho'; by constructor).
    destruct (compute_poc (sps o1) (decode o') _ _ st) as [[d' st']|] eqn:Ep.
    2: { ostep. right. right. split; [apply orb_true_iff in Et as [Et|Et]; apply Z.eqb_eq in Et; auto|]. exists o1, (Z.land (Z.shiftr hdr 5) 3). split; [apply Ho1|exact Ep]. }
    ostep. cbv beta iota. destruct (poc_fits _ _ _ _ _ _ _ (f_decode _ Ho') Hst Ep) as [Hd' Hst'].
    match goal with |- context [Some (?o2, inr _)] => assert (fits o2) as Ho2 end.
    { destruct Ho1. constructor; try assumption. destruct f_slice0. constructor; hdr_fields; try assumption. apply u32_range. }
    destruct (_ <? _)%nat; [by split; [split|]|]. split; [|exact Hst']. split; [|exact Hpoc].
    destruct Ho2. constructor; try assumption. by apply Forall_drop.
Qed.

Definition undefined_unit (bytes : list Z) : Prop :=
  exists hdr payload o' st', bytes = hdr :: payload /\ fits o' /\ int_poc st' /\ undefined_at hdr o' st'.
Lemma parse_unit_safe o0 bytes o st : Forall is_byte bytes -> still_fits o0 o -> int_poc st ->
  match parse_unit bytes o st with
  | None => undefined_unit bytes
  | Some (o', r) => still_fits o0 o' /\ match r with inl st' => int_poc st' | inr e => is_status e end
  end.
Proof.
  intros Hb [Ho Hp] Hst. unfold parse_unit. destruct bytes as [|hdr payload]; [by split|]. apply Forall_cons in Hb as [Hh Hpl].
  pose proof (nal_safe hdr payload o st Hh Hpl Ho Hst) as H. destruct (parse_nal hdr payload o st) as [[o1 r]|]; [|by exists hdr, payload, o, st].
  destruct H as [[H1 H2] H3]. split; [split; [done|congruence]|done].
Qed.
Lemma unit_safe buf size o : Forall is_byte buf -> fits o -> int_poc (poc o) ->
  match H264ParseAccessUnit buf size o with
  | None => exists rbsp, unit_in buf rbsp /\ undefined_unit rbsp
  | Some (o', e) => fits o' /\ (e = H264_PARSE_OK /\ has_slice o' = true /\ int_poc (poc o') \/ is_status e /\ poc o' = poc o)
  end.
Proof.
  intros Hb Ho Hst. unfold H264ParseAccessUnit. cbv zeta. set (o0 := reset_unit o).
  assert (fits o0) as H0.
  { destruct Ho. constructor; first [assumption | apply fits_zero_slice | apply fits_zero_decode | exact (Forall_nil_2 _) | by split | split; [cbn; lia|exact (Forall_nil_2 _)]]. }
  pose proof (nal_loop_keeps parse_unit (still_fits o0) int_poc undefined_unit
    (parse_unit_safe o0) buf size Hb (S (length buf)) 0 0 o0 (poc o) (conj H0 eq_refl) Hst ltac:(lia)) as H. change (poc o0) with (poc o).
  destruct (nal_loop _ _ _ _ _ _ _ _) as [[o' [st|e]]|]; ostep; cbv beta iota; [| |done]; destruct H as [[Ho' Hp'] Hr].
  - destruct (has_slice o') eqn:Es; cbn [negb].
    + split; [|left; by split_and!]. destruct Ho'. by constructor.
    + split; [done|]. right. split; [|done]. destruct (_ && _); by split.
  - split; [done|]. by right.
Qed.

(** The picture order count of a sane stream does not overflow. *)
Lemma poc_total s d idr r st : poc_sps_ok s -> fits_decode d -> Z.abs (prev_pic_order_cnt_msb st) < 2 ^ 28 ->
  0 <= prev_frame_num_offset st < 2 ^ 19 -> Z.abs (delta_pic_order_cnt_bottom d) < 2 ^ 28 -> Z.abs (delta_pic_order_cnt0 d) < 2 ^ 28 ->
  Z.abs (delta_pic_order_cnt1 d) < 2 ^ 28 -> compute_poc s d idr r st <> None.
Proof.
  intros Hs Hd Hm Ho Hb H0 H1. pose proof (fd_lsb d Hd) as Hl. pose proof (fd_frame_num d Hd) as Hn. unfold bits_ok in Hl, Hn.
  assert (forall n, 0 <= n <= 12 -> 0 < 2 ^ (n + 4) <= 2 ^ 16) as Hpow by (intros n ?; split; [apply Z.pow_pos_nonneg; lia|apply Z.pow_le_mono_r; lia]).
  pose proof (Hpow _ (poc_ok_lsb s Hs)) as Hpl. pose proof (Hpow _ (poc_ok_frame s Hs)) as Hpf.
  assert (exists o, frame_num_offset s d idr st = Some o /\ 0 <= o < 2 ^ 19 + 2 ^ 16) as (o & Eo & Hob).
  { unfold frame_num_offset. rewrite shl1_pow by apply Hs. ostep. destruct idr; [by exists 0|]. case_bool; [rewrite int32_ok by lia|]; eexists; (split; [done|lia]). }
  unfold compute_poc. destruct (_ =? 0); [|destruct (_ =? 1)].
  - unfold h264_compute_poc_type0. rewrite shl1_pow by apply Hs. ostep.
    assert (exists m, poc_msb_of (2 ^ (log2_max_pic_order_cnt_lsb_minus4 s + 4)) (pic_order_cnt_lsb d) (if idr then 0 else prev_pic_order_cnt_lsb st)
      (if idr then 0 else prev_pic_order_cnt_msb st) = Some m /\ Z.abs m < 2 ^ 29) as (m & -> & Hmb).
    { unfold poc_msb_of. assert (Z.abs (if idr then 0 else prev_pic_order_cnt_msb st) < 2 ^ 28) by (destruct idr; lia).
      destruct (_ && _); [rewrite int32_ok by lia; eexists; split; [done|lia]|]. destruct (_ && _); [rewrite int32_ok by lia|]; eexists; (split; [done|lia]). }
    ostep. do 2 (rewrite int32_ok by lia; ostep). done.
  - unfold h264_compute_poc_type1. rewrite Eo. ostep. pose proof (poc_ok_nonref s Hs). pose proof (poc_ok_bottom s Hs).
    assert (exists e, (a ← (if negb (num_ref_frames_in_pic_order_cnt_cycle s =? 0) then int32 (o + frame_num d) else Some 0);
        expected_poc s (if (r =? 0) && (0 <? a) then a - 1 else a)) = Some e /\ Z.abs e < 2 ^ 30) as (e & E & He).
    { destruct (Z.eqb_spec (num_ref_frames_in_pic_order_cnt_cycle s) 0) as [En|En]; cbn [negb].
      - exists 0. ostep. by rewrite andb_false_r.
      - rewrite int32_ok by lia. ostep. set (a := if _ && _ then _ else _). assert (0 <= a < 2 ^ 20) as Ha by (unfold a; destruct (r =? 0); cbn [andb]; [case_bool|]; lia).
        destruct (expected_exact s (Z.to_nat a) Hs En) as [He Hb2]; [lia|]. rewrite Z2Nat.id in He by lia. by eexists. }
    destruct (if negb _ then int32 _ else Some 0) as [a|]; [|done]. ostep. cbn [mbind option_bind] in E. rewrite E. ostep.
    assert (exists e2, (if r =? 0 then int32 (e + offset_for_non_ref_pic s) else Some e) = Some e2 /\ Z.abs e2 < 2 ^ 30 + 2 ^ 28) as (e2 & -> & He2).
    { destruct (r =? 0); [rewrite int32_ok by lia|]; eexists; (split; [done|lia]). }
    ostep. do 3 (rewrite int32_ok by lia; ostep). done.
  - unfold h264_compute_poc_type2. rewrite Eo. ostep. destruct idr; [done|]. ostep. rewrite int32_ok by lia. ostep. rewrite int32_ok by lia. ostep.
    destruct (r =? 0); [rewrite int32_ok by lia|]; done.
Qed.
