(* ===== verification/H264Props.v ===== *)
(** * Properties of the H.264 parser *)

From S2P Require Import Prelude Bits ByteStream Rbsp RbspFacts H264Parser H264Syntax H264ParserFacts H264Unit H264Safe.

(** The elementary codes are read back.  An Exp-Golomb value of up to 32 bits, a
    signed one and a fixed field are read with exactly their bits consumed and no error
    latched, wherever they stand in a buffer; the payload of a unit survives emulation
    prevention, the escaped unit contains no start code, and the search for start codes
    splits a stream of such units exactly. *)
Theorem rbsp_roundtrip (d : list Z) (l : list bool) (payload : list Z) (cap : nat) (pre : list Z) (x : item) (items : list item) :
  Forall is_byte payload -> (length payload <= cap)%nat -> nal_ok x.2 ->
  (forall v, ue_ok v -> tail d (ue_bits v ++ l) -> br_ue (reader_at d (ue_bits v ++ l)) = (v, reader_at d l)) /\
  (forall v, se_ok v -> tail d (se_bits v ++ l) -> br_se (reader_at d (se_bits v ++ l)) = (v, reader_at d l)) /\
  (forall n v, (n <= 32)%nat -> bits_ok (Z.of_nat n) v -> tail d (put n v ++ l) -> br_u n (reader_at d (put n v ++ l)) = (v, reader_at d l)) /\
  ebsp_to_rbsp (escape 0 payload) cap = payload /\ clean (escape 0 payload) = true /\
  (let (nal_start, sc) := nal_find_start_code (pre ++ stream (x :: items)) (length pre) in
   sc = length pre /\ take (snd (nal_find_start_code (pre ++ stream (x :: items)) nal_start) - nal_start)
                        (drop nal_start (pre ++ stream (x :: items))) = x.2).
Proof.
  intros Hb Hc Hx. split_and!.
  - intros v Hv Ht. by apply br_ue_at.
  - intros v Hv Ht. by apply br_se_at.
  - intros n v Hn Hv Ht. rewrite u_at by (rewrite ?length_put; done). f_equal.
    pose proof (put_window n v [] Hv) as E. by rewrite app_nil_r in E.
  - by apply ebsp_escape.
  - apply escape_clean.
  - rewrite find_unit. split; [done|]. rewrite find_unit_end by done.
    replace (length pre + length (code x.1) + length x.2 - (length pre + length (code x.1)))%nat with (length x.2) by lia. apply take_unit_bytes.
Qed.

Lemma rbsp_roundtrip_witness :
  ebsp_to_rbsp (escape 0 [0x65; 0; 0; 1; 0; 0; 0; 3; 0x80]) 9 = [0x65; 0; 0; 1; 0; 0; 0; 3; 0x80] /\
  br_ue (reader_at [0x29] (ue_bits 4 ++ [false; false; true])) = (4, reader_at [0x29] [false; false; true]).
Proof.
  assert (Forall is_byte [0x65; 0; 0; 1; 0; 0; 0; 3; 0x80]) as Hb by (repeat constructor; unfold is_byte; lia).
  assert (nal_ok [0x65; 0x80]) as Hn by (split; [reflexivity|exists 0x80; by split]).
  destruct (rbsp_roundtrip [0x29] [false; false; true] _ 9 [] (true, [0x65; 0x80]) [] Hb ltac:(simpl; lia) Hn) as (Hu & _ & _ & He & _).
  split; [exact He|]. apply Hu; [unfold ue_ok; lia|]. exists []. reflexivity.
Defined.


(** A 720p stream with scaling lists, a VUI and a P slice. *)
Definition sample_lists : list list_syntax :=
  [GivenList [16; 18; 20; 22]; NoList; DefaultList; NoList; NoList; NoList; GivenList [8; 9; 10]; NoList].
Definition sample_vui : vui_syntax :=
  MkVuiSyntax (Some (255, 4, 3)) None (Some (5, false, Some (1, 1, 1))) None (Some (1, 60, true))
    (Some (MkHrd 4 5 [(1000, 2000, true)] (23, 23, 23, 24))) None true true (Some (true, (0, 0, 11, 11), 2, 4)).
Definition sample_sps : sps_syntax :=
  MkSpsSyntax 100 0 31 0 (Some (MkHigh 1 false 0 0 false (Some sample_lists))) 0 (PocType0 2) 4 false 79 44 true false true
    (Some (0, 0, 0, 4)) (Some sample_vui).






(** C27: The picture order counts are those the encoder meant (8.2.1).  Fed a sequence of
    pictures whose headers carry the counts and frame numbers modulo their ranges, the
    decoder finds for each the true top and bottom counts: type 0 when a count lies within
    half the range of the last reference picture, type 1 as the sum over the repeated
    cycle of offsets, type 2 twice the frame number; no sum overflows on the way. *)
Theorem h264_poc_exact (s : v4l2_ctrl_h264_sps) (prev : Z) (st : poc_state) (l : list picture) :
  poc_sps_ok s -> poc_at s prev st -> 0 <= prev < 2 ^ 28 -> in_reach s prev l ->
  decoded_counts s st l = Some (map (true_counts s) l).
Proof. intros Hs Hst Hp Hl. apply (counts_exact s l Hs prev st Hst); [lia|lia|exact Hl]. Qed.

(** Counts that wrap at 64, with B pictures between; offsets of a cycle of two. *)
Definition sample_counts : list picture :=
  [MkPicture true 1 0 0 0; MkPicture false 1 30 0 1; MkPicture false 0 10 0 1; MkPicture false 1 60 0 1; MkPicture false 0 50 0 1; MkPicture false 1 70 0 1].
Lemma h264_poc_exact_witness :
  decoded_counts (sps_of sample_sps) (MkPoc 0 0 0 0) sample_counts = Some [(0, 0); (30, 31); (10, 11); (60, 61); (50, 51); (70, 71)].
Proof.
  apply (h264_poc_exact (sps_of sample_sps) 0 (MkPoc 0 0 0 0) sample_counts).
  - constructor; try (vm_compute; intuition congruence). apply Forall_app. split; [constructor|]. by apply Forall_replicate.
  - by split.
  - lia.
  - unfold sample_counts. cbn [in_reach p_idr p_ref p_count p_delta0 p_delta1].
    vm_compute. intuition congruence.
Defined.


