(* ===== verification/H265Parser.v ===== *)
(** * The HEVC parser (mft/parser_glue_h265.cpp)

    Parameter sets and the slice segment header.  An SPS and a PPS are read into a local
    structure that is committed at the end, so their parsers return it; a VPS and a slice
    header are written in place, as far as the parser gets. *)

From S2P Require Import Prelude Bits Rbsp.

Definition H265_PARSE_OK : Z := 0.
Definition H265_PARSE_NEED_MORE : Z := 1.
Definition H265_PARSE_INVALID : Z := 2.
Definition H265_PARSE_UNSUPPORTED : Z := 3.

Definition H265_MAX_VPS : Z := 16.
Definition H265_MAX_SPS : Z := 32.
Definition H265_MAX_PPS : Z := 64.
Definition H265_MAX_SUB_LAYERS : nat := 7.
Definition H265_MAX_REFS : nat := 16.
Definition H265_MAX_SHORT_TERM_RPS : nat := 64.
Definition H265_MAX_LONG_TERM_REFS : nat := 32.

Definition H265_SLICE_TYPE_B : Z := 0.
Definition H265_SLICE_TYPE_P : Z := 1.
Definition H265_SLICE_TYPE_I : Z := 2.

Definition H265_NAL_TRAIL_N : Z := 0.
Definition H265_NAL_TSA_N : Z := 2.
Definition H265_NAL_STSA_N : Z := 4.
Definition H265_NAL_RADL_N : Z := 6.
Definition H265_NAL_RADL_R : Z := 7.
Definition H265_NAL_RASL_N : Z := 8.
Definition H265_NAL_RASL_R : Z := 9.
Definition H265_NAL_BLA_W_LP : Z := 16.
Definition H265_NAL_IDR_W_RADL : Z := 19.
Definition H265_NAL_IDR_N_LP : Z := 20.
Definition H265_NAL_CRA_NUT : Z := 21.
Definition H265_NAL_VPS : Z := 32.
Definition H265_NAL_SPS : Z := 33.
Definition H265_NAL_PPS : Z := 34.

(** ** The structures *)
Record H265Ptl := MkPtl {
  profile_space : Z; tier_flag : Z; profile_idc : Z; profile_compatibility_flag : list Z;
  progressive_source_flag : Z; interlaced_source_flag : Z; non_packed_constraint_flag : Z; frame_only_constraint_flag : Z;
  level_idc : Z }.
Definition zero_ptl : H265Ptl := MkPtl 0 0 0 (replicate 32 0) 0 0 0 0 0.

(** The arrays have [H265_MAX_REFS] entries. *)
Record H265ShortTermRPS := MkRps {
  inter_ref_pic_set_prediction_flag : Z; num_negative_pics : Z; num_positive_pics : Z; num_delta_pocs : Z;
  delta_poc : list Z; used_by_curr_pic_flag : list Z }.
#[export] Instance eta_rps : Eta H265ShortTermRPS := fun r =>
  MkRps (inter_ref_pic_set_prediction_flag r) (num_negative_pics r) (num_positive_pics r) (num_delta_pocs r) (delta_poc r)
    (used_by_curr_pic_flag r).
Definition zero_rps : H265ShortTermRPS := MkRps 0 0 0 0 (replicate H265_MAX_REFS 0) (replicate H265_MAX_REFS 0).

Record H265ScalingList := MkScaling {
  scaling_list_4x4 : list (list Z); scaling_list_8x8 : list (list Z); scaling_list_16x16 : list (list Z);
  scaling_list_32x32 : list (list Z); scaling_list_dc_16x16 : list Z; scaling_list_dc_32x32 : list Z }.
#[export] Instance eta_scaling : Eta H265ScalingList := fun s =>
  MkScaling (scaling_list_4x4 s) (scaling_list_8x8 s) (scaling_list_16x16 s) (scaling_list_32x32 s)
    (scaling_list_dc_16x16 s) (scaling_list_dc_32x32 s).
Definition zero_scaling : H265ScalingList :=
  MkScaling (replicate 6 (replicate 16 0)) (replicate 6 (replicate 64 0)) (replicate 6 (replicate 64 0)) (replicate 6 (replicate 64 0))
    (replicate 6 0) (replicate 6 0).

Record H265Vps := MkVps {
  vps_valid : Z; vps_id : Z; vps_max_layers_minus1 : Z; vps_max_sub_layers_minus1 : Z; vps_temporal_id_nesting_flag : Z;
  vps_ptl : H265Ptl; vps_sub_layer_ordering_info_present_flag : Z;
  vps_max_dec_pic_buffering_minus1 : list Z; vps_max_num_reorder_pics : list Z; vps_max_latency_increase_plus1 : list Z }.
#[export] Instance eta_vps : Eta H265Vps := fun v =>
  MkVps (vps_valid v) (vps_id v) (vps_max_layers_minus1 v) (vps_max_sub_layers_minus1 v) (vps_temporal_id_nesting_flag v)
    (vps_ptl v) (vps_sub_layer_ordering_info_present_flag v) (vps_max_dec_pic_buffering_minus1 v) (vps_max_num_reorder_pics v)
    (vps_max_latency_increase_plus1 v).
Definition no_layers : list Z := replicate H265_MAX_SUB_LAYERS 0.
Definition zero_vps : H265Vps := MkVps 0 0 0 0 0 zero_ptl 0 no_layers no_layers no_layers.

Record H265Sps := MkSps {
  sps_valid : Z; sps_vps_id : Z; sps_max_sub_layers_minus1 : Z; sps_temporal_id_nesting_flag : Z; sps_ptl : H265Ptl;
  sps_id : Z; chroma_format_idc : Z; separate_colour_plane_flag : Z;
  pic_width_in_luma_samples : Z; pic_height_in_luma_samples : Z;
  conformance_window_flag : Z; conf_win_left_offset : Z; conf_win_right_offset : Z; conf_win_top_offset : Z; conf_win_bottom_offset : Z;
  bit_depth_luma_minus8 : Z; bit_depth_chroma_minus8 : Z; log2_max_pic_order_cnt_lsb_minus4 : Z;
  sps_sub_layer_ordering_info_present_flag : Z;
  sps_max_dec_pic_buffering_minus1 : list Z; sps_max_num_reorder_pics : list Z; sps_max_latency_increase_plus1 : list Z;
  log2_min_luma_coding_block_size_minus3 : Z; log2_diff_max_min_luma_coding_block_size : Z;
  log2_min_luma_transform_block_size_minus2 : Z; log2_diff_max_min_luma_transform_block_size : Z;
  max_transform_hierarchy_depth_inter : Z; max_transform_hierarchy_depth_intra : Z;
  scaling_list_enabled_flag : Z; sps_scaling_list_data_present_flag : Z; sps_scaling_list : H265ScalingList;
  amp_enabled_flag : Z; sample_adaptive_offset_enabled_flag : Z;
  pcm_enabled_flag : Z; pcm_sample_bit_depth_luma_minus1 : Z; pcm_sample_bit_depth_chroma_minus1 : Z;
  log2_min_pcm_luma_coding_block_size_minus3 : Z; log2_diff_max_min_pcm_luma_coding_block_size : Z; pcm_loop_filter_disabled_flag : Z;
  num_short_term_ref_pic_sets : Z; st_rps : list H265ShortTermRPS;
  long_term_ref_pics_present_flag : Z; num_long_term_ref_pics_sps : Z; lt_ref_pic_poc_lsb_sps : list Z; used_by_curr_pic_lt_sps_flag : list Z;
  sps_temporal_mvp_enabled_flag : Z; strong_intra_smoothing_enabled_flag : Z;
  ctb_log2_size_y : Z; ctb_size_y : Z; pic_width_in_ctbs_y : Z; pic_height_in_ctbs_y : Z }.
Definition no_sets : list H265ShortTermRPS := replicate H265_MAX_SHORT_TERM_RPS zero_rps.
Definition no_long_term : list Z := replicate H265_MAX_LONG_TERM_REFS 0.
Definition zero_sps : H265Sps :=
  MkSps 0 0 0 0 zero_ptl 0 0 0 0 0 0 0 0 0 0 0 0 0 0 no_layers no_layers no_layers 0 0 0 0 0 0 0 0 zero_scaling 0 0 0 0 0 0 0 0
    0 no_sets 0 0 no_long_term no_long_term 0 0 0 0 0 0.

Record H265Pps := MkPps {
  pps_valid : Z; pps_id : Z; pps_sps_id : Z;
  dependent_slice_segments_enabled_flag : Z; output_flag_present_flag : Z; num_extra_slice_header_bits : Z;
  sign_data_hiding_enabled_flag : Z; cabac_init_present_flag : Z;
  num_ref_idx_l0_default_active_minus1 : Z; num_ref_idx_l1_default_active_minus1 : Z; init_qp_minus26 : Z;
  constrained_intra_pred_flag : Z; transform_skip_enabled_flag : Z; cu_qp_delta_enabled_flag : Z; diff_cu_qp_delta_depth : Z;
  pps_cb_qp_offset : Z; pps_cr_qp_offset : Z; pps_slice_chroma_qp_offsets_present_flag : Z;
  weighted_pred_flag : Z; weighted_bipred_flag : Z; transquant_bypass_enabled_flag : Z; tiles_enabled_flag : Z;
  entropy_coding_sync_enabled_flag : Z;
  num_tile_columns_minus1 : Z; num_tile_rows_minus1 : Z; uniform_spacing_flag : Z; loop_filter_across_tiles_enabled_flag : Z;
  pps_loop_filter_across_slices_enabled_flag : Z; deblocking_filter_control_present_flag : Z;
  deblocking_filter_override_enabled_flag : Z; pps_deblocking_filter_disabled_flag : Z; pps_beta_offset_div2 : Z; pps_tc_offset_div2 : Z;
  pps_scaling_list_data_present_flag : Z; pps_scaling_list : H265ScalingList;
  lists_modification_present_flag : Z; log2_parallel_merge_level_minus2 : Z; slice_segment_header_extension_present_flag : Z }.
Definition zero_pps : H265Pps :=
  MkPps 0 0 0 0 0 0 0 0 0 0 0 0 0 0 0 0 0 0 0 0 0 0 0 0 0 0 0 0 0 0 0 0 0 0 zero_scaling 0 0 0.

Record H265SliceHeader := MkSliceHeader {
  first_slice_segment_in_pic_flag : Z; no_output_of_prior_pics_flag : Z; slice_pic_parameter_set_id : Z;
  dependent_slice_segment_flag : Z; slice_segment_address : Z; slice_type : Z; pic_output_flag : Z; colour_plane_id : Z;
  slice_pic_order_cnt_lsb : Z; short_term_ref_pic_set_sps_flag : Z; short_term_ref_pic_set_idx : Z; st_rps_slice : H265ShortTermRPS;
  num_long_term_sps : Z; num_long_term_pics : Z; slice_temporal_mvp_enabled_flag : Z; slice_sao_luma_flag : Z; slice_sao_chroma_flag : Z;
  num_ref_idx_active_override_flag : Z; num_ref_idx_l0_active_minus1 : Z; num_ref_idx_l1_active_minus1 : Z;
  mvd_l1_zero_flag : Z; cabac_init_flag : Z; collocated_from_l0_flag : Z; collocated_ref_idx : Z; five_minus_max_num_merge_cand : Z;
  slice_qp_delta : Z; slice_cb_qp_offset : Z; slice_cr_qp_offset : Z;
  deblocking_filter_override_flag : Z; slice_deblocking_filter_disabled_flag : Z; slice_beta_offset_div2 : Z; slice_tc_offset_div2 : Z;
  slice_loop_filter_across_slices_enabled_flag : Z; num_entry_point_offsets : Z; header_bit_size : Z; short_term_ref_pic_set_size : Z }.
#[export] Instance eta_slice_header : Eta H265SliceHeader := fun h =>
  MkSliceHeader (first_slice_segment_in_pic_flag h) (no_output_of_prior_pics_flag h) (slice_pic_parameter_set_id h)
    (dependent_slice_segment_flag h) (slice_segment_address h) (slice_type h) (pic_output_flag h) (colour_plane_id h)
    (slice_pic_order_cnt_lsb h) (short_term_ref_pic_set_sps_flag h) (short_term_ref_pic_set_idx h) (st_rps_slice h)
    (num_long_term_sps h) (num_long_term_pics h) (slice_temporal_mvp_enabled_flag h) (slice_sao_luma_flag h) (slice_sao_chroma_flag h)
    (num_ref_idx_active_override_flag h) (num_ref_idx_l0_active_minus1 h) (num_ref_idx_l1_active_minus1 h)
    (mvd_l1_zero_flag h) (cabac_init_flag h) (collocated_from_l0_flag h) (collocated_ref_idx h) (five_minus_max_num_merge_cand h)
    (slice_qp_delta h) (slice_cb_qp_offset h) (slice_cr_qp_offset h)
    (deblocking_filter_override_flag h) (slice_deblocking_filter_disabled_flag h) (slice_beta_offset_div2 h) (slice_tc_offset_div2 h)
    (slice_loop_filter_across_slices_enabled_flag h) (num_entry_point_offsets h) (header_bit_size h) (short_term_ref_pic_set_size h).
Definition zero_header : H265SliceHeader :=
  MkSliceHeader 0 0 0 0 0 0 0 0 0 0 0 zero_rps 0 0 0 0 0 0 0 0 0 0 0 0 0 0 0 0 0 0 0 0 0 0 0 0.

(** The staged picture order count of the last picture of temporal layer 0. *)
Record prev_tid0 := MkPrev { prev_poc_msb_tid0 : Z; prev_poc_lsb_tid0 : Z }.

(** [slice_data] is what the pointer shows. *)
Record H265ParseResult := MkResult {
  vps : list H265Vps; sps : list H265Sps; pps : list H265Pps; slice : H265SliceHeader; has_slice : bool;
  active_vps_id : Z; active_sps_id : Z; active_pps_id : Z; got_vps_in_au : bool; got_sps_in_au : bool; got_pps_in_au : bool;
  slice_nal_unit_type : Z; nal_ref_flag : bool; is_idr : bool; is_irap : bool; poc : Z; slice_data : list Z; prev : prev_tid0 }.
#[export] Instance eta_result : Eta H265ParseResult := fun o =>
  MkResult (vps o) (sps o) (pps o) (slice o) (has_slice o) (active_vps_id o) (active_sps_id o) (active_pps_id o)
    (got_vps_in_au o) (got_sps_in_au o) (got_pps_in_au o) (slice_nal_unit_type o) (nal_ref_flag o) (is_idr o) (is_irap o) (poc o)
    (slice_data o) (prev o).
Definition H265ParseResultInit : H265ParseResult :=
  MkResult (replicate 16 zero_vps) (replicate 32 zero_sps) (replicate 64 zero_pps) zero_header false (-1) (-1) (-1)
    false false false 0 false false false 0 [] (MkPrev 0 0).

Definition Par := Rd H265ParseResult.
Definition on_slice (f : H265SliceHeader -> H265SliceHeader) : Par unit := upd (fun o => o <| slice ::= f |>).
Definition on_vps (i : Z) (f : H265Vps -> H265Vps) : Par unit := upd (fun o => o <| vps ::= alter f (Z.to_nat i) |>).

(** ** Reading *)

(** [ceil_log2] for a word: the number of bits of [n - 1]. *)
Definition ceil_log2 (n : Z) : nat := if n <=? 1 then 0%nat else Z.to_nat (Z.log2 (n - 1) + 1).

(** [n] reads of a bit whose values nobody looks at, for counts no list could hold. *)
Definition skip_bits {T} (n : Z) : Rd T unit := reader (fun r =>
  (tt, r <| bit_pos ::= fun p => (p + Z.to_nat (Z.min n (Z.of_nat (8 * length (data r) - p))))%nat |>)).

(** [m] for every item of a list. *)
Fixpoint each {T X} (m : X -> Rd T unit) (l : list X) : Rd T unit :=
  match l with [] => mret tt | x :: l => m x;; each m l end.

(** A conditional read; the field stays 0 when it is not there. *)
Definition opt_read {T} (b : bool) (m : Rd T Z) : Rd T Z := if b then m else mret 0.

Definition invalid_if_failed {T} : Rd T unit :=
  f ← rd_failed; if (f : bool) then stop H265_PARSE_INVALID else mret tt.

(** ** Profile, tier and level *)
Definition skip_sub_layer {T} (present : Z * Z) : Rd T unit :=
  when (truth present.1) (skip (rd_u 32);; skip (rd_u 32);; skip (rd_u 24));;
  when (truth present.2) (skip (rd_u 8)).
Definition parse_ptl {T} (max_sub_layers_minus1 : Z) : Rd T H265Ptl :=
  space ← rd_u 2; tier ← rd_u1; idc ← rd_u 5;
  compatible ← collect 32 0 (fun _ => rd_u1);
  progressive ← rd_u1; interlaced ← rd_u1; non_packed ← rd_u1; frame_only ← rd_u1;
  skip (rd_u 16);; skip (rd_u 16);; skip (rd_u 12);;
  level ← rd_u 8;
  let n := Z.to_nat max_sub_layers_minus1 in
  present ← collect n 0 (fun _ => p ← rd_u1; l ← rd_u1; mret (p, l));
  when (0 <? max_sub_layers_minus1) (times (8 - n) (skip (rd_u 2)));;
  each skip_sub_layer present;;
  mret (MkPtl space tier idc compatible progressive interlaced non_packed frame_only level).

(** ** Scaling lists *)
Definition kDefaultScalingIntra : list Z :=
  [16; 16; 16; 16; 17; 18; 21; 24; 16; 16; 16; 16; 17; 19; 22; 25; 16; 16; 17; 18; 20; 22; 25; 29; 16; 16; 18; 21; 24; 27; 31; 36;
   17; 17; 20; 24; 30; 35; 41; 47; 18; 19; 22; 27; 35; 44; 54; 65; 21; 22; 25; 31; 41; 54; 70; 88; 24; 25; 29; 36; 47; 65; 88; 115].
Definition kDefaultScalingInter : list Z :=
  [16; 16; 16; 16; 17; 18; 20; 24; 16; 16; 16; 17; 18; 20; 24; 25; 16; 16; 17; 18; 20; 24; 25; 28; 16; 17; 18; 20; 24; 25; 28; 33;
   17; 18; 20; 24; 25; 28; 33; 41; 18; 20; 24; 25; 28; 33; 41; 54; 20; 24; 25; 28; 33; 41; 54; 71; 24; 25; 28; 33; 41; 54; 71; 91].
Definition kDiagScan4x4 : list nat := [0; 4; 1; 8; 5; 2; 12; 9; 6; 3; 13; 10; 7; 14; 11; 15]%nat.
Definition kDiagScan8x8 : list nat :=
  [0; 8; 1; 16; 9; 2; 24; 17; 10; 3; 32; 25; 18; 11; 4; 40; 33; 26; 19; 12; 5; 48; 41; 34; 27; 20; 13; 6; 56; 49; 42; 35;
   28; 21; 14; 7; 57; 50; 43; 36; 29; 22; 15; 58; 51; 44; 37; 30; 23; 59; 52; 45; 38; 31; 60; 53; 46; 39; 61; 54; 47; 62; 55; 63]%nat.

Definition default_matrices : list (list Z) := replicate 3 kDefaultScalingIntra ++ replicate 3 kDefaultScalingInter.
Definition scaling_list_set_default : H265ScalingList :=
  MkScaling (replicate 6 (replicate 16 16)) default_matrices default_matrices default_matrices (replicate 6 16) (replicate 6 16).

(** The lists of a size; the DC coefficients of the sizes that have them. *)
Definition lists_of (sz_id : nat) (s : H265ScalingList) : list (list Z) :=
  match sz_id with
  | 0 => scaling_list_4x4 s | 1 => scaling_list_8x8 s | 2 => scaling_list_16x16 s | _ => scaling_list_32x32 s
  end%nat.
Definition set_list (sz_id mat_id : nat) (l : list Z) (s : H265ScalingList) : H265ScalingList :=
  match sz_id with
  | 0 => s <| scaling_list_4x4 ::= <[mat_id := l]> |>
  | 1 => s <| scaling_list_8x8 ::= <[mat_id := l]> |>
  | 2 => s <| scaling_list_16x16 ::= <[mat_id := l]> |>
  | _ => s <| scaling_list_32x32 ::= <[mat_id := l]> |>
  end%nat.
Definition dc_of (sz_id : nat) (s : H265ScalingList) : list Z :=
  match sz_id with 2 => scaling_list_dc_16x16 s | 3 => scaling_list_dc_32x32 s | _ => [] end%nat.
Definition set_dc (sz_id mat_id : nat) (v : Z) (s : H265ScalingList) : H265ScalingList :=
  match sz_id with
  | 2 => s <| scaling_list_dc_16x16 ::= <[mat_id := v]> |>
  | 3 => s <| scaling_list_dc_32x32 ::= <[mat_id := v]> |>
  | _ => s
  end%nat.

(** The list of another matrix, and its DC coefficient. *)
Definition copy_list (sz_id mat_id from : nat) (s : H265ScalingList) : option H265ScalingList :=
  l ← lists_of sz_id s !! from;
  let s := set_list sz_id mat_id l s in
  if (2 <=? sz_id)%nat then v ← dc_of sz_id s !! from; Some (set_dc sz_id mat_id v s) else Some s.
Definition mat_step (sz_id : nat) : nat := if (sz_id =? 3)%nat then 3 else 1.
Definition predict_list {T} (sz_id mat_id : nat) (s : H265ScalingList) : Rd T H265ScalingList :=
  delta ← rd_ue;
  if delta =? 0 then mret s else
  if Z.of_nat mat_id <? delta * Z.of_nat (mat_step sz_id) then stop H265_PARSE_INVALID else
  need (copy_list sz_id mat_id (mat_id - Z.to_nat delta * mat_step sz_id) s).

Fixpoint coef_loop {T} (scan : list nat) (next_coef : Z) (l : list Z) : Rd T (list Z) :=
  match scan with
  | [] => mret l
  | pos :: scan =>
      delta ← rd_se; sum ← need (int32 (next_coef + delta + 256));
      let next := Z.land sum 0xff in
      coef_loop scan next (<[pos := next]> l)
  end.
Definition scan_of (sz_id : nat) : list nat := if (sz_id =? 0)%nat then kDiagScan4x4 else kDiagScan8x8.
Definition read_dc {T} (sz_id mat_id : nat) (s : H265ScalingList) : Rd T (Z * H265ScalingList) :=
  if (2 <=? sz_id)%nat then
    dc ← rd_se;
    if (dc <? -7) || (247 <? dc) then stop H265_PARSE_INVALID else mret (dc + 8, set_dc sz_id mat_id (u8 (dc + 8)) s)
  else mret (8, s).
Definition read_coefs {T} (sz_id mat_id : nat) (s : H265ScalingList) : Rd T H265ScalingList :=
  '(next, s) ← read_dc sz_id mat_id s;
  l ← coef_loop (scan_of sz_id) next (default [] (lists_of sz_id s !! mat_id));
  mret (set_list sz_id mat_id l s).

Definition scaling_matrix {T} (id : nat * nat) (s : H265ScalingList) : Rd T H265ScalingList :=
  pred_flag ← rd_u1;
  if truth pred_flag then read_coefs id.1 id.2 s else predict_list id.1 id.2 s.
Fixpoint scaling_matrices {T} (ids : list (nat * nat)) (s : H265ScalingList) : Rd T H265ScalingList :=
  match ids with [] => mret s | id :: ids => scaling_matrix id s ≫= scaling_matrices ids end.
(** [for (sz_id...) for (mat_id = 0; mat_id < 6; mat_id += mat_step)] *)
Definition matrix_ids : list (nat * nat) :=
  [(0, 0); (0, 1); (0, 2); (0, 3); (0, 4); (0, 5); (1, 0); (1, 1); (1, 2); (1, 3); (1, 4); (1, 5);
   (2, 0); (2, 1); (2, 2); (2, 3); (2, 4); (2, 5); (3, 0); (3, 3)]%nat.
Definition parse_scaling_list_data {T} : Rd T H265ScalingList := scaling_matrices matrix_ids scaling_list_set_default.

(** ** Short-term reference picture sets *)

(** A list as the array the structure holds. *)
Definition pad (n : nat) (l : list Z) : list Z := l ++ replicate (n - length l) 0.

(** An entry of the reference set: its distance, its used and its use_delta flag. *)
Definition rps_entry : Type := Z * (Z * Z).
(** Entries moved by [delta_rps] that satisfy [sel], as [(int16_t, used)]. *)
Fixpoint moved (sel : Z -> bool) (delta_rps : Z) (l : list rps_entry) : option (list (Z * Z)) :=
  match l with
  | [] => Some []
  | (d, (used, use_delta)) :: l =>
      dPoc ← int32 (d + delta_rps);
      r ← moved sel delta_rps l;
      Some (if sel dPoc && truth use_delta then (i16 dPoc, used) :: r else r)
  end.
Definition pivot (sel : Z -> bool) (delta_rps : Z) (flags : Z * Z) : list (Z * Z) :=
  if sel delta_rps && truth flags.2 then [(i16 delta_rps, flags.1)] else [].
Definition neg (x : Z) : bool := x <? 0.
Definition pos (x : Z) : bool := 0 <? x.
(** The predicted set: the negative entries, the nearest first, and the positive ones. *)
Definition predict_rps (ref : H265ShortTermRPS) (delta_rps : Z) (flags : list (Z * Z)) : option (list (Z * Z) * list (Z * Z)) :=
  let nn := Z.to_nat (num_negative_pics ref) in
  let entries := zip (delta_poc ref) flags in
  let negs := take nn entries in
  let poss := take (Z.to_nat (num_positive_pics ref)) (drop nn entries) in
  last ← flags !! Z.to_nat (num_delta_pocs ref);
  a ← moved neg delta_rps (rev poss);
  c ← moved neg delta_rps negs;
  d ← moved pos delta_rps (rev negs);
  f ← moved pos delta_rps poss;
  Some (a ++ pivot neg delta_rps last ++ c, d ++ pivot pos delta_rps last ++ f).

Definition rps_of (inter : Z) (negs poss : list (Z * Z)) : H265ShortTermRPS :=
  let l := negs ++ poss in
  MkRps inter (Z.of_nat (length negs)) (Z.of_nat (length poss)) (Z.of_nat (length l))
    (pad H265_MAX_REFS (map fst l)) (pad H265_MAX_REFS (map snd l)).

(** [n] entries of a set written directly, each further from the picture than the last. *)
Fixpoint read_deltas {T} (n : nat) (sign prev : Z) : Rd T (list (Z * Z)) :=
  match n with
  | O => mret []
  | S n =>
      v ← rd_ue; delta ← need (int32 (to_int v + 1)); poc ← need (int32 (prev + sign * delta));
      used ← rd_u1;
      l ← read_deltas n sign poc;
      mret ((i16 poc, used) :: l)
  end.
Definition direct_rps {T} : Rd T H265ShortTermRPS :=
  num_neg ← rd_ue; num_pos ← rd_ue;
  if (16 <? num_neg) || (16 <? num_pos) || (16 <? u32 (num_neg + num_pos)) then stop H265_PARSE_INVALID else
  negs ← read_deltas (Z.to_nat num_neg) (-1) 0;
  poss ← read_deltas (Z.to_nat num_pos) 1 0;
  mret (rps_of 0 negs poss).
Definition read_flags {T} : Rd T (Z * Z) :=
  used ← rd_u1;
  if truth used then mret (used, 1) else use_delta ← rd_u1; mret (used, use_delta).
Definition inter_rps {T} (rps_list : list H265ShortTermRPS) (st_rps_idx num : Z) : Rd T H265ShortTermRPS :=
  delta_idx_minus1 ← opt_read (st_rps_idx =? num) rd_ue;
  if st_rps_idx <? u32 (delta_idx_minus1 + 1) then stop H265_PARSE_INVALID else
  sign ← rd_u1; abs_minus1 ← rd_ue;
  delta_rps ← need (int32 ((1 - 2 * sign) * to_int (u32 (abs_minus1 + 1))));
  ref ← need (rps_list !! Z.to_nat (st_rps_idx - (delta_idx_minus1 + 1)));
  if 16 <? num_delta_pocs ref then stop H265_PARSE_INVALID else
  flags ← collect (S (Z.to_nat (num_delta_pocs ref))) 0 (fun _ => read_flags);
  '(negs, poss) ← need (predict_rps ref delta_rps flags);
  if (H265_MAX_REFS <? length negs + length poss)%nat then stop H265_PARSE_INVALID else
  mret (rps_of 1 negs poss).
(** [store] writes to where [out] points, before the parser can stop and at the end. *)
Definition parse_st_rps {T} (store : H265ShortTermRPS -> Rd T unit) (rps_list : list H265ShortTermRPS) (st_rps_idx num : Z)
    : Rd T H265ShortTermRPS :=
  inter ← opt_read (negb (st_rps_idx =? 0)) rd_u1;
  store (zero_rps <| inter_ref_pic_set_prediction_flag := inter |>);;
  r ← (if truth inter then inter_rps rps_list st_rps_idx num else direct_rps);
  store r;;
  mret r.

(** ** VPS *)

(** [for (i = start; i <= max; i++)] over the ordering info of the sub-layers. *)
Definition read_ordering {T} (start max : nat) : Rd T (list (Z * Z * Z)) :=
  collect (S max - start) start (fun _ => b ← rd_ue; r ← rd_ue; l ← rd_ue; mret (u8 b, u8 r, l)).
(** The values in an array of 7, from [start] on. *)
Definition place (start : nat) (l : list Z) : list Z := pad H265_MAX_SUB_LAYERS (replicate start 0 ++ l).

Definition vps_timing : Par unit :=
  skip (rd_u 32);; skip (rd_u 32);;
  p ← rd_u1; when (truth p) (skip rd_ue);;
  nh ← rd_ue;
  if negb (nh =? 0) then stop H265_PARSE_UNSUPPORTED else mret tt.
Definition parse_vps : Par unit :=
  id ← rd_u 4;
  if H265_MAX_VPS <=? id then stop H265_PARSE_INVALID else
  on_vps id (fun _ => zero_vps <| vps_id := id |>);;
  skip (rd_u 2);;
  l ← rd_u 6; on_vps id (fun v => v <| vps_max_layers_minus1 := l |>);;
  s ← rd_u 3; on_vps id (fun v => v <| vps_max_sub_layers_minus1 := s |>);;
  n ← rd_u1; on_vps id (fun v => v <| vps_temporal_id_nesting_flag := n |>);;
  skip (rd_u 16);;
  if Z.of_nat H265_MAX_SUB_LAYERS <=? s then stop H265_PARSE_INVALID else
  ptl ← parse_ptl s; on_vps id (fun v => v <| vps_ptl := ptl |>);;
  f ← rd_u1; on_vps id (fun v => v <| vps_sub_layer_ordering_info_present_flag := f |>);;
  let start := if truth f then 0%nat else Z.to_nat s in
  info ← read_ordering start (Z.to_nat s);
  on_vps id (fun v => v <| vps_max_dec_pic_buffering_minus1 := place start (map (fun x => x.1.1) info) |>
                        <| vps_max_num_reorder_pics := place start (map (fun x => x.1.2) info) |>
                        <| vps_max_latency_increase_plus1 := place start (map snd info) |>);;
  max_layer_id ← rd_u 6;
  num_layer_sets_minus1 ← rd_ue;
  skip_bits (num_layer_sets_minus1 * (max_layer_id + 1));;
  timing ← rd_u1;
  when (truth timing) vps_timing;;
  on_vps id (fun v => v <| vps_valid := 1 |>).

(** ** SPS *)

(** The array when the info is given once: for all layers below too. *)
Definition broadcast (present : bool) (max : nat) (l : list Z) : list Z :=
  if present then place 0 l else pad H265_MAX_SUB_LAYERS (replicate (S max) (default 0 (head l))).

Fixpoint read_sets {T} (n : nat) (i : Z) (num : Z) (sets : list H265ShortTermRPS) : Rd T (list H265ShortTermRPS) :=
  match n with
  | O => mret sets
  | S n => r ← parse_st_rps (fun _ => mret tt) sets i num; read_sets n (i + 1) num (sets ++ [r])
  end.
Definition pad_sets (l : list H265ShortTermRPS) : list H265ShortTermRPS := l ++ replicate (H265_MAX_SHORT_TERM_RPS - length l) zero_rps.

Definition sps_window {T} : Rd T (Z * (Z * Z * Z * Z)) :=
  f ← rd_u1;
  if truth f then l ← rd_ue; r ← rd_ue; t ← rd_ue; b ← rd_ue; mret (f, (l, r, t, b)) else mret (f, (0, 0, 0, 0)).
Definition sps_scaling {T} : Rd T (Z * Z * H265ScalingList) :=
  e ← rd_u1;
  if truth e then
    p ← rd_u1;
    s ← (if truth p then parse_scaling_list_data else mret scaling_list_set_default);
    mret (e, p, s)
  else mret (e, 0, zero_scaling).
Definition sps_pcm {T} : Rd T (Z * (Z * Z * Z * Z * Z)) :=
  e ← rd_u1;
  if truth e then
    l ← rd_u 4; c ← rd_u 4; m ← rd_ue; d ← rd_ue; f ← rd_u1; mret (e, (l, c, u8 m, u8 d, f))
  else mret (e, (0, 0, 0, 0, 0)).
Definition sps_sets {T} : Rd T (list H265ShortTermRPS) :=
  n ← rd_ue;
  if Z.of_nat H265_MAX_SHORT_TERM_RPS <? u8 n then stop H265_PARSE_INVALID else
  read_sets (Z.to_nat (u8 n)) 0 (u8 n) [].
Definition sps_long_term {T} (log2_lsb : nat) : Rd T (Z * list (Z * Z)) :=
  p ← rd_u1;
  if truth p then
    n ← rd_ue;
    if Z.of_nat H265_MAX_LONG_TERM_REFS <? u8 n then stop H265_PARSE_INVALID else
    l ← collect (Z.to_nat (u8 n)) 0 (fun _ => v ← rd_u log2_lsb; u ← rd_u1; mret (u16 v, u));
    mret (p, l)
  else mret (p, []).
Definition sps_size {T} : Rd T (Z * Z) :=
  w ← rd_ue; h ← rd_ue;
  if (w =? 0) || (8192 <? w) || (h =? 0) || (8192 <? h) then stop H265_PARSE_INVALID else mret (w, h).
(** [CtbLog2SizeY], [CtbSizeY]. *)
Definition sps_ctb {T} (min_cb diff : Z) : Rd T (Z * Z) :=
  let log2_ctb := min_cb + 3 + diff in
  size ← need (if log2_ctb <? 32 then Some (u8 (2 ^ log2_ctb)) else None);
  if 6 <? log2_ctb then stop H265_PARSE_INVALID else mret (log2_ctb, size).
Definition in_ctbs (n log2_ctb : Z) : Z := Z.shiftr (u32 (n + 2 ^ log2_ctb - 1)) log2_ctb.

Definition read_sps {T} : Rd T H265Sps :=
  vid ← rd_u 4; sub ← rd_u 3; nesting ← rd_u1;
  if Z.of_nat H265_MAX_SUB_LAYERS <=? sub then stop H265_PARSE_INVALID else
  ptl ← parse_ptl sub;
  id ← rd_ue;
  if H265_MAX_SPS <=? id then stop H265_PARSE_INVALID else
  chroma ← rd_ue; separate ← opt_read (u8 chroma =? 3) rd_u1;
  '(w, h) ← sps_size;
  '(wf, (wl, wr, wt, wb)) ← sps_window;
  luma ← rd_ue; depth_c ← rd_ue; lsb ← rd_ue;
  ordering ← rd_u1;
  let start := if truth ordering then 0%nat else Z.to_nat sub in
  info ← read_ordering start (Z.to_nat sub);
  min_cb ← rd_ue; diff_cb ← rd_ue; min_tb ← rd_ue; diff_tb ← rd_ue; inter ← rd_ue; intra ← rd_ue;
  '(se, sp, sl) ← sps_scaling;
  amp ← rd_u1; sao ← rd_u1;
  '(pcm, (pl, pc, pm, pd, pf)) ← sps_pcm;
  sets ← sps_sets;
  '(lt, lts) ← sps_long_term (Z.to_nat (u8 lsb + 4));
  mvp ← rd_u1; strong ← rd_u1;
  '(log2_ctb, ctb) ← sps_ctb (u8 min_cb) (u8 diff_cb);
  invalid_if_failed;;
  let layers := broadcast (truth ordering) (Z.to_nat sub) in
  mret (MkSps 1 vid sub nesting ptl id (u8 chroma) separate w h wf wl wr wt wb (u8 luma) (u8 depth_c) (u8 lsb)
    ordering (layers (map (fun x => x.1.1) info)) (layers (map (fun x => x.1.2) info)) (layers (map snd info))
    (u8 min_cb) (u8 diff_cb) (u8 min_tb) (u8 diff_tb) (u8 inter) (u8 intra) se sp sl amp sao pcm pl pc pm pd pf
    (Z.of_nat (length sets)) (pad_sets sets)
    lt (Z.of_nat (length lts)) (pad H265_MAX_LONG_TERM_REFS (map fst lts)) (pad H265_MAX_LONG_TERM_REFS (map snd lts))
    mvp strong log2_ctb ctb (in_ctbs w log2_ctb) (in_ctbs h log2_ctb)).
Definition parse_sps : Par unit :=
  s ← read_sps;
  upd (fun o => o <| sps ::= <[Z.to_nat (sps_id s) := s]> |> <| active_sps_id := i8 (sps_id s) |> <| got_sps_in_au := true |>).

(** ** PPS *)
Definition pps_tiles {T} : Rd T (Z * Z * Z * Z) :=
  ncols ← rd_ue; nrows ← rd_ue;
  if (20 <=? ncols) || (22 <=? nrows) then stop H265_PARSE_INVALID else
  u ← rd_u1;
  when (negb (truth u)) (times (Z.to_nat ncols) (skip rd_ue);; times (Z.to_nat nrows) (skip rd_ue));;
  f ← rd_u1;
  mret (ncols, nrows, u, f).
Definition pps_deblocking {T} : Rd T (Z * (Z * Z * Z * Z)) :=
  c ← rd_u1;
  if truth c then
    ov ← rd_u1; dis ← rd_u1;
    if truth dis then mret (c, (ov, dis, 0, 0)) else b ← rd_se; t ← rd_se; mret (c, (ov, dis, i8 b, i8 t))
  else mret (c, (0, 0, 0, 0)).
Definition pps_scaling {T} : Rd T (Z * H265ScalingList) :=
  p ← rd_u1;
  if truth p then s ← parse_scaling_list_data; mret (p, s) else mret (p, zero_scaling).

(** Everything behind the two identifiers. *)
Definition read_pps {T} (id sid : Z) : Rd T H265Pps :=
  dep ← rd_u1; out ← rd_u1; extra ← rd_u 3; sign ← rd_u1; cabac ← rd_u1;
  l0 ← rd_ue; l1 ← rd_ue; qp ← rd_se; constrained ← rd_u1; ts ← rd_u1;
  cu ← rd_u1; depth ← opt_read (truth cu) rd_ue;
  cb ← rd_se; cr ← rd_se; offsets ← rd_u1; wp ← rd_u1; wb ← rd_u1; bypass ← rd_u1; tiles ← rd_u1; sync ← rd_u1;
  '(ncols, nrows, uniform, across) ← (if truth tiles then pps_tiles else mret (0, 0, 1, 1));
  lf ← rd_u1;
  '(dc, (ov, dis, beta, tc)) ← pps_deblocking;
  '(sp, sl) ← pps_scaling;
  lists ← rd_u1; merge ← rd_ue; ext ← rd_u1;
  invalid_if_failed;;
  mret (MkPps 1 id sid dep out extra sign cabac (u8 l0) (u8 l1) (i8 qp) constrained ts cu (u8 depth) (i8 cb) (i8 cr) offsets
    wp wb bypass tiles sync ncols nrows uniform across lf dc ov dis beta tc sp sl lists (u8 merge) ext).
Definition parse_pps : Par unit :=
  id ← rd_ue;
  if H265_MAX_PPS <=? id then stop H265_PARSE_INVALID else
  sid ← rd_ue;
  if H265_MAX_SPS <=? sid then stop H265_PARSE_INVALID else
  o ← get;
  s ← need (sps o !! Z.to_nat sid);
  if negb (truth (sps_valid s)) then stop H265_PARSE_INVALID else
  p ← read_pps id sid;
  upd (fun o => o <| pps ::= <[Z.to_nat id := p]> |> <| active_pps_id := i8 id |> <| got_pps_in_au := true |>).

(** ** Slice segment header *)

(** [m] and the number of bits it takes. *)
Definition measured {T A} (m : Rd T A) : Rd T (A * Z) :=
  b ← rd_pos; a ← m; e ← rd_pos; mret (a, u32 (Z.of_nat e - Z.of_nat b)).

Definition slice_start (nal_unit_type : Z) : Par (H265Sps * H265Pps) :=
  let irap := (H265_NAL_BLA_W_LP <=? nal_unit_type) && (nal_unit_type <=? H265_NAL_CRA_NUT) in
  let idr := (nal_unit_type =? H265_NAL_IDR_W_RADL) || (nal_unit_type =? H265_NAL_IDR_N_LP) in
  f ← rd_u1; on_slice (fun h => h <| first_slice_segment_in_pic_flag := f |>);;
  upd (fun o => o <| is_irap := irap |> <| is_idr := idr |>);;
  when irap (n ← rd_u1; on_slice (fun h => h <| no_output_of_prior_pics_flag := n |>));;
  i ← rd_ue; on_slice (fun h => h <| slice_pic_parameter_set_id := u8 i |>);;
  if H265_MAX_PPS <=? u8 i then stop H265_PARSE_INVALID else
  o ← get;
  p ← need (pps o !! Z.to_nat (u8 i));
  if negb (truth (pps_valid p)) then stop H265_PARSE_INVALID else
  upd (fun o => o <| active_pps_id := i8 (u8 i) |>);;
  s ← need (sps o !! Z.to_nat (pps_sps_id p));
  if negb (truth (sps_valid s)) then stop H265_PARSE_INVALID else
  upd (fun o => o <| active_sps_id := i8 (pps_sps_id p) |>);;
  mret (s, p).
(** Returns [dependent_slice_segment_flag]. *)
Definition slice_address (s : H265Sps) (p : H265Pps) : Par Z :=
  o ← get;
  if truth (first_slice_segment_in_pic_flag (slice o)) then mret 0 else
  d ← opt_read (truth (dependent_slice_segments_enabled_flag p)) rd_u1;
  on_slice (fun h => h <| dependent_slice_segment_flag := d |>);;
  a ← rd_u (ceil_log2 (u32 (pic_width_in_ctbs_y s * pic_height_in_ctbs_y s)));
  on_slice (fun h => h <| slice_segment_address := a |>);;
  mret d.

(** Returns the slice type. *)
Definition slice_kind (s : H265Sps) (p : H265Pps) : Par Z :=
  times (Z.to_nat (num_extra_slice_header_bits p)) (skip rd_u1);;
  t ← rd_ue; on_slice (fun h => h <| slice_type := u8 t |>);;
  if H265_SLICE_TYPE_I <? u8 t then stop H265_PARSE_INVALID else
  when (truth (output_flag_present_flag p)) (f ← rd_u1; on_slice (fun h => h <| pic_output_flag := f |>));;
  when (truth (separate_colour_plane_flag s)) (c ← rd_u 2; on_slice (fun h => h <| colour_plane_id := c |>));;
  mret (u8 t).

Definition slice_set (s : H265Sps) (sps_flag : Z) : Par unit :=
  if negb (truth sps_flag) then
    skip (parse_st_rps (fun r => on_slice (fun h => h <| st_rps_slice := r |>)) (st_rps s)
            (num_short_term_ref_pic_sets s) (num_short_term_ref_pic_sets s))
  else when (1 <? num_short_term_ref_pic_sets s) (
    i ← rd_u (ceil_log2 (num_short_term_ref_pic_sets s)); on_slice (fun h => h <| short_term_ref_pic_set_idx := u8 i |>)).
Definition slice_long_term (s : H265Sps) : Par unit :=
  when (truth (long_term_ref_pics_present_flag s)) (
    n_lt_sps ← opt_read (0 <? num_long_term_ref_pics_sps s) rd_ue;
    n_lt_pics ← rd_ue;
    if (Z.of_nat H265_MAX_LONG_TERM_REFS <? n_lt_sps) || (Z.of_nat H265_MAX_LONG_TERM_REFS <? n_lt_pics) then stop H265_PARSE_INVALID else
    on_slice (fun h => h <| num_long_term_sps := n_lt_sps |> <| num_long_term_pics := n_lt_pics |>);;
    if 0 <? n_lt_sps + n_lt_pics then stop H265_PARSE_UNSUPPORTED else mret tt).
(** The reference picture set of a picture that is not an IDR. *)
Definition slice_pictures (s : H265Sps) : Par unit :=
  lsb ← rd_u (Z.to_nat (log2_max_pic_order_cnt_lsb_minus4 s + 4)); on_slice (fun h => h <| slice_pic_order_cnt_lsb := u16 lsb |>);;
  f ← rd_u1; on_slice (fun h => h <| short_term_ref_pic_set_sps_flag := f |>);;
  '(_, size) ← measured (slice_set s f);
  on_slice (fun h => h <| short_term_ref_pic_set_size := size |>);;
  slice_long_term s;;
  when (truth (sps_temporal_mvp_enabled_flag s)) (m ← rd_u1; on_slice (fun h => h <| slice_temporal_mvp_enabled_flag := m |>)).

Definition slice_sao (s : H265Sps) : Par unit :=
  when (truth (sample_adaptive_offset_enabled_flag s)) (
    l ← rd_u1; on_slice (fun h => h <| slice_sao_luma_flag := l |>);;
    when (negb (chroma_format_idc s =? 0)) (c ← rd_u1; on_slice (fun h => h <| slice_sao_chroma_flag := c |>))).

Definition slice_active (p : H265Pps) (b : bool) : Par unit :=
  ov ← rd_u1; on_slice (fun h => h <| num_ref_idx_active_override_flag := ov |>);;
  if truth ov then
    l0 ← rd_ue; on_slice (fun h => h <| num_ref_idx_l0_active_minus1 := u8 l0 |>);;
    when b (l1 ← rd_ue; on_slice (fun h => h <| num_ref_idx_l1_active_minus1 := u8 l1 |>))
  else on_slice (fun h => h <| num_ref_idx_l0_active_minus1 := num_ref_idx_l0_default_active_minus1 p |>
                            <| num_ref_idx_l1_active_minus1 := num_ref_idx_l1_default_active_minus1 p |>).
(** The pictures of a set that the current one may use. *)
Definition used_pictures (r : H265ShortTermRPS) : nat :=
  length (filter (fun u => truth u = true) (take (Z.to_nat (num_delta_pocs r)) (used_by_curr_pic_flag r))).
(** The set in force: none when the index is past the table. *)
Definition set_in_force (s : H265Sps) (h : H265SliceHeader) : option H265ShortTermRPS :=
  if truth (short_term_ref_pic_set_sps_flag h) then st_rps s !! Z.to_nat (short_term_ref_pic_set_idx h) else Some (st_rps_slice h).
Definition skip_entries (total_refs : nat) (active_minus1 : Z) : Par unit :=
  r ← rd_u1;
  when (truth r) (times (S (Z.to_nat active_minus1)) (skip (rd_u (ceil_log2 (Z.of_nat total_refs))))).
Definition slice_modification (s : H265Sps) (p : H265Pps) (b : bool) : Par unit :=
  o ← get;
  r ← need (set_in_force s (slice o));
  let total_refs := used_pictures r in
  when (truth (lists_modification_present_flag p) && (1 <? total_refs)%nat) (
    skip_entries total_refs (num_ref_idx_l0_active_minus1 (slice o));;
    when b (skip_entries total_refs (num_ref_idx_l1_active_minus1 (slice o)))).
Definition slice_collocated (b : bool) : Par unit :=
  o ← get;
  when (truth (slice_temporal_mvp_enabled_flag (slice o))) (
    l0 ← (if b then rd_u1 else mret 1);
    on_slice (fun h => h <| collocated_from_l0_flag := l0 |>);;
    let active := if truth l0 then num_ref_idx_l0_active_minus1 (slice o) else num_ref_idx_l1_active_minus1 (slice o) in
    when (1 <? active + 1) (i ← rd_ue; on_slice (fun h => h <| collocated_ref_idx := u8 i |>))).

(** The weight flags go to arrays of 16 entries on the stack, with no check. *)
Definition weight_flags (n : nat) : Par (list Z) :=
  if (16 <? n)%nat then need None else collect n 0 (fun _ => rd_u1).
Definition skip_weight (f : Z * Z) : Par unit :=
  when (truth f.1) (skip rd_se;; skip rd_se);;
  when (truth f.2) (skip rd_se;; skip rd_se;; skip rd_se;; skip rd_se).
Definition skip_weights (n : nat) (chroma : bool) : Par unit :=
  luma ← weight_flags n;
  c ← (if chroma then weight_flags n else mret (replicate n 0));
  each skip_weight (zip luma c).
Definition weighted (p : H265Pps) (t : Z) : bool :=
  (truth (weighted_pred_flag p) && (t =? H265_SLICE_TYPE_P)) || (truth (weighted_bipred_flag p) && (t =? H265_SLICE_TYPE_B)).
Definition slice_weights (s : H265Sps) (p : H265Pps) (t : Z) : Par unit :=
  when (weighted p t) (
    let chroma := negb (chroma_format_idc s =? 0) in
    skip rd_ue;; when chroma (skip rd_se);;
    o ← get;
    skip_weights (Z.to_nat (num_ref_idx_l0_active_minus1 (slice o) + 1)) chroma;;
    when (t =? H265_SLICE_TYPE_B) (skip_weights (Z.to_nat (num_ref_idx_l1_active_minus1 (slice o) + 1)) chroma)).
Definition slice_inter (s : H265Sps) (p : H265Pps) (t : Z) : Par unit :=
  let b := t =? H265_SLICE_TYPE_B in
  slice_active p b;;
  slice_modification s p b;;
  when b (m ← rd_u1; on_slice (fun h => h <| mvd_l1_zero_flag := m |>));;
  when (truth (cabac_init_present_flag p)) (c ← rd_u1; on_slice (fun h => h <| cabac_init_flag := c |>));;
  slice_collocated b;;
  slice_weights s p t;;
  m ← rd_ue; on_slice (fun h => h <| five_minus_max_num_merge_cand := u8 m |>).

Definition slice_qp (p : H265Pps) : Par unit :=
  q ← rd_se; on_slice (fun h => h <| slice_qp_delta := i8 q |>);;
  when (truth (pps_slice_chroma_qp_offsets_present_flag p)) (
    cb ← rd_se; on_slice (fun h => h <| slice_cb_qp_offset := i8 cb |>);;
    cr ← rd_se; on_slice (fun h => h <| slice_cr_qp_offset := i8 cr |>)).
Definition slice_deblocking (p : H265Pps) : Par unit :=
  when (truth (deblocking_filter_control_present_flag p)) (
    ov ← opt_read (truth (deblocking_filter_override_enabled_flag p)) rd_u1;
    on_slice (fun h => h <| deblocking_filter_override_flag := ov |>);;
    if truth ov then
      d ← rd_u1; on_slice (fun h => h <| slice_deblocking_filter_disabled_flag := d |>);;
      when (negb (truth d)) (
        b ← rd_se; on_slice (fun h => h <| slice_beta_offset_div2 := i8 b |>);;
        t ← rd_se; on_slice (fun h => h <| slice_tc_offset_div2 := i8 t |>))
    else on_slice (fun h => h <| slice_deblocking_filter_disabled_flag := pps_deblocking_filter_disabled_flag p |>
                              <| slice_beta_offset_div2 := pps_beta_offset_div2 p |> <| slice_tc_offset_div2 := pps_tc_offset_div2 p |>)).
Definition slice_loop_filter (p : H265Pps) : Par unit :=
  o ← get;
  when (truth (pps_loop_filter_across_slices_enabled_flag p) &&
        (truth (slice_sao_luma_flag (slice o)) || truth (slice_sao_chroma_flag (slice o)) ||
         negb (truth (slice_deblocking_filter_disabled_flag (slice o)))))
    (f ← rd_u1; on_slice (fun h => h <| slice_loop_filter_across_slices_enabled_flag := f |>)).

(** What a segment that is not dependent holds. *)
Definition slice_independent (s : H265Sps) (p : H265Pps) : Par unit :=
  t ← slice_kind s p;
  o ← get;
  when (negb (is_idr o)) (slice_pictures s);;
  slice_sao s;;
  when ((t =? H265_SLICE_TYPE_P) || (t =? H265_SLICE_TYPE_B)) (slice_inter s p t);;
  slice_qp p;;
  slice_deblocking p;;
  slice_loop_filter p.

(** [br->failed = true; return H265_PARSE_INVALID;] *)
Definition fail_invalid {A} : Par A := rd_fail;; stop H265_PARSE_INVALID.
Definition slice_entry_points (s : H265Sps) (p : H265Pps) : Par unit :=
  when (truth (tiles_enabled_flag p) || truth (entropy_coding_sync_enabled_flag p)) (
    n_ep ← rd_ue;
    if u32 (pic_height_in_ctbs_y s * (num_tile_columns_minus1 p + 1)) <? n_ep then fail_invalid else
    on_slice (fun h => h <| num_entry_point_offsets := n_ep |>);;
    when (negb (n_ep =? 0)) (
      offset_len_minus1 ← rd_ue;
      if 31 <? offset_len_minus1 then fail_invalid else
      times (Z.to_nat n_ep) (skip (rd_u (Z.to_nat (offset_len_minus1 + 1)))))).
(** Whole bytes behind the reader. *)
Definition rd_remaining {T} : Rd T nat :=
  reader (fun r => (if br_eof r then 0%nat else (length (data r) - (bit_pos r + 7) / 8)%nat, r)).
Definition slice_extension (p : H265Pps) : Par unit :=
  when (truth (slice_segment_header_extension_present_flag p)) (
    length ← rd_ue;
    remaining_bytes ← rd_remaining;
    if Z.of_nat remaining_bytes <? length then fail_invalid else
    times (Z.to_nat length) (skip (rd_u 8))).
(** [while (br->bit_pos & 7) br_u1(br);], at most 7 rounds. *)
Fixpoint align_loop (fuel : nat) : Par unit :=
  match fuel with
  | O => need None
  | S fuel => pos ← rd_pos; if (pos mod 8 =? 0)%nat then mret tt else skip rd_u1;; align_loop fuel
  end.

(** Everything but the alignment. *)
Definition slice_fields (nal_unit_type : Z) : Par unit :=
  upd (fun o => o <| slice := zero_header |>);;
  '(s, p) ← slice_start nal_unit_type;
  d ← slice_address s p;
  when (negb (truth d)) (slice_independent s p);;
  slice_entry_points s p;;
  slice_extension p.
Definition parse_slice_header (nal_unit_type : Z) : Par unit :=
  slice_fields nal_unit_type;;
  skip rd_u1;; align_loop 8;;
  n ← rd_pos; on_slice (fun h => h <| header_bit_size := u32 (Z.of_nat n) |>).
