(* ===== verification/H265Syntax.v ===== *)
(** * The syntax of HEVC parameter sets and slice segment headers

    The fields in the order of the standard (7.3.2.1, 7.3.2.2, 7.3.2.3, 7.3.3, 7.3.4,
    7.3.6, 7.3.7) as they are written, and the structures of [H265Parser] they stand
    for.  A parameter set is written from its structure and the choices the structure
    does not show (how a list or a set is coded, reserved bits). *)

From S2P Require Import Prelude Bits Rbsp RbspFacts H265Parser.

Definition flag_ok (v : Z) : Prop := bits_ok 1 v.

(** ** Profile, tier and level (7.3.3) *)

(** The reserved bits and the sub-layers: their profile and their level, if present. *)
Record ptl_rest := MkPtlRest {
  y_reserved : Z * Z * Z; y_sub_layers : list (option (Z * Z * Z) * option Z) }.
Definition sub_layer_bits (x : option (Z * Z * Z) * option Z) : list bool :=
  from_option (fun p : Z * Z * Z => put 32 p.1.1 ++ put 32 p.1.2 ++ put 24 p.2) [] x.1 ++ from_option (put 8) [] x.2.
Definition present_of (x : option (Z * Z * Z) * option Z) : Z * Z :=
  (Z.b2z (bool_decide (is_Some x.1)), Z.b2z (bool_decide (is_Some x.2))).
Definition present_bits (x : option (Z * Z * Z) * option Z) : list bool := [bool_decide (is_Some x.1); bool_decide (is_Some x.2)].
Definition ptl_bits (p : H265Ptl) (r : ptl_rest) : list bool :=
  let n := length (y_sub_layers r) in
  put 2 (profile_space p) ++ put 1 (tier_flag p) ++ put 5 (profile_idc p) ++ flat_map (put 1) (profile_compatibility_flag p) ++
  put 1 (progressive_source_flag p) ++ put 1 (interlaced_source_flag p) ++ put 1 (non_packed_constraint_flag p) ++
  put 1 (frame_only_constraint_flag p) ++
  put 16 (y_reserved r).1.1 ++ put 16 (y_reserved r).1.2 ++ put 12 (y_reserved r).2 ++ put 8 (level_idc p) ++
  flat_map present_bits (y_sub_layers r) ++ only (0 <? n)%nat (flat_map (put 2) (replicate (8 - n) 0)) ++
  flat_map sub_layer_bits (y_sub_layers r).
Definition ptl_ok (max_sub_layers_minus1 : Z) (p : H265Ptl) (r : ptl_rest) : Prop :=
  bits_ok 2 (profile_space p) /\ flag_ok (tier_flag p) /\ bits_ok 5 (profile_idc p) /\
  (length (profile_compatibility_flag p) = 32%nat /\ Forall flag_ok (profile_compatibility_flag p)) /\
  flag_ok (progressive_source_flag p) /\ flag_ok (interlaced_source_flag p) /\ flag_ok (non_packed_constraint_flag p) /\
  flag_ok (frame_only_constraint_flag p) /\ bits_ok 8 (level_idc p) /\
  bits_ok 16 (y_reserved r).1.1 /\ bits_ok 16 (y_reserved r).1.2 /\ bits_ok 12 (y_reserved r).2 /\
  Z.of_nat (length (y_sub_layers r)) = max_sub_layers_minus1 /\
  Forall (fun x : option (Z * Z * Z) * option Z =>
    opt_ok (fun p : Z * Z * Z => bits_ok 32 p.1.1 /\ bits_ok 32 p.1.2 /\ bits_ok 24 p.2) x.1 /\ opt_ok (bits_ok 8) x.2) (y_sub_layers r).

(** ** Scaling lists (7.3.4) *)

(** Copied from the matrix [delta] steps back, the default when 0; or written, with the DC
    coefficient of the two larger sizes, in scan order. *)
Inductive matrix_syntax := CopiedList (delta : Z) | WrittenList (dc : Z) (vs : list Z).

Definition matrix_bits (sz_id : nat) (y : matrix_syntax) : list bool :=
  match y with
  | CopiedList delta => false :: ue_bits delta
  | WrittenList dc vs =>
      true :: only (2 <=? sz_id)%nat (se_bits (dc - 8)) ++ deltas (if (2 <=? sz_id)%nat then dc else 8) vs
  end.
Definition matrix_effect (id : nat * nat) (y : matrix_syntax) (s : H265ScalingList) : option H265ScalingList :=
  match y with
  | CopiedList delta =>
      if delta =? 0 then Some s else copy_list id.1 id.2 (id.2 - Z.to_nat delta * mat_step id.1) s
  | WrittenList dc vs => Some (set_list id.1 id.2 (raster (scan_of id.1) vs) (set_dc id.1 id.2 dc s))
  end.
Definition matrix_ok (id : nat * nat) (y : matrix_syntax) : Prop :=
  match y with
  | CopiedList delta => 0 <= delta /\ delta * Z.of_nat (mat_step id.1) <= Z.of_nat id.2
  | WrittenList dc vs => 1 <= dc <= 255 /\ length vs = length (scan_of id.1) /\ Forall (fun v => 0 <= v <= 255) vs
  end.
Fixpoint matrices_bits (ids : list (nat * nat)) (ys : list matrix_syntax) : list bool :=
  match ids, ys with id :: ids, y :: ys => matrix_bits id.1 y ++ matrices_bits ids ys | _, _ => [] end.
Fixpoint matrices_effect (ids : list (nat * nat)) (ys : list matrix_syntax) (s : H265ScalingList) : option H265ScalingList :=
  match ids, ys with
  | id :: ids, y :: ys => s ← matrix_effect id y s; matrices_effect ids ys s
  | _, _ => Some s
  end.
(** What the written lists denote. *)
Definition lists_denote (ys : list matrix_syntax) (s : H265ScalingList) : Prop :=
  length ys = length matrix_ids /\ Forall2 matrix_ok matrix_ids ys /\ matrices_effect matrix_ids ys scaling_list_set_default = Some s.

(** ** Reference picture sets (7.3.7) *)

(** The distances minus 1 and used flags of a set written directly; or a prediction from
    the set [delta_idx_minus1 + 1] before, with a used and a use_delta flag per entry. *)
Inductive rps_syntax :=
| DirectSet (negs poss : list (Z * Z))
| PredictedSet (delta_idx_minus1 sign abs_minus1 : Z) (flags : list (Z * Z)).

Definition delta_bits (x : Z * Z) : list bool := ue_bits x.1 ++ put 1 x.2.
Definition flags_bits (x : Z * Z) : list bool := put 1 x.1 ++ only (negb (truth x.1)) (put 1 x.2).
Definition rps_bits (idx num : Z) (y : rps_syntax) : list bool :=
  match y with
  | DirectSet negs poss =>
      only (negb (idx =? 0)) [false] ++ ue_bits (Z.of_nat (length negs)) ++ ue_bits (Z.of_nat (length poss)) ++
      flat_map delta_bits negs ++ flat_map delta_bits poss
  | PredictedSet d sign abs flags =>
      true :: only (idx =? num) (ue_bits d) ++ put 1 sign ++ ue_bits abs ++ flat_map flags_bits flags
  end.
(** The counts of the entries, each further from the picture than the last. *)
Fixpoint run_of (sign prev : Z) (l : list (Z * Z)) : list (Z * Z) :=
  match l with
  | [] => []
  | (d, used) :: l => let poc := prev + sign * (d + 1) in (i16 poc, used) :: run_of sign poc l
  end.
Definition delta_of (sign abs_minus1 : Z) : Z := (1 - 2 * sign) * (abs_minus1 + 1).
Definition set_of (prevs : list H265ShortTermRPS) (idx : Z) (y : rps_syntax) : option H265ShortTermRPS :=
  match y with
  | DirectSet negs poss => Some (rps_of 0 (run_of (-1) 0 negs) (run_of 1 0 poss))
  | PredictedSet d sign abs flags =>
      ref ← prevs !! Z.to_nat (idx - (d + 1));
      '(negs, poss) ← predict_rps ref (delta_of sign abs) flags;
      if (length negs + length poss <=? H265_MAX_REFS)%nat then Some (rps_of 1 negs poss) else None
  end.
Definition rps_ok (prevs : list H265ShortTermRPS) (idx num : Z) (y : rps_syntax) : Prop :=
  match y with
  | DirectSet negs poss =>
      (length negs + length poss <= H265_MAX_REFS)%nat /\
      Forall (fun x => 0 <= x.1 < 2 ^ 15 /\ flag_ok x.2) negs /\ Forall (fun x => 0 <= x.1 < 2 ^ 15 /\ flag_ok x.2) poss
  | PredictedSet d sign abs flags =>
      0 <= d < idx /\ (idx <> num -> d = 0) /\ flag_ok sign /\ 0 <= abs < 2 ^ 15 /\
      Forall (fun x => flag_ok x.1 /\ flag_ok x.2 /\ (x.1 = 1 -> x.2 = 1)) flags /\
      match prevs !! Z.to_nat (idx - (d + 1)) with
      | Some ref => Z.of_nat (length flags) = num_delta_pocs ref + 1 /\ 0 <= num_delta_pocs ref <= 16
      | None => False
      end
  end.
(** The sets of an SPS, each against those before it. *)
Fixpoint sets_bits (idx num : Z) (ys : list rps_syntax) : list bool :=
  match ys with [] => [] | y :: ys => rps_bits idx num y ++ sets_bits (idx + 1) num ys end.
Fixpoint sets_denote (num : Z) (prevs : list H265ShortTermRPS) (ys : list rps_syntax) (l : list H265ShortTermRPS) : Prop :=
  match ys with
  | [] => l = prevs
  | y :: ys => rps_ok prevs (Z.of_nat (length prevs)) num y /\
      match set_of prevs (Z.of_nat (length prevs)) y with Some r => sets_denote num (prevs ++ [r]) ys l | None => False end
  end.

(** ** VPS (7.3.2.1) *)

(** Per sub-layer: buffering, reordering, latency. *)
Definition ordering_bits (x : Z * Z * Z) : list bool := ue_bits x.1.1 ++ ue_bits x.1.2 ++ ue_bits x.2.
Definition ordering_ok (present : Z) (max : Z) (info : list (Z * Z * Z)) : Prop :=
  Z.of_nat (length info) = (if truth present then max + 1 else 1) /\
  Forall (fun x => bits_ok 8 x.1.1 /\ bits_ok 8 x.1.2 /\ ue_ok x.2) info.
Record vps_syntax := MkVpsSyntax {
  y_vps : H265Vps; y_vps_ptl : ptl_rest; y_vps_info : list (Z * Z * Z); y_vps_bits : Z * Z;   (* base layer flags, the 0xffff *)
  y_max_layer_id : Z; y_layer_sets : list (list bool);
  y_vps_timing : option (Z * Z * option Z) }.
Definition timing_bits (t : Z * Z * option Z) : list bool :=
  put 32 t.1.1 ++ put 32 t.1.2 ++ opt_bits ue_bits t.2 ++ ue_bits 0.
Definition vps_bits (y : vps_syntax) : list bool :=
  let v := y_vps y in
  put 4 (vps_id v) ++ put 2 (y_vps_bits y).1 ++ put 6 (vps_max_layers_minus1 v) ++ put 3 (vps_max_sub_layers_minus1 v) ++
  put 1 (vps_temporal_id_nesting_flag v) ++ put 16 (y_vps_bits y).2 ++ ptl_bits (vps_ptl v) (y_vps_ptl y) ++
  put 1 (vps_sub_layer_ordering_info_present_flag v) ++ flat_map ordering_bits (y_vps_info y) ++
  put 6 (y_max_layer_id y) ++ ue_bits (Z.of_nat (length (y_layer_sets y))) ++ concat (y_layer_sets y) ++
  opt_bits timing_bits (y_vps_timing y).
Definition vps_ok (y : vps_syntax) : Prop :=
  let v := y_vps y in
  let start := if truth (vps_sub_layer_ordering_info_present_flag v) then 0%nat else Z.to_nat (vps_max_sub_layers_minus1 v) in
  vps_valid v = 1 /\ bits_ok 4 (vps_id v) /\ bits_ok 2 (y_vps_bits y).1 /\ bits_ok 6 (vps_max_layers_minus1 v) /\
  0 <= vps_max_sub_layers_minus1 v <= 6 /\ flag_ok (vps_temporal_id_nesting_flag v) /\ bits_ok 16 (y_vps_bits y).2 /\
  ptl_ok (vps_max_sub_layers_minus1 v) (vps_ptl v) (y_vps_ptl y) /\ flag_ok (vps_sub_layer_ordering_info_present_flag v) /\
  ordering_ok (vps_sub_layer_ordering_info_present_flag v) (vps_max_sub_layers_minus1 v) (y_vps_info y) /\
  vps_max_dec_pic_buffering_minus1 v = place start (map (fun x => x.1.1) (y_vps_info y)) /\
  vps_max_num_reorder_pics v = place start (map (fun x => x.1.2) (y_vps_info y)) /\
  vps_max_latency_increase_plus1 v = place start (map snd (y_vps_info y)) /\
  bits_ok 6 (y_max_layer_id y) /\ Z.of_nat (length (y_layer_sets y)) < 2 ^ 10 /\
  Forall (fun l => Z.of_nat (length l) = y_max_layer_id y + 1) (y_layer_sets y) /\
  opt_ok (fun t => bits_ok 32 t.1.1 /\ bits_ok 32 t.1.2 /\ opt_ok ue_ok t.2) (y_vps_timing y).

(** ** SPS (7.3.2.2) *)
Record sps_syntax := MkSpsSyntax {
  y_sps : H265Sps; y_sps_ptl : ptl_rest; y_sps_info : list (Z * Z * Z);
  y_sps_lists : list matrix_syntax; y_sets : list rps_syntax; y_long_term : list (Z * Z) }.
Definition window_bits (s : H265Sps) : list bool :=
  put 1 (conformance_window_flag s) ++
  only (truth (conformance_window_flag s))
    (ue_bits (conf_win_left_offset s) ++ ue_bits (conf_win_right_offset s) ++ ue_bits (conf_win_top_offset s) ++ ue_bits (conf_win_bottom_offset s)).
Definition sps_scaling_bits (y : sps_syntax) : list bool :=
  let s := y_sps y in
  put 1 (scaling_list_enabled_flag s) ++
  only (truth (scaling_list_enabled_flag s))
    (put 1 (sps_scaling_list_data_present_flag s) ++
     only (truth (sps_scaling_list_data_present_flag s)) (matrices_bits matrix_ids (y_sps_lists y))).
Definition pcm_bits (s : H265Sps) : list bool :=
  put 1 (pcm_enabled_flag s) ++
  only (truth (pcm_enabled_flag s))
    (put 4 (pcm_sample_bit_depth_luma_minus1 s) ++ put 4 (pcm_sample_bit_depth_chroma_minus1 s) ++
     ue_bits (log2_min_pcm_luma_coding_block_size_minus3 s) ++ ue_bits (log2_diff_max_min_pcm_luma_coding_block_size s) ++
     put 1 (pcm_loop_filter_disabled_flag s)).
Definition lsb_width (s : H265Sps) : nat := Z.to_nat (log2_max_pic_order_cnt_lsb_minus4 s + 4).
Definition long_term_bits (y : sps_syntax) : list bool :=
  let s := y_sps y in
  put 1 (long_term_ref_pics_present_flag s) ++
  only (truth (long_term_ref_pics_present_flag s))
    (ue_bits (Z.of_nat (length (y_long_term y))) ++ flat_map (fun x : Z * Z => put (lsb_width s) x.1 ++ put 1 x.2) (y_long_term y)).
Definition sps_bits (y : sps_syntax) : list bool :=
  let s := y_sps y in
  put 4 (sps_vps_id s) ++ put 3 (sps_max_sub_layers_minus1 s) ++ put 1 (sps_temporal_id_nesting_flag s) ++
  ptl_bits (sps_ptl s) (y_sps_ptl y) ++ ue_bits (sps_id s) ++
  ue_bits (chroma_format_idc s) ++ only (chroma_format_idc s =? 3) (put 1 (separate_colour_plane_flag s)) ++
  ue_bits (pic_width_in_luma_samples s) ++ ue_bits (pic_height_in_luma_samples s) ++ window_bits s ++
  ue_bits (bit_depth_luma_minus8 s) ++ ue_bits (bit_depth_chroma_minus8 s) ++ ue_bits (log2_max_pic_order_cnt_lsb_minus4 s) ++
  put 1 (sps_sub_layer_ordering_info_present_flag s) ++ flat_map ordering_bits (y_sps_info y) ++
  ue_bits (log2_min_luma_coding_block_size_minus3 s) ++ ue_bits (log2_diff_max_min_luma_coding_block_size s) ++
  ue_bits (log2_min_luma_transform_block_size_minus2 s) ++ ue_bits (log2_diff_max_min_luma_transform_block_size s) ++
  ue_bits (max_transform_hierarchy_depth_inter s) ++ ue_bits (max_transform_hierarchy_depth_intra s) ++
  sps_scaling_bits y ++ put 1 (amp_enabled_flag s) ++ put 1 (sample_adaptive_offset_enabled_flag s) ++ pcm_bits s ++
  ue_bits (Z.of_nat (length (y_sets y))) ++ sets_bits 0 (Z.of_nat (length (y_sets y))) (y_sets y) ++ long_term_bits y ++
  put 1 (sps_temporal_mvp_enabled_flag s) ++ put 1 (strong_intra_smoothing_enabled_flag s).

Definition absent (present : bool) (l : list Z) : Prop := if present then True else Forall (fun v => v = 0) l.
Record sps_ok (y : sps_syntax) (s : H265Sps) (sets : list H265ShortTermRPS) : Prop := {
  so_sps : y_sps y = s;
  so_valid : sps_valid s = 1; so_vps : bits_ok 4 (sps_vps_id s); so_sub : 0 <= sps_max_sub_layers_minus1 s <= 6;
  so_nesting : flag_ok (sps_temporal_id_nesting_flag s); so_ptl : ptl_ok (sps_max_sub_layers_minus1 s) (sps_ptl s) (y_sps_ptl y);
  so_id : 0 <= sps_id s < 32; so_chroma : bits_ok 8 (chroma_format_idc s);
  so_separate : flag_ok (separate_colour_plane_flag s) /\ absent (chroma_format_idc s =? 3) [separate_colour_plane_flag s];
  so_width : 1 <= pic_width_in_luma_samples s <= 8192; so_height : 1 <= pic_height_in_luma_samples s <= 8192;
  so_window : flag_ok (conformance_window_flag s) /\ ue_ok (conf_win_left_offset s) /\ ue_ok (conf_win_right_offset s) /\
    ue_ok (conf_win_top_offset s) /\ ue_ok (conf_win_bottom_offset s) /\
    absent (truth (conformance_window_flag s)) [conf_win_left_offset s; conf_win_right_offset s; conf_win_top_offset s; conf_win_bottom_offset s];
  so_luma : bits_ok 8 (bit_depth_luma_minus8 s); so_depth : bits_ok 8 (bit_depth_chroma_minus8 s);
  so_lsb : 0 <= log2_max_pic_order_cnt_lsb_minus4 s <= 12;
  so_ordering : flag_ok (sps_sub_layer_ordering_info_present_flag s) /\
    ordering_ok (sps_sub_layer_ordering_info_present_flag s) (sps_max_sub_layers_minus1 s) (y_sps_info y);
  so_layers : let layers := broadcast (truth (sps_sub_layer_ordering_info_present_flag s)) (Z.to_nat (sps_max_sub_layers_minus1 s)) in
    sps_max_dec_pic_buffering_minus1 s = layers (map (fun x => x.1.1) (y_sps_info y)) /\
    sps_max_num_reorder_pics s = layers (map (fun x => x.1.2) (y_sps_info y)) /\
    sps_max_latency_increase_plus1 s = layers (map snd (y_sps_info y));
  so_min_cb : bits_ok 8 (log2_min_luma_coding_block_size_minus3 s); so_diff_cb : bits_ok 8 (log2_diff_max_min_luma_coding_block_size s);
  so_min_tb : bits_ok 8 (log2_min_luma_transform_block_size_minus2 s); so_diff_tb : bits_ok 8 (log2_diff_max_min_luma_transform_block_size s);
  so_inter : bits_ok 8 (max_transform_hierarchy_depth_inter s); so_intra : bits_ok 8 (max_transform_hierarchy_depth_intra s);
  so_scaling : flag_ok (scaling_list_enabled_flag s) /\ flag_ok (sps_scaling_list_data_present_flag s) /\
    if truth (scaling_list_enabled_flag s) then
      if truth (sps_scaling_list_data_present_flag s) then lists_denote (y_sps_lists y) (sps_scaling_list s)
      else sps_scaling_list s = scaling_list_set_default
    else sps_scaling_list_data_present_flag s = 0 /\ sps_scaling_list s = zero_scaling;
  so_amp : flag_ok (amp_enabled_flag s); so_sao : flag_ok (sample_adaptive_offset_enabled_flag s);
  so_pcm : flag_ok (pcm_enabled_flag s) /\ bits_ok 4 (pcm_sample_bit_depth_luma_minus1 s) /\ bits_ok 4 (pcm_sample_bit_depth_chroma_minus1 s) /\
    bits_ok 8 (log2_min_pcm_luma_coding_block_size_minus3 s) /\ bits_ok 8 (log2_diff_max_min_pcm_luma_coding_block_size s) /\
    flag_ok (pcm_loop_filter_disabled_flag s) /\
    absent (truth (pcm_enabled_flag s)) [pcm_sample_bit_depth_luma_minus1 s; pcm_sample_bit_depth_chroma_minus1 s;
      log2_min_pcm_luma_coding_block_size_minus3 s; log2_diff_max_min_pcm_luma_coding_block_size s; pcm_loop_filter_disabled_flag s];
  so_count : (length (y_sets y) <= 64)%nat; so_sets : sets_denote (Z.of_nat (length (y_sets y))) [] (y_sets y) sets;
  so_st_rps : num_short_term_ref_pic_sets s = Z.of_nat (length sets) /\ st_rps s = pad_sets sets;
  so_long_term : flag_ok (long_term_ref_pics_present_flag s) /\
    (truth (long_term_ref_pics_present_flag s) = false -> y_long_term y = []) /\
    (length (y_long_term y) <= 32)%nat /\ Forall (fun x => bits_ok (Z.of_nat (lsb_width s)) x.1 /\ flag_ok x.2) (y_long_term y) /\
    num_long_term_ref_pics_sps s = Z.of_nat (length (y_long_term y)) /\
    lt_ref_pic_poc_lsb_sps s = pad H265_MAX_LONG_TERM_REFS (map fst (y_long_term y)) /\
    used_by_curr_pic_lt_sps_flag s = pad H265_MAX_LONG_TERM_REFS (map snd (y_long_term y));
  so_mvp : flag_ok (sps_temporal_mvp_enabled_flag s); so_strong : flag_ok (strong_intra_smoothing_enabled_flag s);
  so_ctb : ctb_log2_size_y s = log2_min_luma_coding_block_size_minus3 s + 3 + log2_diff_max_min_luma_coding_block_size s /\
    ctb_log2_size_y s <= 6 /\ ctb_size_y s = 2 ^ ctb_log2_size_y s /\
    pic_width_in_ctbs_y s = (pic_width_in_luma_samples s + ctb_size_y s - 1) / ctb_size_y s /\
    pic_height_in_ctbs_y s = (pic_height_in_luma_samples s + ctb_size_y s - 1) / ctb_size_y s }.

(** ** PPS (7.3.2.3) *)
Record pps_syntax := MkPpsSyntax {
  y_pps : H265Pps; y_widths : list Z; y_heights : list Z; y_pps_lists : list matrix_syntax }.
Definition tiles_bits (y : pps_syntax) : list bool :=
  let p := y_pps y in
  only (truth (tiles_enabled_flag p))
    (ue_bits (num_tile_columns_minus1 p) ++ ue_bits (num_tile_rows_minus1 p) ++ put 1 (uniform_spacing_flag p) ++
     only (negb (truth (uniform_spacing_flag p))) (flat_map ue_bits (y_widths y) ++ flat_map ue_bits (y_heights y)) ++
     put 1 (loop_filter_across_tiles_enabled_flag p)).
Definition pps_deblocking_bits (p : H265Pps) : list bool :=
  put 1 (deblocking_filter_control_present_flag p) ++
  only (truth (deblocking_filter_control_present_flag p))
    (put 1 (deblocking_filter_override_enabled_flag p) ++ put 1 (pps_deblocking_filter_disabled_flag p) ++
     only (negb (truth (pps_deblocking_filter_disabled_flag p))) (se_bits (pps_beta_offset_div2 p) ++ se_bits (pps_tc_offset_div2 p))).
Definition pps_scaling_bits (y : pps_syntax) : list bool :=
  put 1 (pps_scaling_list_data_present_flag (y_pps y)) ++
  only (truth (pps_scaling_list_data_present_flag (y_pps y))) (matrices_bits matrix_ids (y_pps_lists y)).
Definition pps_bits (y : pps_syntax) : list bool :=
  let p := y_pps y in
  ue_bits (pps_id p) ++ ue_bits (pps_sps_id p) ++
  put 1 (dependent_slice_segments_enabled_flag p) ++ put 1 (output_flag_present_flag p) ++ put 3 (num_extra_slice_header_bits p) ++
  put 1 (sign_data_hiding_enabled_flag p) ++ put 1 (cabac_init_present_flag p) ++
  ue_bits (num_ref_idx_l0_default_active_minus1 p) ++ ue_bits (num_ref_idx_l1_default_active_minus1 p) ++ se_bits (init_qp_minus26 p) ++
  put 1 (constrained_intra_pred_flag p) ++ put 1 (transform_skip_enabled_flag p) ++
  put 1 (cu_qp_delta_enabled_flag p) ++ only (truth (cu_qp_delta_enabled_flag p)) (ue_bits (diff_cu_qp_delta_depth p)) ++
  se_bits (pps_cb_qp_offset p) ++ se_bits (pps_cr_qp_offset p) ++ put 1 (pps_slice_chroma_qp_offsets_present_flag p) ++
  put 1 (weighted_pred_flag p) ++ put 1 (weighted_bipred_flag p) ++ put 1 (transquant_bypass_enabled_flag p) ++
  put 1 (tiles_enabled_flag p) ++ put 1 (entropy_coding_sync_enabled_flag p) ++ tiles_bits y ++
  put 1 (pps_loop_filter_across_slices_enabled_flag p) ++ pps_deblocking_bits p ++ pps_scaling_bits y ++
  put 1 (lists_modification_present_flag p) ++ ue_bits (log2_parallel_merge_level_minus2 p) ++
  put 1 (slice_segment_header_extension_present_flag p).
Record pps_ok (y : pps_syntax) (p : H265Pps) : Prop := {
  po_pps : y_pps y = p;
  po_valid : pps_valid p = 1; po_id : 0 <= pps_id p < 64; po_sps : 0 <= pps_sps_id p < 32;
  po_dep : flag_ok (dependent_slice_segments_enabled_flag p); po_out : flag_ok (output_flag_present_flag p);
  po_extra : bits_ok 3 (num_extra_slice_header_bits p); po_sign : flag_ok (sign_data_hiding_enabled_flag p);
  po_cabac : flag_ok (cabac_init_present_flag p);
  po_l0 : bits_ok 8 (num_ref_idx_l0_default_active_minus1 p); po_l1 : bits_ok 8 (num_ref_idx_l1_default_active_minus1 p);
  po_qp : offset_ok (init_qp_minus26 p); po_constrained : flag_ok (constrained_intra_pred_flag p);
  po_ts : flag_ok (transform_skip_enabled_flag p);
  po_cu : flag_ok (cu_qp_delta_enabled_flag p) /\ bits_ok 8 (diff_cu_qp_delta_depth p) /\
    absent (truth (cu_qp_delta_enabled_flag p)) [diff_cu_qp_delta_depth p];
  po_cb : offset_ok (pps_cb_qp_offset p); po_cr : offset_ok (pps_cr_qp_offset p);
  po_offsets : flag_ok (pps_slice_chroma_qp_offsets_present_flag p); po_weighted : flag_ok (weighted_pred_flag p);
  po_bipred : flag_ok (weighted_bipred_flag p); po_bypass : flag_ok (transquant_bypass_enabled_flag p);
  po_sync : flag_ok (entropy_coding_sync_enabled_flag p);
  po_tiles : flag_ok (tiles_enabled_flag p) /\
    if truth (tiles_enabled_flag p) then
      0 <= num_tile_columns_minus1 p < 20 /\ 0 <= num_tile_rows_minus1 p < 22 /\ flag_ok (uniform_spacing_flag p) /\
      flag_ok (loop_filter_across_tiles_enabled_flag p) /\
      Z.of_nat (length (y_widths y)) = num_tile_columns_minus1 p /\ Z.of_nat (length (y_heights y)) = num_tile_rows_minus1 p /\
      Forall ue_ok (y_widths y) /\ Forall ue_ok (y_heights y)
    else num_tile_columns_minus1 p = 0 /\ num_tile_rows_minus1 p = 0 /\ uniform_spacing_flag p = 1 /\ loop_filter_across_tiles_enabled_flag p = 1;
  po_lf : flag_ok (pps_loop_filter_across_slices_enabled_flag p);
  po_deblocking : flag_ok (deblocking_filter_control_present_flag p) /\ flag_ok (deblocking_filter_override_enabled_flag p) /\
    flag_ok (pps_deblocking_filter_disabled_flag p) /\ offset_ok (pps_beta_offset_div2 p) /\ offset_ok (pps_tc_offset_div2 p) /\
    absent (truth (deblocking_filter_control_present_flag p)) [deblocking_filter_override_enabled_flag p; pps_deblocking_filter_disabled_flag p] /\
    absent (truth (deblocking_filter_control_present_flag p) && negb (truth (pps_deblocking_filter_disabled_flag p)))
      [pps_beta_offset_div2 p; pps_tc_offset_div2 p];
  po_scaling : flag_ok (pps_scaling_list_data_present_flag p) /\
    if truth (pps_scaling_list_data_present_flag p) then lists_denote (y_pps_lists y) (pps_scaling_list p)
    else pps_scaling_list p = zero_scaling;
  po_lists : flag_ok (lists_modification_present_flag p); po_merge : bits_ok 8 (log2_parallel_merge_level_minus2 p);
  po_ext : flag_ok (slice_segment_header_extension_present_flag p) }.

(** ** Slice segment header (7.3.6) *)

(** The set of the picture: an entry of the SPS, or one of its own. *)
Inductive set_choice := SpsSet (idx : Z) | OwnSet (y : rps_syntax).
Definition weight_syntax : Type := option (Z * Z) * option (Z * Z * Z * Z).
(** A list or not: the entries of a list that is modified. *)
Record slice_syntax := MkSliceSyntax {
  z_first : bool; z_no_output : bool; z_pps_id : Z; z_dependent : bool; z_address : Z;
  z_extra : list bool; z_type : Z; z_output : bool; z_colour_plane : Z;
  z_lsb : Z; z_set : set_choice; z_mvp : bool; z_sao_luma : bool; z_sao_chroma : bool;
  z_override : option (Z * Z); z_entries0 : option (list Z); z_entries1 : option (list Z);
  z_mvd_l1_zero : bool; z_cabac_init : bool; z_from_l0 : bool; z_ref_idx : Z;
  z_denominators : Z * Z; z_weights0 : list weight_syntax; z_weights1 : list weight_syntax; z_merge : Z;
  z_qp : Z; z_cb : Z; z_cr : Z;
  z_deblocking : option (bool * Z * Z); z_loop_filter : bool;   (* an override: disabled, beta, tc *)
  z_offset_len : Z; z_offsets : list Z; z_extension : list Z }.

Section slice_syntax.
Context (nal_unit_type : Z) (s : H265Sps) (p : H265Pps).
Implicit Types z : slice_syntax.

(** Which parts a header has. *)
Definition irap : bool := (16 <=? nal_unit_type) && (nal_unit_type <=? 21).
Definition idr : bool := (nal_unit_type =? 19) || (nal_unit_type =? 20).
Definition dependent z : bool := negb (z_first z) && truth (dependent_slice_segments_enabled_flag p) && z_dependent z.
Definition own z : bool := negb (dependent z).
Definition pictures z : bool := own z && negb idr.
Definition is_b z : bool := z_type z =? H265_SLICE_TYPE_B.
Definition inter z : bool := own z && ((z_type z =? H265_SLICE_TYPE_P) || (z_type z =? H265_SLICE_TYPE_B)).
Definition has_chroma : bool := negb (chroma_format_idc s =? 0).
Definition sao z : bool := own z && truth (sample_adaptive_offset_enabled_flag s).
Definition mvp z : bool := pictures z && truth (sps_temporal_mvp_enabled_flag s) && z_mvp z.
Definition from_l0 z : bool := negb (is_b z) || z_from_l0 z.
Definition active0 z : Z := match z_override z with Some (a, _) => a | None => num_ref_idx_l0_default_active_minus1 p end.
Definition active1 z : Z :=
  match z_override z with Some (_, b) => if is_b z then b else 0 | None => num_ref_idx_l1_default_active_minus1 p end.
Definition collocated z : bool := inter z && mvp z && (1 <? (if from_l0 z then active0 z else active1 z) + 1).
Definition has_sps_set z : bool := match z_set z with SpsSet _ => true | OwnSet _ => false end.
Definition sets_before : list H265ShortTermRPS := st_rps s.
(** The reference picture set of the slice. *)
Definition own_set z : H265ShortTermRPS :=
  match z_set z with OwnSet y => default zero_rps (set_of sets_before (num_short_term_ref_pic_sets s) y) | SpsSet _ => zero_rps end.
Definition set_index z : Z := match z_set z with SpsSet i => if 1 <? num_short_term_ref_pic_sets s then i else 0 | OwnSet _ => 0 end.
Definition slice_rps z : H265ShortTermRPS :=
  if pictures z && has_sps_set z then default zero_rps (st_rps s !! Z.to_nat (set_index z))
  else if pictures z then own_set z else zero_rps.
Definition total_refs z : nat := used_pictures (slice_rps z).
Definition deblocking_overridden z : bool := truth (deblocking_filter_override_enabled_flag p) && bool_decide (is_Some (z_deblocking z)).
(** The deblocking parameters in force: disabled, beta, tc. *)
Definition deblocking z : Z * Z * Z :=
  if own z && truth (deblocking_filter_control_present_flag p) then
    match z_deblocking z with
    | Some (d, b, t) =>
        if truth (deblocking_filter_override_enabled_flag p) then (Z.b2z d, if d then 0 else b, if d then 0 else t)
        else (pps_deblocking_filter_disabled_flag p, pps_beta_offset_div2 p, pps_tc_offset_div2 p)
    | None => (pps_deblocking_filter_disabled_flag p, pps_beta_offset_div2 p, pps_tc_offset_div2 p)
    end
  else (0, 0, 0).
Definition loop_filter z : bool :=
  own z && truth (pps_loop_filter_across_slices_enabled_flag p) &&
  ((sao z && z_sao_luma z) || (sao z && has_chroma && z_sao_chroma z) || negb (truth (deblocking z).1.1)).
Definition entry_points : bool := truth (tiles_enabled_flag p) || truth (entropy_coding_sync_enabled_flag p).

(** The bits. *)
Definition address_width : nat := ceil_log2 (u32 (pic_width_in_ctbs_y s * pic_height_in_ctbs_y s)).
Definition start_bits z : list bool := z_first z :: only irap [z_no_output z] ++ ue_bits (z_pps_id z).
Definition address_bits z : list bool :=
  only (negb (z_first z)) (only (truth (dependent_slice_segments_enabled_flag p)) [z_dependent z] ++ put address_width (z_address z)).
Definition kind_bits z : list bool :=
  z_extra z ++ ue_bits (z_type z) ++ only (truth (output_flag_present_flag p)) [z_output z] ++
  only (truth (separate_colour_plane_flag s)) (put 2 (z_colour_plane z)).
Definition set_bits z : list bool :=
  match z_set z with
  | OwnSet y => rps_bits (num_short_term_ref_pic_sets s) (num_short_term_ref_pic_sets s) y
  | SpsSet i => only (1 <? num_short_term_ref_pic_sets s) (put (ceil_log2 (num_short_term_ref_pic_sets s)) i)
  end.
Definition slice_lt_bits : list bool :=
  only (truth (long_term_ref_pics_present_flag s)) (only (0 <? num_long_term_ref_pics_sps s) (ue_bits 0) ++ ue_bits 0).
Definition pictures_bits z : list bool :=
  put (lsb_width s) (z_lsb z) ++ has_sps_set z :: set_bits z ++ slice_lt_bits ++ only (truth (sps_temporal_mvp_enabled_flag s)) [z_mvp z].
Definition sao_bits z : list bool :=
  only (truth (sample_adaptive_offset_enabled_flag s)) (z_sao_luma z :: only has_chroma [z_sao_chroma z]).
Definition entries_bits z (o : option (list Z)) : list bool := opt_bits (flat_map (put (ceil_log2 (Z.of_nat (total_refs z))))) o.
Definition slice_mod_bits z : list bool :=
  only (truth (lists_modification_present_flag p) && (1 <? total_refs z)%nat)
    (entries_bits z (z_entries0 z) ++ only (is_b z) (entries_bits z (z_entries1 z))).
Definition weight_bits (w : weight_syntax) : list bool :=
  from_option (fun l : Z * Z => se_bits l.1 ++ se_bits l.2) [] w.1 ++
  from_option (fun c : Z * Z * Z * Z => se_bits c.1.1.1 ++ se_bits c.1.1.2 ++ se_bits c.1.2 ++ se_bits c.2) [] w.2.
Definition weight_list_bits (l : list weight_syntax) : list bool :=
  map (fun w => bool_decide (is_Some w.1)) l ++ only has_chroma (map (fun w => bool_decide (is_Some w.2)) l) ++ flat_map weight_bits l.
Definition weights_bits z : list bool :=
  only (weighted p (z_type z))
    (ue_bits (z_denominators z).1 ++ only has_chroma (se_bits (z_denominators z).2) ++
     weight_list_bits (z_weights0 z) ++ only (is_b z) (weight_list_bits (z_weights1 z))).
Definition inter_bits z : list bool :=
  opt_bits (fun a : Z * Z => ue_bits a.1 ++ only (is_b z) (ue_bits a.2)) (z_override z) ++ slice_mod_bits z ++
  only (is_b z) [z_mvd_l1_zero z] ++ only (truth (cabac_init_present_flag p)) [z_cabac_init z] ++
  only (mvp z) (only (is_b z) [z_from_l0 z] ++ only (1 <? (if from_l0 z then active0 z else active1 z) + 1) (ue_bits (z_ref_idx z))) ++
  weights_bits z ++ ue_bits (z_merge z).
Definition qp_bits z : list bool :=
  se_bits (z_qp z) ++ only (truth (pps_slice_chroma_qp_offsets_present_flag p)) (se_bits (z_cb z) ++ se_bits (z_cr z)).
Definition deblocking_bits z : list bool :=
  only (truth (deblocking_filter_control_present_flag p))
    (only (truth (deblocking_filter_override_enabled_flag p))
       (opt_bits (fun x : bool * Z * Z => x.1.1 :: only (negb x.1.1) (se_bits x.1.2 ++ se_bits x.2)) (z_deblocking z))).
Definition own_bits z : list bool :=
  kind_bits z ++ only (negb idr) (pictures_bits z) ++ sao_bits z ++ only (inter z) (inter_bits z) ++ qp_bits z ++
  deblocking_bits z ++ only (loop_filter z) [z_loop_filter z].
Definition points_bits z : list bool :=
  only entry_points
    (ue_bits (Z.of_nat (length (z_offsets z))) ++
     only (negb (Z.of_nat (length (z_offsets z)) =? 0)) (ue_bits (z_offset_len z) ++ flat_map (put (Z.to_nat (z_offset_len z + 1))) (z_offsets z))).
Definition extension_bits z : list bool :=
  only (truth (slice_segment_header_extension_present_flag p))
    (ue_bits (Z.of_nat (length (z_extension z))) ++ flat_map (put 8) (z_extension z)).
Definition fields_bits z : list bool :=
  start_bits z ++ address_bits z ++ only (own z) (own_bits z) ++ points_bits z ++ extension_bits z.
(** With the alignment: a one, then zeros to the next byte. *)
Definition slice_bits z : list bool :=
  fields_bits z ++ true :: replicate (7 - length (fields_bits z) mod 8) false.

Definition entries_ok z (active_minus1 : Z) (o : option (list Z)) : Prop :=
  opt_ok (fun l => Z.of_nat (length l) = active_minus1 + 1 /\ Forall (fun v => bits_ok (Z.of_nat (ceil_log2 (Z.of_nat (total_refs z)))) v) l) o.
Definition weight_ok (w : weight_syntax) : Prop :=
  opt_ok (fun l : Z * Z => se_ok l.1 /\ se_ok l.2) w.1 /\ (has_chroma = false -> w.2 = None) /\
  opt_ok (fun c : Z * Z * Z * Z => se_ok c.1.1.1 /\ se_ok c.1.1.2 /\ se_ok c.1.2 /\ se_ok c.2) w.2.
Record slice_ok z : Prop := {
  ok_pps : 0 <= z_pps_id z < 64; ok_address : bits_ok (Z.of_nat address_width) (z_address z);
  ok_extra : Z.of_nat (length (z_extra z)) = num_extra_slice_header_bits p; ok_type : 0 <= z_type z <= 2;
  ok_plane : bits_ok 2 (z_colour_plane z); ok_lsb : bits_ok (Z.of_nat (lsb_width s)) (z_lsb z);
  ok_set : match z_set z with
           | SpsSet i => bits_ok (Z.of_nat (ceil_log2 (num_short_term_ref_pic_sets s))) i
           | OwnSet y => rps_ok sets_before (num_short_term_ref_pic_sets s) (num_short_term_ref_pic_sets s) y /\
               is_Some (set_of sets_before (num_short_term_ref_pic_sets s) y)
           end;
  ok_refs : (total_refs z <= H265_MAX_REFS)%nat;
  ok_override : opt_ok (fun a : Z * Z => bits_ok 8 a.1 /\ bits_ok 8 a.2) (z_override z);
  ok_entries0 : entries_ok z (active0 z) (z_entries0 z); ok_entries1 : entries_ok z (active1 z) (z_entries1 z);
  ok_ref_idx : bits_ok 8 (z_ref_idx z); ok_denominators : ue_ok (z_denominators z).1 /\ se_ok (z_denominators z).2;
  ok_weights : inter z = true -> weighted p (z_type z) = true ->
    Z.of_nat (length (z_weights0 z)) = active0 z + 1 /\ active0 z < 16 /\
    (is_b z = true -> Z.of_nat (length (z_weights1 z)) = active1 z + 1 /\ active1 z < 16);
  ok_weights0 : Forall weight_ok (z_weights0 z); ok_weights1 : Forall weight_ok (z_weights1 z);
  ok_merge : bits_ok 8 (z_merge z); ok_qp : offset_ok (z_qp z); ok_cb : offset_ok (z_cb z); ok_cr : offset_ok (z_cr z);
  ok_deblocking : opt_ok (fun x : bool * Z * Z => offset_ok x.1.2 /\ offset_ok x.2) (z_deblocking z);
  ok_points : Z.of_nat (length (z_offsets z)) <= pic_height_in_ctbs_y s * (num_tile_columns_minus1 p + 1) /\ 0 <= z_offset_len z <= 31 /\
    Forall (bits_ok (z_offset_len z + 1)) (z_offsets z);
  ok_extension : Z.of_nat (length (z_extension z)) < 2 ^ 16 /\ Forall (bits_ok 8) (z_extension z) }.
(** What is used of the parameter sets in force. *)
Definition sets_ok : Prop :=
  0 <= log2_max_pic_order_cnt_lsb_minus4 s <= 12 /\ 0 <= num_extra_slice_header_bits p /\
  0 <= num_short_term_ref_pic_sets s <= 64 /\ length (st_rps s) = 64%nat /\
  bits_ok 8 (num_ref_idx_l0_default_active_minus1 p) /\ bits_ok 8 (num_ref_idx_l1_default_active_minus1 p) /\
  0 <= pic_width_in_ctbs_y s <= 1024 /\ 0 <= pic_height_in_ctbs_y s <= 1024 /\ 0 <= num_tile_columns_minus1 p < 20 /\
  bits_ok 8 (pps_deblocking_filter_disabled_flag p) /\
  0 <= pps_sps_id p < 32.

(** The structure a header denotes, with the number of bits it was written in. *)
Definition when0 (b : bool) (v : Z) : Z := if b then v else 0.
Definition header_of z (n : Z) : H265SliceHeader :=
  MkSliceHeader (Z.b2z (z_first z)) (Z.b2z (irap && z_no_output z)) (z_pps_id z)
    (Z.b2z (dependent z)) (when0 (negb (z_first z)) (z_address z))
    (when0 (own z) (z_type z)) (Z.b2z (own z && truth (output_flag_present_flag p) && z_output z))
    (when0 (own z && truth (separate_colour_plane_flag s)) (z_colour_plane z))
    (when0 (pictures z) (z_lsb z)) (Z.b2z (pictures z && has_sps_set z)) (when0 (pictures z) (set_index z))
    (if pictures z then own_set z else zero_rps) 0 0 (Z.b2z (mvp z))
    (Z.b2z (sao z && z_sao_luma z)) (Z.b2z (sao z && has_chroma && z_sao_chroma z))
    (Z.b2z (inter z && bool_decide (is_Some (z_override z)))) (when0 (inter z) (active0 z)) (when0 (inter z) (active1 z))
    (Z.b2z (inter z && is_b z && z_mvd_l1_zero z)) (Z.b2z (inter z && truth (cabac_init_present_flag p) && z_cabac_init z))
    (Z.b2z (inter z && mvp z && from_l0 z)) (when0 (collocated z) (z_ref_idx z)) (when0 (inter z) (z_merge z))
    (when0 (own z) (z_qp z)) (when0 (own z && truth (pps_slice_chroma_qp_offsets_present_flag p)) (z_cb z))
    (when0 (own z && truth (pps_slice_chroma_qp_offsets_present_flag p)) (z_cr z))
    (Z.b2z (own z && truth (deblocking_filter_control_present_flag p) && deblocking_overridden z))
    (deblocking z).1.1 (deblocking z).1.2 (deblocking z).2
    (Z.b2z (loop_filter z && z_loop_filter z))
    (when0 entry_points (Z.of_nat (length (z_offsets z)))) n
    (when0 (pictures z) (u32 (Z.of_nat (length (set_bits z))))).
End slice_syntax.
