(* ===== verification/H265ParserFacts.v ===== *)
(** * The HEVC parameter sets are read back

    Profile and level, scaling lists, reference picture sets, VPS, SPS and PPS, each
    against its syntax in [H265Syntax]. *)

From S2P Require Import Prelude Bits Rbsp RbspFacts H265Parser H265Syntax.

(** ** Tactics *)

Ltac ok5 := unfold flag_ok in *; ok.
(** One read, an optional one included. *)
Ltac hread :=
  first [ eapply (rb_parses_u 1); [ok5|lia] | eapply rb_parses_u; [ok5|lia] | eapply parses_ue; ok5 | eapply parses_se; ok5
        | apply parses_get | apply parses_failed | apply rb_parses_ret | eapply parses_skip; hread | eapply parses_upd; reflexivity ].
Ltac hstep := eapply rb_parses_bind; [hread|cbv beta iota].

(** The fields that are 0 when the part that holds them is absent. *)
Ltac zeros Ha :=
  unfold absent in Ha;
  repeat (let H := fresh in apply Forall_cons in Ha as [H Ha]; cbv beta in H; rewrite H; clear H).

Lemma flag_cases v : flag_ok v -> v = 0 \/ v = 1.
Proof. unfold flag_ok, bits_ok. lia. Qed.
Lemma truth_0 : truth 0 = false.
Proof. done. Qed.
Lemma put_1 b : put 1 (Z.b2z b) = [b].
Proof. by destruct b. Qed.

Section lists.
Context {T : Type}.
Implicit Types t : T.

(** Items read by [m], each from its bits. *)
Lemma parses_collect {X A} (w : X -> list bool) (m : nat -> Rd T A) (a : X -> A) (l : list X) r t : forall i,
  (forall x i r, x ∈ l -> parses (m i) (w x ++ r) t r t (a x)) -> parses (collect (length l) i m) (flat_map w l ++ r) t r t (map a l).
Proof.
  induction l as [|x l IH]; intros i H; cbn [length collect flat_map map app]; [apply rb_parses_ret|]. rewrite <- app_assoc.
  eapply rb_parses_bind; [apply H; left|]. cbv beta. eapply rb_parses_bind; [apply IH; intros; apply H; by right|]. apply rb_parses_ret.
Qed.
Lemma parses_each {X} (w : X -> list bool) (m : X -> Rd T unit) (l : list X) r t :
  (forall x r, x ∈ l -> parses (m x) (w x ++ r) t r t tt) -> parses (each m l) (flat_map w l ++ r) t r t tt.
Proof.
  induction l as [|x l IH]; intros H; cbn [each flat_map app]; [apply rb_parses_ret|]. rewrite <- app_assoc.
  eapply rb_parses_bind; [apply H; left|]. apply IH. intros. apply H. by right.
Qed.
Lemma parses_opt_read (c : bool) (m : Rd T Z) x r t v : (c = true -> parses m (x ++ r) t r t v) -> (c = false -> v = 0) ->
  parses (opt_read c m) (only c x ++ r) t r t v.
Proof. intros H1 H0. destruct c; [by apply H1|]. rewrite H0 by done. apply rb_parses_ret. Qed.

(** ** Profile, tier and level *)
Lemma parses_ptl m p q r t : ptl_ok m p q -> parses (parse_ptl m) (ptl_bits p q ++ r) t r t p.
Proof.
  intros (H1 & H2 & H3 & [Hl Hc] & H4 & H5 & H6 & H7 & H8 & H9 & H10 & H11 & Hm & Hs). unfold parse_ptl, ptl_bits. bits.
  hstep. hstep. hstep. eapply rb_parses_bind.
  { rewrite <- Hl. apply (parses_collect (put 1) _ id). intros x i r0 Hx. rewrite Forall_forall in Hc. specialize (Hc x Hx). hread. }
  cbv beta. rewrite map_id. do 8 hstep. replace (Z.to_nat m) with (length (y_sub_layers q)) by lia. eapply rb_parses_bind.
  { apply (parses_collect present_bits _ present_of). intros x i r0 _. unfold present_bits. cbn [app].
    eapply rb_parses_bind; [apply parses_u1|]. cbv beta. eapply rb_parses_bind; [apply parses_u1|]. apply rb_parses_ret. }
  cbv beta. eapply rb_parses_bind.
  { replace (0 <? m) with (0 <? length (y_sub_layers q))%nat by (destruct (Nat.ltb_spec 0 (length (y_sub_layers q))), (Z.ltb_spec 0 m); lia || done).
    apply parses_only; [|done]. intros _. set (k := (8 - _)%nat).
    pose proof (parses_times (put 2) (skip (rd_u 2)) r t (replicate k 0)) as H. rewrite length_replicate in H.
    epose proof (parses_times (put 2) (skip (rd_u 2)) _ t (replicate k 0)) as H'. rewrite length_replicate in H'. apply H'.
    intros x Hx l. apply elem_of_replicate in Hx as [-> _]. hread. }
  cbv beta. eapply rb_parses_bind.
  { replace (each skip_sub_layer (map present_of (y_sub_layers q))) with (each (fun x => skip_sub_layer (present_of x)) (y_sub_layers q) : Rd T unit).
    - apply (parses_each sub_layer_bits). intros x r0 Hx. rewrite Forall_forall in Hs. destruct (Hs x Hx) as [Hp Hv].
      unfold skip_sub_layer, sub_layer_bits, present_of. destruct x as [[[[a b] c]|] [v|]]; cbn [fst snd from_option opt_ok] in *; bits;
        rewrite !truth_of_b2z; cbn [bool_decide decide_rel]; destruct_and?; repeat case_bool_decide; try (exfalso; by eauto); try done;
        (eapply rb_parses_bind; [apply parses_when; first [do 2 hstep; hread|done]|cbv beta; apply parses_when; first [hread|done]]).
    - clear. induction (y_sub_layers q) as [|x l IH]; [done|]. cbn [each map]. by rewrite IH. }
  cbv beta. destruct p. apply rb_parses_ret.
Qed.

(** ** Scaling lists *)

(** Six lists of every size. *)
Definition shaped (s : H265ScalingList) : Prop :=
  forall sz, length (lists_of sz s) = 6%nat /\ Forall (fun l => length l = length (scan_of sz)) (lists_of sz s).

Lemma lists_set_dc k sz mat v s : lists_of k (set_dc sz mat v s) = lists_of k s.
Proof. destruct s, sz as [|[|[|[|sz]]]], k as [|[|[|k]]]; reflexivity. Qed.
Lemma lists_set_list k sz mat l s :
  lists_of k (set_list sz mat l s) = if (Nat.min 3 k =? Nat.min 3 sz)%nat then <[mat := l]> (lists_of k s) else lists_of k s.
Proof. destruct s, sz as [|[|[|sz]]], k as [|[|[|k]]]; reflexivity. Qed.
Lemma scan_of_min k : scan_of (Nat.min 3 k) = scan_of k.
Proof. by destruct k as [|[|[|k]]]. Qed.
Lemma shaped_set_list sz mat l s : length l = length (scan_of sz) -> shaped s -> shaped (set_list sz mat l s).
Proof.
  intros Hl Hs k. rewrite lists_set_list. destruct (Hs k) as [H6 Hk]. destruct (Nat.eqb_spec (Nat.min 3 k) (Nat.min 3 sz)) as [E|]; [|done].
  rewrite length_insert. split; [done|]. apply Forall_insert; [done|]. by rewrite Hl, <- (scan_of_min sz), <- E, scan_of_min.
Qed.
Lemma shaped_set_dc sz mat v s : shaped s -> shaped (set_dc sz mat v s).
Proof. intros Hs k. rewrite lists_set_dc. apply Hs. Qed.
Lemma shaped_default : shaped scaling_list_set_default.
Proof. intros [|[|[|k]]]; (split; [done|]); apply (bool_decide_eq_true_1 (Forall _ _)); by vm_compute. Qed.
Lemma shaped_copy sz mat from s s' : shaped s -> copy_list sz mat from s = Some s' -> shaped s'.
Proof.
  intros Hs. unfold copy_list. destruct (lists_of sz s !! from) as [l|] eqn:E; [|done]. ostep.
  assert (shaped (set_list sz mat l s)) as H.
  { apply shaped_set_list; [|done]. destruct (Hs sz) as [_ Hf]. exact (Forall_lookup_1 _ _ _ _ Hf E). }
  destruct (2 <=? sz)%nat; [|by intros [= <-]]. destruct (dc_of _ _ !! _); [|done]. ostep. intros [= <-]. by apply shaped_set_dc.
Qed.
Lemma scan_perm5 sz : NoDup (scan_of sz) /\ (forall p, (p < length (scan_of sz))%nat -> p ∈ scan_of sz).
Proof.
  unfold scan_of. destruct (sz =? 0)%nat; (split; [apply (bool_decide_eq_true_1 (NoDup _)); by vm_compute|]); intros p Hp.
  - assert (Forall (fun p => p ∈ kDiagScan4x4) (seq 0 16)) as H by (apply (bool_decide_eq_true_1 (Forall _ _)); by vm_compute).
    rewrite Forall_forall in H. apply H, elem_of_seq. simpl in Hp. lia.
  - assert (Forall (fun p => p ∈ kDiagScan8x8) (seq 0 64)) as H by (apply (bool_decide_eq_true_1 (Forall _ _)); by vm_compute).
    rewrite Forall_forall in H. apply H, elem_of_seq. simpl in Hp. lia.
Qed.

Lemma parses_coefs zz : forall vs cur l t r, length vs = length zz -> 0 <= cur <= 255 -> Forall (fun v => 0 <= v <= 255) vs ->
  parses (coef_loop (T := T) zz cur l) (deltas cur vs ++ r) t r t (fill zz vs cur l).
Proof.
  induction zz as [|p zz IH]; intros [|v vs] cur l t r Hl Hc Hv; try done; cbn [coef_loop deltas fill app]; [apply rb_parses_ret|].
  apply Forall_cons in Hv as [Hv0 Hv]. rewrite <- app_assoc.
  eapply rb_parses_bind; [apply parses_se, delta_ok|cbv beta]. eapply rb_parses_bind; [apply parses_need, int32_ok; unfold i8; zdm|cbv beta zeta].
  rewrite next_scale by lia. apply IH; [simpl in Hl; lia|done..].
Qed.
Lemma fill_any zz vs c1 c2 l : length vs = length zz -> fill zz vs c1 l = fill zz vs c2 l.
Proof. destruct zz, vs; done. Qed.
Lemma parses_read_coefs sz mat dc vs s r t : shaped s -> (mat < 6)%nat -> matrix_ok (sz, mat) (WrittenList dc vs) ->
  parses (read_coefs (T := T) sz mat s) (only (2 <=? sz)%nat (se_bits (dc - 8)) ++ deltas (if (2 <=? sz)%nat then dc else 8) vs ++ r) t r t
    (set_list sz mat (raster (scan_of sz) vs) (set_dc sz mat dc s)).
Proof.
  intros Hs Hm (Hdc & Hl & Hv). unfold read_coefs. destruct (Hs sz) as [H6 Hf].
  destruct (lookup_lt_is_Some_2 (lists_of sz s) mat) as [l Hlu]; [lia|]. pose proof (Forall_lookup_1 _ _ _ _ Hf Hlu) as Hll. cbv beta in Hll.
  destruct (scan_perm5 sz) as [Hnd Hall]. cbn [fst snd] in *.
  assert (forall c, fill (scan_of sz) vs c l = raster (scan_of sz) vs) as Hr.
  { intros c. rewrite (fill_any _ _ c 8) by done. apply fill_raster; try done; [|lia]. intros ->. by unfold scan_of in Hl; destruct (sz =? 0)%nat. }
  unfold read_dc. destruct (Nat.leb_spec 2 sz) as [H2|H2]; cbn [only app]; bits.
  - eapply rb_parses_bind.
    + eapply rb_parses_bind; [apply parses_se; lia|cbv beta]. rewrite (proj2 (Z.ltb_ge _ _)), (proj2 (Z.ltb_ge 247 _)) by lia.
      replace (dc - 8 + 8) with dc by lia. apply rb_parses_ret.
    + cbv beta iota. rewrite u8_ok by ok. rewrite lists_set_dc, Hlu. cbn [default].
      eapply rb_parses_bind; [apply parses_coefs; done || lia|cbv beta]. rewrite Hr. apply rb_parses_ret.
  - eapply rb_parses_bind; [apply rb_parses_ret|]. cbv beta iota. rewrite Hlu. cbn [default].
    eapply rb_parses_bind; [apply parses_coefs; done || lia|cbv beta]. rewrite Hr. destruct sz as [|[|sz]]; [apply rb_parses_ret..|lia].
Qed.

Lemma parses_matrix id y s s' r t : shaped s -> (id.2 < 6)%nat -> matrix_ok id y -> matrix_effect id y s = Some s' ->
  parses (scaling_matrix (T := T) id s) (matrix_bits id.1 y ++ r) t r t s' /\ shaped s'.
Proof.
  destruct id as [sz mat]. cbn [fst snd]. intros Hs Hm Hok He. unfold scaling_matrix. destruct y as [delta|dc vs]; cbn [matrix_bits matrix_effect fst snd app] in *.
  - destruct Hok as [H0 H1]. cbn [fst snd] in *. assert (1 <= Z.of_nat (mat_step sz)) by (unfold mat_step; destruct (sz =? 3)%nat; simpl; lia). split.
    + eapply rb_parses_bind; [apply (parses_u1 false)|]. cbn [Z.b2z truth Z.eqb negb]. unfold predict_list.
      eapply rb_parses_bind; [apply parses_ue; nia|cbv beta]. destruct (delta =? 0); [injection He as <-; apply rb_parses_ret|].
      rewrite (proj2 (Z.ltb_ge _ _)) by lia. by apply parses_need.
    + destruct (delta =? 0); [by injection He as <-|]. by eapply shaped_copy.
  - injection He as <-. split; [|apply shaped_set_list; [by rewrite length_raster|by apply shaped_set_dc]]. rewrite <- app_assoc.
    eapply rb_parses_bind; [apply (parses_u1 true)|]. cbn [Z.b2z truth Z.eqb negb]. by apply parses_read_coefs.
Qed.
Lemma parses_matrices ids : forall ys s s' r t, shaped s -> Forall (fun id => (id.2 < 6)%nat) ids -> Forall2 matrix_ok ids ys ->
  matrices_effect ids ys s = Some s' -> parses (scaling_matrices (T := T) ids s) (matrices_bits ids ys ++ r) t r t s'.
Proof.
  induction ids as [|id ids IH]; intros ys s s' r t Hs H6 Hok He.
  { apply Forall2_nil_inv_l in Hok as ->. injection He as <-. apply rb_parses_ret. }
  apply Forall2_cons_inv_l in Hok as (y & ys' & Hy & Hys & ->). apply Forall_cons in H6 as [Hi Hids]. cbn [matrices_effect matrices_bits scaling_matrices] in *.
  destruct (matrix_effect id y s) as [s1|] eqn:E; [|done]. rewrite <- app_assoc. revert He. ostep. intros He.
  edestruct (parses_matrix id y s s1) as [Hp Hs1]; [done..|]. eapply rb_parses_bind; [exact Hp|]. by apply IH.
Qed.
Lemma hevc_parses_lists ys s r t : lists_denote ys s -> parses (parse_scaling_list_data (T := T)) (matrices_bits matrix_ids ys ++ r) t r t s.
Proof.
  intros (_ & Hok & He). apply parses_matrices; [apply shaped_default| |done..]. apply (bool_decide_eq_true_1 (Forall _ _)). by vm_compute.
Qed.

(** ** Reference picture sets *)

Lemma to_int_ok v : - 2 ^ 31 <= v < 2 ^ 31 -> to_int v = v.
Proof. intros H. unfold to_int. rewrite Z.mod_small; lia. Qed.
Lemma hevc_parses_deltas sign l : forall prev r t, (sign = 1 \/ sign = -1) -> Forall (fun x => 0 <= x.1 < 2 ^ 15 /\ flag_ok x.2) l ->
  - 2 ^ 20 + Z.of_nat (length l) * 2 ^ 15 <= prev <= 2 ^ 20 - Z.of_nat (length l) * 2 ^ 15 ->
  parses (read_deltas (T := T) (length l) sign prev) (flat_map delta_bits l ++ r) t r t (run_of sign prev l).
Proof.
  induction l as [|[d u] l IH]; intros prev r t Hs Hl Hp; cbn [length read_deltas flat_map run_of app]; [apply rb_parses_ret|].
  apply Forall_cons in Hl as [[Hd Hu] Hl]. cbn [fst snd length] in *. unfold delta_bits at 1. cbn [fst snd]. bits.
  hstep. rewrite to_int_ok by lia. eapply rb_parses_bind; [apply parses_need, int32_ok; lia|cbv beta].
  eapply rb_parses_bind; [apply parses_need, int32_ok; destruct Hs as [-> | ->]; lia|cbv beta]. hstep.
  eapply rb_parses_bind; [apply IH; [done..|destruct Hs as [-> | ->]; lia]|]. apply rb_parses_ret.
Qed.
Lemma parses_direct negs poss r t : (length negs + length poss <= 16)%nat ->
  Forall (fun x => 0 <= x.1 < 2 ^ 15 /\ flag_ok x.2) negs -> Forall (fun x => 0 <= x.1 < 2 ^ 15 /\ flag_ok x.2) poss ->
  parses (direct_rps (T := T))
    (ue_bits (Z.of_nat (length negs)) ++ ue_bits (Z.of_nat (length poss)) ++ flat_map delta_bits negs ++ flat_map delta_bits poss ++ r) t r t
    (rps_of 0 (run_of (-1) 0 negs) (run_of 1 0 poss)).
Proof.
  intros Hlen Hn Hp. unfold direct_rps. do 2 hstep. rewrite !(proj2 (Z.ltb_ge 16 _)) by (rewrite ?u32_small; lia). cbn [orb]. rewrite !Nat2Z.id.
  eapply rb_parses_bind; [apply hevc_parses_deltas; [by right|done|lia]|cbv beta].
  eapply rb_parses_bind; [apply hevc_parses_deltas; [by left|done|lia]|cbv beta]. apply rb_parses_ret.
Qed.
Lemma parses_flags l r t : Forall (fun x => flag_ok x.1 /\ flag_ok x.2 /\ (x.1 = 1 -> x.2 = 1)) l ->
  parses (collect (T := T) (length l) 0 (fun _ => read_flags)) (flat_map flags_bits l ++ r) t r t l.
Proof.
  intros Hl. rewrite <- (map_id l) at 3. apply (parses_collect flags_bits (fun _ => read_flags) id). intros [u d] i r0 Hx.
  rewrite Forall_forall in Hl. destruct (Hl _ Hx) as (Hu & Hd & H1). unfold read_flags, flags_bits. cbn [fst snd] in *. bits. hstep.
  destruct (flag_cases _ Hu) as [-> | ->]; cbn [truth Z.eqb negb only app]; [hstep|rewrite H1 by done]; apply rb_parses_ret.
Qed.
Lemma hevc_parses_inter prevs idx num d sign abs flags out r t : 0 <= idx <= 64 -> rps_ok prevs idx num (PredictedSet d sign abs flags) ->
  set_of prevs idx (PredictedSet d sign abs flags) = Some out ->
  parses (inter_rps (T := T) prevs idx num) (only (idx =? num) (ue_bits d) ++ put 1 sign ++ ue_bits abs ++ flat_map flags_bits flags ++ r) t r t out.
Proof.
  intros Hi (Hd & Hd0 & Hs & Ha & Hf & Hr) Ho. cbn [set_of] in Ho. unfold inter_rps.
  eapply rb_parses_bind.
  { apply parses_opt_read; [intros _; apply parses_ue; lia|]. intros E. apply Hd0. by apply Z.eqb_neq. }
  cbv beta. rewrite u32_small, (proj2 (Z.ltb_ge _ _)) by lia. do 2 hstep. rewrite u32_small, to_int_ok by lia.
  eapply rb_parses_bind; [apply parses_need, int32_ok; unfold flag_ok, bits_ok in Hs; nia|cbv beta].
  destruct (prevs !! _) as [ref|] eqn:Er; [|done]. revert Ho. ostep. intros Ho. destruct Hr as [Hn Hn16].
  eapply rb_parses_bind; [by apply parses_need|cbv beta]. rewrite (proj2 (Z.ltb_ge 16 _)) by lia.
  replace (S (Z.to_nat (num_delta_pocs ref))) with (length flags) by lia. eapply rb_parses_bind; [by apply parses_flags|cbv beta].
  change ((1 - 2 * sign) * (abs + 1)) with (delta_of sign abs). destruct (predict_rps _ _ _) as [[negs poss]|]; [|done]. revert Ho. ostep. intros Ho.
  eapply rb_parses_bind; [by apply parses_need|cbv beta iota]. unfold H265_MAX_REFS in *. destruct (Nat.leb_spec (length negs + length poss) 16); [|done].
  rewrite (proj2 (Nat.ltb_ge _ _)) by done. injection Ho as <-. apply rb_parses_ret.
Qed.
Lemma parses_st_rps store f prevs idx num y out r t : (forall x l t, parses (store x) l t l (f x t) tt) -> (forall a b t, f a (f b t) = f a t) ->
  0 <= idx <= 64 -> rps_ok prevs idx num y -> set_of prevs idx y = Some out ->
  parses (parse_st_rps (T := T) store prevs idx num) (rps_bits idx num y ++ r) t r (f out t) out.
Proof.
  intros Hst Hff Hi Hok Ho. unfold parse_st_rps. destruct y as [negs poss|d sign abs flags]; cbn [rps_bits].
  - bits. eapply rb_parses_bind; [apply parses_opt_read; [intros _; apply (parses_u1 false)|done]|]. cbn [Z.b2z truth Z.eqb negb].
    eapply rb_parses_bind; [apply Hst|]. destruct Hok as (Hl & Hn & Hp). injection Ho as <-.
    eapply rb_parses_bind; [by apply parses_direct|cbv beta]. eapply rb_parses_bind; [apply Hst|]. rewrite Hff. apply rb_parses_ret.
  - assert (idx <> 0) by (destruct Hok; lia). bits. rewrite (proj2 (Z.eqb_neq idx 0)) by done. cbn [negb opt_read].
    eapply rb_parses_bind; [apply (parses_u1 true)|]. cbn [Z.b2z truth Z.eqb negb]. eapply rb_parses_bind; [apply Hst|].
    eapply rb_parses_bind; [by apply hevc_parses_inter|cbv beta]. eapply rb_parses_bind; [apply Hst|]. rewrite Hff. apply rb_parses_ret.
Qed.
Lemma parses_sets num ys : forall i prevs l r t, i = Z.of_nat (length prevs) -> i + Z.of_nat (length ys) <= 64 -> sets_denote num prevs ys l ->
  parses (read_sets (T := T) (length ys) i num prevs) (sets_bits i num ys ++ r) t r t l.
Proof.
  induction ys as [|y ys IH]; intros i prevs l r t -> Hl Hd; cbn [length read_sets sets_bits sets_denote app] in *; [subst l; apply rb_parses_ret|].
  destruct Hd as [Hy Hd]. destruct (set_of prevs (Z.of_nat (length prevs)) y) as [s|] eqn:E; [|done]. rewrite <- app_assoc.
  eapply rb_parses_bind; [eapply (parses_st_rps (fun _ => mret tt) (fun _ t => t)); (done || lia || (intros; apply rb_parses_ret))|cbv beta].
  apply IH; [rewrite length_app; simpl; lia|lia|done].
Qed.
Lemma length_sets_denote num ys : forall prevs l, sets_denote num prevs ys l -> length l = (length prevs + length ys)%nat.
Proof.
  induction ys as [|y ys IH]; intros prevs l; cbn [sets_denote]; [intros ->; simpl; lia|]. intros [_ H]. destruct (set_of _ _ _); [|done].
  rewrite (IH _ _ H), length_app. simpl. lia.
Qed.

(** ** Sub-layer ordering info *)
Lemma parses_ordering present max info r t : flag_ok present -> 0 <= max <= 6 -> ordering_ok present max info ->
  let start := if truth present then 0%nat else Z.to_nat max in
  parses (read_ordering (T := T) start (Z.to_nat max)) (flat_map ordering_bits info ++ r) t r t info.
Proof.
  intros Hp Hm [Hl Hi] start. unfold read_ordering. replace (S (Z.to_nat max) - start)%nat with (length info) by (unfold start; destruct (truth present); lia).
  rewrite <- (map_id info) at 3. apply (parses_collect ordering_bits _ id). intros [[b c] l] i r0 Hx. rewrite Forall_forall in Hi.
  destruct (Hi _ Hx) as (H1 & H2 & H3). unfold ordering_bits. cbn [fst snd] in *. bits. do 3 hstep. rewrite !u8_ok by done. apply rb_parses_ret.
Qed.

(** ** Sequence parameter sets *)

(** A field that is read under a condition and 0 otherwise. *)
Lemma parses_absent (c : bool) (m : Rd T Z) x v r t : (c = true -> parses m (x ++ r) t r t v) -> absent c [v] ->
  parses (opt_read c m) (only c x ++ r) t r t v.
Proof. intros H Ha. apply parses_opt_read; [done|]. intros ->. zeros Ha. done. Qed.
Lemma parses_window s r t :
  flag_ok (conformance_window_flag s) /\ ue_ok (conf_win_left_offset s) /\ ue_ok (conf_win_right_offset s) /\
    ue_ok (conf_win_top_offset s) /\ ue_ok (conf_win_bottom_offset s) /\
    absent (truth (conformance_window_flag s)) [conf_win_left_offset s; conf_win_right_offset s; conf_win_top_offset s; conf_win_bottom_offset s] ->
  parses sps_window (window_bits s ++ r) t r t
    (conformance_window_flag s, (conf_win_left_offset s, conf_win_right_offset s, conf_win_top_offset s, conf_win_bottom_offset s)).
Proof.
  intros (Hf & H1 & H2 & H3 & H4 & Ha). unfold sps_window, window_bits. bits. hstep. unfold absent in Ha.
  destruct (flag_cases _ Hf) as [E|E]; rewrite E in *; cbn [truth Z.eqb negb only app] in *.
  - zeros Ha. apply rb_parses_ret.
  - bits. do 4 hstep. apply rb_parses_ret.
Qed.
Lemma parses_sps_scaling y r t (s := y_sps y) :
  flag_ok (scaling_list_enabled_flag s) /\ flag_ok (sps_scaling_list_data_present_flag s) /\
    (if truth (scaling_list_enabled_flag s) then
      if truth (sps_scaling_list_data_present_flag s) then lists_denote (y_sps_lists y) (sps_scaling_list s)
      else sps_scaling_list s = scaling_list_set_default
    else sps_scaling_list_data_present_flag s = 0 /\ sps_scaling_list s = zero_scaling) ->
  parses sps_scaling (sps_scaling_bits y ++ r) t r t (scaling_list_enabled_flag s, sps_scaling_list_data_present_flag s, sps_scaling_list s).
Proof.
  subst s. intros (He & Hp & H). unfold sps_scaling, sps_scaling_bits. bits. hstep.
  destruct (flag_cases _ He) as [E|E]; rewrite E in *; cbn [truth Z.eqb negb only app] in *; [destruct H as [-> ->]; apply rb_parses_ret|].
  bits. hstep. destruct (flag_cases _ Hp) as [E2|E2]; rewrite E2 in *; cbn [truth Z.eqb negb only app] in *.
  - rewrite H. hstep. apply rb_parses_ret.
  - eapply rb_parses_bind; [by apply hevc_parses_lists|]. apply rb_parses_ret.
Qed.
Lemma parses_pcm s r t :
  flag_ok (pcm_enabled_flag s) /\ bits_ok 4 (pcm_sample_bit_depth_luma_minus1 s) /\ bits_ok 4 (pcm_sample_bit_depth_chroma_minus1 s) /\
    bits_ok 8 (log2_min_pcm_luma_coding_block_size_minus3 s) /\ bits_ok 8 (log2_diff_max_min_pcm_luma_coding_block_size s) /\
    flag_ok (pcm_loop_filter_disabled_flag s) /\
    absent (truth (pcm_enabled_flag s)) [pcm_sample_bit_depth_luma_minus1 s; pcm_sample_bit_depth_chroma_minus1 s;
      log2_min_pcm_luma_coding_block_size_minus3 s; log2_diff_max_min_pcm_luma_coding_block_size s; pcm_loop_filter_disabled_flag s] ->
  parses sps_pcm (pcm_bits s ++ r) t r t
    (pcm_enabled_flag s, (pcm_sample_bit_depth_luma_minus1 s, pcm_sample_bit_depth_chroma_minus1 s,
      log2_min_pcm_luma_coding_block_size_minus3 s, log2_diff_max_min_pcm_luma_coding_block_size s, pcm_loop_filter_disabled_flag s)).
Proof.
  intros (Hf & H1 & H2 & H3 & H4 & H5 & Ha). unfold sps_pcm, pcm_bits. bits. hstep. unfold absent in Ha.
  destruct (flag_cases _ Hf) as [E|E]; rewrite E in *; cbn [truth Z.eqb negb only app] in *.
  - zeros Ha. apply rb_parses_ret.
  - bits. do 5 hstep. rewrite !u8_ok by done. apply rb_parses_ret.
Qed.
Lemma parses_sps_sets ys l r t : (length ys <= 64)%nat -> sets_denote (Z.of_nat (length ys)) [] ys l ->
  parses sps_sets (ue_bits (Z.of_nat (length ys)) ++ sets_bits 0 (Z.of_nat (length ys)) ys ++ r) t r t l.
Proof.
  intros Hl Hd. unfold sps_sets. hstep. rewrite u8_ok, Nat2Z.id by ok. unfold H265_MAX_SHORT_TERM_RPS. rewrite (proj2 (Z.ltb_ge _ _)) by lia.
  apply parses_sets; [done|lia|done].
Qed.
Lemma parses_long_term y r t (s := y_sps y) : 0 <= log2_max_pic_order_cnt_lsb_minus4 s <= 12 -> flag_ok (long_term_ref_pics_present_flag s) ->
  (truth (long_term_ref_pics_present_flag s) = false -> y_long_term y = []) -> (length (y_long_term y) <= 32)%nat ->
  Forall (fun x => bits_ok (Z.of_nat (lsb_width s)) x.1 /\ flag_ok x.2) (y_long_term y) ->
  parses (sps_long_term (lsb_width s)) (long_term_bits y ++ r) t r t (long_term_ref_pics_present_flag s, y_long_term y).
Proof.
  subst s. set (s := y_sps y). intros Hlsb Hf Hn Hl Hx. unfold sps_long_term, long_term_bits. bits. change (y_sps y) with s. hstep.
  assert (lsb_width s <= 16)%nat as Hw by (unfold lsb_width; lia).
  destruct (flag_cases _ Hf) as [E|E]; rewrite E in *; cbn [truth Z.eqb negb only app] in *; [rewrite Hn by done; apply rb_parses_ret|].
  bits. hstep. rewrite u8_ok, Nat2Z.id by ok. unfold H265_MAX_LONG_TERM_REFS. rewrite (proj2 (Z.ltb_ge _ _)) by lia.
  eapply rb_parses_bind; [|apply rb_parses_ret]. rewrite <- (map_id (y_long_term y)) at 3.
  apply (parses_collect _ (fun _ => _) id). intros [v u] i r0 Hv. rewrite Forall_forall in Hx. destruct (Hx _ Hv) as [H1 H2]. cbn [fst snd] in *. bits.
  eapply rb_parses_bind; [apply rb_parses_u; [exact H1|lia]|cbv beta]. hstep. rewrite (u16_ok _ (Z.of_nat (lsb_width s))) by (done || lia).
  apply rb_parses_ret.
Qed.
Lemma parses_sps_size w h r t : 1 <= w <= 8192 -> 1 <= h <= 8192 -> parses (sps_size (T := T)) (ue_bits w ++ ue_bits h ++ r) t r t (w, h).
Proof.
  intros Hw Hh. unfold sps_size. do 2 hstep. rewrite !(proj2 (Z.eqb_neq _ 0)), !(proj2 (Z.ltb_ge 8192 _)) by lia. apply rb_parses_ret.
Qed.
Lemma parses_sps_ctb mincb diff r t : 0 <= mincb -> 0 <= diff -> mincb + 3 + diff <= 6 ->
  parses (sps_ctb (T := T) mincb diff) r t r t (mincb + 3 + diff, 2 ^ (mincb + 3 + diff)).
Proof.
  intros H1 H2 H3. unfold sps_ctb. rewrite (proj2 (Z.ltb_lt _ 32)), (proj2 (Z.ltb_ge 6 _)) by lia.
  eapply rb_parses_bind; [by apply parses_need|]. cbv beta. rewrite u8_ok; [apply rb_parses_ret|]. split; [apply Z.pow_nonneg; lia|].
  apply Z.pow_lt_mono_r; lia.
Qed.
Lemma in_ctbs_ok n k : 1 <= n <= 8192 -> 0 <= k <= 6 -> in_ctbs n k = (n + 2 ^ k - 1) / 2 ^ k.
Proof.
  intros Hn Hk. unfold in_ctbs. assert (1 <= 2 ^ k <= 2 ^ 6) by (split; [apply (Z.pow_le_mono_r 2 0); lia|apply Z.pow_le_mono_r; lia]).
  rewrite u32_small by lia. rewrite Z.shiftr_div_pow2 by lia. done.
Qed.

Lemma parses_read_sps y s sets r t : sps_ok y s sets -> parses (read_sps (T := T)) (sps_bits y ++ r) t r t s.
Proof.
  intros []. unfold read_sps, sps_bits. rewrite so_sps. cbv zeta. bits. do 3 hstep. unfold H265_MAX_SUB_LAYERS. rewrite (proj2 (Z.leb_gt (Z.of_nat 7) _)) by lia.
  eapply rb_parses_bind; [by apply parses_ptl|cbv beta]. hstep. unfold H265_MAX_SPS. rewrite (proj2 (Z.leb_gt 32 _)) by lia. hstep. rewrite u8_ok by done.
  destruct so_separate as [Hsep Hsep0]. eapply rb_parses_bind; [apply parses_absent; [intros _; hread|done]|cbv beta].
  eapply rb_parses_bind; [by apply parses_sps_size|cbv beta iota]. eapply rb_parses_bind; [by apply parses_window|cbv beta iota].
  do 3 hstep. destruct so_ordering as [Hord Hinfo]. hstep. eapply rb_parses_bind; [by apply parses_ordering|cbv beta]. do 6 hstep.
  eapply rb_parses_bind; [rewrite <- so_sps in *; by apply parses_sps_scaling|cbv beta iota]. rewrite so_sps. do 2 hstep.
  eapply rb_parses_bind; [by apply parses_pcm|cbv beta iota]. eapply rb_parses_bind; [by eapply parses_sps_sets|cbv beta].
  rewrite (u8_ok (log2_max_pic_order_cnt_lsb_minus4 s)) by ok. destruct so_long_term as (Hlt & Hlt0 & Hltn & Hltx & Hn & Hv & Hu).
  eapply rb_parses_bind; [rewrite <- so_sps in *; by apply parses_long_term|cbv beta iota]. rewrite so_sps. do 2 hstep.
  destruct so_ctb as (Hc & Hc6 & Hcs & Hcw & Hch). rewrite !u8_ok by ok. unfold bits_ok in *.
  eapply rb_parses_bind; [apply parses_sps_ctb; lia|cbv beta iota]. rewrite <- Hc. eapply rb_parses_bind; [eapply rb_parses_bind; [hread|]; apply rb_parses_ret|cbv beta].
  rewrite !in_ctbs_ok by lia. rewrite <- Hcs, <- Hcw, <- Hch, <- Hn, <- Hv, <- Hu. destruct so_st_rps as [<- <-]. destruct so_layers as (<- & <- & <-).
  rewrite <- so_valid. destruct s. apply rb_parses_ret.
Qed.

(** ** Picture parameter sets *)
Lemma parses_pps_tiles y r t (p := y_pps y) :
  flag_ok (tiles_enabled_flag p) /\
    (if truth (tiles_enabled_flag p) then
      0 <= num_tile_columns_minus1 p < 20 /\ 0 <= num_tile_rows_minus1 p < 22 /\ flag_ok (uniform_spacing_flag p) /\
      flag_ok (loop_filter_across_tiles_enabled_flag p) /\
      Z.of_nat (length (y_widths y)) = num_tile_columns_minus1 p /\ Z.of_nat (length (y_heights y)) = num_tile_rows_minus1 p /\
      Forall ue_ok (y_widths y) /\ Forall ue_ok (y_heights y)
    else num_tile_columns_minus1 p = 0 /\ num_tile_rows_minus1 p = 0 /\ uniform_spacing_flag p = 1 /\ loop_filter_across_tiles_enabled_flag p = 1) ->
  parses (if truth (tiles_enabled_flag p) then pps_tiles else mret (0, 0, 1, 1)) (tiles_bits y ++ r) t r t
    (num_tile_columns_minus1 p, num_tile_rows_minus1 p, uniform_spacing_flag p, loop_filter_across_tiles_enabled_flag p).
Proof.
  subst p. set (p := y_pps y). intros [Hf H]. unfold tiles_bits. change (y_pps y) with p.
  destruct (truth (tiles_enabled_flag p)); cbn [only app]; [|destruct H as (-> & -> & -> & ->); apply rb_parses_ret].
  destruct H as (Hc & Hr & Hu & Hl & Hw & Hh & Hws & Hhs). bits. unfold pps_tiles. do 2 hstep. rewrite (proj2 (Z.leb_gt 20 _)), (proj2 (Z.leb_gt 22 _)) by lia.
  cbn [orb]. hstep. eapply rb_parses_bind; [|cbv beta; hstep; apply rb_parses_ret].
  apply parses_only; [|done]. intros _. bits. rewrite <- Hw, <- Hh, !Nat2Z.id. rewrite Forall_forall in Hws, Hhs.
  eapply rb_parses_bind; apply (parses_times ue_bits); intros x Hx l; [specialize (Hws x Hx)|specialize (Hhs x Hx)]; hread.
Qed.
Lemma parses_pps_deblocking p r t :
  flag_ok (deblocking_filter_control_present_flag p) /\ flag_ok (deblocking_filter_override_enabled_flag p) /\
    flag_ok (pps_deblocking_filter_disabled_flag p) /\ offset_ok (pps_beta_offset_div2 p) /\ offset_ok (pps_tc_offset_div2 p) /\
    absent (truth (deblocking_filter_control_present_flag p)) [deblocking_filter_override_enabled_flag p; pps_deblocking_filter_disabled_flag p] /\
    absent (truth (deblocking_filter_control_present_flag p) && negb (truth (pps_deblocking_filter_disabled_flag p)))
      [pps_beta_offset_div2 p; pps_tc_offset_div2 p] ->
  parses pps_deblocking (pps_deblocking_bits p ++ r) t r t
    (deblocking_filter_control_present_flag p, (deblocking_filter_override_enabled_flag p, pps_deblocking_filter_disabled_flag p,
      pps_beta_offset_div2 p, pps_tc_offset_div2 p)).
Proof.
  intros (Hf & Ho & Hd & Hb & Ht & H1 & H2). unfold pps_deblocking, pps_deblocking_bits. bits. hstep.
  destruct (flag_cases _ Hf) as [E|E]; rewrite E in *; cbn [truth Z.eqb negb only app andb] in *.
  - zeros H1. zeros H2. apply rb_parses_ret.
  - bits. do 2 hstep. destruct (flag_cases _ Hd) as [E2|E2]; rewrite E2 in *; cbn [truth Z.eqb negb only app] in *.
    + bits. do 2 hstep. rewrite !i8_ok by done. apply rb_parses_ret.
    + zeros H2. apply rb_parses_ret.
Qed.
Lemma hevc_parses_pps_scaling y r t (p := y_pps y) :
  flag_ok (pps_scaling_list_data_present_flag p) /\
    (if truth (pps_scaling_list_data_present_flag p) then lists_denote (y_pps_lists y) (pps_scaling_list p) else pps_scaling_list p = zero_scaling) ->
  parses pps_scaling (pps_scaling_bits y ++ r) t r t (pps_scaling_list_data_present_flag p, pps_scaling_list p).
Proof.
  subst p. intros [Hf H]. unfold pps_scaling, pps_scaling_bits. bits. hstep.
  destruct (flag_cases _ Hf) as [E|E]; rewrite E in *; cbn [truth Z.eqb negb only app] in *; [rewrite H; apply rb_parses_ret|].
  eapply rb_parses_bind; [by apply hevc_parses_lists|]. apply rb_parses_ret.
Qed.
(** Without the two identifiers. *)
Definition pps_body (y : pps_syntax) : list bool :=
  drop (length (ue_bits (pps_id (y_pps y)) ++ ue_bits (pps_sps_id (y_pps y)))) (pps_bits y).
Lemma pps_body_bits y : pps_bits y = ue_bits (pps_id (y_pps y)) ++ ue_bits (pps_sps_id (y_pps y)) ++ pps_body y.
Proof. unfold pps_body, pps_bits. rewrite (app_assoc (ue_bits _) (ue_bits _) (put 1 _ ++ _)), drop_app_length. by rewrite <- app_assoc. Qed.

Lemma parses_read_pps y p r t : pps_ok y p -> parses (read_pps (T := T) (pps_id p) (pps_sps_id p)) (pps_body y ++ r) t r t p.
Proof.
  intros []. unfold read_pps, pps_body, pps_bits. rewrite po_pps, app_assoc, drop_app_length. bits. do 10 hstep.
  destruct po_cu as (Hcu & Hdepth & Hcu0). hstep. eapply rb_parses_bind; [apply parses_absent; [intros _; hread|done]|cbv beta].
  destruct po_tiles as [Htiles Ht]. do 8 hstep.
  eapply rb_parses_bind; [rewrite <- po_pps in *; by apply parses_pps_tiles|cbv beta iota]. rewrite po_pps. hstep.
  eapply rb_parses_bind; [by apply parses_pps_deblocking|cbv beta iota].
  eapply rb_parses_bind; [rewrite <- po_pps in *; by apply hevc_parses_pps_scaling|cbv beta iota]. rewrite po_pps. do 3 hstep.
  eapply rb_parses_bind; [eapply rb_parses_bind; [hread|]; apply rb_parses_ret|cbv beta].
  rewrite !u8_ok, !i8_ok by done. rewrite <- po_valid. destruct p. apply rb_parses_ret.
Qed.
End lists.

(** ** Bits nobody looks at *)

Lemma br_u1_moves r : (br_u 1 r).2 = if br_eof r then r else r <| bit_pos ::= S |>.
Proof. unfold br_u. cbn [br_u_loop]. by destruct (br_eof r). Qed.
Lemma skip_bits_at {T} n d p f (t : T) :
  skip_bits n (MkBitReader d p f, t) = Some (MkBitReader d (p + Z.to_nat (Z.min n (Z.of_nat (8 * length d - p)))) f, t, inl tt).
Proof. done. Qed.
(** [skip_bits] is the loop it stands for. *)
Lemma skip_bits_times {T} n : forall r (t : T), wf r -> times n (skip rd_u1) (r, t) = skip_bits (Z.of_nat n) (r, t).
Proof.
  induction n as [|n IH]; intros r t Hw; cbn [times].
  - destruct r as [d p f]. unfold wf in Hw. cbn [data bit_pos] in Hw. rewrite skip_bits_at. unfold mret, Rd_ret. do 4 f_equal. lia.
  - unfold mbind at 1, Rd_bind at 1, skip, mbind at 1, Rd_bind at 1, rd_u1, rd_u, reader. cbn [fst snd].
    destruct (br_u 1 r) as [b r1] eqn:E. cbn [mret Rd_ret]. assert (r1 = if br_eof r then r else r <| bit_pos ::= S |>) as -> by by rewrite <- br_u1_moves, E.
    unfold mret, Rd_ret. cbv beta iota.
    destruct r as [d p f]. unfold wf, br_eof in *. cbn [data bit_pos] in *. destruct (Nat.leb_spec (8 * length d) p) as [Hp|Hp].
    + change (times n (skip rd_u1) (MkBitReader d p f, t) = skip_bits (Z.of_nat (S n)) (MkBitReader d p f, t)). rewrite IH by done.
      rewrite !skip_bits_at. do 4 f_equal. lia.
    + change (times n (skip rd_u1) (MkBitReader d (S p) f, t) = skip_bits (Z.of_nat (S n)) (MkBitReader d p f, t)). rewrite IH by (unfold wf; cbn [data bit_pos]; lia).
      rewrite !skip_bits_at. do 4 f_equal. lia.
Qed.
Lemma parses_skip_bits {T} x n r (t : T) : Z.of_nat (length x) = n -> parses (skip_bits n) (x ++ r) t r t tt.
Proof.
  intros <-. split; [by eexists|]. intros d Ht. apply tail_length in Ht. rewrite length_app in Ht. unfold reader_at. rewrite skip_bits_at, length_app.
  do 4 f_equal. lia.
Qed.

(** ** The parameter sets in the result *)

Definition with_vps (o : H265ParseResult) (i : Z) (v : H265Vps) : H265ParseResult := o <| vps ::= <[Z.to_nat i := v]> |>.
Lemma parses_new_vps i v l o : parses (on_vps i (fun _ => v)) l o l (with_vps o i v) tt.
Proof.
  apply parses_upd. destruct o. unfold with_vps, set_field. cbn. f_equal. generalize (Z.to_nat i). intros k.
  revert k. induction vps as [|w l' IH]; intros [|k]; [done..|]. cbn. f_equal. apply IH.
Qed.
Lemma parses_on_vps i f v w l o : (Z.to_nat i < length (vps o))%nat -> w = f v -> parses (on_vps i f) l (with_vps o i v) l (with_vps o i w) tt.
Proof.
  intros Hi ->. apply parses_upd. destruct o. unfold with_vps, set_field. cbn in *. f_equal.
  apply list_eq. intros j. destruct (decide (Z.to_nat i = j)) as [<-|Hj].
  - rewrite list_lookup_insert_eq, list_lookup_alter_eq, list_lookup_insert_eq by done. done.
  - by rewrite list_lookup_alter_ne, !list_lookup_insert_ne.
Qed.
Ltac vps_fields := cbv beta iota delta [set_field vps_valid vps_id vps_max_layers_minus1 vps_max_sub_layers_minus1
  vps_temporal_id_nesting_flag vps_ptl vps_sub_layer_ordering_info_present_flag vps_max_dec_pic_buffering_minus1 vps_max_num_reorder_pics
  vps_max_latency_increase_plus1].
Ltac vstep Hi := eapply rb_parses_bind; [eapply parses_on_vps; [exact Hi|vps_fields; reflexivity]|cbv beta].

Lemma parses_vps_timing x r (o : H265ParseResult) : bits_ok 32 x.1.1 /\ bits_ok 32 x.1.2 /\ opt_ok ue_ok x.2 ->
  parses vps_timing (timing_bits x ++ r) o r o tt.
Proof.
  intros (H1 & H2 & H3). unfold vps_timing, timing_bits. bits. do 2 hstep.
  apply rb_parses_opt with (t1 := o); [intros a Ha; rewrite Ha in H3; hread|done|]. hstep. apply rb_parses_ret.
Qed.
Lemma parses_vps y r o : vps_ok y -> length (vps o) = 16%nat ->
  parses parse_vps (vps_bits y ++ r) o r (with_vps o (vps_id (y_vps y)) (y_vps y)) tt.
Proof.
  unfold vps_ok. cbv zeta. set (v := y_vps y). intros (Hv & Hid & H1 & H2 & H3 & H4 & H5 & Hptl & Hf & Hinfo & Hb & Hr & Hl & Hmax & Hn & Hsets & Ht) Ho.
  unfold parse_vps, vps_bits. cbv zeta. change (y_vps y) with v. bits. hstep. unfold H265_MAX_VPS. unfold bits_ok in Hid. rewrite (proj2 (Z.leb_gt 16 _)) by lia.
  assert (Z.to_nat (vps_id v) < length (vps o))%nat as Hi by lia.
  eapply rb_parses_bind; [apply parses_new_vps|cbv beta]. hstep. hstep. unfold zero_vps. vstep Hi. hstep. vstep Hi. hstep. vstep Hi. hstep.
  unfold H265_MAX_SUB_LAYERS. rewrite (proj2 (Z.leb_gt (Z.of_nat 7) _)) by lia.
  eapply rb_parses_bind; [by apply parses_ptl|cbv beta]. vstep Hi. hstep. vstep Hi.
  eapply rb_parses_bind; [by apply parses_ordering|cbv beta]. vstep Hi. hstep. hstep.
  eapply rb_parses_bind; [apply parses_skip_bits|cbv beta].
  { revert Hsets. generalize (y_layer_sets y). intros l. induction l as [|x l IH]; [done|]. intros [Hx Hs]%Forall_cons. cbn [concat length].
    rewrite length_app. specialize (IH Hs). lia. }
  eapply rb_parses_opt; [intros x Hx; rewrite Hx in Ht; by apply parses_vps_timing|done|]. eapply parses_on_vps; [done|]. vps_fields.
  clear - Hv Hb Hr Hl. clearbody v. destruct v. simpl in Hv, Hb, Hr, Hl. by subst.
Qed.

Definition with_sps (o : H265ParseResult) (s : H265Sps) : H265ParseResult :=
  o <| sps ::= <[Z.to_nat (sps_id s) := s]> |> <| active_sps_id := i8 (sps_id s) |> <| got_sps_in_au := true |>.
Definition with_pps (o : H265ParseResult) (p : H265Pps) : H265ParseResult :=
  o <| pps ::= <[Z.to_nat (pps_id p) := p]> |> <| active_pps_id := i8 (pps_id p) |> <| got_pps_in_au := true |>.
Lemma hevc_parses_sps y s sets r o : sps_ok y s sets -> parses parse_sps (sps_bits y ++ r) o r (with_sps o s) tt.
Proof. intros Hs. unfold parse_sps. eapply rb_parses_bind; [by eapply parses_read_sps|]. by apply parses_upd. Qed.
Lemma hevc_parses_pps y p s r o : pps_ok y p -> sps o !! Z.to_nat (pps_sps_id p) = Some s -> sps_valid s = 1 ->
  parses parse_pps (pps_bits y ++ r) o r (with_pps o p) tt.
Proof.
  intros Hp Hs Hv. rewrite pps_body_bits, (po_pps _ _ Hp). bits. pose proof (po_id _ _ Hp). pose proof (po_sps _ _ Hp). unfold parse_pps. hstep.
  unfold H265_MAX_PPS, H265_MAX_SPS. rewrite (proj2 (Z.leb_gt 64 _)) by lia. hstep. rewrite (proj2 (Z.leb_gt 32 _)) by lia.
  hstep. eapply rb_parses_bind; [by apply parses_need|cbv beta]. rewrite Hv. cbn [truth Z.eqb negb].
  eapply rb_parses_bind; [by apply parses_read_pps|cbv beta]. by apply parses_upd.
Qed.
