(* ===== verification/H265SliceFacts.v ===== *)
(** * HEVC slice segment headers are read back

    Every part of the header sets its fields on whatever header is there: the effects
    [*_of] below, each with the bits it is read from.  [slice_read] puts them together. *)

From Stdlib Require Import Sorting.Sorted.
From stdpp Require Import sorting.
From S2P Require Import Prelude Bits Rbsp RbspFacts H265Parser H265Syntax H265ParserFacts.

(** ** The state *)

Definition with_slice (o : H265ParseResult) (h : H265SliceHeader) : H265ParseResult := o <| slice := h |>.
Lemma parses_on_slice f h h' l o : h' = f h -> parses (on_slice f) l (with_slice o h) l (with_slice o h') tt.
Proof. intros ->. apply parses_upd. by destruct o. Qed.
(** A field that is read under a condition and was 0. *)
Lemma parses_field (c : bool) (m : Par Z) (f : Z -> H265SliceHeader -> H265SliceHeader) x v h h' l o :
  (c = true -> parses m (x ++ l) (with_slice o h) l (with_slice o h) v) -> f 0 h = h -> h' = f (when0 c v) h ->
  parses (when c (a ← m; on_slice (f a))) (only c x ++ l) (with_slice o h) l (with_slice o h') tt.
Proof.
  intros Hm H0 ->. apply parses_only; [intros ->|intros ->; unfold when0; by rewrite H0].
  eapply rb_parses_bind; [by apply Hm|]. by apply parses_on_slice.
Qed.
(** Writing 0 over a field that is 0. *)
Ltac unchanged H :=
  cbv beta;
  match goal with |- @set_field _ _ ?proj _ _ ?h = ?h =>
    let E := fresh in assert (proj h = 0) as E by exact H; revert E; generalize h; intros []; simpl; by intros -> end.
Lemma parses_flag (c : bool) (b : bool) (f : Z -> H265SliceHeader -> H265SliceHeader) h h' l o :
  f 0 h = h -> h' = f (Z.b2z (c && b)) h ->
  parses (when c (a ← rd_u1; on_slice (f a))) (only c [b] ++ l) (with_slice o h) l (with_slice o h') tt.
Proof. intros H0 ->. eapply parses_field; [intros _; apply (parses_u1 b)|done|by destruct c]. Qed.

Lemma parses_position {T} d l (t : T) : tail d l -> rd_pos (reader_at d l, t) = Some (reader_at d l, t, inl (8 * length d - length l)%nat).
Proof. done. Qed.
Lemma parses_measured {T A} (m : Rd T A) x l t t' a : parses m (x ++ l) t l t' a ->
  parses (measured m) (x ++ l) t l t' (a, u32 (Z.of_nat (length x))).
Proof.
  intros [_ Hm]. split; [by eexists|]. intros d Ht. unfold measured. unfold mbind, Rd_bind. rewrite parses_position by done. cbv beta iota.
  rewrite (Hm d Ht). cbv beta iota. assert (tail d l) as Hl by by eapply tail_app. rewrite parses_position by done. unfold mret, Rd_ret.
  pose proof (tail_length _ _ Ht) as H. rewrite length_app in *. do 4 f_equal. f_equal. lia.
Qed.
Lemma parses_remaining {T} l (t : T) : parses rd_remaining l t l t (length l / 8)%nat.
Proof.
  split; [by exists []|]. intros d Ht. pose proof (tail_length _ _ Ht) as H. unfold rd_remaining, reader. cbn [fst snd]. do 3 f_equal.
  unfold br_eof, reader_at. cbn [data bit_pos]. pose proof (Nat.div_mod_eq (length l) 8). pose proof (Nat.mod_upper_bound (length l) 8 ltac:(lia)).
  destruct (Nat.leb_spec (8 * length d) (8 * length d - length l)) as [Hn|Hn].
  - assert (length l = 0)%nat as -> by lia. done.
  - replace (8 * length d - length l + 7)%nat with ((7 - length l mod 8) + (length d - length l / 8) * 8)%nat by lia.
    rewrite Nat.div_add, (Nat.div_small (7 - _)) by lia. lia.
Qed.

(** ** The parts *)
Section slice.
Context (nut : Z) (s : H265Sps) (p : H265Pps) (z : slice_syntax).
Hypothesis Hsets : sets_ok s p.
Hypothesis Hz : slice_ok nut s p z.
Implicit Types (h : H265SliceHeader) (o : H265ParseResult).

Definition start_of h : H265SliceHeader :=
  h <| first_slice_segment_in_pic_flag := Z.b2z (z_first z) |> <| no_output_of_prior_pics_flag := Z.b2z (irap nut && z_no_output z) |>
    <| slice_pic_parameter_set_id := z_pps_id z |>.
(** The result without the header: what the start of a slice does to it. *)
Definition base_of o : H265ParseResult :=
  o <| is_irap := irap nut |> <| is_idr := idr nut |> <| active_pps_id := i8 (z_pps_id z) |> <| active_sps_id := i8 (pps_sps_id p) |>.

Lemma hevc_parses_start o h l : pps o !! Z.to_nat (z_pps_id z) = Some p -> pps_valid p = 1 ->
  sps o !! Z.to_nat (pps_sps_id p) = Some s -> sps_valid s = 1 -> no_output_of_prior_pics_flag h = 0 ->
  parses (slice_start nut) (start_bits nut z ++ l) (with_slice o h) l (with_slice (base_of o) (start_of h)) (s, p).
Proof.
  intros Hp Hpv Hs Hsv H0. pose proof (ok_pps _ _ _ _ Hz) as Hi. unfold slice_start, start_bits. bits.
  eapply rb_parses_bind; [apply parses_u1|cbv beta zeta]. eapply rb_parses_bind; [by apply parses_on_slice|cbv beta].
  eapply rb_parses_bind; [apply (parses_upd _ _ _ (with_slice (o <| is_irap := irap nut |> <| is_idr := idr nut |>) (h <| first_slice_segment_in_pic_flag := Z.b2z (z_first z) |>))); by destruct o|cbv beta].
  eapply rb_parses_bind; [eapply (parses_flag (irap nut) (z_no_output z)); [by destruct h; simpl in *; subst|reflexivity]|cbv beta].
  eapply rb_parses_bind; [eapply parses_ue; lia|cbv beta]. rewrite u8_ok by ok. eapply rb_parses_bind; [by apply parses_on_slice|cbv beta].
  unfold H265_MAX_PPS. rewrite (proj2 (Z.leb_gt 64 _)) by lia. eapply rb_parses_bind; [apply parses_get|cbv beta].
  eapply rb_parses_bind; [apply parses_need; destruct o; exact Hp|cbv beta]. rewrite Hpv. cbn [truth Z.eqb negb].
  eapply rb_parses_bind; [by apply parses_upd|cbv beta]. eapply rb_parses_bind; [apply parses_need; destruct o; exact Hs|cbv beta]. rewrite Hsv. cbn [truth Z.eqb negb].
  eapply rb_parses_bind; [apply (parses_upd _ _ _ (with_slice (base_of o) (start_of h))); by destruct o|cbv beta]. apply rb_parses_ret.
Qed.

Definition address_of h : H265SliceHeader :=
  h <| dependent_slice_segment_flag := Z.b2z (dependent p z) |> <| slice_segment_address := when0 (negb (z_first z)) (z_address z) |>.
Lemma width_32 : (address_width s <= 32)%nat.
Proof.
  unfold address_width, ceil_log2. assert (0 <= u32 (pic_width_in_ctbs_y s * pic_height_in_ctbs_y s) < 2 ^ 32) as H by (apply Z.mod_pos_bound; lia).
  destruct (Z.leb_spec (u32 (pic_width_in_ctbs_y s * pic_height_in_ctbs_y s)) 1); [lia|].
  assert (Z.log2 (u32 (pic_width_in_ctbs_y s * pic_height_in_ctbs_y s) - 1) < 32) by (apply Z.log2_lt_pow2; lia). lia.
Qed.
Lemma parses_address o h l : first_slice_segment_in_pic_flag h = Z.b2z (z_first z) -> dependent_slice_segment_flag h = 0 -> slice_segment_address h = 0 ->
  parses (slice_address s p) (address_bits s p z ++ l) (with_slice o h) l (with_slice o (address_of h)) (Z.b2z (dependent p z)).
Proof.
  intros Hf H1 H2. unfold slice_address, address_bits. eapply rb_parses_bind; [apply parses_get|cbv beta].
  change (slice (with_slice o h)) with h. rewrite Hf, truth_of_b2z. unfold address_of, dependent. destruct (z_first z); cbn [negb only app andb when0 Z.b2z].
  - replace (h <| dependent_slice_segment_flag := 0 |> <| slice_segment_address := 0 |>) with h by (by destruct h; simpl in *; subst). apply rb_parses_ret.
  - bits. eapply rb_parses_bind.
    { apply (parses_opt_read _ _ [z_dependent z] _ _ (Z.b2z (truth (dependent_slice_segments_enabled_flag p) && z_dependent z))); intros ->; [apply (parses_u1 (z_dependent z))|done]. }
    cbv beta. eapply rb_parses_bind; [by apply parses_on_slice|cbv beta].
    eapply rb_parses_bind; [apply rb_parses_u; [apply (ok_address _ _ _ _ Hz)|apply width_32]|cbv beta].
    eapply rb_parses_bind; [by apply parses_on_slice|cbv beta]. apply rb_parses_ret.
Qed.

Definition kind_of h : H265SliceHeader :=
  h <| slice_type := z_type z |> <| pic_output_flag := Z.b2z (truth (output_flag_present_flag p) && z_output z) |>
    <| colour_plane_id := when0 (truth (separate_colour_plane_flag s)) (z_colour_plane z) |>.
Lemma parses_kind o h l : pic_output_flag h = 0 -> colour_plane_id h = 0 ->
  parses (slice_kind s p) (kind_bits s p z ++ l) (with_slice o h) l (with_slice o (kind_of h)) (z_type z).
Proof.
  intros H1 H2. pose proof (ok_type _ _ _ _ Hz) as Ht. unfold slice_kind, kind_bits. bits.
  eapply rb_parses_bind.
  { rewrite <- (ok_extra _ _ _ _ Hz), Nat2Z.id. replace (z_extra z) with (flat_map (fun b : bool => [b]) (z_extra z)) at 2 by (induction (z_extra z) as [|b e IH]; [done|]; cbn; by rewrite IH).
    apply (parses_times (fun b : bool => [b])). intros x _ r. eapply parses_skip, (parses_u1 x). }
  cbv beta. eapply rb_parses_bind; [apply parses_ue; lia|cbv beta]. rewrite u8_ok by ok. eapply rb_parses_bind; [by apply parses_on_slice|cbv beta].
  unfold H265_SLICE_TYPE_I. rewrite (proj2 (Z.ltb_ge 2 _)) by lia.
  eapply rb_parses_bind; [eapply (parses_flag _ (z_output z)); [by destruct h; simpl in *; subst|reflexivity]|cbv beta].
  eapply rb_parses_bind; [|cbv beta; apply rb_parses_ret].
  eapply parses_field; [intros _; apply rb_parses_u; [apply (ok_plane _ _ _ _ Hz)|lia]|by destruct h; simpl in *; subst|reflexivity].
Qed.

(** The picture's count and its reference picture set. *)
Definition set_part_of h : H265SliceHeader := h <| st_rps_slice := own_set s z |> <| short_term_ref_pic_set_idx := set_index s z |>.
Definition pictures_of h : H265SliceHeader :=
  set_part_of (h <| slice_pic_order_cnt_lsb := z_lsb z |> <| short_term_ref_pic_set_sps_flag := Z.b2z (has_sps_set z) |>)
    <| short_term_ref_pic_set_size := u32 (Z.of_nat (length (set_bits s z))) |>
    <| slice_temporal_mvp_enabled_flag := Z.b2z (truth (sps_temporal_mvp_enabled_flag s) && z_mvp z) |>.
Lemma parses_set o h l : st_rps_slice h = zero_rps -> short_term_ref_pic_set_idx h = 0 ->
  parses (slice_set s (Z.b2z (has_sps_set z))) (set_bits s z ++ l) (with_slice o h) l (with_slice o (set_part_of h)) tt.
Proof.
  intros H1 H2. pose proof (ok_set _ _ _ _ Hz) as Hset. destruct Hsets as (_ & _ & Hn & _).
  unfold slice_set, set_bits, set_part_of, own_set, set_index, has_sps_set, sets_before in *. destruct (z_set z) as [i|y]; cbn [Z.b2z truth Z.eqb negb].
  - eapply parses_field; [intros Hi|by destruct h; simpl in *; subst|].
    + apply rb_parses_u; [exact Hset|]. unfold ceil_log2. rewrite (proj2 (Z.leb_gt _ 1)) by (apply Z.ltb_lt in Hi; lia). apply Z.ltb_lt in Hi.
      assert (Z.log2 (num_short_term_ref_pic_sets s - 1) < 6) by (apply Z.log2_lt_pow2; lia). lia.
    + assert (u8 i = i) as Hu.
      { apply u8_ok. unfold bits_ok, ceil_log2 in *.
        assert (Z.log2 (num_short_term_ref_pic_sets s - 1) <= 5) as Hl by (destruct (Z.leb_spec (num_short_term_ref_pic_sets s - 1) 0); [rewrite Z.log2_nonpos; lia|apply Z.lt_succ_r, Z.log2_lt_pow2; lia]).
        destruct (_ <=? 1); [simpl in Hset; lia|]. assert (2 ^ Z.of_nat (Z.to_nat (Z.log2 (num_short_term_ref_pic_sets s - 1) + 1)) <= 2 ^ 8) by (apply Z.pow_le_mono_r; lia). lia. }
      unfold when0. destruct (1 <? _); [rewrite Hu|]; by destruct h; simpl in *; subst.
  - destruct Hset as [Hok [r Hr]]. rewrite Hr. cbn [default]. eapply parses_skip.
    pose (f := fun (r : H265ShortTermRPS) (o : H265ParseResult) => o <| slice ::= fun h => h <| st_rps_slice := r |> |>).
    assert (forall x l t, parses (on_slice (fun h => h <| st_rps_slice := x |>)) l t l (f x t) tt) as Hst by (intros; by apply parses_upd).
    assert (forall a b t, f a (f b t) = f a t) as Hff by by intros a b [].
    pose proof (parses_st_rps _ f (st_rps s) _ _ y r l (with_slice o h) Hst Hff Hn Hok Hr) as H.
    replace (with_slice o (h <| st_rps_slice := r |> <| short_term_ref_pic_set_idx := 0 |>)) with (f r (with_slice o h)); [exact H|].
    destruct o, h. simpl in H2. by subst.
Qed.
Lemma parses_lt_pics o h l : num_long_term_sps h = 0 -> num_long_term_pics h = 0 ->
  parses (slice_long_term s) (slice_lt_bits s ++ l) (with_slice o h) l (with_slice o h) tt.
Proof.
  intros H1 H2. unfold slice_long_term, slice_lt_bits. apply parses_only; [intros _|done]. bits.
  eapply rb_parses_bind; [apply (parses_opt_read _ _ _ _ _ 0); [intros _; by apply parses_ue|done]|cbv beta].
  eapply rb_parses_bind; [by apply parses_ue|cbv beta]. cbn [Z.ltb Z.compare orb Z.of_nat Pos.of_succ_nat Z.add].
  eapply rb_parses_bind; [|apply rb_parses_ret]. apply parses_on_slice. destruct h; simpl in *; by subst.
Qed.
Lemma parses_pictures o h l : st_rps_slice h = zero_rps -> short_term_ref_pic_set_idx h = 0 -> num_long_term_sps h = 0 -> num_long_term_pics h = 0 ->
  slice_temporal_mvp_enabled_flag h = 0 ->
  parses (slice_pictures s) (pictures_bits s z ++ l) (with_slice o h) l (with_slice o (pictures_of h)) tt.
Proof.
  intros H1 H2 H3 H4 H5. unfold slice_pictures, pictures_bits. bits. destruct Hsets as (Hlsb & _). pose proof (ok_lsb _ _ _ _ Hz) as Hl. unfold lsb_width in *.
  eapply rb_parses_bind; [apply rb_parses_u; [exact Hl|lia]|cbv beta]. assert (u16 (z_lsb z) = z_lsb z) as -> by (eapply u16_ok; [|exact Hl]; lia). eapply rb_parses_bind; [by apply parses_on_slice|cbv beta].
  eapply rb_parses_bind; [apply parses_u1|cbv beta]. eapply rb_parses_bind; [by apply parses_on_slice|cbv beta].
  eapply rb_parses_bind; [apply parses_measured, parses_set; by destruct h|cbv beta iota]. eapply rb_parses_bind; [by apply parses_on_slice|cbv beta].
  eapply rb_parses_bind; [apply parses_lt_pics; by destruct h|cbv beta]. eapply parses_flag; [unchanged H5|reflexivity].
Qed.

Definition sao_of h : H265SliceHeader :=
  h <| slice_sao_luma_flag := Z.b2z (truth (sample_adaptive_offset_enabled_flag s) && z_sao_luma z) |>
    <| slice_sao_chroma_flag := Z.b2z (truth (sample_adaptive_offset_enabled_flag s) && has_chroma s && z_sao_chroma z) |>.
Lemma parses_sao o h l : slice_sao_luma_flag h = 0 -> slice_sao_chroma_flag h = 0 ->
  parses (slice_sao s) (sao_bits s z ++ l) (with_slice o h) l (with_slice o (sao_of h)) tt.
Proof.
  intros H1 H2. unfold slice_sao, sao_bits, sao_of. apply parses_only; intros ->; cbn [andb Z.b2z].
  - cbn [app]. eapply rb_parses_bind; [apply parses_u1|cbv beta]. eapply rb_parses_bind; [by apply parses_on_slice|cbv beta].
    eapply parses_flag; [by destruct h; simpl in *; subst|reflexivity].
  - by destruct o, h; simpl in *; subst.
Qed.

(** *** What a P or B slice adds *)
Definition active_of h : H265SliceHeader :=
  h <| num_ref_idx_active_override_flag := Z.b2z (bool_decide (is_Some (z_override z))) |> <| num_ref_idx_l0_active_minus1 := active0 p z |>
    <| num_ref_idx_l1_active_minus1 := active1 p z |>.
Lemma hevc_parses_active o h l : num_ref_idx_l1_active_minus1 h = 0 ->
  parses (slice_active p (is_b z)) (opt_bits (fun a : Z * Z => ue_bits a.1 ++ only (is_b z) (ue_bits a.2)) (z_override z) ++ l)
    (with_slice o h) l (with_slice o (active_of h)) tt.
Proof.
  intros H0. pose proof (ok_override _ _ _ _ Hz) as Ho. unfold slice_active, active_of, active0, active1. destruct (z_override z) as [[a b]|]; cbn [opt_bits app].
  - destruct Ho as [Ha Hb]. cbn [fst snd] in *. eapply rb_parses_bind; [apply (parses_u1 true)|cbv beta]. eapply rb_parses_bind; [by apply parses_on_slice|cbv beta].
    cbn [Z.b2z truth Z.eqb negb]. bits. eapply rb_parses_bind; [apply parses_ue; ok|cbv beta]. rewrite u8_ok by done.
    eapply rb_parses_bind; [by apply parses_on_slice|cbv beta].
    eapply parses_field; [intros _; apply parses_ue; ok|by destruct h; simpl in *; subst|]. unfold when0. destruct (is_b z); [by rewrite u8_ok|done].
  - eapply rb_parses_bind; [apply (parses_u1 false)|cbv beta]. eapply rb_parses_bind; [by apply parses_on_slice|cbv beta].
    cbn [Z.b2z truth Z.eqb negb]. by apply parses_on_slice.
Qed.

Lemma parses_entries act e o h l : 0 <= act -> entries_ok nut s p z act e ->
  parses (skip_entries (total_refs nut s p z) act) (entries_bits nut s p z e ++ l) (with_slice o h) l (with_slice o h) tt.
Proof.
  intros Ha He. unfold skip_entries, entries_bits. apply parses_opt_last; [|done]. intros x ->. destruct He as [Hl Hx].
  replace (S (Z.to_nat act)) with (length x) by lia.
  apply (parses_times (put (ceil_log2 (Z.of_nat (total_refs nut s p z))))). intros v Hv r. rewrite Forall_forall in Hx. eapply parses_skip, rb_parses_u; [by apply Hx|].
  unfold ceil_log2. destruct (Z.leb_spec (Z.of_nat (total_refs nut s p z)) 1); [lia|].
  pose proof (ok_refs _ _ _ _ Hz) as Ht. unfold H265_MAX_REFS in Ht.
  assert (Z.log2 (Z.of_nat (total_refs nut s p z) - 1) <= 4) by (apply Z.lt_succ_r, Z.log2_lt_pow2; lia). lia.
Qed.
Lemma active_nonneg : 0 <= active0 p z /\ 0 <= active1 p z.
Proof.
  pose proof (ok_override _ _ _ _ Hz) as Ho. destruct Hsets as (_ & _ & _ & _ & H0 & H1 & _). unfold active0, active1, bits_ok in *.
  destruct (z_override z) as [[a b]|]; [|lia]. destruct Ho. cbn [fst snd] in *. destruct (is_b z); lia.
Qed.
Lemma hevc_parses_modification o h l : set_in_force s h = Some (slice_rps nut s p z) -> num_ref_idx_l0_active_minus1 h = active0 p z ->
  num_ref_idx_l1_active_minus1 h = active1 p z ->
  parses (slice_modification s p (is_b z)) (slice_mod_bits nut s p z ++ l) (with_slice o h) l (with_slice o h) tt.
Proof.
  intros Hr H0 H1. unfold slice_modification, slice_mod_bits. destruct active_nonneg as [Ha0 Ha1].
  eapply rb_parses_bind; [apply parses_get|cbv beta]. change (slice (with_slice o h)) with h. eapply rb_parses_bind; [by apply parses_need|cbv beta zeta].
  rewrite H0, H1. apply parses_only; [intros _|done]. bits.
  eapply rb_parses_bind; [apply parses_entries; [done|apply (ok_entries0 _ _ _ _ Hz)]|cbv beta].
  apply parses_only; [intros _|done]. apply parses_entries; [done|apply (ok_entries1 _ _ _ _ Hz)].
Qed.

Definition collocated_of h : H265SliceHeader :=
  h <| collocated_from_l0_flag := Z.b2z (mvp nut s p z && from_l0 z) |>
    <| collocated_ref_idx := when0 (mvp nut s p z && (1 <? (if from_l0 z then active0 p z else active1 p z) + 1)) (z_ref_idx z) |>.
Lemma parses_collocated o h l : slice_temporal_mvp_enabled_flag h = Z.b2z (mvp nut s p z) -> collocated_from_l0_flag h = 0 -> collocated_ref_idx h = 0 ->
  num_ref_idx_l0_active_minus1 h = active0 p z -> num_ref_idx_l1_active_minus1 h = active1 p z ->
  parses (slice_collocated (is_b z))
    (only (mvp nut s p z) (only (is_b z) [z_from_l0 z] ++ only (1 <? (if from_l0 z then active0 p z else active1 p z) + 1) (ue_bits (z_ref_idx z))) ++ l)
    (with_slice o h) l (with_slice o (collocated_of h)) tt.
Proof.
  intros Hm H1 H2 H0a H1a. unfold slice_collocated. eapply rb_parses_bind; [apply parses_get|cbv beta]. change (slice (with_slice o h)) with h.
  rewrite Hm, truth_of_b2z, H0a, H1a. unfold collocated_of. apply parses_only; intros ->; cbn [andb Z.b2z when0]; [|by destruct o, h; simpl in *; subst].
  bits. set (rest := only (1 <? _) (ue_bits (z_ref_idx z)) ++ l). eapply rb_parses_bind with (a := Z.b2z (from_l0 z)) (t1 := with_slice o h) (l1 := rest).
  { clearbody rest. unfold from_l0. destruct (is_b z); [apply (parses_u1 (z_from_l0 z))|apply rb_parses_ret]. }
  subst rest. cbv beta zeta. rewrite truth_of_b2z. eapply rb_parses_bind; [by apply parses_on_slice|cbv beta].
  pose proof (ok_ref_idx _ _ _ _ Hz) as Hi.
  eapply parses_field; [intros _; apply parses_ue; ok|by destruct h; simpl in *; subst|]. unfold when0. destruct (_ <? _); [by rewrite u8_ok|done].
Qed.

Lemma parses_weight_flags n (l : list weight_syntax) (f : weight_syntax -> bool) r o : length l = n -> (n <= 16)%nat ->
  parses (weight_flags n) (map f l ++ r) o r o (map (fun w => Z.b2z (f w)) l).
Proof.
  intros <- Hn. unfold weight_flags. rewrite (proj2 (Nat.ltb_ge 16 _)) by done.
  replace (map f l) with (flat_map (fun w => [f w]) l) by (clear; induction l as [|w l IH]; [done|]; cbn; by rewrite IH).
  apply (parses_collect (fun w => [f w]) (fun _ => rd_u1)). intros. apply (parses_u1 (f x)).
Qed.
Lemma hevc_parses_weight w r o : weight_ok s w ->
  parses (skip_weight (Z.b2z (bool_decide (is_Some w.1)), if has_chroma s then Z.b2z (bool_decide (is_Some w.2)) else 0)) (weight_bits w ++ r) o r o tt.
Proof.
  intros (H1 & H2 & H3). unfold skip_weight, weight_bits. destruct w as [lu ch]. cbn [fst snd] in *. bits.
  eapply rb_parses_bind; [apply parses_when|cbv beta; apply parses_when].
  - destruct lu as [[a b]|]; cbn; [|done]. destruct H1. bits. do 2 pstep. pread.
  - destruct (has_chroma s); [|by rewrite H2]. destruct ch as [[[[a b] c] d]|]; cbn; [|done]. destruct H3 as (? & ? & ? & ?). bits. do 3 pstep. pread.
Qed.
Lemma parses_weight_list l r o : (length l <= 16)%nat -> Forall (weight_ok s) l ->
  parses (skip_weights (length l) (has_chroma s)) (weight_list_bits s l ++ r) o r o tt.
Proof.
  intros Hl Hw. unfold skip_weights, weight_list_bits. bits. eapply rb_parses_bind; [by apply parses_weight_flags|cbv beta].
  eapply rb_parses_bind with (t1 := o) (l1 := flat_map weight_bits l ++ r) (a := map (fun w : weight_syntax => if has_chroma s then Z.b2z (bool_decide (is_Some w.2)) else 0) l).
  - destruct (has_chroma s); cbn [only app]; [by apply parses_weight_flags|].
    replace (map (fun _ : weight_syntax => 0) l) with (replicate (length l) 0) by (clear; induction l as [|w l IH]; [done|]; cbn; by rewrite IH). apply rb_parses_ret.
  - cbv beta. replace (each skip_weight (zip _ _)) with
      (each (fun w : weight_syntax => skip_weight (Z.b2z (bool_decide (is_Some w.1)), if has_chroma s then Z.b2z (bool_decide (is_Some w.2)) else 0)) l : Par unit)
      by (clear; induction l as [|w l IH]; [done|]; cbn [each map zip zip_with]; by rewrite IH).
    apply (parses_each weight_bits). intros w r0 Hin. rewrite Forall_forall in Hw. by apply hevc_parses_weight, Hw.
Qed.
Lemma parses_slice_weights o h l : inter p z = true -> num_ref_idx_l0_active_minus1 h = active0 p z -> num_ref_idx_l1_active_minus1 h = active1 p z ->
  parses (slice_weights s p (z_type z)) (weights_bits s p z ++ l) (with_slice o h) l (with_slice o h) tt.
Proof.
  intros Hi H0 H1. unfold slice_weights, weights_bits. apply parses_only; [intros Hw|done]. destruct (ok_weights _ _ _ _ Hz Hi Hw) as (L0 & B0 & HB).
  destruct (ok_denominators _ _ _ _ Hz) as [Hd1 Hd2]. cbv zeta. bits. pstep.
  eapply rb_parses_bind; [apply parses_only; [intros _; pread|done]|cbv beta]. eapply rb_parses_bind; [apply parses_get|cbv beta].
  change (slice (with_slice o h)) with h. rewrite H0, H1, <- L0, Nat2Z.id.
  eapply rb_parses_bind; [apply parses_weight_list; [lia|apply (ok_weights0 _ _ _ _ Hz)]|cbv beta].
  apply parses_only; [intros Hb|done]. destruct (HB Hb) as [L1 B1]. rewrite <- L1, Nat2Z.id. apply parses_weight_list; [lia|apply (ok_weights1 _ _ _ _ Hz)].
Qed.

Definition inter_of h : H265SliceHeader :=
  collocated_of (active_of h <| mvd_l1_zero_flag := Z.b2z (is_b z && z_mvd_l1_zero z) |>
                             <| cabac_init_flag := Z.b2z (truth (cabac_init_present_flag p) && z_cabac_init z) |>)
    <| five_minus_max_num_merge_cand := z_merge z |>.
Lemma parses_inter_part o h l : inter p z = true -> set_in_force s h = Some (slice_rps nut s p z) ->
  slice_temporal_mvp_enabled_flag h = Z.b2z (mvp nut s p z) -> num_ref_idx_l1_active_minus1 h = 0 -> mvd_l1_zero_flag h = 0 -> cabac_init_flag h = 0 ->
  collocated_from_l0_flag h = 0 -> collocated_ref_idx h = 0 ->
  parses (slice_inter s p (z_type z)) (inter_bits nut s p z ++ l) (with_slice o h) l (with_slice o (inter_of h)) tt.
Proof.
  intros Hi Hr Hm H1 H2 H3 H4 H5. unfold slice_inter, inter_bits. cbv zeta. change (z_type z =? H265_SLICE_TYPE_B) with (is_b z). bits.
  eapply rb_parses_bind; [by apply hevc_parses_active|cbv beta]. eapply rb_parses_bind; [by apply hevc_parses_modification|cbv beta].
  eapply rb_parses_bind; [eapply parses_flag; [unchanged H2|reflexivity]|cbv beta].
  eapply rb_parses_bind; [eapply parses_flag; [unchanged H3|reflexivity]|cbv beta].
  eapply rb_parses_bind; [by apply parses_collocated|cbv beta]. eapply rb_parses_bind; [by apply parses_slice_weights|cbv beta].
  pose proof (ok_merge _ _ _ _ Hz). eapply rb_parses_bind; [apply parses_ue; ok|cbv beta]. rewrite u8_ok by done. by apply parses_on_slice.
Qed.

Definition qp_of h : H265SliceHeader :=
  let c := truth (pps_slice_chroma_qp_offsets_present_flag p) in
  h <| slice_qp_delta := z_qp z |> <| slice_cb_qp_offset := when0 c (z_cb z) |> <| slice_cr_qp_offset := when0 c (z_cr z) |>.
Lemma parses_qp o h l : slice_cb_qp_offset h = 0 -> slice_cr_qp_offset h = 0 ->
  parses (slice_qp p) (qp_bits p z ++ l) (with_slice o h) l (with_slice o (qp_of h)) tt.
Proof.
  intros H1 H2. unfold slice_qp, qp_bits, qp_of. cbv zeta. pose proof (ok_qp _ _ _ _ Hz). pose proof (ok_cb _ _ _ _ Hz). pose proof (ok_cr _ _ _ _ Hz). bits.
  eapply rb_parses_bind; [apply parses_se; ok|cbv beta]. rewrite i8_ok by done. eapply rb_parses_bind; [by apply parses_on_slice|cbv beta].
  apply parses_only; intros ->; cbn [when0].
  - bits. eapply rb_parses_bind; [apply parses_se; ok|cbv beta]. rewrite i8_ok by done. eapply rb_parses_bind; [by apply parses_on_slice|cbv beta].
    eapply rb_parses_bind; [apply parses_se; ok|cbv beta]. rewrite i8_ok by done. by apply parses_on_slice.
  - by destruct o, h; simpl in *; subst.
Qed.

Section own_part.
Hypothesis Hown : own p z = true.
Definition deblocking_of h : H265SliceHeader :=
  h <| deblocking_filter_override_flag := Z.b2z (truth (deblocking_filter_control_present_flag p) && deblocking_overridden p z) |>
    <| slice_deblocking_filter_disabled_flag := (deblocking p z).1.1 |> <| slice_beta_offset_div2 := (deblocking p z).1.2 |>
    <| slice_tc_offset_div2 := (deblocking p z).2 |>.
Lemma parses_deblocking o h l : deblocking_filter_override_flag h = 0 -> slice_deblocking_filter_disabled_flag h = 0 ->
  slice_beta_offset_div2 h = 0 -> slice_tc_offset_div2 h = 0 ->
  parses (slice_deblocking p) (deblocking_bits p z ++ l) (with_slice o h) l (with_slice o (deblocking_of h)) tt.
Proof.
  intros H1 H2 H3 H4. unfold slice_deblocking, deblocking_bits, deblocking_of, deblocking, deblocking_overridden. rewrite Hown. pose proof (ok_deblocking _ _ _ _ Hz) as Hd.
  destruct (truth (deblocking_filter_control_present_flag p)); cbn [andb when only app];
    [|replace (with_slice o (_ <| slice_tc_offset_div2 := _ |>)) with (with_slice o h) by (by destruct o, h; simpl in *; subst); apply rb_parses_ret].
  destruct (truth (deblocking_filter_override_enabled_flag p)); cbn [opt_read only app andb].
  - destruct (z_deblocking z) as [[[d b] t]|]; cbn [opt_bits app fst snd].
    + destruct Hd as [Hb Ht]. cbn [fst snd] in *. eapply rb_parses_bind; [apply (parses_u1 true)|cbv beta]. eapply rb_parses_bind; [by apply parses_on_slice|cbv beta].
      cbn [Z.b2z truth Z.eqb negb]. eapply rb_parses_bind; [apply parses_u1|cbv beta]. eapply rb_parses_bind; [by apply parses_on_slice|cbv beta]. rewrite truth_of_b2z.
      destruct d; cbn [negb when only app].
      * replace (with_slice o (_ <| slice_tc_offset_div2 := _ |>)) with
          (with_slice o (h <| deblocking_filter_override_flag := 1 |> <| slice_deblocking_filter_disabled_flag := 1 |>)) by (by destruct o, h; simpl in *; subst).
        apply rb_parses_ret.
      * bits. eapply rb_parses_bind; [apply parses_se; ok|cbv beta]. rewrite i8_ok by done. eapply rb_parses_bind; [by apply parses_on_slice|cbv beta].
        eapply rb_parses_bind; [apply parses_se; ok|cbv beta]. rewrite i8_ok by done. by apply parses_on_slice.
    + eapply rb_parses_bind; [apply (parses_u1 false)|cbv beta]. eapply rb_parses_bind; [by apply parses_on_slice|cbv beta]. by apply parses_on_slice.
  - eapply rb_parses_bind; [apply rb_parses_ret|cbv beta]. eapply rb_parses_bind; [by apply parses_on_slice|cbv beta]. cbn [truth Z.eqb negb].
    destruct (z_deblocking z) as [[[d b] t]|]; by apply parses_on_slice.
Qed.

(** *** The whole of a segment that is not dependent *)
Definition own_start h : H265SliceHeader := if idr nut then kind_of h else pictures_of (kind_of h).
Definition own_inter h : H265SliceHeader := if inter p z then inter_of (sao_of (own_start h)) else sao_of (own_start h).
Definition own_of h : H265SliceHeader :=
  deblocking_of (qp_of (own_inter h)) <| slice_loop_filter_across_slices_enabled_flag := Z.b2z (loop_filter s p z && z_loop_filter z) |>.
Definition first_part : H265SliceHeader := address_of (start_of zero_header).

Lemma pictures_own : pictures nut p z = negb (idr nut).
Proof. unfold pictures. by rewrite Hown. Qed.
Lemma own_set_in_force : set_in_force s (sao_of (own_start first_part)) = Some (slice_rps nut s p z).
Proof.
  unfold slice_rps. rewrite pictures_own. unfold own_start, set_in_force. destruct (idr nut); cbn [negb andb]; [reflexivity|].
  change (short_term_ref_pic_set_sps_flag _) with (Z.b2z (has_sps_set z)). rewrite truth_of_b2z.
  change (short_term_ref_pic_set_idx _) with (set_index s z). change (st_rps_slice _) with (own_set s z).
  pose proof (ok_set _ _ _ _ Hz) as Hset. destruct Hsets as (_ & _ & Hn & Hl & _). unfold has_sps_set, set_index in *. destruct (z_set z) as [i|y]; [|done].
  assert (0 <= (if 1 <? num_short_term_ref_pic_sets s then i else 0) < 64) as Hi.
  { destruct (Z.ltb_spec 1 (num_short_term_ref_pic_sets s)); [|lia]. unfold bits_ok, ceil_log2 in Hset. rewrite (proj2 (Z.leb_gt _ 1)) in Hset by lia.
    assert (Z.log2 (num_short_term_ref_pic_sets s - 1) <= 5) by (apply Z.lt_succ_r, Z.log2_lt_pow2; lia).
    assert (2 ^ Z.of_nat (Z.to_nat (Z.log2 (num_short_term_ref_pic_sets s - 1) + 1)) <= 2 ^ 6) by (apply Z.pow_le_mono_r; lia). lia. }
  destruct (lookup_lt_is_Some_2 (st_rps s) (Z.to_nat (if 1 <? num_short_term_ref_pic_sets s then i else 0))) as [r Hr]; [lia|]. by rewrite Hr.
Qed.
Lemma own_mvp : slice_temporal_mvp_enabled_flag (sao_of (own_start first_part)) = Z.b2z (mvp nut s p z).
Proof. unfold mvp. rewrite pictures_own. unfold own_start. by destruct (idr nut). Qed.
(** A field the picture part leaves alone. *)
Lemma own_start_keeps {A} (f : H265SliceHeader -> A) v :
  f (sao_of (kind_of first_part)) = v -> f (sao_of (pictures_of (kind_of first_part))) = v -> f (sao_of (own_start first_part)) = v.
Proof. unfold own_start. by destruct (idr nut). Qed.
Lemma own_inter_keeps {A} (f : H265SliceHeader -> A) v :
  f (sao_of (own_start first_part)) = v -> f (inter_of (sao_of (own_start first_part))) = v -> f (own_inter first_part) = v.
Proof. unfold own_inter. by destruct (inter p z). Qed.

Lemma parses_own o l : is_idr o = idr nut ->
  parses (slice_independent s p) (own_bits nut s p z ++ l) (with_slice o first_part) l (with_slice o (own_of first_part)) tt.
Proof.
  intros Ho. unfold slice_independent, own_bits. bits. eapply rb_parses_bind; [by apply parses_kind|cbv beta].
  eapply rb_parses_bind; [apply parses_get|cbv beta]. replace (is_idr (with_slice o _)) with (idr nut) by (by rewrite <- Ho; destruct o).
  eapply rb_parses_bind with (t1 := with_slice o (own_start first_part)).
  { unfold own_start. apply parses_only; [intros E%negb_true_iff|intros E%negb_false_iff]; rewrite E; [by apply parses_pictures|done]. }
  cbv beta. eapply rb_parses_bind; [apply parses_sao; unfold own_start; by destruct (idr nut)|cbv beta].
  eapply rb_parses_bind with (t1 := with_slice o (own_inter first_part)).
  { unfold own_inter. replace ((z_type z =? H265_SLICE_TYPE_P) || (z_type z =? H265_SLICE_TYPE_B)) with (inter p z) by (unfold inter; by rewrite Hown).
    apply parses_only; intros E; rewrite E; [|done]. apply parses_inter_part; [done|apply own_set_in_force|apply own_mvp|by apply own_start_keeps..]. }
  cbv beta. eapply rb_parses_bind; [apply parses_qp; by apply own_inter_keeps; apply own_start_keeps|cbv beta].
  eapply rb_parses_bind; [apply parses_deblocking; by apply own_inter_keeps; apply own_start_keeps|cbv beta].
  unfold slice_loop_filter. eapply rb_parses_bind; [apply parses_get|cbv beta].
  set (h := deblocking_of _). change (slice (with_slice o h)) with h.
  assert (slice_sao_luma_flag h = Z.b2z (sao s p z && z_sao_luma z)) as H1.
  { unfold sao. rewrite Hown. change (slice_sao_luma_flag (own_inter first_part) = Z.b2z (truth (sample_adaptive_offset_enabled_flag s) && z_sao_luma z)). by apply own_inter_keeps; apply own_start_keeps. }
  assert (slice_sao_chroma_flag h = Z.b2z (sao s p z && has_chroma s && z_sao_chroma z)) as H2.
  { unfold sao. rewrite Hown. change (slice_sao_chroma_flag (own_inter first_part) = Z.b2z (truth (sample_adaptive_offset_enabled_flag s) && has_chroma s && z_sao_chroma z)).
    by apply own_inter_keeps; apply own_start_keeps. }
  rewrite H1, H2, !truth_of_b2z. change (slice_deblocking_filter_disabled_flag h) with (deblocking p z).1.1.
  assert (truth (pps_loop_filter_across_slices_enabled_flag p) &&
    (sao s p z && z_sao_luma z || sao s p z && has_chroma s && z_sao_chroma z || negb (truth (deblocking p z).1.1)) = loop_filter s p z) as ->
    by (unfold loop_filter; by rewrite Hown).
  eapply parses_flag; [|reflexivity]. assert (slice_loop_filter_across_slices_enabled_flag h = 0) as H0.
  { change (slice_loop_filter_across_slices_enabled_flag (own_inter first_part) = 0). by apply own_inter_keeps; apply own_start_keeps. }
  unchanged H0.
Qed.

End own_part.

(** ** The end of the header *)
Definition points_of h : H265SliceHeader := h <| num_entry_point_offsets := when0 (entry_points p) (Z.of_nat (length (z_offsets z))) |>.
Lemma parses_points o h l : num_entry_point_offsets h = 0 ->
  parses (slice_entry_points s p) (points_bits p z ++ l) (with_slice o h) l (with_slice o (points_of h)) tt.
Proof.
  intros H0. unfold slice_entry_points, points_bits, points_of. change (truth (tiles_enabled_flag p) || truth (entropy_coding_sync_enabled_flag p)) with (entry_points p).
  destruct (ok_points _ _ _ _ Hz) as (Hn & Hl & Hx). destruct Hsets as (_ & _ & _ & _ & _ & _ & Hw & Hh & Ht & _).
  apply parses_only; intros ->; cbn [when0]; [|by destruct o, h; simpl in *; subst]. bits.
  eapply rb_parses_bind; [apply parses_ue; nia|cbv beta]. rewrite u32_small, (proj2 (Z.ltb_ge _ _)) by nia.
  eapply rb_parses_bind; [by apply parses_on_slice|cbv beta]. apply parses_only; [intros _|done]. bits.
  eapply rb_parses_bind; [apply parses_ue; lia|cbv beta]. rewrite (proj2 (Z.ltb_ge 31 _)) by lia. rewrite Nat2Z.id.
  apply (parses_times (put (Z.to_nat (z_offset_len z + 1)))). intros x Hin r. rewrite Forall_forall in Hx. eapply parses_skip, rb_parses_u; [|lia].
  specialize (Hx x Hin). unfold bits_ok in Hx. by rewrite Z2Nat.id by lia.
Qed.
Lemma length_flat_put n l : length (flat_map (put n) l) = (length l * n)%nat.
Proof. induction l as [|v l IH]; [done|]. cbn [flat_map length]. rewrite length_app, length_put, IH. lia. Qed.
Lemma parses_extension o h l :
  parses (slice_extension p) (extension_bits p z ++ l) (with_slice o h) l (with_slice o h) tt.
Proof.
  unfold slice_extension, extension_bits. destruct (ok_extension _ _ _ _ Hz) as [Hn Hx]. apply parses_only; [intros _|done]. bits.
  eapply rb_parses_bind; [apply parses_ue; lia|cbv beta]. eapply rb_parses_bind; [apply parses_remaining|cbv beta].
  assert (length (z_extension z) <= length (flat_map (put 8) (z_extension z) ++ l) / 8)%nat as Hr.
  { rewrite length_app, length_flat_put, Nat.add_comm, Nat.div_add by lia. lia. }
  rewrite (proj2 (Z.ltb_ge _ _)), Nat2Z.id by lia.
  apply (parses_times (put 8)). intros x Hin r. rewrite Forall_forall in Hx. eapply parses_skip, rb_parses_u; [by apply Hx|lia].
Qed.

Definition fields_of : H265SliceHeader := points_of (if own p z then own_of first_part else first_part).
Lemma hevc_parses_fields o l : pps o !! Z.to_nat (z_pps_id z) = Some p -> pps_valid p = 1 ->
  sps o !! Z.to_nat (pps_sps_id p) = Some s -> sps_valid s = 1 ->
  parses (slice_fields nut) (fields_bits nut s p z ++ l) o l (with_slice (base_of o) fields_of) tt.
Proof.
  intros Hp Hpv Hs Hsv. unfold slice_fields, fields_bits. bits.
  eapply rb_parses_bind; [apply (parses_upd _ _ _ (with_slice o zero_header)); by destruct o|cbv beta].
  eapply rb_parses_bind; [by apply hevc_parses_start|cbv beta iota]. eapply rb_parses_bind; [by apply parses_address|cbv beta]. rewrite truth_of_b2z.
  change (negb (dependent p z)) with (own p z).
  eapply rb_parses_bind with (t1 := with_slice (base_of o) (if own p z then own_of first_part else first_part)).
  { apply parses_only; intros E; rewrite E; [|done]. apply parses_own; [done|by destruct o]. }
  cbv beta. eapply rb_parses_bind; [apply parses_points|cbv beta; apply parses_extension].
  destruct (own p z) eqn:E; [|done]. change (num_entry_point_offsets (own_inter first_part) = 0). apply own_inter_keeps; by apply own_start_keeps.
Qed.

Lemma fields_header n : fields_of <| header_bit_size := n |> = header_of nut s p z n.
Proof.
  unfold fields_of, header_of, own_of, own_inter, own_start. destruct (own p z) eqn:Eo.
  - assert (sao s p z = truth (sample_adaptive_offset_enabled_flag s)) as -> by (unfold sao; by rewrite Eo).
    assert (pictures nut p z = negb (idr nut)) as Hp by (unfold pictures; by rewrite Eo).
    assert (mvp nut s p z = negb (idr nut) && truth (sps_temporal_mvp_enabled_flag s) && z_mvp z) as Hm by (unfold mvp; by rewrite Hp).
    unfold collocated, collocated_of, inter_of, collocated_of. rewrite Hm, Hp.
    destruct (inter p z) eqn:En; destruct (idr nut) eqn:Ei; reflexivity.
  - assert (sao s p z = false) as -> by (unfold sao; by rewrite Eo). assert (pictures nut p z = false) as Hp by (unfold pictures; by rewrite Eo).
    assert (mvp nut s p z = false) as Hm by (unfold mvp; by rewrite Hp). assert (inter p z = false) as Hi by (unfold inter; by rewrite Eo).
    assert (loop_filter s p z = false) as -> by (unfold loop_filter; by rewrite Eo). assert (deblocking p z = (0, 0, 0)) as -> by (unfold deblocking; by rewrite Eo).
    unfold collocated. rewrite Hm, Hp, Hi. reflexivity.
Qed.

(** The alignment: a one and zeros to the next byte. *)
Lemma align_at d k : forall fuel l (o : H265ParseResult), tail d (replicate k false ++ l) -> (length l mod 8 = 0)%nat -> (k < 8)%nat -> (k < fuel)%nat ->
  align_loop fuel (reader_at d (replicate k false ++ l), o) = Some (reader_at d l, o, inl tt).
Proof.
  induction k as [|k IH]; intros [|fuel] l o Ht Hl Hk Hf; try lia; cbn [align_loop replicate app] in *; unfold mbind at 1, Rd_bind at 1; rewrite parses_position by done; cbv beta iota.
  - pose proof (tail_length _ _ Ht). pose proof (Nat.div_mod_eq (length l) 8).
    replace (8 * length d - length l)%nat with (0 + (length d - length l / 8) * 8)%nat by lia. rewrite Nat.Div0.mod_add. reflexivity.
  - pose proof (tail_length _ _ Ht) as HL. pose proof (Nat.div_mod_eq (length l) 8). cbn [length] in HL. rewrite length_app, length_replicate in HL.
    assert (((8 * length d - length (false :: replicate k false ++ l)) mod 8 <> 0)%nat) as Hm.
    { cbn [length]. rewrite length_app, length_replicate.
      replace (8 * length d - S (k + length l))%nat with ((7 - k) + (length d - length l / 8 - 1) * 8)%nat by lia.
      rewrite Nat.Div0.mod_add, Nat.mod_small by lia. lia. }
    rewrite (proj2 (Nat.eqb_neq _ _)) by done. unfold mbind at 1, Rd_bind at 1. unfold skip, mbind at 1, Rd_bind at 1.
    pose proof (proj2 (parses_u1 false (replicate k false ++ l) o) d Ht) as Hu. rewrite Hu. unfold mret, Rd_ret. cbv beta iota.
    apply IH; [by eapply tail_cons|lia..].
Qed.
Lemma slice_read d o rest : to_bits d = slice_bits nut s p z ++ rest -> pps o !! Z.to_nat (z_pps_id z) = Some p -> pps_valid p = 1 ->
  sps o !! Z.to_nat (pps_sps_id p) = Some s -> sps_valid s = 1 ->
  parse_slice_header nut (br_init d, o) =
  Some (reader_at d rest, with_slice (base_of o) (header_of nut s p z (u32 (Z.of_nat (length (slice_bits nut s p z))))), inl tt).
Proof.
  intros Hd Hp Hpv Hs Hsv. set (f := fields_bits nut s p z) in *. set (k := (7 - length f mod 8)%nat) in *.
  assert (slice_bits nut s p z = f ++ true :: replicate k false) as Eb by done.
  assert (br_init d = reader_at d (f ++ true :: replicate k false ++ rest)) as ->.
  { unfold br_init, reader_at. f_equal. rewrite Eb in Hd. change (f ++ true :: replicate k false ++ rest) with (f ++ (true :: replicate k false) ++ rest).
    rewrite app_assoc, <- Hd, length_to_bits. lia. }
  assert (tail d (f ++ true :: replicate k false ++ rest)) as Ht by (exists []; rewrite Hd, Eb, <- app_assoc; done).
  pose proof (length_to_bits d) as HL. rewrite Hd, Eb, !length_app in HL. cbn [length] in HL. rewrite length_replicate in HL.
  pose proof (Nat.div_mod_eq (length f) 8). pose proof (Nat.mod_upper_bound (length f) 8 ltac:(lia)).
  assert (length rest mod 8 = 0)%nat as Hr.
  { replace (length rest) with (0 + (length d - length f / 8 - 1) * 8)%nat by lia. by rewrite Nat.Div0.mod_add. }
  unfold parse_slice_header. unfold mbind at 1, Rd_bind at 1.
  pose proof (proj2 (hevc_parses_fields o (true :: replicate k false ++ rest) Hp Hpv Hs Hsv) d Ht) as Hf. change (fields_bits nut s p z) with f in Hf.
  rewrite Hf. cbv beta iota.
  unfold mbind at 1, Rd_bind at 1. unfold skip, mbind at 1, Rd_bind at 1. apply tail_app in Ht.
  rewrite (proj2 (parses_u1 true (replicate k false ++ rest) (with_slice (base_of o) fields_of)) d Ht). unfold mret at 1, Rd_ret at 1. cbv beta iota.
  apply tail_cons in Ht. unfold mbind at 1, Rd_bind at 1. rewrite align_at by (done || lia). cbv beta iota.
  unfold mbind at 1, Rd_bind at 1. rewrite parses_position by (by eapply tail_app). cbv beta iota.
  unfold on_slice, upd. do 3 f_equal. rewrite <- fields_header. replace (8 * length d - length rest)%nat with (length (slice_bits nut s p z)); [by destruct o|].
  rewrite Eb, length_app. cbn [length]. rewrite length_replicate. lia.
Qed.
End slice.

(** * Reference picture sets of HEVC in the order of their distances

    A set lists its negative distances, the nearest first, and then its positive ones.
    [predict_rps] walks the entries of another set, moved, in six pieces; what it builds
    is the sorted list of the entries that are kept ([predict_kept]). *)

(** ** The entries of a set in ascending order *)

Definition negatives (r : H265ShortTermRPS) (flags : list (Z * Z)) : list rps_entry :=
  take (Z.to_nat (num_negative_pics r)) (zip (delta_poc r) flags).
Definition positives (r : H265ShortTermRPS) (flags : list (Z * Z)) : list rps_entry :=
  take (Z.to_nat (num_positive_pics r)) (drop (Z.to_nat (num_negative_pics r)) (zip (delta_poc r) flags)).
(** With the picture of the reference set itself between them. *)
Definition ascending (r : H265ShortTermRPS) (flags : list (Z * Z)) : list rps_entry :=
  rev (negatives r flags) ++ (0, List.last flags (0, 0)) :: positives r flags.

(** The distances in order, 0 for the picture itself. *)
Definition distances (r : H265ShortTermRPS) : list Z :=
  let nn := Z.to_nat (num_negative_pics r) in
  rev (take nn (delta_poc r)) ++ 0 :: take (Z.to_nat (num_positive_pics r)) (drop nn (delta_poc r)).
Definition canonical (r : H265ShortTermRPS) : Prop :=
  0 <= num_negative_pics r /\ 0 <= num_positive_pics r /\ num_delta_pocs r = num_negative_pics r + num_positive_pics r /\
  num_delta_pocs r <= 16 /\ length (delta_poc r) = H265_MAX_REFS /\ StronglySorted Z.lt (distances r).

(** The entries moved by [delta] whose distance satisfies [sel] and whose flag says so. *)
Definition kept (sel : Z -> bool) (delta : Z) (l : list rps_entry) : list (Z * Z) :=
  map (fun e => (e.1 + delta, e.2.1)) (List.filter (fun e => sel (e.1 + delta) && truth e.2.2) l).
Definition nonzero (d : Z) : bool := negb (d =? 0).

Lemma kept_app sel delta l k : kept sel delta (l ++ k) = kept sel delta l ++ kept sel delta k.
Proof. unfold kept. by rewrite List.filter_app, map_app. Qed.
Lemma kept_cons sel delta e l : kept sel delta (e :: l) = kept sel delta [e] ++ kept sel delta l.
Proof. apply (kept_app _ _ [e]). Qed.
Lemma kept_rev sel delta l : kept sel delta (rev l) = rev (kept sel delta l).
Proof.
  induction l as [|e l IH]; [done|]. cbn [rev]. rewrite kept_app, IH, (kept_cons _ _ e l), rev_app_distr. f_equal.
  unfold kept. cbn [List.filter]. by destruct (_ && _).
Qed.
Lemma kept_all_neg sel delta l : (forall e, e ∈ l -> sel (e.1 + delta) = false) -> kept sel delta l = [].
Proof.
  induction l as [|e l IH]; intros H; [done|]. rewrite (kept_cons _ _ e l), IH by (intros; apply H; by right). unfold kept. cbn [List.filter].
  by rewrite (H e) by left.
Qed.
Lemma kept_ext sel sel' delta l : (forall e, e ∈ l -> sel (e.1 + delta) = sel' (e.1 + delta)) -> kept sel delta l = kept sel' delta l.
Proof.
  induction l as [|e l IH]; intros H; [done|]. rewrite !(kept_cons _ delta e l), IH by (intros; apply H; by right). f_equal.
  unfold kept. cbn [List.filter]. by rewrite (H e) by left.
Qed.
Lemma kept_in sel delta l x : x ∈ kept sel delta l -> exists e, e ∈ l /\ x.1 = e.1 + delta /\ sel x.1 = true.
Proof.
  unfold kept. intros (e & -> & He)%list_elem_of_fmap. apply list_elem_of_In, List.filter_In in He as [He Hs]. apply andb_true_iff in Hs as [Hs _].
  exists e. split; [by apply list_elem_of_In|]. by split.
Qed.

(** ** The code's pieces *)

Definition fits16 (v : Z) : Prop := - 2 ^ 15 <= v < 2 ^ 15.
Lemma i16_ok v : fits16 v -> i16 v = v.
Proof. unfold fits16, i16. intros H. rewrite Z.mod_small; lia. Qed.
Lemma moved_kept sel delta l : Forall (fun e : rps_entry => fits16 (e.1 + delta)) l -> moved sel delta l = Some (kept sel delta l).
Proof.
  unfold fits16. induction l as [|[d [u k]] l IH]; intros H; [done|]. apply Forall_cons in H as [Hd H]. cbn [moved fst] in *.
  rewrite int32_ok by lia. ostep. rewrite IH by done. ostep. unfold kept. cbn [List.filter fst snd].
  destruct (sel (d + delta) && truth k); [|done]. cbn [map fst snd]. by rewrite i16_ok.
Qed.
Lemma pivot_kept sel delta f : fits16 delta -> pivot sel delta f = kept sel delta [(0, f)].
Proof. intros H. unfold pivot, kept. cbn [List.filter fst snd]. rewrite Z.add_0_l. destruct (_ && _); [|done]. by rewrite i16_ok. Qed.

(** The six pieces are the two halves of the entries that are kept. *)
Lemma predict_halves r flags delta : Z.of_nat (length flags) = num_delta_pocs r + 1 -> 0 <= num_delta_pocs r ->
  Forall (fun e => fits16 (e.1 + delta)) (ascending r flags) ->
  predict_rps r delta flags = Some (rev (kept neg delta (ascending r flags)), kept pos delta (ascending r flags)).
Proof.
  intros Hl Hn Hf. unfold ascending in *. apply Forall_app in Hf as [Hneg Hf]. apply Forall_cons in Hf as [Hd Hpos]. cbn [fst] in Hd. rewrite Z.add_0_l in Hd.
  assert (Forall (fun e => fits16 (e.1 + delta)) (negatives r flags)) as Hneg2 by (rewrite <- (rev_involutive (negatives r flags)); by apply Forall_rev).
  assert (flags !! Z.to_nat (num_delta_pocs r) = Some (List.last flags (0, 0))) as HL.
  { assert (flags <> []) as Hne by (intros ->; simpl in Hl; lia). destruct (exists_last Hne) as (l' & x & ->). rewrite List.last_last.
    rewrite length_app in Hl. simpl in Hl. replace (Z.to_nat (num_delta_pocs r)) with (length l') by lia. by rewrite list_lookup_middle. }
  unfold predict_rps. fold (negatives r flags). fold (positives r flags). rewrite HL. ostep.
  rewrite !moved_kept by (done || by apply Forall_rev). ostep. rewrite !pivot_kept by done.
  rewrite !kept_app, !(kept_cons _ _ (0, _) (positives r flags)), !rev_app_distr, <- !kept_rev, rev_involutive. cbn [rev app]. by rewrite <- !app_assoc.
Qed.

(** ** Order *)
Definition by_distance (a b : rps_entry) : Prop := a.1 < b.1.
Lemma kept_split delta l : StronglySorted by_distance l -> kept neg delta l ++ kept pos delta l = kept nonzero delta l.
Proof.
  induction 1 as [|e l Hs IH Hf]; [done|]. rewrite !(kept_cons _ delta e l). rewrite Forall_forall in Hf. unfold by_distance in Hf.
  destruct (Z.lt_trichotomy (e.1 + delta) 0) as [He|[He|He]].
  - assert (kept pos delta [e] = []) as ->.
    { apply kept_all_neg. intros x ->%list_elem_of_singleton. unfold pos. lia. }
    assert (kept neg delta [e] = kept nonzero delta [e]) as ->.
    { apply kept_ext. intros x ->%list_elem_of_singleton. unfold neg, nonzero. lia. }
    rewrite <- app_assoc. cbn [app]. by rewrite IH.
  - rewrite (kept_all_neg neg delta [e]), (kept_all_neg pos delta [e]), (kept_all_neg nonzero delta [e]); [done|..];
      intros x ->%list_elem_of_singleton; unfold neg, pos, nonzero; lia.
  - assert (kept neg delta l = []) as ->.
    { apply kept_all_neg. intros x Hx. specialize (Hf x Hx). unfold neg. lia. }
    assert (kept neg delta [e] = []) as ->.
    { apply kept_all_neg. intros x ->%list_elem_of_singleton. unfold neg. lia. }
    assert (kept nonzero delta [e] = kept pos delta [e]) as ->.
    { apply kept_ext. intros x ->%list_elem_of_singleton. unfold pos, nonzero. lia. }
    cbn [app]. f_equal. apply kept_ext. intros x Hx. specialize (Hf x Hx). unfold pos, nonzero. lia.
Qed.
Lemma kept_sorted sel delta l : StronglySorted by_distance l -> StronglySorted Z.lt (map fst (kept sel delta l)).
Proof.
  induction 1 as [|e l Hs IH Hf]; [constructor|]. rewrite (kept_cons _ _ e l), map_app. apply StronglySorted_app_2; [| |done].
  - intros x y Hx Hy. apply list_elem_of_fmap in Hx as (a & -> & Ha). apply list_elem_of_fmap in Hy as (b & -> & Hb).
    apply kept_in in Ha as (e1 & ->%list_elem_of_singleton & Ha & _). apply kept_in in Hb as (e2 & He2 & Hb & _).
    rewrite Forall_forall in Hf. specialize (Hf e2 He2). unfold by_distance in Hf. lia.
  - unfold kept. cbn [List.filter]. destruct (_ && _); repeat constructor.
Qed.
Lemma sorted_by_distance l : StronglySorted Z.lt (map fst l) -> StronglySorted by_distance l.
Proof.
  induction l as [|e l IH]; intros H; [constructor|]. cbn [map] in H. apply StronglySorted_cons in H as [Hf H]. apply StronglySorted_cons. split; [|by apply IH].
  rewrite Forall_map in Hf. exact Hf.
Qed.

(** The entries of a canonical set are in order, one flag pair each. *)
Lemma fst_zip_take (l : list Z) (k : list (Z * Z)) : map fst (zip l k) = take (length k) l.
Proof. revert k. induction l as [|x l IH]; intros [|y k]; [done..|]. cbn. f_equal. apply IH. Qed.
Lemma ascending_distances r flags : canonical r -> Z.of_nat (length flags) = num_delta_pocs r + 1 -> map fst (ascending r flags) = distances r.
Proof.
  intros (Hn & Hp & Hd & H16 & Hl & _) Hf. unfold ascending, distances, negatives, positives. rewrite map_app, map_rev. cbn [map fst].
  assert (forall n m : nat, (n + m <= length flags)%nat -> map fst (take m (drop n (zip (delta_poc r) flags))) = take m (drop n (delta_poc r))) as H.
  { intros n m Hnm. rewrite <- firstn_map, <- skipn_map, fst_zip_take, skipn_firstn_comm, take_take. f_equal. lia. }
  pose proof (H 0%nat (Z.to_nat (num_negative_pics r)) ltac:(lia)) as H1. rewrite !drop_0 in H1. f_equal; [f_equal; exact H1|f_equal; apply H; lia].
Qed.

Lemma sorted_halves (a b : list Z) : StronglySorted Z.lt a -> StronglySorted Z.lt b -> Forall (fun x => x < 0) a -> Forall (fun x => 0 < x) b ->
  StronglySorted Z.lt (a ++ 0 :: b).
Proof.
  intros Ha Hb Na Pb. rewrite Forall_forall in Na, Pb. apply StronglySorted_app_2; [|done|].
  - intros x y Hx [->|Hy]%elem_of_cons; [by apply Na|]. specialize (Na x Hx). specialize (Pb y Hy). lia.
  - apply StronglySorted_cons. split; [|done]. apply Forall_forall. auto.
Qed.
(** A set built from two halves in order. *)
Lemma canonical_halves i (negs poss : list (Z * Z)) : (length negs + length poss <= 16)%nat ->
  StronglySorted Z.lt (rev (map fst negs)) -> StronglySorted Z.lt (map fst poss) -> Forall (fun x => x.1 < 0) negs -> Forall (fun x => 0 < x.1) poss ->
  canonical (rps_of i negs poss).
Proof.
  intros Hl Hn Hp Nn Pp. unfold canonical, distances, rps_of. cbn [num_negative_pics num_positive_pics num_delta_pocs delta_poc].
  rewrite !Nat2Z.id, length_app. unfold pad, H265_MAX_REFS. rewrite map_app. split_and!; try lia.
  - rewrite !length_app, length_replicate, !length_map. lia.
  - rewrite <- !app_assoc. rewrite <- (length_map fst negs) at 1 2. rewrite take_app_length, drop_app_length, <- (length_map fst poss) at 1. rewrite take_app_length.
    apply sorted_halves; [done..| |].
    + apply Forall_rev. apply Forall_forall. intros x (e & -> & He)%list_elem_of_fmap. rewrite Forall_forall in Nn. by apply Nn.
    + apply Forall_forall. intros x (e & -> & He)%list_elem_of_fmap. rewrite Forall_forall in Pp. by apply Pp.
Qed.

(** The predicted set: the kept entries in order, again a set in order. *)
Lemma predict_kept r flags delta : canonical r -> Z.of_nat (length flags) = num_delta_pocs r + 1 ->
  Forall (fun d => fits16 (d + delta)) (distances r) ->
  exists negs poss, predict_rps r delta flags = Some (negs, poss) /\
    rev negs ++ poss = kept nonzero delta (ascending r flags) /\
    ((length negs + length poss <= 16)%nat -> canonical (rps_of 1 negs poss)).
Proof.
  intros Hr Hl Hf. pose proof (ascending_distances r flags Hr Hl) as Ea.
  assert (Forall (fun e : rps_entry => fits16 (e.1 + delta)) (ascending r flags)) as Hf2.
  { rewrite <- Ea, Forall_map in Hf. exact Hf. }
  assert (StronglySorted by_distance (ascending r flags)) as Hs by (apply sorted_by_distance; rewrite Ea; apply Hr).
  assert (0 <= num_delta_pocs r) as Hnd by (unfold canonical in Hr; lia). rewrite (predict_halves r flags delta Hl Hnd Hf2).
  eexists _, _. split; [done|]. rewrite rev_involutive, kept_split by done. split; [done|]. intros H16. apply canonical_halves; [done|..].
  - rewrite map_rev, rev_involutive. by apply kept_sorted.
  - by apply kept_sorted.
  - apply Forall_rev, Forall_forall. intros x (e & _ & _ & Hx)%kept_in. unfold neg in Hx. lia.
  - apply Forall_forall. intros x (e & _ & _ & Hx)%kept_in. unfold pos in Hx. lia.
Qed.

(** A set read directly is in order while its distances fit. *)
Fixpoint reach (l : list (Z * Z)) : Z := match l with [] => 0 | (d, _) :: l => d + 1 + reach l end.
Lemma run_sorted sign l : sign = 1 \/ sign = -1 -> Forall (fun x => 0 <= x.1) l -> forall prev, 0 <= sign * prev -> sign * prev + reach l < 2 ^ 15 ->
  Forall (fun x => sign * prev < sign * x.1) (run_of sign prev l) /\
  StronglySorted (fun a b => sign * a < sign * b) (map fst (run_of sign prev l)).
Proof.
  intros Hs. assert (forall l, Forall (fun x : Z * Z => 0 <= x.1) l -> 0 <= reach l) as Hr0.
  { clear. induction 1 as [|[d u] l Hd _ IH]; cbn [reach fst] in *; lia. }
  induction l as [|[d u] l IH]; intros Hl prev Hp Hr; [split; constructor|]. apply Forall_cons in Hl as [Hd Hl]. cbn [run_of map reach fst] in *.
  set (poc := prev + sign * (d + 1)). assert (sign * poc = sign * prev + (d + 1)) as Ep by (unfold poc; destruct Hs as [-> | ->]; lia).
  pose proof (Hr0 l Hl). destruct (IH Hl poc) as [H1 H2]; [lia..|]. rewrite i16_ok by (unfold fits16; destruct Hs as [-> | ->]; lia).
  split.
  - apply Forall_cons. cbn [fst]. split; [lia|]. eapply Forall_impl; [exact H1|]. cbn. intros. lia.
  - apply StronglySorted_cons. split; [|done]. rewrite Forall_map. exact H1.
Qed.
Lemma length_run_of s p l : length (run_of s p l) = length l.
Proof. revert p. induction l as [|[d u] l IH]; intros p; cbn; auto. Qed.
Lemma direct_canonical negs poss : (length negs + length poss <= 16)%nat -> Forall (fun x => 0 <= x.1) negs -> Forall (fun x => 0 <= x.1) poss ->
  reach negs < 2 ^ 15 -> reach poss < 2 ^ 15 -> canonical (rps_of 0 (run_of (-1) 0 negs) (run_of 1 0 poss)).
Proof.
  intros Hl Hn Hp Rn Rp.
  destruct (run_sorted (-1) negs (or_intror eq_refl) Hn 0) as [N1 N2]; [lia..|]. destruct (run_sorted 1 poss (or_introl eq_refl) Hp 0) as [P1 P2]; [lia..|].
  apply canonical_halves; [by rewrite !length_run_of|..].
  - revert N2. generalize (map fst (run_of (-1) 0 negs)). clear. induction 1 as [|a l Hs IH Hf]; [constructor|]. cbn [rev]. apply StronglySorted_app_2; [|done|repeat constructor].
    intros x y Hx ->%list_elem_of_singleton. rewrite Forall_forall in Hf. apply list_elem_of_In, in_rev, list_elem_of_In in Hx. specialize (Hf x Hx). lia.
  - revert P2. generalize (map fst (run_of 1 0 poss)). clear. induction 1 as [|a l Hs IH Hf]; constructor; [done|]. eapply Forall_impl; [exact Hf|]. cbn. lia.
  - eapply Forall_impl; [exact N1|]. cbn. lia.
  - eapply Forall_impl; [exact P1|]. cbn. lia.
Qed.
