(* ===== verification/H265Unit.v ===== *)
(** * The HEVC access unit (H265ParseAccessUnit of mft/parser_glue_h265.cpp)

    The units of an access unit and the picture order count (8.3.1), whose state is
    staged and committed when the access unit has been parsed. *)

From S2P Require Import Prelude Bits Rbsp H265Parser ByteStream RbspFacts H265Syntax H265ParserFacts H265SliceFacts.

(** What is reset for every access unit. *)
Definition reset_unit (o : H265ParseResult) : H265ParseResult :=
  o <| slice := zero_header |> <| has_slice := false |> <| got_vps_in_au := false |> <| got_sps_in_au := false |>
    <| got_pps_in_au := false |> <| slice_nal_unit_type := 0 |> <| nal_ref_flag := false |> <| is_idr := false |>
    <| is_irap := false |> <| slice_data := [] |>.

Definition is_sub_layer_nonref (nal_unit_type : Z) : bool :=
  (nal_unit_type =? H265_NAL_TRAIL_N) || (nal_unit_type =? H265_NAL_TSA_N) || (nal_unit_type =? H265_NAL_STSA_N) ||
  (nal_unit_type =? H265_NAL_RADL_N) || (nal_unit_type =? H265_NAL_RASL_N).
Definition is_radl_rasl_n (nal_unit_type : Z) : bool :=
  (nal_unit_type =? H265_NAL_RADL_N) || (nal_unit_type =? H265_NAL_RADL_R) || (nal_unit_type =? H265_NAL_RASL_N) ||
  (nal_unit_type =? H265_NAL_RASL_R) || (nal_unit_type =? H265_NAL_TRAIL_N) || (nal_unit_type =? H265_NAL_TSA_N) ||
  (nal_unit_type =? H265_NAL_STSA_N).
Definition is_slice_type (t : Z) : bool := ((0 <=? t) && (t <=? 9)) || ((16 <=? t) && (t <=? 21)).

(** The count of the picture from that of the last one of temporal layer 0. *)
Definition slice_count (idr : bool) (log2_lsb_minus4 lsb : Z) (st : prev_tid0) : option (Z * prev_tid0) :=
  if idr then Some (0, MkPrev 0 0) else
  max_lsb ← shl1 (log2_lsb_minus4 + 4);
  msb ← poc_msb_of max_lsb lsb (prev_poc_lsb_tid0 st) (prev_poc_msb_tid0 st);
  count ← int32 (msb + lsb);
  Some (count, st).
(** The count split again, for the pictures that follow. *)
Definition split_count (log2_lsb_minus4 count : Z) : option prev_tid0 :=
  max_lsb ← shl1 (log2_lsb_minus4 + 4);
  let r := Z.rem count max_lsb in
  lsb ← (if r <? 0 then int32 (r + max_lsb) else Some r);
  msb ← int32 (count - lsb);
  Some (MkPrev msb lsb).
Definition compute_poc (log2_lsb_minus4 nal_unit_type temporal_id_p1 lsb : Z) (idr : bool) (st : prev_tid0) : option (Z * prev_tid0) :=
  '(count, st) ← slice_count idr log2_lsb_minus4 lsb st;
  if (temporal_id_p1 - 1 =? 0) && negb (is_radl_rasl_n nal_unit_type) then
    st ← split_count log2_lsb_minus4 count; Some (count, st)
  else Some (count, st).

Definition Unit : Type := option (H265ParseResult * (prev_tid0 + Z)).

(** What follows the header of a slice. *)
Definition finish_slice (nal_unit_type temporal_id_p1 : Z) (payload : list Z) (br : BitReader) (o : H265ParseResult) (st : prev_tid0) : Unit :=
  let o := o <| has_slice := true |> <| slice_nal_unit_type := nal_unit_type |> <| nal_ref_flag := negb (is_sub_layer_nonref nal_unit_type) |> in
  s ← sps o !! Z.to_nat (active_sps_id o);
  '(count, st) ← compute_poc (log2_max_pic_order_cnt_lsb_minus4 s) nal_unit_type temporal_id_p1 (slice_pic_order_cnt_lsb (slice o)) (is_idr o) st;
  let o := o <| poc := count |> in
  let data_off := ((bit_pos br + 7) / 8)%nat in
  if (length payload <? data_off)%nat then Some (o, inr H265_PARSE_INVALID) else
  Some (o <| slice_data := drop data_off payload |>, inl st).

(** A parameter set leaves the picture order count alone. *)
Definition run_set (m : Par unit) (payload : list Z) (o : H265ParseResult) (st : prev_tid0) : Unit :=
  '(_, o, r) ← m (br_init payload, o);
  match r with inl _ => Some (o, inl st) | inr e => Some (o, inr e) end.
Definition parse_nal (nh : Z) (payload : list Z) (o : H265ParseResult) (st : prev_tid0) : Unit :=
  let nal_unit_type := Z.land (Z.shiftr nh 9) 0x3f in
  let temporal_id_p1 := Z.land nh 0x07 in
  if nal_unit_type =? H265_NAL_VPS then run_set parse_vps payload o st
  else if nal_unit_type =? H265_NAL_SPS then run_set parse_sps payload o st
  else if nal_unit_type =? H265_NAL_PPS then run_set parse_pps payload o st
  else if is_slice_type nal_unit_type then
    '(br, o, r) ← parse_slice_header nal_unit_type (br_init payload, o);
    match r with inl _ => finish_slice nal_unit_type temporal_id_p1 payload br o st | inr e => Some (o, inr e) end
  else Some (o, inl st).

(** A unit from its bytes: a header of two, then the payload. *)
Definition parse_unit (rbsp : list Z) (o : H265ParseResult) (st : prev_tid0) : Unit :=
  match rbsp with
  | b0 :: b1 :: payload => parse_nal (Z.lor (Z.shiftl b0 8) b1) payload o st
  | _ => Some (o, inr H265_PARSE_INVALID)
  end.

Definition H265ParseAccessUnit (buf : list Z) (scratch_size : nat) (o : H265ParseResult) : option (H265ParseResult * Z) :=
  let o := reset_unit o in
  '(o, r) ← nal_loop parse_unit (S (length buf)) buf scratch_size 0 0 o (prev o);
  match r with
  | inr e => Some (o, e)
  | inl st =>
      if negb (has_slice o) then
        Some (o, if got_sps_in_au o || got_pps_in_au o || got_vps_in_au o then H265_PARSE_NEED_MORE else H265_PARSE_INVALID)
      else Some (o <| prev := st |>, H265_PARSE_OK)
  end.

(** * Access units and picture order counts of HEVC

    A written access unit is parsed unit by unit ([hevc_unit_written]); the picture order
    counts are those the encoder meant ([hevc_counts_exact]). *)

(** ** Written units *)

Inductive nal_syntax :=
| NalVps (y : vps_syntax)
| NalSps (y : sps_syntax) (sets : list H265ShortTermRPS)
| NalPps (y : pps_syntax)
| NalSlice (nal_type temporal_id_p1 : Z) (z : slice_syntax) (data : list bool)
| NalOther (nal_type temporal_id_p1 : Z) (bits : list bool).

(** The parameter sets a slice refers to. *)
Definition its_pps (o : H265ParseResult) (z : slice_syntax) : H265Pps := default zero_pps (pps o !! Z.to_nat (z_pps_id z)).
Definition its_sps (o : H265ParseResult) (z : slice_syntax) : H265Sps := default zero_sps (sps o !! Z.to_nat (pps_sps_id (its_pps o z))).

Definition nal_type_of (n : nal_syntax) : Z :=
  match n with NalVps _ => 32 | NalSps _ _ => 33 | NalPps _ => 34 | NalSlice t _ _ _ | NalOther t _ _ => t end.
Definition nal_tid (n : nal_syntax) : Z := match n with NalSlice _ tid _ _ | NalOther _ tid _ => tid | _ => 1 end.
Definition written_bits (o : H265ParseResult) (n : nal_syntax) : list bool :=
  match n with
  | NalVps y => vps_bits y
  | NalSps y _ => sps_bits y
  | NalPps y => pps_bits y
  | NalSlice t _ z data => slice_bits t (its_sps o z) (its_pps o z) z ++ data
  | NalOther _ _ bits => bits
  end.
Definition payload_of (o : H265ParseResult) (n : nal_syntax) : list Z := rbsp (written_bits o n).
(** The header of two bytes, for layer 0. *)
Definition nal_bytes (o : H265ParseResult) (n : nal_syntax) : list Z := 2 * nal_type_of n :: nal_tid n :: payload_of o n.

Definition nal_syntax_ok (o : H265ParseResult) (n : nal_syntax) : Prop :=
  match n with
  | NalVps y => vps_ok y /\ length (vps o) = 16%nat
  | NalSps y sets => sps_ok y (y_sps y) sets
  | NalPps y => pps_ok y (y_pps y) /\ (exists s, sps o !! Z.to_nat (pps_sps_id (y_pps y)) = Some s /\ sps_valid s = 1)
  | NalSlice t tid z _ =>
      let p := its_pps o z in
      let s := its_sps o z in
      is_slice_type t = true /\ 1 <= tid <= 7 /\
      pps o !! Z.to_nat (z_pps_id z) = Some p /\ pps_valid p = 1 /\ sps o !! Z.to_nat (pps_sps_id p) = Some s /\ sps_valid s = 1 /\
      sets_ok s p /\ slice_ok t s p z
  | NalOther t tid _ => 0 <= t < 64 /\ 1 <= tid <= 7 /\ (t ∉ [32; 33; 34]) /\ is_slice_type t = false
  end.

(** What a unit does to the result and the staged picture order count. *)
Definition nal_effect (n : nal_syntax) (o : H265ParseResult) (st : prev_tid0) : option (H265ParseResult * prev_tid0) :=
  match n with
  | NalVps y => Some (with_vps o (vps_id (y_vps y)) (y_vps y), st)
  | NalSps y _ => Some (with_sps o (y_sps y), st)
  | NalPps y => Some (with_pps o (y_pps y), st)
  | NalSlice t tid z _ =>
      let p := its_pps o z in let s := its_sps o z in
      let bits := slice_bits t s p z in
      let h := header_of t s p z (u32 (Z.of_nat (length bits))) in
      '(count, st) ← compute_poc (log2_max_pic_order_cnt_lsb_minus4 s) t tid (slice_pic_order_cnt_lsb h) (idr t) st;
      Some ((with_slice (base_of t p z o) h) <| has_slice := true |> <| slice_nal_unit_type := t |>
              <| nal_ref_flag := negb (is_sub_layer_nonref t) |> <| poc := count |>
              <| slice_data := drop (length bits / 8) (payload_of o n) |>, st)
  | NalOther _ _ _ => Some (o, st)
  end.

Lemma land_nal_header t tid : 0 <= t < 64 -> 1 <= tid <= 7 ->
  Z.land (Z.shiftr (Z.lor (Z.shiftl (2 * t) 8) tid) 9) 0x3f = t /\ Z.land (Z.lor (Z.shiftl (2 * t) 8) tid) 0x07 = tid.
Proof.
  intros Ht Hi. rewrite Z.shiftl_mul_pow2, lor_high_low by lia. change (2 ^ 8) with 256.
  rewrite (Z.land_ones _ 6), (Z.land_ones _ 3), Z.shiftr_div_pow2 by lia. change (2 ^ 6) with 64. change (2 ^ 3) with 8. change (2 ^ 9) with 512. zdm.
Qed.

(** ** One unit *)
Lemma header_lsb t s p z n : slice_pic_order_cnt_lsb (header_of t s p z n) = when0 (pictures t p z) (z_lsb z).
Proof. done. Qed.
Lemma slice_types t : is_slice_type t = true -> 0 <= t < 64 /\ t <> 32 /\ t <> 33 /\ t <> 34.
Proof. unfold is_slice_type. lia. Qed.

Lemma hevc_nal_written n o st : nal_syntax_ok o n ->
  parse_unit (nal_bytes o n) o st = ('(o', st') ← nal_effect n o st; Some (o', inl st')).
Proof.
  intros Hn. unfold parse_unit, nal_bytes, parse_nal, payload_of. cbv zeta.
  assert (0 <= nal_type_of n < 64 /\ 1 <= nal_tid n <= 7) as [Ht Hi].
  { destruct n; cbn [nal_syntax_ok nal_type_of nal_tid] in *; try lia. split; [apply slice_types|]; apply Hn. }
  destruct (land_nal_header _ _ Ht Hi) as [-> ->]. destruct n as [y|y sets|y|t tid z data|t tid bits]; cbn [nal_type_of nal_tid nal_syntax_ok nal_effect written_bits] in *.
  - destruct Hn as [Hy Hl]. cbn [Z.eqb Pos.eqb H265_NAL_VPS]. unfold run_set. rewrite (run_payload _ _ _ _ _ _ _ (parses_vps y _ o Hy Hl) (rbsp_bits _)). reflexivity.
  - cbn [Z.eqb Pos.eqb]. unfold run_set. change (33 =? H265_NAL_VPS) with false. change (33 =? H265_NAL_SPS) with true. cbv iota.
    rewrite (run_payload _ _ _ _ _ _ _ (hevc_parses_sps y _ sets _ o Hn) (rbsp_bits _)). reflexivity.
  - destruct Hn as (Hy & s & Hs & Hv). change (34 =? H265_NAL_VPS) with false. change (34 =? H265_NAL_SPS) with false. change (34 =? H265_NAL_PPS) with true. cbv iota.
    unfold run_set. rewrite (run_payload _ _ _ _ _ _ _ (hevc_parses_pps y _ s _ o Hy Hs Hv) (rbsp_bits _)). reflexivity.
  - destruct Hn as (Hsl & _ & Hp & Hpv & Hs & Hsv & Hsets & Hz). destruct (slice_types t Hsl) as (_ & H1 & H2 & H3).
    unfold H265_NAL_VPS, H265_NAL_SPS, H265_NAL_PPS. rewrite !(proj2 (Z.eqb_neq t _)), Hsl by done.
    set (s := its_sps o z) in *. set (p := its_pps o z) in *. set (bits := slice_bits t s p z) in *. set (d := rbsp (bits ++ data)).
    pose proof (rbsp_bits (bits ++ data)) as Ed. rewrite <- app_assoc in Ed. fold d in Ed.
    rewrite (slice_read t s p z Hsets Hz d o _ Ed Hp Hpv Hs Hsv). ostep. cbv beta iota.
    fold bits. set (h := header_of t s p z _). unfold finish_slice. cbv zeta.
    assert (sps ((with_slice (base_of t p z o) h) <| has_slice := true |> <| slice_nal_unit_type := t |> <| nal_ref_flag := negb (is_sub_layer_nonref t) |>)
      !! Z.to_nat (active_sps_id ((with_slice (base_of t p z o) h) <| has_slice := true |> <| slice_nal_unit_type := t |> <| nal_ref_flag := negb (is_sub_layer_nonref t) |>)) = Some s) as E1.
    { change (sps o !! Z.to_nat (i8 (pps_sps_id p)) = Some s). rewrite i8_ok; [exact Hs|]. destruct Hsets as (_ & _ & _ & _ & _ & _ & _ & _ & _ & _ & Hid). unfold offset_ok. lia. }
    rewrite E1. ostep.
    match goal with |- context [compute_poc ?a ?b ?c (slice_pic_order_cnt_lsb (slice ?x)) (is_idr ?x)] =>
      change (compute_poc a b c (slice_pic_order_cnt_lsb (slice x)) (is_idr x)) with (compute_poc a b c (slice_pic_order_cnt_lsb h) (idr t)) end.
    destruct (compute_poc _ _ _ _ _ _) as [[count st']|]; [|done]. ostep. cbv beta iota.
    assert (8 * length d = length bits + length (data ++ true :: replicate (7 - length (bits ++ data) mod 8) false))%nat as Hl.
    { rewrite <- length_to_bits, Ed. apply length_app. }
    assert (length bits mod 8 = 0)%nat as Hm by (unfold bits, slice_bits; apply length_rbsp_bits).
    match goal with |- context [reader_at d ?x] => change (bit_pos (reader_at d x)) with (8 * length d - length x)%nat; replace (8 * length d - length x)%nat with (length bits) by lia end.
    pose proof (Nat.div_mod_eq (length bits) 8) as Hq. rewrite Hm, Nat.add_0_r in Hq.
    replace ((length bits + 7) / 8)%nat with (length bits / 8)%nat by (rewrite Hq at 2; rewrite Nat.mul_comm, Nat.add_comm, Nat.div_add by lia; done).
    rewrite length_app in Hl. cbn [length] in Hl. rewrite (proj2 (Nat.ltb_ge _ _)) by lia. reflexivity.
  - destruct Hn as (_ & _ & Hn & Hsl). assert (t <> 32 /\ t <> 33 /\ t <> 34) as (H1 & H2 & H3) by set_solver.
    unfold H265_NAL_VPS, H265_NAL_SPS, H265_NAL_PPS. rewrite !(proj2 (Z.eqb_neq t _)), Hsl by done. reflexivity.
Qed.

(** ** The access unit *)

Definition write_unit := write_units nal_bytes nal_effect.
Definition unit_effect := units_effect nal_effect.
Definition unit_ok := units_ok nal_effect nal_syntax_ok.

Lemma hevc_bytes_ok n o : nal_syntax_ok o n -> Forall is_byte (nal_bytes o n).
Proof.
  intros Hn. assert (0 <= nal_type_of n < 64 /\ 1 <= nal_tid n <= 7) as [Ht Hi].
  { destruct n; cbn [nal_syntax_ok nal_type_of nal_tid] in *; try lia. split; [apply slice_types|]; apply Hn. }
  constructor; [unfold is_byte; lia|]. constructor; [unfold is_byte; lia|apply rbsp_bytes].
Qed.
Lemma hevc_bytes_last n o : exists b, last (nal_bytes o n) = Some b /\ b <> 0.
Proof.
  unfold nal_bytes, payload_of. destruct (rbsp_last (written_bits o n)) as (x & Hx & Hne).
  exists x. split; [|done]. destruct (rbsp _); [done|exact Hx].
Qed.

Lemma hevc_unit_written o nals size : let o0 := reset_unit o in
  unit_ok o0 (prev o) nals -> (length (stream (write_unit o0 (prev o) nals)) <= size)%nat ->
  H265ParseAccessUnit (stream (write_unit o0 (prev o) nals)) size o =
    ('(o', st) ← unit_effect o0 (prev o) nals;
     Some (if has_slice o' then (o' <| prev := st |>, H265_PARSE_OK)
           else (o', if got_sps_in_au o' || got_pps_in_au o' || got_vps_in_au o' then H265_PARSE_NEED_MORE else H265_PARSE_INVALID))).
Proof.
  intros o0 Hok Hs. unfold H265ParseAccessUnit. cbv zeta. fold o0. change (prev o0) with (prev o).
  pose proof (nal_loop_written parse_unit nal_bytes nal_effect nal_syntax_ok hevc_nal_written hevc_bytes_ok hevc_bytes_last
    nals [] (S (length (stream (write_unit o0 (prev o) nals)))) size 0 o0 (prev o) Hok) as E.
  cbn [app length] in E. unfold write_unit, unit_effect in *. rewrite E; [|pose proof (length_stream (write_units nal_bytes nal_effect o0 (prev o) nals)); lia|lia].
  destruct (units_effect nal_effect o0 (prev o) nals) as [[o' st]|]; [|done]. ostep. cbv beta iota. by destruct (has_slice o').
Qed.

(** ** Picture order counts *)

(** A picture as the encoder knows it: its type, its temporal layer and its count since
    the last IDR picture. *)
Record picture := MkPicture { p_type : Z; p_tid : Z; p_count : Z }.

Definition is_idr_type (t : Z) : bool := idr t.
(** A picture the counts of those after it refer to (8.3.1: TemporalId 0, not RASL, RADL
    or a sub-layer non-reference picture). *)
Definition anchors (x : picture) : bool := (p_tid x - 1 =? 0) && negb (is_radl_rasl_n (p_type x)).
(** The counts the decoder finds: the header holds the count modulo its range. *)
Fixpoint decoded_counts (log2 : Z) (st : prev_tid0) (l : list picture) : option (list Z) :=
  match l with
  | [] => Some []
  | x :: l =>
      '(c, st) ← compute_poc log2 (p_type x) (p_tid x) (p_count x mod 2 ^ (log2 + 4)) (is_idr_type (p_type x)) st;
      r ← decoded_counts log2 st l; Some (c :: r)
  end.
(** Each picture within half the range of the anchor before it. *)
Fixpoint in_reach (log2 prev : Z) (l : list picture) : Prop :=
  match l with
  | [] => True
  | x :: l =>
      Z.abs (p_count x) < 2 ^ 28 /\
      (if is_idr_type (p_type x) then p_count x = 0 else - (2 ^ (log2 + 4) / 2) < p_count x - prev <= 2 ^ (log2 + 4) / 2) /\
      in_reach log2 (if is_idr_type (p_type x) || anchors x then p_count x else prev) l
  end.
Definition prev_at (log2 prev : Z) (st : prev_tid0) : Prop :=
  prev_poc_lsb_tid0 st = prev mod 2 ^ (log2 + 4) /\ prev_poc_msb_tid0 st = prev - prev mod 2 ^ (log2 + 4).

Lemma lsb_range log2 : 0 <= log2 <= 12 -> 0 < 2 ^ (log2 + 4) <= 2 ^ 16 /\ 2 ^ (log2 + 4) mod 2 = 0.
Proof.
  intros H. split; [split; [apply Z.pow_pos_nonneg; lia|apply Z.pow_le_mono_r; lia]|].
  replace (log2 + 4) with (Z.succ (log2 + 3)) by lia. rewrite Z.pow_succ_r, Z.mul_comm by lia. apply Z.mod_mul. lia.
Qed.
Lemma slice_count_exact log2 prev st c (b : bool) : 0 <= log2 <= 12 -> prev_at log2 prev st -> Z.abs prev < 2 ^ 28 -> Z.abs c < 2 ^ 28 ->
  (if b then c = 0 else - (2 ^ (log2 + 4) / 2) < c - prev <= 2 ^ (log2 + 4) / 2) ->
  exists st', slice_count b log2 (c mod 2 ^ (log2 + 4)) st = Some (c, st') /\ prev_at log2 (if b then c else prev) st'.
Proof.
  intros Hl [H1 H2] Hp Hc Hw. destruct (lsb_range log2 Hl) as [[Hm Hm16] Hm2]. unfold slice_count. destruct b.
  - subst c. eexists. split; [done|]. unfold prev_at. rewrite Z.mod_0_l by lia. done.
  - rewrite shl1_pow by done. ostep. rewrite H1, H2, poc_msb_exact by done. ostep. rewrite Z.sub_add, int32_ok by lia. ostep. eexists. split; [done|by split].
Qed.
Lemma split_exact log2 c : 0 <= log2 <= 12 -> Z.abs c < 2 ^ 28 -> exists st, split_count log2 c = Some st /\ prev_at log2 c st.
Proof.
  intros Hl Hc. destruct (lsb_range log2 Hl) as [[Hm Hm16] _]. unfold split_count. rewrite shl1_pow by done. ostep. set (m := 2 ^ (log2 + 4)) in *.
  pose proof (Z.mod_pos_bound c m Hm) as Hr. pose proof (Z.quot_rem' c m) as Eq. pose proof (Z.rem_bound_abs c m ltac:(lia)) as Hb.
  assert ((if Z.rem c m <? 0 then int32 (Z.rem c m + m) else Some (Z.rem c m)) = Some (c mod m)) as ->.
  { destruct (Z.ltb_spec (Z.rem c m) 0) as [Hn|Hn].
    - rewrite int32_ok by lia. f_equal. apply (Z.mod_unique_pos c m (Z.quot c m - 1)); lia.
    - f_equal. apply (Z.mod_unique_pos c m (Z.quot c m)); lia. }
  ostep. rewrite int32_ok by lia. ostep. eexists. split; [done|]. split; cbn; reflexivity.
Qed.
Lemma hevc_counts_exact log2 l : 0 <= log2 <= 12 -> forall prev st, prev_at log2 prev st -> Z.abs prev < 2 ^ 28 -> in_reach log2 prev l ->
  decoded_counts log2 st l = Some (map p_count l).
Proof.
  intros Hl. induction l as [|x l IH]; intros prev st Hst Hp Hr; [done|]. cbn [decoded_counts in_reach map] in *. destruct Hr as (Hc & Hw & Hr).
  destruct (slice_count_exact log2 prev st (p_count x) (is_idr_type (p_type x)) Hl Hst Hp Hc Hw) as (st1 & E1 & H1).
  unfold compute_poc. rewrite E1. ostep. fold (anchors x). destruct (anchors x) eqn:Ea.
  - destruct (split_exact log2 (p_count x) Hl Hc) as (st2 & E2 & H2). rewrite E2. ostep. rewrite orb_true_r in Hr. by erewrite IH.
  - rewrite orb_false_r in Hr. ostep. cbv beta iota. erewrite IH; [done|exact H1| |]; destruct (is_idr_type _); done.
Qed.
