(* ===== verification/H265Safe.v ===== *)
(** * The HEVC parser on arbitrary bytes

    Whatever the bytes are, the parameter sets that are committed and the slice header
    stay within the bounds the rest of the decoder relies on, tables keep their sizes,
    and the picture order count changes only on success. *)

From S2P Require Import Prelude Bits ByteStream Rbsp RbspFacts H265Parser H265Syntax H265ParserFacts H265SliceFacts H265Unit.

(** ** The bounds *)

Record rps_bounds (r : H265ShortTermRPS) : Prop := {
  rb_neg : 0 <= num_negative_pics r; rb_pos : 0 <= num_positive_pics r;
  rb_sum : num_delta_pocs r = num_negative_pics r + num_positive_pics r; rb_max : num_delta_pocs r <= 16;
  rb_pocs : length (delta_poc r) = H265_MAX_REFS /\ Forall fits16 (delta_poc r);
  rb_used : length (used_by_curr_pic_flag r) = H265_MAX_REFS /\ Forall flag_ok (used_by_curr_pic_flag r) }.
Definition scaling_bounds (s : H265ScalingList) : Prop :=
  shaped s /\ (forall sz, Forall (Forall is_byte) (lists_of sz s)) /\
  (length (scaling_list_dc_16x16 s) = 6%nat /\ Forall is_byte (scaling_list_dc_16x16 s)) /\
  (length (scaling_list_dc_32x32 s) = 6%nat /\ Forall is_byte (scaling_list_dc_32x32 s)).
Record sps_bounds (s : H265Sps) : Prop := {
  sb_vps : bits_ok 4 (sps_vps_id s); sb_layers : 0 <= sps_max_sub_layers_minus1 s < 7; sb_id : 0 <= sps_id s < 32;
  sb_chroma : bits_ok 8 (chroma_format_idc s);
  sb_width : 1 <= pic_width_in_luma_samples s <= 8192; sb_height : 1 <= pic_height_in_luma_samples s <= 8192;
  sb_lsb : bits_ok 8 (log2_max_pic_order_cnt_lsb_minus4 s);
  sb_ctb : 3 <= ctb_log2_size_y s <= 6 /\ ctb_size_y s = 2 ^ ctb_log2_size_y s;
  sb_width_ctbs : pic_width_in_ctbs_y s = (pic_width_in_luma_samples s + ctb_size_y s - 1) / ctb_size_y s;
  sb_height_ctbs : pic_height_in_ctbs_y s = (pic_height_in_luma_samples s + ctb_size_y s - 1) / ctb_size_y s;
  sb_info : length (sps_max_dec_pic_buffering_minus1 s) = 7%nat /\ length (sps_max_num_reorder_pics s) = 7%nat /\
    length (sps_max_latency_increase_plus1 s) = 7%nat;
  sb_scaling : scaling_bounds (sps_scaling_list s);
  sb_sets : 0 <= num_short_term_ref_pic_sets s <= 64 /\ length (st_rps s) = 64%nat /\ Forall rps_bounds (st_rps s);
  sb_long_term : 0 <= num_long_term_ref_pics_sps s <= 32 /\ length (lt_ref_pic_poc_lsb_sps s) = 32%nat /\
    length (used_by_curr_pic_lt_sps_flag s) = 32%nat }.
Record pps_bounds (p : H265Pps) : Prop := {
  pb_id : 0 <= pps_id p < 64; pb_sps : 0 <= pps_sps_id p < 32; pb_extra : bits_ok 3 (num_extra_slice_header_bits p);
  pb_l0 : bits_ok 8 (num_ref_idx_l0_default_active_minus1 p); pb_l1 : bits_ok 8 (num_ref_idx_l1_default_active_minus1 p);
  pb_qp : offset_ok (init_qp_minus26 p); pb_cb : offset_ok (pps_cb_qp_offset p); pb_cr : offset_ok (pps_cr_qp_offset p);
  pb_columns : 0 <= num_tile_columns_minus1 p < 20; pb_rows : 0 <= num_tile_rows_minus1 p < 22;
  pb_beta : offset_ok (pps_beta_offset_div2 p); pb_tc : offset_ok (pps_tc_offset_div2 p);
  pb_disabled : bits_ok 1 (pps_deblocking_filter_disabled_flag p);
  pb_scaling : scaling_bounds (pps_scaling_list p) }.
Record header_bounds (h : H265SliceHeader) : Prop := {
  hb_pps : bits_ok 8 (slice_pic_parameter_set_id h); hb_address : bits_ok 32 (slice_segment_address h);
  hb_type : bits_ok 8 (slice_type h); hb_lsb : bits_ok 16 (slice_pic_order_cnt_lsb h);
  hb_set : rps_bounds (st_rps_slice h); hb_set_idx : bits_ok 6 (short_term_ref_pic_set_idx h);
  hb_long_term : 0 <= num_long_term_sps h <= 32 /\ 0 <= num_long_term_pics h <= 32;
  hb_l0 : bits_ok 8 (num_ref_idx_l0_active_minus1 h); hb_l1 : bits_ok 8 (num_ref_idx_l1_active_minus1 h);
  hb_ref_idx : bits_ok 8 (collocated_ref_idx h); hb_merge : bits_ok 8 (five_minus_max_num_merge_cand h);
  hb_qp : offset_ok (slice_qp_delta h); hb_cb : offset_ok (slice_cb_qp_offset h); hb_cr : offset_ok (slice_cr_qp_offset h);
  hb_beta : offset_ok (slice_beta_offset_div2 h); hb_tc : offset_ok (slice_tc_offset_div2 h);
  hb_points : 0 <= num_entry_point_offsets h <= 1024 * 20;
  hb_size : bits_ok 32 (header_bit_size h); hb_set_size : bits_ok 32 (short_term_ref_pic_set_size h) }.

(** A valid entry of a table is bounded and names its own index; a picture parameter set
    names a valid sequence parameter set. *)
Definition valid_sps (o : H265ParseResult) (i : Z) : Prop := exists s, sps o !! Z.to_nat i = Some s /\ sps_valid s <> 0.
Definition valid_pps (o : H265ParseResult) (i : Z) : Prop := exists p, pps o !! Z.to_nat i = Some p /\ pps_valid p <> 0.
Record bounded (o : H265ParseResult) : Prop := {
  b_vps : length (vps o) = 16%nat;
  b_sps_len : length (sps o) = 32%nat;
  b_sps : forall i s, sps o !! i = Some s -> sps_valid s <> 0 -> sps_bounds s /\ sps_id s = Z.of_nat i;
  b_pps_len : length (pps o) = 64%nat;
  b_pps : forall i p, pps o !! i = Some p -> pps_valid p <> 0 -> pps_bounds p /\ pps_id p = Z.of_nat i /\ valid_sps o (pps_sps_id p);
  b_slice : header_bounds (slice o);
  b_active_sps : active_sps_id o = -1 \/ (0 <= active_sps_id o < 32 /\ valid_sps o (active_sps_id o));
  b_active_pps : active_pps_id o = -1 \/ (0 <= active_pps_id o < 64 /\ valid_pps o (active_pps_id o));
  b_sliced : has_slice o = true -> 0 <= active_sps_id o /\ 0 <= active_pps_id o;
  b_data : Forall is_byte (slice_data o) }.

Lemma rps_zero : rps_bounds zero_rps.
Proof.
  constructor; cbn; try done.
  - split; [done|]. apply (Forall_replicate _ 16); by split.
  - split; [done|]. apply (Forall_replicate _ 16); by split.
Qed.
Lemma header_zero : header_bounds zero_header.
Proof. constructor; cbn; first [apply rps_zero | by split | split; by split]. Qed.
Lemma scaling_zero : scaling_bounds zero_scaling.
Proof.
  split; [intros [|[|[|k]]]; (split; [done|]); apply (bool_decide_eq_true_1 (Forall _ _)); by vm_compute|].
  assert (forall n m, Forall (Forall is_byte) (replicate n (replicate m 0))) as H by (intros; apply Forall_replicate, Forall_replicate; by split).
  split; [intros [|[|[|k]]]; apply H|]. split; (split; [done|]); apply (Forall_replicate _ 6); by split.
Qed.
Lemma scaling_default : scaling_bounds scaling_list_set_default.
Proof.
  split; [apply shaped_default|]. split.
  - assert (Forall (Forall is_byte) (replicate 6 (replicate 16 16)) /\ Forall (Forall is_byte) default_matrices) as [H1 H2]
      by (unfold is_byte; split; apply (bool_decide_eq_true_1 (Forall _ _)); by vm_compute).
    intros [|[|[|k]]]; done.
  - split; (split; [done|]); apply (Forall_replicate _ 6); by split.
Qed.

(** ** Parts that do not touch the result *)
Section reads.
Context {T : Type} (I : T -> Prop) (trap : Prop).
#[local] Abbreviation keeps := (keeps trap I).

Ltac kread := first [apply keeps_u1_bits | apply keeps_ue | apply keeps_se | (eapply keeps_u_bits; [lia|reflexivity]) | apply keeps_u_any
  | apply keeps_failed | apply keeps_get | eapply keeps_skip; kread | by apply keeps_ret].
Ltac kstep := eapply keeps_bind; [kread|intros; cbv beta iota zeta in *].

Ltac kcase := match goal with |- RbspFacts.keeps _ _ (if ?b then _ else _) _ => destruct b end.

Lemma keeps_opt_read (b : bool) (m : Rd T Z) (V : Z -> Prop) : keeps m V -> V 0 -> keeps (opt_read b m) V.
Proof. intros Hm H0. destruct b; [done|by apply keeps_ret]. Qed.
Lemma keeps_fail_if_failed : keeps invalid_if_failed (fun _ => True).
Proof. unfold invalid_if_failed. kstep. destruct a; [by apply keeps_stop|by apply keeps_ret]. Qed.
Lemma keeps_each {X} (m : X -> Rd T unit) (l : list X) : (forall x, keeps (m x) (fun _ => True)) -> keeps (each m l) (fun _ => True).
Proof. intros Hm. induction l as [|x l IH]; [by apply keeps_ret|]. cbn [each]. eapply keeps_bind; [apply Hm|done]. Qed.
Lemma keeps_list {A} n (m : nat -> Rd T A) (P : A -> Prop) i : (forall j, keeps (m j) P) -> keeps (collect n i m) (fun l => length l = n /\ Forall P l).
Proof.
  intros Hm. eapply keeps_conseq; [apply (keeps_collect _ _ _ _ (fun _ => P)); intros; apply Hm|]. intros l [Hl Hv]. split; [done|].
  apply Forall_lookup. exact Hv.
Qed.
Lemma keeps_skip_bits n : 0 <= n -> keeps (skip_bits n) (fun _ => True).
Proof.
  intros Hn. apply keeps_reader. intros [d p f] Hw. split; [|done]. unfold wf, after, wf in *. cbn -[Nat.mul] in *. split_and!; [done|lia|lia].
Qed.

Lemma keeps_ptl m : keeps (parse_ptl m) (fun _ => True).
Proof.
  unfold parse_ptl. kstep. kstep. kstep. eapply keeps_bind; [apply (keeps_list _ _ (bits_ok 1)); intros; kread|intros]. do 8 kstep.
  eapply keeps_bind; [apply (keeps_list _ _ (fun _ => True)); intros; kstep; kstep; by apply keeps_ret|intros].
  eapply keeps_bind; [apply keeps_when; [intros _; eapply keeps_times; kread|done]|intros].
  eapply keeps_bind; [|intros; by apply keeps_ret]. apply keeps_each. intros x. unfold skip_sub_layer.
  eapply keeps_bind; [apply (keeps_when _ _ _ _ (fun _ => True)); [intros _; kstep; kstep; kread|done]|intros].
  apply keeps_when; [intros _; kread|done].
Qed.

(** *** Scaling lists: a sum may overflow *)
Lemma keeps_coefs scan : forall next l, trap -> Forall is_byte l -> keeps (coef_loop scan next l) (fun r => Forall is_byte r /\ length r = length l).
Proof.
  induction scan as [|q scan IH]; intros next l Ht Hl; [by apply keeps_ret|]. cbn [coef_loop]. kstep.
  eapply keeps_bind with (V := fun _ => True); [apply keeps_need; by destruct (int32 _)|intros sum _; cbv zeta].
  eapply keeps_conseq; [apply IH; [done|]|intros r [H1 H2]; by rewrite H2, length_insert].
  apply Forall_insert; [done|]. change 0xff with (Z.ones 8). unfold is_byte. rewrite Z.land_ones by done. by apply Z.mod_pos_bound.
Qed.
Lemma scaling_set_list sz mat l s : scaling_bounds s -> length l = length (scan_of sz) -> Forall is_byte l -> scaling_bounds (set_list sz mat l s).
Proof.
  intros (H1 & H2 & H3 & H4) Hl Hb. split; [by apply shaped_set_list|]. split.
  - intros k. rewrite lists_set_list. destruct (_ =? _)%nat; [|done]. by apply Forall_insert.
  - destruct s, sz as [|[|[|sz]]]; done.
Qed.
Lemma scaling_set_dc sz mat v s : scaling_bounds s -> is_byte v -> scaling_bounds (set_dc sz mat v s).
Proof.
  intros (H1 & H2 & [H3 H3b] & [H4 H4b]) Hv. split; [by apply shaped_set_dc|]. split; [intros k; by rewrite lists_set_dc|].
  destruct s, sz as [|[|[|[|sz]]]]; cbn in *; (split; (split; [by rewrite ?length_insert|])); try done; by apply Forall_insert.
Qed.
Lemma scaling_lookup sz mat s l : scaling_bounds s -> lists_of sz s !! mat = Some l -> length l = length (scan_of sz) /\ Forall is_byte l.
Proof.
  intros (H1 & H2 & _) E. destruct (H1 sz) as [_ H]. split; [exact (Forall_lookup_1 _ _ _ _ H E)|exact (Forall_lookup_1 _ _ _ _ (H2 sz) E)].
Qed.
Lemma keeps_matrix sz mat s : trap -> scaling_bounds s -> (mat < 6)%nat -> keeps (scaling_matrix (sz, mat) s) scaling_bounds.
Proof.
  intros Ht Hs Hm. unfold scaling_matrix. kstep. cbn [fst snd]. destruct (truth a).
  - unfold read_coefs. eapply keeps_bind with (V := fun r => scaling_bounds r.2).
    + unfold read_dc. destruct (2 <=? sz)%nat; [|by apply keeps_ret]. kstep. destruct (_ || _); [by apply keeps_stop|]. apply keeps_ret.
      apply scaling_set_dc; [done|apply u8_fits].
    + intros [next s'] Hs'. cbn [snd] in *. destruct (Hs' : shaped s' /\ _) as [Hsh _]. destruct (Hsh sz) as [H6 _].
      destruct (lookup_lt_is_Some_2 (lists_of sz s') mat) as [l Hl]; [lia|]. destruct (scaling_lookup _ _ _ _ Hs' Hl) as [Hll Hlb]. rewrite Hl. cbn [default].
      eapply keeps_bind; [by apply keeps_coefs|]. intros r [Hr1 Hr2]. apply keeps_ret. apply scaling_set_list; [done|by rewrite Hr2|done].
  - unfold predict_list. kstep. destruct (_ =? 0); [by apply keeps_ret|]. destruct (_ <? _); [by apply keeps_stop|]. apply keeps_need.
    set (from := (mat - _)%nat). assert (from < 6)%nat as Hf by (unfold from; lia). unfold copy_list. destruct (Hs : shaped s /\ _) as [Hsh _]. destruct (Hsh sz) as [H6 _].
    destruct (lookup_lt_is_Some_2 (lists_of sz s) from) as [l Hl]; [lia|]. destruct (scaling_lookup _ _ _ _ Hs Hl) as [Hll Hlb]. rewrite Hl. ostep.
    destruct (2 <=? sz)%nat; [|by apply scaling_set_list]. destruct (dc_of _ _ !! from) as [v|] eqn:Ev; [|done]. ostep. apply scaling_set_dc; [by apply scaling_set_list|].
    destruct (scaling_set_list sz mat l s Hs Hll Hlb) as (_ & _ & [_ D2] & [_ D3]).
    destruct sz as [|[|[|[|sz]]]]; cbn [dc_of] in Ev; [done..|exact (Forall_lookup_1 _ _ _ _ D2 Ev)|exact (Forall_lookup_1 _ _ _ _ D3 Ev)|done].
Qed.
Lemma keeps_lists : trap -> keeps parse_scaling_list_data scaling_bounds.
Proof.
  intros Ht. unfold parse_scaling_list_data. assert (Forall (fun id : nat * nat => (id.2 < 6)%nat) matrix_ids) as H by (apply (bool_decide_eq_true_1 (Forall _ _)); by vm_compute).
  revert H. generalize scaling_default. generalize scaling_list_set_default. induction matrix_ids as [|[sz mat] ids IH]; intros s Hs H; [by apply keeps_ret|].
  apply Forall_cons in H as [H6 H]. cbn [scaling_matrices]. eapply keeps_bind; [by apply keeps_matrix|]. intros s' Hs'. by apply IH.
Qed.

(** *** Reference picture sets *)
Lemma fits_i16 v : fits16 (i16 v).
Proof. unfold fits16, i16. zdm. Qed.
Definition entry_ok (x : Z * Z) : Prop := fits16 x.1 /\ flag_ok x.2.
Lemma rps_of_bounds i negs poss : (length negs + length poss <= 16)%nat -> Forall entry_ok negs -> Forall entry_ok poss -> rps_bounds (rps_of i negs poss).
Proof.
  intros Hl Hn Hp. unfold rps_of. assert (Forall entry_ok (negs ++ poss)) as H by by apply Forall_app.
  constructor; cbn [num_negative_pics num_positive_pics num_delta_pocs delta_poc used_by_curr_pic_flag]; rewrite ?length_app; try lia; unfold pad, H265_MAX_REFS.
  - rewrite length_app, length_replicate, length_map, length_app. split; [lia|]. apply Forall_app. split; [|apply Forall_replicate; by split].
    rewrite Forall_map. eapply Forall_impl; [exact H|]. by intros x [].
  - rewrite length_app, length_replicate, length_map, length_app. split; [lia|]. apply Forall_app. split; [|apply Forall_replicate; by split].
    rewrite Forall_map. eapply Forall_impl; [exact H|]. by intros x [].
Qed.
Lemma moved_ok sel delta l r : Forall (fun e : rps_entry => flag_ok e.2.1) l -> moved sel delta l = Some r -> Forall entry_ok r.
Proof.
  revert r. induction l as [|[d [u k]] l IH]; intros r Hl; cbn [moved]; [intros [= <-]; constructor|]. apply Forall_cons in Hl as [Hu Hl].
  destruct (int32 _); [|done]. ostep. destruct (moved sel delta l) as [r'|]; [|done]. ostep. intros [= <-]. specialize (IH r' Hl eq_refl).
  destruct (_ && _); [|done]. constructor; [|done]. split; [apply fits_i16|exact Hu].
Qed.
Lemma pivot_ok sel delta f : flag_ok f.1 -> Forall entry_ok (pivot sel delta f).
Proof. intros Hf. unfold pivot. destruct (_ && _); [|constructor]. constructor; [|constructor]. split; [apply fits_i16|exact Hf]. Qed.
Lemma predict_ok ref delta flags negs poss : Forall (fun x : Z * Z => flag_ok x.1) flags -> predict_rps ref delta flags = Some (negs, poss) ->
  Forall entry_ok negs /\ Forall entry_ok poss.
Proof.
  intros Hf. unfold predict_rps. destruct (flags !! _) as [last|] eqn:El; [|done]. ostep. pose proof (Forall_lookup_1 _ _ _ _ Hf El) as Hlast. cbv beta in Hlast.
  assert (Forall (fun e : rps_entry => flag_ok e.2.1) (zip (delta_poc ref) flags)) as Hz.
  { revert Hf. generalize (delta_poc ref). clear. intros l. revert flags. induction l as [|d l IH]; intros [|f flags] Hf; try constructor.
    - by apply Forall_cons in Hf as [Hf _].
    - apply Forall_cons in Hf as [_ Hf]. by apply IH. }
  set (entries := zip _ _) in *. set (negs0 := take _ entries). set (poss0 := take _ (drop _ entries)).
  assert (Forall (fun e : rps_entry => flag_ok e.2.1) negs0) as H1 by by apply Forall_take.
  assert (Forall (fun e : rps_entry => flag_ok e.2.1) poss0) as H2 by by apply Forall_take, Forall_drop.
  destruct (moved neg delta (rev poss0)) as [a|] eqn:Ea; [|done]. ostep. destruct (moved neg delta negs0) as [c|] eqn:Ec; [|done]. ostep.
  destruct (moved pos delta (rev negs0)) as [d|] eqn:Ed; [|done]. ostep. destruct (moved pos delta poss0) as [f|] eqn:Ef; [|done]. ostep. intros [= <- <-].
  apply moved_ok in Ea; [|by apply Forall_rev]. apply moved_ok in Ec; [|done]. apply moved_ok in Ed; [|by apply Forall_rev]. apply moved_ok in Ef; [|done].
  split; (apply Forall_app; split; [done|apply Forall_app; split; [by apply pivot_ok|done]]).
Qed.

Lemma keeps_deltas n : forall sign prev, trap -> keeps (read_deltas n sign prev) (fun l => length l = n /\ Forall entry_ok l).
Proof.
  induction n as [|n IH]; intros sign prev Ht; [by apply keeps_ret|]. cbn [read_deltas]. kstep.
  eapply keeps_bind with (V := fun _ => True); [apply keeps_need; by destruct (int32 _)|intros delta _].
  eapply keeps_bind with (V := fun _ => True); [apply keeps_need; by destruct (int32 _)|intros poc _]. kstep.
  eapply keeps_bind; [by apply IH|]. intros l [Hl Hf]. apply keeps_ret. split; [simpl; lia|]. constructor; [|done]. split; [apply fits_i16|done].
Qed.
Lemma keeps_direct : trap -> keeps direct_rps rps_bounds.
Proof.
  intros Ht. unfold direct_rps. kstep. kstep. destruct (Z.ltb_spec 16 a); [by apply keeps_stop|]. destruct (Z.ltb_spec 16 a0); [by apply keeps_stop|].
  destruct (Z.ltb_spec 16 (u32 (a + a0))) as [|H16]; [by apply keeps_stop|]. cbn [orb]. rewrite u32_small in H16 by lia.
  eapply keeps_bind; [by apply keeps_deltas|]. intros negs [Hn1 Hn2]. eapply keeps_bind; [by apply keeps_deltas|]. intros poss [Hp1 Hp2].
  apply keeps_ret. apply rps_of_bounds; [lia|done..].
Qed.
Lemma keeps_flags : keeps read_flags (fun x => flag_ok x.1).
Proof. unfold read_flags. kstep. destruct (truth a); [by apply keeps_ret|]. kstep. by apply keeps_ret. Qed.
Lemma keeps_inter prevs idx num : trap -> Forall rps_bounds prevs -> 0 <= idx <= Z.of_nat (length prevs) -> keeps (inter_rps prevs idx num) rps_bounds.
Proof.
  intros Ht Hp Hi. unfold inter_rps. eapply keeps_bind with (V := fun d => 0 <= d < 2 ^ 32 - 1); [apply keeps_opt_read; [apply keeps_ue|done]|]. intros d Hd. rewrite u32_small by lia.
  destruct (Z.ltb_spec idx (d + 1)); [by apply keeps_stop|]. kstep. kstep.
  eapply keeps_bind with (V := fun _ => True); [apply keeps_need; by destruct (int32 _)|intros delta _].
  destruct (lookup_lt_is_Some_2 prevs (Z.to_nat (idx - (d + 1)))) as [ref Hr]; [lia|]. pose proof (Forall_lookup_1 _ _ _ _ Hp Hr) as Hb.
  eapply keeps_bind with (V := fun x => x = ref); [apply keeps_need; by rewrite Hr|intros ? ->].
  destruct (Z.ltb_spec 16 (num_delta_pocs ref)); [by apply keeps_stop|].
  eapply keeps_bind; [apply (keeps_list _ _ (fun x : Z * Z => flag_ok x.1)); intros; apply keeps_flags|]. intros flags [_ Hf].
  eapply keeps_bind with (V := fun x => Forall entry_ok x.1 /\ Forall entry_ok x.2).
  { apply keeps_need. destruct (predict_rps ref delta flags) as [[negs poss]|] eqn:E; [|done]. by eapply predict_ok. }
  intros [negs poss] [Hn Hps]. unfold H265_MAX_REFS. destruct (Nat.ltb_spec 16 (length negs + length poss)); [by apply keeps_stop|]. apply keeps_ret. by apply rps_of_bounds.
Qed.
Lemma keeps_st_rps store prevs idx num : trap -> (forall r, rps_bounds r -> keeps (store r) (fun _ => True)) -> Forall rps_bounds prevs ->
  0 <= idx <= Z.of_nat (length prevs) -> keeps (parse_st_rps store prevs idx num) rps_bounds.
Proof.
  intros Ht Hst Hp Hi. unfold parse_st_rps. eapply keeps_bind with (V := flag_ok); [apply keeps_opt_read; [kread|by split]|]. intros inter Hint.
  eapply keeps_bind; [apply Hst; destruct rps_zero; by constructor|intros _ _].
  eapply keeps_bind with (V := rps_bounds); [destruct (truth inter); [by apply keeps_inter|by apply keeps_direct]|].
  intros r Hr. eapply keeps_bind; [by apply Hst|intros _ _]. by apply keeps_ret.
Qed.
Lemma keeps_read_sets n : forall i num sets, trap -> Forall rps_bounds sets -> i = Z.of_nat (length sets) ->
  keeps (read_sets n i num sets) (fun l => length l = (length sets + n)%nat /\ Forall rps_bounds l).
Proof.
  induction n as [|n IH]; intros i num sets Ht Hs ->; cbn [read_sets]; [apply keeps_ret; split; [lia|done]|].
  eapply keeps_bind; [apply keeps_st_rps; [done|intros; by apply keeps_ret|done|lia]|]. intros r Hr.
  eapply keeps_conseq; [apply IH; [done|by apply Forall_app_2; [|constructor]|rewrite length_app; simpl; lia]|]. intros l [Hl Hf]. rewrite length_app in Hl. simpl in Hl. split; [lia|done].
Qed.

(** *** Parameter sets *)
Lemma keeps_ordering start max : keeps (read_ordering start max) (fun l => length l = (S max - start)%nat).
Proof.
  unfold read_ordering. eapply keeps_conseq; [apply (keeps_list _ _ (fun _ => True)); intros; do 3 kstep; by apply keeps_ret|]. by intros l [].
Qed.
Lemma length_pad n l : (length l <= n)%nat -> length (pad n l) = n.
Proof. intros H. unfold pad. rewrite length_app, length_replicate. lia. Qed.
Lemma length_broadcast b max l : (max < 7)%nat -> (length l <= S max)%nat -> length (broadcast b max l) = 7%nat.
Proof.
  intros Hm Hl. unfold broadcast, place, H265_MAX_SUB_LAYERS. destruct b; apply length_pad; rewrite ?length_app, ?length_replicate; lia.
Qed.
Lemma pad_sets_ok l : (length l <= 64)%nat -> Forall rps_bounds l -> length (pad_sets l) = 64%nat /\ Forall rps_bounds (pad_sets l).
Proof.
  intros Hl Hf. unfold pad_sets, H265_MAX_SHORT_TERM_RPS. rewrite length_app, length_replicate. split; [lia|]. apply Forall_app. split; [done|].
  apply Forall_replicate, rps_zero.
Qed.
Lemma keeps_sps_sets : trap -> keeps sps_sets (fun l => (length l <= 64)%nat /\ Forall rps_bounds l).
Proof.
  intros Ht. unfold sps_sets. kstep. unfold H265_MAX_SHORT_TERM_RPS. destruct (Z.ltb_spec (Z.of_nat 64) (u8 a)); [by apply keeps_stop|].
  eapply keeps_conseq; [by apply keeps_read_sets|]. intros l [Hl Hf]. simpl in Hl. pose proof (u8_fits a) as Hu. unfold bits_ok in Hu. split; [lia|done].
Qed.
Lemma keeps_long_term w : keeps (sps_long_term w) (fun x => (length x.2 <= 32)%nat).
Proof.
  unfold sps_long_term. kstep. destruct (truth a); [|apply keeps_ret; simpl; lia]. kstep. unfold H265_MAX_LONG_TERM_REFS. destruct (Z.ltb_spec (Z.of_nat 32) (u8 a0)); [by apply keeps_stop|].
  eapply keeps_bind; [apply (keeps_list _ _ (fun _ => True)); intros; kstep; kstep; by apply keeps_ret|]. intros l [Hl _]. apply keeps_ret. cbn [snd].
  pose proof (u8_fits a0) as Hu. unfold bits_ok in Hu. lia.
Qed.
Lemma hevc_keeps_sps_size : keeps sps_size (fun x => 1 <= x.1 <= 8192 /\ 1 <= x.2 <= 8192).
Proof.
  unfold sps_size. kstep. kstep. destruct (Z.eqb_spec a 0); [by apply keeps_stop|]. destruct (Z.ltb_spec 8192 a); [by apply keeps_stop|].
  destruct (Z.eqb_spec a0 0); [by apply keeps_stop|]. destruct (Z.ltb_spec 8192 a0); [by apply keeps_stop|]. apply keeps_ret. cbn [fst snd]. lia.
Qed.
Lemma keeps_sps_ctb mincb diff : trap -> 0 <= mincb -> 0 <= diff -> keeps (sps_ctb mincb diff) (fun x => 3 <= x.1 <= 6 /\ x.2 = 2 ^ x.1).
Proof.
  intros Ht H1 H2. unfold sps_ctb. eapply keeps_bind with (V := fun v => v = u8 (2 ^ (mincb + 3 + diff))); [apply keeps_need; by destruct (_ <? _)|]. intros v ->.
  destruct (Z.ltb_spec 6 (mincb + 3 + diff)); [by apply keeps_stop|]. apply keeps_ret. cbn [fst snd]. split; [lia|]. apply u8_ok. split; [apply Z.pow_nonneg; lia|].
  apply Z.pow_lt_mono_r; lia.
Qed.
Lemma keeps_sps_scaling : trap -> keeps sps_scaling (fun x => scaling_bounds x.2).
Proof.
  intros Ht. unfold sps_scaling. kstep. destruct (truth a); [|apply keeps_ret, scaling_zero]. kstep.
  eapply keeps_bind with (V := scaling_bounds); [destruct (truth a0); [by apply keeps_lists|apply keeps_ret, scaling_default]|]. intros s Hs. by apply keeps_ret.
Qed.
Lemma hevc_keeps_sps : trap -> keeps read_sps (fun s => sps_bounds s /\ sps_valid s = 1).
Proof.
  intros Ht. unfold read_sps. do 3 kstep. unfold H265_MAX_SUB_LAYERS. destruct (Z.leb_spec (Z.of_nat 7) a0); [by apply keeps_stop|].
  eapply keeps_bind; [apply keeps_ptl|intros ptl _]. kstep. unfold H265_MAX_SPS. destruct (Z.leb_spec 32 a2); [by apply keeps_stop|]. kstep.
  eapply keeps_bind with (V := fun _ => True); [apply keeps_opt_read; [by eapply keeps_any, keeps_u1_bits|done]|intros sep _].
  eapply keeps_bind; [apply hevc_keeps_sps_size|]. intros [w h] [Hw Hh]. cbn [fst snd] in *.
  eapply keeps_bind with (V := fun _ => True); [unfold sps_window; kstep; kcase; [do 4 kstep|]; by apply keeps_ret|intros [wf [[[wl wr] wt] wb]] _].
  do 4 kstep. eapply keeps_bind; [apply keeps_ordering|]. intros info Hinfo. do 6 kstep.
  eapply keeps_bind; [by apply keeps_sps_scaling|]. intros [[se sp] sl] Hsl. cbn [snd] in Hsl. do 2 kstep.
  eapply keeps_bind with (V := fun _ => True); [unfold sps_pcm; kstep; kcase; [do 5 kstep|]; by apply keeps_ret|intros [pcm [[[[pl pc] pm] pd] pf]] _].
  eapply keeps_bind; [by apply keeps_sps_sets|]. intros sets [Hsets1 Hsets2]. eapply keeps_bind; [apply keeps_long_term|]. intros [lt lts] Hlts. cbn [snd] in Hlts. do 2 kstep.
  eapply keeps_bind; [apply keeps_sps_ctb; [done|apply u8_fits..]|]. intros [lc c] [Hlc Hc]. cbn [fst snd] in *.
  eapply keeps_bind; [apply keeps_fail_if_failed|intros _ _]. apply keeps_ret. split; [|done].
  destruct (pad_sets_ok sets Hsets1 Hsets2) as [Hp1 Hp2].
  assert (length info <= S (Z.to_nat a0))%nat as Hi by (destruct (truth _); lia). unfold bits_ok in *.
  constructor; cbn [sps_vps_id sps_max_sub_layers_minus1 sps_id chroma_format_idc pic_width_in_luma_samples pic_height_in_luma_samples
    log2_max_pic_order_cnt_lsb_minus4 ctb_log2_size_y ctb_size_y pic_width_in_ctbs_y pic_height_in_ctbs_y sps_max_dec_pic_buffering_minus1 sps_max_num_reorder_pics
    sps_max_latency_increase_plus1 sps_scaling_list num_short_term_ref_pic_sets st_rps num_long_term_ref_pics_sps lt_ref_pic_poc_lsb_sps used_by_curr_pic_lt_sps_flag];
    try done; try lia; try apply u8_fits.
  - rewrite in_ctbs_ok by lia. by rewrite Hc.
  - rewrite in_ctbs_ok by lia. by rewrite Hc.
  - split_and!; apply length_broadcast; rewrite ?length_map; lia.
  - split_and!; [lia|lia|done|done].
  - split_and!; [lia|lia|apply length_pad; by rewrite length_map..].
Qed.
Lemma hevc_keeps_pps id sid : trap -> 0 <= id < 64 -> 0 <= sid < 32 ->
  keeps (read_pps id sid) (fun p => pps_bounds p /\ pps_valid p = 1 /\ pps_id p = id /\ pps_sps_id p = sid).
Proof.
  intros Ht Hid Hsid. unfold read_pps. do 11 kstep.
  eapply keeps_bind with (V := fun _ => True); [apply keeps_opt_read; [by eapply keeps_any, keeps_ue|done]|intros depth _]. do 8 kstep.
  eapply keeps_bind with (V := fun x => 0 <= x.1.1.1 < 20 /\ 0 <= x.1.1.2 < 22).
  { kcase; [|by apply keeps_ret]. unfold pps_tiles. do 2 kstep. destruct (Z.leb_spec 20 a18), (Z.leb_spec 22 a19); try by apply keeps_stop. cbn [orb]. kstep.
    eapply keeps_bind with (V := fun _ => True); [apply keeps_when; [intros _|done]|intros; kstep; apply keeps_ret; cbn [fst snd]; lia].
    eapply keeps_bind; [eapply keeps_times; kread|intros _ _]. eapply keeps_times; kread. }
  intros [[[nc nr] u] f] [Hc Hr]. cbn [fst snd] in *. kstep.
  eapply keeps_bind with (V := fun x => bits_ok 1 x.2.1.1.2 /\ offset_ok x.2.1.2 /\ offset_ok x.2.2).
  { unfold pps_deblocking. kstep. kcase; [|by apply keeps_ret]. do 2 kstep. kcase; [by apply keeps_ret|]. do 2 kstep. apply keeps_ret. cbn [fst snd].
    split_and!; [done|apply i8_fits..]. }
  intros [dc [[[ov dis] beta] tc]] (Hd & Hb & Htc). cbn [fst snd] in *.
  eapply keeps_bind with (V := fun x => scaling_bounds x.2).
  { unfold pps_scaling. kstep. kcase; [|apply keeps_ret, scaling_zero]. eapply keeps_bind; [by apply keeps_lists|]. intros s Hs. by apply keeps_ret. }
  intros [sp sl] Hsl. cbn [snd] in Hsl. do 3 kstep. eapply keeps_bind; [apply keeps_fail_if_failed|intros _ _]. apply keeps_ret. split; [|done].
  constructor; cbn [pps_id pps_sps_id num_extra_slice_header_bits num_ref_idx_l0_default_active_minus1 num_ref_idx_l1_default_active_minus1 init_qp_minus26 pps_cb_qp_offset
    pps_cr_qp_offset num_tile_columns_minus1 num_tile_rows_minus1 pps_beta_offset_div2 pps_tc_offset_div2 pps_deblocking_filter_disabled_flag pps_scaling_list];
    first [done | apply u8_fits | apply i8_fits | lia].
Qed.
End reads.

(** ** Parts that fill in the result *)

(** What holds besides the bounds: the picture order count state; within a slice header
    the tables too; behind its start also which parameter sets are active. *)
Definition staged (o0 o : H265ParseResult) : Prop := bounded o /\ prev o = prev o0.
Definition kept_sets (o0 o : H265ParseResult) : Prop := staged o0 o /\ sps o = sps o0 /\ pps o = pps o0.
Definition started (nut : Z) (o0 o : H265ParseResult) : Prop :=
  kept_sets o0 o /\ is_idr o = idr nut /\ 0 <= active_sps_id o /\ 0 <= active_pps_id o.

Ltac kread := first [apply keeps_u1_bits | apply keeps_ue | apply keeps_se | (eapply keeps_u_bits; [lia|reflexivity]) | apply keeps_u_any
  | apply keeps_failed | apply keeps_get | eapply keeps_skip; kread | by apply keeps_ret].
Ltac kstep := eapply keeps_bind; [kread|intros; cbv beta iota zeta in *].
Ltac kcase := match goal with |- RbspFacts.keeps _ _ (if ?b then _ else _) _ => destruct b end.
Ltac hdr5_fields := cbv beta iota delta [set_field slice_pic_parameter_set_id slice_segment_address slice_type slice_pic_order_cnt_lsb st_rps_slice
  short_term_ref_pic_set_idx num_long_term_sps num_long_term_pics num_ref_idx_l0_active_minus1 num_ref_idx_l1_active_minus1 collocated_ref_idx
  five_minus_max_num_merge_cand slice_qp_delta slice_cb_qp_offset slice_cr_qp_offset slice_beta_offset_div2 slice_tc_offset_div2 num_entry_point_offsets
  header_bit_size short_term_ref_pic_set_size].
Ltac fit5 := first [assumption | apply u8_fits | apply u16_fits | apply i8_fits | by split | lia].

Lemma u32_fits v : bits_ok 32 (u32 v).
Proof. apply Z.mod_pos_bound. done. Qed.

(** *** VPS: nothing is undefined *)
Lemma keeps_on_vps o0 trap i f : keeps trap (staged o0) (on_vps i f) (fun _ => True).
Proof.
  apply rb_keeps_upd; [|done]. intros o [[] Hp]. split; [|exact Hp]. constructor; try assumption.
  change (length (alter f (Z.to_nat i) (vps o)) = 16%nat). by rewrite length_alter.
Qed.
Lemma keeps_vps o0 trap : keeps trap (staged o0) parse_vps (fun _ => True).
Proof.
  unfold parse_vps. assert (forall i f, keeps trap (staged o0) (on_vps i f) (fun _ => True)) as Hon by (intros; apply keeps_on_vps).
  kstep. kcase; [by apply keeps_stop|]. eapply keeps_bind; [apply Hon|intros _ _]. kstep. do 3 (kstep; eapply keeps_bind; [apply Hon|intros _ _]). kstep.
  kcase; [by apply keeps_stop|]. eapply keeps_bind; [apply keeps_ptl|intros ptl _]. eapply keeps_bind; [apply Hon|intros _ _]. kstep.
  eapply keeps_bind; [apply Hon|intros _ _]. eapply keeps_bind; [apply keeps_ordering|intros info _]. eapply keeps_bind; [apply Hon|intros _ _]. kstep. kstep.
  eapply keeps_bind; [apply keeps_skip_bits; unfold bits_ok in *; nia|intros _ _]. kstep.
  eapply keeps_bind; [apply (keeps_when _ _ _ _ (fun _ => True)); [intros _|done]|intros _ _; apply Hon].
  unfold vps_timing. kstep. kstep. kstep. eapply keeps_bind; [apply (keeps_when _ _ _ _ (fun _ => True)); [intros _; kread|done]|intros _ _]. kstep.
  kcase; [by apply keeps_stop|by apply keeps_ret].
Qed.

(** *** The other parameter sets *)
Lemma valid_sps_insert o s i : sps_valid s = 1 -> (Z.to_nat (sps_id s) < length (sps o))%nat -> valid_sps o i -> valid_sps (with_sps o s) i.
Proof.
  intros Hv Hl (x & Hx & Hxv). unfold valid_sps. change (sps (with_sps o s)) with (<[Z.to_nat (sps_id s) := s]> (sps o)).
  destruct (decide (Z.to_nat (sps_id s) = Z.to_nat i)) as [<-|Hne].
  - exists s. rewrite list_lookup_insert_eq by done. split; [done|lia].
  - exists x. by rewrite list_lookup_insert_ne.
Qed.
Lemma bounded_with_sps o s : bounded o -> sps_bounds s -> sps_valid s = 1 -> bounded (with_sps o s).
Proof.
  intros Ho Hs Hv. destruct Ho as [b_vps0 b_sps_len0 b_sps0 b_pps_len0 b_pps0 b_slice0 b_asps0 b_apps0 b_sliced0 b_data0]. pose proof (sb_id s Hs) as Hid. assert (Z.to_nat (sps_id s) < length (sps o))%nat as Hl by lia.
  assert (forall i, valid_sps o i -> valid_sps (with_sps o s) i) as Hval by (intros; by apply valid_sps_insert).
  constructor; try assumption.
  - change (length (<[Z.to_nat (sps_id s) := s]> (sps o)) = 32%nat). by rewrite length_insert.
  - intros i x. change (sps (with_sps o s)) with (<[Z.to_nat (sps_id s) := s]> (sps o)). intros Hx Hxv.
    destruct (decide (Z.to_nat (sps_id s) = i)) as [<-|Hne].
    + rewrite list_lookup_insert_eq in Hx by done. injection Hx as <-. split; [done|lia].
    + rewrite list_lookup_insert_ne in Hx by done. by apply b_sps0.
  - intros i p Hp Hpv. destruct (b_pps0 i p Hp Hpv) as (H1 & H2 & H3). split_and!; [done..|by apply Hval].
  - right. change (active_sps_id (with_sps o s)) with (i8 (sps_id s)). rewrite i8_ok by (unfold offset_ok; lia). split; [done|].
    exists s. change (sps (with_sps o s)) with (<[Z.to_nat (sps_id s) := s]> (sps o)). rewrite list_lookup_insert_eq by done. split; [done|lia].
  - intros Hsl. split; [|by apply b_sliced0]. change (0 <= i8 (sps_id s)). rewrite i8_ok by (unfold offset_ok; lia). lia.
Qed.
Lemma bounded_with_pps o p : bounded o -> pps_bounds p -> pps_valid p = 1 -> valid_sps o (pps_sps_id p) -> bounded (with_pps o p).
Proof.
  intros Ho Hp Hv Hs. destruct Ho as [b_vps0 b_sps_len0 b_sps0 b_pps_len0 b_pps0 b_slice0 b_asps0 b_apps0 b_sliced0 b_data0]. pose proof (pb_id p Hp) as Hid. assert (Z.to_nat (pps_id p) < length (pps o))%nat as Hl by lia.
  constructor; try assumption.
  - change (length (<[Z.to_nat (pps_id p) := p]> (pps o)) = 64%nat). by rewrite length_insert.
  - intros i x. change (pps (with_pps o p)) with (<[Z.to_nat (pps_id p) := p]> (pps o)). intros Hx Hxv.
    destruct (decide (Z.to_nat (pps_id p) = i)) as [<-|Hne].
    + rewrite list_lookup_insert_eq in Hx by done. injection Hx as <-. split_and!; [done|lia|exact Hs].
    + rewrite list_lookup_insert_ne in Hx by done. by apply b_pps0.
  - right. change (active_pps_id (with_pps o p)) with (i8 (pps_id p)). rewrite i8_ok by (unfold offset_ok; lia). split; [done|].
    exists p. change (pps (with_pps o p)) with (<[Z.to_nat (pps_id p) := p]> (pps o)). rewrite list_lookup_insert_eq by done. split; [done|lia].
  - intros Hsl. split; [by apply b_sliced0|]. change (0 <= i8 (pps_id p)). rewrite i8_ok by (unfold offset_ok; lia). lia.
Qed.
Lemma keeps_parse_sps o0 (trap : Prop) : trap -> keeps trap (staged o0) parse_sps (fun _ => True).
Proof.
  intros Ht. unfold parse_sps. eapply keeps_bind; [by apply hevc_keeps_sps|]. intros s [Hs Hv]. apply rb_keeps_upd; [|done].
  intros o [Ho Hp]. split; [|exact Hp]. by apply (bounded_with_sps o s).
Qed.

(** A run that ends in a stronger invariant when it does not stop. *)
Definition raises {A} (trap : Prop) (I I' : H265ParseResult -> Prop) (m : Par A) (V : A -> Prop) : Prop :=
  forall r t, wf r -> I t -> match m (r, t) with
    | None => trap
    | Some (r', t', inl a) => after r r' /\ I' t' /\ V a
    | Some (r', t', inr e) => after r r' /\ I t' /\ is_status e
    end.
Section raises.
Context (trap : Prop) (I I' : H265ParseResult -> Prop).
Lemma raises_bind {A B} (m : Par A) (k : A -> Par B) V W : keeps trap I m V -> (forall a, V a -> raises trap I I' (k a) W) -> raises trap I I' (m ≫= k) W.
Proof.
  intros Hm Hk r t Hw Ht. unfold mbind, Rd_bind. specialize (Hm r t Hw Ht). destruct (m (r, t)) as [[[r1 t1] [a|e]]|]; [|done..].
  destruct Hm as (Ha & Ht1 & HV). specialize (Hk a HV r1 t1 (proj2 (proj2 Ha)) Ht1). destruct (k a (r1, t1)) as [[[r2 t2] [b|e]]|]; [| |done];
    destruct Hk as (Hb & H1 & H2); (split; [by eapply after_trans|done]).
Qed.
Lemma raises_then {A B} (m : Par A) (k : A -> Par B) V W : raises trap I I' m V -> (forall t, I' t -> I t) -> (forall a, V a -> keeps trap I' (k a) W) ->
  raises trap I I' (m ≫= k) W.
Proof.
  intros Hm Hi Hk r t Hw Ht. unfold mbind, Rd_bind. specialize (Hm r t Hw Ht). destruct (m (r, t)) as [[[r1 t1] [a|e]]|]; [|done..].
  destruct Hm as (Ha & Ht1 & HV). specialize (Hk a HV r1 t1 (proj2 (proj2 Ha)) Ht1). destruct (k a (r1, t1)) as [[[r2 t2] [b|e]]|]; [| |done];
    destruct Hk as (Hb & H1 & H2); (split; [by eapply after_trans|]); split; auto.
Qed.
Lemma raises_upd f (V : unit -> Prop) : (forall t, I t -> I' (f t)) -> V tt -> raises trap I I' (upd f) V.
Proof. intros Hf HV r t Hw Ht. unfold upd. cbn. split; [by apply after_refl|]. split; [by apply Hf|done]. Qed.
Lemma raises_stop {A} e (V : A -> Prop) : is_status e -> raises trap I I' (stop e) V.
Proof. intros He r t Hw Ht. unfold stop. split; [by apply after_refl|done]. Qed.
End raises.
Lemma raises_trans {A B} trap (I1 I2 I3 : H265ParseResult -> Prop) (m : Par A) (k : A -> Par B) V W : raises trap I1 I2 m V -> (forall t, I2 t -> I1 t) ->
  (forall a, V a -> raises trap I2 I3 (k a) W) -> raises trap I1 I3 (m ≫= k) W.
Proof.
  intros Hm Hi Hk r t Hw Ht. unfold mbind, Rd_bind. specialize (Hm r t Hw Ht). destruct (m (r, t)) as [[[r1 t1] [a|e]]|]; [|done..].
  destruct Hm as (Ha & Ht1 & HV). specialize (Hk a HV r1 t1 (proj2 (proj2 Ha)) Ht1). destruct (k a (r1, t1)) as [[[r2 t2] [b|e]]|]; [| |done];
    destruct Hk as (Hb & H1 & H2); (split; [by eapply after_trans|]); split; auto.
Qed.
Ltac rstep := eapply raises_bind; [kread|intros; cbv beta iota zeta in *].

Lemma raises_parse_pps o0 (trap : Prop) : trap -> raises trap (kept_sets o0) (staged o0) parse_pps (fun _ => True).
Proof.
  intros Ht. unfold parse_pps. rstep. unfold H265_MAX_PPS, H265_MAX_SPS. destruct (Z.leb_spec 64 a); [by apply raises_stop|]. rstep.
  destruct (Z.leb_spec 32 a0); [by apply raises_stop|]. eapply raises_bind; [apply keeps_get|]. intros o ([Ho _] & Hs & _).
  eapply raises_bind with (V := fun s => sps o0 !! Z.to_nat a0 = Some s); [apply keeps_need; rewrite <- Hs; by destruct (sps o !! Z.to_nat a0) eqn:E|]. intros s Es.
  destruct (truth (sps_valid s)) eqn:Ev; cbn [negb]; [|by apply raises_stop].
  eapply raises_bind; [apply (hevc_keeps_pps _ _ a a0); (done || lia)|]. intros p (Hp & Hv & Hid & Hsid). apply raises_upd; [|done].
  intros o1 ([Ho1 Hp1] & Hs1 & _). split; [|exact Hp1]. rewrite <- Hid. apply (bounded_with_pps o1 p Ho1 Hp Hv).
  exists s. rewrite Hs1, Hsid. split; [done|]. unfold truth in Ev. by destruct (Z.eqb_spec (sps_valid s) 0).
Qed.

(** *** Slice headers *)
Section slices.
Context (o0 : H265ParseResult) (nut : Z) (trap : Prop).

Lemma bounded_on_slice f o : (forall h, header_bounds h -> header_bounds (f h)) -> bounded o -> bounded (o <| slice ::= f |>).
Proof. intros Hf []. constructor; try assumption. by apply Hf. Qed.
Lemma hevc_keeps_on_slice I f : (forall o, I o -> bounded o) -> (forall o, bounded (o <| slice ::= f |>) -> I o -> I (o <| slice ::= f |>)) ->
  (forall h, header_bounds h -> header_bounds (f h)) -> keeps trap I (on_slice f) (fun _ => True).
Proof. intros Hb Hk Hf. apply rb_keeps_upd; [|done]. intros o Ho. apply Hk; [|done]. apply bounded_on_slice; auto. Qed.
Lemma slice_kept f : (forall h, header_bounds h -> header_bounds (f h)) -> keeps trap (kept_sets o0) (on_slice f) (fun _ => True).
Proof. apply hevc_keeps_on_slice; [intros o Ho; apply Ho|]. intros o Hb [[_ Hp] Hs]. split; [split; [exact Hb|exact Hp]|exact Hs]. Qed.
Lemma slice_started f : (forall h, header_bounds h -> header_bounds (f h)) -> keeps trap (started nut o0) (on_slice f) (fun _ => True).
Proof. apply hevc_keeps_on_slice; [intros o Ho; apply Ho|]. intros o Hb [[[_ Hp] Hs] Ha]. split; [split; [split; [exact Hb|exact Hp]|exact Hs]|exact Ha]. Qed.
#[local] Abbreviation skeeps := (keeps trap (started nut o0)).

(** Weights are on in some picture parameter set. *)
Definition weights_on (o : H265ParseResult) : Prop :=
  exists i p, pps o !! i = Some p /\ pps_valid p <> 0 /\ (truth (weighted_pred_flag p) || truth (weighted_bipred_flag p)) = true.
(** The parameter sets in force. *)
Definition in_force (sp : H265Sps * H265Pps) : Prop :=
  sps_bounds sp.1 /\ pps_bounds sp.2 /\ (exists i, pps o0 !! i = Some sp.2) /\ pps_valid sp.2 <> 0.
Hypothesis Hpictures : idr nut = false -> trap.
Hypothesis Hweights : weights_on o0 -> trap.

Ltac upd5 := apply slice_started; intros ? []; constructor; hdr5_fields; fit5.
Ltac skstep := eapply keeps_bind; [first [kread | upd5]|intros; cbv beta iota zeta in *].
Ltac skdone := first [kread | upd5 | by apply keeps_ret].
Ltac swhen tac := eapply keeps_bind; [apply (keeps_when _ _ _ _ (fun _ => True)); [intros _; tac|done]|intros _ _].

Lemma truth_valid v : negb (truth v) = false -> v <> 0.
Proof. unfold truth. by destruct (Z.eqb_spec v 0). Qed.
(** The three steps of the start: the unit's type, the active PPS, the active SPS. *)
Definition typed (o : H265ParseResult) : Prop := kept_sets o0 o /\ is_idr o = idr nut.
Definition with_active_pps (o : H265ParseResult) : Prop := typed o /\ 0 <= active_pps_id o.
Lemma raise_typed o b : kept_sets o0 o -> typed (o <| is_irap := b |> <| is_idr := idr nut |>).
Proof. intros [[Hb Hp] Hs]. split; [|done]. split; [|exact Hs]. split; [|exact Hp]. destruct Hb. by constructor. Qed.
Lemma raise_pps o i p : pps o0 !! Z.to_nat i = Some p -> pps_valid p <> 0 -> 0 <= i < 64 -> typed o -> with_active_pps (o <| active_pps_id := i8 i |>).
Proof.
  intros Ep Ev Hi [[[Hb Hp] [Hs1 Hs2]] Ht]. assert (i8 i = i) as Ei by (apply i8_ok; unfold offset_ok; lia).
  split; [|change (0 <= i8 i); lia]. split; [|exact Ht]. split; [|by split]. split; [|exact Hp].
  destruct Hb as [b_vps0 b_sps_len0 b_sps0 b_pps_len0 b_pps0 b_slice0 b_asps0 b_apps0 b_sliced0 b_data0]. constructor; try assumption.
  - right. change (active_pps_id (o <| active_pps_id := i8 i |>)) with (i8 i). rewrite Ei. split; [lia|]. exists p. split; [|done]. change (pps o !! Z.to_nat i = Some p). congruence.
  - intros Hsl. split; [by apply b_sliced0|]. change (0 <= i8 i). lia.
Qed.
Lemma raise_sps o i s : sps o0 !! Z.to_nat i = Some s -> sps_valid s <> 0 -> 0 <= i < 32 -> with_active_pps o -> started nut o0 (o <| active_sps_id := i8 i |>).
Proof.
  intros Ep Ev Hi [[[[Hb Hp] [Hs1 Hs2]] Ht] Ha]. assert (i8 i = i) as Ei by (apply i8_ok; unfold offset_ok; lia).
  split; [|split; [exact Ht|split; [change (0 <= i8 i); lia|exact Ha]]]. split; [|by split]. split; [|exact Hp].
  destruct Hb as [b_vps0 b_sps_len0 b_sps0 b_pps_len0 b_pps0 b_slice0 b_asps0 b_apps0 b_sliced0 b_data0]. constructor; try assumption.
  - right. change (active_sps_id (o <| active_sps_id := i8 i |>)) with (i8 i). rewrite Ei. split; [lia|]. exists s. split; [|done]. change (sps o !! Z.to_nat i = Some s). congruence.
  - intros Hsl. split; [|by apply b_sliced0]. change (0 <= i8 i). lia.
Qed.
Lemma slice_typed f : (forall h, header_bounds h -> header_bounds (f h)) -> keeps trap typed (on_slice f) (fun _ => True).
Proof. apply hevc_keeps_on_slice; [intros o Ho; apply Ho|]. intros o Hb [[[_ Hp] Hs] Ha]. split; [split; [split; [exact Hb|exact Hp]|exact Hs]|exact Ha]. Qed.

Lemma raises_start : raises trap (kept_sets o0) (started nut o0) (slice_start nut) in_force.
Proof.
  unfold slice_start. cbv zeta. rstep. eapply raises_bind; [apply slice_kept; intros ? []; constructor; hdr5_fields; fit5|intros _ _].
  eapply raises_trans with (V := fun _ => True); [apply raises_upd; [intros; by apply raise_typed|done]|by intros t []|intros _ _].
  eapply raises_bind; [apply (keeps_when _ _ _ _ (fun _ => True)); [intros _; eapply keeps_bind; [kread|intros; apply slice_typed; intros ? []; constructor; hdr5_fields; fit5]|done]|intros _ _].
  rstep. eapply raises_bind; [apply slice_typed; intros ? []; constructor; hdr5_fields; fit5|intros _ _].
  unfold H265_MAX_PPS. destruct (Z.leb_spec 64 (u8 a0)); [by apply raises_stop|]. pose proof (u8_fits a0) as Hu. unfold bits_ok in Hu.
  eapply raises_bind; [apply keeps_get|]. intros o (([Ho _] & Hs & Hp) & _).
  destruct (lookup_lt_is_Some_2 (pps o) (Z.to_nat (u8 a0))) as [p Ep]; [rewrite (b_pps_len o Ho); lia|].
  eapply raises_bind with (V := fun x => x = p); [apply keeps_need; by rewrite Ep|intros ? ->].
  destruct (negb (truth (pps_valid p))) eqn:Ev; [by apply raises_stop|]. apply truth_valid in Ev. destruct (b_pps o Ho _ _ Ep Ev) as (Hpb & Hpid & s & Es & Evs).
  eapply raises_trans with (V := fun _ => True); [apply raises_upd; [|done]; intros t Ht; apply (raise_pps _ _ p); [congruence|done|lia|done]|by intros t []|intros _ _].
  eapply raises_bind with (V := fun x => x = s); [apply keeps_need; by rewrite Es|intros ? ->].
  destruct (negb (truth (sps_valid s))); [by apply raises_stop|]. pose proof (pb_sps p Hpb).
  eapply raises_then with (V := fun _ => True); [apply raises_upd; [|done]; intros t Ht; apply (raise_sps _ _ s); [congruence|done|lia|done]| |].
  - intros t (Hk & Hi & _ & Ha). by split; [split|].
  - intros _ _. apply keeps_ret. split; [apply (b_sps o Ho _ _ Es Evs)|]. split; [done|]. split; [|done]. eexists. rewrite <- Hp. exact Ep.
Qed.

Section in_force.
Context (s : H265Sps) (p : H265Pps).
Hypothesis Hs : sps_bounds s.
Hypothesis Hp : pps_bounds p.
Hypothesis Hin : (exists i, pps o0 !! i = Some p) /\ pps_valid p <> 0.

Lemma keeps_address : skeeps (slice_address s p) (fun _ => True).
Proof.
  unfold slice_address. skstep. kcase; [by apply keeps_ret|]. eapply keeps_bind with (V := fun _ => True); [apply keeps_opt_read; [by eapply keeps_any, keeps_u1_bits|done]|intros d _].
  do 3 skstep. skdone.
Qed.
Lemma keeps_kind : skeeps (slice_kind s p) (fun _ => True).
Proof.
  unfold slice_kind. eapply keeps_bind; [eapply keeps_times; kread|intros _ _]. skstep. skstep. kcase; [by apply keeps_stop|].
  swhen ltac:(skstep; skdone). swhen ltac:(skstep; skdone). skdone.
Qed.
Lemma log2_6 n : 0 <= n <= 64 -> (ceil_log2 n <= 6)%nat.
Proof.
  intros Hn. unfold ceil_log2. destruct (Z.leb_spec n 1); [lia|]. assert (Z.log2 (n - 1) < 6) by (apply Z.log2_lt_pow2; lia). lia.
Qed.
Lemma keeps_slice_set flag : trap -> skeeps (slice_set s flag) (fun _ => True).
Proof.
  intros Ht. destruct (sb_sets s Hs) as (Hn & Hl & Hf). unfold slice_set. kcase.
  - eapply keeps_skip, keeps_st_rps; [done| |done|lia]. intros r Hr. apply slice_started; intros ? []; constructor; hdr5_fields; fit5.
  - apply keeps_when; [intros _|done]. pose proof (log2_6 _ Hn). eapply keeps_bind; [apply keeps_u; lia|]. intros i Hi. cbv beta in Hi.
    assert (2 ^ Z.of_nat (ceil_log2 (num_short_term_ref_pic_sets s)) <= 2 ^ 6) by (apply Z.pow_le_mono_r; lia).
    assert (bits_ok 6 (u8 i)) by (rewrite u8_ok; unfold bits_ok in *; lia). upd5.
Qed.
Lemma keeps_measured {A} (m : Par A) V : skeeps m V -> skeeps (measured m) (fun x => V x.1 /\ bits_ok 32 x.2).
Proof.
  intros Hm. unfold measured. assert (skeeps rd_pos (fun _ => True)) as Hpos by (apply keeps_reader; intros; split; [by apply after_refl|done]).
  eapply keeps_bind; [exact Hpos|intros]. eapply keeps_bind; [exact Hm|intros a' Ha]. eapply keeps_bind; [exact Hpos|intros]. apply keeps_ret. split; [done|apply u32_fits].
Qed.
Lemma keeps_slice_lt : skeeps (slice_long_term s) (fun _ => True).
Proof.
  unfold slice_long_term. apply keeps_when; [intros _|done]. eapply keeps_bind with (V := fun n => 0 <= n < 2 ^ 32 - 1); [apply keeps_opt_read; [apply keeps_ue|done]|intros n Hn].
  skstep. unfold H265_MAX_LONG_TERM_REFS. destruct (Z.ltb_spec (Z.of_nat 32) n); [by apply keeps_stop|]. destruct (Z.ltb_spec (Z.of_nat 32) a); [by apply keeps_stop|]. cbn [orb].
  skstep. kcase; [by apply keeps_stop|by apply keeps_ret].
Qed.
Lemma keeps_pictures : trap -> skeeps (slice_pictures s) (fun _ => True).
Proof.
  intros Ht. unfold slice_pictures. do 4 skstep. eapply keeps_bind; [by apply keeps_measured, keeps_slice_set|]. intros [[] size] [_ Hsz]. cbn [snd] in Hsz.
  skstep. eapply keeps_bind; [apply keeps_slice_lt|intros _ _]. apply keeps_when; [intros _|done]. skstep. skdone.
Qed.
Lemma keeps_sao : skeeps (slice_sao s) (fun _ => True).
Proof. unfold slice_sao. apply keeps_when; [intros _|done]. skstep. skstep. apply keeps_when; [intros _|done]. skstep. skdone. Qed.

Lemma keeps_active b : skeeps (slice_active p b) (fun _ => True).
Proof.
  destruct Hp. unfold slice_active. skstep. skstep. kcase; [|skdone]. skstep. skstep. apply keeps_when; [intros _|done]. skstep. skdone.
Qed.
Lemma started_header o : started nut o0 o -> header_bounds (slice o).
Proof. intros [[[H _] _] _]. apply H. Qed.
Lemma keeps_modification b : skeeps (slice_modification s p b) (fun _ => True).
Proof.
  unfold slice_modification. eapply keeps_bind; [apply keeps_get|]. intros o Ho. apply started_header in Ho.
  eapply keeps_bind with (V := fun _ => True).
  { apply keeps_need. unfold set_in_force. destruct (truth _); [|done]. destruct (sb_sets s Hs) as (_ & Hl & _). pose proof (hb_set_idx _ Ho) as Hi. unfold bits_ok in Hi.
    destruct (lookup_lt_is_Some_2 (st_rps s) (Z.to_nat (short_term_ref_pic_set_idx (slice o)))) as [r ->]; [lia|done]. }
  intros r _. cbv zeta. assert (forall n a, skeeps (skip_entries n a) (fun _ => True)) as He.
  { intros n a. unfold skip_entries. skstep. apply keeps_when; [intros _|done]. eapply keeps_times; kread. }
  apply keeps_when; [intros _|done]. eapply keeps_bind; [apply He|intros _ _]. apply keeps_when; [intros _; apply He|done].
Qed.
Lemma keeps_collocated b : skeeps (slice_collocated b) (fun _ => True).
Proof.
  unfold slice_collocated. skstep. apply keeps_when; [intros _|done]. eapply keeps_bind with (V := fun _ => True); [kcase; [by eapply keeps_any, keeps_u1_bits|by apply keeps_ret]|intros l0 _].
  skstep. apply keeps_when; [intros _|done]. skstep. skdone.
Qed.
Lemma weighted_trap t : weighted p t = true -> trap.
Proof.
  intros Hw. apply Hweights. destruct Hin as [[i Hi] Hv]. exists i, p. split_and!; [done..|]. unfold weighted in Hw. destruct (truth (weighted_pred_flag p)); [done|].
  by apply andb_true_iff in Hw as [Hw _].
Qed.
Lemma hevc_keeps_slice_weights t : skeeps (slice_weights s p t) (fun _ => True).
Proof.
  unfold slice_weights. apply keeps_when; [intros Hw%weighted_trap|done]. cbv zeta. skstep. swhen kread. skstep.
  assert (forall n, skeeps (weight_flags n) (fun _ => True)) as Hf.
  { intros n. unfold weight_flags. kcase; [by apply keeps_need|]. by eapply keeps_any, (keeps_list _ _ _ _ (fun _ => True)); intros; eapply keeps_any, keeps_u1_bits. }
  assert (forall n c, skeeps (skip_weights n c) (fun _ => True)) as Hk.
  { intros n c. unfold skip_weights. eapply keeps_bind; [apply Hf|intros luma _]. eapply keeps_bind with (V := fun _ => True); [kcase; [apply Hf|by apply keeps_ret]|intros cs _].
    apply keeps_each. intros x. unfold skip_weight. swhen ltac:(do 1 skstep; kread). apply keeps_when; [intros _; do 3 skstep; kread|done]. }
  eapply keeps_bind; [apply Hk|intros _ _]. apply keeps_when; [intros _; apply Hk|done].
Qed.
Lemma keeps_slice_inter t : skeeps (slice_inter s p t) (fun _ => True).
Proof.
  unfold slice_inter. cbv zeta. eapply keeps_bind; [apply keeps_active|intros _ _]. eapply keeps_bind; [apply keeps_modification|intros _ _].
  swhen ltac:(skstep; skdone). swhen ltac:(skstep; skdone). eapply keeps_bind; [apply keeps_collocated|intros _ _]. eapply keeps_bind; [apply hevc_keeps_slice_weights|intros _ _].
  skstep. skdone.
Qed.
Lemma keeps_independent : skeeps (slice_independent s p) (fun _ => True).
Proof.
  unfold slice_independent. eapply keeps_bind; [apply keeps_kind|intros t _]. eapply keeps_bind; [apply keeps_get|]. intros o (_ & Hi & _).
  eapply keeps_bind; [apply (keeps_when _ _ _ _ (fun _ => True)); [intros E%negb_true_iff|done]|intros _ _].
  { rewrite Hi in E. by apply keeps_pictures, Hpictures. }
  eapply keeps_bind; [apply keeps_sao|intros _ _]. swhen ltac:(apply keeps_slice_inter).
  eapply keeps_bind with (V := fun _ => True); [unfold slice_qp; skstep; skstep; apply keeps_when; [intros _; do 3 skstep; skdone|done]|intros _ _].
  eapply keeps_bind with (V := fun _ => True).
  { unfold slice_deblocking. apply keeps_when; [intros _|done]. eapply keeps_bind with (V := fun _ => True); [apply keeps_opt_read; [by eapply keeps_any, keeps_u1_bits|done]|intros ov _].
    skstep. kcase; [|destruct Hp; skdone]. skstep. skstep. apply keeps_when; [intros _|done]. do 3 skstep. skdone. }
  intros _ _. unfold slice_loop_filter. skstep. apply keeps_when; [intros _|done]. skstep. skdone.
Qed.

Lemma keeps_fail {A} (V : A -> Prop) : skeeps fail_invalid V.
Proof. unfold fail_invalid. eapply keeps_bind; [apply (keeps_reader _ _ _ (fun _ => True)); intros r Hw; split; [by apply fail_after, after_refl|done]|intros]. by apply keeps_stop. Qed.
Lemma ctbs_range n : 1 <= n <= 8192 -> 0 <= (n + ctb_size_y s - 1) / ctb_size_y s <= 1024.
Proof.
  intros Hn. destruct (sb_ctb s Hs) as [Hc Hcs]. assert (2 ^ 3 <= ctb_size_y s) by (rewrite Hcs; apply Z.pow_le_mono_r; lia).
  split; [apply Z.div_pos; lia|]. apply Z.lt_succ_r, Z.div_lt_upper_bound; nia.
Qed.
Lemma keeps_points : skeeps (slice_entry_points s p) (fun _ => True).
Proof.
  unfold slice_entry_points. apply keeps_when; [intros _|done]. skstep. pose proof (ctbs_range _ (sb_height s Hs)) as Hh. rewrite <- (sb_height_ctbs s Hs) in Hh.
  pose proof (pb_columns p Hp). destruct (Z.ltb_spec (u32 (pic_height_in_ctbs_y s * (num_tile_columns_minus1 p + 1))) a) as [|Hn]; [apply keeps_fail|]. rewrite u32_small in Hn by nia.
  assert (0 <= a <= 1024 * 20) by nia. skstep. apply keeps_when; [intros _|done]. skstep. destruct (31 <? a1); [apply keeps_fail|]. eapply keeps_times; kread.
Qed.
Lemma keeps_extension : skeeps (slice_extension p) (fun _ => True).
Proof.
  unfold slice_extension. apply keeps_when; [intros _|done]. skstep.
  eapply keeps_bind; [apply (keeps_reader _ _ _ (fun _ => True)); intros r Hw; split; [by apply after_refl|done]|intros rem _].
  kcase; [apply keeps_fail|]. eapply keeps_times; kread.
Qed.
End in_force.

(** The alignment loop ends within its fuel. *)
Lemma align_keeps fuel : forall r t, wf r -> started nut o0 t -> ((8 - bit_pos r mod 8) mod 8 < fuel)%nat ->
  match align_loop fuel (r, t) with
  | None => trap | Some (r', t', o) => after r r' /\ started nut o0 t' /\ match o with inl _ => True | inr e => is_status e end
  end.
Proof.
  induction fuel as [|fuel IH]; intros r t Hw Ht Hf; [lia|]. cbn [align_loop]. unfold mbind at 1, Rd_bind at 1, rd_pos, reader. cbn [fst snd].
  destruct (Nat.eqb_spec (bit_pos r mod 8) 0) as [E|E]; [cbn; split; [by apply after_refl|done]|].
  unfold mbind at 1, Rd_bind at 1, skip, mbind at 1, Rd_bind at 1, rd_u1, rd_u, reader. cbn [fst snd].
  assert (br_eof r = false) as Ee.
  { unfold br_eof. apply Nat.leb_gt. unfold wf in Hw. destruct (decide (bit_pos r = 8 * length (data r))%nat) as [Eq|]; [|lia].
    rewrite Eq, Nat.mul_comm, Nat.Div0.mod_mul in E. done. }
  pose proof (br_u1_moves r) as Em. rewrite Ee in Em. destruct (br_u 1 r) as [b r1] eqn:Eb. cbn [snd] in Em. cbn [mret Rd_ret]. unfold mret, Rd_ret. cbv beta iota.
  pose proof (proj1 (br_u_after 1 r Hw)) as Ha. rewrite Eb in Ha. cbn [snd] in Ha. pose proof (Nat.div_mod_eq (bit_pos r) 8). pose proof (Nat.mod_upper_bound (bit_pos r) 8 ltac:(lia)).
  assert (bit_pos r1 = S (bit_pos r)) as Ep by (by rewrite Em).
  assert ((8 - bit_pos r1 mod 8) mod 8 < fuel)%nat as Hf2.
  { rewrite Ep. rewrite (Nat.mod_small (8 - bit_pos r mod 8)) in Hf by lia. destruct (decide (bit_pos r mod 8 = 7)%nat) as [E7|E7].
    - replace (S (bit_pos r)) with (0 + (bit_pos r / 8 + 1) * 8)%nat by lia. rewrite Nat.Div0.mod_add. simpl. lia.
    - replace (S (bit_pos r)) with (S (bit_pos r mod 8) + (bit_pos r / 8) * 8)%nat by lia. rewrite Nat.Div0.mod_add, (Nat.mod_small (S _)), Nat.mod_small by lia. lia. }
  specialize (IH r1 t (proj2 (proj2 Ha)) Ht Hf2). destruct (align_loop fuel (r1, t)) as [[[r2 t2] o]|]; [|done].
  destruct IH as (H1 & H2 & H3). split; [by eapply after_trans|done].
Qed.

Lemma raises_slice : raises trap (kept_sets o0) (started nut o0) (parse_slice_header nut) (fun _ => True).
Proof.
  unfold parse_slice_header. eapply raises_then with (V := fun _ => True); [|intros t H; apply H|].
  - unfold slice_fields. eapply raises_bind with (V := fun _ => True).
    { apply rb_keeps_upd; [|done]. intros o [[Hb Hp] Hs]. split; [split; [destruct Hb; constructor; try assumption; apply header_zero|exact Hp]|exact Hs]. }
    intros _ _. eapply raises_then; [apply raises_start|intros t H; apply H|]. intros [s p] (Hs & Hp & Hin & Hv). cbn [fst snd] in *.
    eapply keeps_bind; [apply keeps_address|intros d _]. eapply keeps_bind; [apply (keeps_when _ _ _ _ (fun _ => True)); [intros _; by apply keeps_independent|done]|intros _ _].
    eapply keeps_bind; [by apply keeps_points|intros _ _]. apply keeps_extension.
  - intros _ _. skstep. eapply keeps_bind with (V := fun _ => True).
    { intros r t Hw Ht. apply align_keeps; [done..|]. apply (Nat.mod_upper_bound (8 - _)). lia. }
    intros _ _. eapply keeps_bind with (V := fun _ => True); [apply keeps_reader; intros; split; [by apply after_refl|done]|intros n _].
    apply slice_started; intros ? []; constructor; hdr5_fields; first [apply u32_fits | fit5].
Qed.
End slices.

(** ** Units *)

Definition nal_type_at (b0 b1 : Z) : Z := Z.land (Z.shiftr (Z.lor (Z.shiftl b0 8) b1) 9) 0x3f.
(** Where a unit may be undefined: the sums of a scaling list or of a reference picture
    set, the shift by a block size, the weights of a slice, its picture order count. *)
Definition undefined_slice (t : Z) (o : H265ParseResult) : Prop :=
  idr t = false \/ weights_on o \/ exists i s, sps o !! i = Some s /\ 28 <= log2_max_pic_order_cnt_lsb_minus4 s.
Definition undefined_unit (bytes : list Z) : Prop :=
  exists b0 b1 payload o, bytes = b0 :: b1 :: payload /\ bounded o /\
    (nal_type_at b0 b1 = 33 \/ nal_type_at b0 b1 = 34 \/ is_slice_type (nal_type_at b0 b1) = true /\ undefined_slice (nal_type_at b0 b1) o).

Definition int_prev (st : prev_tid0) : Prop := int_ok (prev_poc_msb_tid0 st) /\ int_ok (prev_poc_lsb_tid0 st).
Lemma int32_fits x y : int32 x = Some y -> int_ok y.
Proof. unfold int32. destruct (Z.leb_spec (-2 ^ 31) x), (Z.ltb_spec x (2 ^ 31)); cbn [andb]; intros [=<-] || done. by split. Qed.
Lemma split_count_fits log2 c st : int_ok c -> split_count log2 c = Some st -> int_prev st.
Proof.
  intros Hc E. unfold split_count in E. destruct (shl1 _) as [m|]; [|done]. revert E. ostep. set (r := Z.rem c m).
  destruct (if r <? 0 then int32 (r + m) else Some r) as [lsb|] eqn:El; [|done]. ostep. destruct (int32 (c - lsb)) as [msb|] eqn:Em; [|done]. ostep. intros [= <-].
  split; cbn; [by eapply int32_fits|]. destruct (Z.ltb_spec r 0) as [|Hr]; [by eapply int32_fits|]. injection El as <-. unfold int_ok in *.
  destruct (Z.eq_dec m 0) as [->|Hm]; [unfold r; by destruct c|]. destruct (Z.le_gt_cases 0 c) as [H0|H0].
  - pose proof (Z.rem_abs c m Hm) as Ha. pose proof (Z.rem_le (Z.abs c) (Z.abs m) ltac:(lia) ltac:(lia)). unfold r in *. lia.
  - pose proof (Z.rem_nonpos c m Hm ltac:(lia)). unfold r in *. lia.
Qed.
Lemma compute_poc_fits log2 t tid lsb b st c st' : bits_ok 16 lsb -> int_prev st -> compute_poc log2 t tid lsb b st = Some (c, st') -> int_ok c /\ int_prev st'.
Proof.
  intros Hl Hst. unfold compute_poc, slice_count. destruct b; ostep.
  - destruct (_ && _); [|intros [= <- <-]; by split_and!]. destruct (split_count log2 0) as [st1|] eqn:E; [|done]. ostep. intros [= <- <-].
    split; [done|]. by eapply split_count_fits in E.
  - destruct (shl1 _) as [m|]; [|done]. ostep. destruct (poc_msb_of _ _ _ _) as [msb|]; [|done]. ostep. destruct (int32 _) as [count|] eqn:Ec; [|done]. ostep. apply int32_fits in Ec.
    destruct (_ && _); [|intros [= <- <-]; by split]. destruct (split_count log2 count) as [st1|] eqn:E; [|done]. ostep. intros [= <- <-].
    split; [done|]. by eapply split_count_fits in E.
Qed.
Lemma idr_poc_defined log2 t tid lsb st : 0 <= log2 -> compute_poc log2 t tid lsb true st = None -> 28 <= log2.
Proof.
  intros H0. unfold compute_poc, slice_count. ostep. destruct (_ && _); [|done]. unfold split_count, shl1. destruct (Z.ltb_spec (log2 + 4) 32); [|lia]. ostep.
  change (Z.rem 0 (to_int (2 ^ (log2 + 4)))) with 0. cbn [Z.ltb Z.compare]. ostep. done.
Qed.

Lemma set_safe (m : Par unit) (trap : Prop) payload o st : keeps trap (staged o) m (fun _ => True) -> bounded o -> int_prev st ->
  match run_set m payload o st with
  | None => trap | Some (o', r) => staged o o' /\ match r with inl st' => int_prev st' | inr e => is_status e end
  end.
Proof.
  intros Hm Ho Hst. unfold run_set. specialize (Hm (br_init payload) o (wf_init _) (conj Ho eq_refl)).
  destruct (m (br_init payload, o)) as [[[r o'] [[]|e]]|]; ostep; cbv beta iota; [| |done]; by destruct Hm as (_ & H1 & H2).
Qed.
Lemma slice_safe t tid payload o st : Forall is_byte payload -> bounded o -> int_prev st ->
  match ('(br, o', r) ← parse_slice_header t (br_init payload, o);
         match r with inl _ => finish_slice t tid payload br o' st | inr e => Some (o', inr e) end : Unit) with
  | None => undefined_slice t o
  | Some (o', r) => staged o o' /\ match r with inl st' => int_prev st' | inr e => is_status e end
  end.
Proof.
  intros Hb Ho Hst. set (trap := idr t = false \/ weights_on o).
  pose proof (raises_slice o t trap (fun h => or_introl h) (fun h => or_intror h) (br_init payload) o (wf_init _) (conj (conj Ho eq_refl) (conj eq_refl eq_refl))) as H.
  destruct (parse_slice_header t _) as [[[br o'] [[]|e]]|]; ostep; cbv beta iota; [|by destruct H as (_ & [? _] & ?)|by destruct H; [left|right; left]].
  destruct H as (_ & ([Hk [Es Ep]] & Hi & Ha & Hap) & _). destruct Hk as [Hbo Hpo].
  unfold finish_slice. cbv zeta. set (o1 := o' <| has_slice := true |> <| slice_nal_unit_type := t |> <| nal_ref_flag := negb (is_sub_layer_nonref t) |>).
  change (active_sps_id o1) with (active_sps_id o'). change (sps o1) with (sps o'). change (slice o1) with (slice o'). change (is_idr o1) with (is_idr o').
  destruct (b_active_sps o' Hbo) as [E|[Hr (s & Hs & Hv)]]; [lia|]. rewrite Hs. ostep. rewrite Hi.
  pose proof (hb_lsb _ (b_slice _ Hbo)) as Hlsb. destruct (b_sps o' Hbo _ _ Hs Hv) as [Hsb _].
  destruct (compute_poc _ t tid _ (idr t) st) as [[count st']|] eqn:Ec; ostep; cbv beta iota.
  - destruct (compute_poc_fits _ _ _ _ _ _ _ _ Hlsb Hst Ec) as [Hc Hst'].
    assert (staged o (o1 <| poc := count |>)) as Hk2 by (split; [destruct Hbo; constructor; try assumption; by intros _|exact Hpo]).
    destruct (_ <? _)%nat; [by split|]. split; [|exact Hst']. split; [|exact Hpo]. destruct Hk2 as [[] _]. constructor; try assumption. by apply Forall_drop.
  - destruct (idr t) eqn:Et; [|by left]. right. right. exists (Z.to_nat (active_sps_id o')), s. split; [by rewrite <- Es|].
    eapply idr_poc_defined; [|exact Ec]. pose proof (sb_lsb s Hsb) as Hl. unfold bits_ok in Hl. lia.
Qed.


Lemma hevc_nal_safe bytes o st : Forall is_byte bytes -> bounded o -> int_prev st ->
  match parse_unit bytes o st with
  | None => undefined_unit bytes
  | Some (o', r) => staged o o' /\ match r with inl st' => int_prev st' | inr e => is_status e end
  end.
Proof.
  intros Hb Ho Hst. unfold parse_unit. destruct bytes as [|b0 [|b1 payload]]; [by split; [split|]..|]. apply Forall_cons in Hb as [_ [_ Hb]%Forall_cons].
  unfold parse_nal. cbv zeta. change (Z.land (Z.shiftr (Z.lor (Z.shiftl b0 8) b1) 9) 0x3f) with (nal_type_at b0 b1).
  assert (forall P : Prop, (P -> nal_type_at b0 b1 = 33 \/ nal_type_at b0 b1 = 34 \/ is_slice_type (nal_type_at b0 b1) = true /\ undefined_slice (nal_type_at b0 b1) o) ->
    P -> undefined_unit (b0 :: b1 :: payload)) as Hund by (intros P HP H; exists b0, b1, payload, o; auto).
  unfold H265_NAL_VPS, H265_NAL_SPS, H265_NAL_PPS. destruct (Z.eqb_spec (nal_type_at b0 b1) 32) as [E|_]; [|destruct (Z.eqb_spec (nal_type_at b0 b1) 33) as [E|_]; [|destruct (Z.eqb_spec (nal_type_at b0 b1) 34) as [E|_]]].
  - pose proof (set_safe parse_vps False payload o st (keeps_vps o False) Ho Hst) as H. destruct (run_set _ _ _ _) as [[o' r]|]; done.
  - pose proof (set_safe parse_sps True payload o st (keeps_parse_sps o True I) Ho Hst) as H. destruct (run_set _ _ _ _) as [[o' r]|]; [done|]. apply (Hund True); auto.
  - unfold run_set. pose proof (raises_parse_pps o True I (br_init payload) o (wf_init _) (conj (conj Ho eq_refl) (conj eq_refl eq_refl))) as H.
    destruct (parse_pps _) as [[[r o'] [[]|e]]|]; ostep; cbv beta iota; [by destruct H as (_ & ? & _)|by destruct H as (_ & [? _] & ?)|apply (Hund True); auto].
  - destruct (is_slice_type (nal_type_at b0 b1)) eqn:Es; [|by split; [split|]].
    pose proof (slice_safe (nal_type_at b0 b1) (Z.land (Z.lor (Z.shiftl b0 8) b1) 0x07) payload o st Hb Ho Hst) as H.
    match goal with |- match ?x with _ => _ end => change x with (('(br, o', r) ← parse_slice_header (nal_type_at b0 b1) (br_init payload, o);
      match r with inl _ => finish_slice (nal_type_at b0 b1) (Z.land (Z.lor (Z.shiftl b0 8) b1) 0x07) payload br o' st | inr e => Some (o', inr e) end) : Unit) end.
    revert H. destruct (_ : Unit) as [[o' r]|]; [done|]. intros H. apply (Hund _ (fun h => or_intror (or_intror (conj eq_refl h))) H).
Qed.

Lemma hevc_unit_safe buf size o : Forall is_byte buf -> bounded o -> int_prev (prev o) ->
  match H265ParseAccessUnit buf size o with
  | None => exists rbsp, unit_in buf rbsp /\ undefined_unit rbsp
  | Some (o', e) => bounded o' /\
      (e = H265_PARSE_OK /\ has_slice o' = true /\ valid_sps o' (active_sps_id o') /\ valid_pps o' (active_pps_id o') /\ int_prev (prev o') \/
       is_status e /\ prev o' = prev o)
  end.
Proof.
  intros Hb Ho Hst. unfold H265ParseAccessUnit. cbv zeta. set (o0 := reset_unit o).
  assert (bounded o0) as H0 by (destruct Ho; constructor; first [assumption | apply header_zero | exact (Forall_nil_2 _) | done]).
  assert (forall bytes o1 st, Forall is_byte bytes -> staged o0 o1 -> int_prev st -> match parse_unit bytes o1 st with
    | None => undefined_unit bytes | Some (o', r) => staged o0 o' /\ match r with inl st' => int_prev st' | inr e => is_status e end end) as Hu.
  { intros bytes o1 st Hby [Hb1 Hp1] Hst1. pose proof (hevc_nal_safe bytes o1 st Hby Hb1 Hst1) as H. destruct (parse_unit bytes o1 st) as [[o2 r]|]; [|done].
    destruct H as [[H1 H2] H3]. split; [split; [done|congruence]|done]. }
  pose proof (nal_loop_keeps parse_unit (staged o0) int_prev undefined_unit Hu buf size Hb (S (length buf)) 0 0 o0 (prev o) (conj H0 eq_refl) Hst ltac:(lia)) as H. change (prev o0) with (prev o).
  destruct (nal_loop _ _ _ _ _ _ _ _) as [[o' [st|e]]|]; ostep; cbv beta iota; [| |done]; destruct H as [[Ho' Hp'] Hr].
  - destruct (has_slice o') eqn:Es; cbn [negb].
    + destruct (b_sliced _ Ho' Es) as [A1 A2]. split; [by destruct Ho'; constructor|]. left.
      assert (valid_sps o' (active_sps_id o')) as V1 by (destruct (b_active_sps _ Ho') as [E|[_ H]]; [lia|exact H]).
      assert (valid_pps o' (active_pps_id o')) as V2 by (destruct (b_active_pps _ Ho') as [E|[_ H]]; [lia|exact H]).
      exact (conj eq_refl (conj Es (conj V1 (conj V2 Hr)))).
    + split; [done|]. right. split; [|exact Hp']. destruct (_ || _); by split.
  - split; [done|]. right. by split.
Qed.
Lemma bounded_init : bounded H265ParseResultInit.
Proof.
  constructor; try done.
  - intros i s [-> _]%lookup_replicate Hv. by destruct Hv.
  - intros i p [-> _]%lookup_replicate Hv. by destruct Hv.
  - apply header_zero.
  - by left.
  - by left.
Qed.
