(* ===== verification/H265Props.v ===== *)
(** * Properties of the HEVC parser *)

From Stdlib Require Import Sorting.Sorted.
From S2P Require Import Prelude Bits ByteStream Rbsp RbspFacts H265Parser H265Syntax H265ParserFacts H265SliceFacts H265Unit H265Safe.

(** C8: The parameter sets and the slice segment header are read back from their syntax
    (7.3.2.1, 7.3.2.2, 7.3.2.3, 7.3.6).  A written VPS, an SPS with its scaling lists
    and its reference picture sets, direct or predicted from one another, a PPS with
    tiles, and the header of a segment, dependent or not, are parsed without error; their
    bits are consumed exactly, to the alignment of the slice data, and the result changes
    in exactly the fields the syntax gives. *)
Theorem h265_headers_roundtrip (o : H265ParseResult) (yvps : vps_syntax) (ysps : sps_syntax) (sets : list H265ShortTermRPS)
    (ypps : pps_syntax) (z : slice_syntax) (nut : Z) (s : H265Sps) (p : H265Pps) (rest : list bool) :
  length (vps o) = 16%nat -> vps_ok yvps -> sps_ok ysps (y_sps ysps) sets -> pps_ok ypps (y_pps ypps) -> sets_ok s p -> slice_ok nut s p z ->
  sps o !! Z.to_nat (pps_sps_id (y_pps ypps)) = Some s -> sps_valid s = 1 ->
  pps o !! Z.to_nat (z_pps_id z) = Some p -> pps_valid p = 1 -> sps o !! Z.to_nat (pps_sps_id p) = Some s ->
  (forall d, to_bits d = vps_bits yvps ++ rest ->
     parse_vps (br_init d, o) = Some (reader_at d rest, o <| vps ::= <[Z.to_nat (vps_id (y_vps yvps)) := y_vps yvps]> |>, inl tt)) /\
  (forall d, to_bits d = sps_bits ysps ++ rest ->
     parse_sps (br_init d, o) = Some (reader_at d rest, with_sps o (y_sps ysps), inl tt)) /\
  (forall d, to_bits d = pps_bits ypps ++ rest ->
     parse_pps (br_init d, o) = Some (reader_at d rest, with_pps o (y_pps ypps), inl tt)) /\
  (forall d, to_bits d = slice_bits nut s p z ++ rest ->
     parse_slice_header nut (br_init d, o) =
       Some (reader_at d rest, base_of nut p z o <| slice := header_of nut s p z (u32 (Z.of_nat (length (slice_bits nut s p z)))) |>, inl tt)).
Proof.
  intros Hl Hvps Hsps Hpps Hsets Hz Hs Hsv Hp Hpv Hps. split_and!; intros d Hd.
  - exact (run_payload _ _ _ _ _ _ _ (parses_vps yvps rest o Hvps Hl) Hd).
  - exact (run_payload _ _ _ _ _ _ _ (hevc_parses_sps ysps _ sets rest o Hsps) Hd).
  - exact (run_payload _ _ _ _ _ _ _ (hevc_parses_pps ypps _ s rest o Hpps Hs Hsv) Hd).
  - exact (slice_read nut s p z Hsets Hz d o rest Hd Hp Hpv Hps Hsv).
Qed.

(** A 1080p stream with a written scaling list, three sets and a P slice. *)
Definition sample_ptl : H265Ptl := MkPtl 0 0 1 (0 :: 1 :: 1 :: replicate 29 0) 1 0 0 1 120.
Definition sample_rest : ptl_rest := MkPtlRest (0, 0, 0) [].
Definition sample_vps : vps_syntax :=
  MkVpsSyntax (MkVps 1 0 0 0 1 sample_ptl 1 (place 0 [4]) (place 0 [2]) (place 0 [0])) sample_rest [(4, 2, 0)] (3, 65535) 0 [[true]; [false]]
    (Some (1001, 60000, Some 0)).
Definition sample_matrices : list matrix_syntax :=
  WrittenList 8 [16; 16; 17; 18; 20; 24; 28; 32; 40; 48; 56; 64; 72; 80; 96; 112] :: CopiedList 1 :: replicate 18 (CopiedList 0).
Definition sample_lists : H265ScalingList := default zero_scaling (matrices_effect matrix_ids sample_matrices scaling_list_set_default).
(** Distances -1, -3 and 4; those moved by -1 with the third dropped; a set of its own. *)
Definition sample_sets : list rps_syntax :=
  [DirectSet [(0, 1); (1, 1)] [(3, 0)]; PredictedSet 0 1 0 [(1, 1); (0, 1); (0, 0); (1, 1)]; DirectSet [(0, 1)] []].
Definition sample_rps : list H265ShortTermRPS :=
  [rps_of 0 [(-1, 1); (-3, 1)] [(4, 0)]; rps_of 1 [(-1, 1); (-2, 1); (-4, 0)] []; rps_of 0 [(-1, 1)] []].
Definition sample_sps : H265Sps :=
  MkSps 1 0 0 1 sample_ptl 0 1 0 1920 1080 1 0 0 0 4 0 0 4 1 (place 0 [4]) (place 0 [2]) (place 0 [0]) 0 3 0 3 1 1
    1 1 sample_lists 1 1 0 0 0 0 0 0 3 (pad_sets sample_rps) 0 0 no_long_term no_long_term 1 1 6 64 30 17.
Definition sample_sps_syntax : sps_syntax := MkSpsSyntax sample_sps sample_rest [(4, 2, 0)] sample_matrices sample_sets [].
Definition sample_pps : H265Pps :=
  MkPps 1 0 0 1 0 0 0 1 1 0 (-2) 0 0 1 1 0 0 1 1 0 0 1 0 1 1 0 1 1 1 1 0 2 (-2) 0 zero_scaling 1 0 1.
Definition sample_pps_syntax : pps_syntax := MkPpsSyntax sample_pps [14] [8] [].
Definition sample_slice : slice_syntax :=
  MkSliceSyntax true false 0 false 0 [] H265_SLICE_TYPE_P false 0 9 (SpsSet 1) true true false (Some (1, 0)) (Some [1; 0]) None
    false true true 1 (5, 1) [(Some (3, -2), None); (None, Some (1, 2, 3, 4))] [] 2 (-4) 1 (-1) (Some (false, 1, 2)) true 11 [1500; 900] [7; 8].

Ltac oks := repeat match goal with
  | |- _ /\ _ => split
  | |- forall _, _ => intros ?
  | |- absent _ _ => vm_compute; repeat constructor
  | |- True => exact I
  | |- if ?b then _ else _ => let v := eval vm_compute in b in change b with v; cbv iota
  | |- Forall _ [] => constructor
  | |- Forall _ (_ :: _) => constructor
  | |- Forall ?P ?l => let k := eval hnf in l in progress change (Forall P k)
  end; try (unfold H265_MAX_REFS, flag_ok, bits_ok, ue_ok, se_ok, offset_ok; cbn; lia); try reflexivity; try done.
Lemma sample_ptl_ok : ptl_ok 0 sample_ptl sample_rest.
Proof.
  unfold ptl_ok. cbn [sample_ptl profile_compatibility_flag y_sub_layers sample_rest]. oks.
Qed.
Lemma sample_vps_ok : vps_ok sample_vps.
Proof. unfold vps_ok, ordering_ok. cbn [sample_vps y_vps y_vps_ptl]. oks; apply sample_ptl_ok. Qed.
Lemma sample_matrices_ok : lists_denote sample_matrices sample_lists.
Proof.
  split; [done|]. split; [|vm_compute; reflexivity]. unfold sample_matrices, matrix_ids.
  repeat (constructor; [cbn [matrix_ok fst snd mat_step Nat.eqb]; oks|]). constructor.
Qed.
Lemma sample_sets_denote : sets_denote 3 [] sample_sets sample_rps.
Proof.
  unfold sample_sets. cbn [sets_denote].
  do 3 (split; [cbn [rps_ok length app]; oks|match goal with |- match ?x with _ => _ end => let v := eval vm_compute in x in change x with v end; cbv iota; cbn [app]]).
  vm_compute. reflexivity.
Qed.
Lemma sample_hevc_sps_ok : sps_ok sample_sps_syntax sample_sps sample_rps.
Proof.
  constructor; unfold ordering_ok; cbn [sample_sps_syntax y_sps y_sps_ptl y_sps_info y_sps_lists y_sets y_long_term].
  all: match goal with |- ptl_ok _ _ _ => exact sample_ptl_ok | |- sets_denote _ _ _ _ => exact sample_sets_denote | |- _ => oks end.
  exact sample_matrices_ok.
Qed.
Lemma sample_hevc_pps_ok : pps_ok sample_pps_syntax sample_pps.
Proof. constructor; cbn [sample_pps_syntax y_pps y_widths y_heights y_pps_lists]; oks. Qed.
Lemma sample_hevc_sets_ok : sets_ok sample_sps sample_pps.
Proof. unfold sets_ok. oks. Qed.
Lemma sample_hevc_slice_ok : slice_ok 1 sample_sps sample_pps sample_slice.
Proof. constructor; try solve [oks]; [vm_compute; lia|unfold entries_ok; vm_compute z_entries0; cbn [opt_ok from_option]; oks]. Qed.

Definition sample_start : H265ParseResult := with_pps (with_sps H265ParseResultInit sample_sps) sample_pps.
Lemma h265_headers_roundtrip_witness : exists r o,
  parse_sps (br_init (rbsp (sps_bits sample_sps_syntax)), sample_start) = Some (r, o, inl tt)  /\
  (pic_width_in_ctbs_y <$> (sps o !! 0%nat)) = Some 30 /\
  ((fun s => map delta_poc (take 2 (st_rps s))) <$> (sps o !! 0%nat)) = Some [pad 16 [-1; -3; 4]; pad 16 [-1; -2; -4]].
Proof.
  destruct (h265_headers_roundtrip sample_start sample_vps sample_sps_syntax sample_rps sample_pps_syntax sample_slice 1 sample_sps sample_pps
    (true :: replicate (7 - length (sps_bits sample_sps_syntax) mod 8) false)) as (_ & H & _).
  - reflexivity.
  - exact sample_vps_ok.
  - exact sample_hevc_sps_ok.
  - exact sample_hevc_pps_ok.
  - exact sample_hevc_sets_ok.
  - exact sample_hevc_slice_ok.
  - reflexivity.
  - reflexivity.
  - reflexivity.
  - reflexivity.
  - reflexivity.
  - eexists _, _. split; [exact (H _ (rbsp_bits _))|]. split; vm_compute; reflexivity.
Defined.

(** C19: The short-term reference picture sets are those of the syntax (7.4.8).  A set
    written directly, whose distances stay within 16 bits, is read as its negative
    distances, the nearest first, then its positive ones, in strict order.  A set predicted
    from a set in order is read as exactly the entries of that set, and the picture of the
    set itself, moved by the delta, that are flagged and do not fall on the current picture:
    the four loops that reverse and merge the halves amount to one filter in ascending
    order, and what they build is again a set in strict order, fit to be predicted from. *)
Theorem h265_rps_exact (prevs : list H265ShortTermRPS) (idx num : Z) (rest : list bool) (bytes : list Z) :
  0 <= idx <= 64 ->
  (forall negs poss, rps_ok prevs idx num (DirectSet negs poss) -> reach negs < 2 ^ 15 -> reach poss < 2 ^ 15 ->
     to_bits bytes = rps_bits idx num (DirectSet negs poss) ++ rest ->
     exists r, canonical r /\ num_negative_pics r = Z.of_nat (length negs) /\ num_positive_pics r = Z.of_nat (length poss)  /\
       parse_st_rps (fun _ => mret tt) prevs idx num (br_init bytes, tt) = Some (reader_at bytes rest, tt, inl r)) /\
  (forall d sign abs flags ref, rps_ok prevs idx num (PredictedSet d sign abs flags) ->
     prevs !! Z.to_nat (idx - (d + 1)) = Some ref -> canonical ref ->
     Forall (fun x => fits16 (x + delta_of sign abs)) (distances ref) ->
     (length (kept nonzero (delta_of sign abs) (ascending ref flags)) <= 16)%nat ->
     to_bits bytes = rps_bits idx num (PredictedSet d sign abs flags) ++ rest ->
     exists negs poss, rev negs ++ poss = kept nonzero (delta_of sign abs) (ascending ref flags) /\ canonical (rps_of 1 negs poss)  /\
       parse_st_rps (fun _ => mret tt) prevs idx num (br_init bytes, tt) = Some (reader_at bytes rest, tt, inl (rps_of 1 negs poss))).
Proof.
  intros Hi. assert (forall y r, rps_ok prevs idx num y -> set_of prevs idx y = Some r -> to_bits bytes = rps_bits idx num y ++ rest ->
    parse_st_rps (fun _ => mret tt) prevs idx num (br_init bytes, tt) = Some (reader_at bytes rest, tt, inl r)) as Hrun.
  { intros y r Hy Hr Hd. refine (run_payload _ _ _ _ _ _ _ (parses_st_rps (fun _ => mret tt) (fun _ t => t) prevs idx num y r rest tt _ _ Hi Hy Hr) Hd);
      [intros; apply rb_parses_ret|done]. }
  split.
  - intros negs poss Hok Rn Rp Hd. exists (rps_of 0 (run_of (-1) 0 negs) (run_of 1 0 poss)). destruct Hok as (Hl & Hn & Hp). split_and!.
    + apply direct_canonical; [done|..|done|done]; (eapply Forall_impl; [eassumption|]); cbn; lia.
    + cbn. by rewrite length_run_of.
    + cbn. by rewrite length_run_of.
    + by apply (Hrun (DirectSet negs poss)).
  - intros d sign abs flags ref Hok Href Hc Hf Hl Hd. pose proof Hok as (_ & _ & _ & _ & _ & Hn). rewrite Href in Hn.
    destruct (predict_kept ref flags (delta_of sign abs) Hc ltac:(lia) Hf) as (negs & poss & E & Ek & H16).
    assert (length negs + length poss <= 16)%nat as Hlen by (rewrite <- Ek, length_app, length_rev in Hl; lia).
    exists negs, poss. split; [done|]. split; [by apply H16|]. eapply Hrun; [exact Hok| |exact Hd]. cbn [set_of]. rewrite Href. ostep. rewrite E. ostep.
    unfold H265_MAX_REFS. by rewrite (proj2 (Nat.leb_le _ _)).
Qed.

(** The second set of the sample stream, predicted from the first. *)
Definition sample_flags : list (Z * Z) := [(1, 1); (0, 1); (0, 0); (1, 1)].
Definition sample_set_bytes : list Z := rbsp (rps_bits 1 3 (PredictedSet 0 1 0 sample_flags)).
Lemma h265_rps_exact_witness :
  kept nonzero (-1) (ascending (rps_of 0 [(-1, 1); (-3, 1)] [(4, 0)]) sample_flags) = [(-4, 0); (-2, 1); (-1, 1)]  /\
  exists negs poss, rev negs ++ poss = [(-4, 0); (-2, 1); (-1, 1)] /\ canonical (rps_of 1 negs poss).
Proof.
  split; [reflexivity|].
  destruct (h265_rps_exact [rps_of 0 [(-1, 1); (-3, 1)] [(4, 0)]] 1 3
    (true :: replicate (7 - length (rps_bits 1 3 (PredictedSet 0 1 0 sample_flags)) mod 8) false) sample_set_bytes ltac:(lia)) as [_ H].
  destruct (H 0 1 0 sample_flags (rps_of 0 [(-1, 1); (-3, 1)] [(4, 0)])) as (negs & poss & E & Hc & _).
  - unfold sample_flags. cbn [rps_ok length app]. oks.
  - reflexivity.
  - apply (canonical_halves 0 [(-1, 1); (-3, 1)] [(4, 0)]); cbn; repeat constructor; cbn; lia.
  - unfold distances, fits16. cbn. oks.
  - apply Nat.leb_le. vm_compute. reflexivity.
  - apply rbsp_bits.
  - exists negs, poss. split; [rewrite E; reflexivity|exact Hc].
Defined.






