(* ===== verification/BitPack.v ===== *)
(** * The bit packer of the hardware tables (struct BitPacker of mft/h264_packed_tables.cpp
    and mft/h265_packed_tables.cpp)

    Fields are written from the least significant bit of a buffer of 64-bit words on, a
    field possibly across two words; what does not fit is dropped.  The two files hold a
    copy each; the one of H.265 has [skip] and a fill for [align] in addition.  [le_num] is
    the buffer as the hardware reads it: the bytes of a little-endian number, of which
    [field] takes a bit field. *)

From S2P Require Import Prelude Bits.

(** [words] has the capacity of the buffer, [cap_u64]. *)
Record BitPacker := MkPacker { words : list Z; word_idx : nat; bit_in_word : Z }.
#[export] Instance eta_packer : Eta BitPacker := fun b => MkPacker (words b) (word_idx b) (bit_in_word b).

Definition packer_init (cap_u64 : nat) : BitPacker := MkPacker (replicate cap_u64 0) 0 0.

Definition low_mask (nbits : Z) : Z := if nbits =? 64 then u64 (-1) else u64 (Z.shiftl 1 nbits - 1).
(** [data[i] |= v << shift], on 64 bits. *)
Definition or_word (i : nat) (v shift : Z) (bp : BitPacker) : BitPacker :=
  bp <| words ::= alter (fun w => Z.lor w (u64 (Z.shiftl v shift))) i |>.

Definition put (value nbits : Z) (bp : BitPacker) : BitPacker :=
  if nbits =? 0 then bp else
  let v := Z.land value (low_mask nbits) in
  let cap_u64 := length (words bp) in
  if (cap_u64 <=? word_idx bp)%nat then bp else
  if bit_in_word bp + nbits <=? 64 then
    let bp := or_word (word_idx bp) v (bit_in_word bp) bp in
    let bp := bp <| bit_in_word ::= Z.add nbits |> in
    if bit_in_word bp =? 64 then bp <| word_idx ::= S |> <| bit_in_word := 0 |> else bp
  else
    let low_bits := 64 - bit_in_word bp in
    let bp := or_word (word_idx bp) (Z.land v (low_mask low_bits)) (bit_in_word bp) bp in
    let bp := bp <| word_idx ::= S |> in
    let bp := if (word_idx bp <? cap_u64)%nat then or_word (word_idx bp) (Z.shiftr v low_bits) 0 bp else bp in
    bp <| bit_in_word := nbits - low_bits |>.

Definition total_bits (bp : BitPacker) : Z := 64 * Z.of_nat (word_idx bp) + bit_in_word bp.

Definition packer_skip (nbits : Z) (bp : BitPacker) : BitPacker :=
  if nbits =? 0 then bp else
  let total := total_bits bp + nbits in
  let i := Z.to_nat (total / 64) in
  let cap_u64 := length (words bp) in
  bp <| bit_in_word := Z.land total 63 |> <| word_idx := if (cap_u64 <? i)%nat then cap_u64 else i |>.

(** [while (pad > 0)]: chunks of at most 32 bits. *)
Fixpoint pad_loop (fuel : nat) (pattern pad : Z) (bp : BitPacker) : BitPacker :=
  match fuel with
  | O => bp
  | S fuel =>
      if pad <=? 0 then bp else
      let chunk := if 32 <? pad then 32 else pad in
      pad_loop fuel pattern (pad - chunk) (put pattern chunk bp)
  end.
Definition align (n_bits : Z) (fill : bool) (bp : BitPacker) : BitPacker :=
  let total := total_bits bp in
  let aligned := Z.land (total + n_bits - 1) (Z.lnot (n_bits - 1)) in
  pad_loop (Z.to_nat (aligned - total)) (if fill then u64 (-1) else 0) (aligned - total) bp.

(** A sequence of [put]s. *)
Definition puts (l : list (Z * Z)) (bp : BitPacker) : BitPacker := foldl (fun bp x => put x.1 x.2 bp) bp l.

(** ** Memory *)

(** The [memcpy] of the words to bytes, on a little-endian host. *)
Definition word_bytes (w : Z) : list Z := map (fun k => Z.land (Z.shiftr w (8 * k)) 0xff) [0; 1; 2; 3; 4; 5; 6; 7].
Definition bytes_of (bp : BitPacker) : list Z := flat_map word_bytes (words bp).

(** The number a buffer of bytes is to a little-endian reader, and a field of it. *)
Fixpoint le_num (l : list Z) : Z := match l with [] => 0 | b :: l => b + 256 * le_num l end.
Definition field (buf : list Z) (at_bit width : Z) : Z := Z.land (Z.shiftr (le_num buf) at_bit) (Z.ones width).
(** A run of fields of the given widths. *)
Fixpoint fields_from (buf : list Z) (at_bit : Z) (widths : list Z) : list Z :=
  match widths with [] => [] | w :: l => field buf at_bit w :: fields_from buf (at_bit + w) l end.

(** [memcpy(out + off, l, ...)], and one behind the other. *)
Definition overlay (off : nat) (l out : list Z) : list Z := take off out ++ l ++ drop (off + length l) out.
Fixpoint overlays (off : nat) (ls : list (list Z)) (out : list Z) : list Z :=
  match ls with [] => out | l :: ls => overlays (off + length l) ls (overlay off l out) end.

(** * The bit packer writes its fields one behind the other

    [pack] is the number whose bits are the fields in order.  A packer in state [packed]
    holds the fields put so far, up to its capacity ([packed_put], [packed_skip],
    [packed_align]); the fields are read back at the sum of the widths before them
    ([fields_packed]). *)

(** ** Fields as a number *)

Fixpoint pack (l : list (Z * Z)) : Z := match l with [] => 0 | (v, w) :: l => v mod 2 ^ w + 2 ^ w * pack l end.
Fixpoint width (l : list (Z * Z)) : Z := match l with [] => 0 | (_, w) :: l => w + width l end.
Definition widths_ok (l : list (Z * Z)) : Prop := Forall (fun x => 0 <= x.2) l.

Lemma width_nonneg l : widths_ok l -> 0 <= width l.
Proof. induction 1 as [|[v w] l Hw _ IH]; cbn [width snd] in *; lia. Qed.
Lemma width_app l k : width (l ++ k) = width l + width k.
Proof. induction l as [|[v w] l IH]; [done|]. cbn [width app]. lia. Qed.
Lemma pack_app l k : widths_ok l -> pack (l ++ k) = pack l + 2 ^ width l * pack k.
Proof.
  induction 1 as [|[v w] l Hw Hl IH]; cbn [app pack width snd] in *; [lia|]. rewrite IH, Z.pow_add_r by (done || by apply width_nonneg). ring.
Qed.
Lemma pack_range l : widths_ok l -> 0 <= pack l < 2 ^ width l.
Proof.
  induction 1 as [|[v w] l Hw Hl IH]; cbn [pack width snd] in *; [lia|]. rewrite Z.pow_add_r by (done || by apply width_nonneg).
  pose proof (Z.mod_pos_bound v (2 ^ w) (Z.pow_pos_nonneg 2 w ltac:(lia) Hw)). nia.
Qed.
Lemma pack_snoc l v w : widths_ok l -> pack (l ++ [(v, w)]) = pack l + 2 ^ width l * (v mod 2 ^ w).
Proof. intros Hl. rewrite pack_app by done. cbn [pack]. ring. Qed.
Lemma widths_snoc l v w : widths_ok l -> 0 <= w -> widths_ok (l ++ [(v, w)]).
Proof. intros Hl Hw. apply Forall_app. split; [done|]. by repeat constructor. Qed.

(** ** Words as a number *)

Fixpoint num (ws : list Z) : Z := match ws with [] => 0 | w :: ws => w + 2 ^ 64 * num ws end.
Definition words_ok (ws : list Z) : Prop := Forall (fun w => 0 <= w < 2 ^ 64) ws.

Lemma pow_words i : 2 ^ (64 * Z.of_nat (S i)) = 2 ^ 64 * 2 ^ (64 * Z.of_nat i).
Proof. rewrite <- Z.pow_add_r by lia. f_equal. lia. Qed.
Lemma num_range ws : words_ok ws -> 0 <= num ws < 2 ^ (64 * Z.of_nat (length ws)).
Proof. induction 1 as [|w ws Hw _ IH]; cbn [num length]; [lia|]. rewrite pow_words. nia. Qed.
Lemma num_alter ws f : forall i x, ws !! i = Some x -> num (alter f i ws) = num ws + (f x - x) * 2 ^ (64 * Z.of_nat i).
Proof.
  induction ws as [|w ws IH]; intros [|i] x H; [done|done| |].
  - injection H as ->. cbn [alter list_alter num]. change (2 ^ (64 * Z.of_nat 0)) with 1. lia.
  - cbn [alter list_alter num]. fold (alter f i ws). change (list_alter f i ws) with (alter f i ws). rewrite (IH i x H), pow_words. ring.
Qed.
(** Nothing is set from bit [p] on: the word of [p] is below, the next ones are zero. *)
Lemma num_below ws : words_ok ws -> forall i b x, ws !! i = Some x -> 0 <= b -> num ws < 2 ^ (64 * Z.of_nat i + b) -> x < 2 ^ b.
Proof.
  induction 1 as [|w ws Hw Hws IH]; intros [|i] b x H Hb Hn; [done|done| |].
  - injection H as ->. cbn [num] in Hn. pose proof (num_range ws Hws). change (64 * Z.of_nat 0 + b) with b in Hn. lia.
  - apply (IH i b x H Hb). cbn [num] in Hn. rewrite Z.pow_add_r, pow_words, <- Z.mul_assoc, <- Z.pow_add_r in Hn by lia. nia.
Qed.

Lemma lor_shift x v b : 0 <= b -> 0 <= x < 2 ^ b -> Z.lor x (Z.shiftl v b) = x + v * 2 ^ b.
Proof. intros Hb Hx. rewrite Z.shiftl_mul_pow2, Z.lor_comm, lor_high_low by done. lia. Qed.
Lemma low_mask_mod v n : 0 <= n <= 64 -> Z.land v (low_mask n) = v mod 2 ^ n.
Proof.
  intros Hn. rewrite <- Z.land_ones by lia. f_equal. unfold low_mask, u64. destruct (Z.eqb_spec n 64) as [->|]; [done|].
  rewrite Z.shiftl_1_l, Z.ones_equiv, <- Z.sub_1_r, Z.mod_small; [done|].
  pose proof (Z.pow_pos_nonneg 2 n). pose proof (Z.pow_le_mono_r 2 n 63). lia.
Qed.

(** ** The state of the packer *)
Section packed.
Context (cap : nat).

Record packed (bp : BitPacker) (l : list (Z * Z)) : Prop := {
  pk_len : length (words bp) = cap; pk_words : words_ok (words bp); pk_widths : widths_ok l; pk_bit : 0 <= bit_in_word bp < 64;
  pk_num : num (words bp) = pack l mod 2 ^ (64 * Z.of_nat cap);
  pk_pos : if width l <? 64 * Z.of_nat cap then total_bits bp = width l else (cap <= word_idx bp)%nat }.

Lemma packed_init : packed (packer_init cap) [].
Proof.
  constructor; cbn.
  - by rewrite length_replicate.
  - by apply Forall_replicate.
  - constructor.
  - lia.
  - rewrite Z.mod_0_l by (pose proof (Z.pow_pos_nonneg 2 (64 * Z.of_nat cap)); lia). induction cap; cbn; lia.
  - case_bool; unfold total_bits; cbn; lia.
Qed.

(** What is in the buffer when there is room: exactly the fields. *)
Lemma packed_num bp l : packed bp l -> width l <= 64 * Z.of_nat cap -> num (words bp) = pack l.
Proof.
  intros H Hw. rewrite (pk_num _ _ H). apply Z.mod_small. pose proof (pack_range l (pk_widths _ _ H)).
  pose proof (Z.pow_le_mono_r 2 (width l) (64 * Z.of_nat cap)). lia.
Qed.

(** One word changed below its top. *)
Lemma or_words ws i x v b k : words_ok ws -> ws !! i = Some x -> 0 <= b -> 0 <= k -> b + k <= 64 -> 0 <= v < 2 ^ k ->
  num ws < 2 ^ (64 * Z.of_nat i + b) ->
  let ws' := alter (fun w => Z.lor w (u64 (Z.shiftl v b))) i ws in
  num ws' = num ws + v * 2 ^ (64 * Z.of_nat i + b) /\ words_ok ws'.
Proof.
  intros Hws Hx Hb Hk Hbk Hv Hn ws'. pose proof (num_below ws Hws i b x Hx Hb Hn) as Hxb.
  assert (0 <= x < 2 ^ 64) as Hx64 by (eapply Forall_lookup_1 in Hx; [exact Hx|exact Hws]).
  assert (0 <= v * 2 ^ b < 2 ^ (b + k)) as Hvb by (rewrite Z.pow_add_r by lia; pose proof (Z.pow_pos_nonneg 2 b); nia).
  pose proof (Z.pow_le_mono_r 2 (b + k) 64).
  assert (Z.lor x (u64 (Z.shiftl v b)) = x + v * 2 ^ b) as E.
  { rewrite u64_small by (rewrite Z.shiftl_mul_pow2; lia). apply lor_shift; lia. }
  split.
  - unfold ws'. rewrite (num_alter _ _ i x Hx), E, Z.pow_add_r by lia. ring.
  - unfold ws'. apply Forall_alter; [done|]. intros y Hy _. rewrite Hx in Hy. injection Hy as <-. rewrite E.
    assert (x + v * 2 ^ b < 2 ^ (b + k)) by (rewrite Z.pow_add_r in * by lia; nia). lia.
Qed.

Lemma mod_pow_add a v p q : 0 <= q <= p -> (a + 2 ^ p * v) mod 2 ^ q = a mod 2 ^ q.
Proof.
  intros H. replace p with (p - q + q) by lia. rewrite Z.pow_add_r by lia.
  replace (a + 2 ^ (p - q) * 2 ^ q * v) with (a + 2 ^ (p - q) * v * 2 ^ q) by ring. apply Z.mod_add.
  pose proof (Z.pow_pos_nonneg 2 q). lia.
Qed.

Lemma packed_put bp l v n : packed bp l -> 0 <= n <= 64 -> packed (put v n bp) (l ++ [(v, n)]).
Proof.
  intros H Hn. pose proof (pk_widths _ _ H) as Hwd. pose proof (widths_snoc l v n Hwd ltac:(lia)) as Hwd'. pose proof (width_nonneg l Hwd) as Hw0.
  pose proof (pk_bit _ _ H) as Hbit. pose proof (pk_pos _ _ H) as Hpos. pose proof (pk_len _ _ H) as Hlen.
  assert (width (l ++ [(v, n)]) = width l + n) as Ew by (rewrite width_app; cbn; lia).
  assert (0 < 2 ^ n) as H2n by (apply Z.pow_pos_nonneg; lia).
  unfold put. destruct (Z.eqb_spec n 0) as [->|Hn0].
  { constructor; try assumption; try apply H.
    - by rewrite pack_snoc, (pk_num _ _ H), Z.mod_1_r, Z.mul_0_r, Z.add_0_r by done.
    - by rewrite Ew, Z.add_0_r. }
  rewrite low_mask_mod by lia. set (u := v mod 2 ^ n). pose proof (Z.mod_pos_bound v (2 ^ n) H2n) as Hu. fold u in Hu.
  pose proof (pack_snoc l v n Hwd) as Epk. fold u in Epk. pose proof (pack_range _ Hwd') as Hpk. rewrite Epk, Ew in Hpk.
  cbv zeta. rewrite Hlen. destruct (Nat.leb_spec cap (word_idx bp)) as [Hfull|Hroom].
  { assert (64 * Z.of_nat cap <= width l) as Hge.
    { destruct (Z.ltb_spec (width l) (64 * Z.of_nat cap)); [|done]. unfold total_bits in Hpos. lia. }
    constructor; try assumption; try apply H.
    - rewrite pack_snoc, mod_pow_add by (done || lia). apply H.
    - rewrite Ew. case_bool; lia. }
  destruct (Z.ltb_spec (width l) (64 * Z.of_nat cap)) as [Hlt|]; [|lia].
  destruct (lookup_lt_is_Some_2 (words bp) (word_idx bp)) as [x Hx]; [lia|].
  pose proof (packed_num bp l H ltac:(lia)) as En. pose proof (pack_range l Hwd) as Hr. rewrite <- Hpos, <- En in Hr. unfold total_bits in Hpos, Hr.
  destruct (Z.leb_spec (bit_in_word bp + n) 64) as [Hfit|Hsplit].
  - destruct (or_words (words bp) (word_idx bp) x u (bit_in_word bp) n) as [E Hok]; try lia; [apply H|done|].
    unfold or_word. cbn [set_field words word_idx bit_in_word].
    set (ws := alter _ _ _) in *. assert (length ws = cap) as Hl by (unfold ws; by rewrite length_alter).
    assert (num ws = pack (l ++ [(v, n)]) mod 2 ^ (64 * Z.of_nat cap)) as Enum.
    { rewrite E, Epk, Hpos, En, (Z.mul_comm u) by done. symmetry. apply Z.mod_small.
      pose proof (Z.pow_le_mono_r 2 (width l + n) (64 * Z.of_nat cap)). lia. }
    destruct (Z.eqb_spec (n + bit_in_word bp) 64); (constructor; cbn [set_field words word_idx bit_in_word]; try assumption; try lia);
      rewrite Ew; case_bool; unfold total_bits; cbn [set_field words word_idx bit_in_word]; lia.
  - set (low := 64 - bit_in_word bp) in *. rewrite low_mask_mod by lia.
    assert (0 < 2 ^ low) as H2l by (apply Z.pow_pos_nonneg; lia). pose proof (Z.mod_pos_bound u (2 ^ low) H2l) as Hul.
    destruct (or_words (words bp) (word_idx bp) x (u mod 2 ^ low) (bit_in_word bp) low) as [E Hok]; try lia; [apply H|done|].
    unfold or_word. cbn [set_field words word_idx bit_in_word]. set (ws := alter _ _ (words bp)) in *.
    assert (length ws = cap) as Hl by (unfold ws; by rewrite length_alter).
    assert (u = u mod 2 ^ low + 2 ^ low * (u / 2 ^ low)) as Eu by (rewrite Z.add_comm; by apply Z.div_mod; lia).
    pose proof (Z.shiftr_div_pow2 u low ltac:(lia)) as Es.
    destruct (Nat.ltb_spec (S (word_idx bp)) cap) as [Hnext|Hlast].
    + destruct (lookup_lt_is_Some_2 ws (S (word_idx bp))) as [y Hy]; [lia|].
      assert (0 <= u / 2 ^ low < 2 ^ (n - low)) as Huh.
      { split; [apply Z.div_pos; lia|]. apply Z.div_lt_upper_bound; [lia|]. rewrite <- Z.pow_add_r by lia. replace (low + (n - low)) with n by lia. lia. }
      destruct (or_words ws (S (word_idx bp)) y (Z.shiftr u low) 0 (n - low)) as [E2 Hok2]; try lia; [done|done|rewrite E, Z.add_0_r|].
      { replace (64 * Z.of_nat (S (word_idx bp))) with (64 * Z.of_nat (word_idx bp) + bit_in_word bp + low) by lia. rewrite (Z.pow_add_r 2 _ low) by lia. nia. }
      cbn [set_field words word_idx bit_in_word]. set (ws2 := alter _ _ ws) in *. assert (length ws2 = cap) as Hl2 by (unfold ws2; by rewrite length_alter).
      constructor; cbn [set_field words word_idx bit_in_word]; try assumption; try lia.
      * change (num ws2 = pack (l ++ [(v, n)]) mod 2 ^ (64 * Z.of_nat cap)). rewrite E2, E, Es, Epk, <- Hpos, <- En, Z.add_0_r.
        replace (64 * Z.of_nat (S (word_idx bp))) with (64 * Z.of_nat (word_idx bp) + bit_in_word bp + low) by lia. rewrite (Z.pow_add_r 2 _ low) by lia.
        assert (forall a p, a + u mod 2 ^ low * p + u / 2 ^ low * (p * 2 ^ low) = a + p * u) as -> by (intros; rewrite Eu at 3; ring).
        symmetry. apply Z.mod_small. rewrite En, Hpos. pose proof (Z.pow_le_mono_r 2 (width l + n) (64 * Z.of_nat cap)). lia.
      * rewrite Ew. case_bool; unfold total_bits; cbn [set_field words word_idx bit_in_word]; lia.
    + constructor; cbn [set_field words word_idx bit_in_word]; try assumption; try lia.
      * assert (64 * Z.of_nat cap = width l + low) as Ecap by lia. change (num ws = pack (l ++ [(v, n)]) mod 2 ^ (64 * Z.of_nat cap)). rewrite E, Epk, Hpos, En. rewrite Eu at 2.
        replace (pack l + 2 ^ width l * (u mod 2 ^ low + 2 ^ low * (u / 2 ^ low))) with (pack l + u mod 2 ^ low * 2 ^ width l + 2 ^ (width l + low) * (u / 2 ^ low))
          by (rewrite Z.pow_add_r by lia; ring).
        rewrite mod_pow_add by lia. symmetry. apply Z.mod_small. rewrite Ecap, Z.pow_add_r by lia. rewrite En, Hpos in Hr. nia.
      * rewrite Ew. case_bool; lia.
Qed.

Lemma packed_puts k : forall bp l, packed bp l -> Forall (fun x => 0 <= x.2 <= 64) k -> packed (puts k bp) (l ++ k).
Proof.
  induction k as [|[v n] k IH]; intros bp l H Hk; [by rewrite app_nil_r|]. apply Forall_cons in Hk as [Hn Hk].
  cbn [puts foldl fst snd]. replace (l ++ (v, n) :: k) with ((l ++ [(v, n)]) ++ k) by (by rewrite <- app_assoc). apply IH; [|done]. by apply packed_put.
Qed.

Lemma packed_same bp l k : packed bp l -> widths_ok k -> pack k = pack l -> width k = width l -> packed bp k.
Proof. intros [] Hk Ep Ew. constructor; try assumption; [by rewrite Ep|by rewrite Ew]. Qed.
Lemma land_63 x : Z.land x 63 = x mod 64.
Proof. change 63 with (Z.ones 6). by rewrite Z.land_ones. Qed.
Lemma packed_skip bp l n : packed bp l -> 0 <= n -> packed (packer_skip n bp) (l ++ [(0, n)]).
Proof.
  intros H Hn. pose proof (pk_widths _ _ H) as Hwd. pose proof (width_nonneg l Hwd) as Hw0. pose proof (pk_bit _ _ H) as Hbit.
  assert (width (l ++ [(0, n)]) = width l + n) as Ew by (rewrite width_app; cbn; lia).
  assert (pack (l ++ [(0, n)]) = pack l) as Ep.
  { rewrite pack_snoc by done. rewrite Z.mod_0_l by (pose proof (Z.pow_pos_nonneg 2 n); lia). lia. }
  unfold packer_skip. destruct (Z.eqb_spec n 0) as [->|_].
  { apply (packed_same _ l); [done|by apply widths_snoc|done|lia]. }
  rewrite land_63. pose proof (Z.mod_pos_bound (total_bits bp + n) 64 ltac:(lia)).
  constructor; cbn [set_field words word_idx bit_in_word]; try apply H; try lia; [by apply widths_snoc|by rewrite Ep; apply H|].
  pose proof (pk_pos _ _ H) as Hpos. rewrite (pk_len _ _ H), Ew. unfold total_bits in *. cbn [set_field words word_idx bit_in_word].
  assert (0 <= (64 * Z.of_nat (word_idx bp) + bit_in_word bp + n) / 64) by (apply Z.div_pos; lia).
  pose proof (Z.div_mod (64 * Z.of_nat (word_idx bp) + bit_in_word bp + n) 64 ltac:(lia)) as Hdm.
  destruct (Nat.ltb_spec cap (Z.to_nat ((64 * Z.of_nat (word_idx bp) + bit_in_word bp + n) / 64))).
  - destruct (Z.ltb_spec (width l) (64 * Z.of_nat cap)), (Z.ltb_spec (width l + n) (64 * Z.of_nat cap)); lia.
  - destruct (Z.ltb_spec (width l) (64 * Z.of_nat cap)), (Z.ltb_spec (width l + n) (64 * Z.of_nat cap)); lia.
Qed.

(** The chunks of a padding are one field of ones or zeros. *)
Lemma pack_chunks l v a b : widths_ok l -> 0 <= a -> 0 <= b -> (v = 0 \/ v = -1) -> pack ((l ++ [(v, a)]) ++ [(v, b)]) = pack (l ++ [(v, a + b)]).
Proof.
  intros Hl Ha Hb Hv. rewrite pack_snoc, !pack_snoc, width_app by (done || by apply widths_snoc). cbn [width]. rewrite !Z.pow_add_r by (by apply width_nonneg || lia).
  pose proof (Z.pow_pos_nonneg 2 a ltac:(lia) Ha). pose proof (Z.pow_pos_nonneg 2 b ltac:(lia) Hb).
  assert (v mod (2 ^ a * 2 ^ b) = v mod 2 ^ a + 2 ^ a * (v mod 2 ^ b)) as ->.
  { assert (0 < 2 ^ a * 2 ^ b) by (by apply Z.mul_pos_pos). destruct Hv as [-> | ->]; [rewrite !Z.mod_0_l by lia; lia|].
    assert (forall m, 0 < m -> -1 mod m = m - 1) as Hm.
    { intros m Hm. symmetry. apply (Z.mod_unique_pos (-1) m (-1)); lia. }
    rewrite !Hm by lia. ring. }
  ring.
Qed.
Definition fill_value (fill : bool) : Z := if fill then -1 else 0.
Lemma packed_pad (fill : bool) fuel : forall pad bp l, packed bp l -> 0 <= pad <= Z.of_nat fuel ->
  packed (pad_loop fuel (if fill then u64 (-1) else 0) pad bp) (l ++ [(fill_value fill, pad)]).
Proof.
  assert (forall w, 0 <= w <= 64 -> (if fill then u64 (-1) else 0) mod 2 ^ w = fill_value fill mod 2 ^ w) as Hf.
  { intros w Hw. destruct fill; [|done]. cbn [fill_value]. unfold u64. assert (2 ^ 64 = 2 ^ (64 - w) * 2 ^ w) as -> by (rewrite <- Z.pow_add_r by lia; f_equal; lia).
    rewrite Z.mul_comm, Z.rem_mul_r by (pose proof (Z.pow_pos_nonneg 2 w); pose proof (Z.pow_pos_nonneg 2 (64 - w)); lia).
    rewrite (Z.mul_comm (2 ^ w)), Z.mod_add by (pose proof (Z.pow_pos_nonneg 2 w); lia). apply Z.mod_mod. pose proof (Z.pow_pos_nonneg 2 w). lia. }
  assert (fill_value fill = 0 \/ fill_value fill = -1) as Hv by (destruct fill; auto).
  induction fuel as [|fuel IH]; intros pad bp l H Hp; cbn [pad_loop].
  - replace pad with 0 by lia. apply (packed_same _ l); [done|apply widths_snoc; [apply H|lia]| |rewrite width_app; cbn; lia].
    rewrite pack_snoc by apply H. cbn. rewrite Z.mod_1_r. lia.
  - destruct (Z.leb_spec pad 0).
    { replace pad with 0 by lia. apply (packed_same _ l); [done|apply widths_snoc; [apply H|lia]| |rewrite width_app; cbn; lia].
      rewrite pack_snoc by apply H. cbn. rewrite Z.mod_1_r. lia. }
    set (chunk := if 32 <? pad then 32 else pad). assert (0 < chunk <= 32 /\ chunk <= pad) as [Hc Hcp] by (unfold chunk; destruct (Z.ltb_spec 32 pad); lia).
    pose proof (packed_put bp l (if fill then u64 (-1) else 0) chunk H ltac:(lia)) as H1.
    assert (packed (put (if fill then u64 (-1) else 0) chunk bp) (l ++ [(fill_value fill, chunk)])) as H2.
    { apply (packed_same _ _ _ H1); [apply widths_snoc; [apply H|lia]| |by rewrite !width_app].
      rewrite !pack_snoc by apply H. by rewrite Hf by lia. }
    pose proof (IH (pad - chunk) _ _ H2 ltac:(lia)) as H3. apply (packed_same _ _ _ H3); [apply widths_snoc; [apply H|lia]| |].
    + rewrite pack_chunks by (lia || exact Hv || exact (pk_widths _ _ H)). do 4 f_equal. lia.
    + rewrite !width_app. cbn. lia.
Qed.

(** How far to the next multiple. *)
Definition to_multiple (n p : Z) : Z := (- p) mod n.
Lemma packed_align bp l n k fill : packed bp l -> n = 2 ^ k -> 0 <= k -> width l < 64 * Z.of_nat cap ->
  packed (align n fill bp) (l ++ [(fill_value fill, to_multiple n (width l))]).
Proof.
  intros H -> Hk Hw. unfold align. pose proof (pk_pos _ _ H) as Hpos. rewrite (proj2 (Z.ltb_lt _ _)) in Hpos by done. rewrite Hpos.
  assert (0 < 2 ^ k) as H2k by (apply Z.pow_pos_nonneg; lia).
  assert (Z.land (width l + 2 ^ k - 1) (Z.lnot (2 ^ k - 1)) - width l = to_multiple (2 ^ k) (width l)) as ->.
  { assert (2 ^ k - 1 = Z.ones k) as -> by (rewrite Z.ones_equiv; lia). rewrite <- Z.ldiff_land, Z.ldiff_ones_r, Z.shiftl_mul_pow2, Z.shiftr_div_pow2 by done.
    unfold to_multiple. set (m := 2 ^ k) in *. clearbody m. replace (width l + m - 1) with (width l + Z.pred m) by lia. clear - H2k. set (p := width l). clearbody p.
    pose proof (Z.div_mod (- p) m ltac:(lia)) as Hd. pose proof (Z.mod_pos_bound (- p) m H2k) as Hr.
    assert ((p + Z.pred m) / m = - (- p / m)) as -> by (symmetry; apply (Z.div_unique_pos _ _ _ (m - 1 - (- p) mod m)); lia). lia. }
  apply packed_pad; [done|]. unfold to_multiple. pose proof (Z.mod_pos_bound (- width l) (2 ^ k) H2k). lia.
Qed.
End packed.

(** ** Reading *)

Lemma le_num_bytes_app a b : le_num (a ++ b) = le_num a + 256 ^ Z.of_nat (length a) * le_num b.
Proof.
  induction a as [|x a IH]; [cbn [app le_num length]; lia|]. cbn [app le_num length]. rewrite IH, Nat2Z.inj_succ, Z.pow_succ_r by lia. ring.
Qed.
Lemma length_word_bytes w : length (word_bytes w) = 8%nat.
Proof. done. Qed.
Lemma le_num_word w : 0 <= w < 2 ^ 64 -> le_num (word_bytes w) = w.
Proof.
  intros Hw. unfold word_bytes. cbn [map le_num]. change 0xff with (Z.ones 8). rewrite !Z.land_ones, !Z.shiftr_div_pow2 by done.
  change (2 ^ 8) with 256. change (8 * 0) with 0. change (8 * 1) with 8. change (8 * 2) with 16. change (8 * 3) with 24. change (8 * 4) with 32.
  change (8 * 5) with 40. change (8 * 6) with 48. change (8 * 7) with 56.
  assert (forall x, x mod 256 + 256 * (x / 256) = x) as E by (intros; zdm).
  assert (forall k, w / 2 ^ k / 256 = w / 2 ^ (k + 8) \/ k < 0) as Hd.
  { intros k. destruct (Z.le_gt_cases 0 k); [|by right]. left. rewrite Z.div_div by (pose proof (Z.pow_pos_nonneg 2 k); lia). rewrite Z.pow_add_r by lia. done. }
  destruct (Hd 0) as [E0|]; [|lia]. destruct (Hd 8) as [E1|]; [|lia]. destruct (Hd 16) as [E2|]; [|lia]. destruct (Hd 24) as [E3|]; [|lia].
  destruct (Hd 32) as [E4|]; [|lia]. destruct (Hd 40) as [E5|]; [|lia]. destruct (Hd 48) as [E6|]; [|lia].
  pose proof (E (w / 2 ^ 0)). pose proof (E (w / 2 ^ 8)). pose proof (E (w / 2 ^ 16)). pose proof (E (w / 2 ^ 24)). pose proof (E (w / 2 ^ 32)).
  pose proof (E (w / 2 ^ 40)). pose proof (E (w / 2 ^ 48)).
  change (0 + 8) with 8 in *. change (8 + 8) with 16 in *. change (16 + 8) with 24 in *. change (24 + 8) with 32 in *. change (32 + 8) with 40 in *.
  change (40 + 8) with 48 in *. change (48 + 8) with 56 in *. assert (0 <= w / 2 ^ 56 < 256) by (split; [apply Z.div_pos; lia|apply Z.div_lt_upper_bound; lia]).
  rewrite (Z.mod_small (w / 2 ^ 56)) by done. assert (w / 2 ^ 0 = w) by (by rewrite Z.div_1_r). lia.
Qed.
Lemma le_num_words ws : words_ok ws -> le_num (flat_map word_bytes ws) = num ws.
Proof.
  induction 1 as [|w ws Hw _ IH]; [done|]. cbn [flat_map num]. rewrite le_num_bytes_app, length_word_bytes, le_num_word, IH by done. done.
Qed.
Lemma length_bytes_of bp : length (bytes_of bp) = (8 * length (words bp))%nat.
Proof. unfold bytes_of. induction (words bp) as [|w ws IH]; [done|]. cbn [flat_map]. rewrite length_app, IH, length_word_bytes. simpl. lia. Qed.

(** The value of a field, within its width. *)
Definition value (x : Z * Z) : Z := x.1 mod 2 ^ x.2.
Definition field_of (x at_bit w : Z) : Z := Z.land (Z.shiftr x at_bit) (Z.ones w).
Lemma field_of_pack x v w b a : x = pack (a ++ (v, w) :: b) -> widths_ok a -> 0 <= w -> field_of x (width a) w = v mod 2 ^ w.
Proof.
  intros -> Ha Hw. unfold field_of. rewrite pack_app by done. cbn [pack]. pose proof (width_nonneg a Ha). rewrite Z.land_ones, Z.shiftr_div_pow2 by done.
  pose proof (pack_range a Ha). rewrite (Z.mul_comm (2 ^ width a)), Z.div_add by lia. rewrite Z.div_small by done. rewrite Z.add_0_l.
  rewrite (Z.mul_comm (2 ^ w)), Z.mod_add by (pose proof (Z.pow_pos_nonneg 2 w); lia). apply Z.mod_mod. pose proof (Z.pow_pos_nonneg 2 w). lia.
Qed.
Lemma field_at buf a v w b : le_num buf = pack (a ++ (v, w) :: b) -> widths_ok a -> 0 <= w -> field buf (width a) w = v mod 2 ^ w.
Proof. apply field_of_pack. Qed.
(** A field below the cut is that of the whole number. *)
Lemma field_mod buf x n at_bit w : le_num buf = x mod 2 ^ n -> 0 <= at_bit -> 0 <= w -> at_bit + w <= n -> field buf at_bit w = field_of x at_bit w.
Proof.
  intros E Ha Hw Hn. unfold field, field_of. rewrite E. apply Z.bits_inj'. intros k Hk. rewrite !Z.land_spec. destruct (Z.ltb_spec k w).
  - rewrite !Z.shiftr_spec, Z.mod_pow2_bits_low by lia. done.
  - rewrite Z.ones_spec_high by lia. by rewrite !andb_false_r.
Qed.
Lemma fields_packed buf k : forall a b, le_num buf = pack (a ++ k ++ b) -> widths_ok a -> widths_ok k ->
  fields_from buf (width a) (map snd k) = map value k.
Proof.
  induction k as [|[v w] k IH]; intros a b E Ha Hk; [done|]. apply Forall_cons in Hk as [Hw Hk]. cbn [map snd fields_from value fst]. f_equal.
  - by apply (field_at buf a v w (k ++ b)).
  - replace (width a + w) with (width (a ++ [(v, w)])) by (rewrite width_app; cbn; lia). apply (IH _ b); [|by apply widths_snoc|done].
    rewrite E. by rewrite <- app_assoc.
Qed.
Lemma packed_bytes cap bp l : packed cap bp l -> width l <= 64 * Z.of_nat cap -> le_num (bytes_of bp) = pack l.
Proof. intros H Hw. unfold bytes_of. rewrite le_num_words by apply H. by apply (packed_num cap). Qed.
(** Any run of fields of a list. *)
Lemma fields_slice buf l m n : le_num buf = pack l -> widths_ok l ->
  fields_from buf (width (take m l)) (map snd (take n (drop m l))) = map value (take n (drop m l)).
Proof.
  intros E Hl. apply (fields_packed buf _ _ (drop n (drop m l))).
  - by rewrite !take_drop.
  - by apply Forall_take.
  - by apply Forall_take, Forall_drop.
Qed.
(** One field, by its index. *)
Lemma field_nth buf l i v w : le_num buf = pack l -> widths_ok l -> l !! i = Some (v, w) -> field buf (width (take i l)) w = v mod 2 ^ w.
Proof.
  intros E Hl Hi. apply (field_at buf _ v w (drop (S i) l)).
  - by rewrite take_drop_middle.
  - by apply Forall_take.
  - exact (proj1 (Forall_forall _ _) Hl (v, w) (list_elem_of_lookup_2 _ _ _ Hi)).
Qed.
