(* ===== verification/Packed264.v ===== *)
(** * The tables the hardware reads beside an H.264 stream (mft/h264_packed_tables.cpp)

    The SPS and PPS as one unit of 48 bytes, the frame numbers and reference lists of a
    picture in 384 bytes, the scaling lists, and the scratch regions of the row and column
    buffers.  The CABAC table is a constant of a generated file. *)

From S2P Require Import Prelude Bits Rbsp BitPack Dpb264 H264Parser.

Definition RKH264_SPSPPS_UNIT_SIZE : nat := 48.
Definition RKH264_RPS_SIZE : nat := 384.
Definition RKH264_SCALING_LIST_SIZE : nat := 224.
Definition RKH264_RCB_COUNT : nat := 10.

Definition has_flag (f bit : Z) : Z := Z.b2z (flag f bit).

(** ** The SPS and PPS unit *)
Definition unit_sps_fields (s : v4l2_ctrl_h264_sps) (field_pic : bool) : list (Z * Z) :=
  [(0x1fff, 13); (chroma_format_idc s, 2); (bit_depth_luma_minus8 s, 3); (bit_depth_chroma_minus8 s, 3); (0, 1);
   (H264Parser.log2_max_frame_num_minus4 s, 4); (H264Parser.max_num_ref_frames s, 5); (pic_order_cnt_type s, 2);
   (log2_max_pic_order_cnt_lsb_minus4 s, 4); (has_flag (sps_flags s) V4L2_H264_SPS_FLAG_DELTA_PIC_ORDER_ALWAYS_ZERO, 1);
   (pic_width_in_mbs_minus1 s + 1, 12); (pic_height_in_map_units_minus1 s + 1, 12);
   (has_flag (sps_flags s) V4L2_H264_SPS_FLAG_FRAME_MBS_ONLY, 1);
   (Z.b2z (flag (sps_flags s) V4L2_H264_SPS_FLAG_MB_ADAPTIVE_FRAME_FIELD && negb field_pic), 1);
   (has_flag (sps_flags s) V4L2_H264_SPS_FLAG_DIRECT_8X8_INFERENCE, 1);
   (1, 1); (1, 2); (0, 10); (0, 10); (0, 1); (0, 10); (0, 1); (0, 10); (0, 1); (0, 10); (0, 1); (0, 10)].
Definition unit_pps_fields (p : v4l2_ctrl_h264_pps) : list (Z * Z) :=
  [(0x1fff, 13); (has_flag (pps_flags p) V4L2_H264_PPS_FLAG_ENTROPY_CODING_MODE, 1);
   (has_flag (pps_flags p) V4L2_H264_PPS_FLAG_BOTTOM_FIELD_PIC_ORDER_IN_FRAME_PRESENT, 1);
   (num_ref_idx_l0_default_active_minus1 p, 5); (num_ref_idx_l1_default_active_minus1 p, 5);
   (has_flag (pps_flags p) V4L2_H264_PPS_FLAG_WEIGHTED_PRED, 1); (weighted_bipred_idc p, 2);
   (u8 (pic_init_qp_minus26 p), 7); (u8 (pic_init_qs_minus26 p), 6); (u8 (chroma_qp_index_offset p), 5);
   (has_flag (pps_flags p) V4L2_H264_PPS_FLAG_DEBLOCKING_FILTER_CONTROL_PRESENT, 1);
   (has_flag (pps_flags p) V4L2_H264_PPS_FLAG_CONSTRAINED_INTRA_PRED, 1);
   (has_flag (pps_flags p) V4L2_H264_PPS_FLAG_REDUNDANT_PIC_CNT_PRESENT, 1);
   (has_flag (pps_flags p) V4L2_H264_PPS_FLAG_TRANSFORM_8X8_MODE, 1); (u8 (second_chroma_qp_index_offset p), 5);
   (has_flag (pps_flags p) V4L2_H264_PPS_FLAG_SCALING_MATRIX_PRESENT, 1); (0, 32)].

Definition valid_entry (e : dpb_entry) : bool := flag (e_flags e) V4L2_H264_DPB_ENTRY_FLAG_VALID.
Definition long_term_entry (e : dpb_entry) : bool := valid_entry e && flag (e_flags e) V4L2_H264_DPB_ENTRY_FLAG_LONG_TERM.
(** [tail]: a bit for each long-term entry. *)
Fixpoint long_term_mask (i : Z) (dpb : list dpb_entry) : Z :=
  match dpb with [] => 0 | e :: dpb => Z.lor (Z.shiftl (Z.b2z (long_term_entry e)) i) (long_term_mask (i + 1) dpb) end.

Definition H264PackSpsPpsUnit (s : v4l2_ctrl_h264_sps) (p : v4l2_ctrl_h264_pps) (dpb : list dpb_entry) (field_pic : bool) : list Z :=
  let bp := packer_init 6 in
  let bp := puts (unit_sps_fields s field_pic) bp in
  let bp := align 128 false bp in
  let bp := puts (unit_pps_fields p) bp in
  let bp := put (long_term_mask 0 dpb) 32 bp in
  bytes_of (align 64 false bp).

(** ** The reference table of a frame *)

(** [frame_num_wrap] of an entry; the subtraction is on [int32_t]. *)
Definition entry_wrap (frame_num max_frame_num : Z) (d : dpb_entry) : option Z :=
  if negb (valid_entry d) then Some 0
  else if flag (e_flags d) V4L2_H264_DPB_ENTRY_FLAG_LONG_TERM then Some (u16 (e_frame_num d))
  else
    let clamp x := if 0 <? max_frame_num then x mod max_frame_num else x in
    let df := clamp (e_frame_num d) in
    if clamp frame_num <? df then w ← int32 (to_int df - to_int max_frame_num); Some (u16 w)
    else Some (u16 df).
(** An entry of a list, from index and fields. *)
Definition list_entry (r : Z * Z) : Z :=
  let '(index, fields) := r in
  let valid := flag fields V4L2_H264_FRAME_REF in
  let dpb_idx := if valid then Z.land index 0xf else 0 in
  let bottom_flag := valid && (fields =? 2) in
  Z.lor (Z.land (Z.lor dpb_idx (Z.shiftl (Z.b2z valid) 4)) 0x1f) (Z.shiftl (Z.b2z bottom_flag) 5).

Definition H264PackFrameRps (frame_num log2_max_frame_num_minus4 : Z) (dpb : list dpb_entry) (ref_lists : list (list (Z * Z))) : option (list Z) :=
  let bp := align 128 false (packer_init 48) in
  if 32 <=? log2_max_frame_num_minus4 + 4 then None else
  let max_frame_num := u32 (Z.shiftl 1 (log2_max_frame_num_minus4 + 4)) in
  wraps ← mapM (entry_wrap frame_num max_frame_num) dpb;
  let bp := puts (map (fun w => (w, 16)) wraps) bp in
  let bp := put 0 16 (put 0 16 bp) in
  let bp := puts (map (fun r => (list_entry r, 7)) (concat ref_lists)) bp in
  Some (bytes_of (align 128 false bp)).

(** ** The scaling lists *)

Definition H264PackScalingList (sm : option scaling_matrix) (enable : bool) : list Z :=
  let out := replicate RKH264_SCALING_LIST_SIZE 16 in
  match sm with
  | Some m =>
      if negb enable then out else
      overlays 96 (take 2 (scaling_list_8x8 m)) (overlays 0 (take 6 (scaling_list_4x4 m)) out)
  | None => out
  end.

(** ** The scratch regions *)
Record H264RcbInfo := MkRcb { rcb_reg_idx : Z; rcb_offset : Z; rcb_size : Z }.
Definition RCB_ALIGN : Z := 64.
Definition align_up (x a : Z) : Z := Z.land (u32 (x + a - 1)) (u32 (Z.lnot (a - 1))).
Definition kBspOrder : list (Z * Z) :=
  [(136, 24576); (137, 49152); (141, 90112); (140, 49152); (139, 180224); (133, 49152); (134, 8192); (135, 4352); (138, 13056); (142, 291584)].
Fixpoint rcb_loop (order : list (Z * Z)) (offset : Z) (info : list H264RcbInfo) : list H264RcbInfo * Z :=
  match order with
  | [] => (info, offset)
  | (reg, bytes) :: order =>
      let size := align_up bytes RCB_ALIGN in
      rcb_loop order (u32 (offset + size)) (<[Z.to_nat (reg - 133) := MkRcb reg offset size]> info)
  end.
(** The table and the total size, whatever the frame's. *)
Definition H264GetRcbBufferSizes (width_px height_px : Z) : list H264RcbInfo * Z :=
  rcb_loop kBspOrder 0 (replicate RKH264_RCB_COUNT (MkRcb 0 0 0)).
