(* ===== verification/Packed265.v ===== *)
(** * The tables the hardware reads beside an HEVC stream (mft/h265_packed_tables.cpp)

    The SPS and PPS as a slot of 112 bytes repeated 64 times, the reference picture sets of
    the SPS in 3200 bytes, and the scaling factors in 1360.  An operation answers with its
    return value and what it wrote; the outer [option] is undefined behaviour. *)

From S2P Require Import Prelude Bits Rbsp BitPack H265Parser.

Definition RKH265_SPSPPS_SLOT_SIZE : nat := 112.
Definition RKH265_SPSPPS_NUM_SLOTS : nat := 64.
Definition RKH265_SPSPPS_UNIT_SIZE : nat := RKH265_SPSPPS_SLOT_SIZE * RKH265_SPSPPS_NUM_SLOTS.
Definition RKH265_RPS_SIZE : nat := 3200.
Definition RKH265_SCALING_LIST_SIZE : nat := 1360.

(** ** The parameter set slot *)
Definition pcm_or_0 (s : H265Sps) (v : Z) : Z := if truth (pcm_enabled_flag s) then v else 0.
Definition pack_dpb_size (s : H265Sps) : Z :=
  let dpb_idx := if Z.of_nat H265_MAX_SUB_LAYERS <=? sps_max_sub_layers_minus1 s then Z.of_nat H265_MAX_SUB_LAYERS - 1 else sps_max_sub_layers_minus1 s in
  default 0 (sps_max_dec_pic_buffering_minus1 s !! Z.to_nat dpb_idx).
Definition slot_sps_fields (vps : option H265Vps) (s : H265Sps) : list (Z * Z) :=
  [(from_option vps_id 0 vps, 4); (sps_id s, 4); (chroma_format_idc s, 2);
   (pic_width_in_luma_samples s, 16); (pic_height_in_luma_samples s, 16);
   (bit_depth_luma_minus8 s + 8, 4); (bit_depth_chroma_minus8 s + 8, 4); (log2_max_pic_order_cnt_lsb_minus4 s + 4, 5);
   (log2_diff_max_min_luma_coding_block_size s, 2); (log2_min_luma_coding_block_size_minus3 s + 3, 3);
   (log2_min_luma_transform_block_size_minus2 s + 2, 3); (log2_diff_max_min_luma_transform_block_size s, 2);
   (max_transform_hierarchy_depth_inter s, 3); (max_transform_hierarchy_depth_intra s, 3); (scaling_list_enabled_flag s, 1);
   (amp_enabled_flag s, 1); (sample_adaptive_offset_enabled_flag s, 1);
   (pcm_enabled_flag s, 1); (pcm_or_0 s (pcm_sample_bit_depth_luma_minus1 s + 1), 4); (pcm_or_0 s (pcm_sample_bit_depth_chroma_minus1 s + 1), 4);
   (pcm_loop_filter_disabled_flag s, 1); (log2_diff_max_min_pcm_luma_coding_block_size s, 3);
   (pcm_or_0 s (log2_min_pcm_luma_coding_block_size_minus3 s + 3), 3);
   (num_short_term_ref_pic_sets s, 7); (long_term_ref_pics_present_flag s, 1); (num_long_term_ref_pics_sps s, 6);
   (sps_temporal_mvp_enabled_flag s, 1); (strong_intra_smoothing_enabled_flag s, 1); (0, 7); (pack_dpb_size s, 4); (0, 3)].

(** The log2 of the quantisation group size, clamped to three bits. *)
Definition pack_log2_qg (s : H265Sps) (p : H265Pps) : Z :=
  let log2_qg := log2_min_luma_coding_block_size_minus3 s + 3 + log2_diff_max_min_luma_coding_block_size s - diff_cu_qp_delta_depth p in
  let log2_qg := if log2_qg <? 0 then 0 else log2_qg in
  if 7 <? log2_qg then 7 else log2_qg.
Definition tiles_or_0 (p : H265Pps) (v : Z) : Z := if truth (tiles_enabled_flag p) then v else 0.
Definition slot_pps_fields (s : H265Sps) (p : H265Pps) : list (Z * Z) :=
  [(pps_id p, 6); (pps_sps_id p, 4); (dependent_slice_segments_enabled_flag p, 1); (output_flag_present_flag p, 1);
   (num_extra_slice_header_bits p, 13); (sign_data_hiding_enabled_flag p, 1); (cabac_init_present_flag p, 1);
   (num_ref_idx_l0_default_active_minus1 p + 1, 4); (num_ref_idx_l1_default_active_minus1 p + 1, 4); (u8 (init_qp_minus26 p), 7);
   (constrained_intra_pred_flag p, 1); (transform_skip_enabled_flag p, 1); (cu_qp_delta_enabled_flag p, 1); (pack_log2_qg s p, 3);
   (u8 (pps_cb_qp_offset p), 5); (u8 (pps_cr_qp_offset p), 5); (pps_slice_chroma_qp_offsets_present_flag p, 1);
   (weighted_pred_flag p, 1); (weighted_bipred_flag p, 1); (transquant_bypass_enabled_flag p, 1); (tiles_enabled_flag p, 1);
   (entropy_coding_sync_enabled_flag p, 1); (pps_loop_filter_across_slices_enabled_flag p, 1); (loop_filter_across_tiles_enabled_flag p, 1);
   (deblocking_filter_override_enabled_flag p, 1); (pps_deblocking_filter_disabled_flag p, 1); (u8 (pps_beta_offset_div2 p), 4);
   (u8 (pps_tc_offset_div2 p), 4); (lists_modification_present_flag p, 1); (log2_parallel_merge_level_minus2 p + 2, 3);
   (slice_segment_header_extension_present_flag p, 1); (0, 3); (tiles_or_0 p (num_tile_columns_minus1 p + 1), 5);
   (tiles_or_0 p (num_tile_rows_minus1 p + 1), 5); (0, 4)].

(** Tile sizes in coding tree blocks; [uint32_t] division, then [int]. *)
Definition pic_in_ctb (n log2_ctb : Z) : option Z :=
  max_cu_width ← shl1 log2_ctb; Some (to_int (u32 (n + max_cu_width - 1) / u32 max_cu_width)).
Definition uniform_size (i n total : Z) : option Z :=
  a ← int32 ((i + 1) * total); b ← int32 (i * total); Some (u16 (Z.quot a n - Z.quot b n)).
(** The array of [cap] sizes: one tile, or [n] of them. *)
Definition tile_sizes (p : H265Pps) (n log2_ctb pic : Z) (cap : nat) : option (list Z) :=
  total ← pic_in_ctb pic log2_ctb;
  if negb (truth (tiles_enabled_flag p)) then Some (u16 total :: replicate (cap - 1) 0) else
  l ← mapM (fun i => uniform_size (Z.of_nat i) n total) (seq 0 (Nat.min (Z.to_nat n) cap));
  Some (l ++ replicate (cap - length l) 0).
Definition minus1_or_0 (v : Z) : Z := if truth v then v - 1 else 0.

Definition H265PackPPS (vps : option H265Vps) (s : H265Sps) (p : H265Pps) (out_size : nat) : option (Z * list Z) :=
  if (out_size <? RKH265_SPSPPS_UNIT_SIZE)%nat then Some (-1, []) else
  let bp := puts (slot_sps_fields vps s) (packer_init 14) in
  let bp := align 32 true bp in
  let bp := puts (slot_pps_fields s p) bp in
  let bp := align 64 true bp in
  let log2_ctb := log2_diff_max_min_luma_coding_block_size s + (log2_min_luma_coding_block_size_minus3 s + 3) in
  cols ← tile_sizes p (num_tile_columns_minus1 p + 1) log2_ctb (pic_width_in_luma_samples s) 20;
  rows ← tile_sizes p (num_tile_rows_minus1 p + 1) log2_ctb (pic_height_in_luma_samples s) 22;
  let bp := puts (map (fun v => (minus1_or_0 v, 12)) (cols ++ rows)) bp in
  let bp := puts [(0, 32); (0, 32); (0, 32); (0, 6)] bp in
  let bp := align 64 true bp in
  Some (Z.of_nat RKH265_SPSPPS_UNIT_SIZE, concat (replicate RKH265_SPSPPS_NUM_SLOTS (bytes_of bp))).

(** ** The reference picture sets of the SPS *)
Definition active_sps (parsed : H265ParseResult) : option H265Sps :=
  if (0 <=? active_sps_id parsed) && (active_sps_id parsed <? H265_MAX_SPS) then
    match sps parsed !! Z.to_nat (active_sps_id parsed) with
    | Some s => if truth (sps_valid s) then Some s else None
    | None => None
    end
  else None.
Definition put_long_term (s : H265Sps) (bp : BitPacker) (i : nat) : BitPacker :=
  if Z.of_nat i <? num_long_term_ref_pics_sps s then
    packer_skip 15 (put (default 0 (used_by_curr_pic_lt_sps_flag s !! i)) 1 (put (default 0 (lt_ref_pic_poc_lsb_sps s !! i)) 16 bp))
  else packer_skip 32 bp.
(** The entries of a set that have room: fifteen. *)
Definition packed_negatives (r : H265ShortTermRPS) : Z := if 15 <? num_negative_pics r then 15 else num_negative_pics r.
Definition packed_positives (r : H265ShortTermRPS) : Z :=
  if 15 - packed_negatives r <? num_positive_pics r then 15 - packed_negatives r else num_positive_pics r.
Definition set_fields (r : H265ShortTermRPS) : list (Z * Z) :=
  let n := Z.to_nat (packed_negatives r + packed_positives r) in
  [(num_negative_pics r, 4); (num_positive_pics r, 4)] ++
  flat_map (fun j => [(u16 (default 0 (delta_poc r !! j)), 16); (default 0 (used_by_curr_pic_flag r !! j), 1)]) (seq 0 n) ++
  flat_map (fun _ => [(0, 16); (0, 1)]) (seq n (15 - n)).
Definition put_set (n_strps : Z) (sets : list H265ShortTermRPS) (bp : BitPacker) (i : nat) : BitPacker :=
  let bp := if Z.of_nat i <? n_strps then puts (set_fields (default zero_rps (sets !! i))) bp else packer_skip 263 bp in
  packer_skip 64 (align 64 false bp).
Definition H265PackRPS (parsed : H265ParseResult) (out_size : nat) : Z * list Z :=
  if (out_size <? RKH265_RPS_SIZE)%nat then (-1, []) else
  let bp := packer_init 400 in
  let s := active_sps parsed in
  let bp := match s with
            | Some s =>
                if truth (long_term_ref_pics_present_flag s) && (0 <? num_long_term_ref_pics_sps s) then foldl (put_long_term s) bp (seq 0 32)
                else packer_skip (32 * 32) bp
            | None => packer_skip (32 * 32) bp
            end in
  let n_strps := from_option num_short_term_ref_pic_sets 0 s in
  let n_strps := if Z.of_nat H265_MAX_SHORT_TERM_RPS <? n_strps then Z.of_nat H265_MAX_SHORT_TERM_RPS else n_strps in
  let bp := foldl (put_set n_strps (from_option st_rps [] s)) bp (seq 0 64) in
  (Z.of_nat RKH265_RPS_SIZE, bytes_of bp).

(** ** The scaling factors *)

(** [p[i * dim + k] = old[k * dim + i]]. *)
Definition transposed (dim : nat) (l : list Z) : list Z :=
  flat_map (fun i => map (fun k => default 0 (l !! (k * dim + i)%nat)) (seq 0 dim)) (seq 0 dim).
Definition transpose_inplace (dim off : nat) (out : list Z) : list Z :=
  overlay off (transposed dim (take (dim * dim) (drop off out))) out.
Definition transposes (dim n off : nat) (out : list Z) : list Z :=
  foldl (fun out m => transpose_inplace dim (off + m * (dim * dim)) out) out (seq 0 n).

Definition active_list (s : option H265Sps) (p : option H265Pps) : option H265ScalingList :=
  match p with
  | Some p => if truth (pps_scaling_list_data_present_flag p) then Some (pps_scaling_list p) else sps_scaling_list <$> s
  | None => sps_scaling_list <$> s
  end.
Definition H265PackScalingList (s : option H265Sps) (p : option H265Pps) (out_size : nat) : Z * list Z :=
  if (out_size <? RKH265_SCALING_LIST_SIZE)%nat then (-1, []) else
  let out := replicate RKH265_SCALING_LIST_SIZE 0 in
  match active_list s p with
  | None => (Z.of_nat RKH265_SCALING_LIST_SIZE, out)
  | Some sl =>
      let out := overlays 0 (take 6 (scaling_list_4x4 sl)) out in
      let out := overlays 96 (take 6 (scaling_list_8x8 sl)) out in
      let out := overlays 480 (take 6 (scaling_list_16x16 sl)) out in
      let out := overlays 864 (take 2 (scaling_list_32x32 sl)) out in
      let out := overlays 992 (replicate 4 (replicate 64 0)) out in
      let out := overlays 1248 (map (transposed 4) (take 6 (scaling_list_4x4 sl))) out in
      let out := overlay 1344 (take 6 (scaling_list_dc_16x16 sl)) out in
      let out := overlay 1350 (flat_map (fun v => [v; 0; 0]) (take 2 (scaling_list_dc_32x32 sl))) out in
      let out := transposes 4 6 0 out in
      let out := transposes 8 6 96 out in
      let out := transposes 8 6 480 out in
      let out := transposes 8 6 864 out in
      let out := transposes 4 6 1248 out in
      (Z.of_nat RKH265_SCALING_LIST_SIZE, out)
  end.
