(* ===== verification/PackedFacts.v ===== *)
(** * What the hardware reads in the H.264 and HEVC tables *)

From S2P Require Import Prelude Bits Rbsp BitPack H264Parser Dpb DpbFacts Dpb264 Dpb264Facts Packed264.

(** Two's complement of [w] bits. *)
Definition signed (w x : Z) : Z := if x <? 2 ^ (w - 1) then x else x - 2 ^ w.

Lemma value_small v w : 0 <= v < 2 ^ w -> value (v, w) = v.
Proof. intros H. by apply Z.mod_small. Qed.

Ltac widths := repeat (constructor; [cbn; lia|]); constructor.

Lemma packed_unit s p dpb (field_pic : bool) :
  let k := [(0, 124)] ++ unit_pps_fields p ++ [(long_term_mask 0 dpb, 32); (0, 8)] in
  length (H264PackSpsPpsUnit s p dpb field_pic) = RKH264_SPSPPS_UNIT_SIZE /\
  le_num (H264PackSpsPpsUnit s p dpb field_pic) = pack (unit_sps_fields s field_pic ++ k).
Proof.
  intros k. unfold H264PackSpsPpsUnit.
  pose proof (packed_puts 6 (unit_sps_fields s field_pic) _ _ (packed_init 6) ltac:(widths)) as H. cbn [app] in H.
  apply (packed_align 6 _ _ 128 7 false) in H; [|done|done|cbn; lia]. change (to_multiple 128 (width _)) with 124 in H.
  apply (packed_puts 6 (unit_pps_fields p)) in H; [|widths].
  apply (packed_put 6 _ _ (long_term_mask 0 dpb) 32) in H; [|lia].
  apply (packed_align 6 _ _ 64 6 false) in H; [|done|done|cbn; lia]. change (to_multiple 64 (width _)) with 8 in H.
  split; [by rewrite length_bytes_of, (pk_len 6 _ _ H)|].
  rewrite <- !app_assoc in H. exact (packed_bytes 6 _ _ H ltac:(cbn; lia)).
Qed.

(** ** Tables of equal fields *)
Definition entries {A} (f : A -> Z) (w : Z) (l : list A) : list (Z * Z) := map (fun x => (f x, w)) l.
Lemma width_entries {A} (f : A -> Z) w l : width (entries f w l) = w * Z.of_nat (length l).
Proof. induction l as [|x l IH]; [cbn; lia|]. cbn [entries map width length]. fold (entries f w l). rewrite IH. lia. Qed.
Lemma widths_entries {A} (f : A -> Z) w l : 0 <= w -> widths_ok (entries f w l).
Proof. intros Hw. apply Forall_forall. intros x (a & -> & _)%list_elem_of_fmap. done. Qed.
Lemma widths_entries_64 {A} (f : A -> Z) w (l : list A) : 0 <= w <= 64 -> Forall (fun x => 0 <= x.2 <= 64) (entries f w l).
Proof. intros Hw. apply Forall_forall. intros x (a & -> & _)%list_elem_of_fmap. done. Qed.
Lemma entry_field {A} (f : A -> Z) w l a b buf i x : le_num buf = pack (a ++ entries f w l ++ b) -> widths_ok a -> 0 <= w -> l !! i = Some x ->
  field buf (width a + w * Z.of_nat i) w = f x mod 2 ^ w.
Proof.
  intros E Ha Hw Hx. pose proof (take_drop_middle _ _ _ Hx) as El.
  replace (width a + w * Z.of_nat i) with (width (a ++ entries f w (take i l))).
  - apply (field_at buf _ _ _ (entries f w (drop (S i) l) ++ b)); [|by apply Forall_app; split; [|by apply widths_entries]|done].
    rewrite E. f_equal. rewrite <- !app_assoc. f_equal. rewrite <- El at 1. unfold entries. by rewrite map_app, <- app_assoc.
  - rewrite width_app, width_entries, length_take. apply lookup_lt_Some in Hx. f_equal. f_equal. lia.
Qed.

(** ** The reference table of a frame *)
Lemma packed_rps frame_num log2 dpb lists wraps : log2 + 4 < 32 -> length dpb = 16%nat -> length (concat lists) = 96%nat ->
  mapM (entry_wrap frame_num (u32 (Z.shiftl 1 (log2 + 4)))) dpb = Some wraps ->
  exists buf, H264PackFrameRps frame_num log2 dpb lists = Some buf /\ length buf = RKH264_RPS_SIZE /\
    (forall i w, wraps !! i = Some w -> field buf (16 * Z.of_nat i) 16 = w mod 2 ^ 16) /\
    (forall i r, concat lists !! i = Some r -> field buf (288 + 7 * Z.of_nat i) 7 = list_entry r mod 2 ^ 7).
Proof.
  intros Hlog Hd Hl Hw. unfold H264PackFrameRps. rewrite (proj2 (Z.leb_gt _ _)), Hw by done. ostep. cbv zeta.
  assert (length wraps = 16%nat) as Hlw by (pose proof (length_mapM _ _ _ Hw); lia).
  pose proof (packed_align 48 _ _ 128 7 false (packed_init 48) ltac:(done) ltac:(done) ltac:(done)) as H.
  change (to_multiple 128 (width [])) with 0 in H. cbn [app fill_value] in H.
  apply (packed_puts 48 (entries id 16 wraps)) in H; [|by apply widths_entries_64].
  do 2 (apply (packed_put 48 _ _ 0 16) in H; [|lia]).
  apply (packed_puts 48 (entries list_entry 7 (concat lists))) in H; [|by apply widths_entries_64].
  apply (packed_align 48 _ _ 128 7 false) in H; [|done|done|rewrite !width_app, !width_entries, Hlw, Hl; cbn; lia].
  rewrite <- !app_assoc in H. cbn [app] in H.
  match type of H with packed _ ?b ?l => assert (width l = 1024) as Hwl; [|pose proof (packed_bytes 48 _ _ H ltac:(lia)) as En] end.
  { cbn [width]. rewrite !width_app, !width_entries, Hlw. cbn [width]. rewrite width_app, width_entries, Hl. reflexivity. }
  match type of H with packed _ ?b _ => exists (bytes_of b) end.
  split; [done|]. split; [by rewrite length_bytes_of, (pk_len 48 _ _ H)|]. split; intros i w Hi.
  - exact (entry_field id 16 wraps [(0, 0)] _ _ i w En ltac:(widths) ltac:(done) Hi).
  - pose proof (entry_field list_entry 7 (concat lists) ((0, 0) :: entries id 16 wraps ++ [(0, 16); (0, 16)])) as E.
    cbn [width] in E. rewrite width_app, width_entries, Hlw in E. eapply E; [|  |done|exact Hi].
    + cbn [app]. rewrite <- app_assoc. exact En.
    + constructor; [done|]. apply Forall_app. split; [by apply widths_entries|widths].
Qed.

(** ** What the table says of the references of a selection *)
Lemma entry_wrap_of fn max s : 0 <= fn < max -> max <= 2 ^ 16 -> 0 <= frame_num s < max -> 0 <= long_term_frame_idx s < 2 ^ 16 ->
  entry_wrap fn max (entry_of s) = Some (if long_term s then long_term_frame_idx s else fnw fn max (frame_num s) mod 2 ^ 16).
Proof.
  intros Hf Hm Hs Hl. unfold entry_wrap, entry_of, valid_entry. cbn [e_flags e_frame_num].
  destruct (long_term s); cbn [negb].
  - change (flag (Z.lor (Z.lor V4L2_H264_DPB_ENTRY_FLAG_VALID V4L2_H264_DPB_ENTRY_FLAG_ACTIVE) V4L2_H264_DPB_ENTRY_FLAG_LONG_TERM) V4L2_H264_DPB_ENTRY_FLAG_VALID) with true.
    change (flag (Z.lor (Z.lor V4L2_H264_DPB_ENTRY_FLAG_VALID V4L2_H264_DPB_ENTRY_FLAG_ACTIVE) V4L2_H264_DPB_ENTRY_FLAG_LONG_TERM) V4L2_H264_DPB_ENTRY_FLAG_LONG_TERM) with true.
    cbn [negb]. unfold Dpb264.u16. by rewrite Z.mod_small.
  - change (flag (Z.lor (Z.lor V4L2_H264_DPB_ENTRY_FLAG_VALID V4L2_H264_DPB_ENTRY_FLAG_ACTIVE) 0) V4L2_H264_DPB_ENTRY_FLAG_VALID) with true.
    change (flag (Z.lor (Z.lor V4L2_H264_DPB_ENTRY_FLAG_VALID V4L2_H264_DPB_ENTRY_FLAG_ACTIVE) 0) V4L2_H264_DPB_ENTRY_FLAG_LONG_TERM) with false.
    cbn [negb]. cbv zeta. rewrite (proj2 (Z.ltb_lt 0 max)), !Z.mod_small by lia. unfold fnw, Dpb264.u16.
    destruct (Z.ltb_spec fn (frame_num s)); [|done]. unfold to_int. rewrite !(Z.mod_small (_ + 2 ^ 31)) by lia.
    rewrite int32_ok by lia. ostep. do 2 f_equal. lia.
Qed.
Lemma entry_wrap_zero fn max : entry_wrap fn max zero_entry = Some 0.
Proof. done. Qed.

Lemma mapM_app_some {A B} (f : A -> option B) l1 l2 k1 k2 : mapM f l1 = Some k1 -> mapM f l2 = Some k2 -> mapM f (l1 ++ l2) = Some (k1 ++ k2).
Proof. rewrite !mapM_Some. intros. by apply Forall2_app. Qed.
Lemma wraps_of fn max L : 0 <= fn < max -> max <= 2 ^ 16 -> (length L <= 16)%nat ->
  Forall (fun x : nat * slot264 => 0 <= frame_num x.2 < max /\ 0 <= long_term_frame_idx x.2 < 2 ^ 16) L ->
  mapM (entry_wrap fn max) (map (fun x => entry_of x.2) L ++ replicate (16 - length L) zero_entry) =
    Some (map (fun x : nat * slot264 => if long_term x.2 then long_term_frame_idx x.2 else fnw fn max (frame_num x.2) mod 2 ^ 16) L ++ replicate (16 - length L) 0).
Proof.
  intros Hf Hm _ HL. apply mapM_app_some.
  - apply mapM_Some. induction HL as [|x L [H1 H2] _ IH]; constructor; [by apply entry_wrap_of|exact IH].
  - apply mapM_Some, Forall2_replicate. done.
Qed.

Lemma concat_padded {A} (n : nat) (z : A) ls : forall j k, (k < n)%nat ->
  concat (map (pad n z) ls) !! (n * j + k)%nat = (fun l => default z (l !! k)) <$> (ls !! j).
Proof.
  assert (forall l, length (pad n z l) = n) as Hlen by (intros l; unfold pad; rewrite length_app, length_take, length_replicate; lia).
  induction ls as [|l ls IH]; intros j k Hk; [done|]. cbn [map concat]. destruct j as [|j].
  - rewrite Nat.mul_0_r. cbn [Nat.add]. rewrite lookup_app_l by (by rewrite Hlen). unfold pad. cbn [lookup list_lookup fmap option_fmap option_map].
    destruct (decide (k < length l)%nat) as [Hkl|Hkl].
    + rewrite lookup_app_l, lookup_take_lt by (rewrite ?length_take; lia). destruct (lookup_lt_is_Some_2 l k Hkl) as [x Hx]. change (list_lookup k l) with (l !! k). by rewrite Hx.
    + rewrite lookup_app_r by (rewrite length_take; lia). change (list_lookup k l) with (l !! k). rewrite (lookup_ge_None_2 l k) by lia.
      apply lookup_replicate_2. rewrite length_take. lia.
  - rewrite lookup_app_r by (rewrite Hlen; lia). rewrite Hlen. replace (n * S j + k - n)%nat with (n * j + k)%nat by lia. by apply IH.
Qed.
Lemma length_concat_padded {A} (n : nat) (z : A) ls : length (concat (map (pad n z) ls)) = (n * length ls)%nat.
Proof.
  induction ls as [|l ls IH]; [simpl; lia|]. cbn [map concat length]. rewrite length_app, IH. unfold pad. rewrite length_app, length_take, length_replicate. lia.
Qed.

(** Every entry of a list names a reference by its place in the compact view. *)
Lemma swap_first_elem {A} (l : list A) x : x ∈ swap_first l -> x ∈ l.
Proof. destruct l as [|a [|b l]]; [done..|]. cbn. rewrite !elem_of_cons. tauto. Qed.
Lemma elem_nils {A} (ls : list (list A)) l r : Forall (fun k => k = []) ls -> l ∈ ls -> r ∈ l -> False.
Proof. rewrite Forall_forall. intros H Hl Hr. rewrite (H l Hl) in Hr. by apply elem_of_nil in Hr. Qed.
Lemma ref_lists_index p L l r : l ∈ ref_lists_of p L -> r ∈ l -> exists i, (i < length L)%nat /\ r = (Z.of_nat i, V4L2_H264_FRAME_REF).
Proof.
  assert (forall y, y ∈ indexed L -> exists i, (i < length L)%nat /\ v4l2_reference y = (Z.of_nat i, V4L2_H264_FRAME_REF)) as Hy.
  { intros y (i & x & -> & Hx)%elem_of_lookup_imap. exists i. split; [by apply lookup_lt_Some in Hx|done]. }
  assert (forall k, (forall y, y ∈ k -> y ∈ indexed L) -> forall r, r ∈ map v4l2_reference k -> exists i, (i < length L)%nat /\ r = (Z.of_nat i, V4L2_H264_FRAME_REF)) as Hk.
  { intros k Hk r' (y & -> & Hin)%list_elem_of_fmap. apply Hy. auto. }
  assert (forall y, y ∈ listP p L -> y ∈ indexed L) as HP by (intros y; unfold listP; by rewrite insertion_sort_perm).
  assert (forall y, y ∈ past_refs p L ++ future_refs p L -> y ∈ indexed L) as HB by (intros y; by rewrite past_future).
  intros Hl Hr. destruct (is_idr p) eqn:Ei; [|destruct (decide (L = [])) as [EL|EL]; [|destruct (intra p) eqn:Es]].
  - rewrite (ref_lists_none p L (or_introl Ei)) in Hl. exfalso. revert Hl Hr. apply elem_nils. by repeat constructor.
  - rewrite (ref_lists_none p L (or_intror EL)) in Hl. exfalso. revert Hl Hr. apply elem_nils. by repeat constructor.
  - rewrite ref_lists_intra in Hl by done. apply elem_of_cons in Hl as [->|Hl]; [exact (Hk _ HP r Hr)|]. exfalso. revert Hl Hr. apply elem_nils. by repeat constructor.
  - rewrite ref_lists_inter in Hl by done. apply list_elem_of_fmap in Hl as (k & -> & Hin). revert Hr. apply Hk.
    apply elem_of_cons in Hin as [->|[->|[->|[]%elem_of_nil]%elem_of_cons]%elem_of_cons]; [done..|].
    intros y Hin. apply HB. unfold second_list in Hin. destruct (_ && _); [apply swap_first_elem in Hin|]; revert Hin; rewrite !elem_of_app; tauto.
Qed.
Lemma list_entry_of i : (i < 16)%nat -> list_entry (Z.of_nat i, V4L2_H264_FRAME_REF) = 16 + Z.of_nat i.
Proof. intros Hi. do 16 (destruct i as [|i]; [reflexivity|]). lia. Qed.

(** A bit of the mask of long-term entries. *)
Lemma long_term_mask_testbit dpb : forall i j, 0 <= i -> 0 <= j ->
  Z.testbit (long_term_mask i dpb) (i + j) = from_option long_term_entry false (dpb !! Z.to_nat j).
Proof.
  induction dpb as [|e dpb IH]; intros i j Hi Hj; [by rewrite Z.testbit_0_l|]. cbn [long_term_mask]. rewrite Z.lor_spec, Z.shiftl_spec by lia.
  destruct (Z.eq_dec j 0) as [->|Hj0].
  - rewrite Z.add_0_r, Z.sub_diag. change ((e :: dpb) !! Z.to_nat 0) with (Some e). cbn [from_option].
    assert (Z.testbit (long_term_mask (i + 1) dpb) i = false) as ->.
    { clear IH. revert i Hi. assert (forall dpb k i, 0 <= i < k -> Z.testbit (long_term_mask k dpb) i = false) as H.
      { clear. induction dpb as [|e dpb IH]; intros k i Hk; [by rewrite Z.testbit_0_l|]. cbn [long_term_mask].
        rewrite Z.lor_spec, Z.shiftl_spec, Z.testbit_neg_r, IH by lia. done. }
      intros. apply H. lia. }
    by destruct (long_term_entry e).
  - replace (i + j - i) with j by lia. replace (i + j) with (i + 1 + (j - 1)) by lia. rewrite IH by lia.
    replace (Z.to_nat j) with (S (Z.to_nat (j - 1))) by lia. cbn [lookup list_lookup].
    assert (Z.testbit (Z.b2z (long_term_entry e)) j = false) as ->; [|done].
    apply Z.bits_above_log2; destruct (long_term_entry e); cbn; lia.
Qed.
Lemma signed_u8 w x : 0 < w <= 8 -> - 2 ^ (w - 1) <= x < 2 ^ (w - 1) -> signed w (u8 x mod 2 ^ w) = x.
Proof.
  intros Hw Hx. assert (u8 x mod 2 ^ w = x mod 2 ^ w) as ->.
  { unfold u8. assert (256 = 2 ^ w * 2 ^ (8 - w)) as -> by (rewrite <- Z.pow_add_r by lia; change 256 with (2 ^ 8); f_equal; lia).
    rewrite Z.rem_mul_r by (try apply Z.pow_nonzero; lia). rewrite Z.mul_comm, Z.mod_add by (apply Z.pow_nonzero; lia). apply Z.mod_mod, Z.pow_nonzero; lia. }
  assert (2 ^ w = 2 * 2 ^ (w - 1)) as E by (rewrite <- Z.pow_succ_r by lia; f_equal; lia). unfold signed. rewrite E in *. set (h := 2 ^ (w - 1)) in *. clearbody h.
  destruct (Z.le_gt_cases 0 x).
  - rewrite Z.mod_small by lia. rewrite (proj2 (Z.ltb_lt _ _)) by lia. done.
  - assert (x mod (2 * h) = x + 2 * h) as -> by (symmetry; apply (Z.mod_unique_pos _ _ (-1)); lia). rewrite (proj2 (Z.ltb_ge _ _)) by lia. lia.
Qed.

(** The references of a selection are slots. *)
Lemma compact_slots p cur c (P : slot264 -> Prop) : Forall P (slots c) -> Forall (fun x : nat * slot264 => P x.2) (compact_refs p cur c).
Proof.
  intros H. assert (Forall (fun x : nat * slot264 => P x.2) (active_refs cur c)) as Ha.
  { apply Forall_forall. intros x Hx. unfold active_refs in Hx. apply list_elem_of_filter in Hx as [_ Hx].
    apply elem_of_lookup_imap in Hx as (i & y & -> & Hy). exact (proj1 (Forall_lookup _ _) H i y Hy). }
  apply Forall_forall. intros x Hx. apply (proj1 (Forall_forall _ _) Ha). unfold compact_refs in Hx. by rewrite insertion_sort_perm in Hx.
Qed.
Lemma max_frame_num_16 p : 0 <= log2_max_frame_num_minus4 p <= 12 -> MaxFrameNum p = 2 ^ (log2_max_frame_num_minus4 p + 4) /\ MaxFrameNum p <= 2 ^ 16.
Proof.
  intros H. unfold MaxFrameNum. rewrite Z.shiftl_1_l. pose proof (Z.pow_le_mono_r 2 (log2_max_frame_num_minus4 p + 4) 16 ltac:(lia) ltac:(lia)).
  assert (0 < 2 ^ (log2_max_frame_num_minus4 p + 4)) by (apply Z.pow_pos_nonneg; lia). rewrite u32_small by lia. done.
Qed.
