(* ===== verification/Packed265Facts.v ===== *)
(** * What the hardware reads in the HEVC tables *)

From S2P Require Import Prelude Bits Rbsp RbspFacts BitPack H265Parser H265Syntax H265ParserFacts H265SliceFacts H265Safe Packed265 PackedFacts.

(** ** Tile sizes *)
Lemma pic_in_ctb_ok n log2 : 0 <= n <= 2 ^ 16 -> 0 <= log2 <= 6 -> pic_in_ctb n log2 = Some ((n + 2 ^ log2 - 1) / 2 ^ log2).
Proof.
  intros Hn Hl. unfold pic_in_ctb, shl1. rewrite (proj2 (Z.ltb_lt _ _)) by lia. ostep.
  assert (0 < 2 ^ log2 <= 2 ^ 6) as Hp by (split; [apply Z.pow_pos_nonneg; lia|apply Z.pow_le_mono_r; lia]).
  unfold to_int. rewrite (Z.mod_small (2 ^ log2 + _)) by lia. replace (2 ^ log2 + 2 ^ 31 - 2 ^ 31) with (2 ^ log2) by lia.
  rewrite !u32_small by lia. assert (0 <= (n + 2 ^ log2 - 1) / 2 ^ log2 <= n + 2 ^ log2 - 1) as Hd.
  { split; [apply Z.div_pos; lia|]. apply Z.div_le_upper_bound; nia. }
  rewrite Z.mod_small by lia. f_equal. lia.
Qed.
(** The i-th of [n] tiles over [total] blocks. *)
Definition tile (n total i : Z) : Z := (i + 1) * total / n - i * total / n.
Lemma uniform_size_ok i n total : 0 <= i < n -> n <= 64 -> 0 <= total <= 2 ^ 15 -> uniform_size i n total = Some (tile n total i).
Proof.
  intros Hi Hn Ht. unfold uniform_size. rewrite !int32_ok by nia. ostep. f_equal. unfold tile.
  rewrite !Z.quot_div_nonneg by nia. unfold u16. rewrite Z.mod_small; [done|].
  assert (i * total / n <= (i + 1) * total / n) by (apply Z.div_le_mono; nia).
  assert (0 <= i * total / n) by (apply Z.div_pos; nia).
  assert ((i + 1) * total / n <= total) by (apply Z.div_le_upper_bound; nia). lia.
Qed.
Lemma tile_sum n total : 0 < n -> forall k, foldr Z.add 0 (map (fun i => tile n total (Z.of_nat i)) (seq 0 k)) = Z.of_nat k * total / n.
Proof.
  intros Hn. induction k as [|k IH]; [cbn; by rewrite Z.div_0_l by lia|].
  rewrite seq_S, map_app, foldr_app. cbn [map foldr]. assert (forall l a, foldr Z.add a l = foldr Z.add 0 l + a) as Hf.
  { intros l a. induction l as [|x l IHl]; cbn; lia. }
  rewrite Hf, IH. unfold tile. cbn [Nat.add]. rewrite Nat2Z.inj_succ. unfold Z.succ. lia.
Qed.
Definition tile_list (p : H265Pps) (n total : Z) (cap : nat) : list Z :=
  let l := if truth (tiles_enabled_flag p) then map (fun i => tile n total (Z.of_nat i)) (seq 0 (Z.to_nat n)) else [total] in
  l ++ replicate (cap - length l) 0.
Lemma tile_sizes_ok p n log2 pic cap : 0 < n <= Z.of_nat cap -> (0 < cap <= 64)%nat -> 0 <= pic <= 8192 -> 0 <= log2 <= 6 ->
  tile_sizes p n log2 pic cap = Some (tile_list p n ((pic + 2 ^ log2 - 1) / 2 ^ log2) cap).
Proof.
  intros Hn Hc Hp Hl. unfold tile_sizes. rewrite pic_in_ctb_ok by lia. ostep. set (total := _ / _).
  assert (0 < 2 ^ log2 <= 2 ^ 6) as Hpw by (split; [apply Z.pow_pos_nonneg; lia|apply Z.pow_le_mono_r; lia]).
  assert (0 <= total <= 2 ^ 15) as Ht by (unfold total; split; [apply Z.div_pos; lia|apply Z.div_le_upper_bound; nia]).
  unfold tile_list. destruct (truth (tiles_enabled_flag p)); cbn [negb].
  - rewrite Nat.min_l by lia. assert (mapM (fun i => uniform_size (Z.of_nat i) n total) (seq 0 (Z.to_nat n)) = Some (map (fun i => tile n total (Z.of_nat i)) (seq 0 (Z.to_nat n)))) as ->.
    { apply mapM_Some, Forall2_fmap_r, Forall_Forall2_diag, Forall_forall. intros i Hi%elem_of_seq. apply uniform_size_ok; lia. }
    ostep. done.
  - unfold u16. rewrite Z.mod_small by lia. done.
Qed.
Lemma length_tile_list p n total cap : 0 < n <= Z.of_nat cap -> (0 < cap)%nat -> length (tile_list p n total cap) = cap.
Proof.
  intros Hn Hc. unfold tile_list. rewrite length_app, length_replicate. destruct (truth _); [rewrite length_map, length_seq; lia|cbn [length]; lia].
Qed.

(** The i-th size of the array. *)
Definition tile_size (p : H265Pps) (n total i : Z) : Z :=
  if truth (tiles_enabled_flag p) then (if i <? n then tile n total i else 0) else if i =? 0 then total else 0.
Lemma tile_list_lookup p n total cap i : 0 < n <= Z.of_nat cap -> (i < cap)%nat -> tile_list p n total cap !! i = Some (tile_size p n total (Z.of_nat i)).
Proof.
  intros Hn Hi. unfold tile_list, tile_size. destruct (truth (tiles_enabled_flag p)).
  - destruct (Z.ltb_spec (Z.of_nat i) n).
    + rewrite lookup_app_l by (rewrite length_map, length_seq; lia). rewrite list_lookup_fmap, lookup_seq_lt by lia. done.
    + rewrite lookup_app_r by (rewrite length_map, length_seq; lia). apply lookup_replicate_2. rewrite length_map, length_seq. lia.
  - destruct i as [|i]; [done|]. cbn [app length lookup list_lookup]. apply lookup_replicate_2. lia.
Qed.
Lemma tile_size_range p n total i : 0 < n -> 0 <= i -> 0 <= total -> 0 <= tile_size p n total i <= total.
Proof.
  intros Hn Hi Ht. unfold tile_size. destruct (truth _); [|case_bool; lia]. destruct (Z.ltb_spec i n); [|lia]. unfold tile.
  assert (i * total / n <= (i + 1) * total / n) by (apply Z.div_le_mono; nia).
  assert (0 <= i * total / n) by (apply Z.div_pos; nia). assert ((i + 1) * total / n <= total) by (apply Z.div_le_upper_bound; nia). lia.
Qed.

(** ** The parameter set slot *)
Definition slot_fields (vps : option H265Vps) (s : H265Sps) (p : H265Pps) (tiles : list Z) : list (Z * Z) :=
  slot_sps_fields vps s ++ [(-1, 8)] ++ slot_pps_fields s p ++ [(-1, 30)] ++ entries minus1_or_0 12 tiles ++ [(0, 32); (0, 32); (0, 32); (0, 6); (-1, 34)].
Lemma packed_slot vps s p n : (RKH265_SPSPPS_UNIT_SIZE <= n)%nat ->
  0 <= num_tile_columns_minus1 p < 20 -> 0 <= num_tile_rows_minus1 p < 22 -> 0 <= pic_width_in_luma_samples s <= 8192 -> 0 <= pic_height_in_luma_samples s <= 8192 ->
  let log2 := log2_diff_max_min_luma_coding_block_size s + (log2_min_luma_coding_block_size_minus3 s + 3) in
  0 <= log2 <= 6 ->
  let tiles := tile_list p (num_tile_columns_minus1 p + 1) ((pic_width_in_luma_samples s + 2 ^ log2 - 1) / 2 ^ log2) 20 ++
               tile_list p (num_tile_rows_minus1 p + 1) ((pic_height_in_luma_samples s + 2 ^ log2 - 1) / 2 ^ log2) 22 in
  exists slot, H265PackPPS vps s p n = Some (Z.of_nat RKH265_SPSPPS_UNIT_SIZE, concat (replicate 64 slot)) /\
    length slot = RKH265_SPSPPS_SLOT_SIZE /\ le_num slot = pack (slot_fields vps s p tiles).
Proof.
  intros Hn Hc Hr Hw Hh log2 Hl tiles. unfold H265PackPPS. rewrite (proj2 (Nat.ltb_ge _ _)) by done. cbv zeta. fold log2.
  rewrite !tile_sizes_ok by lia. ostep. fold tiles.
  assert (length tiles = 42%nat) as Htl by (unfold tiles; rewrite length_app, !length_tile_list by lia; done).
  pose proof (packed_puts 14 (slot_sps_fields vps s) _ _ (packed_init 14) ltac:(widths)) as H. cbn [app] in H.
  apply (packed_align 14 _ _ 32 5 true) in H; [|done|done|cbn; lia]. change (to_multiple 32 (width _)) with 8 in H.
  apply (packed_puts 14 (slot_pps_fields s p)) in H; [|widths].
  apply (packed_align 14 _ _ 64 6 true) in H; [|done|done|cbn; lia]. change (to_multiple 64 (width _)) with 30 in H.
  apply (packed_puts 14 (entries minus1_or_0 12 tiles)) in H; [|by apply widths_entries_64].
  apply (packed_puts 14 [(0, 32); (0, 32); (0, 32); (0, 6)]) in H; [|widths]. rewrite <- !app_assoc in H.
  match type of H with packed _ _ ?l => assert (width l = 862) as Hwl end.
  { rewrite !width_app, width_entries, Htl. reflexivity. }
  apply (packed_align 14 _ _ 64 6 true) in H; [|done|done|lia]. rewrite Hwl in H. change (to_multiple 64 862) with 34 in H. rewrite <- !app_assoc in H. cbn [app] in H.
  match type of H with packed _ ?b _ => exists (bytes_of b) end. split; [done|]. split; [by rewrite length_bytes_of, (pk_len 14 _ _ H)|].
  refine (packed_bytes 14 _ _ H _). match type of H with packed _ _ ?l => change l with (slot_fields vps s p tiles) end.
  unfold slot_fields. rewrite !width_app, width_entries, Htl. cbn. lia.
Qed.
Lemma widths_slot vps s p tiles : widths_ok (slot_fields vps s p tiles).
Proof.
  unfold slot_fields, widths_ok. rewrite !Forall_app. split; [widths|]. split; [widths|]. split; [widths|]. split; [widths|]. split; [by apply widths_entries|widths].
Qed.
(** A tile size is one of the entries. *)
Lemma slot_tile vps s p tiles slot i t : le_num slot = pack (slot_fields vps s p tiles) -> tiles !! i = Some t -> 0 <= t <= 4096 ->
  field slot (256 + 12 * Z.of_nat i) 12 = minus1_or_0 t.
Proof.
  intros E Hi Ht. assert (minus1_or_0 t mod 2 ^ 12 = minus1_or_0 t) as <-.
  { apply Z.mod_small. unfold minus1_or_0, truth. destruct (Z.eqb_spec t 0); cbn [negb]; lia. }
  change 256 with (width (slot_sps_fields vps s ++ [(-1, 8)] ++ slot_pps_fields s p ++ [(-1, 30)])).
  eapply entry_field; [|unfold widths_ok; rewrite !Forall_app; split; [widths|split; [widths|split; widths]]|done|exact Hi].
  rewrite E. unfold slot_fields. by rewrite <- !app_assoc.
Qed.
Lemma slot_at {A} (slot : list A) n i : (i < n)%nat -> take (length slot) (drop (length slot * i) (concat (replicate n slot))) = slot.
Proof.
  revert i. induction n as [|n IH]; intros i Hi; [lia|]. cbn [replicate concat]. destruct i as [|i].
  - rewrite Nat.mul_0_r, drop_0, take_app_le, take_ge by lia. done.
  - replace (length slot * S i)%nat with (length slot + length slot * i)%nat by lia. rewrite <- drop_drop, drop_app_length. apply IH. lia.
Qed.

Lemma tables_ctbs s : sps_bounds s -> 0 <= pic_width_in_ctbs_y s <= 4096 /\ 0 <= pic_height_in_ctbs_y s <= 4096.
Proof.
  intros Hs. destruct (sb_ctb s Hs) as [Hl Ec]. pose proof (sb_width s Hs). pose proof (sb_height s Hs). rewrite (sb_width_ctbs s Hs), (sb_height_ctbs s Hs), Ec.
  pose proof (Z.pow_le_mono_r 2 3 (ctb_log2_size_y s) ltac:(lia) ltac:(lia)). pose proof (Z.pow_le_mono_r 2 (ctb_log2_size_y s) 6 ltac:(lia) ltac:(lia)).
  change (2 ^ 3) with 8 in *. change (2 ^ 6) with 64 in *. split; (split; [apply Z.div_pos; lia|apply Z.div_le_upper_bound; lia]).
Qed.
Lemma tiles_make_up n total : 0 < n -> foldr Z.add 0 (map (fun i => tile n total (Z.of_nat i)) (seq 0 (Z.to_nat n))) = total.
Proof. intros Hn. rewrite tile_sum, Z2Nat.id, Z.mul_comm by lia. apply Z.div_mul. lia. Qed.

(** ** Tables of equal blocks *)
Lemma concat_seq {A} (g : nat -> list A) n : concat (map g (seq 0 (S n))) = concat (map g (seq 0 n)) ++ g n.
Proof. rewrite seq_S, map_app, concat_app. cbn [map concat Nat.add]. by rewrite app_nil_r. Qed.
Lemma width_blocks (g : nat -> list (Z * Z)) w m n : (forall i, width (g i) = w) -> width (concat (map g (seq m n))) = w * Z.of_nat n.
Proof.
  intros Hg. revert m. induction n as [|n IH]; intros m; [by rewrite Z.mul_0_r|]. cbn [seq map concat]. rewrite width_app, Hg, (IH (S m)). lia.
Qed.
Lemma widths_blocks (g : nat -> list (Z * Z)) l : (forall i, widths_ok (g i)) -> widths_ok (concat (map g l)).
Proof. intros Hg. apply Forall_concat, Forall_map, Forall_forall. intros i _. apply Hg. Qed.
Lemma packed_blocks cap step (g : nat -> list (Z * Z)) base w bp l n : packed cap bp l -> width l = base -> (forall i, width (g i) = w) ->
  (forall bp l i, (i < n)%nat -> packed cap bp l -> width l = base + w * Z.of_nat i -> packed cap (step bp i) (l ++ g i)) ->
  packed cap (foldl step bp (seq 0 n)) (l ++ concat (map g (seq 0 n))).
Proof.
  intros H Hb Hg. induction n as [|n IH]; intros Hs; [by rewrite app_nil_r|].
  rewrite concat_seq, seq_S, foldl_app, app_assoc. cbn [foldl Nat.add]. apply Hs; [lia| |].
  - apply IH. intros. apply Hs; auto with lia.
  - rewrite width_app, (width_blocks g w), Hb by done. done.
Qed.
(** The i-th block of a table begins at a multiple of the width of one. *)
Lemma block_at buf a (g : nat -> list (Z * Z)) n b w i : le_num buf = pack (a ++ concat (map g (seq 0 n)) ++ b) -> widths_ok a ->
  (forall i, width (g i) = w) -> (forall i, widths_ok (g i)) -> (i < n)%nat ->
  exists a' b', le_num buf = pack (a' ++ g i ++ b') /\ widths_ok a' /\ width a' = width a + w * Z.of_nat i.
Proof.
  intros E Ha Hw Hg Hi. exists (a ++ concat (map g (seq 0 i))), (concat (map g (seq (S i) (n - S i))) ++ b). split; [|split].
  - rewrite E. replace n with (i + S (n - S i))%nat at 1 by lia. rewrite seq_app, map_app, concat_app. cbn [Nat.add seq map concat]. by rewrite <- !app_assoc.
  - apply Forall_app. split; [done|]. by apply widths_blocks.
  - rewrite width_app, (width_blocks g w) by done. done.
Qed.
(** Any run of fields is a field of its own. *)
Lemma run_at buf a k b : le_num buf = pack (a ++ k ++ b) -> widths_ok a -> widths_ok k -> field buf (width a) (width k) = pack k.
Proof.
  intros E Ha Hk. pose proof (pack_range k Hk) as Hr. rewrite (pack_app a), (pack_app k) in E by done.
  unfold field. pose proof (width_nonneg a Ha). pose proof (width_nonneg k Hk). rewrite Z.land_ones, Z.shiftr_div_pow2, E by done.
  pose proof (pack_range a Ha). rewrite (Z.mul_comm (2 ^ width a)), Z.div_add, Z.div_small, Z.add_0_l by lia.
  rewrite (Z.mul_comm (2 ^ width k)), Z.mod_add by lia. by apply Z.mod_small.
Qed.

(** ** The table of reference picture sets *)
Definition long_term_fields (s : H265Sps) (i : nat) : list (Z * Z) :=
  if Z.of_nat i <? num_long_term_ref_pics_sps s then
    [(default 0 (lt_ref_pic_poc_lsb_sps s !! i), 16); (default 0 (used_by_curr_pic_lt_sps_flag s !! i), 1); (0, 15)]
  else [(0, 32)].
Definition set_entry (r : H265ShortTermRPS) (j : nat) : list (Z * Z) :=
  [(u16 (default 0 (delta_poc r !! j)), 16); (default 0 (used_by_curr_pic_flag r !! j), 1)].
Definition packed_entries (r : H265ShortTermRPS) : nat := Z.to_nat (packed_negatives r + packed_positives r).
Definition set_slot (n : Z) (sets : list H265ShortTermRPS) (i : nat) : list (Z * Z) :=
  (if Z.of_nat i <? n then set_fields (default zero_rps (sets !! i)) else [(0, 263)]) ++ [(0, 57); (0, 64)].

Lemma packed_entries_max r : 0 <= num_negative_pics r -> 0 <= num_positive_pics r ->
  packed_entries r = Nat.min 15 (Z.to_nat (num_negative_pics r + num_positive_pics r)).
Proof.
  intros Hn Hp. unfold packed_entries, packed_positives, packed_negatives.
  destruct (Z.ltb_spec 15 (num_negative_pics r)), (Z.ltb_spec (15 - 15) (num_positive_pics r)), (Z.ltb_spec (15 - num_negative_pics r) (num_positive_pics r)); lia.
Qed.
Lemma set_fields_entries r : set_fields r = [(num_negative_pics r, 4); (num_positive_pics r, 4)] ++
  concat (map (set_entry r) (seq 0 (packed_entries r))) ++ concat (map (fun _ => [(0, 16); (0, 1)]) (seq (packed_entries r) (15 - packed_entries r))).
Proof. unfold set_fields. cbv zeta. by rewrite !flat_map_concat_map. Qed.
Lemma width_set_fields r : (packed_entries r <= 15)%nat -> width (set_fields r) = 263.
Proof.
  intros H. rewrite set_fields_entries, !width_app, (width_blocks _ 17), (width_blocks _ 17) by done. cbn [width]. lia.
Qed.
Lemma packed_entries_15 r : (packed_entries r <= 15)%nat.
Proof.
  unfold packed_entries, packed_positives, packed_negatives. destruct (Z.ltb_spec 15 (num_negative_pics r)); [destruct (Z.ltb_spec (15 - 15) (num_positive_pics r)); lia|].
  destruct (Z.ltb_spec (15 - num_negative_pics r) (num_positive_pics r)); lia.
Qed.
Lemma widths_set_fields r : Forall (fun x => 0 <= x.2 <= 64) (set_fields r).
Proof.
  rewrite set_fields_entries. rewrite !Forall_app. split; [widths|].
  split; apply Forall_concat, Forall_map, Forall_forall; intros; cbn; widths.
Qed.
Lemma width_set_slot n sets i : width (set_slot n sets i) = 384.
Proof. unfold set_slot. rewrite width_app. destruct (Z.ltb _ _); [rewrite width_set_fields by apply packed_entries_15|]; done. Qed.
Lemma widths_set_slot n sets i : widths_ok (set_slot n sets i).
Proof.
  unfold set_slot. apply Forall_app. split; [|widths]. destruct (Z.ltb _ _); [|widths]. eapply Forall_impl; [apply widths_set_fields|]. cbn. lia.
Qed.

Lemma packed_long_term s bp l i : packed 400 bp l -> packed 400 (put_long_term s bp i) (l ++ long_term_fields s i).
Proof.
  intros H. unfold put_long_term, long_term_fields. destruct (Z.ltb _ _); [|by apply packed_skip].
  apply (packed_put 400 _ _ (default 0 (lt_ref_pic_poc_lsb_sps s !! i)) 16) in H; [|lia].
  apply (packed_put 400 _ _ (default 0 (used_by_curr_pic_lt_sps_flag s !! i)) 1) in H; [|lia].
  apply (packed_skip 400 _ _ 15) in H; [|lia]. by rewrite <- !app_assoc in H.
Qed.
Lemma width_long_term s i : width (long_term_fields s i) = 32.
Proof. unfold long_term_fields. by destruct (Z.ltb _ _). Qed.
Lemma widths_long_term s i : widths_ok (long_term_fields s i).
Proof. unfold long_term_fields. destruct (Z.ltb _ _); widths. Qed.
Lemma packed_set n sets bp l i : (i < 64)%nat -> packed 400 bp l -> width l = 1024 + 384 * Z.of_nat i ->
  packed 400 (put_set n sets bp i) (l ++ set_slot n sets i).
Proof.
  intros Hi H Hw. unfold put_set, set_slot. cbv zeta. set (k := if Z.of_nat i <? n then set_fields _ else _).
  assert (packed 400 (if Z.of_nat i <? n then puts (set_fields (default zero_rps (sets !! i))) bp else packer_skip 263 bp) (l ++ k)) as Hk.
  { unfold k. destruct (Z.ltb _ _); [apply packed_puts; [done|apply widths_set_fields]|by apply packed_skip]. }
  assert (width (l ++ k) = 1024 + 384 * Z.of_nat i + 263) as Hwk.
  { rewrite width_app, Hw. unfold k. destruct (Z.ltb _ _); [by rewrite width_set_fields by apply packed_entries_15|done]. }
  apply (packed_align 400 _ _ 64 6 false) in Hk; [|done|done|lia].
  assert (to_multiple 64 (width (l ++ k)) = 57) as Ea.
  { rewrite Hwk. unfold to_multiple. symmetry. apply (Z.mod_unique_pos _ _ (- (21 + 6 * Z.of_nat i))); lia. }
  rewrite Ea in Hk. apply (packed_skip 400 _ _ 64) in Hk; [|lia]. by rewrite <- !app_assoc in Hk.
Qed.

(** The long-term pictures of the SPS, if it has any; the number of its sets. *)
Definition long_terms (s : option H265Sps) : list (Z * Z) :=
  match s with
  | Some s => if truth (long_term_ref_pics_present_flag s) && (0 <? num_long_term_ref_pics_sps s) then concat (map (long_term_fields s) (seq 0 32)) else [(0, 1024)]
  | None => [(0, 1024)]
  end.
Definition packed_sets (s : option H265Sps) : Z := Z.min 64 (from_option num_short_term_ref_pic_sets 0 s).
Lemma width_long_terms s : width (long_terms s) = 1024.
Proof. destruct s as [s|]; [|done]. cbn [long_terms]. destruct (_ && _); [|done]. by rewrite (width_blocks _ 32) by apply width_long_term. Qed.
Lemma widths_long_terms s : widths_ok (long_terms s).
Proof. destruct s as [s|]; [|widths]. cbn [long_terms]. destruct (_ && _); [|widths]. apply widths_blocks, widths_long_term. Qed.

Lemma packed_rps_265 parsed n : (RKH265_RPS_SIZE <= n)%nat -> let s := active_sps parsed in
  exists buf, H265PackRPS parsed n = (3200, buf) /\ length buf = RKH265_RPS_SIZE /\
    le_num buf = pack (long_terms s ++ concat (map (set_slot (packed_sets s) (from_option st_rps [] s)) (seq 0 64))).
Proof.
  intros Hn s. unfold H265PackRPS. rewrite (proj2 (Nat.ltb_ge _ _)) by done. cbv zeta. fold s.
  match goal with |- context [foldl (put_set _ _) ?b _] => assert (packed 400 b (long_terms s)) as H end.
  { pose proof (packed_init 400) as H. destruct s as [s0|]; cbn [long_terms]; [|exact (packed_skip 400 _ _ 1024 H ltac:(done))].
    destruct (_ && _); [|exact (packed_skip 400 _ _ 1024 H ltac:(done))].
    apply (packed_blocks 400 _ (long_term_fields s0) 0 32 _ [] 32 H eq_refl (width_long_term s0)).
    intros. by apply packed_long_term. }
  match goal with |- context [foldl (put_set ?m _) _ _] => assert (m = packed_sets s) as -> end.
  { unfold packed_sets. change (Z.of_nat H265_MAX_SHORT_TERM_RPS) with 64. case_bool; lia. }
  pose proof (packed_blocks 400 (put_set (packed_sets s) (from_option st_rps [] s)) _ 1024 384 _ _ 64 H (width_long_terms s)
    (width_set_slot (packed_sets s) (from_option st_rps [] s)) (fun b l i Hi Hb Hl => packed_set _ _ b l i Hi Hb Hl)) as Hp.
  eexists. split; [reflexivity|]. split; [by rewrite length_bytes_of, (pk_len 400 _ _ Hp)|].
  apply (packed_bytes 400 _ _ Hp). rewrite width_app, width_long_terms, (width_blocks _ 384) by apply width_set_slot. lia.
Qed.

(** ** Reading a set *)
Lemma pack_zeros k : Forall (fun x => x.1 = 0) k -> pack k = 0.
Proof. induction 1 as [|[v w] k Hv _ IH]; [done|]. cbn [pack fst] in *. by rewrite Hv, IH, Zmod_0_l, Z.mul_0_r. Qed.

Section reading.
Context (buf : list Z) (lt : list (Z * Z)) (n : Z) (sets : list H265ShortTermRPS).
Hypothesis (Elt : width lt = 1024) (Hlt : widths_ok lt) (E : le_num buf = pack (lt ++ concat (map (set_slot n sets) (seq 0 64)))).

Lemma slot_read i : (i < 64)%nat ->
  exists a b, le_num buf = pack (a ++ set_slot n sets i ++ b) /\ widths_ok a /\ width a = 1024 + 384 * Z.of_nat i.
Proof.
  intros Hi. rewrite <- Elt. apply (block_at buf lt _ 64 [] 384); try done; [by rewrite app_nil_r|apply width_set_slot|apply widths_set_slot].
Qed.
Lemma slot_unused i : (i < 64)%nat -> n <= Z.of_nat i -> field buf (1024 + 384 * Z.of_nat i) 384 = 0.
Proof.
  intros Hi Hn. destruct (slot_read i Hi) as (a & b & Ea & Ha & <-). rewrite <- (width_set_slot n sets i).
  rewrite (run_at buf a _ b Ea Ha (widths_set_slot n sets i)). unfold set_slot. rewrite (proj2 (Z.ltb_ge _ _)) by done. apply pack_zeros. by repeat constructor.
Qed.
Context (i : nat) (r : H265ShortTermRPS).
Hypothesis (Hi : (i < 64)%nat) (Hn : Z.of_nat i < n) (Hr : sets !! i = Some r).
Lemma slot_used : exists a b, widths_ok a /\ width a = 1024 + 384 * Z.of_nat i /\ le_num buf = pack (a ++ set_fields r ++ [(0, 57); (0, 64)] ++ b).
Proof.
  destruct (slot_read i Hi) as (a & b & Ea & Ha & Hw). exists a, b. split; [done|]. split; [done|]. rewrite Ea. unfold set_slot.
  rewrite (proj2 (Z.ltb_lt _ _)), Hr by done. cbn [default]. by rewrite <- app_assoc.
Qed.
Lemma counts_read : field buf (1024 + 384 * Z.of_nat i) 4 = num_negative_pics r mod 2 ^ 4 /\ field buf (1028 + 384 * Z.of_nat i) 4 = num_positive_pics r mod 2 ^ 4.
Proof.
  destruct slot_used as (a & b & Ha & Hw & Ea). rewrite set_fields_entries in Ea. split.
  - rewrite <- Hw. eapply field_at; [exact Ea|done|done].
  - replace (1028 + 384 * Z.of_nat i) with (width (a ++ [(num_negative_pics r, 4)])) by (rewrite width_app, Hw; cbn; lia).
    eapply field_at; [|by apply widths_snoc|done]. rewrite Ea. by rewrite <- !app_assoc.
Qed.
Lemma entry_read j : (j < packed_entries r)%nat ->
  field buf (1032 + 384 * Z.of_nat i + 17 * Z.of_nat j) 16 = u16 (default 0 (delta_poc r !! j)) /\
  field buf (1048 + 384 * Z.of_nat i + 17 * Z.of_nat j) 1 = default 0 (used_by_curr_pic_flag r !! j) mod 2 ^ 1.
Proof.
  intros Hj. destruct slot_used as (a & b & Ha & Hw & Ea). rewrite set_fields_entries, <- !app_assoc, (app_assoc a) in Ea.
  assert (widths_ok (a ++ [(num_negative_pics r, 4); (num_positive_pics r, 4)])) as Ha' by (apply Forall_app; split; [done|widths]).
  destruct (block_at _ _ (set_entry r) _ _ 17 j Ea Ha' ltac:(done) ltac:(intros; widths) Hj) as (a' & b' & E' & Hw' & Ew).
  rewrite width_app, Hw in Ew. cbn in Ew. split.
  - replace (1032 + 384 * Z.of_nat i + 17 * Z.of_nat j) with (width a') by lia.
    rewrite (field_at _ _ _ _ _ E' Hw' ltac:(done)). unfold u16. by rewrite Z.mod_mod.
  - replace (1048 + 384 * Z.of_nat i + 17 * Z.of_nat j) with (width (a' ++ [(u16 (default 0 (delta_poc r !! j)), 16)])) by (rewrite width_app; cbn; lia).
    eapply field_at; [|by apply widths_snoc|done]. rewrite E'. by rewrite <- !app_assoc.
Qed.
Lemma rest_read : field buf (1032 + 384 * Z.of_nat i + 17 * Z.of_nat (packed_entries r)) (376 - 17 * Z.of_nat (packed_entries r)) = 0.
Proof.
  destruct slot_used as (a & b & Ha & Hw & Ea). rewrite set_fields_entries in Ea. set (e := packed_entries r) in *. pose proof (packed_entries_15 r) as He. fold e in He.
  set (z := concat (map (fun _ => [(0, 16); (0, 1)]) (seq e (15 - e)))) in *.
  set (h := a ++ [(num_negative_pics r, 4); (num_positive_pics r, 4)] ++ concat (map (set_entry r) (seq 0 e))).
  assert (widths_ok z) as Hz by (apply widths_blocks; intros; widths).
  assert (le_num buf = pack (h ++ (z ++ [(0, 57); (0, 64)]) ++ b)) as Eh by (rewrite Ea; unfold h; by rewrite <- !app_assoc).
  replace (1032 + _ + _) with (width h) by (unfold h; rewrite !width_app, (width_blocks _ 17), Hw by done; cbn [width]; lia).
  replace (376 - _) with (width (z ++ [(0, 57); (0, 64)])) by (unfold z; rewrite width_app, (width_blocks _ 17) by done; cbn [width]; lia).
  rewrite (run_at _ _ _ _ Eh).
  - apply pack_zeros, Forall_app. split; [|by repeat constructor]. apply Forall_concat, Forall_map, Forall_forall. intros. by repeat constructor.
  - unfold h, widths_ok. rewrite !Forall_app. split; [done|]. split; [widths|]. apply widths_blocks. intros. widths.
  - apply Forall_app. split; [done|widths].
Qed.
End reading.

Lemma zero_field buf x a k b : le_num buf = pack (a ++ (0, x) :: b) -> widths_ok a -> 0 <= k.1 -> 0 <= k.2 -> k.1 + k.2 <= x ->
  field buf (width a + k.1) k.2 = 0.
Proof.
  destruct k as [p q]. cbn [fst snd]. intros E Ha Hp Hq Hx. pose proof (width_nonneg a Ha).
  assert (le_num buf = pack ((a ++ [(0, p)]) ++ (0, q) :: (0, x - p - q) :: b)) as Ec.
  { rewrite E, <- app_assoc, !(pack_app a) by done. cbn [app pack]. rewrite !Zmod_0_l, !Z.add_0_l, !Z.mul_assoc, <- !Z.pow_add_r by lia. do 2 f_equal. f_equal. lia. }
  replace (width a + p) with (width (a ++ [(0, p)])) by (rewrite width_app; cbn; lia). by rewrite (field_at _ _ _ _ _ Ec (widths_snoc _ _ _ Ha Hp) Hq), Zmod_0_l.
Qed.
Lemma long_term_read buf s b i : le_num buf = pack (concat (map (long_term_fields s) (seq 0 32)) ++ b) -> (i < 32)%nat ->
  let used := Z.of_nat i <? num_long_term_ref_pics_sps s in
  field buf (32 * Z.of_nat i) 16 = (if used then default 0 (lt_ref_pic_poc_lsb_sps s !! i) mod 2 ^ 16 else 0) /\
  field buf (32 * Z.of_nat i + 16) 1 = (if used then default 0 (used_by_curr_pic_lt_sps_flag s !! i) mod 2 ^ 1 else 0) /\
  field buf (32 * Z.of_nat i + 17) 15 = 0.
Proof.
  intros E Hi. destruct (block_at buf [] (long_term_fields s) 32 b 32 i E ltac:(constructor) (width_long_term s) (widths_long_term s) Hi) as (a & b' & Ea & Ha & Hw).
  change (width []) with 0 in Hw. rewrite Z.add_0_l in Hw. rewrite <- Hw. unfold long_term_fields in Ea. cbv zeta. destruct (Z.ltb _ _).
  - split; [by eapply field_at|]. split.
    + replace (width a + 16) with (width (a ++ [(default 0 (lt_ref_pic_poc_lsb_sps s !! i), 16)])) by (rewrite width_app; cbn; lia).
      eapply field_at; [|by apply widths_snoc|done]. rewrite Ea. by rewrite <- !app_assoc.
    + replace (width a + 17) with (width (a ++ [(default 0 (lt_ref_pic_poc_lsb_sps s !! i), 16); (default 0 (used_by_curr_pic_lt_sps_flag s !! i), 1)])) by (rewrite width_app; cbn; lia).
      rewrite (field_at _ _ 0 15 b'); [done| |apply Forall_app; split; [done|widths]|done]. rewrite Ea. by rewrite <- !app_assoc.
  - rewrite <- (Z.add_0_r (width a)) at 1. pose proof (fun k => zero_field buf 32 a k b' Ea Ha) as Hf.
    split; [exact (Hf (0, 16) ltac:(done) ltac:(done) ltac:(done))|].
    split; [exact (Hf (16, 1) ltac:(done) ltac:(done) ltac:(done))|exact (Hf (17, 15) ltac:(done) ltac:(done) ltac:(done))].
Qed.

Lemma long_terms_read buf s b i : le_num buf = pack (long_terms (Some s) ++ b) -> (i < 32)%nat ->
  let used := truth (long_term_ref_pics_present_flag s) && (Z.of_nat i <? num_long_term_ref_pics_sps s) in
  field buf (32 * Z.of_nat i) 16 = (if used then default 0 (lt_ref_pic_poc_lsb_sps s !! i) mod 2 ^ 16 else 0) /\
  field buf (32 * Z.of_nat i + 16) 1 = (if used then default 0 (used_by_curr_pic_lt_sps_flag s !! i) mod 2 else 0).
Proof.
  intros E Hi. cbn [long_terms] in E. cbv zeta. destruct (truth (long_term_ref_pics_present_flag s)) eqn:Et; cbn [andb] in *.
  - destruct (Z.ltb_spec 0 (num_long_term_ref_pics_sps s)) as [Hp|Hp].
    + destruct (long_term_read buf s b i E Hi) as (H1 & H2 & _). by split.
    + rewrite (proj2 (Z.ltb_ge _ _)) by lia. split; [exact (zero_field buf 1024 [] (32 * Z.of_nat i, 16) b E ltac:(constructor) ltac:(cbn; lia) ltac:(done) ltac:(cbn; lia))|].
      exact (zero_field buf 1024 [] (32 * Z.of_nat i + 16, 1) b E ltac:(constructor) ltac:(cbn; lia) ltac:(done) ltac:(cbn; lia)).
  - split; [exact (zero_field buf 1024 [] (32 * Z.of_nat i, 16) b E ltac:(constructor) ltac:(cbn; lia) ltac:(done) ltac:(cbn; lia))|].
    exact (zero_field buf 1024 [] (32 * Z.of_nat i + 16, 1) b E ltac:(constructor) ltac:(cbn; lia) ltac:(done) ltac:(cbn; lia)).
Qed.

(** ** What the parser guarantees *)
Lemma active_bounds parsed s : bounded parsed -> active_sps parsed = Some s -> sps_bounds s.
Proof.
  intros Hb. unfold active_sps. destruct (_ && _); [|done]. destruct (sps parsed !! _) as [s'|] eqn:El; [|done]. destruct (truth (sps_valid s')) eqn:Et; [|done].
  intros [= ->]. apply (b_sps _ Hb _ _ El). unfold truth in Et. by destruct (Z.eqb_spec (sps_valid s) 0).
Qed.
Lemma entry_bounds r j : rps_bounds r -> (j < 16)%nat -> fits16 (default 0 (delta_poc r !! j)) /\ 0 <= default 0 (used_by_curr_pic_flag r !! j) < 2 ^ 1.
Proof.
  intros Hr Hj. destruct (rb_pocs r Hr) as [L1 F1]. destruct (rb_used r Hr) as [L2 F2]. unfold H265_MAX_REFS in *.
  destruct (lookup_lt_is_Some_2 (delta_poc r) j ltac:(lia)) as [d Hd]. destruct (lookup_lt_is_Some_2 (used_by_curr_pic_flag r) j ltac:(lia)) as [u Hu].
  rewrite Hd, Hu. split; [exact (proj1 (Forall_lookup _ _) F1 j d Hd)|]. pose proof (proj1 (Forall_lookup _ _) F2 j u Hu) as H. unfold flag_ok, bits_ok in H. cbn. lia.
Qed.
Lemma signed_u16 x : fits16 x -> signed 16 (u16 x) = x.
Proof.
  unfold fits16. intros Hx. unfold signed, u16. change (2 ^ (16 - 1)) with 32768. change (2 ^ 16) with 65536. change (2 ^ 15) with 32768 in Hx. destruct (Z.le_gt_cases 0 x).
  - rewrite Z.mod_small by lia. rewrite (proj2 (Z.ltb_lt _ _)) by lia. done.
  - assert (x mod 65536 = x + 65536) as -> by (symmetry; apply (Z.mod_unique_pos _ _ (-1)); lia). rewrite (proj2 (Z.ltb_ge _ _)) by lia. lia.
Qed.

(** ** The scaling factors *)
Lemma overlay_app a b l c : length l = length b -> overlay (length a) l (a ++ b ++ c) = a ++ l ++ c.
Proof.
  intros Hl. unfold overlay. rewrite take_app_length, <- drop_drop, drop_app_length, Hl, drop_app_length. done.
Qed.
Lemma overlays_app ls : forall a b c, length b = length (concat ls) -> overlays (length a) ls (a ++ b ++ c) = a ++ concat ls ++ c.
Proof.
  induction ls as [|l ls IH]; intros a b c Hl; cbn [overlays concat] in *; [by apply nil_length_inv in Hl as ->|].
  rewrite length_app in Hl. rewrite <- (take_drop (length l) b), <- !app_assoc, overlay_app by (rewrite length_take; lia).
  rewrite (app_assoc a l), <- length_app, IH by (rewrite length_drop; lia). by rewrite <- app_assoc.
Qed.
Lemma length_flat_map_const {A B} (f : A -> list B) n l : (forall x, length (f x) = n) -> length (flat_map f l) = (length l * n)%nat.
Proof. intros Hf. induction l as [|x l IH]; [done|]. cbn [flat_map length]. rewrite length_app, Hf, IH. done. Qed.
Lemma length_transposed dim l : length (transposed dim l) = (dim * dim)%nat.
Proof. unfold transposed. rewrite (length_flat_map_const _ dim), length_seq; [done|]. intros. by rewrite length_map, length_seq. Qed.
Lemma transpose_app dim a m c : length m = (dim * dim)%nat -> transpose_inplace dim (length a) (a ++ m ++ c) = a ++ transposed dim m ++ c.
Proof.
  intros Hm. unfold transpose_inplace. rewrite drop_app_length, <- Hm, take_app_length. apply overlay_app. by rewrite length_transposed.
Qed.
Lemma transposes_app dim ms : forall a c, Forall (fun m => length m = (dim * dim)%nat) ms ->
  transposes dim (length ms) (length a) (a ++ concat ms ++ c) = a ++ concat (map (transposed dim) ms) ++ c.
Proof.
  unfold transposes. induction ms as [|m ms IH] using rev_ind; intros a c Hms; [done|]. apply Forall_app in Hms as [Hms Hm]. apply Forall_cons in Hm as [Hm _].
  rewrite length_app, seq_app, foldl_app. cbn [length seq foldl Nat.add]. rewrite concat_app, <- !app_assoc, IH by done. cbn [concat]. rewrite app_nil_r.
  rewrite map_app, concat_app. cbn [map concat]. rewrite app_nil_r, <- app_assoc.
  assert (length a + length ms * (dim * dim) = length (a ++ concat (map (transposed dim) ms)))%nat as ->.
  { rewrite length_app. f_equal. clear -Hms. induction ms as [|m ms IH]; [done|]. apply Forall_cons in Hms as [_ Hms].
    cbn [map concat length]. rewrite length_app, length_transposed, <- IH by done. lia. }
  rewrite (app_assoc a (concat _)), transpose_app by done. by rewrite <- !app_assoc.
Qed.
Lemma transposed_4_twice m : length m = 16%nat -> transposed 4 (transposed 4 m) = m.
Proof. intros H. do 16 (destruct m as [|? m]; [done|]). destruct m; [reflexivity|done]. Qed.

(** The six lists of a size, and the two of 32x32 that have room. *)
Definition scaling_layout (sl : H265ScalingList) : list Z :=
  concat (map (transposed 4) (scaling_list_4x4 sl)) ++ concat (map (transposed 8) (scaling_list_8x8 sl)) ++
  concat (map (transposed 8) (scaling_list_16x16 sl)) ++ concat (map (transposed 8) (take 2 (scaling_list_32x32 sl))) ++
  replicate 256 0 ++ concat (scaling_list_4x4 sl) ++ scaling_list_dc_16x16 sl ++
  flat_map (fun v => [v; 0; 0]) (take 2 (scaling_list_dc_32x32 sl)) ++ replicate 4 0.

Definition lists_are (n dim : nat) (ms : list (list Z)) : Prop := length ms = n /\ Forall (fun m => length m = (dim * dim)%nat) ms.
Lemma length_lists n dim ms : lists_are n dim ms -> length (concat ms) = (n * (dim * dim))%nat.
Proof. intros [<- H]. induction H as [|m ms Hm _ IH]; [done|]. cbn [concat length]. rewrite length_app, Hm, IH. done. Qed.
Lemma lists_transposed n dim ms : lists_are n dim ms -> lists_are n dim (map (transposed dim) ms).
Proof. intros [H _]. split; [by rewrite length_map|]. apply Forall_map, Forall_forall. intros. apply length_transposed. Qed.
(** The memory as segments, one of which a step changes. *)
Section segments.
Context (S : list (list Z)) (k : nat) (b : list Z).
Hypothesis Hb : S !! k = Some b.
Lemma overlay_seg off l : off = length (concat (take k S)) -> length l = length b -> overlay off l (concat S) = concat (<[k := l]> S).
Proof.
  intros -> Hl. pose proof (lookup_lt_Some _ _ _ Hb) as Hk. rewrite (insert_take_drop S k l) by done.
  rewrite <- (take_drop_middle S k b Hb) at 2. rewrite !concat_app. cbn [concat]. by apply overlay_app.
Qed.
Lemma overlays_seg off ls : off = length (concat (take k S)) -> length b = length (concat ls) -> overlays off ls (concat S) = concat (<[k := concat ls]> S).
Proof.
  intros -> Hl. pose proof (lookup_lt_Some _ _ _ Hb) as Hk. rewrite (insert_take_drop S k (concat ls)) by done.
  rewrite <- (take_drop_middle S k b Hb) at 2. rewrite !concat_app. cbn [concat]. by apply overlays_app.
Qed.
Lemma transposes_seg off n dim ms : off = length (concat (take k S)) -> b = concat ms -> lists_are n dim ms ->
  transposes dim n off (concat S) = concat (<[k := concat (map (transposed dim) ms)]> S).
Proof.
  intros -> Eb [<- Hm]. pose proof (lookup_lt_Some _ _ _ Hb) as Hk. rewrite (insert_take_drop S k (concat (map (transposed dim) ms))) by done.
  rewrite <- (take_drop_middle S k b Hb) at 2. rewrite !concat_app. cbn [concat]. rewrite Eb. by apply transposes_app.
Qed.
End segments.
Lemma shaped_lists sl : shaped sl -> lists_are 6 4 (scaling_list_4x4 sl) /\ lists_are 6 8 (scaling_list_8x8 sl) /\ lists_are 6 8 (scaling_list_16x16 sl) /\ lists_are 6 8 (scaling_list_32x32 sl).
Proof. intros H. split; [exact (H 0%nat)|]. split; [exact (H 1%nat)|]. split; [exact (H 2%nat)|exact (H 3%nat)]. Qed.

Ltac seg_len := cbn [take concat]; rewrite ?length_app; cbn [length Nat.add]; rewrite ?length_replicate; lia.
Ltac seg k := cbn [insert list_insert];
  first [erewrite (overlays_seg _ k); [|reflexivity|seg_len|seg_len] | erewrite (overlay_seg _ k); [|reflexivity|seg_len|seg_len]].
Ltac turn k L := erewrite (transposes_seg _ k); [|reflexivity|seg_len|reflexivity|exact L]; cbn [insert list_insert].

Lemma packed_scaling s p n sl : (RKH265_SCALING_LIST_SIZE <= n)%nat -> active_list s p = Some sl -> scaling_bounds sl ->
  H265PackScalingList s p n = (1360, scaling_layout sl) /\ length (scaling_layout sl) = RKH265_SCALING_LIST_SIZE.
Proof.
  intros Hn Hs [Hsh (_ & [H16 _] & [H32 _])]. destruct (shaped_lists sl Hsh) as (L4 & L8 & L16 & L32).
  unfold H265PackScalingList. rewrite (proj2 (Nat.ltb_ge _ _)), Hs by done. cbv zeta. unfold scaling_layout.
  rewrite !(take_ge _ 6) by (first [rewrite (proj1 L4)|rewrite (proj1 L8)|rewrite (proj1 L16)|rewrite H16]; lia).
  assert (lists_are 2 8 (take 2 (scaling_list_32x32 sl))) as K32 by (split; [rewrite length_take, (proj1 L32); done|apply Forall_take, L32]).
  assert (length (flat_map (fun v => [v; 0; 0]) (take 2 (scaling_list_dc_32x32 sl))) = 6%nat) as HD.
  { rewrite (length_flat_map_const _ 3), length_take, H32; done. }
  set (m4 := scaling_list_4x4 sl) in *. set (m8 := scaling_list_8x8 sl) in *. set (m16 := scaling_list_16x16 sl) in *. set (m32 := take 2 _) in *.
  set (d32 := flat_map _ _) in *. set (d16 := scaling_list_dc_16x16 sl) in *. clearbody m4 m8 m16 m32 d32 d16.
  pose proof (length_lists _ _ _ L4) as C4. pose proof (length_lists _ _ _ L8) as C8. pose proof (length_lists _ _ _ L16) as C16. pose proof (length_lists _ _ _ K32) as C32.
  pose proof (lists_transposed _ _ _ L4) as T4. pose proof (length_lists _ _ _ T4) as CT4.
  pose proof (length_lists _ _ _ (lists_transposed _ _ _ L8)) as CT8. pose proof (length_lists _ _ _ (lists_transposed _ _ _ L16)) as CT16.
  pose proof (length_lists _ _ _ (lists_transposed _ _ _ K32)) as CT32.
  set (Z4 := replicate 4 (replicate 64 0)). assert (lists_are 4 8 Z4) as KZ by (split; [done|by repeat constructor]).
  pose proof (length_lists _ _ _ KZ) as CZ.
  change (replicate RKH265_SCALING_LIST_SIZE 0) with (concat [replicate 96 0; replicate 384 0; replicate 384 0; replicate 128 0; replicate 256 0; replicate 96 0; replicate 6 0; replicate 6 0; replicate 4 0]).
  seg 0%nat. seg 1%nat. seg 2%nat. seg 3%nat. seg 4%nat. seg 5%nat. seg 6%nat. seg 7%nat.
  cbn [insert list_insert].
  match goal with |- context [concat [?a; ?b; ?c; ?d; ?e; ?f; ?g; ?h; ?i]] =>
    replace (concat [a; b; c; d; e; f; g; h; i]) with (concat [a; b; c; concat (m32 ++ Z4); f; g; h; i]) by (cbn [concat]; rewrite concat_app, <- !app_assoc; done) end.
  assert (lists_are 6 8 (m32 ++ Z4)) as K6.
  { split; [rewrite length_app, (proj1 K32); done|]. apply Forall_app. split; [apply K32|apply KZ]. }
  pose proof (length_lists _ _ _ (lists_transposed _ _ _ K6)) as CT6.
  turn 0%nat L4. turn 1%nat L8. turn 2%nat L16. turn 3%nat K6. turn 4%nat T4.
  assert (map (transposed 4) (map (transposed 4) m4) = m4) as ->.
  { rewrite map_map. rewrite <- (map_id m4) at 2. apply map_ext_in. intros m Hm%list_elem_of_In. apply transposed_4_twice.
    exact (proj1 (Forall_forall _ _) (proj2 L4) m Hm). }
  rewrite map_app, concat_app. change (concat (map (transposed 8) Z4)) with (replicate 256 0). cbn [concat]. rewrite app_nil_r, <- !app_assoc.
  split; [done|]. rewrite !length_app, !length_replicate, HD, H16, C4, CT4, CT8, CT16, CT32. done.
Qed.

(** ** Reading a matrix *)
Lemma lookup_flat {A B} (f : A -> list B) n l : (forall x, length (f x) = n) -> forall m j x, l !! m = Some x -> (j < n)%nat -> flat_map f l !! (n * m + j)%nat = f x !! j.
Proof.
  intros Hf. induction l as [|y l IH]; intros m j x Hm Hj; [done|]. cbn [flat_map]. destruct m as [|m].
  - injection Hm as ->. rewrite Nat.mul_0_r. apply lookup_app_l. by rewrite Hf.
  - rewrite lookup_app_r by (rewrite Hf; lia). rewrite Hf. replace (n * S m + j - n)%nat with (n * m + j)%nat by lia. by apply IH.
Qed.
Lemma transposed_lookup dim l i k : length l = (dim * dim)%nat -> (i < dim)%nat -> (k < dim)%nat -> transposed dim l !! (dim * i + k)%nat = l !! (dim * k + i)%nat.
Proof.
  intros Hl Hi Hk. unfold transposed. rewrite (lookup_flat _ dim _ (fun x => eq_trans (length_map _ _) (length_seq _ _)) i k i); [|by apply lookup_seq_lt|done].
  rewrite list_lookup_fmap, lookup_seq_lt by done. cbn [fmap option_fmap option_map]. rewrite (Nat.mul_comm dim k).
  destruct (lookup_lt_is_Some_2 l (k * dim + i)) as [v Hv]; [rewrite Hl; nia|]. cbn [Nat.add]. by rewrite Hv.
Qed.
Lemma lookup_lists n dim ms m l j : lists_are n dim ms -> ms !! m = Some l -> (j < dim * dim)%nat -> concat ms !! (dim * dim * m + j)%nat = l !! j.
Proof.
  intros [_ H]. revert m. induction H as [|y ms Hy H IH]; intros m Hm Hj; [done|]. cbn [concat]. destruct m as [|m].
  - injection Hm as ->. rewrite Nat.mul_0_r. apply lookup_app_l. by rewrite Hy.
  - rewrite lookup_app_r by (rewrite Hy; lia). rewrite Hy. replace (dim * dim * S m + j - dim * dim)%nat with (dim * dim * m + j)%nat by lia. by apply IH.
Qed.
Lemma matrix_lookup n dim ms m l i k : lists_are n dim ms -> ms !! m = Some l -> (i < dim)%nat -> (k < dim)%nat ->
  concat (map (transposed dim) ms) !! (dim * dim * m + (dim * i + k))%nat = l !! (dim * k + i)%nat.
Proof.
  intros Hms Hm Hi Hk. pose proof (lists_transposed _ _ _ Hms) as Ht.
  rewrite (lookup_lists n dim _ m (transposed dim l) _ Ht) by (first [by rewrite list_lookup_fmap, Hm|nia]).
  apply transposed_lookup; [|done|done]. exact (proj1 (Forall_lookup _ _) (proj2 Hms) m l Hm).
Qed.
Lemma segment_lookup (T : list (list Z)) k b off j : T !! k = Some b -> off = length (concat (take k T)) -> (j < length b)%nat -> concat T !! (off + j)%nat = b !! j.
Proof.
  intros Hb -> Hj. assert (concat T = concat (take k T) ++ b ++ concat (drop (S k) T)) as ->.
  { rewrite <- (take_drop_middle T k b Hb) at 1. by rewrite concat_app. }
  rewrite lookup_app_r by lia. rewrite lookup_app_l by lia. f_equal. lia.
Qed.

Section layout.
Context (sl : H265ScalingList) (Hb : scaling_bounds sl).
Definition scaling_segments : list (list Z) :=
  [concat (map (transposed 4) (scaling_list_4x4 sl)); concat (map (transposed 8) (scaling_list_8x8 sl));
   concat (map (transposed 8) (scaling_list_16x16 sl)); concat (map (transposed 8) (take 2 (scaling_list_32x32 sl)));
   replicate 256 0; concat (scaling_list_4x4 sl); scaling_list_dc_16x16 sl;
   flat_map (fun v => [v; 0; 0]) (take 2 (scaling_list_dc_32x32 sl)); replicate 4 0].
Lemma layout_segments : scaling_layout sl = concat scaling_segments.
Proof. unfold scaling_layout, scaling_segments. cbn [concat]. by rewrite app_nil_r. Qed.
Lemma first_32 : lists_are 2 8 (take 2 (scaling_list_32x32 sl)).
Proof. destruct Hb as [Hsh _]. destruct (Hsh 3%nat) as [H1 H2]. split; [rewrite length_take; cbn in H1; lia|by apply Forall_take]. Qed.
Lemma segment_lengths : map length scaling_segments = [96; 384; 384; 128; 256; 96; 6; 6; 4]%nat.
Proof.
  destruct Hb as (Hsh & _ & [H16 _] & [H32 _]). destruct (shaped_lists sl Hsh) as (L4 & L8 & L16 & L32). unfold scaling_segments. cbn [map].
  rewrite (length_lists _ _ _ (lists_transposed _ _ _ L4)), (length_lists _ _ _ (lists_transposed _ _ _ L8)), (length_lists _ _ _ (lists_transposed _ _ _ L16)),
    (length_lists _ _ _ (lists_transposed _ _ _ first_32)), (length_lists _ _ _ L4), H16, (length_flat_map_const _ 3), length_take, H32; done.
Qed.
Definition segment_offset (k : nat) : nat := foldr Nat.add 0%nat (take k [96; 384; 384; 128; 256; 96; 6; 6; 4]%nat).
Lemma layout_lookup k b off j : scaling_segments !! k = Some b -> off = segment_offset k -> (j < length b)%nat -> scaling_layout sl !! (off + j)%nat = b !! j.
Proof.
  intros Hk -> Hj. rewrite layout_segments. apply (segment_lookup _ k); [done| |done]. unfold segment_offset. rewrite <- segment_lengths, firstn_map.
  generalize (take k scaling_segments). intros T. induction T as [|x T IH]; [done|]. cbn [map foldr concat]. by rewrite length_app, IH.
Qed.
Lemma layout_matrix seg n dim ms off m l i k : scaling_segments !! seg = Some (concat (map (transposed dim) ms)) -> off = segment_offset seg ->
  lists_are n dim ms -> ms !! m = Some l -> (i < dim)%nat -> (k < dim)%nat -> scaling_layout sl !! (off + dim * dim * m + dim * i + k)%nat = l !! (dim * k + i)%nat.
Proof.
  intros Hs Ho Hms Hm Hi Hk. rewrite <- (matrix_lookup n dim ms m l i k) by done. rewrite <- !Nat.add_assoc. apply (layout_lookup seg); [done|done|].
  rewrite (length_lists n dim) by (by apply lists_transposed). pose proof (lookup_lt_Some _ _ _ Hm) as Hlt. rewrite (proj1 Hms) in Hlt. nia.
Qed.
End layout.
