(* ===== verification/PackedProps.v ===== *)
(** * Properties of the packed tables

    The bit packer against the number its fields make up, and what the hardware reads at
    which bit of the tables of H.264 and HEVC, from the structures of the parsers and the
    selection of the H.264 DPB. *)

From S2P Require Import Prelude Bits Rbsp RbspFacts BitPack.
From S2P Require H264Parser H264ParserFacts H264Safe H265Parser H265Safe.
From S2P Require Import Dpb Dpb264 Dpb264Facts Packed264 PackedFacts.
From S2P Require Packed265 Packed265Facts.

(** ** The bit packer *)

(** C21: fields of up to 64 bits put one behind the other give the buffer that is, as a
    little-endian number, the fields of which each begins at the sum of the widths before
    it, cut off at the capacity: a field across two words is whole, one across the end of
    the buffer loses its upper bits and nothing else changes, and each field that fits is
    read back at its place, cut to its width. *)
Theorem packer_exact cap l : Forall (fun x => 0 <= x.2 <= 64) l ->
  let buf := bytes_of (puts l (packer_init cap)) in
  length buf = (8 * cap)%nat /\ le_num buf = pack l mod 2 ^ (64 * Z.of_nat cap) /\
  forall i v w, l !! i = Some (v, w) -> width (take i l) + w <= 64 * Z.of_nat cap -> field buf (width (take i l)) w = v mod 2 ^ w.
Proof.
  intros Hl buf. pose proof (packed_puts cap l _ _ (packed_init cap) Hl) as H. cbn [app] in H.
  assert (le_num buf = pack l mod 2 ^ (64 * Z.of_nat cap)) as E by (unfold buf, bytes_of; rewrite le_num_words by apply H; apply H).
  split; [unfold buf; by rewrite length_bytes_of, (pk_len _ _ _ H)|]. split; [done|]. intros i v w Hi Hw.
  pose proof (pk_widths _ _ _ H) as Hwd. pose proof (proj1 (Forall_forall _ _) Hwd (v, w) (list_elem_of_lookup_2 _ _ _ Hi)) as Hw0. cbn in Hw0.
  assert (widths_ok (take i l)) as Ht by (by apply Forall_take). pose proof (width_nonneg _ Ht).
  rewrite (field_mod buf (pack l) (64 * Z.of_nat cap)) by (done || lia).
  apply (field_of_pack _ v w (drop (S i) l)); [by rewrite take_drop_middle|done|done].
Qed.
(** A field across the end of a word and one across the end of a buffer of two. *)
Lemma packer_exact_witness :
  let buf := bytes_of (puts [(0x1fff, 13); (0xabcdef0123456789, 60); (5, 3); (-1, 64)] (packer_init 2)) in
  length buf = 16%nat /\ field buf 13 60 = 0xbcdef0123456789 /\ field buf 73 3 = 5.
Proof.
  destruct (packer_exact 2 [(0x1fff, 13); (0xabcdef0123456789, 60); (5, 3); (-1, 64)]) as (H1 & _ & H2).
  { repeat constructor; cbn; lia. }
  split; [exact H1|]. split; [exact (H2 1%nat _ _ eq_refl ltac:(vm_compute; discriminate))|exact (H2 2%nat _ _ eq_refl ltac:(vm_compute; discriminate))].
Defined.

(** ** H.264 *)
Section h264.
Import H264Parser H264Safe.



End h264.



(** ** HEVC *)
Section h265.
Import H265Parser H265Safe Packed265 Packed265Facts.






End h265.
